(* ===== verification/_CoqProject ===== *)
-Q . S2P
Prelude.v
JsString.v
JsValue.v
JsMap.v
ApiClient.v
Session.v
Boundary.v
FilterQuery.v
FilterTree.v
FilterEdits.v
FilterLaws.v
CascaderLib.v
CascaderFacts.v
CascaderLaws.v
CascaderLoader.v
CascaderLoaderLaws.v
FilterSchema.v
FilterSchemaLaws.v
Clipboard.v
CellSelection.v
CellKeys.v
CellEditor.v
CellSelectionLaws.v
CellKeysLaws.v
CellEditorLaws.v
PublicApi.v
PublicApiLaws.v
AppLib.v
FileUpload.v
Filters.v
FiltersLaws.v
FilterDrag.v
FilterDragLaws.v
CodeText.v
CodeTextLaws.v
CodeHighlight.v
CodeHighlightLaws.v
Ansi.v
UnifiedDiff.v
CodeBlock.v
CodeBlockLaws.v
FilterDate.v
DateSelector.v
FilterDateLaws.v
DateSelectorLaws.v
CascaderView.v
CascaderRoot.v
CascaderRootLaws.v
CascaderKeys.v
CascaderKeysLaws.v
CascaderViewLaws.v
SitesApi.v
SiteHours.v
SiteEdit.v
MapLayers.v
SiteLaws.v
SiteMap.v
SitesPage.v
SiteMapLaws.v
Reports.v
ReportsLaws.v
Roles.v
Overlays.v
Checklists.v
ChecklistsLaws.v
Hierarchy.v
Settings.v
SettingsLaws.v
Ingest.v
IngestLaws.v
OrgPages.v
OrgPagesLaws.v
FilterEditors.v
FilterMenu.v
FilterEditorsLaws.v
FilterMenuLaws.v
FilterPanel.v
FilterPanelLaws.v
FilterChip.v
FilterChipLaws.v
