(* ===== verification/Prelude.v ===== *)
(** * Premise web tier

    Premise is a multi-tenant SaaS for organizations with many sites.  Its
    browser side lives under [src/web]: two applications, [apps/console] (the
    signed-in console) and [apps/public] (the visitor's locator, rendered on
    the server), over two packages, [packages/api] (the typed client of the
    HTTP API) and [packages/ui] (the component library).  This library models
    the logic of that tier, file by file, and proves what its callers rely on.
    The C# server behind the API is outside of it - what the server answers is
    an argument of the definitions that meet an answer - but for the CSV reader
    that receives the console's file of invalid rows, and the rule by which a
    role's grants cover a capability ([GrantScopeResolver.cs], in [Roles]).

    Paths below are relative to [src/web].

    ** How the program is put together

    A console tab holds one session.  [packages/api/src/client.ts] sends every
    request, keeps the session the server last named in two module variables
    and refuses answers that belong to another session.
    [apps/console/src/session.tsx] parses [/me] into the signed-in principal,
    [app/shell/nav.ts] and [shell.tsx] decide what it sees, and
    [app/session-boundary.tsx] replaces the query client and the tree beneath
    it whenever the session changes, once the writes in flight have ended.
    Pages build on four large widgets of [packages/ui]: the filter builder
    ([reui/filters]), the cascading tree picker ([reui/cascader]), the data
    grid ([reui/data-grid]) and the code block ([reui/code-block]); uploads go
    through [lib/uploads.ts] and the hook
    [hooks/use-file-upload.ts].  The public site relays the visitor's session
    cookies between the browser and the API and renders locator and sitemap.

    ** The files

    - [Prelude], [JsString], [JsMap], [JsValue]: notation, tactics and hints;
      strings as UTF-8 bytes; [Map] and [Set] as ordered association lists;
      values of type [unknown], numbers, [JSON.parse] and [JSON.stringify].
    - [ApiClient]: [packages/api/src/client.ts].  [request] awaits once, so it
      is [request_start] and [request_settle]; the module variables are
      [ClientState]; [step] interleaves requests and resets.
    - [Session]: [packages/api/src/keys.ts], [apps/console/src/session.tsx],
      [app/shell/nav.ts], [shell.tsx], the setup list of [pages/dashboard.tsx].
    - [Boundary]: [app/session-boundary.tsx].  The awaits of [transition] are
      the phases of the state; [handle] is one event.
    - [FilterQuery]: [reui/filters/filters-query.tsx] and the data of
      [filters-types.tsx]; an edit answers [None] for the very object it was
      given, which the code promises for an edit that changes nothing.
      [FilterTree] decomposes a query around a node, [FilterEdits] proves each
      edit on that decomposition, [FilterLaws] holds the properties and the
      edit session over a source of ids.
    - [FilterSchema], [FilterSchemaLaws]: [filters-lib.tsx],
      [filters-operators.tsx], [filters-draft.tsx].
    - [Filters], [FiltersLaws]: [filters.tsx], the filter bar.  The refs and
      the states of the component are one record [FilterBar]; [commit] is a
      render followed by its effects, [act] an action of the context, and
      [run] a session of both.  A query the bar writes goes through [emit].
    - [FilterEditors], [FilterMenu] and their laws: [filters-editors.tsx].
      [FilterEditors.Service] is [useFilterOptions] as a state machine (the
      React state as queued, what the last commit closed over, the requests in
      flight); [FilterMenu] the list the menus share, its pin keeper
      ([Keeper]), the editors and the choice of an editor.
    - [FilterPanel], [FilterPanelLaws]: [filters-advanced.tsx].  What the
      panel draws is a list of cells in document order, which the keyboard
      reads back as the code does with its selectors; adding and picking act
      on the bar of [Filters].
    - [FilterChip], [FilterChipLaws]: [filters-chip.tsx] and
      [filters-builder.tsx].  [Row] is a rule of the bar with its two popovers,
      [row_step] one event of it; the end of a panel's exit, which the popover
      library decides, is an event.
    - [FilterDrag], [FilterDragLaws]: [filters-dnd.tsx], from the pointer to
      the move it drops, over coordinates in [Q].
    - [FilterDate], [FilterDateLaws]: [filters-date.tsx] over the class
      [Calendar], which names the functions of date-fns it calls.
    - [CascaderLib]: [reui/cascader/cascader-lib.tsx]; [CascaderFacts] shows
      its loops end, [CascaderLaws] holds the properties.
    - [CascaderLoader], [CascaderLoaderLaws]: the hook of
      [reui/cascader/cascader-async.tsx] as a state machine whose events are
      commits, effects, calls, timers and the settling of requests.
    - [CascaderView], [CascaderViewLaws]: what [reui/cascader/cascader.tsx]
      shows - levels, columns, tree rows, the sentence of the live region.
    - [CascaderRoot], [CascaderRootLaws]: the root component.  [Ctl] is
      [useControllable], a handler is a [Step], [commit_root] a render with
      its effects, and [root_step] one event, the loader's included.
    - [CascaderKeys], [CascaderKeysLaws]: the keys of the search field, the
      rows, the footer and its flyouts ([cascader-nav.tsx],
      [cascader-item.tsx], [cascader-footer.tsx]).
    - [Clipboard], [CellSelection], [CellSelectionLaws]:
      [reui/data-grid/data-grid-cell-selection.tsx] - clipboard text, the
      selection's geometry, copy, clear, paste, fill and the handlers;
      [CellKeys], [CellEditor] and their laws: its keyboard, and its overlay
      editor, controls and mouse, over a store of cells.
    - [DateSelector], [DateSelectorLaws]: [reui/date-selector.tsx] with its
      effects under a controlling parent.
    - [CodeText], [CodeHighlight], [Ansi], [UnifiedDiff], [CodeBlock] and
      their laws: [reui/code-block] - lines and word decorations, the grammar
      tokenizer and its incremental reuse, terminal colours, the reader of
      unified diffs, and the line model, folding and selection of the block.
    - [PublicApi], [PublicApiLaws]: [apps/public/src].
    - The console's sites: [SitesApi] ([features/sites/api.ts], [hooks.ts],
      [schema.ts]), [SiteHours], [SiteEdit] (the new-site and edit forms),
      [MapLayers] (filters and layers of the map), with [SiteLaws];
      [SiteMap] ([packages/ui/src/components/site-map.tsx] over a MapLibre map
      kept as a record) and [SitesPage] ([sites-page.tsx], [lib/map.ts]), with
      [SiteMapLaws].
    - The other features, one file and one file of laws each: [Reports],
      [Roles], [Overlays], [Checklists] (with the drag end of
      [reui/sortable.tsx]), [Hierarchy], [Settings] (Modules [Settings],
      [Account], [Operator]), [Ingest] (Module [Csv] holds the console's
      writer and the server's [CsvParser.cs] and [StagingService.cs]; Module
      [Ingest] the page), [OrgPages] (members, developers, audit, files,
      command search).
    - [AppLib]: [apps/console/src/lib] and [app] - uploads, mutations,
      preferences, the tab cache, the theme, schedules, labels.
    - [FileUpload]: [packages/ui/src/hooks/use-file-upload.ts].

    ** Conventions

    Names are the source's.  A component's state is a record, its events an
    inductive type, and its step a function from a state and an event to the
    next state and what the code does to the outside.  An exception is
    [Throw e] of [result]; [undefined] or [null] where the code tells them
    from a value is [None].  An asynchronous function is cut at its awaits, so
    that anything may happen in between.  Third-party code (TanStack Query and
    Table, React, the DOM, [fetch]) appears as arguments or as the actions a
    step returns.  Typed values come from a checked TypeScript program and are
    records; values the code receives as [unknown] are [JsValue.val].

    ** Fuel

    Recursion over data is structural.  Fuel appears where a loop is not:
    - the climbs and guarded walks of the cascader's index; a climb visits
      each indexed value at most once, so the number of values bounds it, and
      CascaderFacts and CascaderLaws prove the fuel of [ancestors],
      [collectCascaderSubtree] and [isWithin] complete.  [flattenCascaderTree]
      and [findCascaderDataIssues] run on the same bound; the expanded levels
      of a cyclic flat index, on which the code would not return, are cut off;
    - [sitemap_loop] and [poll_loop], where it is the code's own bound of 250
      pages and 60 polls; [attempts], where [run_enough] shows that two turns
      are all there are; [clamp_walk], whose fuel is the distance to the row
      it stops at;
    - the code block's scans ([line_search], [occurrences], [strip_escapes],
      [ansi_loop], [add_lines]): each turn consumes a character or a row of
      what it reads, and the fuel is one more than that length;
      [range_fuel_complete] shows the expansion of a range of lines whole;
    - [SitesApi.pages], given as many turns as there are ids: a page takes at
      least one; [ReportsLaws.poll], whose fuel is the seconds up to the end of
      the run or five minutes after its start, as [polling_stops] proves;
    - [parse_value] of JsValue, given more than twice the length of the text:
      every turn reads a character or descends one level of a value that does;
      and [decimals], the 20 places a printed fraction may have.

    ** What the theorems show

    - Session safety: between resets a tab adopts one session; a reset strands
      every answer in flight; an answer that is delivered was judged; the
      session header goes on every request but [/me]; an error says whether
      the outcome is unknown; URLs keep their segments; [/me] round-trips.
    - The boundary: a session change waits for the writes in flight, resets
      the client once, ends whatever its calls come to and whatever happens
      in between, and leaves no earlier query behind.
    - The filter query: ids stay distinct through every edit; removing,
      moving, updating, wrapping, pruning touch exactly what they name; the
      validation finds exactly the incomplete conditions.
    - The filter schema: lookups answer the paths they list; negation is an
      involution; a coerced value fits its operator; exclusive options.
    - The filter bar: every query it emits is what the consumer's veto
      approved; ids stay distinct through a session; a locked bar is inert; a
      draft becomes exactly one rule; a value is asked for once.
    - Dragging: what the indicator shows is what the drop does, and a drop in
      place moves nothing.  Relative dates survive their printed form.
    - The cascader: an index is the tree of its items, in which the first node
      with a value wins; cascade selection keeps its closure;
      the memoised search agrees with its definition; a level that reads as
      loading has a live request, and an overtaken answer changes nothing.
    - The cascader's root: a navigation waits for its level and then happens
      once; a press selects what may be selected, within [max]; a declined
      close is asked again; a tree query shows every hit with the branches
      above it; moving the highlight ends, at its row.
    - The data grid: clipboard text round-trips; a paste covers the rectangle
      Excel's rule names; copy and paste in place writes each cell over
      itself; the fill's preview is what its release commits.
    - The code block: decorations and folds stay within their lines; a diff's
      rows add up to its headers; colours stay in their tables.
    - The filter editors: the list shows the answer to the query typed last;
      a spinner is a request in flight; a label once seen is never lost; the
      menu's rows are the caller's in three groups with a rule at each start;
      the chase of the highlight ends, at its row; an exclusive pick is alone
      and is announced when it costs other picks.
    - The advanced panel: the vertical keys walk the rows of a band and land
      in the nearest column, but for the one Base UI takes at a menu's
      trigger; it is one tab stop; an added condition is asked
      for in three questions; the text cell writes once.  A menu offers exactly
      the moves there are; a condition chosen for a new rule opens its value.
    - The grid's keys and editor: single selection never grows, a jump lands on
      a shown row, an editor writes once, focusing a cell ends.  The date
      selector: ranges run forward, and it settles with its parent.
    - Sites: fetched by id once, in order, or an error; an untouched edit keeps
      every attribute but an empty text; the map's sources, layers and selection follow its
      props through style swaps; the selection survives search and panning.
    - Reports: what is sent passes its own rules and the allowance; the
      idempotency key is kept exactly for the request that has no answer; a
      run is polled to its end and no longer.
    - The other features: a saved role grants what is checked, and what a
      half-wildcard it came with covers; a scope shows
      its subtree; the remembered checklist site is in scope; template rows
      stay apart; the tree is the hierarchy and levels in use stay; a slug is
      its words; the file of invalid rows reads back on the server; the audit
      trail shows every row once.
    - The public site: the API's session cookies and no others are relayed, one
      for one, host-only and secured, after a confirmation; the sitemap is whole or an error.
    - Uploads: a file id is returned exactly when storage accepted and the
      scan came back clean; the upload list holds valid files only.

    Where the code does not do what its comments say, a lemma exhibits it on a
    concrete input: [Session.suspended_unreachable],
    [FilterLaws.remove_drops_unrelated_group],
    [FiltersLaws.vetoed_draft_strands_focus], [lost_group_is_announced] and
    [vetoed_value_marks_row], [FilterDateLaws.weekday_drifts],
    [CascaderLoaderLaws.close_strands_paging] and [close_strands_resolve],
    [CascaderRootLaws.held_push_lands_elsewhere], [deep_hit_loses_trail] and
    [unselectable_leaf_is_committed], [CascaderKeysLaws.search_retry_is_inert]
    and [typeahead_skips_the_first],
    [CellSelectionLaws.paste_overruns_selection], [copied_column_loses_last]
    and [jump_extend_drops_focus], [FileUpload.duplicate_drops_batch] and
    [document_url_leaks], [PublicApi.Locator.late_page_joins_new_search],
    [CellEditorLaws.stale_press_swallows_key_click],
    [cancelled_editor_still_commits] and [cut_chord_clears_a_later_selection],
    [DateSelectorLaws.new_handlers_never_settle], [typed_year_ping_pongs] and
    [year_range_is_never_read], [FilterEditorsLaws.stale_cursor_travels] and
    [own_abort_spins], [FilterMenuLaws.empty_value_cannot_be_picked],
    [FilterPanelLaws.delete_skips_a_row],
    [vetoed_row_takes_the_tab_stop], [same_number_keeps_the_text] and
    [FilterChipLaws.vetoed_condition_arms_a_step]; the last
    section of each console feature's laws holds its own, among them
    [SettingsLaws.unloaded_add_drops_the_others],
    [IngestLaws.downloaded_rows_cannot_be_rerun],
    [ReportsLaws.long_run_is_left_unpublished],
    [Overlays.retried_press_makes_two],
    [SiteLaws.excluding_all_means_everything], [empty_text_is_cleared],
    [Roles.half_wildcard_is_unchecked] and
    [SiteMapLaws.early_basemap_is_lost].

    ** What is not modelled

    Markup, styling, scrolling, the DOM and animation of the component
    library; TanStack Table's own tables and the primitives of the
    remaining widgets; locale-dependent formats; generated types and route
    trees; the C# server but for its CSV reader and its cover rule; deployment and tests.
    Strings are exact for ASCII where the code folds case or measures length.
    Third-party functions are arguments with the documented facts the proofs
    need as named hypotheses: [arrayMove] of dnd-kit permutes, random ids do
    not repeat, the time-zone database and [toLocaleDateString] are functions. *)
From Stdlib Require Export ZArith Lia Ascii.
From Stdlib Require Export Sorting.Sorted.
From stdpp Require Export base list strings option sets gmap.
Export Stdlib.Strings.String.StringSyntax.

(** ** Notations *)
Declare Scope js_scope.
Delimit Scope js_scope with js.
Open Scope js_scope.
Open Scope string_scope.
Open Scope list_scope.

(** [a ?? b]: nullish coalescing on an optional value. *)
Notation "a ?? b" := (from_option (fun v => v) b a)
  (at level 60, right associativity) : js_scope.

(** ** Tactics *)

(** Case analysis on every [match]/[if] scrutinee of the goal, closing what
    congruence closes. *)
Ltac case_all :=
  repeat (match goal with
          | |- context [match ?x with _ => _ end] => destruct x eqn:?
          end; simplify_eq/=; try done).

(** The same in a hypothesis. *)
Ltac case_hyp H :=
  repeat (match type of H with
          | context [match ?x with _ => _ end] => destruct x eqn:?
          end; simplify_eq/=; try done).

(** Turns boolean tests in the context into propositions. *)
Ltac unbool :=
  repeat match goal with
  | H : bool_decide _ = true |- _ => apply bool_decide_eq_true_1 in H
  | H : bool_decide _ = false |- _ => apply bool_decide_eq_false_1 in H
  | H : (_ && _) = true |- _ => apply andb_true_iff in H as [? ?]
  | H : (_ || _) = false |- _ => apply orb_false_iff in H as [? ?]
  | H : negb _ = true |- _ => apply negb_true_iff in H
  | H : negb _ = false |- _ => apply negb_false_iff in H
  | H : String.eqb _ _ = true |- _ => apply String.eqb_eq in H
  | H : String.eqb _ _ = false |- _ => apply String.eqb_neq in H
  | H : Nat.eqb _ _ = true |- _ => apply Nat.eqb_eq in H
  | H : Nat.eqb _ _ = false |- _ => apply Nat.eqb_neq in H
  | H : Nat.leb _ _ = true |- _ => apply Nat.leb_le in H
  | H : Nat.leb _ _ = false |- _ => apply Nat.leb_gt in H
  | H : Nat.ltb _ _ = true |- _ => apply Nat.ltb_lt in H
  | H : Nat.ltb _ _ = false |- _ => apply Nat.ltb_ge in H
  | H : Z.eqb _ _ = true |- _ => apply Z.eqb_eq in H
  | H : Z.eqb _ _ = false |- _ => apply Z.eqb_neq in H
  | H : Z.leb _ _ = true |- _ => apply Z.leb_le in H
  | H : Z.leb _ _ = false |- _ => apply Z.leb_gt in H
  | H : Z.ltb _ _ = true |- _ => apply Z.ltb_lt in H
  | H : Z.ltb _ _ = false |- _ => apply Z.ltb_ge in H
  end.

Create HintDb premise.

(** ** Lists *)

(** [xs.some(p)] and [xs.every(p)]. *)
Notation some := existsb (only parsing).
Notation every := forallb (only parsing).

(** [xs.find(p)]. *)
Definition js_find {A} (p : A -> bool) (l : list A) : option A := List.find p l.

(** [xs.findIndex(p)], [-1] when nothing matches. *)
Fixpoint find_index {A} (p : A -> bool) (l : list A) : Z :=
  match l with
  | [] => -1
  | x :: l' => if p x then 0 else
      let i := find_index p l' in if (i <? 0)%Z then -1 else (i + 1)%Z
  end%Z.

(** [xs.filter(p)] (the list filter of the Standard Library, on booleans). *)
Notation bfilter := List.filter (only parsing).

(** [xs.splice(at, removed, ...added)] for indexes already in range. *)
Definition splice {A} (start removed : nat) (added l : list A) : list A :=
  take start l ++ added ++ drop (start + removed) l.

Lemma bfilter_id {A} (p : A -> bool) (l : list A) :
  every p l = true -> bfilter p l = l.
Proof.
  induction l as [|x l IH]; [done|]. simpl. intros [Hx Hl]%andb_true_iff.
  by rewrite Hx, IH.
Qed.

Lemma bfilter_elem {A} (p : A -> bool) (l : list A) x :
  x ∈ bfilter p l <-> x ∈ l /\ p x = true.
Proof.
  rewrite !list_elem_of_In. apply filter_In.
Qed.

Lemma bfilter_length_le {A} (p : A -> bool) (l : list A) :
  length (bfilter p l) <= length l.
Proof. induction l as [|x l IH]; simpl; [done|]. destruct (p x); simpl; lia. Qed.

Lemma bfilter_NoDup {A} (p : A -> bool) (l : list A) :
  NoDup l -> NoDup (bfilter p l).
Proof. rewrite !NoDup_ListNoDup. apply List.NoDup_filter. Qed.

(** A filter and its complement share out the list. *)
Lemma bfilter_partition {A} (p : A -> bool) (l : list A) :
  Permutation (bfilter p l ++ bfilter (fun x => negb (p x)) l) l.
Proof.
  induction l as [|x l IH]; [done|]. simpl. destruct (p x); simpl.
  - by apply perm_skip.
  - etransitivity; [symmetry; apply Permutation_middle|by apply perm_skip].
Qed.

Lemma splice_length {A} (i r : nat) (a l : list A) :
  i + r <= length l ->
  length (splice i r a l) = length l - r + length a.
Proof.
  intros H. unfold splice. rewrite !length_app, length_take, length_drop. lia.
Qed.

Lemma submseteq_NoDup {A} (l k : list A) : l ⊆+ k -> NoDup k -> NoDup l.
Proof.
  intros [m ->]%submseteq_Permutation H. by apply NoDup_app in H as (? & _ & _).
Qed.

Lemma elem_of_flat_map {A B} (f : A -> list B) (l : list A) y :
  y ∈ flat_map f l <-> exists x, x ∈ l /\ y ∈ f x.
Proof.
  rewrite list_elem_of_In, in_flat_map.
  split; intros (x & H1 & H2); exists x; by rewrite ?list_elem_of_In in *.
Qed.

(** [xs.sort(compare)], which is stable; [le a b] says [compare(a, b) <= 0]. *)
Fixpoint insert_by {A} (le : A -> A -> bool) (x : A) (l : list A) : list A :=
  match l with
  | [] => [x]
  | y :: l' => if le x y then x :: l else y :: insert_by le x l'
  end.
Definition sort_by {A} (le : A -> A -> bool) (l : list A) : list A := foldr (insert_by le) [] l.

Lemma insert_by_perm {A} (le : A -> A -> bool) x l : Permutation (insert_by le x l) (x :: l).
Proof.
  induction l as [|y l IH]; simpl; [done|]. destruct (le x y); [done|].
  by rewrite IH, perm_swap.
Qed.
Lemma sort_by_perm {A} (le : A -> A -> bool) l : Permutation (sort_by le l) l.
Proof. induction l as [|x l IH]; [done|]. cbn. rewrite insert_by_perm. by constructor. Qed.
Lemma sort_by_elem {A} (le : A -> A -> bool) l x : x ∈ sort_by le l <-> x ∈ l.
Proof. by rewrite sort_by_perm. Qed.

Section Sorted.
Context {A : Type} (le : A -> A -> bool).
Hypothesis le_total : forall a b, le a b = false -> le b a = true.
Hypothesis le_trans : forall a b c, le a b = true -> le b c = true -> le a c = true.
Notation sorted := (StronglySorted (fun a b => le a b = true)).

Lemma insert_by_sorted x l : sorted l -> sorted (insert_by le x l).
Proof.
  induction 1 as [|y l Hl IH Hy]; simpl; [by repeat constructor|].
  destruct (le x y) eqn:E.
  - constructor; [by constructor|]. constructor; [done|].
    eapply Forall_impl; [exact Hy|]. intros z. by apply le_trans.
  - constructor; [done|]. rewrite insert_by_perm. constructor; [by apply le_total|done].
Qed.
Lemma sort_by_sorted l : sorted (sort_by le l).
Proof. induction l as [|x l IH]; [constructor|]. cbn. by apply insert_by_sorted. Qed.

(** Two lists with the same elements, in order, the order strict on them. *)
Lemma sorted_perm_eq l k : StronglySorted (fun a b => le b a = false) k ->
  sorted l -> Permutation l k -> l = k.
Proof.
  intros Hk. revert l. induction Hk as [|y k Hk IH Hy]; intros l Hl Hp.
  { symmetry in Hp. by apply Permutation_nil in Hp. }
  destruct l as [|x l]; [by apply Permutation_nil in Hp|].
  apply StronglySorted_inv in Hl as [Hl Hx].
  assert (x = y) as ->.
  { assert (Hxk : x ∈ y :: k) by (rewrite <-Hp; by left).
    apply elem_of_cons in Hxk as [->|Hxk]; [done|].
    assert (Hyl : y ∈ x :: l) by (rewrite Hp; by left).
    apply elem_of_cons in Hyl as [->|Hyl]; [done|].
    rewrite Forall_forall in Hx, Hy. specialize (Hx y Hyl). specialize (Hy x Hxk). simpl in *.
    congruence. }
  f_equal. apply IH; [done|]. by apply Permutation_cons_inv in Hp.
Qed.
End Sorted.

#[export] Hint Resolve bfilter_NoDup bfilter_length_le : premise.
