(* ===== verification/JsString.v ===== *)
(** * JavaScript strings

    A JavaScript string is modelled by the bytes of its UTF-8 encoding, in
    Rocq's [string].  Concatenation, equality, [includes], [startsWith],
    [endsWith], [split] and [replaceAll] on well-formed strings are the same
    operation on either representation; [encodeURIComponent] escapes exactly
    the UTF-8 bytes outside its unreserved set, so it is exact here.  Where
    the code reads [.length] or folds case the model is exact for ASCII text,
    and the functions below say so. *)
From stdpp Require Import pretty.
From S2P Require Import Prelude.

#[global] Arguments String.append !_ _ / : simpl nomatch.

Notation chr n := (Ascii.ascii_of_nat n).

(** The double quote, tab, line feed, carriage return and backslash characters. *)
Definition dquote : ascii := chr 34.
Definition tab : ascii := chr 9.
Definition lf : ascii := chr 10.
Definition cr : ascii := chr 13.
Definition nul : ascii := chr 0.
Definition str1 (c : ascii) : string := String c "".

(** [s.startsWith(p)] *)
Notation starts_with p s := (String.prefix p s).

(** [s.slice(n)] and [s.slice(0, n)] on byte offsets. *)
Fixpoint str_drop (n : nat) (s : string) : string :=
  match n, s with
  | 0, _ => s
  | S n', String _ s' => str_drop n' s'
  | S _, EmptyString => ""
  end.
Fixpoint str_take (n : nat) (s : string) : string :=
  match n, s with
  | 0, _ => ""
  | S n', String c s' => String c (str_take n' s')
  | S _, EmptyString => ""
  end.

(** [s.includes(sub)] *)
Fixpoint includes (sub s : string) : bool :=
  starts_with sub s ||
  match s with
  | EmptyString => false
  | String _ s' => includes sub s'
  end.

(** [s.endsWith(sub)] *)
Fixpoint ends_with (sub s : string) : bool :=
  String.eqb sub s ||
  match s with
  | EmptyString => false
  | String _ s' => ends_with sub s'
  end.

(** Whether a character satisfies a test, anywhere or everywhere. *)
Fixpoint str_exists (p : ascii -> bool) (s : string) : bool :=
  match s with
  | EmptyString => false
  | String c s' => p c || str_exists p s'
  end.
Fixpoint str_forall (p : ascii -> bool) (s : string) : bool :=
  match s with
  | EmptyString => true
  | String c s' => p c && str_forall p s'
  end.

(** [s.split(c)] for a one-character separator. *)
Fixpoint split_char (c : ascii) (s : string) : list string :=
  match s with
  | EmptyString => [""]
  | String d s' =>
      if Ascii.eqb c d then "" :: split_char c s'
      else match split_char c s' with
           | [] => [str1 d]
           | w :: ws => String d w :: ws
           end
  end.

(** [xs.join(sep)] *)
Notation join sep xs := (String.concat sep xs).

(** [s.replaceAll(c, rep)] for a one-character pattern. *)
Fixpoint replace_all (c : ascii) (rep s : string) : string :=
  match s with
  | EmptyString => ""
  | String d s' =>
      if Ascii.eqb c d then rep +:+ replace_all c rep s'
      else String d (replace_all c rep s')
  end.

(** [s.trim()]: the ASCII part of JavaScript's white space and line terminators. *)
Definition is_space (c : ascii) : bool :=
  let n := Ascii.nat_of_ascii c in (Nat.leb 9 n && Nat.leb n 13) || Nat.eqb n 32.
Fixpoint trim_start (s : string) : string :=
  match s with
  | String c s' => if is_space c then trim_start s' else s
  | EmptyString => ""
  end.
Fixpoint trim_end (s : string) : string :=
  match s with
  | EmptyString => ""
  | String c s' =>
      match trim_end s' with
      | EmptyString => if is_space c then "" else str1 c
      | t => String c t
      end
  end.
Definition trim (s : string) : string := trim_end (trim_start s).

(** [s.toLowerCase()] and [s.toUpperCase()] on ASCII letters. *)
Definition lower_ascii (c : ascii) : ascii :=
  let n := Ascii.nat_of_ascii c in
  if Nat.leb 65 n && Nat.leb n 90 then chr (n + 32) else c.
Definition upper_ascii (c : ascii) : ascii :=
  let n := Ascii.nat_of_ascii c in
  if Nat.leb 97 n && Nat.leb n 122 then chr (n - 32) else c.
Fixpoint str_map (f : ascii -> ascii) (s : string) : string :=
  match s with
  | EmptyString => ""
  | String c s' => String (f c) (str_map f s')
  end.
Definition to_lower (s : string) : string := str_map lower_ascii s.

Definition is_digit (c : ascii) : bool :=
  let n := Ascii.nat_of_ascii c in Nat.leb 48 n && Nat.leb n 57.
Definition is_lower (c : ascii) : bool :=
  let n := Ascii.nat_of_ascii c in Nat.leb 97 n && Nat.leb n 122.
Definition is_upper (c : ascii) : bool :=
  let n := Ascii.nat_of_ascii c in Nat.leb 65 n && Nat.leb n 90.
(** The regular expression class [\w]. *)
Definition is_word (c : ascii) : bool :=
  is_digit c || is_lower c || is_upper c || Ascii.eqb c "_".

(** Decimal printing, [String(n)] of an integer. *)
Definition show_nat (n : nat) : string := pretty n.
Definition show_Z (z : Z) : string := pretty z.

(** ** Lemmas *)

Lemma str_app_nil_r (s : string) : s +:+ "" = s.
Proof. induction s as [|c s IH]; [done|]. simpl. by rewrite IH. Qed.

Lemma str_app_assoc (a b c : string) : a +:+ b +:+ c = (a +:+ b) +:+ c.
Proof. induction a as [|x a IH]; [done|]. simpl. by rewrite IH. Qed.

Lemma str_app_inj_l (p a b : string) : p +:+ a = p +:+ b -> a = b.
Proof. induction p as [|x p IH]; simpl; [done|]. intros [= H]. by apply IH. Qed.

Lemma str_app_cons c (a b : string) : String c a +:+ b = String c (a +:+ b).
Proof. done. Qed.

Lemma str_forall_app p (a b : string) :
  str_forall p (a +:+ b) = str_forall p a && str_forall p b.
Proof. induction a as [|x a IH]; [done|]. simpl. by rewrite IH, andb_assoc. Qed.

Lemma str_forall_exists p (s : string) :
  str_forall (fun c => negb (p c)) s = negb (str_exists p s).
Proof. induction s as [|x s IH]; [done|]. simpl. by rewrite IH, negb_orb. Qed.

Lemma str_forall_impl (p q : ascii -> bool) (s : string) :
  (forall c, p c = true -> q c = true) -> str_forall p s = true -> str_forall q s = true.
Proof.
  intros Hpq. induction s as [|x s IH]; [done|]. simpl.
  rewrite !andb_true_iff. naive_solver.
Qed.

Lemma starts_with_app (p s : string) : starts_with p (p +:+ s) = true.
Proof.
  induction p as [|c p IH]; [by destruct s|]. simpl.
  destruct (Ascii.ascii_dec c c); done.
Qed.

Lemma str_drop_app (p s : string) : str_drop (String.length p) (p +:+ s) = s.
Proof. induction p as [|c p IH]; [done|]. apply IH. Qed.

Lemma starts_with_spec (p s : string) :
  starts_with p s = true <-> exists r, s = p +:+ r.
Proof.
  split.
  - revert s. induction p as [|c p IH]; intros s H; [by exists s|].
    destruct s as [|d s]; simpl in H; [done|].
    destruct (Ascii.ascii_dec c d) as [->|]; [|done].
    destruct (IH _ H) as [r ->]. by exists r.
  - intros [r ->]. apply starts_with_app.
Qed.

(** [split] is never empty, and [join] puts a split string back together. *)
Lemma split_char_cons c s : exists w ws, split_char c s = w :: ws.
Proof.
  destruct s as [|d s]; simpl; [eauto|].
  destruct (Ascii.eqb c d); [eauto|]. destruct (split_char c s); eauto.
Qed.

Lemma join_cons2 sep w v ws : join sep (w :: v :: ws) = w +:+ sep +:+ join sep (v :: ws).
Proof. done. Qed.

Lemma join_cons_ch sep d w ws :
  join sep (String d w :: ws) = String d (join sep (w :: ws)).
Proof. by destruct ws. Qed.

Lemma join_split c s : join (str1 c) (split_char c s) = s.
Proof.
  induction s as [|d s IH]; [done|]. simpl.
  destruct (Ascii.eqb c d) eqn:E.
  - apply Ascii.eqb_eq in E as ->.
    destruct (split_char_cons d s) as (w & ws & Hs). rewrite Hs in IH |- *.
    rewrite join_cons2, IH. done.
  - destruct (split_char_cons c s) as (w & ws & Hs). rewrite Hs in IH |- *.
    rewrite join_cons_ch. by rewrite IH.
Qed.

Definition lacks (c : ascii) (s : string) : Prop := str_exists (Ascii.eqb c) s = false.

Lemma split_char_lacks c s : lacks c s -> split_char c s = [s].
Proof.
  unfold lacks. induction s as [|d s IH]; [done|]. simpl.
  intros [H1 H2]%orb_false_iff. rewrite H1, IH; done.
Qed.

Lemma split_char_app c w s :
  lacks c w -> split_char c (w +:+ String c s) = w :: split_char c s.
Proof.
  unfold lacks. induction w as [|d w IH]; simpl.
  - intros _. by rewrite Ascii.eqb_refl.
  - intros [H1 H2]%orb_false_iff. rewrite H1, IH; done.
Qed.

Lemma split_join c (ws : list string) :
  ws <> [] -> Forall (lacks c) ws -> split_char c (join (str1 c) ws) = ws.
Proof.
  induction ws as [|w ws IH]; [done|]. intros _ [Hw Hws]%Forall_cons_1.
  destruct ws as [|v ws].
  - simpl. by apply split_char_lacks.
  - rewrite join_cons2.
    change (str1 c +:+ join (str1 c) (v :: ws)) with (String c (join (str1 c) (v :: ws))).
    rewrite split_char_app by done. f_equal. by apply IH.
Qed.

Lemma replace_all_lacks c r s : lacks c s -> replace_all c r s = s.
Proof.
  unfold lacks. induction s as [|d s IH]; [done|]. simpl.
  intros [H1 H2]%orb_false_iff. by rewrite H1, IH.
Qed.

Lemma replace_all_app c r a b :
  replace_all c r (a +:+ b) = replace_all c r a +:+ replace_all c r b.
Proof.
  induction a as [|d a IH]; [done|]. simpl. rewrite IH.
  destruct (Ascii.eqb c d); [by rewrite str_app_assoc|done].
Qed.

Lemma str_length_app a b : String.length (a +:+ b) = String.length a + String.length b.
Proof. induction a as [|c a IH]; [done|]. simpl. by rewrite IH. Qed.

#[export] Hint Rewrite str_app_nil_r str_length_app str_forall_app : premise.
#[export] Hint Resolve starts_with_app split_char_lacks replace_all_lacks : premise.

Lemma str_exists_app p (a b : string) :
  str_exists p (a +:+ b) = str_exists p a || str_exists p b.
Proof. induction a as [|x a IH]; [done|]. simpl. by rewrite IH, orb_assoc. Qed.

Lemma replace_all_out c d r s : lacks c r -> c = d \/ lacks c s -> lacks c (replace_all d r s).
Proof.
  unfold lacks. intros Hr H. induction s as [|x s IH]; [done|]. simpl.
  destruct (Ascii.eqb_spec d x) as [<-|Hne].
  - rewrite str_exists_app, Hr. apply IH. destruct H as [|H]; [by left|right].
    simpl in H. by apply orb_false_iff in H as [_ H].
  - simpl. destruct H as [<-|H].
    + destruct (Ascii.eqb_spec c x); [done|]. apply IH. by left.
    + simpl in H. apply orb_false_iff in H as [H1 H2]. rewrite H1. apply IH. by right.
Qed.
