(* ===== verification/JsValue.v ===== *)
(** * JavaScript values, numbers and JSON

    [val] is the type of a value the code receives as [unknown]: what
    [JSON.parse] can return, [undefined] and a [Date].  [num] models a double
    by the rational it denotes (no rounding), NaN and the infinities apart.
    [Number(s)], [String(n)], [JSON.parse] and [JSON.stringify] are written
    out as executable functions. *)
From Stdlib Require Export QArith.
From stdpp Require Import pretty.
From S2P Require Import Prelude JsString.
Open Scope nat_scope.
Open Scope stdpp_scope.

(** ** Numbers *)
Inductive num := NaN | Infty (negative : bool) | Fin (q : Q).

Definition num_Z (z : Z) : num := Fin (inject_Z z).
Definition num_nat (n : nat) : num := num_Z (Z.of_nat n).

(** [Number.isFinite], [Number.isNaN], [<] and [<=] *)
Definition is_finite (n : num) : bool := match n with Fin _ => true | _ => false end.
Definition is_nan (n : num) : bool := match n with NaN => true | _ => false end.
Definition num_le (a b : num) : bool :=
  match a, b with
  | NaN, _ | _, NaN => false
  | Infty n, Infty m => n || negb m
  | Infty n, Fin _ => n
  | Fin _, Infty m => negb m
  | Fin p, Fin q => Qle_bool p q
  end.
Definition num_lt (a b : num) : bool :=
  match a, b with
  | NaN, _ | _, NaN => false
  | _, _ => negb (num_le b a)
  end.
(** [===] on numbers (every pair with a NaN differs). *)
Definition num_eq (a b : num) : bool := num_le a b && num_le b a.

(** [a - b] *)
Definition num_sub (a b : num) : num :=
  match a, b with
  | NaN, _ | _, NaN => NaN
  | Infty n, Infty m => if Bool.eqb n m then NaN else Infty n
  | Infty n, Fin _ => Infty n
  | Fin _, Infty m => Infty (negb m)
  | Fin p, Fin q => Fin (p - q)
  end.

(** [String(n)] of a rational with a finite decimal expansion of at most
    [fuel] places: the integer part, then the fraction without trailing zeros. *)
Fixpoint decimals (fuel : nat) (q : Q) : nat :=
  match fuel with
  | 0 => 0
  | S f => if (Qnum q mod Z.pos (Qden q) =? 0)%Z then 0 else S (decimals f (q * 10))
  end.
Definition pad_left (n : nat) (s : string) : string :=
  String.concat "" (repeat "0" (n - String.length s)) +:+ s.
Definition show_q (q : Q) : string :=
  let e := decimals 20 q in
  let m := (Qnum q * 10 ^ Z.of_nat e / Z.pos (Qden q))%Z in
  let a := Z.abs m in
  let whole := (a / 10 ^ Z.of_nat e)%Z in
  let frac := (a mod 10 ^ Z.of_nat e)%Z in
  (if (m <? 0)%Z then "-" else "") +:+ show_Z whole +:+
  (if Nat.eqb e 0 then "" else "." +:+ pad_left e (show_Z frac)).
Definition show_num (n : num) : string :=
  match n with
  | NaN => "NaN"
  | Infty true => "-Infinity"
  | Infty false => "Infinity"
  | Fin q => show_q q
  end.

(** Digits of a numeric literal: the longest prefix of digits, its value, and
    how many there were. *)
Fixpoint digits (acc : Z) (count : nat) (s : string) : Z * nat * string :=
  match s with
  | String c s' =>
      if is_digit c
      then digits (acc * 10 + Z.of_nat (Ascii.nat_of_ascii c - 48)) (S count) s'
      else (acc, count, s)
  | EmptyString => (acc, count, "")
  end.

(** [digits . digits e digits] as a mantissa and a power of ten. *)
Definition scale10 (m : Z) (e : Z) : Q :=
  if (e <? 0)%Z then Qmake m (Z.to_pos (10 ^ (- e))) else inject_Z (m * 10 ^ e).

Definition exponent (s : string) : option (Z * string) :=
  match s with
  | String c s' =>
      if Ascii.eqb c "e" || Ascii.eqb c "E" then
        let '(neg, s1) :=
          match s' with
          | String "-" t => (true, t)
          | String "+" t => (false, t)
          | _ => (false, s')
          end in
        let '(e, k, rest) := digits 0 0 s1 in
        if Nat.eqb k 0 then None else Some ((if (neg : bool) then - e else e)%Z, rest)
      else Some (0%Z, s)
  | EmptyString => Some (0%Z, "")
  end.

(** The unsigned decimal literals of [Number(s)]: digits, an optional fraction
    (either side of the point may be empty, not both), an optional exponent. *)
Definition unsigned_decimal (s : string) : option (Q * string) :=
  let '(m, k, s1) := digits 0 0 s in
  let '(m', k', s2) :=
    match s1 with
    | String "." t => digits m 0 t
    | _ => (m, 0, s1)
    end in
  if Nat.eqb (k + k') 0 then None
  else match exponent s2 with
       | None => None
       | Some (e, rest) => Some (scale10 m' (e - Z.of_nat k'), rest)
       end.

Definition radix_digit (c : ascii) : Z :=
  let n := Ascii.nat_of_ascii (lower_ascii c) in
  if is_digit c then Z.of_nat (n - 48)
  else if is_lower (lower_ascii c) then Z.of_nat (n - 87) else 99%Z.
Fixpoint radix_literal (radix acc : Z) (s : string) : option Z :=
  match s with
  | EmptyString => Some acc
  | String c s' =>
      let d := radix_digit c in
      if (d <? radix)%Z then radix_literal radix (acc * radix + d) s' else None
  end.
Definition radix_of (c : ascii) : option Z :=
  let c := lower_ascii c in
  if Ascii.eqb c "x" then Some 16%Z
  else if Ascii.eqb c "o" then Some 8%Z
  else if Ascii.eqb c "b" then Some 2%Z else None.

(** [Number(s)] *)
Definition decimal_or_nan (neg : bool) (s : string) : num :=
  if String.eqb s "Infinity" then Infty neg
  else match unsigned_decimal s with
       | Some (q, "") => Fin (if neg then - q else q)
       | _ => NaN
       end.
Definition to_number (str : string) : num :=
  let s := trim str in
  match s with
  | EmptyString => num_Z 0
  | String "+" t => decimal_or_nan false t
  | String "-" t => decimal_or_nan true t
  | String "0" (String c t) =>
      match radix_of c, t with
      | Some r, String _ _ =>
          match radix_literal r 0 t with Some z => num_Z z | None => NaN end
      | Some _, EmptyString => NaN
      | None, _ => decimal_or_nan false s
      end
  | _ => decimal_or_nan false s
  end.

(** ** Values *)
Inductive val :=
| VUndef
| VNull
| VBool (b : bool)
| VNum (n : num)
| VStr (s : string)
| VArr (items : list val)
| VObj (fields : list (string * val))
| VDate (time : num).

(** [v.key] of a value of type [object]; an array, a date and a missing
    property read as [undefined]. *)
Fixpoint field_of (fields : list (string * val)) (key : string) : val :=
  match fields with
  | [] => VUndef
  | (k, v) :: rest => if String.eqb k key then v else field_of rest key
  end.
Definition prop (v : val) (key : string) : val :=
  match v with VObj fs => field_of fs key | _ => VUndef end.

(** [typeof v === 'object' && v !== null] *)
Definition is_object (v : val) : bool :=
  match v with VArr _ | VObj _ | VDate _ => true | _ => false end.
Definition is_string (v : val) : bool := match v with VStr _ => true | _ => false end.
Definition is_undefined (v : val) : bool := match v with VUndef => true | _ => false end.
Definition is_nullish (v : val) : bool :=
  match v with VUndef | VNull => true | _ => false end.
(** [Object.values(v)] of an object or an array. *)
Definition object_values (v : val) : list val :=
  match v with VObj fs => map snd fs | VArr l => l | _ => [] end.
Definition opt_str (v : val) : option string :=
  match v with VStr s => Some s | _ => None end.
Definition opt_num (v : val) : option num :=
  match v with VNum n => Some n | _ => None end.

(** [String(v)] *)
Fixpoint js_String (v : val) : string :=
  match v with
  | VUndef => "undefined"
  | VNull => "null"
  | VBool b => if b then "true" else "false"
  | VNum n => show_num n
  | VStr s => s
  | VArr l => join "," (map (fun x => if is_nullish x then "" else js_String x) l)
  | VObj _ | VDate _ => "[object Object]"
  end.

(** [Boolean(v)] *)
Definition truthy (v : val) : bool :=
  match v with
  | VUndef | VNull => false
  | VBool b => b
  | VNum NaN => false
  | VNum (Fin q) => negb (Qeq_bool q 0)
  | VNum (Infty _) => true
  | VStr s => negb (String.eqb s "")
  | VArr _ | VObj _ | VDate _ => true
  end.
(** [s] as a condition: the empty string and [undefined] are false. *)
Definition truthy_str (s : option string) : bool :=
  match s with Some (String _ _) => true | _ => false end.

(** ** [JSON.stringify] *)
Definition hex_digit (n : nat) : ascii := chr (if Nat.ltb n 10 then 48 + n else 87 + n).
Definition esc_char (c : ascii) : string :=
  let n := Ascii.nat_of_ascii c in
  if Nat.eqb n 34 then String "\" (str1 dquote)
  else if Nat.eqb n 92 then String "\" (str1 "\")
  else if Nat.eqb n 8 then String "\" "b"
  else if Nat.eqb n 12 then String "\" "f"
  else if Nat.eqb n 10 then String "\" "n"
  else if Nat.eqb n 13 then String "\" "r"
  else if Nat.eqb n 9 then String "\" "t"
  else if Nat.ltb n 32
       then String "\" ("u00" +:+ String (hex_digit (n / 16)) (str1 (hex_digit (n mod 16))))
       else str1 c.
Fixpoint esc_str (s : string) : string :=
  match s with EmptyString => "" | String c s' => esc_char c +:+ esc_str s' end.
Definition quote_str (s : string) : string :=
  String dquote (esc_str s +:+ str1 dquote).

(** The text of a value, [None] for [undefined]; a date prints through
    [toISOString], which no caller here reaches, and is left out as [null]. *)
Fixpoint stringify (v : val) : option string :=
  match v with
  | VUndef => None
  | VNull => Some "null"
  | VBool b => Some (if b then "true" else "false")
  | VNum (Fin q) => Some (show_q q)
  | VNum _ => Some "null"
  | VStr s => Some (quote_str s)
  | VArr l =>
      Some ("[" +:+ join "," (map (fun x => from_option id "null" (stringify x)) l) +:+ "]")
  | VObj fs =>
      Some ("{" +:+
        join "," (flat_map (fun kv =>
          match stringify (snd kv) with
          | Some t => [quote_str (fst kv) +:+ ":" +:+ t]
          | None => []
          end) fs) +:+ "}")
  | VDate _ => Some "null"
  end.

(** ** [JSON.parse] *)
Definition json_space (c : ascii) : bool :=
  let n := Ascii.nat_of_ascii c in
  Nat.eqb n 32 || Nat.eqb n 9 || Nat.eqb n 10 || Nat.eqb n 13.
Fixpoint skip_space (s : string) : string :=
  match s with
  | String c s' => if json_space c then skip_space s' else s
  | EmptyString => ""
  end.

Definition hex4 (a b c d : ascii) : option Z :=
  radix_literal 16 0 (String a (String b (String c (str1 d)))).
(** The UTF-8 bytes of a code point. *)
Definition utf8 (n : Z) : string :=
  let b z := chr (Z.to_nat z) in
  if (n <? 128)%Z then str1 (b n)
  else if (n <? 2048)%Z then String (b (192 + n / 64)%Z) (str1 (b (128 + n mod 64)%Z))
  else if (n <? 65536)%Z then
    String (b (224 + n / 4096)%Z)
      (String (b (128 + n / 64 mod 64)%Z) (str1 (b (128 + n mod 64)%Z)))
  else
    String (b (240 + n / 262144)%Z)
      (String (b (128 + n / 4096 mod 64)%Z)
        (String (b (128 + n / 64 mod 64)%Z) (str1 (b (128 + n mod 64)%Z)))).
Definition simple_escape (c : ascii) : option ascii :=
  let n := Ascii.nat_of_ascii c in
  if Nat.eqb n 34 || Nat.eqb n 92 || Nat.eqb n 47 then Some c
  else if Nat.eqb n 98 then Some (chr 8)
  else if Nat.eqb n 102 then Some (chr 12)
  else if Nat.eqb n 110 then Some (chr 10)
  else if Nat.eqb n 114 then Some (chr 13)
  else if Nat.eqb n 116 then Some (chr 9) else None.

Definition prepend (t : string) (r : option (string * string)) : option (string * string) :=
  match r with Some (s, rest) => Some (t +:+ s, rest) | None => None end.

(** The body of a string literal, after its opening quote. *)
Fixpoint parse_string (s : string) : option (string * string) :=
  match s with
  | EmptyString => None
  | String c s1 =>
      if Ascii.eqb c dquote then Some ("", s1)
      else if Ascii.eqb c "\" then
        match s1 with
        | String "u" (String a (String b (String c' (String d s2)))) =>
            match hex4 a b c' d with
            | None => None
            | Some hi =>
                match s2 with
                | String "\" (String "u" (String e (String f (String g (String h s3))))) =>
                    match hex4 e f g h with
                    | Some lo =>
                        if (55296 <=? hi)%Z && (hi <? 56320)%Z &&
                           (56320 <=? lo)%Z && (lo <? 57344)%Z
                        then prepend (utf8 (65536 + (hi - 55296) * 1024 + (lo - 56320))%Z)
                               (parse_string s3)
                        else prepend (utf8 hi) (parse_string s2)
                    | None => None
                    end
                | _ => prepend (utf8 hi) (parse_string s2)
                end
            end
        | String e s2 =>
            match simple_escape e with
            | Some c' => prepend (str1 c') (parse_string s2)
            | None => None
            end
        | EmptyString => None
        end
      else if Nat.ltb (Ascii.nat_of_ascii c) 32 then None
      else prepend (str1 c) (parse_string s1)
  end.

(** A JSON number: an optional minus, an integer part without leading zeros,
    an optional fraction and exponent, each with at least one digit. *)
Definition parse_number (s : string) : option (num * string) :=
  let '(neg, s0) := match s with String "-" t => (true, t) | _ => (false, s) end in
  let '(m, k, s1) := digits 0 0 s0 in
  let bad_int := Nat.eqb k 0 ||
    match s0 with String "0" (String c _) => is_digit c | _ => false end in
  if bad_int then None
  else
    let frac :=
      match s1 with
      | String "." t => let '(m', k', s2) := digits m 0 t in
                        if Nat.eqb k' 0 then None else Some (m', k', s2)
      | _ => Some (m, 0, s1)
      end in
    match frac with
    | None => None
    | Some (m', k', s2) =>
        match exponent s2 with
        | None => None
        | Some (e, rest) =>
            let q := scale10 m' (e - Z.of_nat k') in
            Some (Fin (if (neg : bool) then - q else q), rest)
        end
    end.

(** Assigning a property: a repeated key keeps its place and takes the new value. *)
Fixpoint set_field (k : string) (v : val) (fs : list (string * val)) : list (string * val) :=
  match fs with
  | [] => [(k, v)]
  | (k', v') :: rest => if String.eqb k' k then (k, v) :: rest else (k', v') :: set_field k v rest
  end.

(** A value; the fuel bounds the number of nested values and elements, and the
    length of the text is always enough. *)
Fixpoint parse_value (fuel : nat) (s : string) : option (val * string) :=
  match fuel with
  | 0 => None
  | S f =>
      let s := skip_space s in
      match s with
      | EmptyString => None
      | String c t =>
          if Ascii.eqb c dquote then
            match parse_string t with Some (x, r) => Some (VStr x, r) | None => None end
          else if Ascii.eqb c "[" then
            match skip_space t with
            | String "]" r => Some (VArr [], r)
            | _ => match parse_elements f t with
                   | Some (l, r) => Some (VArr l, r)
                   | None => None
                   end
            end
          else if Ascii.eqb c "{" then
            match skip_space t with
            | String "}" r => Some (VObj [], r)
            | _ => match parse_members f [] t with
                   | Some (l, r) => Some (VObj l, r)
                   | None => None
                   end
            end
          else if starts_with "null" s then Some (VNull, str_drop 4 s)
          else if starts_with "true" s then Some (VBool true, str_drop 4 s)
          else if starts_with "false" s then Some (VBool false, str_drop 5 s)
          else match parse_number s with
               | Some (n, r) => Some (VNum n, r)
               | None => None
               end
      end
  end
with parse_elements (fuel : nat) (s : string) : option (list val * string) :=
  match fuel with
  | 0 => None
  | S f =>
      match parse_value f s with
      | None => None
      | Some (v, r) =>
          match skip_space r with
          | String "," r' =>
              match parse_elements f r' with
              | Some (l, r'') => Some (v :: l, r'')
              | None => None
              end
          | String "]" r' => Some ([v], r')
          | _ => None
          end
      end
  end
with parse_members (fuel : nat) (seen : list (string * val)) (s : string)
    : option (list (string * val) * string) :=
  match fuel with
  | 0 => None
  | S f =>
      match skip_space s with
      | String c t =>
          if Ascii.eqb c dquote then
            match parse_string t with
            | None => None
            | Some (k, r) =>
                match skip_space r with
                | String ":" r1 =>
                    match parse_value f r1 with
                    | None => None
                    | Some (v, r2) =>
                        let seen' := set_field k v seen in
                        match skip_space r2 with
                        | String "," r3 => parse_members f seen' r3
                        | String "}" r3 => Some (seen', r3)
                        | _ => None
                        end
                    end
                | _ => None
                end
            end
          else None
      | EmptyString => None
      end
  end.

(** [JSON.parse(text)]; [None] is a thrown [SyntaxError]. *)
Definition json_parse (text : string) : option val :=
  match parse_value (2 * String.length text + 2) text with
  | Some (v, r) => if String.eqb (skip_space r) "" then Some v else None
  | None => None
  end.

(** ** Printed numbers read back *)
Lemma pretty_char_digit x : (x < 10)%N ->
  is_digit (pretty_N_char x) = true /\
  (Z.of_nat (Ascii.nat_of_ascii (pretty_N_char x) - 48) = Z.of_N x)%Z.
Proof.
  intros H. assert (x = 0 \/ x = 1 \/ x = 2 \/ x = 3 \/ x = 4 \/ x = 5 \/ x = 6 \/ x = 7 \/
    x = 8 \/ x = 9)%N as Hx by lia.
  by destruct Hx as [-> |[-> |[-> |[-> |[-> |[-> |[-> |[-> |[-> | ->]]]]]]]]].
Qed.
Lemma digits_pretty_go x s : exists n,
  digits 0 0 (pretty_N_go x s) = digits (Z.of_N x) n s /\
  (str_forall is_digit s = true -> str_forall is_digit (pretty_N_go x s) = true).
Proof.
  revert s. induction (N.lt_wf_0 x) as [x _ IH]; intros s.
  assert (x = 0 \/ 0 < x)%N as [->|Hx] by lia; [by exists 0|].
  rewrite pretty_N_go_step by done.
  destruct (IH (x `div` 10)%N ltac:(apply N.div_lt; lia) (String (pretty_N_char (x `mod` 10)) s))
    as (n & Hn & Hd).
  destruct (pretty_char_digit (x `mod` 10)%N) as [Hc Hv]; [by apply N.mod_lt|].
  exists (S n). split.
  - rewrite Hn. cbn [digits]. rewrite Hc, Hv. f_equal.
    rewrite (N.div_mod x 10) at 3 by done. lia.
  - intros Hs. apply Hd. cbn. by rewrite Hc.
Qed.

(** [String(n)] of a natural number reads back as its digits. *)
Lemma digits_show (z : Z) : (0 <= z)%Z -> exists n,
  digits 0 0 (show_Z z) = (z, n, "") /\ str_forall is_digit (show_Z z) = true /\ show_Z z <> "".
Proof.
  intros Hz. destruct z as [|x|x]; [by exists 1| |lia].
  change (show_Z (Z.pos x)) with (pretty_N_go (Npos x) "").
  destruct (digits_pretty_go (Npos x) "") as (n & Hn & Hd).
  exists n. split_and!; [done|by apply Hd|]. intros E. rewrite E in Hn. cbn in Hn. congruence.
Qed.
