(* ===== verification/JsMap.v ===== *)
(** * JavaScript maps and sets

    A [Map] keeps its keys in insertion order, and setting a key it has keeps
    the key's place; a [Set] likewise.  Both are modelled by the list of their
    entries in that order. *)
From S2P Require Import Prelude JsString.

Notation jsmap A := (list (string * A)).
Notation jsset := (list string).

(** ** Maps *)
Fixpoint mget {A} (m : jsmap A) (k : string) : option A :=
  match m with
  | [] => None
  | (k', v) :: m' => if String.eqb k' k then Some v else mget m' k
  end.
Definition mhas {A} (m : jsmap A) (k : string) : bool :=
  match mget m k with Some _ => true | None => false end.
Fixpoint mset {A} (m : jsmap A) (k : string) (v : A) : jsmap A :=
  match m with
  | [] => [(k, v)]
  | (k', v') :: m' => if String.eqb k' k then (k', v) :: m' else (k', v') :: mset m' k v
  end.
Fixpoint mdel {A} (m : jsmap A) (k : string) : jsmap A :=
  match m with
  | [] => []
  | (k', v') :: m' => if String.eqb k' k then m' else (k', v') :: mdel m' k
  end.
Notation mkeys m := (map fst m).

(** ** Sets *)
Definition sin (k : string) (s : jsset) : bool := some (String.eqb k) s.
Definition sadd (s : jsset) (k : string) : jsset := if sin k s then s else s ++ [k].
Fixpoint sdel (s : jsset) (k : string) : jsset :=
  match s with
  | [] => []
  | k' :: s' => if String.eqb k' k then s' else k' :: sdel s' k
  end.
(** [new Set(xs)] *)
Definition set_of (xs : list string) : jsset := fold_left sadd xs [].

(** ** Lemmas *)
Lemma mget_set {A} (m : jsmap A) k v k' :
  mget (mset m k v) k' = if String.eqb k k' then Some v else mget m k'.
Proof.
  induction m as [|[i w] m IH]; simpl; [done|].
  destruct (String.eqb_spec i k) as [->|Hik]; simpl.
  - by destruct (String.eqb k k').
  - rewrite IH. destruct (String.eqb_spec i k'), (String.eqb_spec k k'); congruence.
Qed.

Lemma mget_set_eq {A} (m : jsmap A) k v : mget (mset m k v) k = Some v.
Proof. by rewrite mget_set, String.eqb_refl. Qed.
Lemma mget_set_ne {A} (m : jsmap A) k v k' : k <> k' -> mget (mset m k v) k' = mget m k'.
Proof. intros H. rewrite mget_set. by destruct (String.eqb_spec k k'). Qed.

Lemma mget_del {A} (m : jsmap A) k k' :
  NoDup (mkeys m) -> mget (mdel m k) k' = if String.eqb k k' then None else mget m k'.
Proof.
  induction m as [|[i w] m IH]; simpl.
  - by destruct (String.eqb k k').
  - intros [Hi Hm]%NoDup_cons. destruct (String.eqb_spec i k) as [->|Hik].
    + destruct (String.eqb_spec k k') as [E|]; [|done]. subst k'.
      clear IH Hm. revert Hi. induction m as [|[j x] m IHm]; simpl in *; [done|].
      rewrite not_elem_of_cons. intros [H1 H2].
      destruct (String.eqb_spec j k); [congruence|]. by apply IHm.
    + simpl. rewrite IH by done.
      destruct (String.eqb_spec i k'), (String.eqb_spec k k'); congruence.
Qed.

Lemma mdel_keys {A} (m : jsmap A) k x : x ∈ mkeys (mdel m k) -> x ∈ mkeys m.
Proof.
  induction m as [|[i v] m IH]; simpl; [done|].
  destruct (String.eqb i k); [by right|]. simpl. rewrite !elem_of_cons. naive_solver.
Qed.
Lemma mdel_NoDup {A} (m : jsmap A) k : NoDup (mkeys m) -> NoDup (mkeys (mdel m k)).
Proof.
  induction m as [|[i v] m IH]; simpl; [done|]. intros [Hi Hm]%NoDup_cons.
  destruct (String.eqb i k); [done|]. simpl. apply NoDup_cons. split; [|by apply IH].
  intros H. by apply mdel_keys in H.
Qed.
Lemma mget_del_ne {A} (m : jsmap A) k k' : k <> k' -> mget (mdel m k) k' = mget m k'.
Proof.
  intros Hne. induction m as [|[i v] m IH]; simpl; [done|].
  destruct (String.eqb_spec i k) as [->|].
  - by destruct (String.eqb_spec k k').
  - simpl. by rewrite IH.
Qed.

Lemma mhas_spec {A} (m : jsmap A) k : mhas m k = true <-> is_Some (mget m k).
Proof. unfold mhas. destruct (mget m k); split; [eauto|done|done|by intros [? [=]]]. Qed.
Lemma mhas_false {A} (m : jsmap A) k : mhas m k = false <-> mget m k = None.
Proof. unfold mhas. by destruct (mget m k). Qed.

Lemma mget_keys {A} (m : jsmap A) k : k ∈ mkeys m <-> is_Some (mget m k).
Proof.
  induction m as [|[i w] m IH]; simpl.
  - split; [by intros ?%elem_of_nil|by intros []].
  - rewrite elem_of_cons, IH. destruct (String.eqb_spec i k) as [->|]; [naive_solver|].
    naive_solver.
Qed.

Lemma mset_keys_new {A} (m : jsmap A) k v :
  mget m k = None -> mset m k v = m ++ [(k, v)].
Proof.
  induction m as [|[i w] m IH]; simpl; [done|].
  destruct (String.eqb_spec i k); [done|]. intros H. by rewrite IH.
Qed.
Lemma mset_keys_old {A} (m : jsmap A) k v :
  is_Some (mget m k) -> mkeys (mset m k v) = mkeys m.
Proof.
  induction m as [|[i w] m IH]; simpl; [by intros []|].
  destruct (String.eqb_spec i k); simpl; [done|]. intros H. by rewrite IH.
Qed.

Lemma mset_NoDup {A} (m : jsmap A) k v : NoDup (mkeys m) -> NoDup (mkeys (mset m k v)).
Proof.
  intros H. destruct (mget m k) eqn:E.
  - by rewrite mset_keys_old.
  - rewrite mset_keys_new, map_app by done. simpl. apply NoDup_app. split_and!; [done| |].
    + intros x Hx ->%list_elem_of_singleton. apply mget_keys in Hx as [? ?]. congruence.
    + apply NoDup_singleton.
Qed.

Lemma mset_elem {A} (m : jsmap A) k v x :
  x ∈ mkeys (mset m k v) <-> x = k \/ x ∈ mkeys m.
Proof.
  rewrite !mget_keys, mget_set. destruct (String.eqb_spec k x) as [->|]; [naive_solver|].
  naive_solver.
Qed.

Lemma sin_elem k s : sin k s = true <-> k ∈ s.
Proof.
  unfold sin. rewrite existsb_exists, list_elem_of_In. split.
  - by intros (x & Hx & ->%String.eqb_eq).
  - intros H. exists k. by rewrite String.eqb_refl.
Qed.
Lemma sin_false k s : sin k s = false <-> k ∉ s.
Proof. rewrite <- sin_elem. by destruct (sin k s). Qed.

Lemma sadd_elem s k x : x ∈ sadd s k <-> x = k \/ x ∈ s.
Proof.
  unfold sadd. destruct (sin k s) eqn:E.
  - apply sin_elem in E. naive_solver.
  - rewrite elem_of_app, list_elem_of_singleton. tauto.
Qed.
Lemma sadd_NoDup s k : NoDup s -> NoDup (sadd s k).
Proof.
  intros H. unfold sadd. destruct (sin k s) eqn:E; [done|]. apply sin_false in E.
  apply NoDup_app. split_and!; [done| |apply NoDup_singleton].
  by intros x Hx ->%list_elem_of_singleton.
Qed.
Lemma sdel_elem s k x : NoDup s -> x ∈ sdel s k <-> x <> k /\ x ∈ s.
Proof.
  induction s as [|y s IH]; simpl; [set_solver|]. intros [Hy Hs]%NoDup_cons.
  destruct (String.eqb_spec y k) as [->|]; [set_solver|].
  rewrite !elem_of_cons, IH by done. set_solver.
Qed.
Lemma sdel_NoDup s k : NoDup s -> NoDup (sdel s k).
Proof.
  induction s as [|y s IH]; simpl; [done|]. intros [Hy Hs]%NoDup_cons.
  destruct (String.eqb y k); [done|]. apply NoDup_cons. split; [|by apply IH].
  rewrite sdel_elem by done. tauto.
Qed.
Lemma set_of_spec xs : NoDup (set_of xs) /\ forall x, x ∈ set_of xs <-> x ∈ xs.
Proof.
  unfold set_of. enough (H : forall s, NoDup s -> NoDup (fold_left sadd xs s) /\
    forall x, x ∈ fold_left sadd xs s <-> x ∈ xs \/ x ∈ s).
  { destruct (H [] (NoDup_nil_2)) as [H1 H2]. split; [done|]. set_solver. }
  induction xs as [|y xs IH]; intros s Hs; simpl; [set_solver|].
  destruct (IH (sadd s y)) as [H1 H2]; [by apply sadd_NoDup|]. split; [done|].
  intros x. rewrite H2, sadd_elem. set_solver.
Qed.

#[export] Hint Resolve mset_NoDup sadd_NoDup sdel_NoDup : premise.
