(* ===== verification/ApiClient.v ===== *)
(** * The typed API client ([web/packages/api/src/client.ts])

    Errors and their messages, the URL builder, and [request]: what is sent,
    how a response is judged against the session it belongs to, and the module
    state ([sessionContext], [sessionGeneration]) that judgement reads and
    writes.  [request] awaits once, so it is two definitions: [request_start]
    up to the dispatch and [request_settle] after it; [step] interleaves any
    number of requests with the resets the console performs. *)
From S2P Require Import Prelude JsString JsValue.

(** ** Errors *)
Module Errors.

Record ApiError := mkApiError {
  status : Z;
  body : val;
  cause : val;
  outcomeUnknown : bool;
  retryAfterSeconds : option num;
  message : string;
}.

(** A validation entry: a string, or an array of strings. *)
Definition is_validation_entry (v : val) : bool :=
  is_string v || match v with VArr l => every is_string l | _ => false end.

(** The [errors] member: absent, or an object whose values are entries. *)
Definition valid_errors (errors : val) : bool :=
  is_undefined errors ||
  (is_object errors && negb (match errors with VArr _ => true | _ => false end) &&
   every is_validation_entry (object_values errors)).

Definition apiProblem (value : val) : option val :=
  if negb (is_object value) then None
  else if negb (is_undefined (prop value "error")) && negb (is_string (prop value "error"))
  then None
  else if negb (is_undefined (prop value "traceId")) && negb (is_string (prop value "traceId"))
  then None
  else if negb (valid_errors (prop value "errors")) then None
  else Some value.

Record ApiPlanLimit := { code : string; limit : option num; current : option num }.

Definition apiPlanLimit (status : Z) (body : val) : option ApiPlanLimit :=
  if negb (status =? 402)%Z || negb (is_object body) then None
  else match prop body "code" with
       | VStr c => Some {| code := c; limit := opt_num (prop body "limit");
                           current := opt_num (prop body "current") |}
       | _ => None
       end.

(** [Object.values(errors).flatMap(v => v).find(v => v.length > 0)] *)
Definition validation_texts (errors : val) : list string :=
  flat_map (fun v => match v with
                     | VStr s => [s]
                     | VArr l => omap opt_str l
                     | _ => []
                     end) (object_values errors).
Definition first_validation (errors : val) : option string :=
  js_find (fun s => negb (String.eqb s "")) (validation_texts errors).

Definition problem_error (problem : option val) : option string :=
  p ← problem; opt_str (prop p "error").
Definition problem_traceId (problem : option val) : option string :=
  p ← problem; opt_str (prop p "traceId").
Definition problem_errors (problem : option val) : option val :=
  p ← problem; if truthy (prop p "errors") then Some (prop p "errors") else None.

Definition apiErrorMessage (status : Z) (body : val) : string :=
  match apiPlanLimit status body with
  | Some plan =>
      match limit plan with
      | None => "Your plan does not include this feature"
      | Some l => "Plan limit reached: " +:+ show_num (current plan ?? l) +:+
                  " of " +:+ show_num l +:+ " used"
      end
  | None =>
      let problem := apiProblem body in
      let error := problem_error problem in
      let validation := errors ← problem_errors problem; first_validation errors in
      let text := match body with VStr s => trim s | _ => "" end in
      if truthy_str error then error ?? ""
      else if truthy_str validation then validation ?? ""
      else if negb (String.eqb text "") then text
      else if (status =? 0)%Z then "Unable to reach the server"
      else if (status =? 401)%Z then "Sign in required"
      else if (status =? 403)%Z then "Permission denied"
      else if (status =? 409)%Z then "The request conflicts with a newer change"
      else if (status =? 503)%Z then "The server is busy. Please try again."
      else "API " +:+ show_Z status
  end.

(** [new ApiError(status, body, cause, outcomeUnknown, retryAfterSeconds)] *)
Definition newApiError (status : Z) (body cause : val) (outcomeUnknown : bool)
    (retryAfterSeconds : option num) : ApiError :=
  mkApiError status body cause outcomeUnknown retryAfterSeconds
    (apiErrorMessage status body).

(** What the code can throw: an [ApiError], another [Error] by its message,
    or the reason an [AbortSignal] carries. *)
Inductive exn :=
| EApi (e : ApiError)
| EMsg (message : string)
| EAbort (reason : val).

Definition isTransient (error : exn) : bool :=
  match error with
  | EApi e => (status e =? 503)%Z &&
              match retryAfterSeconds e with Some _ => true | None => false end
  | _ => false
  end.
End Errors.
Export Errors.

(** A computation that returns or throws. *)
Inductive result (A : Type) :=
| Ok (a : A)
| Throw (e : exn).
Arguments Ok {A} a.
Arguments Throw {A} e.

Lemma Ok_inj {A} (a b : A) : Ok a = Ok b -> a = b.
Proof. by intros [=]. Qed.

Definition rbind {A B} (r : result A) (f : A -> result B) : result B :=
  match r with Ok a => f a | Throw e => Throw e end.
Notation "x <-! r ;; k" := (rbind r (fun x => k))
  (at level 100, r at next level, right associativity) : js_scope.

(** ** URLs *)
Module Url.

(** The characters [encodeURIComponent] leaves alone. *)
Definition unreserved (c : ascii) : bool :=
  is_digit c || is_lower c || is_upper c ||
  str_exists (Ascii.eqb c) "-_.!~*'()".
Definition hex_upper (n : nat) : ascii := chr (if Nat.ltb n 10 then 48 + n else 55 + n).
Definition percent (c : ascii) : string :=
  let n := Ascii.nat_of_ascii c in
  String "%" (String (hex_upper (n / 16)) (str1 (hex_upper (n mod 16)))).
Fixpoint encodeURIComponent (s : string) : string :=
  match s with
  | EmptyString => ""
  | String c s' => (if unreserved c then str1 c else percent c) +:+ encodeURIComponent s'
  end.

(** The form encoding of [URLSearchParams.toString]. *)
Definition form_safe (c : ascii) : bool :=
  is_digit c || is_lower c || is_upper c || str_exists (Ascii.eqb c) "*-._".
Fixpoint form_encode (s : string) : string :=
  match s with
  | EmptyString => ""
  | String c s' =>
      (if form_safe c then str1 c else if Ascii.eqb c " " then "+" else percent c)
      +:+ form_encode s'
  end.

(** The options bag [{ path, query }]; [VUndef] is an absent member. *)
Record Init := { path : val; query : val }.

Definition missing (key template : string) : exn :=
  EMsg ("missing path parameter '" +:+ key +:+ "' for " +:+ template).

(** [template.replace(/\{(\w+)\}/g, ...)], scanned left to right.  [pending]
    is the run of word characters read since an opening brace. *)
Fixpoint fill (template : string) (params : val) (pending : option string) (s : string)
    : result string :=
  match s with
  | EmptyString => Ok (match pending with Some w => "{" +:+ w | None => "" end)
  | String c s' =>
      match pending with
      | None =>
          if Ascii.eqb c "{" then fill template params (Some "") s'
          else r <-! fill template params None s' ;; Ok (String c r)
      | Some w =>
          if is_word c then fill template params (Some (w +:+ str1 c)) s'
          else if Ascii.eqb c "}" && negb (String.eqb w "") then
            match prop params w with
            | VUndef => Throw (missing w template)
            | v => r <-! fill template params None s' ;;
                   Ok (encodeURIComponent (js_String v) +:+ r)
            end
          else if Ascii.eqb c "{" then
            r <-! fill template params (Some "") s' ;; Ok ("{" +:+ w +:+ r)
          else r <-! fill template params None s' ;; Ok ("{" +:+ w +:+ String c r)
      end
  end.

(** [search.set(key, value)] *)
Fixpoint search_set (key value : string) (l : list (string * string)) :=
  match l with
  | [] => [(key, value)]
  | (k, v) :: rest =>
      if String.eqb k key
      then (key, value) :: bfilter (fun kv => negb (String.eqb (fst kv) key)) rest
      else (k, v) :: search_set key value rest
  end.
Definition search_text (l : list (string * string)) : string :=
  join "&" (map (fun kv => form_encode (fst kv) +:+ "=" +:+ form_encode (snd kv)) l).

Definition query_entries (q : val) : list (string * val) :=
  match q with VObj fs => fs | _ => [] end.
Definition query_string (q : val) : string :=
  search_text (fold_left (fun acc kv =>
    if is_nullish (snd kv) then acc else search_set (fst kv) (js_String (snd kv)) acc)
    (query_entries q) []).

(** [url(template, init)]; [base] is the build's [VITE_API_URL]. *)
Definition url (base template : string) (init : Init) : result string :=
  filled <-! fill template (path init) None template ;;
  let qs := query_string (query init) in
  Ok (base +:+ filled +:+ (if String.eqb qs "" then "" else "?" +:+ qs)).
End Url.

(** ** Requests *)
Module Client.
Import Url.

(** The module state: [sessionContext] and [sessionGeneration]. *)
Record ClientState := { sessionContext : option string; sessionGeneration : nat }.
Definition initial : ClientState := {| sessionContext := None; sessionGeneration := 0 |}.

Definition sessionHeader : string := "X-Premise-Session-Context".

Definition resetSessionContext (st : ClientState) : ClientState :=
  {| sessionContext := None; sessionGeneration := S (sessionGeneration st) |}.

(** The browser events a request dispatches. *)
Inductive event := SessionContextChanged | SessionContextObserved (context : string).

(** The options of a call: [init] with its [signal] and [idempotencyKey];
    [aborted] is the signal's reason when it was aborted before the call. *)
Record Call := {
  method : string; template : string; init : Init; idempotencyKey : option string;
  aborted : option val; payload : val }.

Record HttpRequest := {
  http_url : string; http_method : string; http_headers : list (string * string);
  http_body : option string }.

(** What the code after the [await] needs of the code before it. *)
Record Pending := { p_generation : nat; p_method : string; p_template : string }.

Definition request_headers (st : ClientState) (c : Call) : list (string * string) :=
  (if truthy_str (idempotencyKey c)
   then [("Idempotency-Key", idempotencyKey c ?? "")] else []) ++
  (if is_undefined (payload c) then [] else [("Content-Type", "application/json")]) ++
  (if truthy_str (sessionContext st) && negb (String.eqb (template c) "/me")
   then [(sessionHeader, sessionContext st ?? "")] else []).

(** Up to the dispatch: an aborted signal throws before anything is sent; a
    URL that cannot be built fails inside the [try], as a failed fetch does. *)
Definition request_start (base : string) (st : ClientState) (c : Call)
    : result (Pending * result HttpRequest) :=
  match aborted c with
  | Some reason => Throw (EAbort reason)
  | None =>
      Ok ({| p_generation := sessionGeneration st; p_method := method c;
             p_template := template c |},
          u <-! url base (template c) (init c) ;;
          Ok {| http_url := u; http_method := method c;
                http_headers := request_headers st c;
                http_body := if is_undefined (payload c) then None
                             else stringify (payload c) |})
  end.

(** How the fetch ended: an exception, with whether the caller's signal (and
    its reason) and the deadline had fired, or a response with its text. *)
Inductive outcome :=
| Failed (cause : val) (signalAborted : option val) (deadlineAborted : bool)
| Received (status : Z) (headers : list (string * string)) (text : string).

(** [headers.get(name)]: names compare without case, repeats join. *)
Definition headers_get (headers : list (string * string)) (name : string) : option string :=
  match bfilter (fun h => String.eqb (to_lower (fst h)) (to_lower name)) headers with
  | [] => None
  | l => Some (join ", " (map snd l))
  end.

Definition response_ok (status : Z) : bool := (200 <=? status)%Z && (status <=? 299)%Z.

Definition failure_error (p : Pending) (cause : val) (signalAborted : option val)
    (deadlineAborted : bool) : exn :=
  let get := String.eqb (p_method p) "GET" in
  match (if get then signalAborted else None) with
  | Some reason => EAbort reason
  | None =>
      let outcomeUnknown := negb get in
      let error :=
        if outcomeUnknown
        then "Connection interrupted. This operation may have completed. Refresh before retrying."
        else if deadlineAborted then "Request timed out. Please try again."
        else "Unable to reach the server" in
      EApi (newApiError 0 (VObj [("error", VStr error)]) cause outcomeUnknown None)
  end.

(** The body: absent, JSON, or the text itself. *)
Definition parse_body (text : string) : val :=
  if String.eqb text "" then VUndef else json_parse text ?? VStr text.

Definition refuse (status : Z) (error : string) : exn :=
  EApi (newApiError status (VObj [("error", VStr error)]) VUndef false None).

(** [Retry-After] in seconds, when the server sent a number that is one. *)
Definition retry_after (headers : list (string * string)) : option num :=
  let after :=
    match headers_get headers "Retry-After" with
    | None => NaN
    | Some h => if String.eqb (trim h) "" then NaN else to_number h
    end in
  if is_finite after && num_le (num_Z 0) after then Some after else None.

(** The response proper: a refusal becomes an [ApiError], a success the body. *)
Definition finish (status : Z) (headers : list (string * string)) (parsed : val)
    : result val :=
  if response_ok status then Ok parsed
  else Throw (EApi (newApiError status parsed VUndef false (retry_after headers))).

Definition is_mismatch (status : Z) (parsed : val) : bool :=
  (status =? 409)%Z && is_object parsed &&
  match prop parsed "code" with
  | VStr c => String.eqb c "session_context_changed"
  | _ => false
  end.

(** The session checks of the browser ([typeof window !== 'undefined']). *)
Definition judge (st : ClientState) (p : Pending) (status : Z)
    (headers : list (string * string)) (parsed : val)
    : ClientState * list event * result unit :=
  if negb (Nat.eqb (p_generation p) (sessionGeneration st)) then
    (st, [], Throw (refuse 409 "This response belongs to a previous session."))
  else
    let me := String.eqb (p_template p) "/me" in
    let observed := if me then headers_get headers sessionHeader else None in
    let known := truthy_str (sessionContext st) in
    let differs := negb (bool_decide (observed = sessionContext st)) in
    if me && response_ok status && negb (truthy_str observed) then
      (st, if known then [SessionContextChanged] else [],
       Throw (refuse 502
         "Session verification unavailable. Reload; if this continues, contact support."))
    else if is_mismatch status parsed || (truthy_str observed && known && differs) then
      (st, [SessionContextChanged],
       Throw (refuse 409
         "Your session changed. Please retry in the current organization."))
    else if truthy_str observed && response_ok status && differs then
      ({| sessionContext := observed; sessionGeneration := sessionGeneration st |},
       [SessionContextObserved (observed ?? "")], Ok tt)
    else (st, [], Ok tt).

(** After the [await]. *)
Definition request_settle (window : bool) (st : ClientState) (p : Pending) (o : outcome)
    : ClientState * list event * result val :=
  match o with
  | Failed cause signalAborted deadlineAborted =>
      (st, [], Throw (failure_error p cause signalAborted deadlineAborted))
  | Received status headers text =>
      let parsed := parse_body text in
      if window then
        let '(st', evs, verdict) := judge st p status headers parsed in
        (st', evs, _ <-! verdict ;; finish status headers parsed)
      else (st, [], finish status headers parsed)
  end.

(** [api.get], [api.post], [api.put], [api.del] as calls of [request]. *)
Definition api_get (path : string) (i : Init) (key : option string)
    (signal : option val) : Call :=
  {| method := "GET"; template := path; init := i; idempotencyKey := key;
     aborted := signal; payload := VUndef |}.
Definition api_post (path : string) (body : val) (i : Init) (key : option string)
    (signal : option val) : Call :=
  {| method := "POST"; template := path; init := i; idempotencyKey := key;
     aborted := signal; payload := body |}.
Definition api_put (path : string) (body : val) (i : Init) (key : option string)
    (signal : option val) : Call :=
  {| method := "PUT"; template := path; init := i; idempotencyKey := key;
     aborted := signal; payload := body |}.
Definition api_del (path : string) (i : Init) (key : option string)
    (signal : option val) : Call :=
  {| method := "DELETE"; template := path; init := i; idempotencyKey := key;
     aborted := signal; payload := VUndef |}.

(** ** Interleavings

    One console tab: the module state and the requests awaiting an answer.
    Requests start, answers arrive in any order, and the session boundary
    resets the context at any point between them. *)
Record Tab := { client : ClientState; inflight : list Pending }.

Inductive label :=
| LStart (p : Pending) (sent : result HttpRequest)
| LSettle (p : Pending) (evs : list event) (r : result val)
| LReset.

Inductive step : Tab -> label -> Tab -> Prop :=
| step_start base t c p sent :
    request_start base (client t) c = Ok (p, sent) ->
    step t (LStart p sent) {| client := client t; inflight := inflight t ++ [p] |}
| step_settle t l1 p l2 o st' evs r :
    inflight t = l1 ++ p :: l2 ->
    request_settle true (client t) p o = (st', evs, r) ->
    step t (LSettle p evs r) {| client := st'; inflight := l1 ++ l2 |}
| step_reset t :
    step t LReset {| client := resetSessionContext (client t); inflight := inflight t |}.

Inductive run : Tab -> list label -> Tab -> Prop :=
| run_nil t : run t [] t
| run_cons t l t' ls t'' : step t l t' -> run t' ls t'' -> run t (l :: ls) t''.
End Client.

(** ** Properties of the module state *)
Module ClientFacts.
Import Client.

Definition stale_error : exn := refuse 409 "This response belongs to a previous session.".

(** A response whose generation is not the current one changes nothing. *)
Lemma judge_stale st p s h v :
  p_generation p <> sessionGeneration st -> judge st p s h v = (st, [], Throw stale_error).
Proof. intros H%Nat.eqb_neq. unfold judge. by rewrite H. Qed.

Lemma settle_stale st p s h t :
  p_generation p <> sessionGeneration st ->
  request_settle true st p (Received s h t) = (st, [], Throw stale_error).
Proof. intros H. simpl. by rewrite judge_stale. Qed.

(** [judge] either keeps the state or records an observed context. *)
Lemma judge_state st p s h v st' evs r :
  judge st p s h v = (st', evs, r) ->
  (st' = st /\ (forall c, SessionContextObserved c ∉ evs)) \/
  (exists c, truthy_str (Some c) = true /\ evs = [SessionContextObserved c] /\ r = Ok tt /\
     truthy_str (sessionContext st) = false /\
     st' = {| sessionContext := Some c; sessionGeneration := sessionGeneration st |}).
Proof.
  unfold judge. destruct (negb (Nat.eqb _ _)).
  { intros [= <- <- <-]. left. split; [done|set_solver]. }
  set (obs := if String.eqb (p_template p) "/me" then _ else _).
  destruct (_ && _ && negb (truthy_str obs)).
  { intros [= <- <- <-]. left. split; [done|].
    destruct (truthy_str _); set_solver. }
  destruct (is_mismatch s v); simpl.
  { intros [= <- <- <-]. left. split; [done|set_solver]. }
  destruct (truthy_str obs && truthy_str (sessionContext st) && _) eqn:Hm.
  { intros [= <- <- <-]. left. split; [done|set_solver]. }
  destruct (truthy_str obs && response_ok s && _) eqn:Ho.
  - intros [= <- <- <-]. right. apply andb_true_iff in Ho as [[Ht _]%andb_true_iff Hd].
    rewrite Ht, Hd, andb_true_r in Hm. simpl in Hm.
    destruct obs as [c|]; [|done]. by exists c.
  - intros [= <- <- <-]. left. split; [done|set_solver].
Qed.

(** The same through [request_settle], whatever the outcome. *)
Lemma settle_state st p o st' evs r :
  request_settle true st p o = (st', evs, r) ->
  (st' = st /\ (forall c, SessionContextObserved c ∉ evs)) \/
  (exists c, truthy_str (Some c) = true /\ evs = [SessionContextObserved c] /\
     truthy_str (sessionContext st) = false /\
     st' = {| sessionContext := Some c; sessionGeneration := sessionGeneration st |}).
Proof.
  destruct o as [ca sa da|s h t]; simpl.
  { intros [= <- <- <-]. left. split; [done|set_solver]. }
  destruct (judge st p s h (parse_body t)) as [[st1 e1] v] eqn:Hj.
  intros [= -> -> <-]. apply judge_state in Hj as [[-> Hn]|(c & ? & -> & -> & ? & ->)].
  - left. done.
  - right. by exists c.
Qed.

Lemma settle_generation st p o st' evs r :
  request_settle true st p o = (st', evs, r) ->
  sessionGeneration st' = sessionGeneration st.
Proof. intros [[-> _]|(c & _ & _ & _ & ->)]%settle_state; done. Qed.

Lemma step_generation t l t' :
  step t l t' -> sessionGeneration (client t) <= sessionGeneration (client t').
Proof.
  intros Hs. destruct Hs as [|t l1 p l2 o st' evs r _ Hr|]; simpl; [lia| |lia].
  apply settle_generation in Hr. lia.
Qed.

Lemma run_generation t ls t' :
  run t ls t' -> sessionGeneration (client t) <= sessionGeneration (client t').
Proof. induction 1 as [|t l t1 ls t2 Hs%step_generation _ IH]; lia. Qed.

Lemma request_start_generation base st c p sent :
  request_start base st c = Ok (p, sent) -> p_generation p = sessionGeneration st.
Proof. unfold request_start. destruct (aborted c); [done|]. by intros [= <- _]. Qed.

(** Every request in flight carries a generation the tab has reached. *)
Definition wf (t : Tab) : Prop :=
  Forall (fun p => p_generation p <= sessionGeneration (client t)) (inflight t).

Lemma step_wf t l t' : wf t -> step t l t' -> wf t'.
Proof.
  unfold wf. intros Hw Hs.
  destruct Hs as [base t c p sent Hst|t l1 p l2 o st' evs r Hi Hr|t]; simpl.
  - apply Forall_app. split; [done|]. apply Forall_singleton.
    apply request_start_generation in Hst. lia.
  - apply settle_generation in Hr. rewrite Hr. rewrite Hi in Hw.
    apply Forall_app in Hw as [H1 H2%Forall_cons_1]. apply Forall_app. naive_solver.
  - eapply Forall_impl; [exact Hw|]. simpl. lia.
Qed.

Lemma run_wf t ls t' : wf t -> run t ls t' -> wf t'.
Proof. intros Hw Hr. induction Hr; eauto using step_wf. Qed.

(** Once a context is set, only a reset changes it. *)
Lemma step_context t l t' c :
  step t l t' -> l <> LReset -> truthy_str (Some c) = true ->
  sessionContext (client t) = Some c ->
  sessionContext (client t') = Some c /\
  (forall p evs r d, l = LSettle p evs r -> SessionContextObserved d ∉ evs).
Proof.
  intros Hs Hl Hc Hst. destruct Hs as [|t l1 p l2 o st' evs r Hi Hr|]; simpl; [done| |done].
  apply settle_state in Hr as [[-> Hn]|(d & _ & _ & Hf & _)].
  - split; [done|]. naive_solver.
  - by rewrite Hst, Hc in Hf.
Qed.

(** [observes ls c]: some response of the run made the tab adopt [c]. *)
Definition observes (ls : list label) (c : string) : Prop :=
  exists p evs r, LSettle p evs r ∈ ls /\ SessionContextObserved c ∈ evs.

Lemma observes_cons l ls c :
  observes (l :: ls) c <->
  (exists p evs r, l = LSettle p evs r /\ SessionContextObserved c ∈ evs) \/ observes ls c.
Proof. unfold observes. set_solver. Qed.

Lemma run_context t ls t' c :
  run t ls t' -> LReset ∉ ls -> truthy_str (Some c) = true ->
  sessionContext (client t) = Some c ->
  sessionContext (client t') = Some c /\ (forall d, ~ observes ls d).
Proof.
  induction 1 as [|t l t1 ls t2 Hs Hr IH]; intros Hl Hc Hst.
  { split; [done|]. unfold observes. set_solver. }
  destruct (step_context _ _ _ _ Hs ltac:(set_solver) Hc Hst) as [H1 H2].
  destruct (IH ltac:(set_solver) Hc H1) as [H3 H4]. split; [done|].
  intros d [(p & evs & r & -> & Hd)|Ho]%observes_cons; [by eapply H2|by eapply H4].
Qed.
End ClientFacts.

(** ** Properties of the URL builder *)
Module UrlFacts.
Import Url.

(** The inverse of percent-encoding, for the round trip. *)
Definition hex_val (c : ascii) : option nat :=
  let n := Ascii.nat_of_ascii c in
  if is_digit c then Some (n - 48)
  else if Nat.leb 65 n && Nat.leb n 70 then Some (n - 55) else None.
Fixpoint percent_decode (s : string) : option string :=
  match s with
  | EmptyString => Some ""
  | String "%" (String a (String b s')) =>
      x ← hex_val a; y ← hex_val b; r ← percent_decode s';
      Some (String (chr (16 * x + y)) r)
  | String c s' => r ← percent_decode s'; Some (String c r)
  end.

Lemma percent_decode_char c s :
  percent_decode ((if unreserved c then str1 c else percent c) +:+ s) =
  r ← percent_decode s; Some (String c r).
Proof. destruct c as [[] [] [] [] [] [] [] []]; reflexivity. Qed.

Lemma decode_encode s : percent_decode (encodeURIComponent s) = Some s.
Proof.
  induction s as [|c s IH]; [done|]. simpl encodeURIComponent.
  by rewrite percent_decode_char, IH.
Qed.

(** Occurrences of a character. *)
Fixpoint occurrences (c : ascii) (s : string) : nat :=
  match s with
  | EmptyString => 0
  | String d s' => (if Ascii.eqb c d then 1 else 0) + occurrences c s'
  end.
Lemma occurrences_app c a b : occurrences c (a +:+ b) = occurrences c a + occurrences c b.
Proof. induction a as [|d a IH]; [done|]. simpl. rewrite IH. lia. Qed.

(** A delimiter: neither unreserved nor one of the percent sign and braces. *)
Definition delimiter (c : ascii) : bool :=
  negb (unreserved c) && negb (str_exists (Ascii.eqb c) "%{}").

Lemma delimiter_char c d :
  delimiter c = true ->
  occurrences c (if unreserved d then str1 d else percent d) = 0.
Proof.
  intros Hc.
  assert (forall e, delimiter e = false -> Ascii.eqb c e = false) as Hne.
  { intros e He. apply Ascii.eqb_neq. intros ->. by rewrite Hc in He. }
  destruct (unreserved d) eqn:Hd.
  - simpl. rewrite Hne; [done|]. unfold delimiter. by rewrite Hd.
  - simpl. rewrite !Hne; [done|..|done]; clear -d;
      destruct d as [[] [] [] [] [] [] [] []]; reflexivity.
Qed.

Lemma delimiter_encode c s : delimiter c = true -> occurrences c (encodeURIComponent s) = 0.
Proof.
  intros Hc. induction s as [|d s IH]; [done|]. simpl.
  by rewrite occurrences_app, IH, delimiter_char.
Qed.

Lemma delimiter_word c d : delimiter c = true -> is_word d = true -> Ascii.eqb c d = false.
Proof.
  intros Hc Hd. apply Ascii.eqb_neq. intros ->. revert Hc Hd.
  destruct d as [[] [] [] [] [] [] [] []]; done.
Qed.

Lemma delimiter_brace c d :
  delimiter c = true -> str_exists (Ascii.eqb d) "%{}" = true -> Ascii.eqb c d = false.
Proof.
  intros Hc Hd. apply Ascii.eqb_neq. intros ->. unfold delimiter in Hc.
  rewrite Hd in Hc. by rewrite andb_false_r in Hc.
Qed.

Lemma occurrences_words c w :
  delimiter c = true -> str_forall is_word w = true -> occurrences c w = 0.
Proof.
  intros Hc. induction w as [|d w IH]; [done|]. simpl.
  intros [Hd Hw]%andb_true_iff. by rewrite (delimiter_word _ _ Hc Hd), IH.
Qed.

Definition pending_ok (p : option string) : Prop :=
  match p with Some w => str_forall is_word w = true | None => True end.

Lemma fill_delimiters c template params s : forall pending r,
  delimiter c = true -> pending_ok pending ->
  fill template params pending s = Ok r -> occurrences c r = occurrences c s.
Proof.
  induction s as [|d s IH]; intros pending r Hc Hp; cbn [fill occurrences].
  { intros [= <-]. destruct pending as [w|]; [|done]. simpl.
    rewrite (delimiter_brace c "{"), occurrences_words; done. }
  destruct pending as [w|].
  - destruct (is_word d) eqn:Hw.
    { intros H. rewrite (delimiter_word _ _ Hc Hw). simpl.
      eapply IH; [done| |exact H]. simpl. rewrite str_forall_app. simpl.
      by rewrite Hp, Hw. }
    destruct (Ascii.eqb d "}" && _) eqn:Hb.
    { intros H. apply andb_true_iff in Hb as [->%Ascii.eqb_eq _].
      rewrite (delimiter_brace c "}") by done. simpl.
      destruct (fill template params None s) as [r'|] eqn:Hf; [|by destruct (prop params w)].
      assert (exists v, r = encodeURIComponent v +:+ r') as [v ->].
      { destruct (prop params w); [discriminate|..]; cbv [rbind] in H;
          apply Ok_inj in H as <-; eexists; reflexivity. }
      rewrite occurrences_app, delimiter_encode by done.
      simpl. by apply (IH None). }
    destruct (Ascii.eqb d "{") eqn:Hd.
    + apply Ascii.eqb_eq in Hd as ->.
      destruct (fill _ _ (Some "") s) as [r'|] eqn:Hf; [|done]. intros [= <-]. simpl.
      rewrite (delimiter_brace c "{") by done. simpl.
      rewrite occurrences_app, occurrences_words by done. by apply (IH (Some "")).
    + destruct (fill _ _ None s) as [r'|] eqn:Hf; [|done]. intros [= <-]. simpl.
      rewrite (delimiter_brace c "{") by done. simpl.
      rewrite occurrences_app, occurrences_words by done. simpl.
      f_equal. by apply (IH None).
  - destruct (Ascii.eqb d "{") eqn:Hd.
    + apply Ascii.eqb_eq in Hd as ->. intros H.
      rewrite (delimiter_brace c "{") by done. simpl. by apply (IH (Some "")).
    + destruct (fill _ _ None s) as [r'|] eqn:Hf; [|done]. intros [= <-]. simpl.
      f_equal. by apply (IH None).
Qed.
End UrlFacts.

(** ** Theorems *)
Section ClientTheorems.
Import Url Client ClientFacts UrlFacts.

Definition fresh_tab : Tab := {| client := initial; inflight := [] |}.

(** C1: between two resets a tab adopts at most one session: whatever the
    interleaving of requests and answers, every context a response made it
    adopt is the same one, and it is still the tab's context at the end. *)
Theorem one_context_per_generation t ls t' c d :
  run t ls t' -> LReset ∉ ls -> observes ls c -> observes ls d ->
  c = d /\ sessionContext (client t') = Some c.
Proof.
  induction 1 as [|t l t1 ls t2 Hs Hr IH]; intros Hl.
  { unfold observes. set_solver. }
  apply not_elem_of_cons in Hl as [Hl0 Hl].
  destruct Hs as [base t c0 p0 sent Hst|t l1 p l2 o st' evs r Hi Hset|]; [| |done].
  - rewrite !observes_cons. intros [(?&?&?&?&?)|Hc] [(?&?&?&?&?)|Hd]; [done..|].
    by apply IH.
  - pose proof (settle_state _ _ _ _ _ _ Hset) as [[-> Hn]|(e & He & -> & _ & ->)].
    + rewrite !observes_cons.
      intros [(?&?&?&[= <- <- <-]&Hc)|Hc] [(?&?&?&[= <- <- <-]&Hd)|Hd];
        [by apply Hn in Hc|by apply Hn in Hc|by apply Hn in Hd|by apply IH].
    + destruct (run_context _ _ _ e Hr Hl He eq_refl) as [Hk Hno].
      rewrite !observes_cons.
      intros [(?&?&?&[= <- <- <-]&Hc)|Hc] [(?&?&?&[= <- <- <-]&Hd)|Hd];
        [|by apply Hno in Hd|by apply Hno in Hc|by apply Hno in Hc].
      apply list_elem_of_singleton in Hc as [= ->].
      apply list_elem_of_singleton in Hd as [= ->]. done.
Qed.

Definition me_call : Call :=
  api_get "/me" {| path := VUndef; query := VUndef |} None None.
Definition me_pending : Pending :=
  {| p_generation := 0; p_method := "GET"; p_template := "/me" |}.
Definition me_answer : outcome := Received 200 [("x-premise-session-context", "ctx-1")] "{}".

Lemma one_context_per_generation_witness :
  exists t', run fresh_tab
    [LStart me_pending (Ok {| http_url := "/me"; http_method := "GET";
                              http_headers := []; http_body := None |});
     LSettle me_pending [SessionContextObserved "ctx-1"] (Ok (VObj []))] t' /\
    sessionContext (client t') = Some "ctx-1".
Proof.
  eexists. assert (Hr : run fresh_tab
    [LStart me_pending (Ok {| http_url := "/me"; http_method := "GET";
                              http_headers := []; http_body := None |});
     LSettle me_pending [SessionContextObserved "ctx-1"] (Ok (VObj []))]
    {| client := {| sessionContext := Some "ctx-1"; sessionGeneration := 0 |};
       inflight := [] |}).
  { eapply run_cons; [apply (step_start "" fresh_tab me_call); vm_compute; reflexivity|].
    eapply run_cons; [|apply run_nil].
    apply (step_settle _ [] me_pending [] me_answer); vm_compute; reflexivity. }
  split; [exact Hr|].
  eapply (one_context_per_generation _ _ _ "ctx-1" "ctx-1" Hr).
  - set_solver.
  - exists me_pending, [SessionContextObserved "ctx-1"], (Ok (VObj [])). set_solver.
  - exists me_pending, [SessionContextObserved "ctx-1"], (Ok (VObj [])). set_solver.
Defined.

(** C6: a reset strands every request in flight: in any later state of the tab
    its response is refused as one of a previous session, the module state is
    left as it was and no event is dispatched. *)
Theorem reset_strands_inflight ls t t1 ls' t2 p status headers text :
  run fresh_tab ls t -> step t LReset t1 -> p ∈ inflight t1 -> run t1 ls' t2 ->
  request_settle true (client t2) p (Received status headers text) =
    (client t2, [], Throw stale_error).
Proof.
  intros Hr Hs Hp Hr'. apply settle_stale.
  assert (wf t) as Hw by (eapply run_wf; [|exact Hr]; constructor).
  apply run_generation in Hr'. inversion Hs; subst. simpl in *.
  unfold wf in Hw. rewrite Forall_forall in Hw. specialize (Hw _ Hp). lia.
Qed.

Lemma reset_strands_inflight_witness :
  request_settle true {| sessionContext := None; sessionGeneration := 1 |} me_pending me_answer
    = ({| sessionContext := None; sessionGeneration := 1 |}, [], Throw stale_error).
Proof.
  set (t0 := {| client := initial; inflight := [me_pending] |}).
  set (t1 := {| client := resetSessionContext initial; inflight := [me_pending] |}).
  apply (reset_strands_inflight
    [LStart me_pending (Ok {| http_url := "/me"; http_method := "GET";
                              http_headers := []; http_body := None |})]
    t0 t1 [] t1 me_pending).
  - eapply run_cons; [apply (step_start "" fresh_tab me_call); vm_compute; reflexivity|].
    apply run_nil.
  - apply (step_reset t0).
  - set_solver.
  - apply run_nil.
Defined.

(** C7: a call returns a value only for a 2xx response, and the value is that
    response's body; in a browser the response also belongs to the current
    session generation, and a [/me] answer carries the context the module
    then holds. *)
Theorem settle_ok_sound window st p o st' evs v :
  request_settle window st p o = (st', evs, Ok v) ->
  exists status headers text,
    o = Received status headers text /\ (200 <= status <= 299)%Z /\ v = parse_body text /\
    (window = true ->
      p_generation p = sessionGeneration st /\
      (p_template p = "/me" ->
        exists c, c <> "" /\ headers_get headers sessionHeader = Some c /\
                  sessionContext st' = Some c)).
Proof.
  assert (forall s h b r, finish s h b = Ok r -> (200 <= s <= 299)%Z /\ r = b) as Hfin.
  { intros s h b r. unfold finish, response_ok.
    destruct (_ && _) eqn:E; [|done]. intros [= <-]. unbool. done. }
  destruct o as [ca sa da|s h t]; simpl; [done|]. intros H. exists s, h, t.
  destruct window; [|by apply pair_equal_spec in H as [_ [? ->]%Hfin]].
  destruct (judge st p s h (parse_body t)) as [[st1 e1] verdict] eqn:Hj.
  injection H as -> -> H. destruct verdict as [[]|]; [|done].
  apply Hfin in H as [Hs ->]. split; [done|]. split; [done|]. split; [done|]. intros _.
  assert (Hok : response_ok s = true).
  { unfold response_ok. rewrite andb_true_iff, !Z.leb_le. done. }
  unfold judge in Hj. destruct (Nat.eqb _ _) eqn:Hg; [|done]. simpl in Hj.
  apply Nat.eqb_eq in Hg. split; [done|]. intros Hme.
  rewrite Hme, Hok in Hj. simpl in Hj.
  destruct (headers_get h sessionHeader) as [[|a c]|]; simpl in Hj; [done| |done].
  exists (String a c). split; [done|]. split; [done|].
  destruct (is_mismatch _ _); simpl in Hj; [done|].
  destruct (truthy_str _) eqn:Hk; simpl in Hj; case_bool_decide as Hd; simpl in Hj; simplify_eq/=; done.
Qed.

Lemma settle_ok_sound_witness :
  request_settle true initial me_pending me_answer =
    ({| sessionContext := Some "ctx-1"; sessionGeneration := 0 |},
     [SessionContextObserved "ctx-1"], Ok (VObj [])) /\
  exists status headers text,
    me_answer = Received status headers text /\ (200 <= status <= 299)%Z.
Proof.
  split; [vm_compute; reflexivity|].
  destruct (settle_ok_sound true initial me_pending me_answer _ _ _ eq_refl)
    as (s & h & t & H1 & H2 & _). exists s, h, t. split; assumption.
Defined.
End ClientTheorems.

Section ErrorTheorems.
Import Url Client ClientFacts UrlFacts.

Lemma finish_throw status headers parsed e :
  finish status headers parsed = Throw e ->
  response_ok status = false /\
  e = EApi (newApiError status parsed VUndef false (retry_after headers)).
Proof. unfold finish. destruct (response_ok status); [done|]. by intros [= <-]. Qed.

Lemma judge_throw st p s h v st' evs e :
  judge st p s h v = (st', evs, Throw e) ->
  exists status error, e = refuse status error /\ (status = 409 \/ status = 502)%Z.
Proof. unfold judge. intros H. case_hyp H; eauto 6. Qed.

(** What can be thrown: the failure of the fetch, one of the client's own
    refusals, or the server's. *)
Lemma settle_throw window st p o st' evs e :
  request_settle window st p o = (st', evs, Throw e) ->
  (exists ca sa da, o = Failed ca sa da /\ e = failure_error p ca sa da) \/
  (exists status headers text, o = Received status headers text /\
    ((exists s error, e = refuse s error /\ (s = 409 \/ s = 502)%Z) \/
     (response_ok status = false /\
      e = EApi (newApiError status (parse_body text) VUndef false (retry_after headers))))).
Proof.
  destruct o as [ca sa da|s h t]; simpl.
  { intros [= <- <- <-]. left. eauto. }
  intros H. right. exists s, h, t. split; [done|]. destruct window.
  - destruct (judge st p s h (parse_body t)) as [[st1 e1] [[]|e']] eqn:Hj; simpl in H.
    + injection H as -> -> H. right. by apply finish_throw.
    + injection H as -> -> ->. left. by eapply judge_throw.
  - apply pair_equal_spec in H as [_ H]. right. by apply finish_throw.
Qed.

(** An error says the outcome is unknown exactly when a write's fetch failed:
    never for a read, and never once a response has arrived. *)
Theorem outcome_unknown_iff window st p o st' evs e :
  request_settle window st p o = (st', evs, Throw (EApi e)) ->
  outcomeUnknown e = true <->
  p_method p <> "GET" /\ exists ca sa da, o = Failed ca sa da.
Proof.
  intros [(ca & sa & da & -> & He)|(s & h & t & -> & [(s' & er & [= ->] & _)|[_ [= ->]]])]
    %settle_throw; [|simpl; naive_solver..].
  unfold failure_error in He. destruct (String.eqb (p_method p) "GET") eqn:Hg.
  - apply String.eqb_eq in Hg. destruct sa; simpl in He; [done|].
    injection He as ->. simpl. naive_solver.
  - apply String.eqb_neq in Hg. simpl in He. injection He as ->. simpl. naive_solver eauto.
Qed.

Lemma outcome_unknown_iff_witness :
  exists e, request_settle true initial
      {| p_generation := 0; p_method := "POST"; p_template := "/api/sites" |}
      (Failed VUndef None false) = (initial, [], Throw (EApi e)) /\
    outcomeUnknown e = true.
Proof.
  eexists. split; [reflexivity|].
  eapply (outcome_unknown_iff true initial
    {| p_generation := 0; p_method := "POST"; p_template := "/api/sites" |}
    (Failed VUndef None false)); [reflexivity|].
  split; [discriminate|]. exists VUndef, None, false. reflexivity.
Defined.

(** [isTransient] accepts only the server's own 503 that names a delay: a
    finite, non-negative [Retry-After] header.  No error the client makes
    itself is retried as transient. *)
Theorem transient_from_server window st p o st' evs e :
  request_settle window st p o = (st', evs, Throw e) -> isTransient e = true ->
  exists headers text raw after,
    o = Received 503 headers text /\ headers_get headers "Retry-After" = Some raw /\
    trim raw <> "" /\ to_number raw = after /\ is_finite after = true /\
    num_le (num_Z 0) after = true.
Proof.
  intros [(ca & sa & da & -> & ->)|(s & h & t & -> & [(s' & er & -> & Hs')|[_ ->]])]
    %settle_throw; simpl.
  - unfold failure_error. by destruct (String.eqb _ _), sa.
  - destruct Hs' as [-> | ->]; done.
  - unfold retry_after. destruct (headers_get h "Retry-After") as [raw|] eqn:Hh;
      [|by rewrite andb_false_r].
    destruct (String.eqb (trim raw) "") eqn:Ht; [by rewrite andb_false_r|].
    destruct (is_finite _ && _) eqn:Hf; [|by rewrite andb_false_r].
    rewrite andb_true_r. intros ->%Z.eqb_eq. unbool.
    exists h, t, raw, (to_number raw). done.
Qed.

Lemma transient_from_server_witness :
  exists e, request_settle true initial me_pending
      (Received 503 [("Retry-After", "2")] "") = (initial, [], Throw e) /\
    isTransient e = true /\
    exists raw, headers_get [("Retry-After", "2")] "Retry-After" = Some raw.
Proof.
  eexists. split; [vm_compute; reflexivity|]. split; [reflexivity|].
  edestruct (transient_from_server true initial me_pending
    (Received 503 [("Retry-After", "2")] "")) as (h & t & raw & a & H & Hr & _);
    [vm_compute; reflexivity|reflexivity|].
  exists raw. injection H as <- <-. exact Hr.
Defined.

(** The session header is sent exactly when the module holds a context and
    the call is not the [/me] probe, and its value is that context. *)
Theorem session_header_iff base st c p http v :
  request_start base st c = Ok (p, Ok http) ->
  (sessionHeader, v) ∈ http_headers http <->
  sessionContext st = Some v /\ v <> "" /\ template c <> "/me".
Proof.
  unfold request_start. destruct (aborted c); [done|]. intros [= _ H].
  destruct (url _ _ _) as [u|]; [|done]. injection H as <-. simpl.
  unfold request_headers, sessionHeader. rewrite !elem_of_app.
  assert (forall k y : string, k <> "X-Premise-Session-Context" ->
    forall b : bool, ("X-Premise-Session-Context", v) ∈
      (if b then [(k, y)] else [] : list (string * string)) <-> False)
    as Hno.
  { intros k y Hk b; destruct b; set_solver. }
  rewrite (Hno "Idempotency-Key" (idempotencyKey c ?? "")) by done.
  assert (("X-Premise-Session-Context", v) ∈
    (if is_undefined (payload c) then [] else [("Content-Type", "application/json")])
    <-> False) as -> by (destruct (is_undefined _); set_solver).
  destruct (sessionContext st) as [[|a s]|]; simpl; [set_solver| |set_solver].
  destruct (String.eqb (template c) "/me") eqn:Ht; unbool; simpl; [set_solver|].
  rewrite list_elem_of_singleton. split.
  - intros [[]|[[]|[= ->]]]. done.
  - intros ([= <-] & _ & _). auto.
Qed.

Lemma session_header_iff_witness :
  (sessionHeader, "ctx-1") ∈ request_headers
    {| sessionContext := Some "ctx-1"; sessionGeneration := 0 |}
    (api_get "/api/sites" {| path := VUndef; query := VUndef |} None None).
Proof.
  refine (proj2 (session_header_iff ""
    {| sessionContext := Some "ctx-1"; sessionGeneration := 0 |}
    (api_get "/api/sites" {| path := VUndef; query := VUndef |} None None)
    {| p_generation := 0; p_method := "GET"; p_template := "/api/sites" |}
    {| http_url := "/api/sites"; http_method := "GET";
       http_headers := [(sessionHeader, "ctx-1")]; http_body := None |}
    "ctx-1" eq_refl) _).
  split; [reflexivity|]. split; discriminate.
Defined.

(** A path parameter cannot change the shape of the URL: a filled template
    has the slashes, question marks, hashes and every other delimiter of the
    template, as many times, whatever the parameters; and the encoding of a
    parameter decodes back to it. *)
Theorem url_segments template params filled c :
  delimiter c = true -> fill template params None template = Ok filled ->
  occurrences c filled = occurrences c template /\
  (forall s, percent_decode (encodeURIComponent s) = Some s).
Proof.
  intros Hc Hf. split; [by apply (fill_delimiters c template params template None)|]. apply decode_encode.
Qed.

Lemma url_segments_witness :
  fill "/api/sites/{id}" (VObj [("id", VStr "../me?x")]) None "/api/sites/{id}"
    = Ok "/api/sites/..%2Fme%3Fx" /\
  occurrences "/" "/api/sites/..%2Fme%3Fx" = 3.
Proof.
  split; [vm_compute; reflexivity|].
  exact (proj1 (url_segments "/api/sites/{id}" (VObj [("id", VStr "../me?x")])
    "/api/sites/..%2Fme%3Fx" "/" eq_refl eq_refl)).
Defined.

Lemma truthy_str_neq s : truthy_str s = true -> s ?? "" <> "".
Proof. by destruct s as [[]|]. Qed.

(** Every [ApiError] has something to show: its message is never empty,
    whatever the status and the body. *)
Theorem error_message_nonempty status body cause unknown after :
  message (newApiError status body cause unknown after) <> "".
Proof.
  simpl. unfold apiErrorMessage. destruct (apiPlanLimit status body) as [plan|].
  { by destruct (limit plan). }
  destruct (truthy_str (problem_error _)) eqn:H1; [by apply truthy_str_neq|].
  destruct (truthy_str (errors ← _; _)) eqn:H2; [by apply truthy_str_neq|].
  destruct (String.eqb _ "") eqn:H3; simpl; [|by apply String.eqb_neq].
  by repeat destruct (_ =? _)%Z.
Qed.
End ErrorTheorems.
