(* ===== verification/Session.v ===== *)
(** * The console session
    ([packages/api/src/keys.ts], [apps/console/src/session.tsx],
    [app/shell/nav.ts], [shell.tsx] and the setup list of [pages/dashboard.tsx])

    Who the signed-in principal is, as parsed from the [/me] answer; what it may
    do; which areas the navigation offers it; and which screen the shell shows. *)
From S2P Require Import Prelude JsString JsValue ApiClient.

(** ** Capability and entitlement keys *)
Module Keys.
Definition CAPABILITIES : list string :=
  ["public:read"; "sites:read"; "sites:manage"; "hierarchy:manage"; "files:read";
   "files:manage"; "ingest:manage"; "reports:generate"; "checklists:manage";
   "checklists:complete"; "overlays:read"; "overlays:manage"; "audit:read";
   "audit:manage"; "entitlements:manage"; "roles:manage"; "org:manage";
   "platform:operate"].
Definition is_capability (s : string) : bool := some (String.eqb s) CAPABILITIES.

Inductive Shape := Boolean | Tiered | Metered | Limit.
Inductive Policy := Block | WarnOnly | Grace.
Record Entitlement := { shape : Shape; policy : Policy; defaultValue : string }.
Definition ENTITLEMENTS : list (string * Entitlement) :=
  [("audit.read_logging", {| shape := Boolean; policy := Block; defaultValue := "true" |});
   ("audit.retention_days", {| shape := Tiered; policy := WarnOnly; defaultValue := "90" |});
   ("contact_links.enabled", {| shape := Boolean; policy := Block; defaultValue := "true" |});
   ("contact_links.monthly", {| shape := Metered; policy := Grace; defaultValue := "1000" |});
   ("hierarchy.depth", {| shape := Limit; policy := Block; defaultValue := "4" |});
   ("reports.enabled", {| shape := Boolean; policy := Block; defaultValue := "true" |});
   ("reports.monthly", {| shape := Limit; policy := Block; defaultValue := "1000" |});
   ("sites.max", {| shape := Limit; policy := Block; defaultValue := "100" |});
   ("sso.enabled", {| shape := Boolean; policy := Block; defaultValue := "false" |})].
End Keys.
Export Keys.

(** ** The principal *)
Module Principal.

(** An organization object of the session.  [org_status] is the property the
    shell reads through a cast; an object literal without it reads [None]. *)
Record Organization := {
  org_id : string; org_name : string; org_slug : string; org_status : option string }.

Record User := {
  userId : string; email : string; name : option string; activeOrg : option string;
  organizations : list Organization; capabilities : list string;
  impersonationExpiresAt : option string }.

Inductive Me :=
| Guest (org : option string)
| Contact (contactId org : string)
| MeUser (u : User).

Definition invalid_session : exn := EMsg "invalid session response".
Definition optionalString (row : val) (key : string) : option string :=
  opt_str (prop row key).

Definition is_str (v : val) (s : string) : bool :=
  match v with VStr t => String.eqb t s | _ => false end.
Definition valid_org (org : val) : bool :=
  is_object org && every (fun key => is_string (prop org key)) ["id"; "name"; "slug"].
Definition valid_capability (c : val) : bool :=
  match c with VStr s => is_capability s | _ => false end.
(** The string property [org.every] just checked to be one. *)
Definition string_prop (v : val) (key : string) : string := opt_str (prop v key) ?? "".
(** [{ id: item.id!, name: item.name!, slug: item.slug! }] *)
Definition parse_org (item : val) : Organization :=
  {| org_id := string_prop item "id"; org_name := string_prop item "name";
     org_slug := string_prop item "slug"; org_status := None |}.

Definition array_items (v : val) : option (list val) :=
  match v with VArr l => Some l | _ => None end.

Definition parseMe (value : val) : result Me :=
  if negb (is_object value) then Throw invalid_session
  else
    let row key := prop value key in
    if is_str (row "tier") "guest" then Ok (Guest (optionalString value "org"))
    else if is_str (row "tier") "contact" && is_string (row "contactId") &&
            is_string (row "org")
    then Ok (Contact (string_prop value "contactId") (string_prop value "org"))
    else
      match array_items (row "organizations"), array_items (row "capabilities") with
      | Some orgs, Some caps =>
          if is_str (row "tier") "user" && is_string (row "userId") &&
             is_string (row "email") && every valid_org orgs && every valid_capability caps
          then Ok (MeUser {|
            userId := string_prop value "userId";
            email := string_prop value "email";
            name := optionalString value "name";
            activeOrg := optionalString value "activeOrg";
            organizations := map parse_org orgs;
            capabilities := omap opt_str caps;
            impersonationExpiresAt := optionalString value "impersonationExpiresAt" |})
          else Throw invalid_session
      | _, _ => Throw invalid_session
      end.

(** [me?.tier === 'user' && me.capabilities.includes(capability)] *)
Definition can (me : option Me) (capability : string) : bool :=
  match me with
  | Some (MeUser u) => some (String.eqb capability) (capabilities u)
  | _ => false
  end.

(** [useMe]: the query function, over the [/me] call. *)
Definition useMe_query (answer : result val) : result Me := v <-! answer ;; parseMe v.
End Principal.
Export Principal.

(** ** Navigation *)
Module Nav.

(** An area of the console; its icon is presentation and is left out. *)
Record NavItem := { to : string; label : string; capability : option string }.
Record NavGroup := { group_label : option string; items : list NavItem }.
Definition nav_item (t l : string) (c : option string) : NavItem :=
  {| to := t; label := l; capability := c |}.

Definition NAV_GROUPS : list NavGroup :=
  [{| group_label := None;
      items := [nav_item "/" "Dashboard" None;
                nav_item "/sites" "Sites" (Some "sites:read");
                nav_item "/overlays" "Overlays" (Some "overlays:read");
                nav_item "/hierarchy" "Hierarchy" (Some "hierarchy:manage");
                nav_item "/checklists" "Checklists" (Some "checklists:complete");
                nav_item "/files" "Files" (Some "files:read");
                nav_item "/reports" "Reports" (Some "files:read");
                nav_item "/ingest" "Ingest" (Some "ingest:manage")] |};
   {| group_label := Some "Administer";
      items := [nav_item "/members" "Members" (Some "roles:manage");
                nav_item "/roles" "Roles" (Some "roles:manage");
                nav_item "/developers" "Developers" (Some "org:manage");
                nav_item "/settings" "Settings" (Some "org:manage");
                nav_item "/audit" "Audit" (Some "audit:read")] |};
   {| group_label := Some "Platform";
      items := [nav_item "/operator" "Operator" (Some "platform:operate")] |}].

Definition TAB_BAR : list string := ["/"; "/sites"; "/checklists"; "/files"].

Definition shows (me : User) (n : NavItem) : bool :=
  match capability n with None => true | Some c => can (Some (MeUser me)) c end.
Definition visibleGroups (me : User) : list NavGroup :=
  bfilter (fun g => negb (Nat.eqb (length (items g)) 0))
    (map (fun g => {| group_label := group_label g; items := bfilter (shows me) (items g) |})
       NAV_GROUPS).

Definition isActive (path to : string) : bool :=
  if String.eqb to "/" then String.eqb path "/"
  else String.eqb path to || starts_with (to +:+ "/") path.

Definition SCOPED_PAGES : list string := ["/sites"; "/checklists"; "/overlays"].
Definition isScopedPage (path : string) : bool := some (isActive path) SCOPED_PAGES.

Definition pageTitle (path : string) : string :=
  if starts_with "/account" path then "Account"
  else match js_find (fun n => isActive path (to n)) (flat_map items NAV_GROUPS) with
       | Some hit => label hit
       | None => "Premise"
       end.

(** The phone's split of the visible areas: four tabs, the rest under More. *)
Definition tab_items (me : User) : list NavItem :=
  bfilter (fun n => some (String.eqb (to n)) TAB_BAR) (flat_map items (visibleGroups me)).
Definition more_items (me : User) : list NavItem :=
  bfilter (fun n => negb (some (String.eqb (to n)) TAB_BAR))
    (flat_map items (visibleGroups me)).
End Nav.

(** ** The shell *)
Module Shell.
Import Nav.

(** What [Shell] renders; the application frame keeps the values it is given. *)
Inductive Screen :=
| LoadingSession
| VerifyFailed (message : string)
| SignInScreen
| CreateOrgScreen
| SuspendedScreen (org : string)
| Console (scopeOrg : string) (scoped : bool) (sidebarWidth : string)
    (impersonation : option (string * string)) (topbarOrg : string).

Definition active_organization (u : User) : option Organization :=
  js_find (fun o => bool_decide (Some (org_id o) = activeOrg u)) (organizations u).

Definition shell (isLoading : bool) (error : option string) (me : option Me) (path : string)
    : Screen :=
  let scoped := isScopedPage path in
  if isLoading then LoadingSession
  else match error with
  | Some message => VerifyFailed message
  | None =>
    match me with
    | Some (MeUser u) =>
        match organizations u with
        | [] => CreateOrgScreen
        | _ =>
            let org := active_organization u in
            match org with
            | Some {| org_name := n; org_status := Some "Suspended" |} => SuspendedScreen n
            | _ =>
                Console (activeOrg u ?? "none") scoped (if scoped then "316px" else "77px")
                  (if truthy_str (impersonationExpiresAt u)
                   then Some (option_map org_name org ?? "organization",
                              impersonationExpiresAt u ?? "")
                   else None)
                  (option_map org_name org ?? "No organization")
            end
        end
    | _ => SignInScreen
    end
  end.
End Shell.

(** ** The setup list of the dashboard *)
Module Setup.
Definition DEFAULT_LEVELS : list string := ["Region"; "Market"].

Record SetupFacts := {
  levels : list string; nodeCount : nat; siteCount : nat; memberCount : option nat;
  pendingInvites : nat; manageHierarchy : bool; manageSites : bool; manageMembers : bool }.
Record SetupStep := {
  key : string; title : string; description : string; done_ : bool; step_to : string;
  action : string }.

Definition setupSteps (f : SetupFacts) : list SetupStep :=
  (if manageHierarchy f then
    [{| key := "levels"; title := "Name your levels";
        description :=
          "Regions and markets, districts and stores - whatever you call the layers between the organization and a site. Today: "
          +:+ join " → " (levels f) +:+ ".";
        done_ := negb (String.eqb (join "|" (levels f)) (join "|" DEFAULT_LEVELS))
                 || Nat.ltb 1 (nodeCount f);
        step_to := "/hierarchy"; action := "Rename levels" |};
     {| key := "node"; title := "Add your first node";
        description :=
          "A region, a district, a market: the branch your first sites hang from. Sites can also sit on the root.";
        done_ := Nat.ltb 1 (nodeCount f); step_to := "/hierarchy"; action := "Add a node" |}]
   else []) ++
  (if manageSites f then
    [{| key := "site"; title := "Add your first site";
        description :=
          "A name, a time zone, and where it sits. Address and coordinates put it on the map.";
        done_ := Nat.ltb 0 (siteCount f); step_to := "/sites"; action := "Add a site" |}]
   else []) ++
  (if manageMembers f then
    [{| key := "invite"; title := "Invite your team";
        description :=
          "Site managers see their site's checklists; regional managers run a subtree; admins run the org.";
        done_ := Nat.ltb 1 (memberCount f ?? 0) || Nat.ltb 0 (pendingInvites f);
        step_to := "/members"; action := "Invite someone" |}]
   else []).

(** [SetupList]: hidden once every step is done, else how many remain. *)
Definition setup_remaining (f : SetupFacts) : option nat :=
  let steps := setupSteps f in
  if every done_ steps then None
  else Some (length (bfilter (fun s => negb (done_ s)) steps)).
End Setup.

(** ** Theorems *)
Section SessionTheorems.
Import Nav Shell.

Lemma existsb_elem s l : some (String.eqb s) l = true <-> s ∈ l.
Proof.
  rewrite existsb_exists. setoid_rewrite String.eqb_eq. rewrite list_elem_of_In.
  naive_solver.
Qed.

(** The body the server answers [/me] with, for a given principal. *)
Definition org_json (o : Organization) : val :=
  VObj [("id", VStr (org_id o)); ("name", VStr (org_name o)); ("slug", VStr (org_slug o));
        ("status", match org_status o with Some s => VStr s | None => VNull end)].
Definition opt_json (s : option string) : val :=
  match s with Some x => VStr x | None => VNull end.
Definition me_json (m : Me) : val :=
  match m with
  | Guest org => VObj [("tier", VStr "guest"); ("org", opt_json org)]
  | Contact c org => VObj [("tier", VStr "contact"); ("contactId", VStr c); ("org", VStr org)]
  | MeUser u =>
      VObj [("tier", VStr "user"); ("userId", VStr (userId u)); ("email", VStr (email u));
            ("name", opt_json (name u)); ("activeOrg", opt_json (activeOrg u));
            ("organizations", VArr (map org_json (organizations u)));
            ("capabilities", VArr (map VStr (capabilities u)));
            ("impersonationExpiresAt", opt_json (impersonationExpiresAt u))]
  end.

(** What the console keeps of a principal: everything but the statuses. *)
Definition without_status (m : Me) : Me :=
  match m with
  | MeUser u =>
      MeUser {| userId := userId u; email := email u; name := name u;
        activeOrg := activeOrg u;
        organizations := map (fun o => {| org_id := org_id o; org_name := org_name o;
          org_slug := org_slug o; org_status := None |}) (organizations u);
        capabilities := capabilities u;
        impersonationExpiresAt := impersonationExpiresAt u |}
  | _ => m
  end.
Definition known_capabilities (m : Me) : Prop :=
  match m with MeUser u => Forall (fun c => c ∈ CAPABILITIES) (capabilities u) | _ => True end.

Lemma opt_str_json s : opt_str (opt_json s) = s.
Proof. by destruct s. Qed.

Lemma omap_opt_str_map l : omap opt_str (map VStr l) = l.
Proof. induction l as [|s l IH]; [done|]. simpl. by f_equal. Qed.

(** Parsing inverts the server's answer: for every principal whose
    capabilities are ones the console knows, [parseMe] of the [/me] body gives
    that principal back, less the organizations' statuses, which it drops. *)
Theorem parseMe_roundtrip m :
  known_capabilities m -> parseMe (me_json m) = Ok (without_status m).
Proof.
  destruct m as [org|c org|u]; simpl; [by rewrite <- (opt_str_json org) at 2|done|].
  intros Hc. unfold parseMe. simpl.
  assert (every valid_org (map org_json (organizations u)) = true) as ->.
  { apply forallb_forall. intros v (o & <- & _)%in_map_iff. by destruct o. }
  assert (every valid_capability (map VStr (capabilities u)) = true) as ->.
  { apply forallb_forall. intros v (s & <- & Hs)%in_map_iff. apply existsb_elem.
    rewrite Forall_forall in Hc. apply Hc. by apply list_elem_of_In. }
  unfold optionalString. simpl. rewrite !opt_str_json, omap_opt_str_map, map_map. done.
Qed.

Definition sample_user : User :=
  {| userId := "u1"; email := "a@acme.test"; name := None; activeOrg := Some "o1";
     organizations := [{| org_id := "o1"; org_name := "Acme"; org_slug := "acme";
                          org_status := Some "Suspended" |}];
     capabilities := ["sites:read"; "files:read"]; impersonationExpiresAt := None |}.

Lemma parseMe_roundtrip_witness :
  parseMe (me_json (MeUser sample_user)) = Ok (without_status (MeUser sample_user)).
Proof.
  apply parseMe_roundtrip. simpl.
  repeat constructor; apply existsb_elem; vm_compute; reflexivity.
Defined.

(** What [parseMe] accepts as a user. *)
Lemma parseMe_user v u :
  parseMe v = Ok (MeUser u) ->
  Forall (fun c => c ∈ CAPABILITIES) (capabilities u) /\
  Forall (fun o => org_status o = None) (organizations u).
Proof.
  unfold parseMe. intros H. case_hyp H. unbool. split.
  - rewrite Forall_forall. intros c Hc. apply list_elem_of_omap in Hc as (x & Hx & Hs).
    destruct x; simplify_eq/=.
    match goal with Hv : every valid_capability _ = true |- _ =>
      rewrite forallb_forall in Hv; apply list_elem_of_In, Hv in Hx end.
    by apply existsb_elem.
  - rewrite Forall_forall. intros o Ho. apply list_elem_of_In in Ho.
    by apply in_map_iff in Ho as (x & <- & _).
Qed.

(** The suspension screen cannot appear: whatever [/me] answers, a session
    that [parseMe] accepts never makes the shell show it, because the parsed
    organizations carry no status. *)
Theorem suspended_unreachable v me loading error path org :
  parseMe v = Ok me -> shell loading error (Some me) path <> SuspendedScreen org.
Proof.
  intros Hp. unfold shell. destruct loading; [done|]. destruct error; [done|].
  destruct me as [| |u]; [done..|]. apply parseMe_user in Hp as [_ Hs].
  destruct (organizations u) as [|o0 os] eqn:Ho; [done|].
  destruct (active_organization u) as [[i n s st]|] eqn:Ha; [|done].
  assert (org_status {| org_id := i; org_name := n; org_slug := s; org_status := st |} = None)
    as Hst.
  { unfold active_organization in Ha. apply List.find_some in Ha as [Hin _].
    rewrite Ho in Hin. rewrite Forall_forall in Hs. apply Hs. by apply list_elem_of_In. }
  simpl in Hst. by subst st.
Qed.

Lemma suspended_unreachable_witness :
  parseMe (me_json (MeUser sample_user)) = Ok (without_status (MeUser sample_user)) /\
  shell false None (Some (without_status (MeUser sample_user))) "/" <> SuspendedScreen "Acme".
Proof.
  split; [vm_compute; reflexivity|].
  apply (suspended_unreachable (me_json (MeUser sample_user))). vm_compute. reflexivity.
Defined.

(** The navigation offers an area exactly when it needs no capability or the
    session holds the one it needs; no group is shown empty; and the phone's
    tabs and More list share out the same areas. *)
Theorem nav_visible_iff me :
  (forall n, n ∈ flat_map items (visibleGroups me) <->
    n ∈ flat_map items NAV_GROUPS /\
    (capability n = None \/ exists c, capability n = Some c /\ c ∈ capabilities me)) /\
  (forall g, g ∈ visibleGroups me -> items g <> []) /\
  Permutation (tab_items me ++ more_items me) (flat_map items (visibleGroups me)).
Proof.
  split; [|split].
  - intros n. unfold visibleGroups. rewrite !list_elem_of_In, !in_flat_map.
    assert (shows me n = true <->
      (capability n = None \/ exists c, capability n = Some c /\ c ∈ capabilities me)) as <-.
    { unfold shows. destruct (capability n) as [c|]; simpl.
      - rewrite existsb_elem. naive_solver.
      - naive_solver. }
    split.
    + intros (g & Hg & Hn). apply filter_In in Hg as [Hg _].
      apply in_map_iff in Hg as (g0 & <- & Hg0). simpl in Hn.
      apply filter_In in Hn as [Hn Hs]. eauto.
    + intros [(g & Hg & Hn) Hs].
      exists {| group_label := group_label g; items := bfilter (shows me) (items g) |}.
      assert (In n (bfilter (shows me) (items g))) as Hin by (by apply filter_In).
      split; [|done]. apply filter_In. split; [apply in_map_iff; eauto|]. simpl.
      by destruct (bfilter (shows me) (items g)).
  - intros g Hg Hi. apply bfilter_elem in Hg as [_ Hg]. by rewrite Hi in Hg.
  - apply bfilter_partition.
Qed.

(** Each area's own page, and every page beneath it, is titled by that area:
    no earlier entry of the navigation shadows a later one. *)
Lemma page_title_areas n rest :
  n ∈ flat_map items NAV_GROUPS ->
  pageTitle (to n) = label n /\
  (to n <> "/" -> pageTitle (to n +:+ "/" +:+ rest) = label n).
Proof.
  intros Hn. apply list_elem_of_In in Hn. simpl in Hn.
  repeat (destruct Hn as [<-|Hn]; [split; [reflexivity|intros H]; [..|try done]|]); [..|done];
    unfold pageTitle, isActive; cbn -[String.prefix]; simpl; by destruct rest.
Qed.

Example page_title_sites : pageTitle "/sites/42" = "Sites".
Proof.
  apply (page_title_areas (nav_item "/sites" "Sites" (Some "sites:read")) "42").
  - apply list_elem_of_In. simpl. auto.
  - discriminate.
Defined.
End SessionTheorems.
