(* ===== verification/Boundary.v ===== *)
(** * The session boundary ([apps/console/src/app/session-boundary.tsx])

    The component that owns the query client and replaces it, with the whole
    tree beneath it, when the session changes.  Its [transition] is an
    asynchronous function with three awaits; the states between them are the
    [phase], and everything that can happen to the component between two awaits
    is an [event].  [handle] is one event: the new state and what the code does
    to the outside. *)
From S2P Require Import Prelude JsString JsValue ApiClient.

Module Boundary.

(** A mutation of the client's cache. *)
Record Mutation := { m_id : nat; m_pending : bool; m_error : option exn }.

(** The query client: an identity, its mutation cache and its cached queries. *)
Record QueryClient := { c_id : nat; mutations : list Mutation; queries : list string }.
Definition newClient (i : nat) : QueryClient :=
  {| c_id := i; mutations := []; queries := [] |}.

(** [client.isMutating()] *)
Definition pending_writes (c : QueryClient) : list Mutation :=
  bfilter m_pending (mutations c).
Definition isMutating (c : QueryClient) : nat := length (pending_writes c).

(** Where [transition] is: not running, or at one of its awaits.  A running
    transition remembers the ids of [writes] and whether to announce. *)
Inductive phase :=
| Idle
| FirstCancel (writes : list nat) (announce : bool)
| WaitWrites (writes : list nat) (announce : bool)
| SecondCancel (writes : list nat) (announce : bool)
| Changing (writes : list nat) (announce : bool).

Record State := {
  client : QueryClient;
  generation : nat;
  pending : bool;
  error : option string;
  changing : bool;
  observedContext : option string;
  checking : bool;
  at_phase : phase;
}.
Definition init : State :=
  {| client := newClient 0; generation := 0; pending := false; error := None;
     changing := false; observedContext := None; checking := false; at_phase := Idle |}.

Inductive event :=
| Transition (announce : bool)              (* a caller's, or a refresh's, [transition] *)
| CancelDone                                (* [client.cancelQueries()] resolved *)
| ChangeDone (failure : option exn)         (* [change()] settled *)
| Mutate (m : nat)                          (* a form under the boundary writes *)
| MutationSettled (m : nat) (failure : option exn)
| Cached (key : string)                     (* a query lands in the cache *)
| ContextChanged                            (* SESSION_CONTEXT_CHANGED *)
| ContextObserved (detail : val)            (* SESSION_CONTEXT_OBSERVED *)
| Message (data : string)                   (* another tab, on the channel *)
| CheckSession (hidden : bool)              (* focus, visibilitychange *)
| ProbeDone.

Inductive action :=
| CancelQueries
| InvokeChange
| ClearClient (id : nat)
| ClearPrivateCache
| ResetSessionContext
| Post (data : string)
| ProbeMe.

(** [transition(change, announce)] up to its first await. *)
Definition begin_transition (announce : bool) (s : State) : State * list action :=
  if changing s then (s, [])
  else ({| client := client s; generation := generation s; pending := true; error := None;
           changing := true; observedContext := observedContext s; checking := checking s;
           at_phase := FirstCancel (map m_id (pending_writes (client s))) announce |},
        [CancelQueries]).
Definition refresh (s : State) : State * list action := begin_transition false s.

Definition goto (p : phase) (s : State) : State :=
  {| client := client s; generation := generation s; pending := pending s; error := error s;
     changing := changing s; observedContext := observedContext s; checking := checking s;
     at_phase := p |}.
Definition with_client (c : QueryClient) (s : State) : State :=
  {| client := c; generation := generation s; pending := pending s; error := error s;
     changing := changing s; observedContext := observedContext s; checking := checking s;
     at_phase := at_phase s |}.
Definition with_checking (b : bool) (s : State) : State :=
  {| client := client s; generation := generation s; pending := pending s; error := error s;
     changing := changing s; observedContext := observedContext s; checking := b;
     at_phase := at_phase s |}.

(** [finishMutations]: nothing to wait for, or a subscription. *)
Definition finishMutations (writes : list nat) (announce : bool) (s : State)
    : State * list action :=
  if Nat.eqb (isMutating (client s)) 0
  then (goto (SecondCancel writes announce) s, [CancelQueries])
  else (goto (WaitWrites writes announce) s, []).

(** [cause instanceof Error ? cause.message : 'Could not change session']; an
    abort reason that is an error is an object with its message. *)
Definition cause_message (e : exn) : string :=
  match e with
  | EApi a => message a
  | EMsg m => m
  | EAbort reason =>
      match prop reason "message" with VStr m => m | _ => "Could not change session" end
  end.

(** The first of [writes] whose error is an [ApiError] of unknown outcome. *)
Definition uncertain_message (writes : list nat) (c : QueryClient) : option string :=
  m ← js_find (fun m =>
        some (Nat.eqb (m_id m)) writes &&
        match m_error m with Some (EApi e) => outcomeUnknown e | _ => false end)
      (mutations c);
  match m_error m with Some (EApi e) => Some (message e) | _ => None end.

(** [[transitionError, uncertain].filter(Boolean).join(' ') || undefined] *)
Definition join_errors (transitionError uncertain : option string) : option string :=
  match join " " (map (fun e => e ?? "") (bfilter truthy_str [transitionError; uncertain])) with
  | EmptyString => None
  | text => Some text
  end.

(** The [finally] block: the old client and the private caches are emptied, the
    transport forgets its context, and a fresh client and tree take over.  The
    effect that listens re-runs with the new client, so its [checking] flag
    starts again. *)
Definition finish_transition (writes : list nat) (announce : bool) (failure : option exn)
    (s : State) : State * list action :=
  ({| client := newClient (S (c_id (client s)));
      generation := S (generation s);
      pending := false;
      error := join_errors (option_map cause_message failure)
                 (uncertain_message writes (client s));
      changing := false;
      observedContext := observedContext s;
      checking := false;
      at_phase := Idle |},
   [ClearClient (c_id (client s)); ClearPrivateCache; ResetSessionContext] ++
   (if announce then [Post "changed"] else []) ++ [ClearPrivateCache]).

Definition settle_mutation (m : nat) (failure : option exn) (c : QueryClient) : QueryClient :=
  {| c_id := c_id c;
     mutations := map (fun x => if Nat.eqb (m_id x) m && m_pending x
                                then {| m_id := m; m_pending := false; m_error := failure |}
                                else x) (mutations c);
     queries := queries c |}.

(** Forms exist only while the boundary renders its children. *)
Definition add_mutation (m : nat) (s : State) : State :=
  if pending s || some (fun x => Nat.eqb (m_id x) m) (mutations (client s)) then s
  else with_client {| c_id := c_id (client s);
         mutations := mutations (client s) ++
           [{| m_id := m; m_pending := true; m_error := None |}];
         queries := queries (client s) |} s.

Definition handle (s : State) (e : event) : State * list action :=
  match e with
  | Transition announce => begin_transition announce s
  | ContextChanged => refresh s
  | Message data =>
      if bool_decide (Some data = observedContext s) then (s, []) else refresh s
  | ContextObserved detail =>
      match detail with
      | VStr c =>
          ({| client := client s; generation := generation s; pending := pending s;
              error := error s; changing := changing s; observedContext := Some c;
              checking := checking s; at_phase := at_phase s |}, [Post c])
      | _ => (s, [])
      end
  | CheckSession hidden =>
      if checking s || changing s || hidden then (s, [])
      else (with_checking true s, [ProbeMe])
  | ProbeDone => (with_checking false s, [])
  | Mutate m => (add_mutation m s, [])
  | MutationSettled m failure =>
      let s' := with_client (settle_mutation m failure (client s)) s in
      match at_phase s with
      | WaitWrites w a =>
          if Nat.eqb (isMutating (client s')) 0
          then (goto (SecondCancel w a) s', [CancelQueries]) else (s', [])
      | _ => (s', [])
      end
  | Cached key =>
      (with_client {| c_id := c_id (client s); mutations := mutations (client s);
         queries := key :: queries (client s) |} s, [])
  | CancelDone =>
      match at_phase s with
      | FirstCancel w a => finishMutations w a s
      | SecondCancel w a => (goto (Changing w a) s, [InvokeChange])
      | _ => (s, [])
      end
  | ChangeDone failure =>
      match at_phase s with
      | Changing w a => finish_transition w a failure s
      | _ => (s, [])
      end
  end.

Fixpoint play (s : State) (es : list event) : State * list action :=
  match es with
  | [] => (s, [])
  | e :: es' =>
      let '(s1, a1) := handle s e in
      let '(s2, a2) := play s1 es' in (s2, a1 ++ a2)
  end.

(** What the component renders: the waiting page, or its children under the
    client of the current generation, with the last error above them. *)
Inductive rendered :=
| ChangingSession
| Children (key : nat) (client_id : nat) (alert : option string).
Definition render (s : State) : rendered :=
  if pending s then ChangingSession
  else Children (generation s) (c_id (client s)) (error s).

Inductive reachable : State -> Prop :=
| reach_init : reachable init
| reach_step s e : reachable s -> reachable (fst (handle s e)).
End Boundary.

(** ** The invariant of reachable states *)
Module BoundaryFacts.
Import Boundary.

Definition running (p : phase) : bool := match p with Idle => false | _ => true end.
(** The phases at which no write may be outstanding. *)
Definition quiet (p : phase) : bool :=
  match p with SecondCancel _ _ | Changing _ _ => true | _ => false end.

Record inv (s : State) : Prop := {
  inv_changing : changing s = running (at_phase s);
  inv_pending : pending s = running (at_phase s);
  inv_quiet : quiet (at_phase s) = true -> isMutating (client s) = 0;
  inv_waiting : forall w a, at_phase s = WaitWrites w a -> isMutating (client s) <> 0;
  inv_error : running (at_phase s) = true -> error s = None;
}.

Lemma inv_init : inv init.
Proof. by split. Qed.

Lemma settle_mutating m f c : isMutating (settle_mutation m f c) <= isMutating c.
Proof.
  unfold isMutating, pending_writes, settle_mutation. simpl.
  induction (mutations c) as [|x l IH]; simpl; [done|].
  destruct (Nat.eqb (m_id x) m && m_pending x) eqn:E; simpl.
  - apply andb_true_iff in E as [_ ->]. simpl. lia.
  - destruct (m_pending x); simpl; lia.
Qed.

Lemma begin_inv a s : inv s -> inv (fst (begin_transition a s)).
Proof.
  intros Hi. unfold begin_transition. destruct (changing s); [done|].
  split; simpl; try done.
Qed.

Lemma handle_inv s e : inv s -> inv (fst (handle s e)).
Proof.
  intros Hi. pose proof Hi as [Hc Hp Hq Hw He].
  destruct e; simpl; try (by apply begin_inv).
  - (* CancelDone *)
    destruct (at_phase s) as [|w a|w a|w a|w a] eqn:Hph; try done.
    all: unfold finishMutations; try (destruct (Nat.eqb _ 0) eqn:Hm; unbool);
      split; simpl; rewrite ?Hc, ?Hp; try done; naive_solver.
  - (* ChangeDone *)
    by destruct (at_phase s) eqn:Hph.
  - (* Mutate *)
    unfold add_mutation. rewrite Hp. destruct (running (at_phase s)) eqn:Hr; [done|].
    destruct (some _ _); [done|]. destruct (at_phase s) eqn:Hph; try done.
    split; simpl; rewrite ?Hph; done.
  - (* MutationSettled *)
    pose proof (settle_mutating m failure (client s)) as Hle.
    destruct (at_phase s) as [|w a|w a|w a|w a] eqn:Hph; simpl;
      try (destruct (Nat.eqb _ 0) eqn:Hm; unbool);
      split; simpl; rewrite ?Hph; try done; simpl in *; try lia;
      intros; simplify_eq/=; try done; try (specialize (Hq eq_refl); lia); auto.
  - (* Cached *)
    split; simpl; done.
  - (* ContextObserved *)
    destruct detail; try done; split; simpl; done.
  - (* Message *)
    destruct (bool_decide _); [done|]. by apply begin_inv.
  - (* CheckSession *)
    destruct (_ || _); [done|]. by split.
  - (* ProbeDone *)
    by split.
Qed.

Lemma reachable_inv s : reachable s -> inv s.
Proof. induction 1; [apply inv_init|by apply handle_inv]. Qed.
End BoundaryFacts.

(** ** Theorems *)
Section BoundaryTheorems.
Import Boundary BoundaryFacts.

Definition is_invoke (a : action) : bool := match a with InvokeChange => true | _ => false end.
Definition is_reset (a : action) : bool :=
  match a with ResetSessionContext => true | _ => false end.
Definition is_post (a : action) : bool := match a with Post _ => true | _ => false end.
Definition count (p : action -> bool) (l : list action) : nat := length (bfilter p l).

Lemma count_app p a b : count p (a ++ b) = count p a + count p b.
Proof. unfold count. by rewrite List.filter_app, length_app. Qed.

(** Only a transition at its second await sends the change. *)
Lemma handle_invoke s e :
  InvokeChange ∈ snd (handle s e) ->
  e = CancelDone /\ exists w a, at_phase s = SecondCancel w a.
Proof.
  destruct e; simpl; unfold refresh, begin_transition, finishMutations, finish_transition; intros H;
    repeat case_match; simplify_eq/=; try set_solver; eauto.
Qed.

(** C2: a session change is sent only when no write of the old session is
    outstanding, and while the page shows that the session is changing. *)
Theorem change_waits_for_writes s e :
  reachable s -> InvokeChange ∈ snd (handle s e) ->
  isMutating (client s) = 0 /\ render s = ChangingSession.
Proof.
  intros Hr (-> & w & a & Hph)%handle_invoke. apply reachable_inv in Hr as [_ Hp Hq _ _].
  unfold render. rewrite Hp, Hph in *. split; [by apply Hq|done].
Qed.

Definition before_change : State :=
  fst (play init [Mutate 1; Transition true; CancelDone; MutationSettled 1 None]).

Lemma reachable_play s es : reachable s -> reachable (fst (play s es)).
Proof.
  revert s. induction es as [|e es IH]; intros s Hs; [done|]. simpl.
  pose proof (reach_step s e Hs) as H1. destruct (handle s e) as [s1 a1].
  specialize (IH s1 H1). by destruct (play s1 es).
Qed.

Lemma change_waits_for_writes_witness :
  InvokeChange ∈ snd (handle before_change CancelDone) /\
  isMutating (client before_change) = 0.
Proof.
  assert (H : InvokeChange ∈ snd (handle before_change CancelDone))
    by (apply list_elem_of_In; vm_compute; auto).
  split; [exact H|].
  apply (change_waits_for_writes before_change CancelDone); [|exact H].
  apply reachable_play. constructor.
Defined.

(** One event either completes a session change or leaves the client and the
    generation alone.  Completing it forgets the transport's context, empties
    the private caches, and hands the tree a client with no query and no
    mutation of the session before, under a new generation. *)
Theorem session_change_is_fresh s e :
  let s' := fst (handle s e) in
  let acts := snd (handle s e) in
  (ResetSessionContext ∈ acts /\ ClearClient (c_id (client s)) ∈ acts /\
   ClearPrivateCache ∈ acts /\
   client s' = newClient (S (c_id (client s))) /\
   render s' = Children (S (generation s)) (S (c_id (client s))) (error s')) \/
  (ResetSessionContext ∉ acts /\
   c_id (client s') = c_id (client s) /\ generation s' = generation s).
Proof.
  destruct e; simpl; unfold refresh, begin_transition, finishMutations, finish_transition, add_mutation;
    repeat case_match; simplify_eq/=; try (right; split; [set_solver|done]).
  all: left; repeat split; set_solver.
Qed.

Definition in_change (p : phase) : nat := match p with Changing _ _ => 1 | _ => 0 end.

Lemma handle_counts s e :
  inv s ->
  generation (fst (handle s e)) = generation s + count is_reset (snd (handle s e)) /\
  count is_invoke (snd (handle s e)) + in_change (at_phase s) =
  count is_reset (snd (handle s e)) + in_change (at_phase (fst (handle s e))).
Proof.
  intros [Hc _ _ _ _].
  destruct e; simpl; unfold refresh, begin_transition, finishMutations, finish_transition, add_mutation;
    rewrite ?Hc; repeat case_match; simplify_eq/=; unfold count; simpl;
    repeat case_match; simplify_eq/=; split; try lia;
    destruct (at_phase s) eqn:?; simplify_eq/=; lia.
Qed.

(** Over any run of events, every change that was sent is followed by exactly
    one reset: the resets count the generations, and the changes exceed them by
    the one that is still awaited, if any. *)
Theorem changes_reset_once es :
  let '(s, acts) := play init es in
  count is_reset acts = generation s /\
  count is_invoke acts = generation s + in_change (at_phase s).
Proof.
  assert (forall s, inv s ->
    let '(s', acts) := play s es in
    generation s' = generation s + count is_reset acts /\
    count is_invoke acts + in_change (at_phase s) =
    count is_reset acts + in_change (at_phase s')) as H.
  { induction es as [|e es IH]; intros s Hs; [simpl; unfold count; simpl; lia|]. simpl.
    pose proof (handle_counts s e Hs) as Hh. pose proof (handle_inv s e Hs) as Hi.
    destruct (handle s e) as [s1 a1]. simpl in *. specialize (IH s1 Hi).
    destruct (play s1 es) as [s2 a2]. rewrite !count_app. lia. }
  specialize (H init inv_init). destruct (play init es) as [s acts]. simpl in H. lia.
Qed.

(** The events of a tab that only reacts: nothing of its own changes the
    session, and it observes no new context. *)
Definition reaction (e : event) : bool :=
  match e with Transition true | ContextObserved _ => false | _ => true end.
Definition announces (p : phase) : bool :=
  match p with
  | Idle => false
  | FirstCancel _ a | WaitWrites _ a | SecondCancel _ a | Changing _ a => a
  end.

Lemma handle_silent s e :
  announces (at_phase s) = false -> reaction e = true ->
  announces (at_phase (fst (handle s e))) = false /\ count is_post (snd (handle s e)) = 0.
Proof.
  intros Ha Hr.
  destruct e; simpl; unfold refresh, begin_transition, finishMutations, finish_transition,
    add_mutation; destruct (at_phase s) eqn:Hp; simpl in Ha; subst;
    repeat case_match; simplify_eq/=; rewrite ?Hp; try done;
    by destruct announce.
Qed.

(** Tabs do not chase each other: a tab that only reacts to the others, by
    messages, changed contexts and probes, posts nothing on the channel. *)
Theorem reactions_are_silent es :
  every reaction es = true -> count is_post (snd (play init es)) = 0.
Proof.
  assert (forall s, announces (at_phase s) = false -> every reaction es = true ->
    count is_post (snd (play s es)) = 0) as H; [|by apply H].
  induction es as [|e es IH]; intros s Ha Hes; [done|].
  simpl in Hes. apply andb_true_iff in Hes as [He Hes]. simpl.
  destruct (handle_silent s e Ha He) as [Ha' Hp]. destruct (handle s e) as [s1 a1].
  specialize (IH s1 Ha' Hes). destruct (play s1 es) as [s2 a2].
  simpl in *. rewrite count_app. lia.
Qed.

Lemma reactions_are_silent_witness :
  count is_post (snd (play init
    [Message "ctx-2"; CancelDone; CancelDone; ChangeDone None; CheckSession false])) = 0.
Proof. apply reactions_are_silent. reflexivity. Defined.

(** ** Completion *)

Lemma pending_pick c :
  isMutating c <> 0 -> exists m, In m (mutations c) /\ m_pending m = true.
Proof.
  unfold isMutating, pending_writes. destruct (bfilter m_pending (mutations c)) as [|m l] eqn:E;
    [done|]. intros _. exists m. apply filter_In. rewrite E. by left.
Qed.

Definition outstanding (c : QueryClient) (m : nat) : bool :=
  some (fun x => Nat.eqb (m_id x) m && m_pending x) (mutations c).

Lemma settle_decreases m f c :
  outstanding c m = true -> isMutating (settle_mutation m f c) < isMutating c.
Proof.
  unfold outstanding, isMutating, pending_writes, settle_mutation. simpl. intros Hin.
  induction (mutations c) as [|x l IH]; [done|]. simpl in *.
  pose proof (settle_mutating m f {| c_id := 0; mutations := l; queries := [] |}) as Hle.
  unfold isMutating, pending_writes, settle_mutation in Hle. simpl in Hle.
  destruct (Nat.eqb (m_id x) m && m_pending x) eqn:E; simpl in *.
  - apply andb_true_iff in E as [_ ->]. simpl. lia.
  - specialize (IH Hin). destruct (m_pending x); simpl; lia.
Qed.

(** The events a running transition awaits: the cancellation of the queries to
    end, a write still outstanding to settle, the change to settle - each with
    any outcome. *)
Definition awaited (s : State) (e : event) : bool :=
  match at_phase s, e with
  | FirstCancel _ _, CancelDone => true
  | WaitWrites _ _, MutationSettled m _ => outstanding (client s) m
  | SecondCancel _ _, CancelDone => true
  | Changing _ _, ChangeDone _ => true
  | _, _ => false
  end.
(** How many of a run's events were awaited when they came. *)
Fixpoint answered (s : State) (es : list event) : nat :=
  match es with
  | [] => 0
  | e :: es' => (if awaited s e then 1 else 0) + answered (fst (handle s e)) es'
  end.
(** The answers a transition is owed at most. *)
Definition owed (s : State) : nat :=
  match at_phase s with
  | Idle => 0
  | FirstCancel _ _ => isMutating (client s) + 3
  | WaitWrites _ _ => isMutating (client s) + 2
  | SecondCancel _ _ => 2
  | Changing _ _ => 1
  end.
Definition at_rest (s : State) : Prop :=
  at_phase s = Idle /\ changing s = false /\ pending s = false.

Lemma awaited_exists s : inv s -> changing s = true -> exists e, awaited s e = true.
Proof.
  intros [Hc _ _ Hw _] Hch. rewrite Hc in Hch. unfold awaited.
  destruct (at_phase s) as [|w a|w a|w a|w a]; [done|by exists CancelDone| |by exists CancelDone|].
  - destruct (pending_pick _ (Hw w a eq_refl)) as (m & Hin & Hm).
    exists (MutationSettled (m_id m) None). apply existsb_exists. exists m.
    by rewrite Nat.eqb_refl, Hm.
  - by exists (ChangeDone None).
Qed.

(** Each event either completes the transition or leaves it running, no
    further from its end; an awaited one brings it nearer. *)
Lemma step_nearer s e : inv s -> changing s = true ->
  let s' := fst (handle s e) in
  (awaited s e = true /\ at_rest s' /\ generation s' = S (generation s)) \/
  (changing s' = true /\ generation s' = generation s /\
   owed s' + (if awaited s e then 1 else 0) <= owed s).
Proof.
  intros Hi Hch. pose proof Hi as [Hc Hp Hq Hw _].
  destruct e; simpl; unfold refresh, begin_transition, awaited, at_rest, owed; rewrite ?Hch.
  - right. simpl. split_and!; [done|done|]. destruct (at_phase s); lia.
  - destruct (at_phase s) eqn:Hph; try (right; simpl; rewrite ?Hph; split_and!; [done|done|lia]).
    unfold finishMutations. destruct (Nat.eqb_spec (isMutating (client s)) 0);
      right; simpl; split_and!; try done; lia.
  - destruct (at_phase s) eqn:Hph; try (right; simpl; rewrite ?Hph; split_and!; [done|done|lia]).
    left. by split_and!.
  - unfold add_mutation. rewrite Hp, <-Hc, Hch. right. simpl. split_and!; [done|done|].
    destruct (at_phase s); lia.
  - pose proof (settle_mutating m failure (client s)) as Hle.
    destruct (at_phase s) eqn:Hph; simpl; try (right; simpl; rewrite ?Hph; split_and!; [done|done|lia]).
    destruct (outstanding (client s) m) eqn:Ho.
    + pose proof (settle_decreases m failure (client s) Ho) as Hd.
      destruct (Nat.eqb _ 0); right; simpl; rewrite ?Hph; split_and!; try done; lia.
    + destruct (Nat.eqb_spec (isMutating (settle_mutation m failure (client s))) 0) as [Hz|Hz];
        right; simpl; rewrite ?Hph; split_and!; try done; lia.
  - right. simpl. split_and!; [done|done|]. destruct (at_phase s); unfold isMutating, pending_writes; simpl; lia.
  - right. simpl. split_and!; [done|done|]. destruct (at_phase s); lia.
  - right. destruct detail; simpl; split_and!; try done; destruct (at_phase s); lia.
  - right. destruct (bool_decide _); simpl; rewrite ?Hch; split_and!; try done; destruct (at_phase s); lia.
  - right. destruct (_ || _); simpl; split_and!; try done; destruct (at_phase s); lia.
  - right. simpl. split_and!; [done|done|]. destruct (at_phase s); lia.
Qed.

Lemma owed_answers_complete es : forall s, inv s -> changing s = true -> owed s <= answered s es ->
  exists es1 es2, es = es1 ++ es2 /\ answered s es1 <= owed s /\
    at_rest (fst (play s es1)) /\ generation (fst (play s es1)) = S (generation s).
Proof.
  induction es as [|e es IH]; intros s Hi Hch Ho; simpl in Ho.
  { destruct Hi as [Hc _ _ _ _]. rewrite Hc in Hch. unfold owed in Ho.
    destruct (at_phase s); simpl in *; [done|lia..]. }
  pose proof (step_nearer s e Hi Hch) as Hs. pose proof (handle_inv s e Hi) as Hi'.
  cbv zeta in Hs. destruct Hs as [(Ha & Hr & Hg)|(Hch' & Hg & Hle)].
  - exists [e], es. simpl. rewrite Ha. destruct (handle s e) as [s1 a1]. simpl in *.
    split_and!; [done| |done|done]. destruct Hi as [Hc _ _ _ _]. rewrite Hc in Hch. unfold owed.
    destruct (at_phase s); simpl in *; [done|lia..].
  - destruct (IH _ Hi' Hch' ltac:(lia)) as (es1 & es2 & -> & Hn & Hr & Hg').
    exists (e :: es1), es2. simpl. destruct (handle s e) as [s1 a1]. simpl in *.
    destruct (play s1 es1) as [s2 a2]. simpl in *. split_and!; [done|lia|done|congruence].
Qed.

(** C17: A session change always completes, however the calls it waits for
    come out.  In the middle of one there is always an event it awaits: the
    queries cancelled, an outstanding write settled, the change settled, each
    well or badly.  And whatever else happens in between - other writes and
    requests for a change, messages of other tabs, focus, probes - once as many
    awaited events have come as there were writes outstanding, and three more,
    the boundary has been brought to rest, with its page shown again, one
    generation later: no event sets it back, and no outcome, a failure of the
    change included, leaves it waiting. *)
Theorem transition_completes s :
  reachable s -> changing s = true ->
  (exists e, awaited s e = true) /\
  forall es, isMutating (client s) + 3 <= answered s es ->
    exists es1 es2, es = es1 ++ es2 /\ answered s es1 <= isMutating (client s) + 3 /\
      at_rest (fst (play s es1)) /\ generation (fst (play s es1)) = S (generation s).
Proof.
  intros Hi%reachable_inv Hch. split; [by apply awaited_exists|]. intros es Hes.
  assert (Hle : owed s <= isMutating (client s) + 3) by (unfold owed; destruct (at_phase s); lia).
  destruct (owed_answers_complete es s Hi Hch ltac:(lia)) as (es1 & es2 & ? & ? & ? & ?).
  exists es1, es2. split_and!; [done|lia|done|done].
Qed.

(** A change that fails, with a write under way and another asked for. *)
Definition mid_change : State := fst (play init [Mutate 1; Transition true]).
Definition failing_run : list event :=
  [Mutate 2; CancelDone; Transition false; MutationSettled 7 None;
   MutationSettled 1 (Some (EMsg "offline")); CancelDone; CheckSession false;
   ChangeDone (Some (EMsg "refused")); Cached "sites"].

Lemma transition_completes_witness :
  changing mid_change = true /\ isMutating (client mid_change) + 3 = answered mid_change failing_run /\
  exists es1 es2, failing_run = es1 ++ es2 /\ answered mid_change es1 <= 4 /\
    at_rest (fst (play mid_change es1)) /\ generation (fst (play mid_change es1)) = 1.
Proof.
  split; [reflexivity|]. split; [reflexivity|].
  refine (proj2 (transition_completes mid_change _ _) failing_run _).
  - apply reachable_play. constructor.
  - reflexivity.
  - apply Nat.leb_le. reflexivity.
Defined.
End BoundaryTheorems.
