(* ===== verification/FilterQuery.v ===== *)
(** * The filter query tree

    [packages/ui/src/components/reui/filters/filters-query.tsx] and the data
    types of [filters-types.tsx] it works on.  A query is a group of rules and
    groups.  The code promises to return an unchanged tree BY IDENTITY, so an
    edit here returns an [option]: [None] is the very object it was given,
    [Some q] a new one ([settle] reads the value of either). *)
From S2P Require Import Prelude JsString JsValue.

(** ** Data *)
Inductive FilterCombinator := CAnd | COr.

Record FilterRule := mkRule {
  r_id : string;
  r_path : list string;
  r_operator : string;
  r_value : val;
  r_negated : option bool
}.

Record FilterGroupOf (N : Type) := mkGroup {
  g_id : string;
  g_combinator : FilterCombinator;
  g_rules : list N
}.
Arguments mkGroup {N} _ _ _.
Arguments g_id {N} _.
Arguments g_combinator {N} _.
Arguments g_rules {N} _.

Inductive FilterNode :=
| NRule (r : FilterRule)
| NGroup (g : FilterGroupOf FilterNode).

Notation FilterGroupNode := (FilterGroupOf FilterNode).
Notation FilterQuery := (FilterGroupOf FilterNode).

Inductive FilterOperatorArity := ANone | AOne | AMany | ARange.

#[export] Instance FilterCombinator_eq_dec : EqDecision FilterCombinator.
Proof. solve_decision. Defined.
#[export] Instance FilterOperatorArity_eq_dec : EqDecision FilterOperatorArity.
Proof. solve_decision. Defined.

Definition node_id (n : FilterNode) : string :=
  match n with NRule r => r_id r | NGroup g => g_id g end.

Definition isFilterRule (n : FilterNode) : bool :=
  match n with NRule _ => true | NGroup _ => false end.
Definition isFilterGroup (n : FilterNode) : bool :=
  match n with NRule _ => false | NGroup _ => true end.

(** [{ ...group, rules }] *)
Definition with_rules (g : FilterGroupNode) (rules : list FilterNode) : FilterGroupNode :=
  mkGroup (g_id g) (g_combinator g) rules.

(** The value of an edit that may have returned its argument. *)
Definition settle {A} (q : A) (r : option A) : A := r ?? q.

(** ** Construction *)
Definition createFilterRule (id : string) (path : list string) (operator : string)
    (value : val) (negated : option bool) : FilterRule :=
  mkRule id path operator value
    (if negated ?? false then Some true else None).

Definition createFilterGroup (id : string) (combinator : option FilterCombinator)
    (rules : option (list FilterNode)) : FilterGroupNode :=
  mkGroup id (combinator ?? CAnd) (rules ?? []).

Definition createFilterQuery (rules : list FilterNode) (combinator : FilterCombinator)
    (id : string) : FilterQuery :=
  mkGroup id combinator rules.

(** ** Reading *)
Fixpoint flatten_node (n : FilterNode) : list FilterRule :=
  match n with
  | NRule r => [r]
  | NGroup g => flat_map flatten_node (g_rules g)
  end.
Definition flattenFilterRules (query : FilterQuery) : list FilterRule :=
  flatten_node (NGroup query).

Record FilterCondition := mkCondition {
  c_path : list string;
  c_field : option string;
  c_operator : string;
  c_values : list val;
  c_negated : bool
}.

Definition isFilterRuleComplete (r : FilterRule) : bool :=
  negb (String.eqb (r_operator r) "").

(** [value === undefined || value === null ? [] : Array.isArray(value) ? value : [value]] *)
Definition value_list (v : val) : list val :=
  match v with VUndef | VNull => [] | VArr l => l | v => [v] end.

Definition flattenFilterConditions (query : FilterQuery) : list FilterCondition :=
  map (fun r => mkCondition (r_path r) (head (r_path r)) (r_operator r)
                  (value_list (r_value r)) (r_negated r ?? false))
    (bfilter isFilterRuleComplete (flattenFilterRules query)).

Fixpoint count_walk (n : FilterNode) (count : nat) : nat :=
  match n with
  | NRule _ => count + 1
  | NGroup g => fold_left (fun c child => count_walk child c) (g_rules g) count
  end.
Definition countFilterRules (query : FilterQuery) : nat := count_walk (NGroup query) 0.
Definition isFilterQueryEmpty (query : FilterQuery) : bool :=
  Nat.eqb (countFilterRules query) 0.

(** ** Issues *)
Definition isBlankFilterValue (v : val) : bool :=
  match v with
  | VUndef | VNull => true
  | VStr s => String.eqb s ""
  | _ => false
  end.

Inductive FilterIssueColumn := ColOperator | ColValue | ColGroup.
Inductive FilterIssueReason :=
| EmptyGroup | MissingOperator | IncompleteRange | ReversedRange | MissingValue | Custom.
Record FilterIssue := mkIssue {
  i_node : string;
  i_column : FilterIssueColumn;
  i_reason : FilterIssueReason;
  i_message : option string
}.

Section Issues.
(** [Date.parse], and the two resolvers the caller supplies: [None] from
    [arityOf] is [null], a rule it cannot judge; [Some None] an operator that
    states no arity. *)
Context (date_parse : string -> num).
Context (arityOf : FilterRule -> option (option FilterOperatorArity)).
Context (validateOf : option (FilterRule -> option string)).

Definition compareFilterBounds (from to : val) : option num :=
  let diff a b := if is_nan a || is_nan b then None else Some (num_sub a b) in
  match from, to with
  | VNum a, VNum b => diff a b
  | VDate a, VDate b => diff a b
  | VStr a, VStr b => diff (date_parse a) (date_parse b)
  | _, _ => None
  end.

Definition reversed (order : option num) : bool :=
  match order with Some d => num_lt (num_Z 0) d | None => false end.

(** The body of the loop over a group's children, for a rule. *)
Definition rule_issues (child : FilterRule) : list FilterIssue :=
  match arityOf child with
  | None => []
  | Some arity =>
      if negb (isFilterRuleComplete child)
      then [mkIssue (r_id child) ColOperator MissingOperator None]
      else if decide (arity = Some ANone) then []
      else
        let values := value_list (r_value child) in
        if decide (arity = Some ARange) then
          match values with
          | a :: b :: _ =>
              if isBlankFilterValue a || isBlankFilterValue b
              then [mkIssue (r_id child) ColValue IncompleteRange None]
              else if reversed (compareFilterBounds a b)
              then [mkIssue (r_id child) ColValue ReversedRange None]
              else []
          | _ => [mkIssue (r_id child) ColValue IncompleteRange None]
          end
        else if every isBlankFilterValue values
        then [mkIssue (r_id child) ColValue MissingValue None]
        else
          let message :=
            match validateOf with Some f => f child | None => None end in
          if truthy_str message
          then [mkIssue (r_id child) ColValue Custom message]
          else []
  end.

Fixpoint visit_issues (isRoot : bool) (n : FilterNode) : list FilterIssue :=
  match n with
  | NRule r => rule_issues r
  | NGroup g =>
      (if negb isRoot && Nat.eqb (length (g_rules g)) 0
       then [mkIssue (g_id g) ColGroup EmptyGroup None] else []) ++
      flat_map (visit_issues false) (g_rules g)
  end.

Definition collectFilterIssues (query : FilterQuery) : list FilterIssue :=
  visit_issues true (NGroup query).
End Issues.

(** ** Lookup *)
Record Found := mkFound {
  f_node : FilterNode;
  f_parent : option FilterGroupNode;
  f_index : Z
}.

(** The loop over one group's children, the walk of a subgroup passed in. *)
Fixpoint find_in (walk : FilterNode -> option Found) (id : string)
    (g : FilterGroupNode) (i : Z) (l : list FilterNode) : option Found :=
  match l with
  | [] => None
  | child :: l' =>
      if String.eqb (node_id child) id then Some (mkFound child (Some g) i)
      else match walk child with
           | Some f => Some f
           | None => find_in walk id g (i + 1) l'
           end
  end.
Fixpoint find_walk (id : string) (n : FilterNode) : option Found :=
  match n with
  | NRule _ => None
  | NGroup g => find_in (find_walk id) id g 0 (g_rules g)
  end.

Definition findFilterNode (query : FilterQuery) (id : string) : option Found :=
  if String.eqb (g_id query) id then Some (mkFound (NGroup query) None (-1))
  else find_walk id (NGroup query).

Definition findFilterRule (query : FilterQuery) (id : string) : option FilterRule :=
  match findFilterNode query id with
  | Some (mkFound (NRule r) _ _) => Some r
  | _ => None
  end.

(** ** Editing *)

(** The children of [group] after [rec], by identity when none changed. *)
Definition each_child (rec : FilterNode -> option FilterNode) (g : FilterGroupNode)
    : option FilterGroupNode :=
  if some (fun child => bool_decide (is_Some (rec child))) (g_rules g)
  then Some (with_rules g (map (fun child => rec child ?? child) (g_rules g)))
  else None.

Section Rewrite.
Context (shouldRewrite : FilterGroupNode -> bool).
Context (transform : FilterGroupNode -> option FilterGroupNode).

Fixpoint rewrite_node (n : FilterNode) : option FilterNode :=
  match n with
  | NRule _ => None
  | NGroup g =>
      NGroup <$>
        (if shouldRewrite g then transform g else each_child rewrite_node g)
  end.
Definition rewriteGroup (g : FilterGroupNode) : option FilterGroupNode :=
  if shouldRewrite g then transform g else each_child rewrite_node g.
End Rewrite.

(** [Partial<Omit<FilterRule, "id" | "type">>]: a key that is present wins. *)
Record RuleUpdates := mkUpdates {
  u_path : option (list string);
  u_operator : option string;
  u_value : option val;
  u_negated : option (option bool)
}.
Definition apply_updates (u : RuleUpdates) (r : FilterRule) : FilterRule :=
  mkRule (r_id r) (u_path u ?? r_path r) (u_operator u ?? r_operator r)
    (u_value u ?? r_value r) (u_negated u ?? r_negated r).

Definition is_rule_with (id : string) (child : FilterNode) : bool :=
  String.eqb (node_id child) id && isFilterRule child.

Definition updateFilterRule (query : FilterQuery) (id : string) (updates : RuleUpdates)
    : option FilterQuery :=
  rewriteGroup
    (fun g => some (is_rule_with id) (g_rules g))
    (fun g => Some (with_rules g (map (fun child =>
       match child with
       | NRule r => if String.eqb (r_id r) id then NRule (apply_updates updates r) else child
       | NGroup _ => child
       end) (g_rules g))))
    query.

(** The loop of [prune]/[detach]: [Some keep] replaces or keeps the child,
    [None] drops it; the flag says that the group changed. *)
Definition kept_children (rec : FilterNode -> option FilterNode) (id : string)
    (drop_empty : bool) (l : list FilterNode) : list FilterNode :=
  flat_map (fun child =>
    if String.eqb (node_id child) id then []
    else
      let next := rec child ?? child in
      match next with
      | NRule _ => [next]
      | NGroup g => if drop_empty && Nat.eqb (length (g_rules g)) 0 then [] else [next]
      end) l.
Definition child_changed (rec : FilterNode -> option FilterNode) (id : string)
    (child : FilterNode) : bool :=
  String.eqb (node_id child) id || bool_decide (is_Some (rec child)).
Definition drop_child (rec : FilterNode -> option FilterNode) (id : string)
    (drop_empty : bool) (g : FilterGroupNode) : option FilterGroupNode :=
  if some (child_changed rec id) (g_rules g)
  then Some (with_rules g (kept_children rec id drop_empty (g_rules g)))
  else None.

Fixpoint prune_node (id : string) (n : FilterNode) : option FilterNode :=
  match n with
  | NRule _ => None
  | NGroup g => NGroup <$> drop_child (prune_node id) id true g
  end.
Definition removeFilterNode (query : FilterQuery) (id : string) : option FilterQuery :=
  drop_child (prune_node id) id true query.

(** [Math.max(0, Math.min(index, rules.length))] *)
Definition clamp_index (index : Z) (len : nat) : nat :=
  Z.to_nat (Z.max 0 (Z.min index (Z.of_nat len))).

Definition insert_rules (node : FilterNode) (index : option Z) (g : FilterGroupNode)
    : FilterGroupNode :=
  let rules := g_rules g in
  let at_ := match index with
             | None => length rules
             | Some i => clamp_index i (length rules)
             end in
  with_rules g (splice at_ 0 [node] rules).
Definition insertFilterNode (query : FilterQuery) (node : FilterNode)
    (parentId : option string) (index : option Z) : option FilterQuery :=
  let targetId := parentId ?? g_id query in
  rewriteGroup (fun g => String.eqb (g_id g) targetId)
    (fun g => Some (insert_rules node index g)) query.

(** [nextId], a source of ids with its state: what a call returns and leaves. *)
Class IdSource (St : Type) := nextId : St -> string * St.

(** [list.map] with the id source threaded from left to right. *)
Fixpoint map_ids {St} (f : FilterNode -> St -> FilterNode * St) (l : list FilterNode)
    (s : St) : list FilterNode * St :=
  match l with
  | [] => ([], s)
  | n :: l' =>
      let '(n', s1) := f n s in
      let '(l'', s2) := map_ids f l' s1 in (n' :: l'', s2)
  end.
Fixpoint cloneFilterNode {St : Type} `{!IdSource St} (n : FilterNode) (s : St) : FilterNode * St :=
  match n with
  | NRule r =>
      let '(id, s1) := nextId s in
      (NRule (mkRule id (r_path r) (r_operator r) (r_value r) (r_negated r)), s1)
  | NGroup g =>
      let '(id, s1) := nextId s in
      let '(rules, s2) := map_ids cloneFilterNode (g_rules g) s1 in
      (NGroup (mkGroup id (g_combinator g) rules), s2)
  end.

Definition duplicateFilterNode {St : Type} `{!IdSource St} (query : FilterQuery) (id : string) (s : St)
    : option FilterQuery * St :=
  match findFilterNode query id with
  | Some (mkFound node (Some parent) index) =>
      let '(copy, s') := cloneFilterNode node s in
      (insertFilterNode query copy (Some (g_id parent)) (Some (index + 1)%Z), s')
  | _ => (None, s)
  end.

Definition setFilterCombinator (query : FilterQuery) (groupId : string)
    (combinator : FilterCombinator) : option FilterQuery :=
  rewriteGroup (fun g => String.eqb (g_id g) groupId)
    (fun g => if decide (g_combinator g = combinator) then None
              else Some (mkGroup (g_id g) combinator (g_rules g)))
    query.

Definition toggleFilterCombinator (query : FilterQuery) (groupId : string)
    : option FilterQuery :=
  match findFilterNode query groupId with
  | Some (mkFound (NGroup g) _ _) =>
      setFilterCombinator query groupId
        (match g_combinator g with CAnd => COr | COr => CAnd end)
  | _ => None
  end.

Definition move_rules (from to : nat) (g : FilterGroupNode) : FilterGroupNode :=
  let moved := take 1 (drop from (g_rules g)) in
  with_rules g (splice to 0 moved (splice from 1 [] (g_rules g))).
Definition moveFilterNode (query : FilterQuery) (id : string) (delta : Z)
    : option FilterQuery :=
  match findFilterNode query id with
  | Some (mkFound _ (Some parent) from) =>
      let to := (from + delta)%Z in
      if (to <? 0)%Z || (Z.of_nat (length (g_rules parent)) <=? to)%Z || (delta =? 0)%Z
      then None
      else rewriteGroup (fun g => String.eqb (g_id g) (g_id parent))
             (fun g => Some (move_rules (Z.to_nat from) (Z.to_nat to) g)) query
  | _ => None
  end.

Fixpoint containsFilterNode (n : FilterNode) (id : string) : bool :=
  if String.eqb (node_id n) id then true
  else match n with
       | NRule _ => false
       | NGroup g => some (fun child => containsFilterNode child id) (g_rules g)
       end.

Fixpoint detach_node (id : string) (n : FilterNode) : option FilterNode :=
  match n with
  | NRule _ => None
  | NGroup g => NGroup <$> drop_child (detach_node id) id false g
  end.
Definition detachFilterNode (g : FilterGroupNode) (id : string) : option FilterGroupNode :=
  drop_child (detach_node id) id false g.

(** An edit applied to the outcome of another one. *)
Definition then_edit {A} (q : A) (r : option A) (f : A -> option A) : option A :=
  match f (settle q r) with Some q' => Some q' | None => r end.

Definition moveFilterNodeTo (query : FilterQuery) (id parentId : string) (index : Z)
    : option FilterQuery :=
  match findFilterNode query id with
  | Some (mkFound node (Some parent) at_) =>
      if containsFilterNode node parentId then None
      else match findFilterNode query parentId with
           | Some (mkFound (NGroup _) _ _) =>
               let sameParent := String.eqb (g_id parent) parentId in
               let target := if sameParent && (at_ <? index)%Z then (index - 1)%Z else index in
               if sameParent && (target =? at_)%Z then None
               else then_edit query (detachFilterNode query id)
                      (fun q => insertFilterNode q node (Some parentId) (Some target))
           | _ => None
           end
  | _ => None
  end.

Definition copyFilterNodeTo {St : Type} `{!IdSource St} (query : FilterQuery) (id parentId : string)
    (index : Z) (s : St) : option FilterQuery * St :=
  match findFilterNode query id with
  | Some (mkFound node (Some _) _) =>
      match findFilterNode query parentId with
      | Some (mkFound (NGroup _) _ _) =>
          let '(copy, s') := cloneFilterNode node s in
          (insertFilterNode query copy (Some parentId) (Some index), s')
      | _ => (None, s)
      end
  | _ => (None, s)
  end.

Definition wrap_child (id groupId : string) (combinator : FilterCombinator)
    (child : FilterNode) : FilterNode :=
  if String.eqb (node_id child) id
  then NGroup (createFilterGroup groupId (Some combinator) (Some [child]))
  else child.
Definition wrapFilterNodeInGroup (query : FilterQuery) (id groupId : string)
    (combinator : FilterCombinator) : option FilterQuery :=
  match findFilterNode query id with
  | Some (mkFound _ (Some parent) _) =>
      rewriteGroup (fun g => String.eqb (g_id g) (g_id parent))
        (fun g => Some (with_rules g (map (wrap_child id groupId combinator) (g_rules g))))
        query
  | _ => None
  end.

Definition unwrapFilterGroup (query : FilterQuery) (groupId : string) : option FilterQuery :=
  if String.eqb (g_id query) groupId then None
  else match findFilterNode query groupId with
       | Some (mkFound (NGroup dissolved) (Some parent) index) =>
           rewriteGroup (fun g => String.eqb (g_id g) (g_id parent))
             (fun g => Some (with_rules g
                (splice (Z.to_nat index) 1 (g_rules dissolved) (g_rules g))))
             query
       | _ => None
       end.

Definition clearFilterQuery (query : FilterQuery) : option FilterQuery :=
  if Nat.eqb (length (g_rules query)) 0 then None else Some (with_rules query []).

(** [prune] of a list of children, the empty ones left out. *)
Definition prune_children (prune : FilterNode -> option FilterNode) (l : list FilterNode)
    : list FilterNode :=
  flat_map (fun child => match prune child with Some next => [next] | None => [] end) l.
Fixpoint prune_query_node (n : FilterNode) : option FilterNode :=
  match n with
  | NRule _ => Some n
  | NGroup g =>
      match prune_children prune_query_node (g_rules g) with
      | [] => None
      | [NGroup only] => Some (NGroup only)
      | rules => Some (NGroup (with_rules g rules))
      end
  end.
Definition pruneFilterQuery (query : FilterQuery) : FilterQuery :=
  with_rules query (prune_children prune_query_node (g_rules query)).
