(* ===== verification/FilterTree.v ===== *)
(** * The shape of a query: identifiers, contexts, lookups and edits in place

    Every lookup of the query code is by id and every edit rewrites one group.
    With distinct ids a query splits uniquely into a one-hole context and the
    group that holds a node; the lemmas here state each operation on that
    decomposition, and the properties of FilterEdits follow from them. *)
From S2P Require Import Prelude JsString JsValue FilterQuery.

(** ** Induction *)
Lemma FilterNode_ind' (P : FilterNode -> Prop) :
  (forall r, P (NRule r)) ->
  (forall g, Forall P (g_rules g) -> P (NGroup g)) ->
  forall n, P n.
Proof.
  intros Hr Hg. fix IH 1. intros [r|[i k rules]]; [apply Hr|].
  apply Hg. simpl. induction rules as [|n rules IHl]; constructor; [apply IH|apply IHl].
Qed.

Lemma with_rules_id (g : FilterGroupNode) : with_rules g (g_rules g) = g.
Proof. by destruct g. Qed.

(** ** Identifiers *)
Fixpoint ids (n : FilterNode) : list string :=
  node_id n :: match n with
               | NRule _ => []
               | NGroup g => flat_map ids (g_rules g)
               end.
Fixpoint gids (n : FilterNode) : list string :=
  match n with
  | NRule _ => []
  | NGroup g => g_id g :: flat_map gids (g_rules g)
  end.
Notation ids_of g := (ids (NGroup g)).
Notation gids_of g := (gids (NGroup g)).

(** Every id names one node. *)
Definition distinct_ids (q : FilterQuery) : Prop := NoDup (ids_of q).

Lemma ids_group (g : FilterGroupNode) : ids_of g = g_id g :: flat_map ids (g_rules g).
Proof. done. Qed.

Lemma node_id_in_ids (n : FilterNode) : node_id n ∈ ids n.
Proof. destruct n; left. Qed.

Lemma gids_sub_ids (n : FilterNode) x : x ∈ gids n -> x ∈ ids n.
Proof.
  induction n as [r|g IH] using FilterNode_ind'; [by intros ?%elem_of_nil|].
  simpl. rewrite !elem_of_cons. intros [->|Hx]; [by left|right].
  apply elem_of_flat_map in Hx as (c & Hc & Hx). apply elem_of_flat_map.
  exists c. split; [done|]. rewrite Forall_forall in IH. by apply IH.
Qed.

Lemma contains_ids (n : FilterNode) id : containsFilterNode n id = true <-> id ∈ ids n.
Proof.
  induction n as [r|g IH] using FilterNode_ind'; simpl; rewrite elem_of_cons.
  - destruct (String.eqb_spec (r_id r) id) as [->|Hn]; [naive_solver|].
    split; [done|]. intros [->|?%elem_of_nil]; done.
  - destruct (String.eqb_spec (g_id g) id) as [->|Hn]; [naive_solver|].
    rewrite existsb_exists, elem_of_flat_map. rewrite Forall_forall in IH. split.
    + intros (c & Hc%list_elem_of_In & Hx). right. exists c. split; [done|]. by apply IH.
    + intros [->|(c & Hc & Hx)]; [done|]. exists c.
      split; [by apply list_elem_of_In|]. by apply IH.
Qed.

(** ** Contexts *)
Inductive ctx :=
| Hole
| Inside (id : string) (k : FilterCombinator) (before : list FilterNode) (c : ctx)
         (after : list FilterNode).
Fixpoint plug (c : ctx) (g : FilterGroupNode) : FilterGroupNode :=
  match c with
  | Hole => g
  | Inside i k b c a => mkGroup i k (b ++ NGroup (plug c g) :: a)
  end.

(** What a list-valued attribute of the tree sees before and after the hole. *)
Section Around.
Context {A} (own : string -> list A) (f : FilterNode -> list A).
Fixpoint around_before (c : ctx) : list A :=
  match c with
  | Hole => []
  | Inside i _ b c _ => own i ++ flat_map f b ++ around_before c
  end.
Fixpoint around_after (c : ctx) : list A :=
  match c with
  | Hole => []
  | Inside _ _ _ c a => around_after c ++ flat_map f a
  end.
Lemma around_plug (Hf : forall g, f (NGroup g) = own (g_id g) ++ flat_map f (g_rules g)) c g :
  f (NGroup (plug c g)) = around_before c ++ f (NGroup g) ++ around_after c.
Proof.
  induction c as [|i k b c IH a]; simpl; [by rewrite app_nil_r|].
  rewrite Hf. simpl. rewrite List.flat_map_app. simpl. rewrite IH.
  by rewrite <- !app_assoc.
Qed.
End Around.

Lemma ids_plug c g :
  ids_of (plug c g)
  = around_before (fun i => [i]) ids c ++ ids_of g ++ around_after ids c.
Proof. by apply around_plug. Qed.
Lemma gids_plug c g :
  gids_of (plug c g)
  = around_before (fun i => [i]) gids c ++ gids_of g ++ around_after gids c.
Proof. by apply around_plug. Qed.
Lemma flatten_plug c g :
  flattenFilterRules (plug c g)
  = around_before (fun _ => []) flatten_node c ++ flattenFilterRules g
      ++ around_after flatten_node c.
Proof. by apply (around_plug (fun _ => [])). Qed.

(** A change at the hole that keeps a multiset of ids keeps the whole query's. *)
Lemma ids_plug_sub c g g' (extra : list string) :
  ids_of g' ⊆+ ids_of g ++ extra -> ids_of (plug c g') ⊆+ ids_of (plug c g) ++ extra.
Proof.
  intros H. rewrite !ids_plug, <- !app_assoc.
  apply submseteq_app; [done|].
  rewrite (Permutation_app_comm (around_after _ _) extra), app_assoc.
  by apply submseteq_app.
Qed.

(** [group] occurs in the query: somewhere its id is that of a group. *)
Lemma gids_ctx (q : FilterQuery) tid :
  tid ∈ gids_of q -> exists c g, q = plug c g /\ g_id g = tid.
Proof.
  enough (H : forall n, tid ∈ gids n ->
    exists c g, n = NGroup (plug c g) /\ g_id g = tid).
  { intros Hq. destruct (H _ Hq) as (c & g & [= ->] & Hg). eauto. }
  intros n. induction n as [r|g IH] using FilterNode_ind'.
  - by intros ?%elem_of_nil.
  - simpl. rewrite elem_of_cons. intros [->|Hx]; [by exists Hole, g|].
    apply elem_of_flat_map in Hx as (ch & Hc & Hx).
    rewrite Forall_forall in IH.
    destruct (IH _ Hc Hx) as (c & g' & -> & Hg').
    apply list_elem_of_split in Hc as (b & a & Heq).
    exists (Inside (g_id g) (g_combinator g) b c a), g'. split; [|done].
    destruct g; simpl in *. by subst.
Qed.

(** ** Rewriting one group *)
Lemma each_child_none rec (g : FilterGroupNode) :
  Forall (fun ch => rec ch = None) (g_rules g) -> each_child rec g = None.
Proof.
  intros H. unfold each_child.
  destruct (some _ _) eqn:E; [|done].
  apply existsb_exists in E as (x & Hx%list_elem_of_In & Hs%bool_decide_eq_true_1).
  rewrite Forall_forall in H. rewrite (H x Hx) in Hs. by destruct Hs.
Qed.

Lemma map_none_id (rec : FilterNode -> option FilterNode) (l : list FilterNode) :
  Forall (fun ch => rec ch = None) l -> map (fun ch => rec ch ?? ch) l = l.
Proof. induction 1 as [|x l Hx Hl IH]; simpl; [done|]. by rewrite Hx, IH. Qed.

Lemma each_child_at rec i k b n a :
  Forall (fun ch => rec ch = None) b -> Forall (fun ch => rec ch = None) a ->
  each_child rec (mkGroup i k (b ++ n :: a))
  = (fun n' => mkGroup i k (b ++ n' :: a)) <$> rec n.
Proof.
  intros Hb Ha. destruct (rec n) as [n'|] eqn:En.
  - unfold each_child. simpl.
    assert (some (fun ch => bool_decide (is_Some (rec ch))) (b ++ n :: a) = true) as ->.
    { apply existsb_exists. exists n. split.
      - apply list_elem_of_In. apply elem_of_app. right. left.
      - apply bool_decide_eq_true_2. by rewrite En. }
    unfold with_rules. simpl. rewrite map_app. simpl.
    by rewrite !map_none_id, En by done.
  - simpl. apply each_child_none. simpl. apply Forall_app; by repeat constructor.
Qed.

Lemma rewrite_quiet should t n :
  (forall g, should g = true -> g_id g ∉ gids n) -> rewrite_node should t n = None.
Proof.
  induction n as [r|g IH] using FilterNode_ind'; [done|]. simpl. intros H.
  destruct (should g) eqn:E.
  { exfalso. apply (H g E). left. }
  rewrite each_child_none; [done|].
  rewrite Forall_forall in *. intros ch Hc. apply IH; [done|].
  intros g' Hg' Hin. apply (H g' Hg'). right. apply elem_of_flat_map. eauto.
Qed.

Notation by_id tid := (fun g : FilterGroupNode => String.eqb (g_id g) tid).

Lemma rewrite_absent tid t (q : FilterQuery) :
  tid ∉ gids_of q -> rewriteGroup (by_id tid) t q = None.
Proof.
  intros H. enough (rewrite_node (by_id tid) t (NGroup q) = None) as E.
  { change (NGroup <$> rewriteGroup (by_id tid) t q = None) in E.
    by destruct (rewriteGroup _ t q). }
  apply rewrite_quiet. by intros g ->%String.eqb_eq.
Qed.

Lemma rewrite_node_group should t (g : FilterGroupNode) :
  rewrite_node should t (NGroup g) = NGroup <$> rewriteGroup should t g.
Proof. done. Qed.

Lemma rewrite_plug tid t c g :
  g_id g = tid -> NoDup (gids_of (plug c g)) ->
  rewriteGroup (by_id tid) t (plug c g) = plug c <$> t g.
Proof.
  intros Hg. induction c as [|i k b c IH a]; simpl.
  - intros _. unfold rewriteGroup. rewrite Hg, String.eqb_refl. by destruct (t g).
  - rewrite NoDup_cons, List.flat_map_app. simpl. intros [Hi Hnd].
    assert (Htid : tid ∈ gids_of (plug c g)).
    { rewrite gids_plug, !elem_of_app. right; left. subst. left. }
    unfold rewriteGroup at 1. simpl.
    destruct (String.eqb_spec i tid) as [->|Hne].
    { exfalso. apply Hi. rewrite elem_of_app. right.
      change (tid ∈ gids_of (plug c g) ++ flat_map gids a).
      apply elem_of_app. by left. }
    change (g_id (plug c g) :: flat_map gids (g_rules (plug c g)) ++ flat_map gids a)
      with (gids_of (plug c g) ++ flat_map gids a) in Hnd.
    rewrite each_child_at.
    + rewrite rewrite_node_group, IH by (by apply NoDup_app in Hnd as (_ & _ & (?&_&_)%NoDup_app)).
      by destruct (t g).
    + apply Forall_forall. intros ch Hc. apply rewrite_quiet.
      intros g' ->%String.eqb_eq Hin. apply NoDup_app in Hnd as (_ & Hdis & _).
      apply (Hdis tid); [apply elem_of_flat_map; eauto|]. apply elem_of_app. by left.
    + apply Forall_forall. intros ch Hc. apply rewrite_quiet.
      intros g' ->%String.eqb_eq Hin. apply NoDup_app in Hnd as (_ & _ & Hnd).
      apply NoDup_app in Hnd as (_ & Hdis & _).
      apply (Hdis tid); [done|]. apply elem_of_flat_map; eauto.
Qed.

Lemma gids_submset_ids n : gids n ⊆+ ids n.
Proof.
  induction n as [r|g IH] using FilterNode_ind'; simpl; [apply submseteq_nil_l|].
  apply submseteq_skip. induction IH as [|ch l H Hl IHl]; simpl; [done|].
  by apply submseteq_app.
Qed.

Lemma distinct_gids q : distinct_ids q -> NoDup (gids_of q).
Proof. intros H. eapply submseteq_NoDup; [apply gids_submset_ids|done]. Qed.

(** An edit of the group [tid] of a query: none, or in the context of the hole. *)
Lemma rewrite_cases tid t (q : FilterQuery) :
  distinct_ids q ->
  rewriteGroup (by_id tid) t q = None \/
  exists c g, q = plug c g /\ g_id g = tid /\
    rewriteGroup (by_id tid) t q = plug c <$> t g.
Proof.
  intros Hq. destruct (decide (tid ∈ gids_of q)) as [Hin|Hout].
  - right. apply gids_ctx in Hin as (c & g & -> & Hg). exists c, g.
    split_and!; [done..|]. apply rewrite_plug; [done|]. by apply distinct_gids.
  - left. by apply rewrite_absent.
Qed.

(** ** Lookup *)
Lemma find_walk_spec id n f :
  find_walk id n = Some f ->
  exists c p b a, n = NGroup (plug c p) /\ g_rules p = b ++ f_node f :: a /\
  node_id (f_node f) = id /\ f_parent f = Some p /\ f_index f = Z.of_nat (length b).
Proof.
  induction n as [r|g IH] using FilterNode_ind'; [done|]. simpl.
  assert (Hl : forall b0 l, g_rules g = b0 ++ l -> Forall (fun n => find_walk id n = Some f ->
     exists c p b a, n = NGroup (plug c p) /\ g_rules p = b ++ f_node f :: a /\
       node_id (f_node f) = id /\ f_parent f = Some p /\ f_index f = Z.of_nat (length b)) l ->
     find_in (find_walk id) id g (Z.of_nat (length b0)) l = Some f ->
     exists c p b a, NGroup g = NGroup (plug c p) /\ g_rules p = b ++ f_node f :: a /\
       node_id (f_node f) = id /\ f_parent f = Some p /\ f_index f = Z.of_nat (length b)).
  { intros b0 l. revert b0. induction l as [|ch l IHl]; intros b0 Hg Hf; [done|].
    apply Forall_cons in Hf as [Hch Hf]. simpl.
    destruct (String.eqb_spec (node_id ch) id) as [He|He].
    { intros [= <-]. exists Hole, g, b0, l. done. }
    destruct (find_walk id ch) as [f'|] eqn:Ew.
    { intros [= ->]. destruct (Hch eq_refl) as (c & p & b & a & -> & Hrest).
      exists (Inside (g_id g) (g_combinator g) b0 c l), p, b, a.
      split; [|done]. simpl. rewrite <- Hg. by destruct g. }
    intros H. apply (IHl (b0 ++ [ch])); [by rewrite <- app_assoc|done|].
    rewrite length_app. simpl. rewrite Nat2Z.inj_add. done. }
  intros H. by apply (Hl [] (g_rules g)).
Qed.

(** A node found below the root: its parent sits in a context. *)
Lemma find_spec q id n p i :
  findFilterNode q id = Some (mkFound n (Some p) i) ->
  exists c b a, q = plug c p /\ g_rules p = b ++ n :: a /\ node_id n = id /\
    i = Z.of_nat (length b).
Proof.
  unfold findFilterNode. destruct (String.eqb _ _); [done|].
  intros H. apply find_walk_spec in H as (c & p' & b & a & [= ->] & H1 & H2 & [= ->] & H4).
  by exists c, b, a.
Qed.

Lemma find_root q id n i :
  findFilterNode q id = Some (mkFound n None i) -> n = NGroup q /\ g_id q = id.
Proof.
  unfold findFilterNode. destruct (String.eqb_spec (g_id q) id) as [He|]; [by intros [= <- <-]|].
  intros H. apply find_walk_spec in H as (? & ? & ? & ? & _ & _ & _ & [=] & _).
Qed.

(** An id below a group is looked up there, and nowhere else. *)
Lemma find_in_skip walk id g i b l :
  Forall (fun n => node_id n <> id /\ walk n = None) b ->
  find_in walk id g i (b ++ l) = find_in walk id g (i + Z.of_nat (length b)) l.
Proof.
  intros H. revert i. induction H as [|n b [H1 H2] Hb IH]; intros i; simpl.
  - by rewrite Z.add_0_r.
  - destruct (String.eqb_spec (node_id n) id); [done|]. rewrite H2, IH.
    f_equal. lia.
Qed.

Lemma find_walk_absent id n : id ∉ ids n -> find_walk id n = None.
Proof.
  induction n as [r|g IH] using FilterNode_ind'; [done|]. intros H. simpl.
  rewrite <- (app_nil_r (g_rules g)), find_in_skip; [done|].
  rewrite Forall_forall in *. intros ch Hc.
  assert (id ∉ ids ch) as Hch.
  { intros Hin. apply H. right. apply elem_of_flat_map. eauto. }
  split; [|by apply IH]. intros <-. apply Hch, node_id_in_ids.
Qed.

Lemma absent_all id (l : list FilterNode) :
  id ∉ flat_map ids l -> Forall (fun n => node_id n <> id /\ find_walk id n = None) l.
Proof.
  intros H. apply Forall_forall. intros n Hn.
  assert (id ∉ ids n) as Hi by (intros ?; apply H, elem_of_flat_map; eauto).
  split; [|by apply find_walk_absent]. intros <-. apply Hi, node_id_in_ids.
Qed.

(** The siblings of a node with distinct ids do not mention its id. *)
Lemma distinct_hole c p b n a :
  distinct_ids (plug c p) -> g_rules p = b ++ n :: a ->
  NoDup (flat_map ids b ++ ids n ++ flat_map ids a) /\
  g_id p ∉ flat_map ids b ++ ids n ++ flat_map ids a.
Proof.
  unfold distinct_ids. rewrite ids_plug, ids_group. intros H Hp. rewrite Hp in H.
  apply NoDup_app in H as (_ & _ & H). apply NoDup_app in H as (H & _ & _).
  rewrite List.flat_map_app in H. simpl in H. by apply NoDup_cons in H as [? ?].
Qed.

Lemma hole_absent c p b n a :
  distinct_ids (plug c p) -> g_rules p = b ++ n :: a ->
  node_id n ∉ flat_map ids b /\ node_id n ∉ flat_map ids a.
Proof.
  intros H Hp. destruct (distinct_hole _ _ _ _ _ H Hp) as [Hnd _].
  apply NoDup_app in Hnd as (_ & H1 & Hnd). apply NoDup_app in Hnd as (_ & H2 & _).
  pose proof (node_id_in_ids n) as Hn. split; [|by apply H2].
  intros Hb. apply (H1 _ Hb). apply elem_of_app. by left.
Qed.

(** Along the context, the id of a node in the hole is met at no ancestor. *)
Lemma ctx_absent i k b c a p id :
  distinct_ids (plug (Inside i k b c a) p) -> id ∈ flat_map ids (g_rules p) ->
  id <> i /\ id ∉ flat_map ids b /\ id ∉ flat_map ids a /\
  id ∈ ids_of (plug c p) /\ id <> g_id (plug c p) /\ distinct_ids (plug c p).
Proof.
  unfold distinct_ids. simpl. rewrite NoDup_cons, List.flat_map_app. intros [Hi Hnd] Hid.
  change (flat_map ids (NGroup (plug c p) :: a)) with (ids_of (plug c p) ++ flat_map ids a) in *.
  apply NoDup_app in Hnd as (_ & H1 & Hnd). apply NoDup_app in Hnd as (Hin & H2 & _).
  assert (id ∈ ids_of (plug c p)) as Hp.
  { rewrite ids_plug, !elem_of_app, ids_group. right; left. by right. }
  split_and!; [| |by apply H2|done| |done].
  - intros ->. apply Hi. rewrite !elem_of_app. auto.
  - intros Hb. apply (H1 _ Hb). apply elem_of_app. by left.
  - intros ->. destruct c; simpl in *.
    + apply NoDup_cons in Hin as [Hn _]. done.
    + apply NoDup_cons in Hin as [Hn _]. apply Hn.
      rewrite List.flat_map_app. simpl. rewrite elem_of_app. right.
      change (id ∈ ids_of (plug c p) ++ flat_map ids after). apply elem_of_app. left.
      rewrite ids_plug, !elem_of_app, ids_group. right; left. by right.
Qed.

Lemma find_plug c p b n a :
  distinct_ids (plug c p) -> g_rules p = b ++ n :: a ->
  findFilterNode (plug c p) (node_id n)
  = Some (mkFound n (Some p) (Z.of_nat (length b))).
Proof.
  intros Hd Hp.
  assert (Hin : node_id n ∈ flat_map ids (g_rules p)).
  { rewrite Hp, List.flat_map_app, elem_of_app. right. apply elem_of_app. left.
    apply node_id_in_ids. }
  enough (Hw : find_walk (node_id n) (NGroup (plug c p))
    = Some (mkFound n (Some p) (Z.of_nat (length b))) /\ g_id (plug c p) <> node_id n).
  { destruct Hw as [Hw Hne]. unfold findFilterNode.
    by destruct (String.eqb_spec (g_id (plug c p)) (node_id n)). }
  induction c as [|i k b' c IH a'].
  - simpl. destruct (hole_absent Hole p b n a Hd Hp) as [Hb _].
    destruct (distinct_hole Hole p b n a Hd Hp) as [_ Hi].
    rewrite Hp, find_in_skip by by apply absent_all. simpl. rewrite String.eqb_refl. split.
    + done.
    + intros E. apply Hi. rewrite E, !elem_of_app. right; left. apply node_id_in_ids.
  - destruct (ctx_absent _ _ _ _ _ _ _ Hd Hin) as (Hi & Hb & _ & _ & Hne & Hd').
    destruct (IH Hd') as [Hw _]. split; [|done].
    change (find_in (find_walk (node_id n)) (node_id n) (plug (Inside i k b' c a') p) 0
      (b' ++ NGroup (plug c p) :: a') = Some (mkFound n (Some p) (Z.of_nat (length b)))).
    rewrite find_in_skip by by apply absent_all. cbn [find_in].
    destruct (String.eqb_spec (node_id (NGroup (plug c p))) (node_id n)); [naive_solver|].
    by rewrite Hw.
Qed.
