(* ===== verification/FilterEdits.v ===== *)
(** * What the edits of a filter query guarantee

    Removal, updates, moves, wrapping, duplication and pruning of
    [filters-query.tsx], on the decomposition of FilterTree; then the edit
    session of [filters.tsx] as a step relation over a query and a source of
    ids, with the invariant every lookup by id relies on. *)
From S2P Require Import Prelude JsString JsValue FilterQuery FilterTree.

(** ** Each operation at the group it edits *)

Lemma distinct_ids_sub q q' extra :
  ids_of q' ⊆+ ids_of q ++ extra -> NoDup (ids_of q ++ extra) -> distinct_ids q'.
Proof. intros H1 H2. by eapply submseteq_NoDup. Qed.

Lemma in_ids_find q id : id ∈ ids_of q -> id <> g_id q ->
  distinct_ids q ->
  exists c p b n a, q = plug c p /\ g_rules p = b ++ n :: a /\ node_id n = id.
Proof.
  intros Hin Hne _.
  enough (H : forall n, id ∈ ids n -> id <> node_id n ->
    exists c p b m a, n = NGroup (plug c p) /\ g_rules p = b ++ m :: a /\ node_id m = id).
  { destruct (H (NGroup q) Hin Hne) as (c & p & b & m & a & [= ->] & ? & ?). naive_solver. }
  clear q Hin Hne. intros n. induction n as [r|g IH] using FilterNode_ind'.
  - simpl. by intros ->%list_elem_of_singleton.
  - simpl. rewrite elem_of_cons. intros [->|Hx] Hne; [done|].
    apply elem_of_flat_map in Hx as (ch & Hc & Hx).
    rewrite Forall_forall in IH.
    apply list_elem_of_split in Hc as Hs. destruct Hs as (b & a & Hg).
    destruct (decide (id = node_id ch)) as [->|Hd].
    + exists Hole, g, b, ch, a. done.
    + destruct (IH _ Hc Hx Hd) as (c & p & b' & m & a' & -> & Hp & Hm).
      exists (Inside (g_id g) (g_combinator g) b c a), p, b', m, a'.
      split; [|done]. simpl. rewrite <- Hg. by destruct g.
Qed.

(** *** Dropping a child *)
Section Drop.
Context (rec : FilterNode -> option FilterNode) (id : string) (de : bool).

Lemma drop_absent (l : list FilterNode) :
  Forall (fun n => node_id n <> id /\ rec n = None) l ->
  some (child_changed rec id) l = false.
Proof.
  induction 1 as [|n l [H1 H2] _ IH]; [done|]. simpl. rewrite IH.
  unfold child_changed. rewrite H2. apply String.eqb_neq in H1. by rewrite H1.
Qed.

Lemma kept_app l1 l2 :
  kept_children rec id de (l1 ++ l2) = kept_children rec id de l1 ++ kept_children rec id de l2.
Proof. apply List.flat_map_app. Qed.

Lemma kept_cons n l :
  kept_children rec id de (n :: l) = kept_children rec id de [n] ++ kept_children rec id de l.
Proof. unfold kept_children. simpl. by rewrite app_nil_r. Qed.

Lemma kept_absent (l : list FilterNode) :
  Forall (fun n => node_id n <> id /\ rec n = None) l ->
  kept_children rec id false l = l.
Proof.
  induction 1 as [|n l [H1 H2] _ IH]; [done|]. simpl. rewrite H2.
  apply String.eqb_neq in H1. rewrite H1. simpl. rewrite IH. by destruct n.
Qed.

Lemma kept_flatten (l : list FilterNode) :
  Forall (fun n => node_id n <> id /\ rec n = None) l ->
  flat_map flatten_node (kept_children rec id de l) = flat_map flatten_node l.
Proof.
  induction 1 as [|n l [H1 H2] _ IH]; [done|]. simpl. rewrite H2.
  apply String.eqb_neq in H1. rewrite H1. simpl. rewrite List.flat_map_app, IH.
  f_equal. destruct n as [r|[i k [|]]]; simpl; rewrite ?app_nil_r; [done| |].
  - by destruct de.
  - by rewrite andb_false_r; simpl; rewrite ?app_nil_r.
Qed.
End Drop.

Lemma absent_none (f : string -> FilterNode -> option FilterNode) de id n :
  (forall id r, f id (NRule r) = None) ->
  (forall id g, f id (NGroup g) = NGroup <$> drop_child (f id) id de g) ->
  id ∉ ids n -> f id n = None.
Proof.
  intros Hr Hg. induction n as [r|g IH] using FilterNode_ind'; [done|].
  intros H. rewrite Hg. unfold drop_child. rewrite drop_absent; [done|].
  rewrite Forall_forall in *. intros ch Hc.
  assert (id ∉ ids ch) as Hch.
  { intros Hin. apply H. right. apply elem_of_flat_map. eauto. }
  split; [|by apply IH]. intros <-. apply Hch, node_id_in_ids.
Qed.
Lemma prune_absent id n : id ∉ ids n -> prune_node id n = None.
Proof. by apply (absent_none prune_node true). Qed.
Lemma detach_absent id n : id ∉ ids n -> detach_node id n = None.
Proof. by apply (absent_none detach_node false). Qed.

Lemma absent_all_rec (f : string -> FilterNode -> option FilterNode) id l :
  (forall n, id ∉ ids n -> f id n = None) -> id ∉ flat_map ids l ->
  Forall (fun n => node_id n <> id /\ f id n = None) l.
Proof.
  intros Hf H. apply Forall_forall. intros n Hn.
  assert (id ∉ ids n) as Hi by (intros ?; apply H, elem_of_flat_map; eauto).
  split; [|by apply Hf]. intros <-. apply Hi, node_id_in_ids.
Qed.

Lemma hole_in_ids p b n a :
  g_rules p = b ++ n :: a -> node_id n ∈ flat_map ids (g_rules p).
Proof.
  intros ->. rewrite List.flat_map_app. simpl. rewrite !elem_of_app.
  right; left. apply node_id_in_ids.
Qed.

(** Detaching removes exactly the node. *)
Lemma detach_plug c p b n a :
  distinct_ids (plug c p) -> g_rules p = b ++ n :: a ->
  detachFilterNode (plug c p) (node_id n) = Some (plug c (with_rules p (b ++ a))).
Proof.
  intros Hd Hp. pose proof (hole_in_ids _ _ _ _ Hp) as Hin.
  induction c as [|i k b' c IH a'].
  - destruct (hole_absent Hole p b n a Hd Hp) as [Hb Ha].
    apply (absent_all_rec detach_node) in Hb, Ha; [|by apply detach_absent..].
    unfold detachFilterNode, drop_child. simpl. rewrite Hp, existsb_app.
    rewrite drop_absent by done. simpl. unfold child_changed at 1.
    rewrite String.eqb_refl. simpl. rewrite kept_app, kept_absent by done. simpl.
    rewrite String.eqb_refl. simpl. by rewrite kept_absent by done.
  - destruct (ctx_absent _ _ _ _ _ _ _ Hd Hin) as (Hi & Hb & Ha & _ & Hne & Hd').
    apply (absent_all_rec detach_node) in Hb, Ha; [|by apply detach_absent..].
    specialize (IH Hd').
    assert (Hrec : detach_node (node_id n) (NGroup (plug c p))
                   = Some (NGroup (plug c (with_rules p (b ++ a))))).
    { change (NGroup <$> detachFilterNode (plug c p) (node_id n)
              = Some (NGroup (plug c (with_rules p (b ++ a))))). by rewrite IH. }
    unfold detachFilterNode, drop_child. cbn [plug g_rules].
    rewrite existsb_app, drop_absent by done. cbn [existsb orb].
    unfold child_changed at 1. rewrite Hrec. rewrite bool_decide_eq_true_2 by done.
    rewrite orb_true_r. cbn [orb]. unfold with_rules at 1. cbn [g_id g_combinator].
    f_equal. f_equal. rewrite kept_app, kept_absent by done. f_equal.
    cbn [kept_children flat_map]. rewrite Hrec.
    destruct (String.eqb_spec (node_id (NGroup (plug c p))) (node_id n)); [naive_solver|].
    cbn. f_equal. by apply kept_absent.
Qed.

(** Removal takes out the rules of the node, and no others. *)
Lemma remove_plug c p b n a :
  distinct_ids (plug c p) -> g_rules p = b ++ n :: a ->
  exists q', removeFilterNode (plug c p) (node_id n) = Some q' /\
    flattenFilterRules q' = around_before (fun _ => []) flatten_node c ++
      (flat_map flatten_node b ++ flat_map flatten_node a) ++ around_after flatten_node c.
Proof.
  intros Hd Hp. pose proof (hole_in_ids _ _ _ _ Hp) as Hin.
  induction c as [|i k b' c IH a'].
  - destruct (hole_absent Hole p b n a Hd Hp) as [Hb Ha].
    apply (absent_all_rec prune_node) in Hb, Ha; [|by apply prune_absent..].
    unfold removeFilterNode, drop_child. simpl. rewrite Hp, existsb_app.
    rewrite drop_absent by done. simpl. unfold child_changed at 1.
    rewrite String.eqb_refl. simpl. eexists. split; [done|].
    unfold flattenFilterRules. simpl. rewrite app_nil_r, kept_app, List.flat_map_app.
    rewrite kept_flatten by done. simpl. rewrite String.eqb_refl. simpl.
    by rewrite kept_flatten by done.
  - destruct (ctx_absent _ _ _ _ _ _ _ Hd Hin) as (Hi & Hb & Ha & _ & Hne & Hd').
    apply (absent_all_rec prune_node) in Hb, Ha; [|by apply prune_absent..].
    destruct (IH Hd') as (q1 & H1 & Hf).
    assert (Hrec : prune_node (node_id n) (NGroup (plug c p)) = Some (NGroup q1)).
    { change (NGroup <$> removeFilterNode (plug c p) (node_id n) = Some (NGroup q1)).
      by rewrite H1. }
    unfold removeFilterNode, drop_child. cbn [plug g_rules].
    rewrite existsb_app, drop_absent by done. cbn [existsb orb].
    unfold child_changed at 1. rewrite Hrec. rewrite bool_decide_eq_true_2 by done.
    rewrite orb_true_r. cbn [orb]. eexists. split; [done|].
    unfold flattenFilterRules. cbn [with_rules flatten_node g_rules].
    rewrite kept_app, List.flat_map_app, kept_cons, List.flat_map_app, kept_flatten by done.
    cbn [kept_children flat_map]. rewrite Hrec.
    destruct (String.eqb_spec (node_id (NGroup (plug c p))) (node_id n)); [naive_solver|].
    rewrite app_nil_r. cbn [from_option].
    replace (flat_map flatten_node
      (if true && Nat.eqb (length (g_rules q1)) 0 then [] else [NGroup q1]))
      with (flattenFilterRules q1).
    2:{ unfold flattenFilterRules. destruct q1 as [? ? [|]]; simpl; by rewrite ?app_nil_r. }
    rewrite Hf. cbn [around_before around_after].
    rewrite kept_flatten by done. by rewrite <- !app_assoc.
Qed.

(** *** Updating a rule *)

(** The value of [each_child], changed or not. *)
Lemma settle_each_child rec (g : FilterGroupNode) :
  settle g (each_child rec g) = with_rules g (map (fun ch => rec ch ?? ch) (g_rules g)).
Proof.
  unfold each_child, settle. destruct (some _ _) eqn:E; [done|]. simpl.
  rewrite map_none_id; [by rewrite with_rules_id|].
  apply Forall_forall. intros ch Hc. destruct (rec ch) eqn:Er; [|done].
  assert (H : some (fun ch => bool_decide (is_Some (rec ch))) (g_rules g) = true).
  { apply existsb_exists. exists ch. rewrite Er. by rewrite <- list_elem_of_In. }
  congruence.
Qed.

Section Update.
Context (id : string) (u : RuleUpdates).

Definition updated (n : FilterNode) : FilterNode :=
  match n with
  | NRule r => if String.eqb (r_id r) id then NRule (apply_updates u r) else n
  | NGroup _ => n
  end.
Definition updated_rule (r : FilterRule) : FilterRule :=
  if String.eqb (r_id r) id then apply_updates u r else r.
Notation update_node :=
  (rewrite_node (fun g => some (is_rule_with id) (g_rules g))
     (fun g => Some (with_rules g (map updated (g_rules g))))).

Lemma flatten_absent n : id ∉ ids n -> map updated_rule (flatten_node n) = flatten_node n.
Proof.
  induction n as [r|g IH] using FilterNode_ind'; simpl.
  - rewrite not_elem_of_cons. intros [H _]. unfold updated_rule.
    by destruct (String.eqb_spec (r_id r) id).
  - rewrite not_elem_of_cons. intros [_ H].
    induction (g_rules g) as [|n l IHl]; [done|]. simpl in *.
    apply Forall_cons in IH as [H1 H2]. rewrite not_elem_of_app in H.
    rewrite map_app, H1, IHl by naive_solver. done.
Qed.

(** A group below a rule's siblings does not hold the rule's id. *)
Lemma sibling_absent l n :
  NoDup (flat_map ids l) -> some (is_rule_with id) l = true ->
  n ∈ l -> isFilterGroup n = true -> id ∉ ids n.
Proof.
  intros Hnd (r & Hr%list_elem_of_In & Hid)%existsb_exists Hn Hg Hin.
  apply list_elem_of_split in Hr as (b & a & ->).
  unfold is_rule_with in Hid. unbool. rewrite List.flat_map_app in Hnd. simpl in Hnd.
  apply NoDup_app in Hnd as (_ & H1 & Hnd). apply NoDup_app in Hnd as (_ & H2 & _).
  assert (Hid : id ∈ ids r) by (rewrite <- H; apply node_id_in_ids).
  apply elem_of_app in Hn as [Hn|[->|Hn]%elem_of_cons].
  - apply (H1 id); [by apply elem_of_flat_map; eauto|]. apply elem_of_app. by left.
  - by destruct r.
  - apply (H2 id Hid). apply elem_of_flat_map; eauto.
Qed.

Lemma updated_children_flatten l :
  NoDup (flat_map ids l) -> some (is_rule_with id) l = true ->
  flat_map flatten_node (map updated l) = map updated_rule (flat_map flatten_node l).
Proof.
  intros Hnd Hs.
  assert (H : Forall (fun n => isFilterGroup n = true -> id ∉ ids n) l).
  { apply Forall_forall. intros n Hn. by apply (sibling_absent l). }
  clear Hnd Hs. induction H as [|n l Hn _ IH]; [done|]. simpl. rewrite IH, map_app. f_equal.
  destruct n as [r|g].
  - simpl. unfold updated_rule. by destruct (String.eqb _ _).
  - rewrite flatten_absent by by apply Hn. done.
Qed.

Lemma updated_children_ids l : flat_map ids (map updated l) = flat_map ids l.
Proof.
  induction l as [|n l IH]; [done|]. simpl. rewrite IH. f_equal.
  destruct n as [r|]; [|done]. simpl. by destruct (String.eqb _ _).
Qed.

Lemma settle_fmap (g : FilterGroupNode) r : (NGroup <$> r) ?? NGroup g = NGroup (settle g r).
Proof. by destruct r. Qed.

Lemma update_node_spec n :
  NoDup (ids n) -> is_rule_with id n = false ->
  flatten_node (update_node n ?? n) = map updated_rule (flatten_node n) /\
  ids (update_node n ?? n) = ids n.
Proof.
  induction n as [r|g IH] using FilterNode_ind'; intros Hnd Hnot.
  { simpl. unfold is_rule_with in Hnot. simpl in Hnot. rewrite andb_true_r in Hnot.
    unfold updated_rule. by rewrite Hnot. }
  rewrite rewrite_node_group, settle_fmap. simpl in Hnd. apply NoDup_cons in Hnd as [Hi Hnd].
  unfold rewriteGroup. destruct (some _ _) eqn:E.
  - simpl. by rewrite updated_children_flatten, updated_children_ids by done.
  - rewrite settle_each_child. simpl. clear Hi Hnot.
    induction (g_rules g) as [|n l IHl]; [done|]. simpl in *.
    apply orb_false_iff in E as [E1 E2]. apply Forall_cons in IH as [H1 H2].
    apply NoDup_app in Hnd as (Hn1 & _ & Hn2).
    destruct (H1 Hn1 E1) as [-> ->]. destruct (IHl H2 Hn2 E2) as [-> [= ->]].
    by rewrite map_app.
Qed.
End Update.

Lemma update_spec q id u :
  distinct_ids q ->
  flattenFilterRules (settle q (updateFilterRule q id u))
    = map (updated_rule id u) (flattenFilterRules q) /\
  ids_of (settle q (updateFilterRule q id u)) = ids_of q.
Proof.
  intros Hd. pose proof (update_node_spec id u (NGroup q) Hd) as H.
  rewrite rewrite_node_group, settle_fmap in H. unfold is_rule_with in H.
  rewrite andb_false_r in H. by apply H.
Qed.

(** *** Identifiers under removal and pruning *)
Lemma kept_ids_sublist rec id de l :
  Forall (fun n => ids (rec n ?? n) `sublist_of` ids n) l ->
  flat_map ids (kept_children rec id de l) `sublist_of` flat_map ids l.
Proof.
  induction 1 as [|n l H _ IH]; [done|]. simpl. rewrite List.flat_map_app.
  apply sublist_app; [|done]. destruct (String.eqb _ _); [apply sublist_nil_l|].
  destruct (rec n ?? n) as [r|g]; [done|].
  destruct (_ && _); [apply sublist_nil_l|]. simpl. by rewrite app_nil_r.
Qed.

Lemma drop_ids_sublist (f : string -> FilterNode -> option FilterNode) de id n :
  (forall id r, f id (NRule r) = None) ->
  (forall id g, f id (NGroup g) = NGroup <$> drop_child (f id) id de g) ->
  ids (f id n ?? n) `sublist_of` ids n.
Proof.
  intros Hr Hg. induction n as [r|g IH] using FilterNode_ind'; [by rewrite Hr|].
  rewrite Hg. unfold drop_child. destruct (some _ _); [|done]. simpl.
  apply sublist_skip. by apply kept_ids_sublist.
Qed.

Lemma remove_ids_sublist q id :
  ids_of (settle q (removeFilterNode q id)) `sublist_of` ids_of q.
Proof.
  pose proof (drop_ids_sublist prune_node true id (NGroup q)
                (fun _ _ => eq_refl) (fun _ _ => eq_refl)) as H.
  change (prune_node id (NGroup q)) with (NGroup <$> removeFilterNode q id) in H.
  by rewrite settle_fmap in H.
Qed.

(** Every group but the root has a child. *)
Fixpoint filled (n : FilterNode) : bool :=
  match n with
  | NRule _ => true
  | NGroup g => negb (Nat.eqb (length (g_rules g)) 0) && every filled (g_rules g)
  end.

Lemma kept_filled rec id l :
  Forall (fun n => forall g, rec n ?? n = NGroup g -> every filled (g_rules g) = true) l ->
  every filled (kept_children rec id true l) = true.
Proof.
  induction 1 as [|n l H _ IH]; [done|]. simpl. rewrite forallb_app, IH, andb_true_r.
  destruct (String.eqb _ _); [done|]. destruct (rec n ?? n) as [r|g] eqn:E; [done|].
  destruct (Nat.eqb (length (g_rules g)) 0) eqn:El; [done|]. simpl.
  by rewrite El, (H g eq_refl).
Qed.

Lemma remove_filled q id :
  every filled (g_rules q) = true ->
  every filled (g_rules (settle q (removeFilterNode q id))) = true.
Proof.
  enough (H : forall n g, every filled (match n with NRule _ => [] | NGroup g => g_rules g end) = true ->
    prune_node id n ?? n = NGroup g -> every filled (g_rules g) = true).
  { intros Hq. apply (H (NGroup q)); [done|].
    change (prune_node id (NGroup q)) with (NGroup <$> removeFilterNode q id).
    apply settle_fmap. }
  intros n. induction n as [r|g IH] using FilterNode_ind'; intros g' Hn Hg'; [done|].
  change (prune_node id (NGroup g)) with (NGroup <$> drop_child (prune_node id) id true g) in Hg'.
  rewrite settle_fmap in Hg'. injection Hg' as <-. unfold drop_child.
  destruct (some _ _); [|done]. simpl. apply kept_filled.
  rewrite Forall_forall in *. intros n Hin g' Hg'. apply (IH n Hin g'); [|done].
  rewrite forallb_forall in Hn. specialize (Hn n). rewrite <- list_elem_of_In in Hn.
  specialize (Hn Hin). destruct n; [done|]. simpl in Hn. by unbool.
Qed.

(** The normal form of [pruneFilterQuery]. *)
Fixpoint normal (n : FilterNode) : bool :=
  match n with
  | NRule _ => true
  | NGroup g =>
      match g_rules g with [] => false | [NGroup _] => false | _ => true end &&
      every normal (g_rules g)
  end.

Definition prune_result (n : FilterNode) (r : option FilterNode) : Prop :=
  match r with
  | Some n' => normal n' = true /\ flatten_node n' = flatten_node n /\ ids n' `sublist_of` ids n
  | None => flatten_node n = []
  end.

Lemma prune_children_spec l :
  Forall (fun n => prune_result n (prune_query_node n)) l ->
  every normal (prune_children prune_query_node l) = true /\
  flat_map flatten_node (prune_children prune_query_node l) = flat_map flatten_node l /\
  flat_map ids (prune_children prune_query_node l) `sublist_of` flat_map ids l.
Proof.
  induction 1 as [|n l H _ (IH1 & IH2 & IH3)]; [done|]. simpl.
  destruct (prune_query_node n) as [n'|]; simpl in H |- *.
  - destruct H as (-> & -> & H3). rewrite IH1, IH2. split_and!; [done..|].
    by apply sublist_app.
  - rewrite H, IH1, IH2. split_and!; [done..|]. rewrite <- (app_nil_l (flat_map ids _)).
    apply sublist_app; [apply sublist_nil_l|done].
Qed.

Lemma prune_query_node_spec n : prune_result n (prune_query_node n).
Proof.
  induction n as [r|g IH] using FilterNode_ind'; [done|].
  destruct (prune_children_spec _ IH) as (H1 & H2 & H3). simpl.
  destruct (prune_children prune_query_node (g_rules g)) as [|n1 l] eqn:E; simpl in *; [done|].
  destruct n1 as [r1|g1].
  - simpl. rewrite <- H2. split_and!; [done..|]. by apply sublist_skip.
  - destruct l as [|n2 l]; simpl.
    + rewrite app_nil_r in *. rewrite andb_true_r in H1. split_and!; [done..|].
      by apply sublist_cons.
    + rewrite <- H2. split_and!; [done..|]. by apply sublist_skip.
Qed.

Lemma prune_normal_id n : normal n = true -> prune_query_node n = Some n.
Proof.
  induction n as [r|g IH] using FilterNode_ind'; [done|]. simpl.
  rewrite andb_true_iff. intros [Hs Hn].
  assert (Hid : prune_children prune_query_node (g_rules g) = g_rules g).
  { clear Hs. induction (g_rules g) as [|n l IHl]; [done|]. simpl in *.
    apply Forall_cons in IH as [H1 H2]. unbool. rewrite H1 by done. simpl. by rewrite IHl. }
  rewrite Hid. destruct g as [i k [|[r|g1] [|n2 l]]]; simpl in *; done.
Qed.

Lemma prune_children_normal l :
  every normal l = true -> prune_children prune_query_node l = l.
Proof.
  induction l as [|n l IH]; [done|]. simpl. intros [H1 H2]%andb_true_iff.
  rewrite prune_normal_id by done. simpl. by rewrite IH.
Qed.

Lemma prune_query_spec q :
  every normal (g_rules (pruneFilterQuery q)) = true /\
  flattenFilterRules (pruneFilterQuery q) = flattenFilterRules q /\
  ids_of (pruneFilterQuery q) `sublist_of` ids_of q.
Proof.
  destruct (prune_children_spec (g_rules q)) as (H1 & H2 & H3).
  { apply Forall_forall. intros n _. apply prune_query_node_spec. }
  split_and!; [done..|]. by apply sublist_skip.
Qed.

(** *** Insertion, moves and wrapping at the hole *)
Definition insert_at (index : option Z) (g : FilterGroupNode) : nat :=
  match index with
  | None => length (g_rules g)
  | Some i => clamp_index i (length (g_rules g))
  end.

Lemma insert_rules_split node index g :
  insert_rules node index g
  = with_rules g (take (insert_at index g) (g_rules g) ++ node ::
                  drop (insert_at index g) (g_rules g)).
Proof. unfold insert_rules, splice. by rewrite Nat.add_0_r. Qed.

Lemma insert_at_le index g : insert_at index g <= length (g_rules g).
Proof. unfold insert_at, clamp_index. destruct index; lia. Qed.

Lemma insert_ids node index g :
  ids_of (insert_rules node index g) ≡ₚ ids_of g ++ ids node.
Proof.
  rewrite insert_rules_split, !ids_group. simpl. apply perm_skip.
  rewrite List.flat_map_app. simpl.
  rewrite (Permutation_app_comm (ids node)), app_assoc, <- List.flat_map_app.
  by rewrite take_drop.
Qed.

Lemma insert_plug tid node index c g :
  g_id g = tid -> distinct_ids (plug c g) ->
  insertFilterNode (plug c g) node (Some tid) index = Some (plug c (insert_rules node index g)).
Proof.
  intros Hg Hd. unfold insertFilterNode. simpl.
  by rewrite rewrite_plug by (done || by apply distinct_gids).
Qed.

Lemma insert_ids_sub q node parent index :
  distinct_ids q ->
  ids_of (settle q (insertFilterNode q node parent index)) ⊆+ ids_of q ++ ids node.
Proof.
  intros Hd. unfold insertFilterNode.
  destruct (rewrite_cases (parent ?? g_id q)
    (fun g => Some (insert_rules node index g)) q Hd) as [->|(c & g & -> & Hg & ->)].
  - change (ids_of q ⊆+ ids_of q ++ ids node). by apply submseteq_inserts_r.
  - change (ids_of (plug c (insert_rules node index g)) ⊆+ ids_of (plug c g) ++ ids node).
    apply ids_plug_sub. by rewrite insert_ids.
Qed.

(** A group never contains itself twice: its id is below no child. *)
Lemma map_wrap_absent id gid k l :
  id ∉ flat_map ids l -> map (wrap_child id gid k) l = l.
Proof.
  induction l as [|n l IH]; [done|]. simpl. rewrite not_elem_of_app. intros [H1 H2].
  rewrite IH by done. f_equal. unfold wrap_child.
  destruct (String.eqb_spec (node_id n) id) as [<-|]; [|done].
  exfalso. apply H1, node_id_in_ids.
Qed.

Lemma wrap_plug c p b n a gid k :
  distinct_ids (plug c p) -> g_rules p = b ++ n :: a ->
  wrapFilterNodeInGroup (plug c p) (node_id n) gid k
  = Some (plug c (with_rules p (b ++ NGroup (mkGroup gid k [n]) :: a))).
Proof.
  intros Hd Hp. unfold wrapFilterNodeInGroup. rewrite (find_plug c p b n a) by done.
  rewrite rewrite_plug by (done || by apply distinct_gids). simpl.
  destruct (hole_absent _ _ _ _ _ Hd Hp) as [Hb Ha].
  rewrite Hp, map_app. simpl. rewrite !map_wrap_absent by done.
  unfold wrap_child. by rewrite String.eqb_refl.
Qed.

Lemma splice_hole {A} (b : list A) (n : A) (a new : list A) :
  splice (length b) 1 new (b ++ n :: a) = b ++ new ++ a.
Proof.
  unfold splice. rewrite take_app_length. f_equal. f_equal.
  rewrite drop_app_ge by lia. by replace (length b + 1 - length b) with 1 by lia.
Qed.

Lemma unwrap_plug c p b g a :
  distinct_ids (plug c p) -> g_rules p = b ++ NGroup g :: a ->
  unwrapFilterGroup (plug c p) (g_id g) = Some (plug c (with_rules p (b ++ g_rules g ++ a))).
Proof.
  intros Hd Hp. unfold unwrapFilterGroup.
  pose proof (find_plug c p b (NGroup g) a Hd Hp) as Hf. simpl in Hf.
  destruct (String.eqb_spec (g_id (plug c p)) (g_id g)) as [He|_].
  { unfold findFilterNode in Hf. apply String.eqb_eq in He. by rewrite He in Hf. }
  rewrite Hf, rewrite_plug by (done || by apply distinct_gids). simpl.
  by rewrite Nat2Z.id, Hp, splice_hole.
Qed.

Lemma move_rules_perm from to g :
  from < length (g_rules g) -> g_rules (move_rules from to g) ≡ₚ g_rules g.
Proof.
  intros H. unfold move_rules, splice. simpl. rewrite Nat.add_0_r.
  rewrite (Permutation_app_comm (take 1 _)), app_assoc, take_drop.
  rewrite <- (take_drop from (g_rules g)) at 4.
  rewrite <- app_assoc. apply Permutation_app_head.
  rewrite Permutation_app_comm. rewrite <- (take_drop 1 (drop from (g_rules g))) at 2.
  rewrite drop_drop. done.
Qed.

Lemma perm_ids (g g' : FilterGroupNode) :
  g_id g' = g_id g -> g_rules g' ≡ₚ g_rules g -> ids_of g' ≡ₚ ids_of g.
Proof. intros Hi Hr. rewrite !ids_group, Hi. apply perm_skip. by rewrite Hr. Qed.
