(* ===== verification/FilterLaws.v ===== *)
(** * The properties of the filter query

    The guarantees a caller of [filters-query.tsx] relies on, and the edit
    session of [filters.tsx] as a step relation with its invariant. *)
From stdpp Require Import relations pretty.
From S2P Require Import Prelude JsString JsValue FilterQuery FilterTree FilterEdits.

(** ** The edit session *)

(** What the session asks of an id source: from a state on, an id is never
    issued (again) once it is [spent], and every id issued is spent then. *)
Class IdSupply (St : Type) `{!IdSource St} := {
  spent : St -> string -> Prop;
  issued_fresh s : ~ spent s (nextId s).1;
  issued_spent s : spent (nextId s).2 (nextId s).1;
  spent_stays s id : spent s id -> spent (nextId s).2 id
}.

(** The operations of [filters.tsx] on its query, with the id source the bar owns. *)
Inductive edit {St : Type} `{!IdSource St} : FilterQuery * St -> FilterQuery * St -> Prop :=
| E_add_rule q s path op v neg parent index :
    edit (q, s)
      (settle q (insertFilterNode q
         (NRule (createFilterRule (nextId s).1 path op v neg)) parent index), (nextId s).2)
| E_add_group q s k parent :
    edit (q, s)
      (settle q (insertFilterNode q
         (NGroup (createFilterGroup (nextId s).1 (Some k) None)) parent None), (nextId s).2)
| E_update q s id u : edit (q, s) (settle q (updateFilterRule q id u), s)
| E_remove q s id : edit (q, s) (settle q (removeFilterNode q id), s)
| E_duplicate q s id :
    edit (q, s) (settle q (duplicateFilterNode q id s).1, (duplicateFilterNode q id s).2)
| E_copy q s id parent index :
    edit (q, s) (settle q (copyFilterNodeTo q id parent index s).1,
                 (copyFilterNodeTo q id parent index s).2)
| E_combinator q s id : edit (q, s) (settle q (toggleFilterCombinator q id), s)
| E_move q s id delta : edit (q, s) (settle q (moveFilterNode q id delta), s)
| E_move_to q s id parent index :
    edit (q, s) (settle q (moveFilterNodeTo q id parent index), s)
| E_wrap q s id k :
    edit (q, s) (settle q (wrapFilterNodeInGroup q id (nextId s).1 k), (nextId s).2)
| E_unwrap q s id : edit (q, s) (settle q (unwrapFilterGroup q id), s)
| E_clear q s : edit (q, s) (settle q (clearFilterQuery q), s)
| E_prune q s : edit (q, s) (pruneFilterQuery q, s).

(** Every id names one node, and the source will not issue it again. *)
Definition session_ok {St : Type} `{IdSupply St} (st : FilterQuery * St) : Prop :=
  distinct_ids st.1 /\ Forall (spent st.2) (ids_of st.1).

(** ** Lemmas *)

Lemma perm_sub {A} (l k : list A) : l ≡ₚ k -> l ⊆+ k.
Proof. intros ->. done. Qed.

(** *** Ids under the edits that issue none *)
Lemma combinator_ids_sub q id k :
  distinct_ids q -> ids_of (settle q (setFilterCombinator q id k)) ⊆+ ids_of q.
Proof.
  intros Hd. unfold setFilterCombinator.
  match goal with |- context [rewriteGroup _ ?t _] =>
    destruct (rewrite_cases id t q Hd) as [->|(c & g & -> & Hg & ->)]; [done|] end.
  cbv beta. destruct (decide _); [done|].
  change (ids_of (plug c (mkGroup (g_id g) k (g_rules g))) ⊆+ ids_of (plug c g)).
  rewrite <- (app_nil_r (ids_of (plug c g))). apply ids_plug_sub. by rewrite app_nil_r.
Qed.

Lemma toggle_ids_sub q id :
  distinct_ids q -> ids_of (settle q (toggleFilterCombinator q id)) ⊆+ ids_of q.
Proof.
  intros Hd. unfold toggleFilterCombinator.
  destruct (findFilterNode q id) as [[[r|g] p i]|]; [done| |done].
  by apply combinator_ids_sub.
Qed.

Lemma move_shape q id delta q' :
  distinct_ids q -> moveFilterNode q id delta = Some q' ->
  exists c p p', q = plug c p /\ q' = plug c p' /\ g_id p' = g_id p /\
    g_rules p' ≡ₚ g_rules p.
Proof.
  intros Hd. unfold moveFilterNode.
  destruct (findFilterNode q id) as [[n [p|] i]|] eqn:Hf; [|done..].
  apply find_spec in Hf as (c & b & a & -> & Hp & Hn & ->).
  destruct (_ || _) eqn:E; [done|].
  rewrite rewrite_plug by (done || by apply distinct_gids). intros [= <-].
  exists c, p, (move_rules (Z.to_nat (Z.of_nat (length b)))
                 (Z.to_nat (Z.of_nat (length b) + delta)) p).
  split_and!; [done..|]. apply move_rules_perm. rewrite Hp, length_app. simpl. lia.
Qed.

Lemma plug_perm c p p' :
  g_id p' = g_id p -> g_rules p' ≡ₚ g_rules p ->
  ids_of (plug c p') ≡ₚ ids_of (plug c p) /\
  flattenFilterRules (plug c p') ≡ₚ flattenFilterRules (plug c p).
Proof.
  intros Hi Hr. rewrite !ids_plug, !flatten_plug. split.
  - by rewrite (perm_ids p p').
  - unfold flattenFilterRules. simpl. by rewrite Hr.
Qed.

Lemma move_ids_sub q id delta :
  distinct_ids q -> ids_of (settle q (moveFilterNode q id delta)) ⊆+ ids_of q.
Proof.
  intros Hd. destruct (moveFilterNode q id delta) as [q'|] eqn:E; [|done].
  destruct (move_shape _ _ _ _ Hd E) as (c & p & p' & -> & -> & Hi & Hr).
  apply perm_sub. by apply plug_perm.
Qed.

(** *** Moving to another group *)
Lemma detach_shape c p b n a :
  g_rules p = b ++ n :: a ->
  ids_of (plug c p) ≡ₚ ids_of (plug c (with_rules p (b ++ a))) ++ ids n /\
  flattenFilterRules (plug c p)
    ≡ₚ flattenFilterRules (plug c (with_rules p (b ++ a))) ++ flatten_node n /\
  gids_of (plug c p) ≡ₚ gids_of (plug c (with_rules p (b ++ a))) ++ gids n.
Proof.
  intros Hp. rewrite !ids_plug, !flatten_plug, !gids_plug.
  unfold flattenFilterRules. simpl. rewrite Hp, !List.flat_map_app. simpl.
  split_and!; [| |]; rewrite <- ?app_assoc; simpl; rewrite <- ?app_assoc; solve_Permutation.
Qed.

Lemma moveTo_shape q id parentId index q' :
  distinct_ids q -> moveFilterNodeTo q id parentId index = Some q' ->
  exists c p b n a c' g target,
    q = plug c p /\ g_rules p = b ++ n :: a /\ node_id n = id /\
    plug c (with_rules p (b ++ a)) = plug c' g /\ g_id g = parentId /\
    q' = plug c' (insert_rules n (Some target) g) /\
    target = (if String.eqb (g_id p) parentId && (Z.of_nat (length b) <? index)%Z
              then index - 1 else index)%Z.
Proof.
  intros Hd. unfold moveFilterNodeTo.
  destruct (findFilterNode q id) as [[n [p|] i]|] eqn:Hf; [|done..].
  apply find_spec in Hf as (c & b & a & -> & Hp & <- & ->).
  destruct (containsFilterNode n parentId) eqn:Hc; [done|].
  destruct (findFilterNode (plug c p) parentId) as [[[r|dg] dp di]|] eqn:Hdest; [done| |done].
  cbv zeta.
  set (target := (if String.eqb (g_id p) parentId && (Z.of_nat (length b) <? index)%Z
                  then index - 1 else index)%Z).
  intros H. match type of H with (if ?t then _ else _) = _ => destruct t; [done|] end.
  unfold then_edit in H.
  rewrite (detach_plug c p b n a) in H by done. cbn [settle from_option] in H.
  destruct (detach_shape c p b n a Hp) as (Hids & _ & Hgids).
  assert (Hpid : parentId ∈ gids_of (plug c (with_rules p (b ++ a)))).
  { assert (parentId ∈ gids_of (plug c p)) as Hin.
    { destruct dp as [dp|].
      - apply find_spec in Hdest as (c2 & b2 & a2 & -> & Hp2 & <- & _).
        rewrite gids_plug, !elem_of_app. right; left. simpl. right.
        rewrite Hp2, List.flat_map_app. simpl. rewrite elem_of_app. right. left.
      - apply find_root in Hdest as [_ <-]. left. }
    rewrite Hgids, elem_of_app in Hin. destruct Hin as [Hin|Hin]; [done|].
    apply gids_sub_ids, contains_ids in Hin. congruence. }
  apply gids_ctx in Hpid as (c' & g & Hplug & Hg).
  assert (Hd' : distinct_ids (plug c' g)).
  { rewrite <- Hplug. unfold distinct_ids in *. rewrite Hids in Hd.
    by apply NoDup_app in Hd as (? & _ & _). }
  rewrite Hplug, insert_plug in H by done. injection H as <-.
  exists c, p, b, n, a, c', g, target. done.
Qed.

Lemma insert_flatten node index g :
  flattenFilterRules (insert_rules node index g)
  ≡ₚ flattenFilterRules g ++ flatten_node node.
Proof.
  rewrite insert_rules_split. unfold flattenFilterRules.
  cbn [flatten_node with_rules g_rules]. rewrite List.flat_map_app. cbn [flat_map].
  rewrite (Permutation_app_comm (flatten_node node)), app_assoc, <- List.flat_map_app.
  by rewrite take_drop.
Qed.

Lemma moveTo_perm q id parentId index q' :
  distinct_ids q -> moveFilterNodeTo q id parentId index = Some q' ->
  ids_of q' ≡ₚ ids_of q /\ flattenFilterRules q' ≡ₚ flattenFilterRules q.
Proof.
  intros Hd H.
  destruct (moveTo_shape _ _ _ _ _ Hd H)
    as (c & p & b & n & a & c' & g & t & -> & Hp & _ & Hplug & _ & -> & _).
  destruct (detach_shape c p b n a Hp) as (-> & -> & _). rewrite Hplug.
  rewrite !ids_plug, !flatten_plug, insert_ids, insert_flatten.
  split; solve_Permutation.
Qed.

Lemma moveTo_ids_sub q id parentId index :
  distinct_ids q -> ids_of (settle q (moveFilterNodeTo q id parentId index)) ⊆+ ids_of q.
Proof.
  intros Hd. destruct (moveFilterNodeTo q id parentId index) as [q'|] eqn:E; [|done].
  apply perm_sub. by apply (moveTo_perm _ _ _ _ _ Hd E).
Qed.

(** *** Issuing ids *)
Section Supply.
Context {St : Type} `{IdSupply St}.

(** From [s] to [s'] the source issued exactly the ids of [l]. *)
Record issues (s s' : St) (l : list string) : Prop := {
  issues_distinct : NoDup l;
  issues_fresh : forall x, spent s x -> x ∉ l;
  issues_done : Forall (spent s') l;
  issues_keep : forall x, spent s x -> spent s' x
}.

Lemma issues_nil s : issues s s [].
Proof. constructor; [constructor|by intros ? ? ?%elem_of_nil|constructor|done]. Qed.

Lemma issues_next s : issues s (nextId s).2 [(nextId s).1].
Proof.
  constructor.
  - by apply NoDup_singleton.
  - intros x Hx ->%list_elem_of_singleton. by apply (issued_fresh s).
  - constructor; [apply issued_spent|constructor].
  - intros x. apply spent_stays.
Qed.

Lemma issues_app s1 s2 s3 l1 l2 :
  issues s1 s2 l1 -> issues s2 s3 l2 -> issues s1 s3 (l1 ++ l2).
Proof.
  intros [Hn1 Hf1 Hd1 Hk1] [Hn2 Hf2 Hd2 Hk2]. rewrite Forall_forall in Hd1.
  constructor.
  - apply NoDup_app. split_and!; [done| |done]. intros x Hx. apply Hf2. by apply Hd1.
  - intros x Hx. rewrite not_elem_of_app. split; [by apply Hf1|]. apply Hf2. by apply Hk1.
  - apply Forall_app. split; [|done]. apply Forall_forall. naive_solver.
  - naive_solver.
Qed.

(** What a rule says, its id apart. *)
Definition rule_body (r : FilterRule) : list string * string * val * option bool :=
  (r_path r, r_operator r, r_value r, r_negated r).

Lemma clone_spec n s :
  issues s (cloneFilterNode n s).2 (ids (cloneFilterNode n s).1) /\
  map rule_body (flatten_node (cloneFilterNode n s).1) = map rule_body (flatten_node n).
Proof.
  revert s. induction n as [r|g IH] using FilterNode_ind'; intros s; simpl.
  - pose proof (issues_next s) as Hn. by destruct (nextId s) as [id s1].
  - pose proof (issues_next s) as Hn. destruct (nextId s) as [id s1]. simpl in Hn.
    assert (Hm : issues s1 (map_ids cloneFilterNode (g_rules g) s1).2
                   (flat_map ids (map_ids cloneFilterNode (g_rules g) s1).1) /\
                 map rule_body (flat_map flatten_node (map_ids cloneFilterNode (g_rules g) s1).1)
                 = map rule_body (flat_map flatten_node (g_rules g))).
    { clear Hn. revert s1. induction IH as [|m l Hm _ IHl]; intros s1; simpl;
        [split; [apply issues_nil|done]|].
      destruct (Hm s1) as [H1 H2]. destruct (cloneFilterNode m s1) as [m' s2]. simpl in *.
      destruct (IHl s2) as [H3 H4]. destruct (map_ids cloneFilterNode l s2) as [l' s3].
      simpl in *. split; [by eapply issues_app|]. by rewrite !map_app, H2, H4. }
    destruct Hm as [Hm1 Hm2]. destruct (map_ids _ _ s1) as [l' s2]. simpl in *.
    split; [|done]. by apply (issues_app s s1 s2 [id]).
Qed.

(** A new query made of the old ids and some just issued. *)
Lemma session_grow q s q' s' new :
  session_ok (q, s) -> issues s s' new -> ids_of q' ⊆+ ids_of q ++ new -> session_ok (q', s').
Proof.
  intros [Hd Hs] [Hn Hf Hdn Hk] Hsub. cbn [fst snd] in *. rewrite Forall_forall in Hs.
  split; cbn [fst snd].
  - eapply distinct_ids_sub; [done|]. apply NoDup_app. split_and!; [done| |done].
    intros x Hx. apply Hf. by apply Hs.
  - apply Forall_forall. intros x Hx.
    assert (Hin : x ∈ ids_of q ++ new) by (by eapply elem_of_submseteq).
    rewrite Forall_forall in Hdn. apply elem_of_app in Hin as [Hx'|Hx']; [|by apply Hdn].
    apply Hk. by apply Hs.
Qed.

Lemma session_shrink q s q' :
  session_ok (q, s) -> ids_of q' ⊆+ ids_of q -> session_ok (q', s).
Proof.
  intros Hok Hsub. apply (session_grow q s q' s []); [done|apply issues_nil|].
  by rewrite app_nil_r.
Qed.

Lemma session_later q s s' new : session_ok (q, s) -> issues s s' new -> session_ok (q, s').
Proof. intros Hok Hi. eapply session_grow; [done..|]. by apply submseteq_inserts_r. Qed.

Lemma duplicate_ok q s id :
  session_ok (q, s) ->
  session_ok (settle q (duplicateFilterNode q id s).1, (duplicateFilterNode q id s).2).
Proof.
  intros Hok. unfold duplicateFilterNode.
  destruct (findFilterNode q id) as [[n [p|] i]|]; [|done..].
  destruct (clone_spec n s) as [Hi _]. destruct (cloneFilterNode n s) as [n' s'].
  eapply session_grow; [done..|]. apply insert_ids_sub. apply Hok.
Qed.

Lemma copy_ok q s id parent index :
  session_ok (q, s) ->
  session_ok (settle q (copyFilterNodeTo q id parent index s).1,
              (copyFilterNodeTo q id parent index s).2).
Proof.
  intros Hok. unfold copyFilterNodeTo.
  destruct (findFilterNode q id) as [[n [p|] i]|]; [|done..].
  destruct (findFilterNode q parent) as [[[r|g] p' i']|]; [done| |done].
  destruct (clone_spec n s) as [Hi _]. destruct (cloneFilterNode n s) as [n' s'].
  eapply session_grow; [done..|]. apply insert_ids_sub. apply Hok.
Qed.

Lemma wrap_ok q s id k :
  session_ok (q, s) ->
  session_ok (settle q (wrapFilterNodeInGroup q id (nextId s).1 k), (nextId s).2).
Proof.
  intros Hok. pose proof (issues_next s) as Hi.
  destruct (findFilterNode q id) as [[n [p|] i]|] eqn:Hf.
  2,3: unfold wrapFilterNodeInGroup; rewrite Hf; by eapply session_later.
  apply find_spec in Hf as (c & b & a & -> & Hp & <- & _).
  rewrite (wrap_plug c p b n a); [|apply Hok|done].
  eapply session_grow; [done..|]. apply ids_plug_sub. apply perm_sub.
  rewrite !ids_group. simpl. rewrite Hp, !List.flat_map_app. simpl.
  rewrite app_nil_r. apply perm_skip. solve_Permutation.
Qed.

Lemma unwrap_ids_sub q id :
  distinct_ids q -> ids_of (settle q (unwrapFilterGroup q id)) ⊆+ ids_of q.
Proof.
  intros Hd. destruct (unwrapFilterGroup q id) as [q'|] eqn:E; [|done].
  destruct (findFilterNode q id) as [[[r|g] [p|] i]|] eqn:Hf.
  3:{ apply find_spec in Hf as (c & b & a & -> & Hp & Hi & _). simpl in Hi. subst.
      rewrite (unwrap_plug c p b g a) in E by done. injection E as <-.
      change (ids_of (plug c (with_rules p (b ++ g_rules g ++ a))) ⊆+ ids_of (plug c p)).
      rewrite <- (app_nil_r (ids_of (plug c p))). apply ids_plug_sub. rewrite app_nil_r.
      rewrite !ids_group. simpl. rewrite Hp, !List.flat_map_app. simpl.
      apply submseteq_skip. apply submseteq_app; [done|]. by apply submseteq_cons. }
  all: unfold unwrapFilterGroup in E; rewrite Hf in E; by destruct (String.eqb _ _).
Qed.

Lemma edit_ok st st' : session_ok st -> edit st st' -> session_ok st'.
Proof.
  intros Hok Hstep.
  destruct Hstep as [q s path op v neg parent index|q s k parent|q s id u|q s id|q s id
    |q s id parent index|q s id|q s id d|q s id parent index|q s id k|q s id|q s|q s];
    pose proof (issues_next s) as Hi; pose proof (proj1 Hok) as Hd; cbn [fst] in Hd.
  - eapply session_grow; [done..|]. exact (insert_ids_sub q (NRule (createFilterRule (nextId s).1 path op v neg)) parent index Hd).
  - eapply session_grow; [done..|]. exact (insert_ids_sub q (NGroup (createFilterGroup (nextId s).1 (Some k) None)) parent None Hd).
  - apply (session_shrink q); [done|]. by destruct (update_spec q id u Hd) as [_ ->].
  - apply (session_shrink q); [done|]. apply sublist_submseteq, remove_ids_sublist.
  - by apply duplicate_ok.
  - by apply copy_ok.
  - apply (session_shrink q); [done|]. by apply toggle_ids_sub.
  - apply (session_shrink q); [done|]. by apply move_ids_sub.
  - apply (session_shrink q); [done|]. by apply moveTo_ids_sub.
  - by apply wrap_ok.
  - apply (session_shrink q); [done|]. by apply unwrap_ids_sub.
  - apply (session_shrink q); [done|]. unfold clearFilterQuery. destruct (Nat.eqb _ _); [done|].
    apply submseteq_skip, submseteq_nil_l.
  - apply (session_shrink q); [done|]. apply sublist_submseteq, prune_query_spec.
Qed.
End Supply.

(** ** The id factory of [filters-lib.tsx] *)
Record IdFactory := mkFactory { seed : string; counter : nat }.
Definition createFilterIdFactory (f : IdFactory) : string * IdFactory :=
  let counter := counter f + 1 in
  (seed f +:+ show_nat counter, mkFactory (seed f) counter).
#[export] Instance factory_source : IdSource IdFactory := createFilterIdFactory.

Lemma show_nat_inj n m : show_nat n = show_nat m -> n = m.
Proof. apply (inj pretty). Qed.

#[export] Instance factory_supply : IdSupply IdFactory.
Proof.
  refine {| spent f id := forall n, id = seed f +:+ show_nat n -> n <= counter f |};
    unfold nextId, factory_source, createFilterIdFactory; simpl.
  - intros f H. specialize (H _ eq_refl). lia.
  - intros f n H%str_app_inj_l%show_nat_inj. lia.
  - intros f id H n Hid. specialize (H n Hid). lia.
Defined.

Lemma spent_issued k f : k <= counter f -> spent f (seed f +:+ show_nat k).
Proof. intros Hk n Hn%str_app_inj_l%show_nat_inj. by subst. Qed.
Lemma spent_other f id : starts_with (seed f) id = false -> spent f id.
Proof. intros H n ->. by rewrite starts_with_app in H. Qed.

(** ** Issues *)
Section IssueSpec.
Context (date_parse : string -> num).
Context (arityOf : FilterRule -> option (option FilterOperatorArity)).
Context (validateOf : option (FilterRule -> option string)).

(** A rule that can be run as written. *)
Definition well_posed (r : FilterRule) : Prop :=
  match arityOf r with
  | None => True
  | Some arity =>
      r_operator r <> "" /\
      match arity with
      | Some ANone => True
      | Some ARange =>
          exists a b rest, value_list (r_value r) = a :: b :: rest /\
            isBlankFilterValue a = false /\ isBlankFilterValue b = false /\
            forall d, compareFilterBounds date_parse a b = Some d ->
                      num_lt (num_Z 0) d = false
      | _ =>
          (exists v, v ∈ value_list (r_value r) /\ isBlankFilterValue v = false) /\
          forall f m, validateOf = Some f -> f r = Some m -> m = ""
      end
  end.

Lemma rule_issues_spec r :
  rule_issues date_parse arityOf validateOf r = [] <-> well_posed r.
Proof.
  unfold rule_issues, well_posed, isFilterRuleComplete.
  destruct (arityOf r) as [arity|]; [|done].
  destruct (String.eqb_spec (r_operator r) "") as [He|Hne]; simpl; [naive_solver|].
  assert (Hmany :
    (if every isBlankFilterValue (value_list (r_value r))
     then [mkIssue (r_id r) ColValue MissingValue None]
     else if truthy_str (match validateOf with Some f => f r | None => None end)
     then [mkIssue (r_id r) ColValue Custom (match validateOf with Some f => f r | None => None end)]
     else []) = [] <->
    r_operator r <> "" /\
    (exists v, v ∈ value_list (r_value r) /\ isBlankFilterValue v = false) /\
          forall f m, validateOf = Some f -> f r = Some m -> m = "").
  { destruct (every _ _) eqn:E.
    - split; [done|]. intros (_ & (v & Hv & Hb) & _). exfalso.
      rewrite forallb_forall in E. rewrite list_elem_of_In in Hv. specialize (E v Hv). congruence.
    - assert (exists v, v ∈ value_list (r_value r) /\ isBlankFilterValue v = false) as Hv.
      { induction (value_list (r_value r)) as [|v l IHl]; [done|]. simpl in E.
        destruct (isBlankFilterValue v) eqn:Eb; [|exists v; split; [left|done]].
        destruct (IHl E) as (w & Hw & Hbw). exists w. split; [by right|done]. }
      destruct validateOf as [f|]; simpl; [|naive_solver].
      destruct (f r) as [[|c m]|] eqn:Ef; simpl; naive_solver. }
  destruct arity as [[]|]; simpl; [naive_solver|exact Hmany|exact Hmany| |exact Hmany].
  destruct (value_list (r_value r)) as [|a [|b rest]];
    [split; [done|by intros (_ & ? & ? & ? & [=] & _)]..|].
  destruct (isBlankFilterValue a) eqn:Ea; simpl;
    [split; [done|intros (_ & ? & ? & ? & [= <- <-] & ? & _); congruence]|].
  destruct (isBlankFilterValue b) eqn:Eb; simpl;
    [split; [done|intros (_ & ? & ? & ? & [= <- <-] & _ & ? & _); congruence]|].
  unfold reversed. destruct (compareFilterBounds date_parse a b) as [d|] eqn:Ec.
  - destruct (num_lt (num_Z 0) d) eqn:El.
    { split; [done|]. intros (_ & ? & ? & ? & [= <- <-] & _ & _ & Hn).
      specialize (Hn d Ec). change (num_lt (num_Z 0) d = false) in Hn. congruence. }
    split; [|done]. intros _. split; [done|]. exists a, b, rest. naive_solver.
  - split; [|done]. intros _. split; [done|]. exists a, b, rest. naive_solver.
Qed.

Lemma rule_issues_ids r :
  map i_node (rule_issues date_parse arityOf validateOf r) `sublist_of` [r_id r].
Proof.
  assert (Hone : forall c reason m, map i_node [mkIssue (r_id r) c reason m] `sublist_of` [r_id r])
    by done.
  assert (Hnone : map i_node [] `sublist_of` [r_id r]) by apply sublist_nil_l.
  unfold rule_issues. destruct (arityOf r); [|done].
  destruct (negb _); [done|]. destruct (decide _); [done|]. cbv zeta.
  destruct (decide _).
  - destruct (value_list _) as [|a [|b l]]; [done..|].
    destruct (_ || _); [done|]. by destruct (reversed _).
  - destruct (every _ _); [done|]. by destruct (truthy_str _).
Qed.

Lemma flat_map_nil {A B} (f : A -> list B) l :
  flat_map f l = [] <-> Forall (fun x => f x = []) l.
Proof.
  induction l as [|x l IH]; simpl; [done|]. rewrite Forall_cons, <- IH.
  split; [apply app_eq_nil|]. by intros [-> ->].
Qed.

Lemma visit_nil n isRoot :
  visit_issues date_parse arityOf validateOf isRoot n = [] <->
  (match n with NGroup g => negb isRoot && Nat.eqb (length (g_rules g)) 0 = false /\
                  every filled (g_rules g) = true | NRule _ => True end) /\
  Forall well_posed (flatten_node n).
Proof.
  revert isRoot. induction n as [r|g IH] using FilterNode_ind'; intros isRoot; simpl.
  - rewrite rule_issues_spec, Forall_singleton. naive_solver.
  - assert (Hch : flat_map (visit_issues date_parse arityOf validateOf false) (g_rules g) = [] <->
      every filled (g_rules g) = true /\ Forall well_posed (flat_map flatten_node (g_rules g))).
    { rewrite flat_map_nil. induction IH as [|n l Hn _ IHl]; simpl; [done|].
      rewrite Forall_cons, Forall_app, andb_true_iff, Hn, IHl.
      assert (match n with NGroup g => negb false && Nat.eqb (length (g_rules g)) 0 = false /\
                  every filled (g_rules g) = true | NRule _ => True end <-> filled n = true) as ->.
      { destruct n as [|g']; simpl; [done|]. rewrite andb_true_iff, negb_true_iff. done. }
      tauto. }
    destruct (_ && _) eqn:E; simpl; [naive_solver|]. rewrite Hch. naive_solver.
Qed.

Lemma visit_ids n isRoot :
  map i_node (visit_issues date_parse arityOf validateOf isRoot n) `sublist_of` ids n.
Proof.
  revert isRoot. induction n as [r|g IH] using FilterNode_ind'; intros isRoot; simpl.
  - apply rule_issues_ids.
  - rewrite map_app. assert (map i_node (flat_map (visit_issues date_parse arityOf validateOf false)
      (g_rules g)) `sublist_of` flat_map ids (g_rules g)) as Hl.
    { induction IH as [|n l Hn _ IHl]; simpl; [done|]. rewrite map_app.
      by apply sublist_app. }
    destruct (_ && _); simpl; [by apply sublist_skip|by apply sublist_cons].
Qed.
End IssueSpec.

Lemma prune_gone id n :
  node_id n <> id -> id ∉ ids (prune_node id n ?? n).
Proof.
  induction n as [r|g IH] using FilterNode_ind'; intros Hne.
  { simpl. rewrite not_elem_of_cons. split; [done|]. apply not_elem_of_nil. }
  assert (Hk : forall l, Forall (fun n => node_id n <> id -> id ∉ ids (prune_node id n ?? n)) l ->
    id ∉ flat_map ids (kept_children (prune_node id) id true l)).
  { intros l Hl. induction Hl as [|n l Hn _ IHl]; simpl; [apply not_elem_of_nil|].
    rewrite List.flat_map_app, not_elem_of_app. split; [|done].
    destruct (String.eqb_spec (node_id n) id) as [|Hn']; [apply not_elem_of_nil|].
    specialize (Hn Hn'). destruct (prune_node id n ?? n) as [r|g'] eqn:E.
    - exact Hn.
    - destruct (Nat.eqb (length (g_rules g')) 0); [apply not_elem_of_nil|].
      change (id ∉ ids_of g' ++ []). by rewrite app_nil_r. }
  simpl. unfold drop_child. destruct (some (child_changed _ _) _) eqn:E; simpl.
  - rewrite not_elem_of_cons. split; [done|]. by apply Hk.
  - rewrite not_elem_of_cons. split; [done|]. rewrite elem_of_flat_map.
    intros (ch & Hc & Hin). rewrite Forall_forall in IH.
    assert (Hcc : child_changed (prune_node id) id ch = false).
    { destruct (child_changed _ _ ch) eqn:Ec; [|done].
      assert (some (child_changed (prune_node id) id) (g_rules g) = true); [|congruence].
      apply existsb_exists. exists ch. by rewrite <- list_elem_of_In. }
    unfold child_changed in Hcc. unbool.
    specialize (IH ch Hc H). destruct (prune_node id ch) eqn:Ep; [|done].
    exfalso. by apply H0.
Qed.

Lemma remove_gone q id :
  id <> g_id q -> id ∉ ids_of (settle q (removeFilterNode q id)).
Proof.
  intros Hne. pose proof (prune_gone id (NGroup q)) as H.
  change (prune_node id (NGroup q)) with (NGroup <$> removeFilterNode q id) in H.
  rewrite settle_fmap in H. apply H. simpl. congruence.
Qed.

(** ** Properties *)

(** The query of the examples: one rule, a group of two, another rule. *)
Definition sample_rule (id operator : string) (v : val) : FilterRule :=
  createFilterRule id ["name"] operator v None.
Definition sample : FilterQuery :=
  createFilterQuery
    [NRule (sample_rule "f1" "is" (VStr "a"));
     NGroup (createFilterGroup "f2" (Some COr)
       (Some [NRule (sample_rule "f3" "is" (VStr "b"));
              NRule (sample_rule "f4" "is" (VStr "c"))]));
     NRule (sample_rule "f5" "is" (VStr "d"))] CAnd "root".

Lemma sample_distinct : distinct_ids sample.
Proof. apply (bool_decide_unpack _). by vm_compute. Qed.

(** Along any sequence of the filter bar's operations (adding rules and
    groups, updating, removing, duplicating, copying, moving, wrapping,
    unwrapping, toggling, clearing, pruning) every node of the query keeps an
    id of its own and the id source never issues an id the query still holds,
    so every lookup by id stays unambiguous. *)
Theorem edits_keep_ids_distinct {St : Type} `{IdSupply St} (st st' : FilterQuery * St) :
  session_ok st -> rtc edit st st' -> session_ok st'.
Proof.
  intros Hok Hsteps. induction Hsteps as [|st st1 st' Hstep _ IH]; [done|].
  apply IH. by eapply edit_ok.
Qed.
Lemma edits_keep_ids_distinct_witness :
  session_ok (settle sample (duplicateFilterNode sample "f2" (mkFactory "f" 5)).1,
              mkFactory "f" 8).
Proof.
  apply (edits_keep_ids_distinct (sample, mkFactory "f" 5)).
  - split; [apply sample_distinct|]. cbn [fst snd].
    change (ids_of sample) with ["root"; "f1"; "f2"; "f3"; "f4"; "f5"].
    rewrite !Forall_cons, Forall_nil. split_and!; first [done|by apply spent_other|
      exact (spent_issued 1 (mkFactory "f" 5) ltac:(simpl; lia))|
      exact (spent_issued 2 (mkFactory "f" 5) ltac:(simpl; lia))|
      exact (spent_issued 3 (mkFactory "f" 5) ltac:(simpl; lia))|
      exact (spent_issued 4 (mkFactory "f" 5) ltac:(simpl; lia))|
      exact (spent_issued 5 (mkFactory "f" 5) ltac:(simpl; lia))].
  - eapply rtc_once. exact (E_duplicate sample (mkFactory "f" 5) "f2").
Defined.

(** Removing a node found below the root deletes exactly the rules under
    it: the remaining rules keep their order, the id is gone from the tree,
    no other id appears, and where every group held something every group
    still does. *)
Theorem remove_deletes_exactly q id n p i :
  distinct_ids q -> findFilterNode q id = Some (mkFound n (Some p) i) ->
  exists q' before after, removeFilterNode q id = Some q' /\
    flattenFilterRules q = before ++ flatten_node n ++ after /\
    flattenFilterRules q' = before ++ after /\
    id ∉ ids_of q' /\ ids_of q' `sublist_of` ids_of q /\
    (every filled (g_rules q) = true -> every filled (g_rules q') = true).
Proof.
  intros Hd Hf. pose proof Hf as Hf'. apply find_spec in Hf as (c & b & a & -> & Hp & <- & _).
  destruct (remove_plug c p b n a Hd Hp) as (q' & Hr & Hfl).
  pose proof (remove_ids_sublist (plug c p) (node_id n)) as Hsub.
  pose proof (remove_filled (plug c p) (node_id n)) as Hfill.
  pose proof (remove_gone (plug c p) (node_id n)) as Hgone.
  rewrite Hr in Hsub, Hfill, Hgone. cbn [settle from_option] in *.
  exists q', (around_before (fun _ => []) flatten_node c ++ flat_map flatten_node b),
    (flat_map flatten_node a ++ around_after flatten_node c).
  split_and!; [done| | |apply Hgone|done|done].
  - rewrite flatten_plug. unfold flattenFilterRules. simpl.
    rewrite Hp, List.flat_map_app. simpl. by rewrite <- !app_assoc.
  - by rewrite Hfl, <- !app_assoc.
  - intros He. unfold findFilterNode in Hf'. rewrite <- He, String.eqb_refl in Hf'. done.
Qed.
Lemma remove_deletes_exactly_witness :
  exists q' before after, removeFilterNode sample "f3" = Some q' /\
    flattenFilterRules sample = before ++ [sample_rule "f3" "is" (VStr "b")] ++ after /\
    flattenFilterRules q' = before ++ after.
Proof.
  edestruct (remove_deletes_exactly sample "f3") as (q' & be & af & H1 & H2 & H3 & _);
    [apply sample_distinct|reflexivity|]. exists q', be, af. exact (conj H1 (conj H2 H3)).
Defined.

(** C20: Moving a node into a group, when the move is made, loses and invents
    nothing: the rules and the ids are a permutation of what they were, the
    node is afterwards found under the requested group at the requested index
    (one less when it left a slot before it in the same group, and clamped to
    the group), and the query still has distinct ids. *)
Theorem move_relocates q id parentId index q' :
  distinct_ids q -> moveFilterNodeTo q id parentId index = Some q' ->
  flattenFilterRules q' ≡ₚ flattenFilterRules q /\ ids_of q' ≡ₚ ids_of q /\
  distinct_ids q' /\
  exists n p i p', findFilterNode q id = Some (mkFound n (Some p) i) /\
    g_id p' = parentId /\
    let target := if String.eqb (g_id p) parentId && (i <? index)%Z
                  then (index - 1)%Z else index in
    findFilterNode q' id = Some (mkFound n (Some p')
      (Z.of_nat (clamp_index target (length (g_rules p') - 1)))).
Proof.
  intros Hd H. destruct (moveTo_perm _ _ _ _ _ Hd H) as [Hids Hfl].
  assert (Hd' : distinct_ids q') by (unfold distinct_ids; by rewrite Hids).
  split_and!; [done..|].
  destruct (moveTo_shape _ _ _ _ _ Hd H)
    as (c & p & b & n & a & c' & g & t & -> & Hp & <- & Hplug & Hg & -> & Ht).
  exists n, p, (Z.of_nat (length b)), (insert_rules n (Some t) g).
  split_and!; [by apply (find_plug c p b n a)|by rewrite insert_rules_split|].
  cbv zeta. rewrite <- Ht. rewrite insert_rules_split in Hd' |- *.
  rewrite (find_plug c' _ _ n _ Hd' eq_refl). f_equal. f_equal. f_equal.
  cbn [with_rules g_rules]. rewrite length_app, length_take. cbn [length].
  rewrite length_drop.
  pose proof (insert_at_le (Some t) g) as Hle.
  replace (insert_at (Some t) g + S (length (g_rules g) - insert_at (Some t) g) - 1)
    with (length (g_rules g)) by lia.
  rewrite Nat.min_l by done. f_equal.
  unfold insert_at in Hle |- *. unfold clamp_index. lia.
Qed.
Lemma move_relocates_witness :
  distinct_ids (settle sample (moveFilterNodeTo sample "f1" "f2" 1)) /\
  map r_id (flattenFilterRules (settle sample (moveFilterNodeTo sample "f1" "f2" 1)))
  = ["f3"; "f1"; "f4"; "f5"].
Proof.
  split; [|reflexivity].
  edestruct (move_relocates sample "f1" "f2" 1) as (_ & _ & H & _);
    [apply sample_distinct|reflexivity|exact H].
Defined.

(** Wrapping a node in a group under a fresh id and then dissolving that
    group gives back the query, whatever combinator the group had. *)
Theorem wrap_unwrap_roundtrip q id gid k n p i :
  distinct_ids q -> gid ∉ ids_of q ->
  findFilterNode q id = Some (mkFound n (Some p) i) ->
  exists q', wrapFilterNodeInGroup q id gid k = Some q' /\
    flattenFilterRules q' = flattenFilterRules q /\
    unwrapFilterGroup q' gid = Some q.
Proof.
  intros Hd Hfresh Hf. apply find_spec in Hf as (c & b & a & -> & Hp & <- & _).
  rewrite (wrap_plug c p b n a) by done. eexists. split; [done|]. split.
  - rewrite !flatten_plug. unfold flattenFilterRules. simpl.
    rewrite Hp, !List.flat_map_app. simpl. by rewrite app_nil_r.
  - set (g := mkGroup gid k [n]).
    assert (Hd' : distinct_ids (plug c (with_rules p (b ++ NGroup g :: a)))).
    { apply (distinct_ids_sub (plug c p) _ [gid]).
      - apply ids_plug_sub, perm_sub. rewrite !ids_group. simpl.
        rewrite Hp, !List.flat_map_app. simpl. rewrite app_nil_r. apply perm_skip.
        solve_Permutation.
      - apply NoDup_app. split_and!; [done| |by apply NoDup_singleton].
        by intros x Hx ->%list_elem_of_singleton. }
    change (unwrapFilterGroup (plug c (with_rules p (b ++ NGroup g :: a))) (g_id g)
            = Some (plug c p)).
    rewrite (unwrap_plug c _ b g a Hd' eq_refl). simpl. rewrite <- Hp.
    unfold with_rules. simpl. by destruct p.
Qed.
Lemma wrap_unwrap_roundtrip_witness :
  exists q', wrapFilterNodeInGroup sample "f4" "f9" CAnd = Some q' /\
    unwrapFilterGroup q' "f9" = Some sample.
Proof.
  edestruct (wrap_unwrap_roundtrip sample "f4" "f9" CAnd) as (q' & H1 & _ & H2);
    [apply sample_distinct| |reflexivity|].
  - apply (bool_decide_unpack _). vm_compute. exact I.
  - exists q'. exact (conj H1 H2).
Defined.

(** Updating a rule changes that rule and nothing else: the list of rules
    is the old one with the update applied at the id, the ids and the shape
    are untouched; an id that names a group or nothing changes nothing. *)
Theorem update_changes_one_rule q id u :
  distinct_ids q ->
  flattenFilterRules (settle q (updateFilterRule q id u))
    = map (fun r => if String.eqb (r_id r) id then apply_updates u r else r)
        (flattenFilterRules q) /\
  ids_of (settle q (updateFilterRule q id u)) = ids_of q.
Proof. apply update_spec. Qed.
Lemma update_changes_one_rule_witness :
  ids_of (settle sample (updateFilterRule sample "f4"
    (mkUpdates None (Some "is_not") None None))) = ids_of sample.
Proof. apply (update_changes_one_rule sample "f4"). apply sample_distinct. Defined.

(** Pruning keeps the rules and their order, leaves every group non-empty
    and no group wrapping a single group, invents no id, and is idempotent. *)
Theorem prune_normalises q :
  flattenFilterRules (pruneFilterQuery q) = flattenFilterRules q /\
  every normal (g_rules (pruneFilterQuery q)) = true /\
  ids_of (pruneFilterQuery q) `sublist_of` ids_of q /\
  pruneFilterQuery (pruneFilterQuery q) = pruneFilterQuery q.
Proof.
  destruct (prune_query_spec q) as (H1 & H2 & H3). split_and!; [done..|].
  unfold pruneFilterQuery at 1. rewrite (prune_children_normal _ H1).
  apply with_rules_id.
Qed.

(** C21: [collectFilterIssues] reports at most one issue for a node, in
    document order, and reports none exactly when every group below the root
    has a child and every rule the caller can judge has an operator and the
    value its arity asks for: both bounds of a range, comparable ones in
    order, or a value that is not blank and that the field's validator takes. *)
Theorem issues_complete date_parse arityOf validateOf q :
  map i_node (collectFilterIssues date_parse arityOf validateOf q) `sublist_of` ids_of q /\
  (collectFilterIssues date_parse arityOf validateOf q = [] <->
   every filled (g_rules q) = true /\
   Forall (well_posed date_parse arityOf validateOf) (flattenFilterRules q)).
Proof.
  split; [apply visit_ids|]. unfold collectFilterIssues. rewrite visit_nil. simpl. tauto.
Qed.

(** [countFilterRules] agrees with the flattened list. *)
Lemma count_flatten q : countFilterRules q = length (flattenFilterRules q).
Proof.
  enough (H : forall n c, count_walk n c = c + length (flatten_node n)) by apply H.
  intros n. induction n as [r|g IH] using FilterNode_ind'; intros c; simpl; [done|].
  revert c. induction IH as [|n l Hn _ IHl]; intros c; simpl; [lia|].
  rewrite IHl, Hn, length_app. lia.
Qed.

(** A copy says what the original said: duplicating adds the rules of the
    node once more, right after it, under ids of their own. *)
Lemma duplicate_flatten {St : Type} `{IdSupply St} q id (s : St) n p i q' :
  distinct_ids q -> findFilterNode q id = Some (mkFound n (Some p) i) ->
  (duplicateFilterNode q id s).1 = Some q' ->
  exists before copy after,
    flattenFilterRules q = before ++ flatten_node n ++ after /\
    flattenFilterRules q' = before ++ flatten_node n ++ flatten_node copy ++ after /\
    map rule_body (flatten_node copy) = map rule_body (flatten_node n).
Proof.
  intros Hd Hf. unfold duplicateFilterNode. rewrite Hf.
  apply find_spec in Hf as (c & b & a & -> & Hp & <- & ->).
  destruct (clone_spec n s) as [_ Hbody]. destruct (cloneFilterNode n s) as [copy s'].
  cbn [fst] in *. rewrite (insert_plug (g_id p) copy _ c p) by done. intros [= <-].
  exists (around_before (fun _ => []) flatten_node c ++ flat_map flatten_node b), copy,
    (flat_map flatten_node a ++ around_after flatten_node c).
  rewrite !flatten_plug, insert_rules_split. unfold flattenFilterRules.
  cbn [flatten_node with_rules g_rules].
  replace (insert_at (Some (Z.of_nat (length b) + 1)%Z) p) with (length (b ++ [n])).
  2:{ unfold insert_at, clamp_index. rewrite Hp, !length_app. simpl. lia. }
  rewrite Hp. replace (b ++ n :: a) with ((b ++ [n]) ++ a) by (by rewrite <- app_assoc).
  rewrite take_app_length, drop_app_length, !List.flat_map_app. simpl.
  rewrite app_nil_r, <- !app_assoc. done.
Qed.

(** Removing one node also drops an empty group that holds nothing of it. *)
Lemma remove_drops_unrelated_group :
  let q := createFilterQuery
    [NRule (sample_rule "f1" "is" (VStr "a")); NGroup (createFilterGroup "f2" (Some COr) None)]
    CAnd "root" in
  settle q (removeFilterNode q "f1") = createFilterQuery [] CAnd "root".
Proof. reflexivity. Qed.
