(* ===== verification/CascaderLib.v ===== *)
(** * The cascader's tree index

    [packages/ui/src/components/reui/cascader/cascader-lib.tsx]: the index
    built from nested or flat items, loaded pages folded into it, search,
    visible rows, path shortening and cascade selection.  A [while] loop that
    climbs [parentOf] under a [seen] guard and a walk of [childrenOf] under a
    [visited] guard run on fuel here; CascaderFacts shows the fuel is enough. *)
From S2P Require Import Prelude JsString JsValue JsMap.

(** ** Data *)

(** A node; an absent list reads as empty and an absent flag as false. *)
Inductive CascaderNode := CNode {
  cn_value : string;
  cn_label : string;
  cn_children : list CascaderNode;
  cn_hasChildren : bool;
  cn_count : option nat;
  cn_disabled : bool;
  cn_keywords : list string;
  cn_hasMore : bool
}.

Inductive CascaderSelectable :=
| SelLeaf | SelAny | SelFun (f : CascaderNode -> bool).
Inductive CascaderCollapse := CollapseMiddle | CollapseStart | CollapseNone.

Record CascaderIndex := mkIndex {
  byValue : jsmap CascaderNode;
  childrenOf : jsmap (list CascaderNode);
  parentOf : jsmap (option string);
  depthOf : jsmap nat;
  roots : list CascaderNode;
  all : list CascaderNode
}.

Record CascaderFlatNode := mkFlat {
  fn_node : CascaderNode;
  fn_depth : nat;
  fn_branch : bool;
  fn_expanded : bool;
  fn_setSize : nat;
  fn_posInSet : nat
}.
Inductive CascaderPathSegment :=
| SegNode (node : CascaderNode)
| SegEllipsis (hidden : list CascaderNode).

Definition CASCADER_ROOT_KEY : string := String nul "root".
Definition CASCADER_MORE_PREFIX : string := String nul "more:".

(** ** Paging rows *)
Definition createCascaderMoreNode (parentKey : string) (loadedCount : nat) : CascaderNode :=
  CNode (CASCADER_MORE_PREFIX +:+ parentKey) "" [] false (Some loadedCount) false [] false.
Definition isCascaderMoreNode (node : CascaderNode) : bool :=
  starts_with CASCADER_MORE_PREFIX (cn_value node).
Definition getCascaderMoreParent (node : CascaderNode) : option string :=
  if isCascaderMoreNode node
  then Some (str_drop (String.length CASCADER_MORE_PREFIX) (cn_value node)) else None.

(** ** Climbing *)

(** [parentOf.get(value) ?? null] *)
Definition parent_of (m : jsmap (option string)) (value : string) : option string :=
  match mget m value with Some p => p | None => None end.

(** [while (cursor != null && !seen.has(cursor)) { seen.add(cursor); ...; cursor =
    parentOf.get(cursor) ?? null }]: the cursors the body runs for, in order. *)
Fixpoint climb (fuel : nat) (m : jsmap (option string)) (seen : list string)
    (cursor : option string) : list string :=
  match fuel, cursor with
  | S f, Some c =>
      if sin c seen then [] else c :: climb f m (c :: seen) (parent_of m c)
  | _, _ => []
  end.
Definition climb_fuel (m : jsmap (option string)) : nat := S (S (length m)).
Definition ancestors (m : jsmap (option string)) (value : string) : list string :=
  climb (climb_fuel m) m [value] (parent_of m value).

(** ** Building the index *)
Definition push_child (m : jsmap (list CascaderNode)) (parentKey : string)
    (node : CascaderNode) : jsmap (list CascaderNode) :=
  match mget m parentKey with
  | Some bucket => mset m parentKey (bucket ++ [node])
  | None => mset m parentKey [node]
  end.

Definition empty_index : CascaderIndex := mkIndex [] [] [] [] [] [].

Definition with_roots (st : CascaderIndex) : CascaderIndex :=
  mkIndex (byValue st) (childrenOf st) (parentOf st) (depthOf st)
    (mget (childrenOf st) CASCADER_ROOT_KEY ?? []) (all st).

(** The nested shape. *)
Fixpoint walk_node (parent : option string) (depth : nat) (node : CascaderNode)
    (st : CascaderIndex) : CascaderIndex :=
  if mhas (byValue st) (cn_value node) then st
  else
    let st1 := mkIndex
      (mset (byValue st) (cn_value node) node)
      (push_child (childrenOf st) (parent ?? CASCADER_ROOT_KEY) node)
      (mset (parentOf st) (cn_value node) parent)
      (mset (depthOf st) (cn_value node) depth)
      (roots st) (all st ++ [node]) in
    fold_left (fun s child => walk_node (Some (cn_value node)) (S depth) child s)
      (cn_children node) st1.

(** The flat shape with [getParent]. *)
Section Flat.
Context (getParent : CascaderNode -> option string).

Definition flat_accept (st : jsmap CascaderNode * list CascaderNode) (node : CascaderNode)
    : jsmap CascaderNode * list CascaderNode :=
  if mhas st.1 (cn_value node) then st
  else (mset st.1 (cn_value node) node, st.2 ++ [node]).
Definition flat_parent (byValue : jsmap CascaderNode) (node : CascaderNode) : option string :=
  match getParent node with
  | Some raw => if mhas byValue raw then Some raw else None
  | None => None
  end.
Definition flat_link (byValue : jsmap CascaderNode)
    (st : jsmap (option string) * jsmap (list CascaderNode)) (node : CascaderNode)
    : jsmap (option string) * jsmap (list CascaderNode) :=
  let parent := flat_parent byValue node in
  (mset st.1 (cn_value node) parent, push_child st.2 (parent ?? CASCADER_ROOT_KEY) node).
Definition build_flat (items : list CascaderNode) : CascaderIndex :=
  let '(byValue, all) := fold_left flat_accept items ([], []) in
  let '(parentOf, childrenOf) := fold_left (flat_link byValue) all ([], []) in
  let depthOf := fold_left (fun m node =>
    mset m (cn_value node) (length (ancestors parentOf (cn_value node)))) all [] in
  mkIndex byValue childrenOf parentOf depthOf [] all.
End Flat.

Definition buildCascaderIndex (items : list CascaderNode)
    (getParent : option (CascaderNode -> option string)) : CascaderIndex :=
  with_roots
    match getParent with
    | Some f => build_flat f items
    | None => fold_left (fun s node => walk_node None 0 node s) items empty_index
    end.

(** ** Folding pages in *)
Record Merge := mkMerge {
  m_byValue : jsmap CascaderNode;
  m_childrenOf : jsmap (list CascaderNode);
  m_parentOf : jsmap (option string)
}.

Fixpoint merge_insert (parentKey : string) (node : CascaderNode) (st : Merge) : Merge :=
  if mhas (m_byValue st) (cn_value node) then st
  else
    let st1 := mkMerge
      (mset (m_byValue st) (cn_value node) node)
      (push_child (m_childrenOf st) parentKey node)
      (mset (m_parentOf st) (cn_value node)
         (if String.eqb parentKey CASCADER_ROOT_KEY then None else Some parentKey)) in
    fold_left (fun s child => merge_insert (cn_value node) child s) (cn_children node) st1.

(** Depth first over [childrenOf], each value once. *)
Fixpoint visit_all (fuel : nat) (children : jsmap (list CascaderNode))
    (node : CascaderNode) (st : list string * list CascaderNode)
    : list string * list CascaderNode :=
  match fuel with
  | 0 => st
  | S f =>
      if sin (cn_value node) st.1 then st
      else fold_left (fun s child => visit_all f children child s)
             (mget children (cn_value node) ?? [])
             (st.1 ++ [cn_value node], st.2 ++ [node])
  end.
(** One level more than there are rows in the buckets. *)
Definition walk_fuel (children : jsmap (list CascaderNode)) : nat :=
  S (S (length (flat_map snd children))).

Definition mergeCascaderIndex (base : CascaderIndex)
    (pages : jsmap (list CascaderNode)) (detached : option (jsmap CascaderNode))
    : CascaderIndex :=
  if Nat.eqb (length pages) 0 && Nat.eqb (length (detached ?? [])) 0 then base
  else
    let st := fold_left (fun s page =>
      fold_left (fun s' node => merge_insert page.1 node s') page.2 s) pages
      (mkMerge (byValue base) (childrenOf base) (parentOf base)) in
    let depths := fold_left (fun m value =>
      if mhas m value then m
      else mset m value (length (ancestors (m_parentOf st) value)))
      (mkeys (m_byValue st)) (depthOf base) in
    let roots := mget (m_childrenOf st) CASCADER_ROOT_KEY ?? [] in
    let walked := fold_left (fun s node =>
      visit_all (walk_fuel (m_childrenOf st)) (m_childrenOf st) node s) roots ([], []) in
    let orphans := bfilter (fun kv => negb (sin kv.1 walked.1)) (m_byValue st) in
    let byValue' := fold_left (fun m kv => if mhas m kv.1 then m else mset m kv.1 kv.2)
      (detached ?? []) (m_byValue st) in
    mkIndex byValue' (m_childrenOf st) (m_parentOf st) depths roots
      (walked.2 ++ map snd orphans).

(** ** Reading the index *)
Definition getCascaderChildren (index : CascaderIndex) (parent : option string)
    : list CascaderNode :=
  mget (childrenOf index) (parent ?? CASCADER_ROOT_KEY) ?? [].

Definition isCascaderBranch (index : CascaderIndex) (node : CascaderNode) : bool :=
  cn_hasChildren node ||
  negb (Nat.eqb (length (mget (childrenOf index) (cn_value node) ?? [])) 0).

Definition getCascaderCount (index : CascaderIndex) (node : CascaderNode) : nat :=
  match cn_count node with
  | Some n => n
  | None => length (mget (childrenOf index) (cn_value node) ?? [])
  end.

Definition disabled_at (index : CascaderIndex) (value : string) : bool :=
  match mget (byValue index) value with Some n => cn_disabled n | None => false end.

Definition isCascaderSelectable (index : CascaderIndex) (node : CascaderNode)
    (selectable : CascaderSelectable) : bool :=
  if isCascaderMoreNode node then false
  else if cn_disabled node then false
  else if some (disabled_at index) (ancestors (parentOf index) (cn_value node)) then false
  else match selectable with
       | SelFun f => f node
       | SelAny => true
       | SelLeaf => negb (isCascaderBranch index node)
       end.

(** The nodes of the cursors, up to the first that is not indexed. *)
Fixpoint known_nodes (m : jsmap CascaderNode) (cursors : list string) : list CascaderNode :=
  match cursors with
  | [] => []
  | c :: cs => match mget m c with Some n => n :: known_nodes m cs | None => [] end
  end.
Definition getCascaderPath (index : CascaderIndex) (value : option string)
    : list CascaderNode :=
  match value with
  | None => []
  | Some _ =>
      rev (known_nodes (byValue index)
             (climb (climb_fuel (parentOf index)) (parentOf index) [] value))
  end.

(** ** Search *)
Section Search.
(** [String.prototype.toLocaleLowerCase] of the host's locale. *)
Context (toLocaleLowerCase : string -> string).

Definition foldCascaderText (text : string) : string := toLocaleLowerCase text.
Definition normalizeCascaderQuery (query : string) : string := foldCascaderText (trim query).

Definition matchesCascaderQuery (node : CascaderNode) (normalized : string) : bool :=
  String.eqb normalized "" ||
  includes normalized (foldCascaderText (cn_label node)) ||
  some (fun keyword => includes normalized (foldCascaderText keyword)) (cn_keywords node).

Definition filterCascaderLevel (nodes : list CascaderNode) (query : string)
    (matches : CascaderNode -> string -> bool) : list CascaderNode :=
  let normalized := normalizeCascaderQuery query in
  if String.eqb normalized "" then nodes
  else bfilter (fun node => matches node normalized) nodes.

(** [isWithin]: the climb, with the memo of what earlier climbs found. *)
Fixpoint within_climb (fuel : nat) (m : jsmap (option string)) (within : string)
    (cursor : option string) (ancestry : jsmap bool) (trail : list string)
    : bool * jsmap bool * list string :=
  match fuel, cursor with
  | S f, Some c =>
      if String.eqb c within then (true, ancestry, trail)
      else match mget ancestry c with
           | Some cached => (cached, ancestry, trail)
           | None => within_climb f m within (parent_of m c) (mset ancestry c false) (trail ++ [c])
           end
  | _, _ => (false, ancestry, trail)
  end.
Definition isWithin (m : jsmap (option string)) (within : string) (node : CascaderNode)
    (ancestry : jsmap bool) : bool * jsmap bool :=
  let '(answer, ancestry', trail) :=
    within_climb (climb_fuel m) m within (parent_of m (cn_value node)) ancestry [] in
  (answer,
   if answer then fold_left (fun a v => mset a v true) trail ancestry' else ancestry').

(** The loop over [index.all], with its memo. *)
Fixpoint search_loop (m : jsmap (option string)) (within : option string) (limit : nat)
    (matches : CascaderNode -> string -> bool) (normalized : string)
    (nodes : list CascaderNode) (ancestry : jsmap bool) (results : list CascaderNode)
    : list CascaderNode :=
  match nodes with
  | [] => results
  | node :: rest =>
      if Nat.leb limit (length results) then results
      else if negb (matches node normalized)
      then search_loop m within limit matches normalized rest ancestry results
      else
        let '(inside, ancestry') :=
          match within with
          | None => (true, ancestry)
          | Some w => isWithin m w node ancestry
          end in
        search_loop m within limit matches normalized rest ancestry'
          (if inside then results ++ [node] else results)
  end.

Definition searchCascaderDeep (index : CascaderIndex) (query : string)
    (within : option string) (limit : nat) (matches : CascaderNode -> string -> bool)
    : list CascaderNode :=
  let normalized := normalizeCascaderQuery query in
  if String.eqb normalized "" then []
  else search_loop (parentOf index) within limit matches normalized (all index) [] [].
End Search.

(** ** Visible rows *)
Fixpoint flatten_level (fuel : nat) (index : CascaderIndex) (expanded : jsset)
    (sentinels : jsset) (nodes : list CascaderNode) (parentKey : string) (depth : nat)
    : list CascaderFlatNode :=
  match fuel with
  | 0 => []
  | S f =>
      let sentinel := sin parentKey sentinels in
      let setSize := length nodes + (if sentinel then 1 else 0) in
      (fix rows (i : nat) (l : list CascaderNode) : list CascaderFlatNode :=
         match l with
         | [] => []
         | node :: l' =>
             let branch := isCascaderBranch index node in
             let isExpanded := branch && sin (cn_value node) expanded in
             mkFlat node depth branch isExpanded setSize (i + 1)
             :: (if isExpanded
                 then flatten_level f index expanded sentinels
                        (mget (childrenOf index) (cn_value node) ?? []) (cn_value node) (S depth)
                 else [])
             ++ rows (S i) l'
         end) 0 nodes ++
      (if sentinel
       then [mkFlat (createCascaderMoreNode parentKey (length nodes)) depth false false
               setSize setSize]
       else [])
  end.
Definition flattenCascaderTree (index : CascaderIndex) (expanded sentinels : jsset)
    : list CascaderFlatNode :=
  flatten_level (walk_fuel (childrenOf index)) index expanded sentinels (roots index)
    CASCADER_ROOT_KEY 0.

(** ** Path shortening *)
Definition collapseCascaderPath (path : list CascaderNode) (maxSegments : Z)
    (collapse : CascaderCollapse) : list CascaderPathSegment :=
  let n := length path in
  let k := Z.to_nat maxSegments in
  match collapse with
  | CollapseNone => map SegNode path
  | _ =>
      if (maxSegments <=? 0)%Z || (Z.of_nat n <=? maxSegments)%Z then map SegNode path
      else match collapse with
           | CollapseStart =>
               SegEllipsis (take (n - k) path) :: map SegNode (drop (n - k) path)
           | _ =>
               let tailCount := k - 1 in
               let hidden := drop 1 (take (n - tailCount) path) in
               if Nat.eqb (length hidden) 0 then map SegNode path
               else map SegNode (take 1 path) ++ [SegEllipsis hidden]
                      ++ map SegNode (drop (n - tailCount) path)
           end
  end.

(** ** Cascade selection *)
Definition collectCascaderSubtree (index : CascaderIndex) (value : string)
    : list CascaderNode :=
  match mget (byValue index) value with
  | None => []
  | Some root =>
      (visit_all (walk_fuel (childrenOf index)) (childrenOf index) root ([], [])).2
  end.

Section Cascade.
Context (index : CascaderIndex) (isSelectable : CascaderNode -> bool).

Definition toggle_value (select : bool) (next : jsset) (value : string) : jsset :=
  if select then sadd next value else sdel next value.

Definition toggle_subtree (value : string) (select : bool) (next : jsset) : jsset :=
  let subtree := collectCascaderSubtree index value in
  let next := if Nat.eqb (length subtree) 0 then toggle_value select next value else next in
  fold_left (fun s node =>
    if negb (String.eqb (cn_value node) value) && negb (isSelectable node) then s
    else toggle_value select s (cn_value node)) subtree next.

Definition selectable_children (value : string) : list CascaderNode :=
  bfilter isSelectable (mget (childrenOf index) value ?? []).

(** Whether an ancestor may and must be in the selection. *)
Definition is_full (next : jsset) (cursor : string) : bool :=
  negb (Nat.eqb (length (selectable_children cursor)) 0) &&
  every (fun child => sin (cn_value child) next) (selectable_children cursor) &&
  match mget (byValue index) cursor with
  | Some parent => isSelectable parent
  | None => false
  end.
Definition reconcile (next : jsset) (cursor : string) : jsset :=
  if is_full next cursor then sadd next cursor else sdel next cursor.

Definition applyCascadeSelection (selected : list string) (value : string) (select : bool)
    : list string :=
  fold_left reconcile (ancestors (parentOf index) value)
    (toggle_subtree value select (set_of selected)).
End Cascade.

Definition getCascaderSelectedDescendants (index : CascaderIndex) (selected : list string)
    : jsmap nat :=
  fold_left (fun counts value =>
    fold_left (fun c cursor => mset c cursor ((mget c cursor ?? 0) + 1))
      (ancestors (parentOf index) value) counts) selected [].

Definition getCascaderIndeterminateFrom (counts : jsmap nat) (selected : list string)
    : jsset :=
  let selectedSet := set_of selected in
  fold_left (fun partial kv =>
    if Nat.ltb 0 kv.2 && negb (sin kv.1 selectedSet) then sadd partial kv.1 else partial)
    counts [].
Definition getCascaderIndeterminate (index : CascaderIndex) (selected : list string)
    : jsset :=
  getCascaderIndeterminateFrom (getCascaderSelectedDescendants index selected) selected.

Inductive CascaderCheckedStrategy := CheckedAll | CheckedParent | CheckedChild.
Definition getCascaderCheckedValues (index : CascaderIndex) (selected : list string)
    (strategy : CascaderCheckedStrategy) : list string :=
  let set := set_of selected in
  match strategy with
  | CheckedAll => selected
  | CheckedParent =>
      bfilter (fun value =>
        match parent_of (parentOf index) value with
        | None => true
        | Some parent => negb (sin parent set)
        end) selected
  | CheckedChild =>
      bfilter (fun value =>
        match mget (childrenOf index) value with
        | None | Some [] => true
        | Some children => negb (some (fun child => sin (cn_value child) set) children)
        end) selected
  end.

Definition findAmbiguousCascaderLabels (nodes : list CascaderNode) : jsset :=
  (fold_left (fun (st : jsmap string * jsset) node =>
     match mget st.1 (cn_label node) with
     | None => (mset st.1 (cn_label node) (cn_value node), st.2)
     | Some first => (st.1, sadd (sadd st.2 (cn_value node)) first)
     end) nodes ([], [])).2.

(** ** Development checks *)

(** [warnCascaderOnce]: the ledger of the module, and what reaches the console. *)
Definition warnCascaderOnce (production : bool) (warned : jsset) (key message : string)
    : jsset * option string :=
  if production then (warned, None)
  else if sin key warned then (warned, None)
  else (sadd warned key, Some ("[Cascader] " +:+ message)).

Record CascaderDataIssues := mkDataIssues { duplicates : list string; cycles : list string }.

Fixpoint visit_issue (node : CascaderNode)
    (st : jsset * jsset * list CascaderNode) : jsset * jsset * list CascaderNode :=
  let '(seen, dup, flat) := st in
  let st1 := if sin (cn_value node) seen then (seen, sadd dup (cn_value node), flat ++ [node])
             else (sadd seen (cn_value node), dup, flat ++ [node]) in
  fold_left (fun s child => visit_issue child s) (cn_children node) st1.

(** [while (cursor != null) { if (walked.has(cursor)) ...cycle }] *)
Fixpoint meets_cycle (fuel : nat) (m : jsmap (option string)) (walked : list string)
    (cursor : option string) : bool :=
  match fuel, cursor with
  | S f, Some c => if sin c walked then true else meets_cycle f m (c :: walked) (parent_of m c)
  | _, _ => false
  end.

Definition findCascaderDataIssues (items : list CascaderNode)
    (getParent : option (CascaderNode -> option string)) : CascaderDataIssues :=
  let '(seen, dup, flat) := fold_left (fun s n => visit_issue n s) items ([], [], []) in
  match getParent with
  | None => mkDataIssues dup []
  | Some f =>
      let parents := fold_left (fun m node =>
        if mhas m (cn_value node) then m
        else mset m (cn_value node)
               (match f node with
                | Some raw => if sin raw seen then Some raw else None
                | None => None
                end)) flat [] in
      mkDataIssues dup
        (map cn_value (bfilter (fun node =>
           meets_cycle (climb_fuel parents) parents [cn_value node]
             (parent_of parents (cn_value node))) flat))
  end.
