(* ===== verification/CascaderFacts.v ===== *)
(** * Lemmas of the cascader's index

    The climbing loops and the guarded walks run to completion on the fuel the
    model gives them; the index built from nested items is a tree; the memo of
    the deep search is sound. *)
From stdpp Require Import relations.
From S2P Require Import Prelude JsString JsMap CascaderLib.

(** ** Counting what a guard has not seen *)
Definition unseen (keys seen : list string) : nat :=
  length (bfilter (fun k => negb (sin k seen)) keys).

Lemma unseen_le keys seen : unseen keys seen <= length keys.
Proof. apply bfilter_length_le. Qed.

Lemma unseen_mono keys s s' : (forall x, x ∈ s -> x ∈ s') -> unseen keys s' <= unseen keys s.
Proof.
  intros H. unfold unseen. induction keys as [|k keys IH]; simpl; [done|].
  destruct (sin k s) eqn:E.
  - assert (sin k s' = true) as -> by (apply sin_elem, H, sin_elem; done). simpl. lia.
  - destruct (sin k s'); simpl; lia.
Qed.

Lemma unseen_lt keys s s' c :
  (forall x, x ∈ s -> x ∈ s') -> c ∈ keys -> c ∉ s -> c ∈ s' -> unseen keys s' < unseen keys s.
Proof.
  intros H Hc Hn Hs'. apply list_elem_of_split in Hc as (l & r & ->).
  unfold unseen. rewrite !List.filter_app, !length_app. simpl.
  assert (sin c s = false) as -> by by apply sin_false.
  assert (sin c s' = true) as -> by by apply sin_elem. simpl.
  pose proof (unseen_mono l s s' H). pose proof (unseen_mono r s s' H).
  unfold unseen in *. lia.
Qed.

(** ** Climbing *)
Notation parent_rel m := (fun a b : string => parent_of m a = Some b).

Lemma parent_of_key m a b : parent_of m a = Some b -> a ∈ mkeys m.
Proof. unfold parent_of. intros H. apply mget_keys. by destruct (mget m a). Qed.

(** What the loop does, with no bound on its steps. *)
Inductive climbs (m : jsmap (option string)) : list string -> option string -> list string -> Prop :=
| Climb_top seen : climbs m seen None []
| Climb_seen seen c : c ∈ seen -> climbs m seen (Some c) []
| Climb_step seen c l :
    c ∉ seen -> climbs m (c :: seen) (parent_of m c) l -> climbs m seen (Some c) (c :: l).

Lemma climb_complete m fuel seen cursor :
  unseen (mkeys m) seen < fuel -> climbs m seen cursor (climb fuel m seen cursor).
Proof.
  revert seen cursor. induction fuel as [|f IH]; intros seen cursor Hf; [lia|].
  destruct cursor as [c|]; simpl; [|constructor].
  destruct (sin c seen) eqn:E.
  - constructor. by apply sin_elem.
  - apply sin_false in E. constructor; [done|].
    destruct (parent_of m c) as [p|] eqn:Ep; [|destruct f; constructor].
    apply IH. eapply Nat.lt_le_trans; [|apply Nat.lt_succ_r, Hf].
    apply (unseen_lt _ _ _ c); [by right|by eapply parent_of_key|done|left].
Qed.

Lemma climb_runs m seen cursor : climbs m seen cursor (climb (climb_fuel m) m seen cursor).
Proof.
  apply climb_complete. unfold climb_fuel. pose proof (unseen_le (mkeys m) seen) as H.
  rewrite length_map in H. lia.
Qed.

Lemma ancestors_climbs m v : climbs m [v] (parent_of m v) (ancestors m v).
Proof. apply climb_runs. Qed.

Lemma climbs_sound m seen cursor l x :
  climbs m seen cursor l -> x ∈ l ->
  exists c, cursor = Some c /\ (x = c \/ tc (parent_rel m) c x).
Proof.
  induction 1 as [| |seen c l Hc _ IH]; [by intros ?%elem_of_nil..|].
  intros [->|Hx]%elem_of_cons; [by eauto|]. destruct (IH Hx) as (p & Hp & Hr).
  exists c. split; [done|]. right. destruct Hr as [->|Hr]; [by constructor|].
  by eapply tc_l.
Qed.

(** Along an acyclic parent map every ancestor is climbed through. *)
Section Ranked.
Context (m : jsmap (option string)) (rank : string -> nat).
Context (Hrank : forall a b, parent_of m a = Some b -> rank b < rank a).

Lemma tc_rank a b : tc (parent_rel m) a b -> rank b < rank a.
Proof. induction 1 as [a b H|a b c H _ IH]; apply Hrank in H; lia. Qed.

Lemma climbs_closed seen cursor l :
  (forall c, cursor = Some c -> forall s, s ∈ seen -> rank c < rank s) ->
  climbs m seen cursor l ->
  (forall c, cursor = Some c -> c ∈ l) /\
  (forall a b, a ∈ l -> parent_of m a = Some b -> b ∈ l) /\
  (forall a s, a ∈ l -> s ∈ seen -> rank a < rank s) /\ NoDup l.
Proof.
  intros Hs H. induction H as [|seen c Hc|seen c l Hc _ IH].
  - split_and!; [done|by intros ? ? ?%elem_of_nil|by intros ? ? ?%elem_of_nil|constructor].
  - specialize (Hs c eq_refl c Hc). lia.
  - destruct IH as (H1 & H2 & H3 & H4).
    { intros p Hp s [->|Hin]%elem_of_cons; [by apply Hrank|].
      apply Hrank in Hp. specialize (Hs c eq_refl s Hin). lia. }
    split_and!.
    + intros ? [= <-]. left.
    + intros a b [->|Ha]%elem_of_cons Hab; [right; by apply H1|]. right. by eapply H2.
    + intros a s [->|Ha]%elem_of_cons Hin; [by apply Hs|]. apply H3; [done|by right].
    + apply NoDup_cons. split; [|done]. intros Hin. specialize (H3 c c Hin). 
      assert (rank c < rank c) by (apply H3; left). lia.
Qed.

Lemma tc_closed (l : list string) a b :
  (forall c, parent_of m a = Some c -> c ∈ l) ->
  (forall x y, x ∈ l -> parent_of m x = Some y -> y ∈ l) ->
  tc (parent_rel m) a b -> b ∈ l.
Proof.
  intros Ha Hl H. induction H as [a b Hab|a b c Hab _ IH]; [by apply Ha|].
  apply IH. intros d Hd. eapply Hl; [|done]. by apply Ha.
Qed.

Lemma ancestors_tc v x : x ∈ ancestors m v <-> tc (parent_rel m) v x.
Proof.
  pose proof (ancestors_climbs m v) as Hc. split.
  - intros Hx. destruct (climbs_sound _ _ _ _ _ Hc Hx) as (c & Hp & [->|Ht]);
      [by constructor|by eapply tc_l].
  - destruct (climbs_closed [v] _ _ ltac:(intros c Hp s ->%list_elem_of_singleton; by apply Hrank) Hc)
      as (H1 & H2 & _).
    by apply tc_closed.
Qed.
End Ranked.

(** ** The guarded walk *)
Section Visit.
Context (children : jsmap (list CascaderNode)).
Notation bucket k := (mget children k ?? []).
Notation rows := (map cn_value (flat_map snd children)).

(** [x] is the value of a node under [v], [v] itself included. *)
Inductive reach (v : string) : string -> Prop :=
| Reach_self : reach v v
| Reach_child x c : reach v x -> c ∈ bucket x -> reach v (cn_value c).

Lemma reach_trans a b c : reach a b -> reach b c -> reach a c.
Proof. intros Hab. induction 1; [done|]. by econstructor. Qed.

Lemma bucket_rows k c : c ∈ bucket k -> cn_value c ∈ rows.
Proof.
  intros H. apply list_elem_of_fmap. exists c. split; [done|].
  apply elem_of_flat_map. destruct (mget children k) as [l|] eqn:E; [|by apply elem_of_nil in H].
  exists (k, l). split; [|done]. clear H. induction children as [|[i w] m IH]; simpl in *; [done|].
  destruct (String.eqb_spec i k) as [->|]; [injection E as ->; left|right; by apply IH].
Qed.

Record visited (v : string) (st st' : list string * list CascaderNode) : Prop := {
  vis_keep : forall x, x ∈ st.1 -> x ∈ st'.1;
  vis_self : v ∈ st'.1;
  vis_closed : forall x, x ∈ st'.1 -> x ∈ st.1 \/ forall c, c ∈ bucket x -> cn_value c ∈ st'.1;
  vis_reach : forall x, x ∈ st'.1 -> x ∈ st.1 \/ reach v x
}.

Lemma visit_fold f v l st :
  (forall c s, c ∈ l -> (forall x, x ∈ st.1 -> x ∈ s.1) ->
     visited (cn_value c) s (visit_all f children c s)) ->
  (forall c, c ∈ l -> reach v (cn_value c)) ->
  let st' := fold_left (fun s c => visit_all f children c s) l st in
  (forall x, x ∈ st.1 -> x ∈ st'.1) /\ (forall c, c ∈ l -> cn_value c ∈ st'.1) /\
  (forall x, x ∈ st'.1 -> x ∈ st.1 \/ forall c, c ∈ bucket x -> cn_value c ∈ st'.1) /\
  (forall x, x ∈ st'.1 -> x ∈ st.1 \/ reach v x).
Proof.
  revert st. induction l as [|c l IH]; intros st Hv Hr; simpl.
  - split_and!; [done|by intros ? ?%elem_of_nil|by left|by left].
  - destruct (Hv c st) as [K Hself C R]; [left|done|].
    destruct (IH (visit_all f children c st)) as (K' & Hself' & C' & R').
    { intros c' s Hc' Hs. apply Hv; [by right|]. naive_solver. }
    { intros c' Hc'. apply Hr. by right. }
    split_and!.
    + naive_solver.
    + intros c' [->|Hc']%elem_of_cons; [by apply K'|by apply Hself'].
    + intros x Hx. destruct (C' x Hx) as [Hx'|]; [|by right].
      destruct (C x Hx') as [|Hcl]; [by left|]. right. intros c' Hc'. by apply K', Hcl.
    + intros x Hx. destruct (R' x Hx) as [Hx'|]; [|by right].
      destruct (R x Hx') as [|Hr']; [by left|right].
      eapply reach_trans; [|done]. apply Hr. left.
Qed.

Lemma visit_complete fuel node st :
  (cn_value node ∈ rows \/ unseen rows st.1 + 1 < fuel) -> unseen rows st.1 < fuel ->
  visited (cn_value node) st (visit_all fuel children node st).
Proof.
  revert node st. induction fuel as [|f IH]; intros node st Hrow Hf; [lia|]. simpl.
  destruct (sin (cn_value node) st.1) eqn:E.
  { apply sin_elem in E. constructor; naive_solver. }
  apply sin_false in E. set (st1 := (st.1 ++ [cn_value node], st.2 ++ [node])).
  assert (Hst1 : forall x, x ∈ st.1 -> x ∈ st1.1) by (intros; simpl; set_solver).
  assert (Hf1 : unseen rows st1.1 < f).
  { destruct Hrow as [Hrow|Hrow].
    - eapply Nat.lt_le_trans; [|apply Nat.lt_succ_r, Hf].
      apply (unseen_lt _ _ _ (cn_value node)); [done..|]. simpl. set_solver.
    - pose proof (unseen_mono rows st.1 st1.1 Hst1). lia. }
  destruct (visit_fold f (cn_value node) (bucket (cn_value node)) st1) as (K & Hself & C & R).
  { intros c s Hc Hs. apply IH; [left; by eapply bucket_rows|].
    pose proof (unseen_mono rows st1.1 s.1 Hs). lia. }
  { intros c Hc. econstructor; [constructor|done]. }
  constructor.
  - naive_solver.
  - apply K. simpl. set_solver.
  - intros x Hx. destruct (C x Hx) as [Hx'|]; [|by right].
    simpl in Hx'. rewrite elem_of_app, list_elem_of_singleton in Hx'.
    destruct Hx' as [|Hx']; [by left|subst x; right]. exact Hself.
  - intros x Hx. destruct (R x Hx) as [Hx'|]; [|by right].
    simpl in Hx'. rewrite elem_of_app, list_elem_of_singleton in Hx'.
    destruct Hx' as [|Hx']; [by left|subst x; right; constructor].
Qed.

Lemma visit_values fuel node st :
  map cn_value st.2 = st.1 -> NoDup st.1 ->
  map cn_value (visit_all fuel children node st).2 = (visit_all fuel children node st).1 /\
  NoDup (visit_all fuel children node st).1.
Proof.
  revert node st. induction fuel as [|f IH]; intros node st Hst Hnd; [done|]. simpl.
  destruct (sin (cn_value node) st.1) eqn:E; [done|]. apply sin_false in E.
  assert (H1 : map cn_value (st.2 ++ [node]) = st.1 ++ [cn_value node]) by (by rewrite map_app, Hst).
  assert (H2 : NoDup (st.1 ++ [cn_value node])).
  { apply NoDup_app. split_and!; [done| |apply NoDup_singleton].
    by intros x Hx ->%list_elem_of_singleton. }
  generalize (bucket (cn_value node)). intros l.
  change (map cn_value (st.1 ++ [cn_value node], st.2 ++ [node]).2
    = (st.1 ++ [cn_value node], st.2 ++ [node]).1) in H1.
  change (NoDup (st.1 ++ [cn_value node], st.2 ++ [node]).1) in H2.
  revert H1 H2. generalize (st.1 ++ [cn_value node], st.2 ++ [node]).
  induction l as [|c l IHl]; intros s H1 H2; simpl; [done|].
  destruct (IH c s H1 H2). by apply IHl.
Qed.

(** The nodes walked are the root and rows of the buckets. *)
Lemma visit_nodes fuel node st n :
  n ∈ (visit_all fuel children node st).2 ->
  n ∈ st.2 \/ n = node \/ exists k, n ∈ bucket k.
Proof.
  revert node st. induction fuel as [|f IH]; intros node st; simpl; [by left|].
  destruct (sin (cn_value node) st.1); [by left|].
  intros H. enough (n ∈ st.2 ++ [node] \/ exists k, n ∈ bucket k) as Hn by set_solver.
  change (st.2 ++ [node]) with (st.1 ++ [cn_value node], st.2 ++ [node]).2.
  assert (Hl : forall c, c ∈ bucket (cn_value node) -> exists k, c ∈ bucket k) by eauto.
  revert Hl H. generalize (bucket (cn_value node)).
  generalize (st.1 ++ [cn_value node], st.2 ++ [node]).
  intros s l. revert s. induction l as [|c l IHl]; intros s Hl H; simpl in *; [by left|].
  destruct (IHl (visit_all f children c s)) as [Hin|]; [|done| |by right].
  - intros c' Hc'. apply Hl. by right.
  - destruct (IH _ _ Hin) as [|[->|]]; [by left| |by right]. right. apply Hl. left.
Qed.
End Visit.
