(* ===== verification/CascaderLaws.v ===== *)
(** * The properties of the cascader's index

    The index of nested items is a tree with first-wins values; the memoised
    deep search agrees with its definition; cascade selection keeps the full
    closure the stored value promises; shortening a path hides, never loses. *)
From stdpp Require Import relations.
From S2P Require Import Prelude JsString JsMap CascaderLib CascaderFacts.

Notation bucket idx k := (mget (childrenOf idx) k ?? []).

(** ** A tree of nodes *)
Record tree_index (idx : CascaderIndex) (rank : string -> nat) : Prop := {
  ti_bucket : forall k c, c ∈ bucket idx k -> mget (byValue idx) (cn_value c) = Some c /\
    (parent_of (parentOf idx) (cn_value c) ?? CASCADER_ROOT_KEY) = k;
  ti_parent : forall v p, parent_of (parentOf idx) v = Some p ->
    p <> CASCADER_ROOT_KEY /\ exists c, cn_value c = v /\ c ∈ bucket idx p;
  ti_rank : forall v p, parent_of (parentOf idx) v = Some p -> rank p < rank v;
  ti_value : forall v n, mget (byValue idx) v = Some n -> cn_value n = v /\ v <> CASCADER_ROOT_KEY
}.

(** *** The nested build *)
Lemma CascaderNode_ind' (P : CascaderNode -> Prop) :
  (forall v l ch h n d k m, Forall P ch -> P (CNode v l ch h n d k m)) -> forall n, P n.
Proof.
  intros H. fix IH 1. intros [v l ch h n d k m]. apply H.
  induction ch as [|c ch IHc]; constructor; [apply IH|apply IHc].
Qed.

(** No value of the items is the reserved root key. *)
Fixpoint unreserved (n : CascaderNode) : bool :=
  negb (String.eqb (cn_value n) CASCADER_ROOT_KEY) && every unreserved (cn_children n).

Definition rank_in (st : CascaderIndex) (v : string) : nat := mget (depthOf st) v ?? 0.

(** What the walk maintains. *)
Record building (st : CascaderIndex) : Prop := {
  b_values : byValue st = map (fun n => (cn_value n, n)) (all st);
  b_nodup : NoDup (mkeys (byValue st));
  b_value : forall v n, mget (byValue st) v = Some n -> cn_value n = v /\ v <> CASCADER_ROOT_KEY;
  b_depth : forall v, mhas (byValue st) v = mhas (depthOf st) v;
  b_known : forall v, mhas (byValue st) v = mhas (parentOf st) v;
  b_bucket : forall k c, c ∈ bucket st k -> mget (byValue st) (cn_value c) = Some c /\
    (parent_of (parentOf st) (cn_value c) ?? CASCADER_ROOT_KEY) = k;
  b_parent : forall v p, parent_of (parentOf st) v = Some p ->
    p <> CASCADER_ROOT_KEY /\ mhas (byValue st) p = true /\ rank_in st v = S (rank_in st p);
  b_child : forall v n, mget (byValue st) v = Some n ->
    n ∈ bucket st (parent_of (parentOf st) v ?? CASCADER_ROOT_KEY)
}.

(** Later steps keep what is indexed. *)
Definition extends (st st' : CascaderIndex) : Prop :=
  (forall v n, mget (byValue st) v = Some n -> mget (byValue st') v = Some n) /\
  (forall v d, mget (depthOf st) v = Some d -> mget (depthOf st') v = Some d).

Lemma extends_refl st : extends st st.
Proof. done. Qed.
Lemma extends_trans a b c : extends a b -> extends b c -> extends a c.
Proof. intros [H1 H2] [H3 H4]. split; eauto. Qed.
Lemma extends_has st st' v : extends st st' -> mhas (byValue st) v = true -> mhas (byValue st') v = true.
Proof. intros [H _] [n Hn]%mhas_spec. apply mhas_spec. rewrite (H v n Hn). eauto. Qed.

Lemma bucket_push m k node k' :
  mget (push_child m k node) k' ?? []
  = (mget m k' ?? []) ++ (if String.eqb k k' then [node] else []).
Proof.
  unfold push_child. destruct (mget m k) as [l|] eqn:E; rewrite mget_set;
    destruct (String.eqb_spec k k') as [<-|]; rewrite ?E, ?app_nil_r; done.
Qed.

(** The single step of the walk: a value not seen yet. *)
Definition accept (parent : option string) (depth : nat) (node : CascaderNode)
    (st : CascaderIndex) : CascaderIndex :=
  mkIndex
    (mset (byValue st) (cn_value node) node)
    (push_child (childrenOf st) (parent ?? CASCADER_ROOT_KEY) node)
    (mset (parentOf st) (cn_value node) parent)
    (mset (depthOf st) (cn_value node) depth)
    (roots st) (all st ++ [node]).

Definition placed (st : CascaderIndex) (parent : option string) (depth : nat) : Prop :=
  match parent with
  | None => depth = 0
  | Some p => p <> CASCADER_ROOT_KEY /\ exists d, mget (depthOf st) p = Some d /\ depth = S d
  end.

Section Accept.
Context (parent : option string) (depth : nat) (node : CascaderNode) (st : CascaderIndex).
Context (B : building st) (Hp : placed st parent depth).
Context (Hnew : mget (byValue st) (cn_value node) = None).
Notation v := (cn_value node).
Notation st' := (accept parent depth node st).

Lemma accept_fresh : mget (depthOf st) v = None /\ mget (parentOf st) v = None /\ parent <> Some v.
Proof using B Hp Hnew.
  assert (Hdn : mget (depthOf st) v = None).
  { apply mhas_false. rewrite <- (b_depth st B). by apply mhas_false. }
  split_and!; [done| |].
  - apply mhas_false. rewrite <- (b_known st B). by apply mhas_false.
  - intros ->. destruct Hp as (_ & d & Hd & _). congruence.
Qed.

Lemma accept_parent_of x : parent_of (parentOf st') x =
  if String.eqb v x then parent else parent_of (parentOf st) x.
Proof using. unfold parent_of. simpl. rewrite mget_set. by destruct (String.eqb v x). Qed.

Lemma accept_bucket k c : c ∈ bucket st' k ->
  mget (byValue st') (cn_value c) = Some c /\
  (parent_of (parentOf st') (cn_value c) ?? CASCADER_ROOT_KEY) = k.
Proof using B Hnew.
  rewrite accept_parent_of. simpl. rewrite bucket_push, elem_of_app. intros [Hc|Hc].
  - destruct (b_bucket st B _ _ Hc) as [H1 H2].
    rewrite mget_set. destruct (String.eqb_spec v (cn_value c)); [congruence|done].
  - destruct (String.eqb_spec (parent ?? CASCADER_ROOT_KEY) k) as [<-|];
      [|by apply elem_of_nil in Hc].
    apply list_elem_of_singleton in Hc as ->. by rewrite mget_set_eq, String.eqb_refl.
Qed.

Lemma accept_parent x p : parent_of (parentOf st') x = Some p ->
  p <> CASCADER_ROOT_KEY /\ mhas (byValue st') p = true /\ rank_in st' x = S (rank_in st' p).
Proof using B Hp Hnew.
  destruct accept_fresh as (Hdn & Hpn & Hpne).
  rewrite accept_parent_of. unfold rank_in. simpl.
  destruct (String.eqb_spec v x) as [<-|Hvx].
  - intros ->. destruct Hp as (Hpr & d & Hd & ->). split; [done|].
    assert (v <> p) by congruence. unfold mhas.
    rewrite mget_set_ne, mget_set_eq, mget_set_ne, Hd by done. split; [|done].
    change (mhas (byValue st) p = true). rewrite (b_depth st B). apply mhas_spec. eauto.
  - intros Hx. destruct (b_parent st B _ _ Hx) as (H1 & H2 & H3). split; [done|].
    assert (v <> p). { intros <-. apply mhas_spec in H2 as [? ?]. congruence. }
    unfold mhas. by rewrite !mget_set_ne.
Qed.

Lemma accept_building : v <> CASCADER_ROOT_KEY -> building st' /\ extends st st'.
Proof using B Hp Hnew.
  intros Hroot. destruct accept_fresh as (Hdn & Hpn & Hpne). split.
  - constructor.
    + simpl. rewrite mset_keys_new, map_app by done. by rewrite (b_values st B) at 1.
    + apply mset_NoDup, B.
    + intros x n. simpl. rewrite mget_set. destruct (String.eqb_spec v x) as [<-|].
      * intros [= <-]. done.
      * apply B.
    + intros x. simpl. unfold mhas. rewrite !mget_set. destruct (String.eqb v x); [done|]. apply B.
    + intros x. simpl. unfold mhas. rewrite !mget_set. destruct (String.eqb v x); [done|]. apply B.
    + apply accept_bucket.
    + apply accept_parent.
    + intros x n. rewrite accept_parent_of. simpl. rewrite mget_set.
      destruct (String.eqb_spec v x) as [<-|].
      * intros [= <-]. rewrite bucket_push, String.eqb_refl, elem_of_app. right. left.
      * intros Hx. rewrite bucket_push, elem_of_app. left. by apply B.
  - split; simpl; intros x y Hx; rewrite mget_set_ne; try done; congruence.
Qed.
End Accept.

Lemma placed_extends st st' p d : extends st st' -> placed st p d -> placed st' p d.
Proof. intros [_ H]. destruct p as [p|]; simpl; [|done]. naive_solver. Qed.

Lemma walk_building node parent depth st :
  unreserved node = true -> building st -> placed st parent depth ->
  building (walk_node parent depth node st) /\ extends st (walk_node parent depth node st).
Proof.
  revert parent depth st.
  induction node as [v l ch h n d k m IH] using CascaderNode_ind'.
  intros parent depth st Hu B Hp. simpl in Hu |- *.
  destruct (mhas (byValue st) v) eqn:E; [done|]. apply mhas_false in E.
  apply andb_true_iff in Hu as [Hv Hch].
  assert (Hroot : v <> CASCADER_ROOT_KEY)
    by (intros ->; by rewrite String.eqb_refl in Hv).
  set (node := CNode v l ch h n d k m).
  destruct (accept_building parent depth node st B Hp E Hroot) as [B1 E1].
  change (building (fold_left (fun s c => walk_node (Some v) (S depth) c s) ch
            (accept parent depth node st)) /\
          extends st (fold_left (fun s c => walk_node (Some v) (S depth) c s) ch
            (accept parent depth node st))).
  assert (Hp1 : placed (accept parent depth node st) (Some v) (S depth)).
  { simpl. split; [done|]. exists depth. split; [apply mget_set_eq|done]. }
  clear Hv. revert B1 E1 Hp1. generalize (accept parent depth node st). clear B Hp E.
  induction IH as [|c ch' Hc _ IHl]; intros st1 B1 E1 Hp1; simpl in *; [done|].
  apply andb_true_iff in Hch as [Hc1 Hc2].
  destruct (Hc (Some v) (S depth) st1 Hc1 B1 Hp1) as [B2 E2].
  apply IHl; [done|done|by eapply extends_trans|].
  exact (placed_extends _ _ (Some v) (S depth) E2 Hp1).
Qed.

(** *** What the nested build indexes *)
(** The nodes in the order a depth-first reading meets them. *)
Fixpoint preorder (n : CascaderNode) : list CascaderNode :=
  n :: flat_map preorder (cn_children n).
Notation preorders ns := (flat_map preorder ns).

Definition parent_key (st : CascaderIndex) (n : CascaderNode) : string :=
  parent_of (parentOf st) (cn_value n) ?? CASCADER_ROOT_KEY.
(** The maps record the accepted nodes, in order. *)
Record recorded (st : CascaderIndex) : Prop := {
  r_values : byValue st = map (fun n => (cn_value n, n)) (all st);
  r_buckets : forall k, bucket st k = bfilter (fun n => String.eqb (parent_key st n) k) (all st)
}.

Lemma recorded_has st v : recorded st ->
  mhas (byValue st) v = true <-> exists n, n ∈ all st /\ cn_value n = v.
Proof.
  intros [Hv _]. rewrite mhas_spec, <- mget_keys, Hv. rewrite map_map.
  rewrite list_elem_of_fmap. naive_solver.
Qed.

Lemma accept_recorded parent depth node st :
  recorded st -> mhas (byValue st) (cn_value node) = false -> recorded (accept parent depth node st).
Proof.
  intros R Hnew. pose proof R as [Hv Hb]. constructor.
  - simpl. rewrite mset_keys_new, map_app by by apply mhas_false. by rewrite Hv at 1.
  - intros k. cbn [accept childrenOf all]. rewrite bucket_push, Hb, List.filter_app.
    unfold parent_key. f_equal.
    + apply List.filter_ext_in. intros n Hn%list_elem_of_In. rewrite accept_parent_of.
      destruct (String.eqb_spec (cn_value node) (cn_value n)) as [He|]; [|done].
      exfalso. enough (mhas (byValue st) (cn_value node) = true) by congruence.
      apply (recorded_has st); [done|]. by exists n.
    + cbn [List.filter]. rewrite accept_parent_of, String.eqb_refl.
      by destruct (String.eqb _ k).
Qed.

(** Walking the forest [ns] under [parent], at [depth], took the index from [st]
    to [st'], adding [new]. *)
Record grown (parent : option string) (depth : nat) (ns : list CascaderNode) (st st' : CascaderIndex)
    (new : list CascaderNode) : Prop := {
  g_recorded : recorded st';
  g_all : all st' = all st ++ new;
  g_order : sublist new (preorders ns);
  g_met : forall c, (c ∈ ns \/ exists m, m ∈ new /\ c ∈ cn_children m) ->
    exists m a b, m ∈ all st' /\ cn_value m = cn_value c /\ preorders ns = a ++ c :: b /\
      (m = c \/ m ∈ all st \/ m ∈ a);
  g_parent : forall c, c ∈ new ->
    (c ∈ ns /\ mget (parentOf st') (cn_value c) = Some parent /\
     mget (depthOf st') (cn_value c) = Some depth) \/
    exists q, q ∈ new /\ c ∈ cn_children q /\
      mget (parentOf st') (cn_value c) = Some (Some (cn_value q));
  g_frame : forall v, mhas (byValue st) v = true ->
    mget (parentOf st') v = mget (parentOf st) v /\ mget (depthOf st') v = mget (depthOf st) v;
  g_whole : NoDup (map cn_value (all st ++ preorders ns)) -> new = preorders ns
}.

Lemma grown_none parent depth st : recorded st -> grown parent depth [] st st [].
Proof.
  intros R. constructor; try done; [by rewrite app_nil_r|..].
  - intros c [?%elem_of_nil|(m & ?%elem_of_nil & _)]; done.
  - by intros c ?%elem_of_nil.
Qed.

Lemma grown_cons parent depth n ns st st1 st2 new1 new2 :
  recorded st -> grown parent depth [n] st st1 new1 -> grown parent depth ns st1 st2 new2 ->
  grown parent depth (n :: ns) st st2 (new1 ++ new2).
Proof.
  intros R G1 G2. assert (Hp : preorders (n :: ns) = preorders [n] ++ preorders ns)
    by (simpl; by rewrite app_nil_r).
  pose proof (g_all _ _ _ _ _ _ G1) as A1. pose proof (g_all _ _ _ _ _ _ G2) as A2.
  constructor.
  - apply G2.
  - by rewrite A2, A1, app_assoc.
  - rewrite Hp. apply sublist_app; [apply G1|apply G2].
  - intros c Hc. rewrite Hp.
    assert (Hc' : (c ∈ [n] \/ exists m, m ∈ new1 /\ c ∈ cn_children m) \/
      (c ∈ ns \/ exists m, m ∈ new2 /\ c ∈ cn_children m)).
    { destruct Hc as [[->|Hc]%elem_of_cons|(m & [Hm|Hm]%elem_of_app & Hc)];
        [left; left; left|right; by left|left; right; eauto|right; right; eauto]. }
    destruct Hc' as [Hc'|Hc'].
    + destruct (g_met _ _ _ _ _ _ G1 c Hc') as (m & a & b & H1 & H2 & -> & H3).
      exists m, a, (b ++ preorders ns). rewrite A2, elem_of_app, <- app_assoc. naive_solver.
    + destruct (g_met _ _ _ _ _ _ G2 c Hc') as (m & a & b & H1 & H2 & -> & H3).
      exists m, (preorders [n] ++ a), b. rewrite <- app_assoc, elem_of_app.
      split_and!; [done..|]. destruct H3 as [->|[H3|H3]]; [by left| |auto].
      right. rewrite A1, elem_of_app in H3. destruct H3 as [H3|H3]; [by left|right; left].
      eapply elem_of_submseteq; [done|]. apply sublist_submseteq, G1.
  - intros c [Hc|Hc]%elem_of_app.
    + assert (Hf : mget (parentOf st2) (cn_value c) = mget (parentOf st1) (cn_value c) /\
        mget (depthOf st2) (cn_value c) = mget (depthOf st1) (cn_value c)).
      { apply (g_frame _ _ _ _ _ _ G2), (recorded_has st1); [apply G1|]. exists c.
        split; [|done]. rewrite A1, elem_of_app. by right. }
      destruct Hf as [-> ->]. destruct (g_parent _ _ _ _ _ _ G1 c Hc) as [[->%list_elem_of_singleton H]|(q & Hq & Hcq)].
      * left. split; [left|done].
      * right. exists q. rewrite elem_of_app. auto.
    + destruct (g_parent _ _ _ _ _ _ G2 c Hc) as [[Hin H]|(q & Hq & Hcq)].
      * left. split; [by right|done].
      * right. exists q. rewrite elem_of_app. auto.
  - intros v Hv. destruct (g_frame _ _ _ _ _ _ G2 v) as [-> ->]; [|by apply G1].
    apply (recorded_has st1); [apply G1|]. apply (recorded_has st) in Hv as (n' & Hn' & <-); [|done].
    exists n'. rewrite A1, elem_of_app. auto.
  - rewrite Hp. intros Hnd. rewrite app_assoc in Hnd.
    assert (new1 = preorders [n]) as E.
    { apply G1. rewrite map_app in Hnd. by apply NoDup_app in Hnd as [? _]. }
    rewrite E. f_equal. apply G2. by rewrite A1, E.
Qed.

Lemma build_building items :
  every unreserved items = true ->
  building (fold_left (fun s node => walk_node None 0 node s) items empty_index).
Proof.
  assert (B0 : building empty_index).
  { constructor; simpl; try done; [constructor|..]; by intros ? ? ?%elem_of_nil. }
  revert B0. generalize empty_index. induction items as [|n items IH]; intros st B Hu; [done|].
  simpl in *. apply andb_true_iff in Hu as [Hn Hu]. apply IH; [|done].
  by apply walk_building.
Qed.

Lemma building_with_roots st : building st -> building (with_roots st).
Proof. intros []. by constructor. Qed.

Lemma build_tree items :
  every unreserved items = true ->
  tree_index (buildCascaderIndex items None) (rank_in (buildCascaderIndex items None)).
Proof.
  intros Hu. pose proof (building_with_roots _ (build_building items Hu)) as B.
  change (building (buildCascaderIndex items None)) in B.
  set (idx := buildCascaderIndex items None) in *. constructor.
  - apply B.
  - intros v p Hp. destruct (b_parent _ B _ _ Hp) as (H1 & H2 & H3). split; [done|].
    assert (Hv : mhas (byValue idx) v = true).
    { rewrite (b_known _ B). apply mhas_spec. unfold parent_of in Hp.
      by destruct (mget (parentOf idx) v). }
    apply mhas_spec in Hv as [c Hc]. exists c. split; [by apply (b_value _ B)|].
    pose proof (b_child _ B _ _ Hc) as Hin. by rewrite Hp in Hin.
  - intros v p Hp. destruct (b_parent _ B _ _ Hp) as (_ & _ & H3). lia.
  - apply B.
Qed.

Lemma preorders_one n : preorders [n] = n :: preorders (cn_children n).
Proof. simpl. rewrite app_nil_r. by destruct n. Qed.

Lemma grown_skip parent depth n st : recorded st -> mhas (byValue st) (cn_value n) = true ->
  grown parent depth [n] st st [].
Proof.
  intros R (m & Hm & Hv)%(recorded_has st); [|done]. constructor; try done.
  - by rewrite app_nil_r.
  - apply sublist_nil_l.
  - intros c [->%list_elem_of_singleton|(q & ?%elem_of_nil & _)]; [|done].
    exists m, [], (preorders (cn_children n)). rewrite preorders_one.
    split_and!; [done..|]. right. by left.
  - by intros c ?%elem_of_nil.
  - intros Hnd. exfalso. rewrite map_app in Hnd. apply NoDup_app in Hnd as (_ & Hd & _).
    apply (Hd (cn_value n)); [rewrite <- Hv; by apply list_elem_of_fmap_2|].
    rewrite preorders_one. left.
Qed.

Lemma grown_accept parent depth n st st' new : recorded st ->
  mhas (byValue st) (cn_value n) = false ->
  grown (Some (cn_value n)) (S depth) (cn_children n) (accept parent depth n st) st' new ->
  grown parent depth [n] st st' (n :: new).
Proof.
  intros R Hnew G. pose proof (g_all _ _ _ _ _ _ G) as A. simpl in A.
  pose proof (preorders_one n) as Hp.
  assert (Hn : mget (parentOf st') (cn_value n) = Some parent /\
    mget (depthOf st') (cn_value n) = Some depth).
  { destruct (g_frame _ _ _ _ _ _ G (cn_value n)) as [-> ->];
      [|by split; apply mget_set_eq].
    apply mhas_spec. simpl. rewrite mget_set_eq. eauto. }
  constructor.
  - apply G.
  - by rewrite A, <- app_assoc.
  - rewrite Hp. apply sublist_skip, G.
  - intros c Hc. rewrite Hp.
    assert (Hc' : c = n \/ (c ∈ cn_children n \/ exists m, m ∈ new /\ c ∈ cn_children m)).
    { destruct Hc as [->%list_elem_of_singleton|(m & [->|Hm]%elem_of_cons & Hc)];
        [by left|right; by left|right; right; eauto]. }
    destruct Hc' as [->|Hc'].
    { exists n, [], (preorders (cn_children n)). rewrite A, !elem_of_app. split_and!; [|done|done|by left].
      left. right. left. }
    destruct (g_met _ _ _ _ _ _ G c Hc') as (m & a & b & H1 & H2 & E & H3).
    exists m, (n :: a), b. rewrite E. split_and!; [done..|]. simpl in H3. rewrite elem_of_app in H3.
    destruct H3 as [H3|[[H3|H3%list_elem_of_singleton]|H3]]; [auto|auto|subst; right; right; left|].
    right. right. by right.
  - intros c [->|Hc]%elem_of_cons; [left; split; [left|done]|]. right.
    destruct (g_parent _ _ _ _ _ _ G c Hc) as [(Hin & H & _)|(q & Hq & Hcq)].
    + exists n. split_and!; [left|done|done].
    + exists q. split; [by right|done].
  - intros v Hv. assert (Hne : cn_value n <> v) by congruence.
    destruct (g_frame _ _ _ _ _ _ G v) as [-> ->]; simpl; [|by rewrite !mget_set_ne].
    unfold mhas. by rewrite mget_set_ne.
  - rewrite Hp. intros Hnd. f_equal. apply G. simpl. by rewrite <- app_assoc.
Qed.

Lemma walk_forest_grown parent depth ns :
  Forall (fun n => forall parent depth st, recorded st ->
    exists new, grown parent depth [n] st (walk_node parent depth n st) new) ns ->
  forall st, recorded st ->
  exists new, grown parent depth ns st (fold_left (fun s n => walk_node parent depth n s) ns st) new.
Proof.
  induction 1 as [|n ns Hn _ IH]; intros st R; simpl; [exists []; by apply grown_none|].
  destruct (Hn parent depth st R) as [new1 G1].
  destruct (IH _ (g_recorded _ _ _ _ _ _ G1)) as [new2 G2].
  exists (new1 ++ new2). by eapply grown_cons.
Qed.

Lemma walk_grown n : forall parent depth st, recorded st ->
  exists new, grown parent depth [n] st (walk_node parent depth n st) new.
Proof.
  induction n as [v l ch h p d k m IH] using CascaderNode_ind'. intros parent depth st R.
  set (n := CNode v l ch h p d k m) in *. simpl.
  destruct (mhas (byValue st) v) eqn:E; [exists []; by apply grown_skip|].
  destruct (walk_forest_grown (Some v) (S depth) ch IH (accept parent depth n st)) as [new G].
  { by apply accept_recorded. }
  exists (n :: new). by eapply grown_accept.
Qed.

(** How the index of the items stands to them. *)
Record indexes (items : list CascaderNode) (idx : CascaderIndex) : Prop := {
  (* every indexed node is one of the items' nodes, and they come in order *)
  ix_order : sublist (all idx) (preorders items);
  (* each root, and each child of an indexed node, has its value indexed: by
     itself, or by a node before it *)
  ix_met : forall c, (c ∈ items \/ exists m, m ∈ all idx /\ c ∈ cn_children m) ->
    exists m before after, mget (byValue idx) (cn_value c) = Some m /\
      preorders items = before ++ c :: after /\ (m = c \/ m ∈ before);
  (* with no value twice, every node is indexed *)
  ix_whole : NoDup (map cn_value (preorders items)) -> all idx = preorders items;
  (* a node's parent is the indexed node whose children it is in; a root has
     none, and the depth zero *)
  ix_parent : forall c, c ∈ all idx ->
    match parent_of (parentOf idx) (cn_value c) with
    | None => c ∈ items /\ mget (depthOf idx) (cn_value c) = Some 0
    | Some p => exists q, mget (byValue idx) p = Some q /\ c ∈ cn_children q
    end;
  (* a bucket lists its parent's nodes in that order *)
  ix_bucket : forall k, bucket idx k = bfilter (fun n => String.eqb (parent_key idx n) k) (all idx);
  ix_roots : roots idx = bucket idx CASCADER_ROOT_KEY
}.

Lemma recorded_get st n : recorded st -> NoDup (mkeys (byValue st)) -> n ∈ all st ->
  mget (byValue st) (cn_value n) = Some n.
Proof.
  intros [Hv _]. rewrite Hv, map_map. generalize (all st). intros l.
  induction l as [|n' l IH]; simpl; [by intros _ ?%elem_of_nil|].
  intros [Hn' Hnd]%NoDup_cons [->|Hn]%elem_of_cons; [by rewrite String.eqb_refl|].
  destruct (String.eqb_spec (cn_value n') (cn_value n)) as [He|]; [|by apply IH].
  exfalso. apply Hn'. rewrite He. apply list_elem_of_fmap. eauto.
Qed.

Lemma build_indexes items : every unreserved items = true ->
  recorded (buildCascaderIndex items None) /\ indexes items (buildCascaderIndex items None).
Proof.
  intros Hu. pose proof (building_with_roots _ (build_building items Hu)) as B.
  change (building (buildCascaderIndex items None)) in B.
  assert (R0 : recorded empty_index) by by constructor.
  destruct (walk_forest_grown None 0 items) with (st := empty_index) as [new G]; [|done|].
  { apply Forall_forall. intros n _. apply walk_grown. }
  assert (R : recorded (buildCascaderIndex items None)) by (destruct (g_recorded _ _ _ _ _ _ G); by constructor).
  split; [done|]. pose proof (g_all _ _ _ _ _ _ G) as A. simpl in A.
  set (idx := buildCascaderIndex items None) in *. change (all idx = new) in A.
  assert (Hget : forall n, n ∈ all idx -> mget (byValue idx) (cn_value n) = Some n)
    by (intros n Hn; by apply recorded_get; [|apply B|]).
  constructor.
  - rewrite A. apply G.
  - rewrite A. intros c Hc. destruct (g_met _ _ _ _ _ _ G c Hc) as (m & a & b & H1 & H2 & H3 & H4).
    exists m, a, b. rewrite <- H2, Hget by exact H1. split_and!; [done..|].
    destruct H4 as [?|[?%elem_of_nil|?]]; [by left|done|by right].
  - rewrite A. intros Hnd. by apply (g_whole _ _ _ _ _ _ G).
  - rewrite A. intros c Hc. unfold parent_of.
    pose proof (g_parent _ _ _ _ _ _ G c Hc) as HG.
    change (parentOf (fold_left _ items empty_index)) with (parentOf idx) in HG.
    change (depthOf (fold_left _ items empty_index)) with (depthOf idx) in HG.
    destruct HG as [(Hin & -> & Hd)|(q & Hq & Hcq & ->)]; [done|].
    exists q. split; [|done]. apply Hget. by rewrite A.
  - apply R.
  - done.
Qed.

Lemma tc_last {A} (R : A -> A -> Prop) a b : tc R a b -> exists y, R y b.
Proof. induction 1; eauto. Qed.

(** *** Cascade selection *)
Section CascadeLaws.
Context (idx : CascaderIndex) (rank : string -> nat) (Htree : tree_index idx rank).
Context (isSelectable : CascaderNode -> bool).
Notation reaches := (reach (childrenOf idx)).
Notation above v := (ancestors (parentOf idx) v).
Notation sel_children v := (selectable_children idx isSelectable v).

(** A selectable branch is selected exactly when all its selectable children are. *)
Definition closed_at (sel : list string) (b : string) : Prop :=
  forall node, mget (byValue idx) b = Some node -> isSelectable node = true ->
    sel_children b <> [] ->
    (b ∈ sel <-> forall c, c ∈ sel_children b -> cn_value c ∈ sel).
Definition closure (sel : list string) : Prop := forall b, closed_at sel b.

Lemma child_parent k c : c ∈ bucket idx k -> k <> CASCADER_ROOT_KEY ->
  parent_of (parentOf idx) (cn_value c) = Some k.
Proof.
  intros Hc Hk. destruct (ti_bucket _ _ Htree _ _ Hc) as [_ H].
  destruct (parent_of _ _); simpl in H; congruence.
Qed.

Lemma above_tc v x : x ∈ above v <-> tc (parent_rel (parentOf idx)) v x.
Proof. apply (ancestors_tc _ rank). apply Htree. Qed.
Lemma above_rank v x : x ∈ above v -> rank x < rank v.
Proof. rewrite above_tc. apply tc_rank, Htree. Qed.
Lemma above_parent v x p : x ∈ above v -> parent_of (parentOf idx) x = Some p -> p ∈ above v.
Proof. rewrite !above_tc. intros H Hp. eapply tc_r; done. Qed.

Lemma reach_rank v x : reaches v x -> v <> CASCADER_ROOT_KEY ->
  (x = v \/ rank v < rank x) /\ x <> CASCADER_ROOT_KEY.
Proof.
  intros H Hv. induction H as [|x c _ IH Hc]; [by split; [left|]|].
  destruct IH as [IH Hx]. pose proof (child_parent _ _ Hc Hx) as Hp.
  apply (ti_rank _ _ Htree) in Hp. split.
  - right. destruct IH as [->|]; lia.
  - destruct (ti_bucket _ _ Htree _ _ Hc) as [Hb _]. by apply (ti_value _ _ Htree) in Hb as [_ ?].
Qed.

(** A node under [v] other than [v] has its parent under [v]. *)
Lemma reach_parent v x p :
  v <> CASCADER_ROOT_KEY -> reaches v x -> x <> v -> parent_of (parentOf idx) x = Some p ->
  reaches v p.
Proof.
  intros Hv H. destruct H as [|x c H Hc]; [done|]. intros _ Hp.
  destruct (reach_rank v x H Hv) as [_ Hx].
  rewrite (child_parent _ _ Hc Hx) in Hp. congruence.
Qed.

Lemma subtree_spec v node :
  mget (byValue idx) v = Some node ->
  (forall x, x ∈ map cn_value (collectCascaderSubtree idx v) <-> reaches v x) /\
  Forall (fun n => mget (byValue idx) (cn_value n) = Some n) (collectCascaderSubtree idx v).
Proof.
  intros Hn. destruct (ti_value _ _ Htree _ _ Hn) as [Hv _].
  unfold collectCascaderSubtree. rewrite Hn.
  destruct (visit_complete (childrenOf idx) (walk_fuel (childrenOf idx)) node ([], []))
    as [_ Hs Hc Hr].
  { right. unfold walk_fuel.
    pose proof (unseen_le (map cn_value (flat_map snd (childrenOf idx))) []) as H.
    rewrite length_map in H. simpl. lia. }
  { unfold walk_fuel.
    pose proof (unseen_le (map cn_value (flat_map snd (childrenOf idx))) []) as H.
    rewrite length_map in H. simpl. lia. }
  rewrite Hv in *. destruct (visit_values (childrenOf idx) (walk_fuel (childrenOf idx)) node ([], []))
    as [-> _]; [done|constructor|]. split.
  - intros x. split.
    + intros Hx. destruct (Hr x Hx) as [?%elem_of_nil|]; done.
    + induction 1 as [|x c _ IH Hcx]; [done|].
      destruct (Hc x IH) as [?%elem_of_nil|H]; [done|by apply H].
  - apply Forall_forall. intros n [?%elem_of_nil|[->|(k & Hk)]]%visit_nodes; [done| |].
    + by rewrite Hv.
    + by apply (ti_bucket _ _ Htree) in Hk as [? _].
Qed.

Lemma toggle_fold on l next x :
  NoDup next ->
  NoDup (fold_left (fun s (n : CascaderNode) => toggle_value on s (cn_value n)) l next) /\
  (x ∈ fold_left (fun s (n : CascaderNode) => toggle_value on s (cn_value n)) l next <->
   if sin x (map cn_value l) then on = true else x ∈ next).
Proof.
  intros Hnd. revert next Hnd. induction l as [|n l IH]; intros next Hnd; simpl; [done|].
  assert (Hnd' : NoDup (toggle_value on next (cn_value n)))
    by (destruct on; simpl; [by apply sadd_NoDup|by apply sdel_NoDup]).
  destruct (IH _ Hnd') as [H1 H2]. split; [done|]. rewrite H2. unfold sin in *. simpl.
  destruct (some (String.eqb x) (map cn_value l)); [by rewrite orb_true_r|].
  rewrite orb_false_r. unfold toggle_value.
  destruct (String.eqb_spec x (cn_value n)) as [->|Hne]; destruct on.
  - rewrite sadd_elem. naive_solver.
  - rewrite sdel_elem by done. naive_solver.
  - rewrite sadd_elem. naive_solver.
  - rewrite sdel_elem by done. naive_solver.
Qed.

Lemma toggle_filter v on l next :
  fold_left (fun s node =>
    if negb (String.eqb (cn_value node) v) && negb (isSelectable node) then s
    else toggle_value on s (cn_value node)) l next
  = fold_left (fun s (n : CascaderNode) => toggle_value on s (cn_value n))
      (bfilter (fun n => String.eqb (cn_value n) v || isSelectable n) l) next.
Proof.
  revert next. induction l as [|n l IH]; intros next; simpl; [done|].
  destruct (String.eqb (cn_value n) v), (isSelectable n); simpl; apply IH.
Qed.

(** What [toggle_subtree] does to one indexed value. *)
Lemma toggle_spec v node on next x n :
  mget (byValue idx) v = Some node -> NoDup next -> mget (byValue idx) x = Some n ->
  NoDup (toggle_subtree idx isSelectable v on next) /\
  ((reaches v x /\ (x = v \/ isSelectable n = true) ->
    (x ∈ toggle_subtree idx isSelectable v on next <-> on = true)) /\
   (~ (reaches v x /\ (x = v \/ isSelectable n = true)) ->
    (x ∈ toggle_subtree idx isSelectable v on next <-> x ∈ next))).
Proof.
  intros Hv Hnd Hx. destruct (subtree_spec v node Hv) as [Hs Hf].
  unfold toggle_subtree.
  destruct (Nat.eqb_spec (length (collectCascaderSubtree idx v)) 0) as [E|_].
  { apply nil_length_inv in E. exfalso. apply (elem_of_nil v).
    rewrite E in Hs. apply Hs. constructor. }
  rewrite toggle_filter.
  destruct (toggle_fold on (bfilter (fun n => String.eqb (cn_value n) v || isSelectable n)
    (collectCascaderSubtree idx v)) next x Hnd) as [H1 H2].
  split; [done|]. rewrite H2.
  assert (Hin : sin x (map cn_value (bfilter (fun n => String.eqb (cn_value n) v || isSelectable n)
    (collectCascaderSubtree idx v))) = true <-> reaches v x /\ (x = v \/ isSelectable n = true)).
  { rewrite sin_elem, list_elem_of_fmap, <- Hs, list_elem_of_fmap. rewrite Forall_forall in Hf.
    split.
    - intros (m & -> & Hm). apply bfilter_elem in Hm as [Hm Hp]. split; [eauto|].
      specialize (Hf m Hm). assert (m = n) as -> by congruence.
      apply orb_true_iff in Hp as [->%String.eqb_eq|]; auto.
    - intros [(m & -> & Hm) Hp]. exists m. split; [done|]. apply bfilter_elem. split; [done|].
      specialize (Hf m Hm). assert (m = n) as -> by congruence.
      apply orb_true_iff. destruct Hp as [<-|]; [left; apply String.eqb_refl|by right]. }
  destruct (sin x _); split; intros H; naive_solver.
Qed.

(** *** Reconciling the ancestors *)
Lemma is_full_spec next b :
  is_full idx isSelectable next b = true <->
  exists node, mget (byValue idx) b = Some node /\ isSelectable node = true /\
    sel_children b <> [] /\ forall c, c ∈ sel_children b -> cn_value c ∈ next.
Proof.
  unfold is_full. rewrite !andb_true_iff, negb_true_iff, forallb_forall, Nat.eqb_neq. split.
  - intros [[H1 H2] H3]. destruct (mget _ b) as [node|]; [|done]. exists node.
    split_and!; [done|done|by intros E; rewrite E in H1|].
    intros c Hc. apply sin_elem, H2. by apply list_elem_of_In.
  - intros (node & -> & Hs & Hne & Hc). split_and!; [by destruct (sel_children b)| |done].
    intros c Hin. apply sin_elem, Hc. by apply list_elem_of_In.
Qed.

Lemma reconcile_other next b x : NoDup next -> x <> b ->
  (x ∈ reconcile idx isSelectable next b <-> x ∈ next).
Proof.
  intros Hnd Hne. unfold reconcile. destruct (is_full _ _ _ _).
  - rewrite sadd_elem. naive_solver.
  - rewrite sdel_elem by done. naive_solver.
Qed.
Lemma reconcile_self next b : NoDup next ->
  (b ∈ reconcile idx isSelectable next b <-> is_full idx isSelectable next b = true).
Proof.
  intros Hnd. unfold reconcile. destruct (is_full _ _ _ _).
  - rewrite sadd_elem. naive_solver.
  - rewrite sdel_elem by done. naive_solver.
Qed.
Lemma reconcile_NoDup next b : NoDup next -> NoDup (reconcile idx isSelectable next b).
Proof. intros. unfold reconcile. destruct (is_full _ _ _ _); auto with premise. Qed.

Lemma closed_full next b :
  (b ∈ next <-> is_full idx isSelectable next b = true) -> closed_at next b.
Proof.
  intros H node Hn Hs Hne. rewrite H, is_full_spec. split.
  - intros (? & _ & _ & _ & Hc). done.
  - intros Hc. exists node. done.
Qed.

(** Nothing but the listed ancestors moves, and each of them ends closed. *)
Lemma reconcile_all l next :
  NoDup next -> NoDup l -> CASCADER_ROOT_KEY ∉ l ->
  (forall i j a b, l !! i = Some a -> l !! j = Some b -> i < j -> rank b < rank a) ->
  let next' := fold_left (reconcile idx isSelectable) l next in
  NoDup next' /\ (forall x, x ∉ l -> (x ∈ next' <-> x ∈ next)) /\
  (forall b, b ∈ l -> b ∈ next' <-> is_full idx isSelectable next' b = true).
Proof.
  revert next. induction l as [|a l IH]; intros next Hnd Hl Hroot Hr; simpl.
  { split_and!; [done|done|by intros ? ?%elem_of_nil]. }
  apply NoDup_cons in Hl as [Ha Hl]. rewrite not_elem_of_cons in Hroot. destruct Hroot as [Hra Hrl].
  destruct (IH (reconcile idx isSelectable next a)) as (H1 & H2 & H3); [|done|done| |].
  { by apply reconcile_NoDup. }
  { intros i j x y Hi Hj Hij. apply (Hr (S i) (S j)); [done|done|lia]. }
  split_and!; [done| |].
  - intros x [Hx Hxl]%not_elem_of_cons. rewrite H2 by done. by apply reconcile_other.
  - intros b [->|Hb]%elem_of_cons; [|by apply H3].
    rewrite H2, reconcile_self by done. rewrite !is_full_spec.
    assert (Hsame : forall c, c ∈ sel_children a ->
      (cn_value c ∈ fold_left (reconcile idx isSelectable) l (reconcile idx isSelectable next a)
       <-> cn_value c ∈ next)).
    { intros c Hc. unfold selectable_children in Hc. apply bfilter_elem in Hc as [Hc _].
      pose proof (child_parent a c Hc ltac:(congruence)) as Hp.
      apply (ti_rank _ _ Htree) in Hp. rewrite H2.
      - apply reconcile_other; [done|]. intros Heq. rewrite Heq in Hp. lia.
      - intros [i Hi]%list_elem_of_lookup.
        specialize (Hr 0 (S i) a (cn_value c) eq_refl Hi ltac:(lia)). lia. }
    split; intros (node & E1 & E2 & E3 & E4); exists node; split_and!; try done;
      intros c Hc; apply Hsame; auto.
Qed.

Lemma above_descends v i j a b :
  above v !! i = Some a -> above v !! j = Some b -> i < j -> rank b < rank a.
Proof.
  pose proof (ancestors_climbs (parentOf idx) v) as Hc.
  assert (Hs : forall c, parent_of (parentOf idx) v = Some c -> forall s, s ∈ [v] -> rank c < rank s)
    by (intros c Hp s ->%list_elem_of_singleton; by apply (ti_rank _ _ Htree)).
  revert i j a b. induction Hc as [|seen c Hin|seen c l Hn Hc IH]; intros i j a b Hi Hj Hij; [done|done|].
  assert (Hs' : forall p, parent_of (parentOf idx) c = Some p ->
    forall s, s ∈ c :: seen -> rank p < rank s).
  { intros p Hp s [->|Hin]%elem_of_cons; [by apply (ti_rank _ _ Htree)|].
    apply (ti_rank _ _ Htree) in Hp. specialize (Hs c eq_refl s Hin). lia. }
  destruct (climbs_closed (parentOf idx) rank (ti_rank _ _ Htree) (c :: seen)
    (parent_of (parentOf idx) c) l Hs' Hc) as (_ & _ & H3 & _).
  destruct j as [|j]; [lia|]. destruct i as [|i]; simpl in *.
  - injection Hi as <-. apply H3; [|left]. apply list_elem_of_lookup. eauto.
  - apply (IH Hs' i j a b Hi Hj ltac:(lia)).
Qed.

Lemma above_not_reached v x : v <> CASCADER_ROOT_KEY -> x ∈ above v -> ~ reaches v x.
Proof.
  intros Hv Hx Hr. apply above_rank in Hx. destruct (reach_rank v x Hr Hv) as [[->|]_]; lia.
Qed.

(** The selection after a press, and where it may differ from before. *)
Lemma cascade_spec selected v node on :
  mget (byValue idx) v = Some node ->
  let out := applyCascadeSelection idx isSelectable selected v on in
  NoDup out /\
  (forall x n, mget (byValue idx) x = Some n ->
    (reaches v x -> x = v \/ isSelectable n = true -> (x ∈ out <-> on = true)) /\
    (~ (reaches v x /\ (x = v \/ isSelectable n = true)) -> x ∉ above v ->
     (x ∈ out <-> x ∈ selected))) /\
  (forall b, b ∈ above v -> closed_at out b).
Proof.
  intros Hv out. destruct (ti_value _ _ Htree _ _ Hv) as [_ Hroot].
  destruct (set_of_spec selected) as [Hnd Hset].
  pose proof (toggle_spec v node on (set_of selected)) as Ht.
  set (mid := toggle_subtree idx isSelectable v on (set_of selected)) in *.
  assert (Hmid : NoDup mid) by (by apply (Ht v node)).
  destruct (climbs_closed (parentOf idx) rank (ti_rank _ _ Htree) [v]
    (parent_of (parentOf idx) v) (above v)) as (_ & _ & _ & Hab).
  { intros c Hp s ->%list_elem_of_singleton. by apply (ti_rank _ _ Htree). }
  { apply ancestors_climbs. }
  destruct (reconcile_all (above v) mid Hmid Hab) as (H1 & H2 & H3).
  { rewrite above_tc. intros Htc. apply tc_last in Htc as (y & Hy).
    by apply (ti_parent _ _ Htree) in Hy as [? _]. }
  { intros i j a b. apply above_descends. }
  split_and!; [done| |].
  - intros x n Hx. destruct (Ht x n Hv Hnd Hx) as [_ [Hin Hout]]. split.
    + intros Hr Hs. rewrite <- Hin by done. apply H2. intros Ha.
      by apply (above_not_reached v x).
    + intros Hno Ha. rewrite <- (Hset x), <- Hout by done. by apply H2.
  - intros b Hb. apply closed_full. by apply H3.
Qed.

Lemma cascade_closure selected v node on :
  mget (byValue idx) v = Some node -> closure selected ->
  closure (applyCascadeSelection idx isSelectable selected v on).
Proof.
  intros Hv Hcl b. destruct (ti_value _ _ Htree _ _ Hv) as [_ Hroot].
  destruct (cascade_spec selected v node on Hv) as (_ & Hx & Hab).
  destruct (decide (b ∈ above v)) as [Ha|Ha]; [by apply Hab|].
  intros n Hn Hs Hne.
  assert (Hch : forall c, c ∈ sel_children b -> c ∈ bucket idx b /\
    mget (byValue idx) (cn_value c) = Some c /\ isSelectable c = true /\
    parent_of (parentOf idx) (cn_value c) = Some b).
  { intros c [Hc Hsc]%bfilter_elem. destruct (ti_bucket _ _ Htree _ _ Hc) as [Hbc _].
    split_and!; [done..|]. apply child_parent; [done|].
    by apply (ti_value _ _ Htree) in Hn as [_ ?]. }
  assert (Hdec : reaches v b \/ ~ reaches v b).
  { destruct (subtree_spec v node Hv) as [Hsub _]. rewrite <- Hsub.
    destruct (decide (b ∈ map cn_value (collectCascaderSubtree idx v))); auto. }
  destruct Hdec as [Hr|Hr].
  - destruct (Hx b n Hn) as [Hin _]. rewrite Hin by auto. split.
    + intros -> c Hc. destruct (Hch c Hc) as (Hc1 & Hc2 & Hc3 & _).
      destruct (Hx _ c Hc2) as [Hxc _]. apply Hxc; [by econstructor|by right|done].
    + intros Hall. destruct (sel_children b) as [|c l] eqn:E; [done|].
      destruct (Hch c) as (Hc1 & Hc2 & Hc3 & _); [left|].
      destruct (Hx _ c Hc2) as [Hxc _]. apply Hxc; [by econstructor|by right|].
      apply Hall. left.
  - assert (Hsame : forall c, c ∈ sel_children b ->
      (cn_value c ∈ applyCascadeSelection idx isSelectable selected v on <-> cn_value c ∈ selected)).
    { intros c Hc. destruct (Hch c Hc) as (_ & Hc2 & _ & Hp).
      destruct (Hx _ c Hc2) as [_ Hxc]. apply Hxc.
      - intros [Hrc _]. destruct (decide (cn_value c = v)) as [He|Hne'].
        + apply Ha. rewrite above_tc, <- He. by constructor.
        + apply Hr. by eapply reach_parent.
      - intros Hac. apply Ha. by eapply above_parent. }
    destruct (Hx b n Hn) as [_ Hout]. rewrite Hout by naive_solver.
    rewrite (Hcl b n Hn Hs Hne). split; intros H c Hc; apply Hsame; auto.
Qed.
End CascadeLaws.

(** ** The memoised search *)
Section SearchLaws.
Context (m : jsmap (option string)) (w : string).
Notation climbs_to a := (tc (parent_rel m) a w).

(** The memo is right about every value it knows. *)
Definition memo_ok (a : jsmap bool) : Prop :=
  forall c b, mget a c = Some b -> c <> w /\ (b = true <-> climbs_to c).

(** [trail] is a chain of parents from its head to [cursor]. *)
Record on_trail (base a : jsmap bool) (trail : list string) (cursor : option string) : Prop := {
  ot_memo : forall c, mget a c = if sin c trail then Some false else mget base c;
  ot_new : forall c, c ∈ trail -> mget base c = None;
  ot_ne : w ∉ trail;
  ot_next : forall c, c ∈ trail ->
    (exists d, parent_of m c = Some d /\ (d ∈ trail \/ cursor = Some d)) \/
    (parent_of m c = None /\ cursor = None);
  ot_reach : forall c, c ∈ trail -> forall d, cursor = Some d -> c = d \/ tc (parent_rel m) c d
}.

Lemma tc_first a b c : parent_of m a = Some b -> tc (parent_rel m) a c -> b = c \/ tc (parent_rel m) b c.
Proof. intros Hab H. inversion H; subst; [left|right]; congruence. Qed.

(** From a value of the chain, [w] is met only beyond the cursor. *)
Lemma trail_through base a trail cursor :
  on_trail base a trail cursor -> forall c, climbs_to c -> c ∈ trail ->
  exists d, cursor = Some d /\ (d = w \/ climbs_to d).
Proof.
  intros [_ _ Hne Hnext _] c Ht. remember w as x eqn:Ex.
  induction Ht as [c x Hcx|c y x Hcy Hyx IHt]; intros Hc; subst.
  - destruct (Hnext c Hc) as [(d & Hd & [Hin|Hcd])|[Hn _]]; [|exists d; naive_solver|congruence].
    assert (d = w) as -> by congruence. done.
  - destruct (Hnext c Hc) as [(d & Hd & [Hin|Hcd])|[Hn _]]; [| |congruence].
    + apply IHt; [done..|]. congruence.
    + exists d. split; [done|]. right. congruence.
Qed.

(** The climb ends at the top, or closes a cycle: the answer is no. *)
Lemma climb_stops base a trail cursor ans a' trail' :
  on_trail base a trail cursor -> (forall d, cursor = Some d -> d ∈ trail) ->
  (false, a, trail) = (ans, a', trail') ->
  (ans = true <-> exists d, cursor = Some d /\ (d = w \/ climbs_to d)) /\
  (forall c, c ∈ trail' -> c <> w /\ (climbs_to c <-> ans = true)) /\
  (forall c, mget a' c = if sin c trail' then Some false else mget base c).
Proof.
  intros T Hcur [= <- <- <-].
  assert (Hno : forall c, c ∈ trail -> ~ climbs_to c).
  { intros c Hc Ht. apply (ot_ne _ _ _ _ T).
    assert (Hstep : forall x y, x ∈ trail -> parent_of m x = Some y -> y ∈ trail).
    { intros x y Hx Hy. destruct (ot_next _ _ _ _ T x Hx) as [(d' & Hd' & [|Hcd])|[Hn _]];
        [congruence| |congruence]. apply Hcur. congruence. }
    apply (tc_closed m trail c w); [|done|done]. intros d Hd. by eapply Hstep. }
  split_and!; [| |apply T].
  - split; [done|]. intros (d & Hd & [->|Ht]).
    + exfalso. apply (ot_ne _ _ _ _ T). by apply Hcur.
    + exfalso. apply (Hno d); [by apply Hcur|done].
  - intros c Hc. split; [intros ->; by apply (ot_ne _ _ _ _ T)|]. split; [|done].
    intros Ht. exfalso. by apply (Hno c).
Qed.

(** A value met for the first time joins the chain, marked [false]. *)
Lemma trail_push base a trail d :
  on_trail base a trail (Some d) -> d <> w -> mget a d = None ->
  on_trail base (mset a d false) (trail ++ [d]) (parent_of m d).
Proof.
  intros [Hm Hnew Hne Hnext Hreach] Hdw Ed.
  assert (Hsin : forall c, sin c (trail ++ [d]) = sin c trail || String.eqb c d).
  { intros c. unfold sin. rewrite existsb_app. simpl. by rewrite orb_false_r. }
  constructor.
  - intros c. rewrite mget_set, Hsin, Hm, (String.eqb_sym d c).
    destruct (String.eqb c d); [by rewrite orb_true_r|by rewrite orb_false_r].
  - intros c [Hc| ->%list_elem_of_singleton]%elem_of_app; [by apply Hnew|].
    rewrite Hm in Ed. by destruct (sin d trail).
  - rewrite elem_of_app, list_elem_of_singleton. naive_solver.
  - intros c [Hc| ->%list_elem_of_singleton]%elem_of_app.
    + left. destruct (Hnext c Hc) as [(d' & Hd' & [Hin|[= <-]])|[_ [=]]]; [exists d'|exists d];
        (split; [done|]); left; apply elem_of_app; [by left|right; left].
    + destruct (parent_of m d) as [p|]; [left; eauto|by right].
  - intros c [Hc| ->%list_elem_of_singleton]%elem_of_app p Hp.
    + right. destruct (Hreach c Hc d eq_refl) as [->|]; [by constructor|]. by eapply tc_r.
    + right. by constructor.
Qed.

Lemma within_climb_spec fuel base a trail cursor ans a' trail' :
  memo_ok base -> on_trail base a trail cursor ->
  (cursor <> None -> unseen (mkeys m) (mkeys a) < fuel) ->
  within_climb fuel m w cursor a trail = (ans, a', trail') ->
  (ans = true <-> exists d, cursor = Some d /\ (d = w \/ climbs_to d)) /\
  (forall c, c ∈ trail' -> c <> w /\ (climbs_to c <-> ans = true)) /\
  (forall c, mget a' c = if sin c trail' then Some false else mget base c).
Proof.
  intros Hbase. revert a trail cursor. induction fuel as [|f IH]; intros a trail cursor T Hf.
  { destruct cursor; [specialize (Hf ltac:(done)); lia|]. apply climb_stops; [done|].
    by intros d [=]. }
  destruct cursor as [d|]; simpl.
  2:{ apply climb_stops; [done|]. by intros d [=]. }
  destruct (String.eqb_spec d w) as [->|Hdw].
  { intros [= <- <- <-]. split_and!; [naive_solver| |apply T].
    intros c Hc. split; [intros ->; by apply (ot_ne _ _ _ _ T)|]. split; [done|]. intros _.
    destruct (ot_reach _ _ _ _ T c Hc w eq_refl) as [->|]; [|done].
    by destruct (ot_ne _ _ _ _ T). }
  destruct (mget a d) as [cached|] eqn:Ed.
  { rewrite (ot_memo _ _ _ _ T) in Ed. destruct (sin d trail) eqn:Es.
    - apply sin_elem in Es. injection Ed as <-. apply climb_stops; [done|].
      by intros d' [= <-].
    - destruct (Hbase _ _ Ed) as [_ Hb]. intros [= <- <- <-].
      split_and!; [| |apply T].
      + rewrite Hb. split; [eauto|]. by intros (d' & [= <-] & [|]).
      + intros c Hc. split; [intros ->; by apply (ot_ne _ _ _ _ T)|]. rewrite Hb. split.
        * intros Ht. by destruct (trail_through _ _ _ _ T c Ht Hc) as (d' & [= <-] & [|]).
        * intros Ht. destruct (ot_reach _ _ _ _ T c Hc d eq_refl) as [->|]; [done|].
          by eapply tc_transitive. }
  intros H. destruct (IH (mset a d false) (trail ++ [d]) (parent_of m d)) as (R1 & R2 & R3);
    [by apply trail_push| |done|].
  { intros Hp. destruct (parent_of m d) as [p|] eqn:Ep; [|done].
    specialize (Hf ltac:(done)). eapply Nat.lt_le_trans; [|apply Nat.lt_succ_r, Hf].
    apply (unseen_lt _ _ _ d); [|by eapply parent_of_key| |].
    - intros x Hx. apply mset_elem. by right.
    - intros Hin. apply mget_keys in Hin as [? ?]. congruence.
    - apply mset_elem. by left. }
  split_and!; [|done|done]. rewrite R1. split.
  - intros (p & Hp & Hr). exists d. split; [done|]. right.
    destruct Hr as [->|Hr]; [by constructor|by eapply tc_l].
  - intros (d' & [= <-] & [|Ht]); [done|].
    inversion Ht as [x y Hy|x y z Hy Ht']; subst; eauto.
Qed.

(** One climb answers the definition and leaves the memo right. *)
Lemma isWithin_spec base node ans a' :
  memo_ok base -> isWithin m w node base = (ans, a') ->
  (ans = true <-> climbs_to (cn_value node)) /\ memo_ok a'.
Proof.
  intros Hbase. unfold isWithin.
  destruct (within_climb (climb_fuel m) m w (parent_of m (cn_value node)) base [])
    as [[ans1 a1] trail] eqn:E.
  destruct (within_climb_spec (climb_fuel m) base base [] (parent_of m (cn_value node)) ans1 a1 trail)
    as (R1 & R2 & R3); [done| | |done|].
  { constructor; [done| |apply not_elem_of_nil|..]; by intros ? ?%elem_of_nil. }
  { intros _. unfold climb_fuel. pose proof (unseen_le (mkeys m) (mkeys base)) as H.
    rewrite length_map in H. lia. }
  assert (Hans : ans1 = true <-> climbs_to (cn_value node)).
  { rewrite R1. split.
    - intros (d & Hd & [->|Ht]); [by constructor|by eapply tc_l].
    - intros Ht. inversion Ht as [x y Hy|x y z Hy Ht']; subst; eauto. }
  intros [= <- <-]. split; [done|]. destruct ans1.
  - assert (Hset : forall l a c, mget (fold_left (fun a v => mset a v true) l a) c
                   = if sin c l then Some true else mget a c).
    { intros l. induction l as [|x l IH]; intros a c; simpl; [done|]. rewrite IH, mget_set.
      unfold sin. simpl. rewrite (String.eqb_sym x c).
      destruct (some (String.eqb c) l); [by rewrite orb_true_r|]. by rewrite orb_false_r. }
    intros c b. rewrite Hset, R3. destruct (sin c trail) eqn:Es.
    + apply sin_elem in Es. intros [= <-]. by destruct (R2 c Es) as [? ->].
    + apply Hbase.
  - intros c b. rewrite R3. destruct (sin c trail) eqn:Es.
    + apply sin_elem in Es. intros [= <-]. destruct (R2 c Es) as [? Hc].
      split; [done|]. by rewrite Hc.
    + apply Hbase.
Qed.
End SearchLaws.

(** The loop over the nodes agrees with a plain filter. *)
Lemma search_loop_spec m within limit matches normalized (inside : CascaderNode -> bool) nodes memo results :
  match within with
  | None => forall n, inside n = true
  | Some w => memo_ok m w memo /\
      forall n, inside n = true <-> tc (parent_rel m) (cn_value n) w
  end ->
  length results <= limit ->
  search_loop m within limit matches normalized nodes memo results
  = take limit (results ++ bfilter (fun n => matches n normalized && inside n) nodes).
Proof.
  intros Hw. revert memo results Hw. induction nodes as [|n nodes IH]; intros memo results Hw Hl; simpl.
  { rewrite app_nil_r. by rewrite take_ge. }
  destruct (Nat.leb_spec limit (length results)) as [Hge|Hlt].
  { rewrite take_app_le by lia. by rewrite take_ge. }
  destruct (matches n normalized) eqn:Em; simpl; [|by apply IH].
  destruct within as [w|].
  - destruct Hw as [Hmemo Hin]. destruct (isWithin m w n memo) as [ans memo'] eqn:Ew.
    destruct (isWithin_spec m w memo n ans memo' Hmemo Ew) as [Hans Hmemo'].
    assert (ans = inside n) as ->.
    { apply eq_true_iff_eq. by rewrite Hans, Hin. }
    destruct (inside n).
    + rewrite IH; [by rewrite <- app_assoc|done|]. rewrite length_app. simpl. lia.
    + by apply IH.
  - rewrite Hw, IH; [by rewrite <- app_assoc|done|]. rewrite length_app. simpl. lia.
Qed.

(** ** Properties *)

(** The items of the examples. *)
Definition leaf (v : string) : CascaderNode := CNode v v [] false None false [] false.
Definition branch (v : string) (ch : list CascaderNode) : CascaderNode :=
  CNode v v ch false None false [] false.
Definition sample_items : list CascaderNode :=
  [branch "eu" [branch "no" [leaf "oslo"; leaf "bergen"]; leaf "se"]; leaf "us"].
Definition sample_index : CascaderIndex := buildCascaderIndex sample_items None.

(** C22: Indexing nested items gives a tree of them, whatever values repeat.
    Every root, and every child of an indexed node, has its value indexed, by
    the first node with it that a depth-first reading meets: itself or one
    before it; with no value twice every node is indexed, in that order.  Each
    value is indexed once; a node's parent is the indexed node whose child it
    is, a root has none and the depth zero; each bucket lists exactly its parent's indexed nodes
    in order; and depths grow by one from parent to child, so no cycle is
    possible. *)
Theorem build_is_tree items :
  every unreserved items = true ->
  let idx := buildCascaderIndex items None in
  indexes items idx /\
  tree_index idx (rank_in idx) /\
  mkeys (byValue idx) = map cn_value (all idx) /\ NoDup (map cn_value (all idx)) /\
  (forall n, n ∈ all idx -> mget (byValue idx) (cn_value n) = Some n) /\
  (forall v p, parent_of (parentOf idx) v = Some p ->
     mhas (byValue idx) p = true /\ mget (depthOf idx) v = Some (S (rank_in idx p))).
Proof.
  intros Hu idx. pose proof (building_with_roots _ (build_building items Hu)) as B.
  change (building idx) in B. destruct (build_indexes items Hu) as [R X]. split; [exact X|].
  split; [by apply build_tree|]. pose proof (b_nodup _ B) as Hnd.
  assert (Hv : mkeys (byValue idx) = map cn_value (all idx)).
  { rewrite (b_values _ B), map_map. done. }
  split_and!; [done|by rewrite <- Hv| |].
  - intros n Hn. by apply recorded_get.
  - intros v p Hp. destruct (b_parent _ B _ _ Hp) as (_ & H2 & H3). split; [done|].
    unfold rank_in in H3 |- *.
    destruct (mget (depthOf idx) v); cbn [from_option] in H3; congruence.
Qed.

(** "no" comes twice: the second, and what is under it, is left out. *)
Definition repeating_items : list CascaderNode :=
  [branch "eu" [branch "no" [leaf "oslo"]; leaf "se"]; branch "no" [leaf "bergen"]; leaf "us"].
Lemma build_is_tree_witness :
  map cn_value (all (buildCascaderIndex repeating_items None)) = ["eu"; "no"; "oslo"; "se"; "us"] /\
  map cn_value (all sample_index) = ["eu"; "no"; "oslo"; "bergen"; "se"; "us"] /\
  indexes repeating_items (buildCascaderIndex repeating_items None).
Proof.
  split; [reflexivity|]. split; [reflexivity|].
  destruct (build_is_tree repeating_items) as [H _]; [reflexivity|exact H].
Defined.

(** C12: Cascade selection keeps its promise to the stored value: if a branch
    was in the selection exactly when all its selectable children were, that
    still holds after a node is pressed; the pressed node and the selectable
    nodes under it are in exactly when it was selected; and nothing that is
    neither under the node nor an ancestor of it moves. *)
Theorem cascade_keeps_closure items isSelectable selected v node on :
  every unreserved items = true ->
  let idx := buildCascaderIndex items None in
  mget (byValue idx) v = Some node -> closure idx isSelectable selected ->
  let out := applyCascadeSelection idx isSelectable selected v on in
  closure idx isSelectable out /\ NoDup out /\
  (forall x n, mget (byValue idx) x = Some n -> reach (childrenOf idx) v x ->
     x = v \/ isSelectable n = true -> (x ∈ out <-> on = true)) /\
  (forall x n, mget (byValue idx) x = Some n -> ~ reach (childrenOf idx) v x ->
     x ∉ ancestors (parentOf idx) v -> (x ∈ out <-> x ∈ selected)).
Proof.
  intros Hu idx Hv Hcl out. pose proof (build_tree items Hu) as Ht.
  destruct (cascade_spec idx _ Ht isSelectable selected v node on Hv) as (H1 & H2 & _).
  split_and!; [|done| |].
  - by apply (cascade_closure idx (rank_in idx) Ht isSelectable selected v node on).
  - intros x n Hx. apply (H2 x n Hx).
  - intros x n Hx Hr. apply (H2 x n Hx). by intros [? _].
Qed.
Lemma cascade_keeps_closure_witness :
  closure sample_index (fun _ => true)
    (applyCascadeSelection sample_index (fun _ => true) [] "no" true).
Proof.
  eapply (cascade_keeps_closure sample_items (fun _ => true) [] "no" _ true);
    [reflexivity|reflexivity|].
  intros b n Hn _ Hne. split; [by intros ?%elem_of_nil|]. intros H.
  destruct (selectable_children _ _ b) as [|c l]; [done|].
  exfalso. apply (elem_of_nil (cn_value c)), H. left.
Defined.

(** C23: The deep search, whose ancestry test memoises every climb and marks
    values "not within" provisionally on the way up, returns exactly the first
    [limit] nodes of the index, in order, that match the query and lie below
    [within] - even when the parent data contains cycles. *)
Theorem search_memo_sound (fold : string -> string) idx query within limit matches
    (inside : CascaderNode -> bool) :
  (forall n, inside n = true <->
     match within with
     | None => True
     | Some w => tc (fun a b => parent_of (parentOf idx) a = Some b) (cn_value n) w
     end) ->
  searchCascaderDeep fold idx query within limit matches
  = if String.eqb (normalizeCascaderQuery fold query) "" then []
    else take limit (bfilter (fun n => matches n (normalizeCascaderQuery fold query) && inside n)
                       (all idx)).
Proof.
  intros Hin. unfold searchCascaderDeep. destruct (String.eqb _ _); [done|].
  rewrite (search_loop_spec _ _ _ _ _ inside); [done| |simpl; lia].
  destruct within as [w|].
  - split; [|done]. by intros c b [=].
  - intros n. by apply Hin.
Qed.
Lemma search_memo_sound_witness :
  searchCascaderDeep to_lower sample_index "O" (Some "eu") 1 (matchesCascaderQuery to_lower)
  = [branch "no" [leaf "oslo"; leaf "bergen"]].
Proof.
  pose (inside := fun n => sin "eu" (ancestors (parentOf sample_index) (cn_value n))).
  rewrite (search_memo_sound to_lower sample_index "O" (Some "eu") 1 _ inside).
  - reflexivity.
  - intros n. unfold inside. rewrite sin_elem.
    apply (ancestors_tc _ (rank_in sample_index)). apply (build_tree sample_items). reflexivity.
Defined.

(** Shortening a path hides names in place: putting the hidden ones back gives
    the path, and a path that is shortened shows at most [maxSegments] names. *)
Definition segment_nodes (s : CascaderPathSegment) : list CascaderNode :=
  match s with SegNode n => [n] | SegEllipsis hidden => hidden end.
Definition segment_shown (s : CascaderPathSegment) : bool :=
  match s with SegNode _ => true | SegEllipsis _ => false end.

Lemma segments_of_nodes l : flat_map segment_nodes (map SegNode l) = l.
Proof. induction l as [|n l IH]; simpl; congruence. Qed.
Lemma shown_nodes l : length (bfilter segment_shown (map SegNode l)) = length l.
Proof. induction l as [|n l IH]; simpl; congruence. Qed.

Lemma collapse_hides_in_place path maxSegments collapse :
  flat_map segment_nodes (collapseCascaderPath path maxSegments collapse) = path /\
  (collapse <> CollapseNone -> (0 < maxSegments)%Z ->
   (Z.of_nat (length (bfilter segment_shown (collapseCascaderPath path maxSegments collapse)))
    <= maxSegments)%Z).
Proof.
  unfold collapseCascaderPath.
  destruct collapse; cbv zeta;
    try (split; [apply segments_of_nodes|done]);
    (destruct (_ || _) eqn:E;
     [split; [apply segments_of_nodes|intros _ Hpos; rewrite shown_nodes; apply orb_true_iff in E; lia]|]);
    apply orb_false_iff in E as [E1 E2]; unbool.
  - set (t := Z.to_nat maxSegments - 1).
    assert (Hlen : length (drop 1 (take (length path - t) path)) <> 0).
    { rewrite length_drop, length_take. lia. }
    destruct (Nat.eqb_spec (length (drop 1 (take (length path - t) path))) 0); [done|]. split.
    + rewrite !List.flat_map_app, !segments_of_nodes. simpl. rewrite app_nil_r.
      transitivity (take 1 (take (length path - t) path)
                      ++ drop 1 (take (length path - t) path) ++ drop (length path - t) path).
      * f_equal. rewrite take_take. f_equal. lia.
      * by rewrite app_assoc, !take_drop.
    + intros _ _. rewrite !List.filter_app, !length_app, !shown_nodes. simpl.
      rewrite length_take, length_drop. lia.
  - split.
    + simpl. rewrite segments_of_nodes. apply take_drop.
    + intros _ _. simpl. rewrite shown_nodes, length_drop. lia.
Qed.
