(* ===== verification/CascaderLoader.v ===== *)
(** * The cascader's asynchronous loader

    [useCascaderLoader] of [cascader-async.tsx] as a state machine.  The state
    is the React state ([store], [search]) and the refs of the hook; an event
    is a commit, an effect React runs, a call of the returned functions, a
    timer, or the settling of one of the promises in flight.  [latest] is
    written at a commit only, so between commits the callbacks read the store
    of the last one, as in the code.  Aborting a controller does not settle
    its promise: the response still arrives and the stale guards face it. *)
From S2P Require Import Prelude JsString JsMap CascaderLib.

(** ** Data *)
Record CascaderLoadState := mkLoad {
  ls_loading : bool;
  ls_error : bool;
  ls_hasMore : bool;
  ls_cursor : option string
}.
Inductive CascaderLoadReason := RLevel | RMore | RPrefetch | RRetry | RResolve | RSearch.

Record CascaderLoaderStore := mkStore {
  pages : jsmap (list CascaderNode);
  states : jsmap CascaderLoadState;
  detached : jsmap CascaderNode
}.
Record CascaderSearchSlice := mkSlice {
  sl_query : string;
  sl_results : list CascaderNode;
  sl_loading : bool;
  sl_error : bool
}.

(** The props of the hook that its callbacks and effects read. *)
Record LoaderProps := mkProps {
  p_base : CascaderIndex;
  p_getChildren : bool;
  p_onSearch : bool;
  p_resolveValue : bool;
  p_prefetch : bool;
  p_enabled : bool;
  p_query : string;
  p_levels : list string;
  p_path : list string;
  p_values : list string
}.

(** A promise in flight, with what its closures captured. *)
Inductive RequestKind :=
| LevelLoad (key : string) (reason : CascaderLoadReason) (cursor : option string)
    (append : bool) (sig : string) (node : option CascaderNode)
| SearchLoad (text : string) (path : list string)
| ResolveLoad (value : string).
Record Request := mkRequest {
  rq_kind : RequestKind;
  rq_controller : nat;
  rq_id : nat;
  rq_epoch : nat
}.
(** What a loader returns: a bare array, a result object, or a rejection. *)
Inductive Response :=
| Items (items : list CascaderNode)
| Result (items : list CascaderNode) (nextCursor : option string) (hasMore : option bool)
| Rejected.

Record Loader := mkLoader {
  store : CascaderLoaderStore;
  search : option CascaderSearchSlice;
  latest : LoaderProps * CascaderLoaderStore;
  controllers : jsmap nat;
  aborted : list nat;
  fresh : nat;
  requestIds : jsmap nat;
  inflight : jsmap string;
  moreLatch : jsmap string;
  attempted : jsset;
  known : jsmap CascaderNode;
  prefetchTimer : option string;
  epoch : nat;
  pending : list Request;
  loadErrors : list (option string * CascaderLoadReason)
}.

Definition SEARCH_KEY : string := String nul "search".
Definition RESOLVE_PREFIX : string := String nul "resolve:".
Definition NO_STATE : CascaderLoadState := mkLoad false false false None.
Definition createStore : CascaderLoaderStore := mkStore [] [] [].

(** ** Store transitions *)
#[export] Instance CascaderLoadState_eq_dec : EqDecision CascaderLoadState.
Proof. solve_decision. Defined.
Definition sameLoadState (a b : CascaderLoadState) : bool := bool_decide (a = b).

Definition withLoadState (s : CascaderLoaderStore) (key : string)
    (update : CascaderLoadState -> CascaderLoadState) : CascaderLoaderStore :=
  let current := mget (states s) key ?? NO_STATE in
  let next := update current in
  if mhas (states s) key && sameLoadState current next then s
  else mkStore (pages s) (mset (states s) key next) (detached s).

(** Appends the items whose value is new. *)
Fixpoint append_new (seen : list string) (merged items : list CascaderNode)
    : list CascaderNode :=
  match items with
  | [] => merged
  | item :: rest =>
      if sin (cn_value item) seen then append_new seen merged rest
      else append_new (cn_value item :: seen) (merged ++ [item]) rest
  end.
Definition withPage (s : CascaderLoaderStore) (key : string) (items : list CascaderNode)
    (append hasMore : bool) (cursor : option string) : CascaderLoaderStore :=
  let previous := if append then mget (pages s) key ?? [] else [] in
  mkStore (mset (pages s) key (append_new (map cn_value previous) previous items))
    (mset (states s) key (mkLoad false false hasMore cursor)) (detached s).

Definition withDetached (s : CascaderLoaderStore) (items : list CascaderNode)
    : CascaderLoaderStore :=
  mkStore (pages s) (states s)
    (fold_left (fun m item => mset m (cn_value item) item) items (detached s)).

Definition chain_step (st : jsmap (list CascaderNode) * jsmap CascaderNode * string)
    (node : CascaderNode) : jsmap (list CascaderNode) * jsmap CascaderNode * string :=
  let '(pages, detached, parentKey) := st in
  let pages' :=
    match mget pages parentKey with
    | None => mset pages parentKey [node]
    | Some bucket =>
        if some (fun entry => String.eqb (cn_value entry) (cn_value node)) bucket then pages
        else mset pages parentKey (bucket ++ [node])
    end in
  (pages', mset detached (cn_value node) node, cn_value node).
Definition withChain (s : CascaderLoaderStore) (chain : list CascaderNode)
    : CascaderLoaderStore :=
  let '(pages, detached, _) :=
    fold_left chain_step chain (pages s, detached s, CASCADER_ROOT_KEY) in
  mkStore pages (states s) detached.

(** ** Record updates *)
Definition set_store (l : Loader) (s : CascaderLoaderStore) : Loader :=
  mkLoader s (search l) (latest l) (controllers l) (aborted l) (fresh l) (requestIds l)
    (inflight l) (moreLatch l) (attempted l) (known l) (prefetchTimer l) (epoch l)
    (pending l) (loadErrors l).
Definition set_search (l : Loader) (s : option CascaderSearchSlice) : Loader :=
  mkLoader (store l) s (latest l) (controllers l) (aborted l) (fresh l) (requestIds l)
    (inflight l) (moreLatch l) (attempted l) (known l) (prefetchTimer l) (epoch l)
    (pending l) (loadErrors l).
Definition set_latch (l : Loader) (m : jsmap string) : Loader :=
  mkLoader (store l) (search l) (latest l) (controllers l) (aborted l) (fresh l)
    (requestIds l) (inflight l) m (attempted l) (known l) (prefetchTimer l) (epoch l)
    (pending l) (loadErrors l).
Definition set_attempted (l : Loader) (s : jsset) : Loader :=
  mkLoader (store l) (search l) (latest l) (controllers l) (aborted l) (fresh l)
    (requestIds l) (inflight l) (moreLatch l) s (known l) (prefetchTimer l) (epoch l)
    (pending l) (loadErrors l).
Definition set_timer (l : Loader) (t : option string) : Loader :=
  mkLoader (store l) (search l) (latest l) (controllers l) (aborted l) (fresh l)
    (requestIds l) (inflight l) (moreLatch l) (attempted l) (known l) t (epoch l)
    (pending l) (loadErrors l).
Definition set_known (l : Loader) (m : jsmap CascaderNode) : Loader :=
  mkLoader (store l) (search l) (latest l) (controllers l) (aborted l) (fresh l)
    (requestIds l) (inflight l) (moreLatch l) (attempted l) m (prefetchTimer l) (epoch l)
    (pending l) (loadErrors l).
Definition set_requestIds (l : Loader) (m : jsmap nat) : Loader :=
  mkLoader (store l) (search l) (latest l) (controllers l) (aborted l) (fresh l) m
    (inflight l) (moreLatch l) (attempted l) (known l) (prefetchTimer l) (epoch l)
    (pending l) (loadErrors l).
Definition set_requests (l : Loader) (c : jsmap nat) (a : list nat) (i : jsmap string)
    (p : list Request) : Loader :=
  mkLoader (store l) (search l) (latest l) c a (fresh l) (requestIds l) i (moreLatch l)
    (attempted l) (known l) (prefetchTimer l) (epoch l) p (loadErrors l).
Definition report (l : Loader) (parent : option string) (reason : CascaderLoadReason) : Loader :=
  mkLoader (store l) (search l) (latest l) (controllers l) (aborted l) (fresh l)
    (requestIds l) (inflight l) (moreLatch l) (attempted l) (known l) (prefetchTimer l)
    (epoch l) (pending l) (loadErrors l ++ [(parent, reason)]).

(** ** The request machinery *)
Fixpoint remember_node (m : jsmap CascaderNode) (node : CascaderNode) : jsmap CascaderNode :=
  fold_left remember_node (cn_children node) (mset m (cn_value node) node).
Definition remember (l : Loader) (nodes : list CascaderNode) : Loader :=
  set_known l (fold_left remember_node nodes (known l)).

Definition abortKey (l : Loader) (key : string) : Loader :=
  match mget (controllers l) key with
  | None => l
  | Some c =>
      set_requests l (mdel (controllers l) key) (c :: aborted l) (mdel (inflight l) key) (pending l)
  end.

(** [new AbortController()], registered under [key], and the promise started. *)
Definition start_request (l : Loader) (key : string) (sig : option string) (kind : RequestKind)
    (id : nat) : Loader :=
  mkLoader (store l) (search l) (latest l) (mset (controllers l) key (fresh l)) (aborted l)
    (S (fresh l)) (requestIds l)
    (match sig with Some s => mset (inflight l) key s | None => inflight l end)
    (moreLatch l) (attempted l) (known l) (prefetchTimer l) (epoch l)
    (pending l ++ [mkRequest kind (fresh l) id (epoch l)]) (loadErrors l).
Definition bump_id (l : Loader) (key : string) : Loader :=
  set_requestIds l (mset (requestIds l) key (S (mget (requestIds l) key ?? 0))).

Definition load_signature (append : bool) (cursor : option string) : string :=
  (if append then "1" else "0") +:+ ":" +:+ (cursor ?? "").

Definition runLoad (l : Loader) (key : string) (reason : CascaderLoadReason)
    (cursor : option string) (append : bool) : Loader :=
  let props := (latest l).1 in
  if negb (p_getChildren props) then l
  else
    let sig := load_signature append cursor in
    if match mget (inflight l) key with Some s => String.eqb s sig | None => false end then l
    else
      let l1 := bump_id (abortKey l key) key in
      let node := if String.eqb key CASCADER_ROOT_KEY then None
                  else match mget (byValue (p_base props)) key with
                       | Some n => Some n
                       | None => mget (known l1) key
                       end in
      let l2 := start_request l1 key (Some sig) (LevelLoad key reason cursor append sig node)
                  (mget (requestIds l1) key ?? 0) in
      set_store l2 (withLoadState (store l2) key (fun s =>
        mkLoad true false (ls_hasMore s) (ls_cursor s))).

Definition ensureLevel (l : Loader) (key : string) (reason : CascaderLoadReason) : Loader :=
  let '(props, current) := latest l in
  if negb (p_getChildren props) then l
  else if mhas (states current) key then l
  else if mhas (childrenOf (p_base props)) key then l
  else runLoad l key reason None false.

Definition loadMore (l : Loader) (key : string) : Loader :=
  let '(props, current) := latest l in
  if negb (p_getChildren props) then l
  else match mget (states current) key with
       | None => l
       | Some state =>
           if ls_loading state || negb (ls_hasMore state) then l
           else
             let loaded := length (mget (pages current) key ?? []) in
             let sig := show_nat loaded +:+ ":" +:+ (ls_cursor state ?? "") in
             if match mget (moreLatch l) key with Some s => String.eqb s sig | None => false end
             then l
             else runLoad (set_latch l (mset (moreLatch l) key sig)) key RMore (ls_cursor state) true
       end.

Definition retryLevel (l : Loader) (key : string) : Loader :=
  let '(props, current) := latest l in
  if negb (p_getChildren props) then l
  else match mget (states current) key with
       | None => l
       | Some state =>
           if negb (ls_error state) then l
           else
             let loaded := length (mget (pages current) key ?? []) in
             let more := Nat.ltb 0 loaded in
             runLoad (set_latch l (mdel (moreLatch l) key)) key RRetry
               (if more then ls_cursor state else None) more
       end.

Definition evict (s : CascaderLoaderStore) (key : string) : CascaderLoaderStore :=
  if negb (mhas (states s) key) && negb (mhas (pages s) key) then s
  else mkStore (mdel (pages s) key) (mdel (states s) key) (detached s).
Definition invalidateLevel (l : Loader) (value : option string) : Loader :=
  let key := value ?? CASCADER_ROOT_KEY in
  let l1 := bump_id (abortKey l key) key in
  let l2 := set_latch l1 (mdel (moreLatch l1) key) in
  set_store l2 (evict (store l2) key).

Definition prefetchNode (l : Loader) (node : option CascaderNode) : Loader :=
  let '(props, current) := latest l in
  match node with
  | Some n =>
      if negb (p_prefetch props) || negb (p_getChildren props) || isCascaderMoreNode n ||
         negb (cn_hasChildren n) || mhas (states current) (cn_value n) then l
      else set_timer l (Some (cn_value n))
  | None => l
  end.

(** ** Search and resolve *)
Definition prev_results (s : option CascaderSearchSlice) : list CascaderNode :=
  match s with Some sl => sl_results sl | None => [] end.

Definition runSearch (l : Loader) (text : string) : Loader :=
  let props := (latest l).1 in
  if negb (p_onSearch props) then l
  else
    let l1 := abortKey l SEARCH_KEY in
    let id := S (mget (requestIds l1) SEARCH_KEY ?? 0) in
    let l2 := start_request (bump_id l1 SEARCH_KEY) SEARCH_KEY None
                (SearchLoad text (p_path props)) id in
    set_search l2 (Some (mkSlice text (prev_results (search l2)) true false)).

Definition runResolve (l : Loader) (value : string) : Loader :=
  if negb (p_resolveValue (latest l).1) then l
  else
    let key := RESOLVE_PREFIX +:+ value in
    start_request (abortKey l key) key None (ResolveLoad value) 0.

(** ** Responses *)
Definition rq_key (r : Request) : string :=
  match rq_kind r with
  | LevelLoad key _ _ _ _ _ => key
  | SearchLoad _ _ => SEARCH_KEY
  | ResolveLoad value => RESOLVE_PREFIX +:+ value
  end.

(** [settle()] *)
Definition settle_request (l : Loader) (r : Request) : Loader :=
  let key := rq_key r in
  let inflight' :=
    match rq_kind r, mget (inflight l) key with
    | LevelLoad _ _ _ _ sig _, Some s => if String.eqb s sig then mdel (inflight l) key else inflight l
    | _, _ => inflight l
    end in
  let controllers' :=
    match mget (controllers l) key with
    | Some c => if Nat.eqb c (rq_controller r) then mdel (controllers l) key else controllers l
    | None => controllers l
    end in
  set_requests l controllers' (aborted l) inflight' (pending l).

(** [stale()]; a resolve has no request id to check. *)
Definition is_stale (l : Loader) (r : Request) : bool :=
  bool_decide (rq_controller r ∈ aborted l) || negb (Nat.eqb (rq_epoch r) (epoch l)) ||
  match rq_kind r with
  | ResolveLoad _ => false
  | _ => match mget (requestIds l) (rq_key r) with
         | Some id => negb (Nat.eqb (rq_id r) id)
         | None => true
         end
  end.

Definition response_items (r : Response) : list CascaderNode :=
  match r with Items items | Result items _ _ => items | Rejected => [] end.
Definition response_cursor (r : Response) : option string :=
  match r with Result _ c _ => c | _ => None end.
Definition response_more (r : Response) : bool :=
  match r with
  | Result _ c more => more ?? bool_decide (is_Some c)
  | _ => false
  end.

(** A settled request that is not stale. *)
Definition land (l : Loader) (r : Request) (resp : Response) : Loader :=
  match rq_kind r, resp with
  | LevelLoad key reason _ _ _ _, Rejected =>
      report (set_store l (withLoadState (store l) key (fun s =>
                mkLoad false true (ls_hasMore s) (ls_cursor s))))
        (if String.eqb key CASCADER_ROOT_KEY then None else Some key) reason
  | LevelLoad key _ _ append _ _, _ =>
      let l1 := if append then l else set_latch l (mdel (moreLatch l) key) in
      let l2 := remember l1 (response_items resp) in
      set_store l2 (withPage (store l2) key (response_items resp) append (response_more resp)
                      (response_cursor resp))
  | SearchLoad text _, Rejected =>
      report (set_search l (Some (mkSlice text (prev_results (search l)) false true)))
        None RSearch
  | SearchLoad text _, _ =>
      let l1 := remember l (response_items resp) in
      set_search (set_store l1 (withDetached (store l1) (response_items resp)))
        (Some (mkSlice text (response_items resp) false false))
  | ResolveLoad _, Rejected => report l None RResolve
  | ResolveLoad _, _ =>
      match response_items resp with
      | [] => l
      | chain => let l1 := remember l chain in set_store l1 (withChain (store l1) chain)
      end
  end.

(** A promise settles: it leaves [pending], [settle] runs, a failed resolve is
    un-attempted, and a response that is not stale lands. *)
Definition respond (l : Loader) (n : nat) (resp : Response) : Loader :=
  match pending l !! n with
  | None => l
  | Some r =>
      let l1 := settle_request
        (set_requests l (controllers l) (aborted l) (inflight l)
           (take n (pending l) ++ drop (S n) (pending l))) r in
      let l2 := match rq_kind r, resp with
                | ResolveLoad value, Rejected => set_attempted l1 (sdel (attempted l1) value)
                | _, _ => l1
                end in
      if is_stale l2 r then l2 else land l2 r resp
  end.

(** ** Resets and effects *)
Definition abort_all (l : Loader) : Loader :=
  set_requests l [] (map snd (controllers l) ++ aborted l) [] (pending l).

Definition unload (prev : CascaderLoaderStore) (st : jsmap CascaderLoadState) (key : string)
    : jsmap CascaderLoadState :=
  match mget (states prev) key with
  | Some state =>
      if negb (ls_loading state) then st
      else if Nat.ltb 0 (length (mget (pages prev) key ?? []))
      then mset st key (mkLoad false (ls_error state) (ls_hasMore state) (ls_cursor state))
      else mdel st key
  | None => st
  end.
Definition cancelAll (l : Loader) : Loader :=
  let keys := mkeys (controllers l) in
  let l1 := set_timer (abort_all l) None in
  if Nat.eqb (length keys) 0 then l1
  else
    let s := store l1 in
    let l2 := set_store l1 (mkStore (pages s) (fold_left (unload s) keys (states s)) (detached s)) in
    set_search l2 (match search l2 with
                   | Some sl => if sl_loading sl
                                then Some (mkSlice (sl_query sl) (sl_results sl) false (sl_error sl))
                                else Some sl
                   | None => None
                   end).

(** The [loadKey] effect, when the key changed. *)
Definition load_key_changed (l : Loader) : Loader :=
  let l1 := abort_all l in
  mkLoader createStore None (latest l1) (controllers l1) (aborted l1) (fresh l1)
    (requestIds l1) (inflight l1) [] [] [] None (S (epoch l1)) (pending l1) (loadErrors l1).

(** The [enabled] effect. *)
Definition enabled_effect (l : Loader) : Loader :=
  if p_enabled (latest l).1 then l
  else if Nat.eqb (length (controllers l)) 0 then l
  else cancelAll l.

Definition unmount (l : Loader) : Loader :=
  set_timer (set_requestIds (abort_all l) []) None.

(** The effect on the levels on screen. *)
Definition level_effect (l : Loader) : Loader :=
  let props := (latest l).1 in
  if negb (p_enabled props) || negb (p_getChildren props) then l
  else fold_left (fun s key => ensureLevel s key RLevel) (p_levels props) l.

(** The search effect (the debounce timer firing is [SearchTimer]) and its cleanup. *)
Definition search_effect (l : Loader) : Loader :=
  let props := (latest l).1 in
  if negb (p_onSearch props) then l
  else if negb (p_enabled props) || String.eqb (trim (p_query props)) ""
  then set_search (abortKey l SEARCH_KEY) None
  else l.

Definition resolve_one (l : Loader) (value : string) : Loader :=
  if String.eqb value "" || sin value (attempted l) ||
     mhas (byValue (p_base (latest l).1)) value || mhas (known l) value then l
  else runResolve (set_attempted l (sadd (attempted l) value)) value.
Definition resolve_effect (l : Loader) : Loader :=
  let props := (latest l).1 in
  if negb (p_enabled props) || negb (p_resolveValue props) then l
  else fold_left resolve_one (p_values props) l.

Inductive event :=
| Committed (p : LoaderProps)
| LoadKeyChanged
| EnabledEffect
| LevelEffect
| SearchEffect
| SearchCleanup
| SearchTimer (text : string)
| ResolveEffect
| Ensure (key : string) (reason : CascaderLoadReason)
| LoadMore (key : string)
| Retry (key : string)
| Invalidate (value : option string)
| Prefetch (node : option CascaderNode)
| PrefetchTimer
| Respond (n : nat) (r : Response)
| Unmount.

Definition handle (l : Loader) (e : event) : Loader :=
  match e with
  | Committed p =>
      mkLoader (store l) (search l) (p, store l) (controllers l) (aborted l) (fresh l)
        (requestIds l) (inflight l) (moreLatch l) (attempted l) (known l) (prefetchTimer l)
        (epoch l) (pending l) (loadErrors l)
  | LoadKeyChanged => load_key_changed l
  | EnabledEffect => enabled_effect l
  | LevelEffect => level_effect l
  | SearchEffect => search_effect l
  | SearchCleanup => abortKey l SEARCH_KEY
  | SearchTimer text => runSearch l text
  | ResolveEffect => resolve_effect l
  | Ensure key reason => ensureLevel l key reason
  | LoadMore key => loadMore l key
  | Retry key => retryLevel l key
  | Invalidate value => invalidateLevel l value
  | Prefetch node => prefetchNode l node
  | PrefetchTimer =>
      match prefetchTimer l with
      | Some key => ensureLevel (set_timer l None) key RPrefetch
      | None => l
      end
  | Respond n r => respond l n r
  | Unmount => unmount l
  end.
Definition run (l : Loader) (es : list event) : Loader := fold_left handle es l.

Definition initial (p : LoaderProps) : Loader :=
  mkLoader createStore None (p, createStore) [] [] 0 [] [] [] [] [] None 0 [] [].

(** ** What the hook returns *)
Definition search_results (l : Loader) (p : LoaderProps) : option (list CascaderNode) :=
  let trimmed := trim (p_query p) in
  if negb (p_onSearch p) || String.eqb trimmed "" then None
  else match search l with
       | Some sl => if String.eqb (sl_query sl) trimmed then Some (sl_results sl) else Some []
       | None => Some []
       end.
Definition search_state (l : Loader) (p : LoaderProps) : option CascaderLoadState :=
  let trimmed := trim (p_query p) in
  if negb (p_onSearch p) || String.eqb trimmed "" then None
  else
    let settled := match search l with Some sl => String.eqb (sl_query sl) trimmed | None => false end in
    Some (mkLoad
      (negb settled || match search l with Some sl => sl_loading sl | None => false end)
      (settled && match search l with Some sl => sl_error sl | None => false end) false None).
