(* ===== verification/CascaderLoaderLaws.v ===== *)
(** * The properties of the cascader's loader

    Over any interleaving of commits, effects, calls, timers and responses: a
    level that reads as loading has a live request, each key has at most one
    live request, and a response that was overtaken changes nothing. *)
From S2P Require Import Prelude JsString JsMap CascaderLib CascaderLoader.

(** ** Reserved keys *)
Definition reserved (k : string) : bool :=
  String.eqb k SEARCH_KEY || starts_with RESOLVE_PREFIX k.

Definition plain_props (p : LoaderProps) : Prop :=
  Forall (fun k => reserved k = false) (p_levels p).
(** Level keys are node values or the root key, never the two reserved forms;
    the component stays mounted. *)
Definition plain_event (e : event) : Prop :=
  match e with
  | Committed p => plain_props p
  | Ensure k _ | LoadMore k | Retry k => reserved k = false
  | Invalidate v => reserved (v ?? CASCADER_ROOT_KEY) = false
  | Prefetch (Some n) => reserved (cn_value n) = false
  | Unmount => False
  | _ => True
  end.

Definition is_level (r : Request) (key : string) : Prop :=
  match rq_kind r with LevelLoad k _ _ _ _ _ => k = key | _ => False end.
Definition checks_id (r : Request) : bool :=
  match rq_kind r with ResolveLoad _ => false | _ => true end.

Lemma level_key r key : is_level r key -> rq_key r = key.
Proof. unfold is_level, rq_key. by destruct (rq_kind r). Qed.

(** ** The invariant *)
Record loader_inv (l : Loader) : Prop := {
  inv_ctl : NoDup (mkeys (controllers l));
  inv_states : NoDup (mkeys (states (store l)));
  inv_reg : forall key c, mget (controllers l) key = Some c ->
    c < fresh l /\ c ∉ aborted l /\ forall key', mget (controllers l) key' = Some c -> key' = key;
  inv_aborted : Forall (fun c => c < fresh l) (aborted l);
  inv_pending : forall r, r ∈ pending l ->
    rq_controller r < fresh l /\ rq_epoch r <= epoch l /\
    (checks_id r = true -> exists id, mget (requestIds l) (rq_key r) = Some id /\ rq_id r <= id) /\
    (checks_id r = true \/ reserved (rq_key r) = true) /\
    (forall key, is_level r key -> reserved key = false);
  inv_distinct : NoDup (map rq_controller (pending l));
  inv_live : forall r, r ∈ pending l -> is_stale l r = false ->
    mget (controllers l) (rq_key r) = Some (rq_controller r);
  inv_loading : forall key s, mget (states (store l)) key = Some s -> ls_loading s = true ->
    exists r, r ∈ pending l /\ is_level r key /\ is_stale l r = false;
  inv_plain : plain_props (latest l).1 /\
    match prefetchTimer l with Some k => reserved k = false | None => True end
}.

(** What the invariant and staleness read of the state. *)
Lemma stale_ext l l' r :
  aborted l' = aborted l -> epoch l' = epoch l -> requestIds l' = requestIds l ->
  is_stale l' r = is_stale l r.
Proof. intros H1 H2 H3. unfold is_stale. by rewrite H1, H2, H3. Qed.

Lemma is_stale_false l r :
  is_stale l r = false <->
  rq_controller r ∉ aborted l /\ rq_epoch r = epoch l /\
  (checks_id r = true -> mget (requestIds l) (rq_key r) = Some (rq_id r)).
Proof.
  unfold is_stale, checks_id. rewrite !orb_false_iff, bool_decide_eq_false, negb_false_iff, Nat.eqb_eq.
  assert (Hid : forall o, match o with Some id => negb (Nat.eqb (rq_id r) id) | None => true end = false
                <-> o = Some (rq_id r)).
  { intros [id|]; [|done]. rewrite negb_false_iff, Nat.eqb_eq. naive_solver. }
  destruct (rq_kind r); rewrite ?Hid; naive_solver.
Qed.

(** *** Quiet changes: nothing the invariant reads moves *)
Record quiet (l l' : Loader) : Prop := {
  q_ctl : controllers l' = controllers l;
  q_aborted : aborted l' = aborted l;
  q_fresh : fresh l' = fresh l;
  q_ids : requestIds l' = requestIds l;
  q_epoch : epoch l' = epoch l;
  q_pending : pending l' = pending l
}.

Lemma quiet_inv l l' :
  quiet l l' -> loader_inv l ->
  NoDup (mkeys (states (store l'))) ->
  (forall key s, mget (states (store l')) key = Some s -> ls_loading s = true ->
     exists s0, mget (states (store l)) key = Some s0 /\ ls_loading s0 = true) ->
  (plain_props (latest l').1 /\
   match prefetchTimer l' with Some k => reserved k = false | None => True end) ->
  loader_inv l'.
Proof.
  intros [Q1 Q2 Q3 Q4 Q5 Q6] I Hnd Hload Hplain.
  assert (Hs : forall r, is_stale l' r = is_stale l r) by (intros; by apply stale_ext).
  constructor; rewrite ?Q1, ?Q2, ?Q3, ?Q4, ?Q5, ?Q6; try apply I; try done.
  - intros r Hr. rewrite Hs. by apply I.
  - intros key s Hk Hl. destruct (Hload key s Hk Hl) as (s0 & Hk0 & Hl0).
    destruct (inv_loading l I key s0 Hk0 Hl0) as (r & Hr & Hlev & Hst).
    exists r. rewrite Hs. done.
Qed.

Lemma quiet_store l s : quiet l (set_store l s).
Proof. by constructor. Qed.
Lemma same_states_inv l l' :
  quiet l l' -> loader_inv l -> states (store l') = states (store l) ->
  latest l' = latest l -> prefetchTimer l' = prefetchTimer l -> loader_inv l'.
Proof.
  intros Q I Hs Hl Ht. apply (quiet_inv l); rewrite ?Hs, ?Hl, ?Ht; try done; try apply I. eauto.
Qed.

(** *** Dead requests: stale now and for good *)
Definition dead (l : Loader) (r : Request) : Prop :=
  rq_controller r ∈ aborted l \/ rq_epoch r < epoch l \/
  (checks_id r = true /\ exists id, mget (requestIds l) (rq_key r) = Some id /\ rq_id r < id).

Lemma dead_stale l r : dead l r -> is_stale l r = true.
Proof.
  intros H. destruct (is_stale l r) eqn:E; [done|]. apply is_stale_false in E as (H1 & H2 & H3).
  destruct H as [H|[H|(Hc & id & Hid & Hlt)]]; [done|lia|].
  rewrite H3 in Hid by done. injection Hid as Heq. lia.
Qed.

Lemma stale_dead l r : loader_inv l -> r ∈ pending l -> is_stale l r = true -> dead l r.
Proof.
  intros I Hr Hs. destruct (inv_pending l I r Hr) as (_ & Hep & Hid & _).
  destruct (decide (rq_controller r ∈ aborted l)) as [Ha|Ha]; [by left|right].
  destruct (decide (rq_epoch r = epoch l)) as [He|He]; [right|left; lia].
  destruct (checks_id r) eqn:Hc.
  - split; [done|]. destruct (Hid eq_refl) as (id & Hi & Hle). exists id. split; [done|].
    destruct (decide (rq_id r = id)) as [Heq|]; [|lia]. exfalso. subst id.
    assert (is_stale l r = false) by (apply is_stale_false; done). congruence.
  - exfalso. assert (is_stale l r = false); [|congruence]. apply is_stale_false.
    split_and!; [done..|congruence].
Qed.

(** The refs a stale guard reads only move forward. *)
Definition forward (l l' : Loader) : Prop :=
  (forall c, c ∈ aborted l -> c ∈ aborted l') /\ epoch l <= epoch l' /\
  (forall k id, mget (requestIds l) k = Some id ->
     exists id', mget (requestIds l') k = Some id' /\ id <= id').

Lemma forward_refl l : forward l l.
Proof. split_and!; eauto. Qed.
Lemma forward_trans a b c : forward a b -> forward b c -> forward a c.
Proof.
  intros (A1 & A2 & A3) (B1 & B2 & B3). split_and!; [auto|lia|].
  intros k id Hk. destruct (A3 k id Hk) as (i1 & Hi & ?). destruct (B3 k i1 Hi) as (i2 & ? & ?).
  exists i2. split; [done|lia].
Qed.
Lemma dead_forward l l' r : forward l l' -> dead l r -> dead l' r.
Proof.
  intros (F1 & F2 & F3) [H|[H|(Hc & id & Hid & Hlt)]]; [left; auto|right; left; lia|].
  right; right. split; [done|]. destruct (F3 _ _ Hid) as (id' & Hid' & Hle).
  exists id'. split; [done|lia].
Qed.
Lemma live_back l l' r :
  loader_inv l -> r ∈ pending l -> forward l l' -> is_stale l' r = false -> is_stale l r = false.
Proof.
  intros I Hr F Hs. destruct (is_stale l r) eqn:E; [|done].
  apply (stale_dead l r I Hr) in E. apply (dead_forward _ _ _ F), dead_stale in E. congruence.
Qed.

(** *** Aborting a key *)
Lemma abort_fields l key :
  latest (abortKey l key) = latest l /\ pending (abortKey l key) = pending l /\
  requestIds (abortKey l key) = requestIds l /\ epoch (abortKey l key) = epoch l /\
  fresh (abortKey l key) = fresh l /\ prefetchTimer (abortKey l key) = prefetchTimer l /\
  store (abortKey l key) = store l.
Proof. unfold abortKey. by destruct (mget _ _). Qed.

Lemma abort_aborted l key :
  aborted (abortKey l key)
  = match mget (controllers l) key with Some c => c :: aborted l | None => aborted l end.
Proof. unfold abortKey. by destruct (mget _ _). Qed.

Lemma abort_controllers l key : controllers (abortKey l key) = mdel (controllers l) key.
Proof.
  unfold abortKey. destruct (mget (controllers l) key) eqn:E; [done|].
  symmetry. revert E. generalize (controllers l). intros m.
  induction m as [|[k v] m IH]; simpl; [done|].
  destruct (String.eqb k key); [done|]. intros H. by rewrite IH.
Qed.

Lemma abort_forward l key : forward l (abortKey l key).
Proof.
  destruct (abort_fields l key) as (_ & _ & Hi & He & _). split_and!.
  - intros c Hc. rewrite abort_aborted. destruct (mget _ _); [by right|done].
  - by rewrite He.
  - intros k id Hk. rewrite Hi. eauto.
Qed.

(** A live request of the key is aborted with it; the others are untouched. *)
Lemma abort_kills l key r :
  loader_inv l -> r ∈ pending l -> rq_key r = key -> dead (abortKey l key) r.
Proof.
  intros I Hr <-. destruct (is_stale l r) eqn:E.
  - eapply dead_forward; [apply abort_forward|]. by apply stale_dead.
  - left. rewrite abort_aborted, (inv_live l I r Hr E). left.
Qed.
Lemma abort_spares l key r :
  loader_inv l -> r ∈ pending l -> rq_key r <> key -> is_stale l r = false ->
  rq_controller r ∉ aborted (abortKey l key).
Proof.
  intros I Hr Hne Hs. pose proof (inv_live l I r Hr Hs) as Hc.
  apply is_stale_false in Hs as (Ha & _). rewrite abort_aborted.
  destruct (mget (controllers l) key) as [c|] eqn:E; [|done].
  rewrite not_elem_of_cons. split; [|done]. intros Heq.
  destruct (inv_reg l I _ _ E) as (_ & _ & Huniq). apply Hne, Huniq. by rewrite <- Heq.
Qed.

Lemma loading_plain l key s :
  loader_inv l -> mget (states (store l)) key = Some s -> ls_loading s = true ->
  reserved key = false.
Proof.
  intros I Hk Hl. destruct (inv_loading l I key s Hk Hl) as (r & Hr & Hlev & _).
  destruct (inv_pending l I r Hr) as (_ & _ & _ & _ & H). by apply H.
Qed.

(** *** One step of the machinery: abort a key, move its id forward, perhaps
    start a request under it, and store levels that are not loading. *)
Definition rekeyed (l : Loader) (key : string) (ids : jsmap nat) (started : option Request)
    (l' : Loader) : Prop :=
  aborted l' = aborted (abortKey l key) /\ epoch l' = epoch l /\ requestIds l' = ids /\
  latest l' = latest l /\ prefetchTimer l' = prefetchTimer l /\
  match started with
  | None => controllers l' = mdel (controllers l) key /\ fresh l' = fresh l /\
            pending l' = pending l
  | Some r => controllers l' = mset (mdel (controllers l) key) key (fresh l) /\
              fresh l' = S (fresh l) /\ pending l' = pending l ++ [r] /\
              rq_controller r = fresh l /\ rq_epoch r = epoch l /\ rq_key r = key /\
              (checks_id r = true -> mget ids key = Some (rq_id r)) /\
              (checks_id r = true \/ reserved key = true) /\
              (forall k, is_level r k -> reserved k = false)
  end.

Section Rekeyed.
Context (l : Loader) (key : string) (ids : jsmap nat) (started : option Request) (l' : Loader).
Context (I : loader_inv l) (R : rekeyed l key ids started l').
Context (Hother : forall k, k <> key -> mget ids k = mget (requestIds l) k).
Context (Hmono : forall id, mget (requestIds l) key = Some id ->
  exists id', mget ids key = Some id' /\ id <= id').

Lemma rekeyed_forward : forward l l'.
Proof using I R Hother Hmono.
  destruct R as (Hab & Hep & Hids & _). split_and!.
  - intros c Hc. rewrite Hab. by apply abort_forward.
  - by rewrite Hep.
  - intros k id Hk. rewrite Hids. destruct (decide (k = key)) as [->|Hne]; [by apply Hmono|].
    rewrite Hother by done. eauto.
Qed.

Lemma rekeyed_aborted : Forall (fun c => c < fresh l) (aborted l').
Proof using I R.
  destruct R as (-> & _). rewrite abort_aborted.
  destruct (mget (controllers l) key) eqn:E; [|apply I].
  constructor; [by apply (inv_reg l I key)|apply I].
Qed.

Lemma rekeyed_controllers k :
  mget (mdel (controllers l) key) k = if String.eqb key k then None else mget (controllers l) k.
Proof using I. apply mget_del, I. Qed.

Lemma rekeyed_registered k c : mget (mdel (controllers l) key) k = Some c ->
  c < fresh l /\ c ∉ aborted l' /\ forall k', mget (mdel (controllers l) key) k' = Some c -> k' = k.
Proof using I R.
  rewrite rekeyed_controllers. destruct (String.eqb_spec key k) as [|Hne]; [done|]. intros Hc.
  destruct (inv_reg l I k c Hc) as (H1 & H2 & H3). split_and!; [done| |].
  - destruct R as (-> & _). rewrite abort_aborted.
    destruct (mget (controllers l) key) as [c'|] eqn:E; [|done].
    rewrite not_elem_of_cons. split; [|done]. intros ->. apply Hne. by apply H3.
  - intros k'. rewrite rekeyed_controllers. destruct (String.eqb key k'); [done|]. apply H3.
Qed.

(** A request still live is another key's, and registered. *)
Lemma rekeyed_live r : r ∈ pending l -> is_stale l' r = false ->
  rq_key r <> key /\ mget (mdel (controllers l) key) (rq_key r) = Some (rq_controller r).
Proof using I R Hother Hmono.
  intros Hr Hs. pose proof rekeyed_forward as F. destruct R as (Hab & Hep & _).
  assert (Hk : rq_key r <> key).
  { intros Hk. pose proof (abort_kills l key r I Hr Hk) as Hd.
    assert (dead l' r) as Hd'.
    { destruct Hd as [Hd|Hd]; [left; by rewrite Hab|].
      destruct (abort_fields l key) as (_ & _ & Hi & He & _). right.
      rewrite Hi, He in Hd. destruct Hd as [Hd|(Hc & id & Hid & Hlt')]; [left; by rewrite Hep|].
      right. split; [done|]. destruct F as (_ & _ & F3). destruct (F3 _ _ Hid) as (id' & ? & ?).
      exists id'. split; [done|lia]. }
    apply dead_stale in Hd'. congruence. }
  split; [done|]. rewrite rekeyed_controllers.
  destruct (String.eqb_spec key (rq_key r)); [congruence|].
  apply inv_live; [done..|]. by apply (live_back l l').
Qed.

Lemma rekeyed_keeps r : r ∈ pending l -> rq_key r <> key -> is_stale l r = false ->
  is_stale l' r = false.
Proof using I R Hother.
  destruct R as (Hab & Hep & Hids & _). intros Hr Hk Hs. apply is_stale_false. split_and!.
  - rewrite Hab. by apply abort_spares.
  - apply is_stale_false in Hs as (_ & He & _). by rewrite Hep.
  - apply is_stale_false in Hs as (_ & _ & Hid). rewrite Hids, Hother by done. done.
Qed.

Lemma rekeyed_pending r : r ∈ pending l ->
  rq_controller r < fresh l /\ rq_epoch r <= epoch l' /\
  (checks_id r = true -> exists id, mget (requestIds l') (rq_key r) = Some id /\ rq_id r <= id) /\
  (checks_id r = true \/ reserved (rq_key r) = true) /\
  (forall k, is_level r k -> reserved k = false).
Proof using I R Hother Hmono.
  intros Hr. destruct (inv_pending l I r Hr) as (H1 & H2 & H3 & H4 & H5).
  pose proof rekeyed_forward as (_ & _ & F3). destruct R as (_ & -> & _).
  split_and!; try done. intros Hc. destruct (H3 Hc) as (id & Hid & Hle).
  destruct (F3 _ _ Hid) as (id' & ? & ?). exists id'. split; [done|lia].
Qed.

(** What reads as loading was loading before, under another key, or is what
    was just started. *)
Context (Hnd : NoDup (mkeys (states (store l')))).
Context (Hload : forall k x, mget (states (store l')) k = Some x -> ls_loading x = true ->
  (k = key /\ exists r, started = Some r /\ is_level r key) \/
  (k <> key /\ exists x0, mget (states (store l)) k = Some x0 /\ ls_loading x0 = true)).

(** The request that keeps an earlier level loading. *)
Lemma rekeyed_loading k x0 : k <> key -> mget (states (store l)) k = Some x0 ->
  ls_loading x0 = true -> exists r, r ∈ pending l /\ is_level r k /\ is_stale l' r = false.
Proof using I R Hother.
  intros Hne Hk0 Hx0. destruct (inv_loading l I k x0 Hk0 Hx0) as (r0 & Hr0 & Hlev & Hs).
  exists r0. split_and!; [done|done|]. apply rekeyed_keeps; [done| |done].
  by rewrite (level_key r0 k Hlev).
Qed.

Lemma rekeyed_quiet : started = None -> loader_inv l'.
Proof using All.
  intros Hnone. pose proof R as (_ & _ & _ & Hlat & Htm & Hst).
  rewrite Hnone in Hst. destruct Hst as (Hc' & Hf' & Hp').
  constructor; rewrite ?Hc', ?Hf', ?Hp', ?Hlat, ?Htm; try done; try apply I.
  - apply mdel_NoDup, I.
  - apply rekeyed_registered.
  - apply rekeyed_aborted.
  - apply rekeyed_pending.
  - intros r0 Hr0 Hs. by apply rekeyed_live.
  - intros k x Hk Hx. rewrite Hnone in Hload.
    destruct (Hload k x Hk Hx) as [(_ & r1 & [=] & _)|(Hne & x0 & Hk0 & Hx0)].
    by apply (rekeyed_loading k x0).
Qed.

Lemma rekeyed_started r : started = Some r -> loader_inv l'.
Proof using All.
  intros Hsome. pose proof R as (Hab & Hep & Hids & Hlat & Htm & Hst).
  rewrite Hsome in Hst. destruct Hst as (Hc' & Hf' & Hp' & Hrc & Hre & Hrk & Hri & Hrr & Hrp).
  pose proof rekeyed_aborted as Hlt.
  assert (Hfresh : fresh l ∉ aborted l').
  { intros Hin. rewrite Forall_forall in Hlt. apply Hlt in Hin. lia. }
  assert (Hrlive : is_stale l' r = false).
  { apply is_stale_false. split_and!; [by rewrite Hrc|by rewrite Hep|by rewrite Hids, Hrk]. }
  constructor; rewrite ?Hc', ?Hf', ?Hp', ?Hlat, ?Htm; try done; try apply I.
  - apply mset_NoDup, mdel_NoDup, I.
  - intros k c. rewrite mget_set. destruct (String.eqb_spec key k) as [<-|Hne].
    + intros [= <-]. split_and!; [lia|done|].
      intros k'. rewrite mget_set. destruct (String.eqb_spec key k'); [done|].
      intros Hk'. apply rekeyed_registered in Hk' as [? _]. lia.
    + intros Hc. destruct (rekeyed_registered k c Hc) as (H1 & H2 & H3). split_and!; [lia|done|].
      intros k'. rewrite mget_set. destruct (String.eqb_spec key k'); [|apply H3].
      intros [= <-]. lia.
  - eapply Forall_impl; [exact Hlt|]. simpl. lia.
  - intros r0 [Hr0| ->%list_elem_of_singleton]%elem_of_app.
    + destruct (rekeyed_pending r0 Hr0) as (H1 & H2). split; [lia|done].
    + rewrite Hrk. split_and!; [lia|lia| |done|done]. intros Hck. rewrite Hids.
      exists (rq_id r). split; [by apply Hri|done].
  - rewrite map_app. simpl. apply NoDup_app. split_and!; [apply I| |apply NoDup_singleton].
    intros x Hx ->%list_elem_of_singleton. apply list_elem_of_fmap in Hx as (r0 & Heq & Hr0).
    apply rekeyed_pending in Hr0 as [? _]. lia.
  - intros r0 [Hr0| ->%list_elem_of_singleton]%elem_of_app Hs; [|by rewrite Hrk, mget_set_eq, Hrc].
    destruct (rekeyed_live r0 Hr0 Hs) as [Hk Hc]. by rewrite mget_set_ne by congruence.
  - intros k x Hk Hx. destruct (Hload k x Hk Hx) as [(-> & r1 & Hr1 & Hlev)|(Hne & x0 & Hk0 & Hx0)].
    + exists r. rewrite Hsome in Hr1. injection Hr1 as <-. split_and!; [set_solver|done|done].
    + destruct (rekeyed_loading k x0 Hne Hk0 Hx0) as (r0 & Hr0 & ? & ?). exists r0. set_solver.
Qed.
End Rekeyed.

Lemma rekeyed_inv l key ids started l' :
  loader_inv l -> rekeyed l key ids started l' ->
  (forall k, k <> key -> mget ids k = mget (requestIds l) k) ->
  (forall id, mget (requestIds l) key = Some id -> exists id', mget ids key = Some id' /\ id <= id') ->
  NoDup (mkeys (states (store l'))) ->
  (forall k x, mget (states (store l')) k = Some x -> ls_loading x = true ->
     (k = key /\ exists r, started = Some r /\ is_level r key) \/
     (k <> key /\ exists x0, mget (states (store l)) k = Some x0 /\ ls_loading x0 = true)) ->
  loader_inv l' /\ forward l l'.
Proof.
  intros I R Hother Hmono Hnd Hload. split; [|by eapply rekeyed_forward].
  destruct started as [r|]; [by eapply rekeyed_started|by eapply rekeyed_quiet].
Qed.

(** ** Every event *)
Lemma withLoadState_get s key f k :
  mget (states (withLoadState s key f)) k
  = if String.eqb key k then Some (f (mget (states s) key ?? NO_STATE)) else mget (states s) k.
Proof.
  unfold withLoadState. destruct (mhas (states s) key) eqn:Eh; simpl.
  - destruct (sameLoadState _ _) eqn:Es; [|simpl; apply mget_set].
    apply bool_decide_eq_true_1 in Es. destruct (String.eqb_spec key k) as [<-|]; [|done].
    apply mhas_spec in Eh as [x Hx]. rewrite Hx in Es |- *. simpl in *. by rewrite <- Es.
  - apply mget_set.
Qed.
Lemma withLoadState_NoDup s key f :
  NoDup (mkeys (states s)) -> NoDup (mkeys (states (withLoadState s key f))).
Proof.
  unfold withLoadState. destruct (_ && _); [done|]. simpl. apply mset_NoDup.
Qed.

Notation safe l l' := (loader_inv l' /\ forward l l').

Lemma safe_trans a b c : safe a b -> safe b c -> safe a c.
Proof. intros [_ F1] [I2 F2]. split; [done|]. by eapply forward_trans. Qed.

Lemma quiet_safe l l' :
  quiet l l' -> loader_inv l -> states (store l') = states (store l) ->
  latest l' = latest l -> prefetchTimer l' = prefetchTimer l -> safe l l'.
Proof.
  intros Q I H1 H2 H3. split; [by apply (same_states_inv l)|].
  destruct Q as [_ Q2 _ Q4 Q5 _]. split_and!; rewrite ?Q2, ?Q4, ?Q5; eauto.
Qed.

Lemma runLoad_safe l key reason cursor append :
  loader_inv l -> reserved key = false -> safe l (runLoad l key reason cursor append).
Proof.
  intros I Hres. unfold runLoad. cbv zeta. destruct (negb _); [by split; [|apply forward_refl]|].
  set (sig := load_signature append cursor).
  destruct (match mget (inflight l) key with Some s => String.eqb s sig | None => false end);
    [by split; [|apply forward_refl]|].
  destruct (abort_fields l key) as (Hl & Hp & Hi & He & Hf & Ht & Hs).
  set (ids := mset (requestIds l) key (S (mget (requestIds l) key ?? 0))).
  eapply (rekeyed_inv l key ids); [done| | | | |].
  - unfold rekeyed, bump_id. simpl. rewrite Hi. fold ids.
    split_and!; [done|done|done|done|done|].
    instantiate (1 := Some _). simpl. rewrite abort_controllers, Hf, Hp, He.
    split_and!; [done..|reflexivity|done|done|done| |by left|].
    + intros _. unfold ids. by rewrite mget_set_eq.
    + by intros k <-.
  - intros k Hk. unfold ids. by rewrite mget_set_ne.
  - intros id Hid. unfold ids. rewrite mget_set_eq, Hid. simpl. eauto.
  - simpl. apply withLoadState_NoDup. rewrite Hs. apply I.
  - intros k x. simpl. rewrite Hs, withLoadState_get.
    destruct (String.eqb_spec key k) as [<-|Hne]; [left|right; eauto].
    split; [done|]. eexists. split; [done|]. done.
Qed.

Lemma latch_safe l m : loader_inv l -> safe l (set_latch l m).
Proof. intros I. by apply quiet_safe. Qed.
Lemma timer_safe l t :
  loader_inv l -> match t with Some k => reserved k = false | None => True end ->
  safe l (set_timer l t).
Proof.
  intros I Ht. split; [|split_and!; eauto]. apply (quiet_inv l); try done; [apply I|eauto|].
  split; [apply I|done].
Qed.
Lemma idle_safe l : loader_inv l -> safe l l.
Proof. split; [done|apply forward_refl]. Qed.

Lemma ensure_safe l key reason :
  loader_inv l -> reserved key = false -> safe l (ensureLevel l key reason).
Proof.
  intros I Hk. unfold ensureLevel. destruct (latest l) as [props current].
  destruct (negb _); [by apply idle_safe|]. destruct (mhas _ _); [by apply idle_safe|].
  destruct (mhas _ _); [by apply idle_safe|]. by apply runLoad_safe.
Qed.

Lemma loadMore_safe l key : loader_inv l -> reserved key = false -> safe l (loadMore l key).
Proof.
  intros I Hk. unfold loadMore. destruct (latest l) as [props current].
  destruct (negb _); [by apply idle_safe|]. destruct (mget _ key) as [st|]; [|by apply idle_safe].
  destruct (_ || _); [by apply idle_safe|]. cbv zeta.
  match goal with |- context [if ?t then _ else _] => destruct t end; [by apply idle_safe|].
  eapply safe_trans; [by apply latch_safe|]. apply runLoad_safe; [|done]. by apply latch_safe.
Qed.

Lemma retry_safe l key : loader_inv l -> reserved key = false -> safe l (retryLevel l key).
Proof.
  intros I Hk. unfold retryLevel. destruct (latest l) as [props current].
  destruct (negb _); [by apply idle_safe|]. destruct (mget _ key) as [st|]; [|by apply idle_safe].
  destruct (negb _); [by apply idle_safe|]. cbv zeta.
  eapply safe_trans; [by apply latch_safe|]. apply runLoad_safe; [|done]. by apply latch_safe.
Qed.

Lemma invalidate_safe l value :
  loader_inv l -> reserved (value ?? CASCADER_ROOT_KEY) = false -> safe l (invalidateLevel l value).
Proof.
  intros I Hk. unfold invalidateLevel. cbv zeta. set (key := value ?? CASCADER_ROOT_KEY) in *.
  destruct (abort_fields l key) as (Hl & Hp & Hi & He & Hf & Ht & Hs).
  set (ids := mset (requestIds l) key (S (mget (requestIds l) key ?? 0))).
  assert (Hnd : NoDup (mkeys (states (store l)))) by apply I.
  eapply (rekeyed_inv l key ids None); [done| | | | |].
  - unfold rekeyed, bump_id. simpl. rewrite Hi, abort_controllers, Hf, Hp, He. done.
  - intros k Hne. unfold ids. by rewrite mget_set_ne.
  - intros id Hid. unfold ids. rewrite mget_set_eq, Hid. simpl. eauto.
  - simpl. rewrite Hs. unfold evict. destruct (_ && _); [done|]. by apply mdel_NoDup.
  - intros k x. simpl. rewrite Hs. unfold evict.
    destruct (negb (mhas (states (store l)) key) && _) eqn:E; simpl.
    + apply andb_true_iff in E as [E _]. apply negb_true_iff, mhas_false in E.
      intros Hx Hlx. right. split; [congruence|eauto].
    + rewrite mget_del by done. destruct (String.eqb_spec key k); [done|]. eauto.
Qed.

Lemma reserved_search : reserved SEARCH_KEY = true.
Proof. done. Qed.
Lemma reserved_resolve v : reserved (RESOLVE_PREFIX +:+ v) = true.
Proof. unfold reserved. by rewrite starts_with_app, orb_true_r. Qed.

Lemma same_loading l key started k x :
  loader_inv l -> reserved key = true ->
  mget (states (store l)) k = Some x -> ls_loading x = true ->
  (k = key /\ exists r : Request, started = Some r /\ is_level r key) \/
  (k <> key /\ exists x0, mget (states (store l)) k = Some x0 /\ ls_loading x0 = true).
Proof.
  intros I Hr Hk Hx. right. split; [|eauto]. intros ->.
  rewrite (loading_plain l key x I Hk Hx) in Hr. done.
Qed.

Lemma abort_reserved_safe l key :
  loader_inv l -> reserved key = true -> safe l (abortKey l key).
Proof.
  intros I Hr. destruct (abort_fields l key) as (Hl & Hp & Hi & He & Hf & Ht & Hs).
  apply (rekeyed_inv l key (requestIds l) None); [done| |done|eauto| |].
  - unfold rekeyed. by rewrite Hi, abort_controllers, Hf, Hp, He.
  - rewrite Hs. apply I.
  - intros k x. rewrite Hs. by apply same_loading.
Qed.

Lemma runSearch_safe l text : loader_inv l -> safe l (runSearch l text).
Proof.
  intros I. unfold runSearch. cbv zeta. destruct (negb _); [by apply idle_safe|].
  destruct (abort_fields l SEARCH_KEY) as (Hl & Hp & Hi & He & Hf & Ht & Hs).
  set (ids := mset (requestIds l) SEARCH_KEY (S (mget (requestIds l) SEARCH_KEY ?? 0))).
  eapply (rekeyed_inv l SEARCH_KEY ids); [done| | | | |].
  - unfold rekeyed, bump_id. simpl. rewrite Hi. fold ids.
    split_and!; [done|done|done|done|done|].
    instantiate (1 := Some _). simpl. rewrite abort_controllers, Hf, Hp, He.
    split_and!; [done..|reflexivity|done|done|done| |by left|done].
    intros _. unfold ids. by rewrite mget_set_eq.
  - intros k Hk. unfold ids. by rewrite mget_set_ne.
  - intros id Hid. unfold ids. rewrite mget_set_eq, Hid. simpl. eauto.
  - simpl. rewrite Hs. apply I.
  - intros k x. simpl. rewrite Hs. by apply same_loading.
Qed.

Lemma runResolve_safe l value : loader_inv l -> safe l (runResolve l value).
Proof.
  intros I. unfold runResolve. cbv zeta. destruct (negb _); [by apply idle_safe|].
  set (key := RESOLVE_PREFIX +:+ value).
  destruct (abort_fields l key) as (Hl & Hp & Hi & He & Hf & Ht & Hs).
  eapply (rekeyed_inv l key (requestIds l)); [done| |done|eauto| |].
  - unfold rekeyed. simpl. rewrite Hi. split_and!; [done|done|done|done|done|].
    instantiate (1 := Some _). simpl. rewrite abort_controllers, Hf, Hp, He.
    split_and!; [done..|reflexivity|done|done|done|done|right; apply reserved_resolve|done].
  - simpl. rewrite Hs. apply I.
  - intros k x. simpl. rewrite Hs. apply same_loading; [done|apply reserved_resolve].
Qed.

Lemma resolve_effect_safe l : loader_inv l -> safe l (resolve_effect l).
Proof.
  intros I. unfold resolve_effect. cbv zeta. destruct (_ || _); [by apply idle_safe|].
  generalize (p_values (latest l).1). intros vs. revert l I.
  induction vs as [|v vs IH]; intros l I; simpl; [by apply idle_safe|].
  assert (Hone : safe l (resolve_one l v)).
  { unfold resolve_one. destruct (_ || _); [by apply idle_safe|].
    eapply safe_trans; [|apply runResolve_safe]; [by apply quiet_safe|].
    by apply (same_states_inv l). }
  eapply safe_trans; [exact Hone|]. apply IH, Hone.
Qed.

Lemma level_effect_safe l : loader_inv l -> safe l (level_effect l).
Proof.
  intros I. unfold level_effect. cbv zeta. destruct (_ || _); [by apply idle_safe|].
  pose proof (proj1 (inv_plain l I)) as Hp. unfold plain_props in Hp. revert Hp.
  generalize (p_levels (latest l).1). intros ks Hp. revert l I.
  induction Hp as [|k ks Hk _ IH]; intros l I; simpl; [by apply idle_safe|].
  assert (Hone : safe l (ensureLevel l k RLevel)) by by apply ensure_safe.
  eapply safe_trans; [exact Hone|]. apply IH, Hone.
Qed.

(** *** Aborting everything *)
Lemma abort_all_dead l r : loader_inv l -> r ∈ pending l -> dead (abort_all l) r.
Proof.
  intros I Hr. destruct (is_stale l r) eqn:E.
  - apply (stale_dead l r I Hr) in E. eapply dead_forward; [|exact E].
    split_and!; simpl; eauto. intros c Hc. apply elem_of_app. by right.
  - left. simpl. apply elem_of_app. left. pose proof (inv_live l I r Hr E) as Hc.
    apply list_elem_of_fmap. exists (rq_key r, rq_controller r). split; [done|].
    revert Hc. generalize (controllers l). intros m.
    induction m as [|[k c] m IH]; simpl; [done|].
    destruct (String.eqb_spec k (rq_key r)) as [->|]; [intros [= ->]; left|].
    intros Hc. right. by apply IH.
Qed.

(** With every request dead and no level loading, the invariant is left. *)
Lemma all_dead_inv l l' :
  loader_inv l -> forward l l' ->
  controllers l' = [] -> aborted l' = aborted (abort_all l) -> fresh l' = fresh l ->
  epoch l <= epoch l' -> requestIds l' = requestIds l -> pending l' = pending l ->
  latest l' = latest l -> prefetchTimer l' = None ->
  NoDup (mkeys (states (store l'))) ->
  (forall k x, mget (states (store l')) k = Some x -> ls_loading x = false) ->
  loader_inv l'.
Proof.
  intros I F Hc Ha Hf He Hi Hp Hl Ht Hnd Hload.
  constructor; rewrite ?Hc, ?Hf, ?Hi, ?Hp, ?Hl, ?Ht; try done; try apply I.
  - constructor.
  - rewrite Ha. simpl. apply Forall_app. split; [|apply I]. apply Forall_forall.
    intros c Hin. apply list_elem_of_fmap in Hin as ([k c'] & -> & Hkc). simpl.
    apply (inv_reg l I k). pose proof (inv_ctl l I) as Hn. revert Hn Hkc.
    generalize (controllers l). intros m. induction m as [|[k1 c1] m IH]; simpl; [by intros _ ?%elem_of_nil|].
    intros [Hk1 Hm]%NoDup_cons [[= -> ->]|Hin]%elem_of_cons; [by rewrite String.eqb_refl|].
    destruct (String.eqb_spec k1 k) as [->|]; [|by apply IH].
    exfalso. apply Hk1. apply list_elem_of_fmap. by exists (k, c').
  - intros r Hr. destruct (inv_pending l I r Hr) as (H1 & H2 & H3 & H4 & H5).
    split_and!; try done. lia.
  - intros r Hr Hs. apply (abort_all_dead l r I) in Hr. exfalso.
    assert (dead l' r) as Hd%dead_stale; [|congruence].
    destruct Hr as [Hr|[Hr|(Hck & id & Hid & Hlt)]].
    + left. by rewrite Ha.
    + right; left. simpl in Hr. lia.
    + right; right. split; [done|]. exists id. rewrite Hi. done.
  - intros k x Hk Hx. rewrite (Hload k x Hk) in Hx. done.
  - split; [apply I|done].
Qed.

Lemma unload_fold prev keys done st :
  NoDup (mkeys st) ->
  (forall k x, mget st k = Some x -> ls_loading x = true -> mget (states prev) k = Some x /\ k ∉ done) ->
  NoDup (mkeys (fold_left (unload prev) keys st)) /\
  forall k x, mget (fold_left (unload prev) keys st) k = Some x -> ls_loading x = true ->
    mget (states prev) k = Some x /\ k ∉ done ++ keys.
Proof.
  revert done st. induction keys as [|key keys IH]; intros dn st Hnd Hst; simpl.
  { split; [done|]. intros k x Hk Hx. rewrite app_nil_r. by apply Hst. }
  assert (Hstep : NoDup (mkeys (unload prev st key)) /\
    forall k x, mget (unload prev st key) k = Some x -> ls_loading x = true ->
      mget (states prev) k = Some x /\ k ∉ dn ++ [key]).
  { unfold unload. destruct (mget (states prev) key) as [s|] eqn:E.
    2:{ split; [done|]. intros k x Hk Hx. destruct (Hst k x Hk Hx) as [H1 H2]. split; [done|].
        rewrite elem_of_app, list_elem_of_singleton. intros [| ->]; [done|congruence]. }
    destruct (ls_loading s) eqn:El; simpl.
    2:{ split; [done|]. intros k x Hk Hx. destruct (Hst k x Hk Hx) as [H1 H2]. split; [done|].
        rewrite elem_of_app, list_elem_of_singleton. intros [| ->]; [done|congruence]. }
    destruct (Nat.ltb _ _); (split; [auto using mset_NoDup, mdel_NoDup|]); intros k x.
    - rewrite mget_set. destruct (String.eqb_spec key k) as [|Hne]; [by intros [= <-]|].
      intros Hk Hx. destruct (Hst k x Hk Hx). split; [done|]. set_solver.
    - rewrite mget_del by done. destruct (String.eqb_spec key k) as [|Hne]; [done|].
      intros Hk Hx. destruct (Hst k x Hk Hx). split; [done|]. set_solver. }
  destruct Hstep as [H1 H2]. destruct (IH (dn ++ [key]) _ H1 H2) as [H3 H4].
  split; [done|]. intros k x Hk Hx. destruct (H4 k x Hk Hx) as [H5 H6].
  by rewrite <- app_assoc in H6.
Qed.

Lemma abort_all_forward l : forward l (abort_all l).
Proof. split_and!; simpl; eauto. intros c Hc. apply elem_of_app. by right. Qed.

(** A loading level has a registered controller. *)
Lemma loading_registered l k x :
  loader_inv l -> mget (states (store l)) k = Some x -> ls_loading x = true -> k ∈ mkeys (controllers l).
Proof.
  intros I Hk Hx. destruct (inv_loading l I k x Hk Hx) as (r & Hr & Hlev & Hs).
  apply mget_keys. rewrite <- (level_key r k Hlev), (inv_live l I r Hr Hs). eauto.
Qed.

Lemma cancel_safe l : loader_inv l -> safe l (cancelAll l).
Proof.
  intros I. unfold cancelAll. cbv zeta.
  destruct (Nat.eqb_spec (length (mkeys (controllers l))) 0) as [E|_].
  - assert (Hnone : forall k x, mget (states (store l)) k = Some x -> ls_loading x = false).
    { intros k x Hk. destruct (ls_loading x) eqn:Ex; [|done]. exfalso.
      pose proof (loading_registered l k x I Hk Ex) as Hin.
      apply nil_length_inv in E. rewrite E in Hin. by apply elem_of_nil in Hin. }
    split; [|exact (abort_all_forward l)].
    apply (all_dead_inv l); try done; [exact (abort_all_forward l)|apply I].
  - split; [|exact (abort_all_forward l)].
    destruct (unload_fold (store l) (mkeys (controllers l)) [] (states (store l))) as [H1 H2].
    { apply I. }
    { intros k x Hk _. split; [done|]. apply not_elem_of_nil. }
    apply (all_dead_inv l); try done; [exact (abort_all_forward l)|].
    intros k x Hk. destruct (ls_loading x) eqn:Ex; [|done]. exfalso.
    simpl in Hk. destruct (H2 k x Hk Ex) as [Hs Hn]. apply Hn.
    by apply (loading_registered l k x).
Qed.

Lemma load_key_safe l : loader_inv l -> safe l (load_key_changed l).
Proof.
  intros I. assert (F : forward l (load_key_changed l)).
  { split_and!; simpl; [|lia|eauto]. intros c Hc. apply elem_of_app. by right. }
  split; [|done]. apply (all_dead_inv l); try done; [simpl; lia|constructor].
Qed.

(** *** Responses *)
Lemma take_drop_elem {A} (l : list A) n x (r : A) :
  NoDup l -> l !! n = Some r -> x ∈ take n l ++ drop (S n) l <-> x ∈ l /\ x <> r.
Proof.
  intros Hnd Hn. rewrite <- (take_drop_middle l n r Hn) in Hnd |- * at 3.
  rewrite !elem_of_app, elem_of_cons.
  apply NoDup_app in Hnd as (_ & H1 & [H2 _]%NoDup_cons). split.
  - intros [H|H].
    + split; [by left|]. intros ->. apply (H1 r H). left.
    + split; [by right; right|]. intros ->. done.
  - intros [[H|[->|H]] Hne]; [by left|done|by right].
Qed.

Lemma inv_pending_NoDup l : loader_inv l -> NoDup (pending l).
Proof. intros I. apply (NoDup_fmap_1 rq_controller). apply I. Qed.

Lemma same_controller l r r' :
  loader_inv l -> r ∈ pending l -> r' ∈ pending l -> rq_controller r = rq_controller r' -> r = r'.
Proof.
  intros I. pose proof (inv_distinct l I) as Hnd. revert Hnd. generalize (pending l).
  intros rs. induction rs as [|x rs IH]; [by intros _ ?%elem_of_nil|].
  simpl. intros [Hx Hnd]%NoDup_cons Hr Hr' Heq. apply elem_of_cons in Hr, Hr'.
  destruct Hr as [->|Hr], Hr' as [->|Hr']; [done| | |by apply IH].
  - exfalso. apply Hx. rewrite Heq. apply list_elem_of_fmap. eauto.
  - exfalso. apply Hx. rewrite <- Heq. apply list_elem_of_fmap. eauto.
Qed.

(** The state after [settle], before anything lands: the request is gone. *)
Definition settled (l : Loader) (n : nat) (r : Request) : Loader :=
  settle_request (set_requests l (controllers l) (aborted l) (inflight l)
    (take n (pending l) ++ drop (S n) (pending l))) r.

(** All of the invariant but for the level of [r], when [r] was live. *)
Record landing (l : Loader) (r : Request) (l1 : Loader) : Prop := {
  ld_aborted : aborted l1 = aborted l;
  ld_fresh : fresh l1 = fresh l;
  ld_ids : requestIds l1 = requestIds l;
  ld_epoch : epoch l1 = epoch l;
  ld_latest : latest l1 = latest l;
  ld_timer : prefetchTimer l1 = prefetchTimer l;
  ld_pending : forall x, x ∈ pending l1 <-> x ∈ pending l /\ x <> r;
  ld_distinct : NoDup (map rq_controller (pending l1));
  ld_ctl : forall k, mget (controllers l1) k
    = if String.eqb (rq_key r) k && bool_decide (mget (controllers l) k = Some (rq_controller r))
      then None else mget (controllers l) k;
  ld_keys : NoDup (mkeys (controllers l1))
}.

Lemma settled_landing l n r :
  loader_inv l -> pending l !! n = Some r -> landing l r (settled l n r).
Proof.
  intros I Hn. unfold settled, settle_request. constructor; try done.
  - intros x. simpl. apply take_drop_elem; [by apply inv_pending_NoDup|done].
  - simpl. rewrite map_app. pose proof (inv_distinct l I) as Hnd.
    rewrite <- (take_drop_middle (pending l) n r Hn), map_app in Hnd. simpl in Hnd.
    apply NoDup_app in Hnd as (H1 & H2 & [H3 H4]%NoDup_cons). apply NoDup_app.
    split_and!; [done| |done]. intros x Hx Hin. apply (H2 x Hx). by right.
  - intros k. simpl. destruct (mget (controllers l) (rq_key r)) as [c|] eqn:E.
    + destruct (Nat.eqb_spec c (rq_controller r)) as [->|Hne].
      * rewrite mget_del by apply I. destruct (String.eqb_spec (rq_key r) k) as [<-|]; [|done].
        by rewrite bool_decide_eq_true_2.
      * destruct (String.eqb_spec (rq_key r) k) as [<-|]; [|done]. simpl.
        rewrite bool_decide_eq_false_2; [done|congruence].
    + destruct (String.eqb_spec (rq_key r) k) as [<-|]; [|done]. simpl.
      by rewrite bool_decide_eq_false_2; [|congruence].
  - simpl. destruct (mget (controllers l) (rq_key r)) as [c|]; [|apply I].
    destruct (Nat.eqb _ _); [|apply I]. apply mdel_NoDup, I.
Qed.

Lemma landing_inv l r l1 l' :
  loader_inv l -> r ∈ pending l -> landing l r l1 ->
  landing l r l' ->
  NoDup (mkeys (states (store l'))) ->
  (forall k x, mget (states (store l')) k = Some x -> ls_loading x = true ->
     (exists x0, mget (states (store l)) k = Some x0 /\ ls_loading x0 = true) /\
     (is_stale l r = false -> ~ is_level r k)) ->
  loader_inv l'.
Proof.
  intros I Hr _ [A F Ids Ep La Ti Pe Di Ct Ke] Hnd Hload.
  assert (Hs : forall x, is_stale l' x = is_stale l x) by (intros; by apply stale_ext).
  constructor; rewrite ?A, ?F, ?Ids, ?Ep, ?La, ?Ti; try done; try apply I.
  - intros k c. rewrite Ct. destruct (_ && _); [done|]. intros Hc.
    destruct (inv_reg l I k c Hc) as (H1 & H2 & H3). split_and!; [done..|].
    intros k'. rewrite Ct. destruct (_ && _); [done|]. apply H3.
  - intros x [Hx _]%Pe. by apply (inv_pending l I).
  - intros x [Hx Hne]%Pe. rewrite Hs. intros Hst. rewrite Ct, (inv_live l I x Hx Hst).
    destruct (String.eqb_spec (rq_key r) (rq_key x)) as [_|]; [|done]. simpl.
    rewrite bool_decide_eq_false_2; [done|]. intros [= Heq]. apply Hne.
    by apply (same_controller l).
  - intros k x Hk Hx. destruct (Hload k x Hk Hx) as [(x0 & Hk0 & Hx0) Hnot].
    destruct (inv_loading l I k x0 Hk0 Hx0) as (r0 & Hr0 & Hlev & Hst).
    exists r0. rewrite Hs. split_and!; [|done|done]. apply Pe. split; [done|].
    intros ->. by apply Hnot.
Qed.

Lemma landing_quiet l r l1 l' :
  landing l r l1 -> quiet l1 l' -> latest l' = latest l1 -> prefetchTimer l' = prefetchTimer l1 ->
  landing l r l'.
Proof.
  intros [A F Ids Ep La Ti Pe Di Ct Ke] [Q1 Q2 Q3 Q4 Q5 Q6] H1 H2.
  constructor; rewrite ?Q1, ?Q2, ?Q3, ?Q4, ?Q5, ?Q6, ?H1, ?H2; done.
Qed.

Lemma land_quiet l r resp :
  quiet l (land l r resp) /\ latest (land l r resp) = latest l /\
  prefetchTimer (land l r resp) = prefetchTimer l.
Proof.
  unfold land.
  destruct (rq_kind r) as [key reason cursor append sig node|text path|value];
    destruct resp as [items|items c m|]; try destruct append; try destruct items; done.
Qed.

Lemma land_states l r resp :
  loader_inv l ->
  NoDup (mkeys (states (store (land l r resp)))) /\
  forall k x, mget (states (store (land l r resp))) k = Some x -> ls_loading x = true ->
    mget (states (store l)) k = Some x /\ ~ is_level r k.
Proof.
  intros I. pose proof (inv_states l I) as Hnd. unfold land, is_level.
  destruct (rq_kind r) as [key reason cursor append sig node|text path|value].
  - destruct resp as [items|items c m|];
      [|  |split; [by apply withLoadState_NoDup|intros k x]].
    3:{ change (store (report (set_store l _) _ _)) with
          (withLoadState (store l) key (fun s => mkLoad false true (ls_hasMore s) (ls_cursor s))).
        rewrite withLoadState_get. destruct (String.eqb_spec key k); [by intros [= <-]|done]. }
    all: (split; [destruct append; apply mset_NoDup; done|]); intros k x;
      destruct append; simpl; rewrite mget_set;
      (destruct (String.eqb_spec key k); [by intros [= <-]|done]).
  - destruct resp; simpl; (split; [done|]); intros k x Hk _; (split; [exact Hk|by intros []]).
  - destruct resp as [items|items c m|]; simpl; try destruct items as [|i items]; simpl;
      try (split; [done|]; intros k x Hk _; (split; [exact Hk|by intros []])).
    all: unfold withChain; destruct (fold_left _ _ _) as [[? ?] ?]; simpl; (split; [done|]);
      intros k x Hk _; (split; [exact Hk|by intros []]).
Qed.

Lemma landing_forward l r l' : landing l r l' -> forward l l'.
Proof.
  intros [A F Ids Ep _ _ _ _ _ _]. split_and!; rewrite ?A, ?Ids, ?Ep; eauto.
Qed.

Lemma respond_landing l n r resp :
  loader_inv l -> pending l !! n = Some r ->
  exists l2, landing l r l2 /\ store l2 = store l /\ search l2 = search l /\ known l2 = known l /\
    moreLatch l2 = moreLatch l /\ loadErrors l2 = loadErrors l /\
    respond l n resp = if is_stale l r then l2 else land l2 r resp.
Proof.
  intros I Hn. unfold respond. rewrite Hn. cbv zeta. fold (settled l n r).
  pose proof (settled_landing l n r I Hn) as L.
  set (l2 := match rq_kind r, resp with
             | ResolveLoad value, Rejected => set_attempted (settled l n r) (sdel (attempted (settled l n r)) value)
             | _, _ => settled l n r end).
  assert (L2 : landing l r l2 /\ store l2 = store l /\ search l2 = search l /\ known l2 = known l /\
    moreLatch l2 = moreLatch l /\ loadErrors l2 = loadErrors l).
  { unfold l2. destruct (rq_kind r), resp; try done.
    split; [|done]. by apply (landing_quiet l r (settled l n r)). }
  exists l2. destruct L2 as (L2 & ? & ? & ? & ? & ?). split_and!; try done.
  replace (is_stale l r) with (is_stale l2 r); [done|].
  destruct L2. by apply stale_ext.
Qed.

Lemma respond_safe l n resp : loader_inv l -> safe l (respond l n resp).
Proof.
  intros I. destruct (pending l !! n) as [r|] eqn:Hn.
  2:{ unfold respond. rewrite Hn. by apply idle_safe. }
  assert (Hr : r ∈ pending l) by (by eapply list_elem_of_lookup_2).
  destruct (respond_landing l n r resp I Hn) as (l2 & L & Hs & _ & _ & _ & _ & ->).
  destruct (is_stale l r) eqn:E.
  - split; [|by eapply landing_forward].
    apply (landing_inv l r l2 l2); [done..| |].
    + rewrite Hs. apply I.
    + rewrite Hs, E. intros k x Hk Hx. split; [eauto|done].
  - destruct (land_quiet l2 r resp) as (Q & Q1 & Q2).
    assert (L' : landing l r (land l2 r resp)) by by apply (landing_quiet l r l2).
    split; [|by eapply landing_forward].
    destruct (land_states (set_store l (store l2)) r resp) as [_ _];
      [rewrite Hs; by apply (same_states_inv l)|].
    assert (Hls : NoDup (mkeys (states (store (land l2 r resp)))) /\
      forall k x, mget (states (store (land l2 r resp))) k = Some x -> ls_loading x = true ->
        mget (states (store l)) k = Some x /\ ~ is_level r k).
    { pose proof (land_states l r resp I) as H0.
      assert (Heq : states (store (land l2 r resp)) = states (store (land l r resp))).
      { unfold land. destruct (rq_kind r) as [key reason cursor append sig node|text path|value];
          destruct resp as [items|items c m|]; try destruct append; simpl; rewrite ?Hs; try done.
        all: destruct items; simpl; rewrite ?Hs; done. }
      by rewrite Heq. }
    destruct Hls as [H1 H2]. apply (landing_inv l r l2 (land l2 r resp)); [done..|].
    intros k x Hk Hx. destruct (H2 k x Hk Hx). split; [eauto|done].
Qed.

Lemma handle_safe l e : loader_inv l -> plain_event e -> safe l (handle l e).
Proof.
  intros I He. destruct e as [p| | | | | |text| |key reason|key|key|value|node| |n resp|]; simpl in *.
  - split; [|split_and!; simpl; eauto]. apply (quiet_inv l); try done; [apply I|eauto|].
    split; [done|apply I].
  - by apply load_key_safe.
  - unfold enabled_effect. destruct (p_enabled _); [by apply idle_safe|].
    destruct (Nat.eqb _ _); [by apply idle_safe|by apply cancel_safe].
  - by apply level_effect_safe.
  - unfold search_effect. cbv zeta. destruct (negb _); [by apply idle_safe|].
    destruct (_ || _); [|by apply idle_safe].
    destruct (abort_reserved_safe l SEARCH_KEY I reserved_search) as [I' F'].
    eapply safe_trans; [by split|]. by apply quiet_safe.
  - by apply abort_reserved_safe.
  - by apply runSearch_safe.
  - by apply resolve_effect_safe.
  - by apply ensure_safe.
  - by apply loadMore_safe.
  - by apply retry_safe.
  - by apply invalidate_safe.
  - unfold prefetchNode. destruct (latest l) as [props current] eqn:El.
    destruct node as [n|]; [|by apply idle_safe]. destruct (_ || _); [by apply idle_safe|].
    by apply timer_safe.
  - pose proof (proj2 (inv_plain l I)) as Ht.
    destruct (prefetchTimer l) as [key|]; [|by apply idle_safe].
    destruct (timer_safe l None I) as [I' F']; [done|].
    eapply safe_trans; [by split|]. by apply ensure_safe.
  - by apply respond_safe.
  - done.
Qed.

Lemma run_safe l es : loader_inv l -> Forall plain_event es -> safe l (run l es).
Proof.
  intros I Hes. revert l I. induction Hes as [|e es He _ IH]; intros l I; [by apply idle_safe|].
  pose proof (handle_safe l e I He) as Hs. eapply safe_trans; [exact Hs|]. apply IH, Hs.
Qed.

Lemma initial_inv p : plain_props p -> loader_inv (initial p).
Proof.
  intros Hp. constructor; simpl.
  1,2,6: constructor.
  - done.
  - constructor.
  - by intros r ?%elem_of_nil.
  - by intros r ?%elem_of_nil.
  - done.
  - done.
Qed.

(** ** Properties *)

(** What a consumer can see, and the latch that gates paging. *)
Definition visible (l : Loader) :=
  (store l, search l, known l, moreLatch l, loadErrors l).

Definition sample_node (v : string) : CascaderNode := CNode v v [] true None false [] false.
Definition sample_props (enabled : bool) : LoaderProps :=
  mkProps empty_index true true true true enabled "" [CASCADER_ROOT_KEY] [] ["x"].
Definition sample_run : list event :=
  [LevelEffect; Respond 0 (Result [sample_node "a"] (Some "p2") None);
   Committed (sample_props true); LoadMore CASCADER_ROOT_KEY; Ensure "a" RLevel].

(** C24: Whatever the order of commits, effects, calls, timers and responses,
    while the hook is mounted: a level that reads as loading has a live
    request for it in flight - so no level can be left loading forever - and
    at most one request per key is live. *)
Theorem loading_has_live_request p es :
  plain_props p -> Forall plain_event es ->
  let l := run (initial p) es in
  (forall key s, mget (states (store l)) key = Some s -> ls_loading s = true ->
     exists r, r ∈ pending l /\ is_level r key /\ is_stale l r = false) /\
  (forall r r', r ∈ pending l -> r' ∈ pending l -> rq_key r = rq_key r' ->
     is_stale l r = false -> is_stale l r' = false -> r = r').
Proof.
  intros Hp Hes l. destruct (run_safe (initial p) es (initial_inv p Hp) Hes) as [I _].
  fold l in I. split; [apply I|]. intros r r' Hr Hr' Hk Hs Hs'.
  apply (same_controller l); [done..|].
  pose proof (inv_live l I r Hr Hs) as H1. pose proof (inv_live l I r' Hr' Hs') as H2.
  rewrite Hk in H1. congruence.
Qed.
Lemma loading_has_live_request_witness :
  exists r, r ∈ pending (run (initial (sample_props true)) sample_run) /\ is_level r CASCADER_ROOT_KEY.
Proof.
  edestruct (loading_has_live_request (sample_props true) sample_run) as [H _].
  - repeat constructor.
  - repeat constructor.
  - destruct (H CASCADER_ROOT_KEY (mkLoad true false true (Some "p2"))) as (r & H1 & H2 & _);
      [reflexivity|reflexivity|]. exists r. exact (conj H1 H2).
Defined.

(** What makes the requests of a state obsolete. *)
Definition kills (l : Loader) (e : event) (r : Request) : Prop :=
  match e with
  | Invalidate value => rq_key r = (value ?? CASCADER_ROOT_KEY)
  | LoadKeyChanged => True
  | EnabledEffect => p_enabled (latest l).1 = false
  | _ => False
  end.

Lemma kills_dead l e r :
  loader_inv l -> r ∈ pending l -> kills l e r -> dead (handle l e) r.
Proof.
  intros I Hr Hk. destruct e; try done; simpl in *.
  - eapply dead_forward; [|by apply abort_all_dead]. split_and!; simpl; [auto|lia|eauto].
  - unfold enabled_effect. rewrite Hk.
    destruct (Nat.eqb_spec (length (controllers l)) 0) as [E|_].
    + apply stale_dead; [done..|]. destruct (is_stale l r) eqn:Es; [done|]. exfalso.
      pose proof (inv_live l I r Hr Es) as Hc. apply nil_length_inv in E. by rewrite E in Hc.
    + eapply dead_forward; [|by apply abort_all_dead].
      unfold cancelAll. cbv zeta. destruct (Nat.eqb _ _); split_and!; simpl; eauto.
  - unfold invalidateLevel. cbv zeta. set (key := value ?? CASCADER_ROOT_KEY) in *.
    eapply dead_forward; [|by apply (abort_kills l key)].
    destruct (abort_fields l key) as (_ & _ & Hi & He & _).
    split_and!; simpl; [auto|lia|]. intros k id Hid. rewrite mget_set.
    destruct (String.eqb_spec key k) as [<-|]; [|eauto]. rewrite Hid. simpl. eauto.
Qed.

(** A response that was overtaken changes nothing: once a level is
    invalidated, the load key changes or the panel closes, a request in
    flight at that moment may settle at any later time, with any outcome, and
    the store, the search results, the remembered nodes, the paging latches
    and the error callbacks stay exactly as they are. *)
Theorem overtaken_response_is_dropped p es e r es' n resp :
  plain_props p -> Forall plain_event es -> plain_event e -> Forall plain_event es' ->
  let l := run (initial p) es in
  r ∈ pending l -> kills l e r ->
  let l' := run (handle l e) es' in
  pending l' !! n = Some r ->
  visible (handle l' (Respond n resp)) = visible l'.
Proof.
  intros Hp Hes He Hes' l Hr Hk l' Hn.
  destruct (run_safe (initial p) es (initial_inv p Hp) Hes) as [I _]. fold l in I.
  destruct (handle_safe l e I He) as [I1 _].
  destruct (run_safe (handle l e) es' I1 Hes') as [I2 F2]. fold l' in I2, F2.
  pose proof (dead_stale l' r (dead_forward _ _ _ F2 (kills_dead l e r I Hr Hk))) as Hs.
  simpl. destruct (respond_landing l' n r resp I2 Hn) as (l2 & _ & H1 & H2 & H3 & H4 & H5 & ->).
  rewrite Hs. unfold visible. by rewrite H1, H2, H3, H4, H5.
Qed.
Definition sample_request : Request :=
  mkRequest (LevelLoad CASCADER_ROOT_KEY RMore (Some "p2") true "1:p2" None) 1 2 0.
Lemma overtaken_response_is_dropped_witness :
  let l := run (initial (sample_props true)) sample_run in
  let l' := run (handle l (Invalidate None)) [Ensure "a" RLevel] in
  pending l' !! 0 = Some sample_request /\
  visible (handle l' (Respond 0 (Items [sample_node "b"]))) = visible l'.
Proof.
  split; [vm_compute; reflexivity|].
  apply (overtaken_response_is_dropped (sample_props true) sample_run (Invalidate None)
    sample_request [Ensure "a" RLevel] 0 (Items [sample_node "b"])).
  - constructor; [reflexivity|constructor].
  - repeat constructor.
  - reflexivity.
  - repeat constructor.
  - vm_compute. left.
  - vm_compute. reflexivity.
  - vm_compute. reflexivity.
Defined.

(** *** Two ways the loader gets stuck *)

(** Closing the panel while a level's next page is loading leaves the paging
    latch on: after the panel reopens the level still says it has more, is
    neither loading nor failed, and asking for more does nothing. *)
Lemma close_strands_paging :
  let l := run (initial (sample_props true))
    [LevelEffect; Respond 0 (Result [sample_node "a"] (Some "p2") None);
     Committed (sample_props true); LoadMore CASCADER_ROOT_KEY;
     Committed (sample_props false); EnabledEffect; Respond 0 Rejected;
     Committed (sample_props true)] in
  mget (states (store l)) CASCADER_ROOT_KEY = Some (mkLoad false false true (Some "p2")) /\
  pending l = [] /\
  run l [LevelEffect; LoadMore CASCADER_ROOT_KEY; Retry CASCADER_ROOT_KEY] = l.
Proof. vm_compute. done. Qed.

(** A value whose resolver answered after the panel closed stays attempted:
    reopening never asks again, though nothing of the answer was kept. *)
Lemma close_strands_resolve :
  let l := run (initial (sample_props true))
    [ResolveEffect; Committed (sample_props false); EnabledEffect;
     Respond 0 (Items [sample_node "x"]); Committed (sample_props true); ResolveEffect] in
  pending l = [] /\ detached (store l) = [] /\ known l = [].
Proof. vm_compute. done. Qed.
