(* ===== verification/FilterSchema.v ===== *)
(** * The filter schema: fields, operators, draft

    [filters-lib.tsx] (paths, signature, index, matching, exclusive options),
    [filters-operators.tsx] (the catalog, defaults, negation, coercion) and
    [filters-draft.tsx] (the step machine of the builder). *)
From S2P Require Import Prelude JsString JsValue JsMap CascaderLib FilterQuery.

(** ** Data *)
Inductive FilterValueType := TText | TNumber | TRange | TSelect | TMultiselect | TBoolean.

Record FilterOperator := mkOperator {
  op_value : string;
  op_label : string;
  op_arity : option FilterOperatorArity;
  op_inverse : option string;
  op_hidden : bool
}.

Record FilterOption := mkOption {
  o_value : string;
  o_label : string;
  o_keywords : option (list string);
  o_exclusive : bool
}.

(** [operators]: absent, a list, or a function of the field. *)
Inductive FieldOperators := NoOperators | OperatorList (l : list FilterOperator) | OperatorFn (f : string).
(** [editor]: absent, a registered name, or a component. *)
Inductive FieldEditor := NoEditor | EditorName (name : string) | EditorComponent.

(** A field. Functions and nodes the code reads only for presence are flags. *)
Inductive FilterField := FField {
  ff_id : string;
  ff_label : string;
  ff_keywords : option (list string);
  ff_count : option nat;
  ff_fields : option (list FilterField);
  ff_selectable : bool;
  ff_disabled : bool;
  ff_type : option FilterValueType;
  ff_options : option (list FilterOption);
  ff_operators : FieldOperators;
  ff_defaultOperator : option string;
  ff_column : option string;
  ff_editor : FieldEditor;
  ff_icon : bool;
  ff_renderValue : bool;
  ff_loadOptions : bool;
  ff_resolveValues : bool
}.

Record FilterEntry := mkEntry { e_field : FilterField; e_path : list string }.

Record FilterIndex := mkFilterIndex {
  byPath : jsmap FilterField;
  fchildrenOf : jsmap (list FilterField);
  fparentOf : jsmap string;
  fall : list FilterEntry;
  froots : list FilterField;
  signature : string
}.

(** ** Paths *)
Definition FILTER_ROOT_KEY : string := String nul "root".
Definition PATH_SEPARATOR : ascii := nul.

Definition joinFilterPath (path : list string) : string := join (str1 PATH_SEPARATOR) path.
Definition splitFilterPath (key : string) : list string :=
  if String.eqb key "" then [] else split_char PATH_SEPARATOR key.
Definition parentFilterKey (path : list string) : string :=
  if Nat.leb (length path) 1 then FILTER_ROOT_KEY
  else joinFilterPath (take (length path - 1) path).

(** ** Signature *)
Definition flag (b : bool) : string := if b then "1" else "0".
Definition type_name (t : FilterValueType) : string :=
  match t with
  | TText => "text" | TNumber => "number" | TRange => "range"
  | TSelect => "select" | TMultiselect => "multiselect" | TBoolean => "boolean"
  end.
Definition option_part (o : FilterOption) : string :=
  o_value o +:+ "~" +:+ o_label o +:+ (if o_exclusive o then "~x" else "").
Definition field_part (depth : nat) (f : FilterField) : string :=
  show_nat depth +:+ ":" +:+ ff_id f +:+ "|" +:+ ff_label f +:+ "|" +:+
  ((type_name <$> ff_type f) ?? "") +:+ "|" +:+ (ff_defaultOperator f ?? "") +:+ "|" +:+
  (ff_column f ?? "") +:+ "|" +:+
  flag (ff_selectable f) +:+ flag (ff_disabled f) +:+ flag (ff_icon f) +:+
  flag (ff_renderValue f) +:+ flag (ff_loadOptions f) +:+ flag (ff_resolveValues f) +:+ "|" +:+
  match ff_editor f with NoEditor => "" | EditorName s => s | EditorComponent => "fn" end +:+
  "|" +:+ (((fun l => join "," l) <$> ff_keywords f) ?? "") +:+ "|" +:+
  ((show_nat <$> ff_count f) ?? "") +:+ "|" +:+
  (((fun l => join "," (map option_part l)) <$> ff_options f) ?? "") +:+ "|" +:+
  match ff_operators f with
  | NoOperators => ""
  | OperatorList l => join "," (map op_value l)
  | OperatorFn _ => "fn"
  end.
Fixpoint signature_parts (depth : nat) (f : FilterField) : list string :=
  field_part depth f ::
  match ff_fields f with
  | Some l => flat_map (signature_parts (S depth)) l
  | None => []
  end.
Definition computeFilterSchemaSignature (fields : list FilterField) : string :=
  join (str1 lf) (flat_map (signature_parts 0) fields).

(** ** Index *)
Record FilterWalk := mkWalk {
  w_index : FilterIndex;
  w_accepted : list FilterField;
  w_seen : jsset
}.

(** [byPath.set(key, field); parentOf.set(...); all.push({ field, path })] *)
Definition add_field (idx : FilterIndex) (field : FilterField) (path : list string)
    (parentKey : string) : FilterIndex :=
  let key := joinFilterPath path in
  mkFilterIndex (mset (byPath idx) key field) (fchildrenOf idx)
    (mset (fparentOf idx) key (if String.eqb parentKey FILTER_ROOT_KEY then "" else parentKey))
    (fall idx ++ [mkEntry field path]) (froots idx) (signature idx).
(** The end of a level: [childrenOf.set(parentKey, accepted)], and the roots. *)
Definition close_level (parentKey : string) (w : FilterWalk) : FilterIndex :=
  let idx := w_index w in
  mkFilterIndex (byPath idx) (mset (fchildrenOf idx) parentKey (w_accepted w)) (fparentOf idx)
    (fall idx)
    (if String.eqb parentKey FILTER_ROOT_KEY then froots idx ++ w_accepted w else froots idx)
    (signature idx).

Fixpoint walk_field (parentPath : list string) (parentKey : string) (field : FilterField)
    (w : FilterWalk) : FilterWalk :=
  if sin (ff_id field) (w_seen w) then w
  else
    let seen := sadd (w_seen w) (ff_id field) in
    let path := parentPath ++ [ff_id field] in
    let key := joinFilterPath path in
    if mhas (byPath (w_index w)) key then mkWalk (w_index w) (w_accepted w) seen
    else
      let idx := add_field (w_index w) field path parentKey in
      let idx' :=
        match ff_fields field with
        | Some kids =>
            if Nat.eqb (length kids) 0 then idx
            else close_level key
              (fold_left (fun s kid => walk_field path key kid s) kids (mkWalk idx [] []))
        | None => idx
        end in
      mkWalk idx' (w_accepted w ++ [field]) seen.

(** [None]: the previous index itself. *)
Definition buildFilterIndex (fields : list FilterField) (previous : option FilterIndex)
    (precomputedSignature : option string) : option FilterIndex :=
  let sig := precomputedSignature ?? computeFilterSchemaSignature fields in
  if match previous with Some p => String.eqb (signature p) sig | None => false end then None
  else
    let empty := mkFilterIndex [] [] [] [] [] sig in
    match fields with
    | [] => Some empty
    | _ =>
        Some (close_level FILTER_ROOT_KEY
          (fold_left (fun s f => walk_field [] FILTER_ROOT_KEY f s) fields (mkWalk empty [] [])))
    end.

Definition getFilterField (index : FilterIndex) (path : list string) : option FilterField :=
  mget (byPath index) (joinFilterPath path).

(** [for (let i = 1; i <= path.length; i++)], stopped at the first unknown prefix. *)
Fixpoint chain_from (index : FilterIndex) (before rest : list string) : list FilterField :=
  match rest with
  | [] => []
  | seg :: rest' =>
      let prefix := before ++ [seg] in
      match mget (byPath index) (joinFilterPath prefix) with
      | Some field => field :: chain_from index prefix rest'
      | None => []
      end
  end.
Definition getFilterFieldChain (index : FilterIndex) (path : list string) : list FilterField :=
  chain_from index [] path.

Definition getFilterChildren (index : FilterIndex) (path : list string) : list FilterField :=
  let key := if Nat.eqb (length path) 0 then FILTER_ROOT_KEY else joinFilterPath path in
  mget (fchildrenOf index) key ?? [].

Definition isFilterBranch (f : FilterField) : bool :=
  negb (Nat.eqb (length (ff_fields f ?? [])) 0).
Definition isFilterFieldSelectable (f : FilterField) : bool :=
  if ff_disabled f then false
  else if isFilterBranch f then ff_selectable f else true.
Definition isFilterFieldPickable (f : FilterField) : bool :=
  if ff_disabled f then false else negb (isFilterBranch f).
Definition getFilterFieldCount (f : FilterField) : nat :=
  match ff_count f with
  | Some n => n
  | None => match ff_fields f with Some l => length l | None => 0 end
  end.

Definition formatFilterPath (index : FilterIndex) (path : list string) (separator : string)
    : string :=
  match getFilterFieldChain index path with
  | [] => join separator path
  | chain => join separator (map ff_label chain)
  end.

(** *** Shortening a chain, on the cascader's arithmetic *)
Inductive FilterPathSegment := PathField (f : option FilterField) | PathEllipsis (hidden : list (option FilterField)).
Fixpoint positional (i : nat) (chain : list FilterField) : list CascaderNode :=
  match chain with
  | [] => []
  | f :: rest => CNode (show_nat i) (ff_label f) [] false None false [] false :: positional (S i) rest
  end.
(** [chain[Number(value)]] *)
Definition at_position (chain : list FilterField) (node : CascaderNode) : option FilterField :=
  let '(n, _, _) := digits 0 0 (cn_value node) in chain !! Z.to_nat n.
Definition collapseFilterPath (chain : list FilterField) (maxSegments : option Z)
    (collapse : option CascaderCollapse) : list FilterPathSegment :=
  map (fun segment =>
    match segment with
    | SegNode node => PathField (at_position chain node)
    | SegEllipsis hidden => PathEllipsis (map (at_position chain) hidden)
    end)
    (collapseCascaderPath (positional 0 chain) (maxSegments ?? 3%Z) (collapse ?? CollapseNone)).

Inductive FilterCombinatorSlot := SlotWhere | SlotToggle | SlotEcho.
Definition filterCombinatorSlot (index : nat) : FilterCombinatorSlot :=
  match index with 0 => SlotWhere | 1 => SlotToggle | _ => SlotEcho end.

(** ** Matching *)
Section Matching.
Context (toLocaleLowerCase : string -> string).

Definition foldFilterText (text : string) : string := toLocaleLowerCase text.
Definition normalizeFilterQuery (query : string) : string := foldFilterText (trim query).
Definition keyword_hit (keywords : option (list string)) (normalizedQuery : string) : bool :=
  some (fun k => includes normalizedQuery (foldFilterText k)) (keywords ?? []).
Definition matchesFilterQuery (f : FilterField) (normalizedQuery : string) : bool :=
  if String.eqb normalizedQuery "" then true
  else if includes normalizedQuery (foldFilterText (ff_label f)) then true
  else keyword_hit (ff_keywords f) normalizedQuery.
Definition filterFilterLevel (fields : list FilterField) (normalizedQuery : string)
    : list FilterField :=
  if String.eqb normalizedQuery "" then fields
  else bfilter (fun f => matchesFilterQuery f normalizedQuery) fields.

Fixpoint search_fields (limit : nat) (normalizedQuery : string) (entries results : list FilterEntry)
    : list FilterEntry :=
  match entries with
  | [] => results
  | entry :: rest =>
      if Nat.leb limit (length results) then results
      else if negb (isFilterFieldSelectable (e_field entry))
      then search_fields limit normalizedQuery rest results
      else search_fields limit normalizedQuery rest
             (if matchesFilterQuery (e_field entry) normalizedQuery
              then results ++ [entry] else results)
  end.
Definition searchFilterDeep (index : FilterIndex) (normalizedQuery : string) (limit : nat)
    : list FilterEntry :=
  if String.eqb normalizedQuery "" then []
  else search_fields limit normalizedQuery (fall index) [].

Definition filterFilterOptions (options : list FilterOption) (normalizedQuery : string)
    : list FilterOption :=
  if String.eqb normalizedQuery "" then options
  else bfilter (fun o =>
    if includes normalizedQuery (foldFilterText (o_label o)) then true
    else keyword_hit (o_keywords o) normalizedQuery) options.
End Matching.

(** ** Exclusive options *)
(** The last exclusive value of [added]. *)
Definition last_exclusive (isExclusive : string -> bool) (added : list string) : option string :=
  fold_left (fun arrived value => if isExclusive value then Some value else arrived) added None.
Definition applyFilterExclusiveSelection (next previous : list string)
    (isExclusive : string -> bool) : list string :=
  let held := set_of previous in
  let added := bfilter (fun value => negb (sin value held)) next in
  if Nat.eqb (length added) 0 then next
  else match last_exclusive isExclusive added with
       | Some arrived => [arrived]
       | None =>
           let kept := bfilter (fun value => negb (isExclusive value)) next in
           if Nat.eqb (length kept) (length next) then next else kept
       end.

(** ** Development checks *)
Definition warnFilterOnce (production : bool) (warned : jsset) (key message : string)
    : jsset * option string :=
  if production then (warned, None)
  else if sin key warned then (warned, None)
  else (sadd warned key, Some ("[filters] " +:+ message)).

Record FilterSchemaIssues := mkSchemaIssues {
  duplicatePaths : list string;
  emptyIds : list string;
  emptyBranches : list string;
  unknownDefaultOperators : list string
}.

Section SchemaIssues.
Context (resolveOperators : FilterField -> list FilterOperator).

(** One field of a level, without its children. *)
Definition note_field (parentPath : list string) (field : FilterField) (seen : jsset)
    (st : FilterSchemaIssues) : FilterSchemaIssues :=
  let label := join "." (parentPath ++ [ff_id field]) in
  let dup := if String.eqb (ff_id field) "" then [] else if sin (ff_id field) seen then [label] else [] in
  let empty := if String.eqb (ff_id field) "" then [label] else [] in
  let branch := if ff_selectable field &&
                   match ff_fields field with Some [] => true | _ => false end
                then [label] else [] in
  let unknown := match ff_defaultOperator field with
                 | Some (String _ _ as d) =>
                     if some (fun op => String.eqb (op_value op) d) (resolveOperators field)
                     then [] else [label +:+ " -> " +:+ d]
                 | _ => []
                 end in
  mkSchemaIssues (duplicatePaths st ++ dup) (emptyIds st ++ empty)
    (emptyBranches st ++ branch) (unknownDefaultOperators st ++ unknown).

Fixpoint walk_issues (parentPath : list string) (field : FilterField)
    (st : jsset * FilterSchemaIssues) : jsset * FilterSchemaIssues :=
  let issues := note_field parentPath field st.1 st.2 in
  (sadd st.1 (ff_id field),
   match ff_fields field with
   | Some kids =>
       (fold_left (fun s kid => walk_issues (parentPath ++ [ff_id field]) kid s)
          kids ([], issues)).2
   | None => issues
   end).

Definition findFilterSchemaIssues (fields : list FilterField) : FilterSchemaIssues :=
  (fold_left (fun s f => walk_issues [] f s) fields ([], mkSchemaIssues [] [] [] [])).2.
End SchemaIssues.

(** ** Operators *)
Definition DEFAULT_FILTER_OPERATOR_LABELS : jsmap string :=
  [("contains", "contains"); ("not_contains", "does not contain");
   ("starts_with", "starts with"); ("ends_with", "ends with"); ("is", "is");
   ("is_not", "is not"); ("is_any_of", "is any of"); ("is_none_of", "is none of");
   ("has_any_of", "has any of"); ("has_all_of", "has all of"); ("has_none_of", "has none of");
   ("eq", "equals"); ("neq", "does not equal"); ("gt", "is greater than");
   ("gte", "is greater than or equal to"); ("lt", "is less than");
   ("lte", "is less than or equal to"); ("between", "is between");
   ("not_between", "is not between"); ("is_before", "is before"); ("is_after", "is after");
   ("is_on_or_before", "is on or before"); ("is_on_or_after", "is on or after");
   ("empty", "is empty"); ("not_empty", "is not empty")].

Notation entry v a i := (v, (a, i)) (only parsing).
Definition empty_pair : list (string * (option FilterOperatorArity * option string)) :=
  [entry "empty" (Some ANone) (Some "not_empty"); entry "not_empty" (Some ANone) (Some "empty")].
Definition between_pair : list (string * (option FilterOperatorArity * option string)) :=
  [entry "between" (Some ARange) (Some "not_between");
   entry "not_between" (Some ARange) (Some "between")].
Definition CATALOG (t : FilterValueType)
    : list (string * (option FilterOperatorArity * option string)) :=
  match t with
  | TText =>
      [entry "contains" None (Some "not_contains"); entry "not_contains" None (Some "contains");
       entry "starts_with" None None; entry "ends_with" None None;
       entry "is" None (Some "is_not"); entry "is_not" None (Some "is")] ++ empty_pair
  | TNumber =>
      [entry "eq" None (Some "neq"); entry "neq" None (Some "eq"); entry "gt" None (Some "lte");
       entry "gte" None (Some "lt"); entry "lt" None (Some "gte"); entry "lte" None (Some "gt")]
      ++ between_pair ++ empty_pair
  | TRange => between_pair ++ empty_pair
  | TSelect =>
      [entry "is" None (Some "is_not"); entry "is_not" None (Some "is");
       entry "is_any_of" (Some AMany) (Some "is_none_of");
       entry "is_none_of" (Some AMany) (Some "is_any_of")] ++ empty_pair
  | TMultiselect =>
      [entry "has_any_of" (Some AMany) (Some "has_none_of"); entry "has_all_of" (Some AMany) None;
       entry "has_none_of" (Some AMany) (Some "has_any_of")] ++ empty_pair
  | TBoolean =>
      [entry "is" None (Some "is_not"); entry "is_not" None (Some "is")] ++ empty_pair
  end.

Definition createFilterOperators (labels : jsmap string) (t : FilterValueType)
    : list FilterOperator :=
  map (fun e => mkOperator e.1 (mget labels e.1 ?? e.1) (Some (e.2.1 ?? AOne)) e.2.2 false)
    (CATALOG t).
Definition DEFAULT_FILTER_OPERATORS : FilterValueType -> list FilterOperator :=
  createFilterOperators DEFAULT_FILTER_OPERATOR_LABELS.

Section Resolve.
(** A field's own operator functions. *)
Context (call : string -> FilterField -> list FilterOperator).

Definition resolveFilterOperators (field : FilterField)
    (catalog : FilterValueType -> list FilterOperator) : list FilterOperator :=
  match ff_operators field with
  | OperatorFn f => call f field
  | OperatorList l => l
  | NoOperators => catalog (ff_type field ?? TText)
  end.
End Resolve.

Definition visibleFilterOperators (operators : list FilterOperator) : list FilterOperator :=
  bfilter (fun op => negb (op_hidden op)) operators.
Definition getFilterOperator (operators : list FilterOperator) (value : option string)
    : option FilterOperator :=
  match value with
  | Some (String _ _ as v) => js_find (fun op => String.eqb (op_value op) v) operators
  | _ => None
  end.
Definition getFilterArity (operator : option FilterOperator) : FilterOperatorArity :=
  match operator with Some op => op_arity op ?? AOne | None => AOne end.
Definition operatorTakesValue (operator : option FilterOperator) : bool :=
  negb (bool_decide (getFilterArity operator = ANone)).

Definition getDefaultFilterOperator (field : FilterField) (operators : list FilterOperator)
    : option string :=
  match getFilterOperator operators (ff_defaultOperator field) with
  | Some named => Some (op_value named)
  | None =>
      match head (visibleFilterOperators operators) with
      | Some op => Some (op_value op)
      | None => op_value <$> head operators
      end
  end.

Definition negateFilterOperator (operator : option FilterOperator)
    (operators : list FilterOperator) (negated : option bool) : option string * bool :=
  match operator with
  | Some op =>
      match getFilterOperator operators (op_inverse op) with
      | Some inverse => (Some (op_value inverse), negated ?? false)
      | None => (Some (op_value op), negb (negated ?? false))
      end
  | None => (None, negb (negated ?? false))
  end.

(** [asArray[i]] *)
Definition val_at (l : list val) (i : nat) : val := nth i l VUndef.
Definition coerceFilterValue (value : val) (from to : option FilterOperator) : val :=
  let nextArity := getFilterArity to in
  if decide (nextArity = ANone) then VUndef
  else if is_nullish value then value
  else
    let previousArity := getFilterArity from in
    if decide (previousArity = nextArity) then value
    else
      let asArray := match value with VArr l => l | v => [v] end in
      match nextArity with
      | AMany => VArr asArray
      | AOne => val_at asArray 0
      | ARange => VArr [val_at asArray 0; val_at asArray 1]
      | ANone => value
      end.

(** ** The draft *)
Inductive FilterDraftStep := StepField | StepOperator | StepValue.
Inductive FilterDraftStatus := Editing | Ready.
#[export] Instance FilterDraftStep_eq_dec : EqDecision FilterDraftStep.
Proof. solve_decision. Defined.

Record FilterDraft := mkDraft {
  d_step : FilterDraftStep;
  d_status : FilterDraftStatus;
  d_ruleId : option string;
  d_path : list string;
  d_cascaderPath : list string;
  d_operator : option string;
  d_value : val;
  d_query : string
}.

Inductive FilterDraftAction :=
| OpenCreate (cascaderPath : option (list string))
| OpenAmend (ruleId : string) (step : FilterDraftStep) (path : list string)
    (operator : option string) (value : val) (cascaderPath : option (list string))
| Close
| SetCascaderPath (path : list string)
| SetQuery (query : string)
| SelectField (path : list string) (defaultOperator : option string)
| SelectOperator (operator : string) (arity : FilterOperatorArity) (value : val)
| SetValue (value : val)
| Commit (value : val)
| Back
| Goto (step : FilterDraftStep).

Definition createFilterDraft (cascaderPath : list string) : FilterDraft :=
  mkDraft StepField Editing None [] cascaderPath None VUndef "".

Definition previousStep (step : FilterDraftStep) : option FilterDraftStep :=
  match step with
  | StepValue => Some StepOperator
  | StepOperator => Some StepField
  | StepField => None
  end.

(** The actions on an open draft. *)
Definition draft_step (d : FilterDraft) (action : FilterDraftAction) : option FilterDraft :=
  let 'mkDraft step status ruleId path cascaderPath operator value query := d in
  match action with
  | SetCascaderPath p => Some (mkDraft step status ruleId path p operator value query)
  | SetQuery q => Some (mkDraft step status ruleId path cascaderPath operator value q)
  | SelectField p op =>
      Some (mkDraft StepOperator Ready ruleId p cascaderPath op VUndef "")
  | SelectOperator op arity v =>
      if decide (arity = ANone)
      then Some (mkDraft step Ready ruleId path cascaderPath (Some op) VUndef "")
      else Some (mkDraft StepValue Editing ruleId path cascaderPath (Some op) v "")
  | SetValue v => Some (mkDraft step status ruleId path cascaderPath operator v query)
  | Commit v =>
      Some (mkDraft step Ready ruleId path cascaderPath operator
              (if is_undefined v then value else v) query)
  | Back =>
      match previousStep step with
      | None => None
      | Some step' => Some (mkDraft step' Editing ruleId path cascaderPath operator value "")
      end
  | Goto step' =>
      if decide (step = step') then Some d
      else Some (mkDraft step' Editing ruleId path cascaderPath operator value "")
  | _ => Some d
  end.

Definition filterDraftReducer (state : option FilterDraft) (action : FilterDraftAction)
    : option FilterDraft :=
  match action with
  | OpenCreate cascaderPath => Some (createFilterDraft (cascaderPath ?? []))
  | OpenAmend ruleId step path operator value cascaderPath =>
      Some (mkDraft step Editing (Some ruleId) path
              (cascaderPath ?? take (length path - 1) path) operator value "")
  | Close => None
  | _ => match state with None => None | Some d => draft_step d action end
  end.

Definition isFilterDraftCommittable (draft : option FilterDraft) : bool :=
  match draft with Some d => Nat.ltb 0 (length (d_path d)) | None => false end.
