(* ===== verification/FilterSchemaLaws.v ===== *)
(** * The properties of the filter schema

    The index answers every path it lists, with its ancestors; negation is an
    involution on the catalog; a coerced value has the shape its operator
    asks for; an exclusive option is alone once something is picked. *)
From S2P Require Import Prelude JsString JsValue JsMap CascaderLib CascaderLaws FilterQuery FilterSchema.

(** ** The index *)
Notation entry_key e := (joinFilterPath (e_path e)).

Record indexing (idx : FilterIndex) : Prop := {
  ix_byPath : byPath idx = map (fun e => (entry_key e, e_field e)) (fall idx);
  ix_nodup : NoDup (map (fun e => entry_key e) (fall idx));
  ix_last : forall e, e ∈ fall idx -> exists parent, e_path e = parent ++ [ff_id (e_field e)] /\
    (parent = [] \/ exists e', e' ∈ fall idx /\ e_path e' = parent)
}.

Lemma FilterField_ind' (P : FilterField -> Prop) :
  (forall f, Forall P (ff_fields f ?? []) -> P f) -> forall f, P f.
Proof.
  intros H. fix IH 1. intros f. apply H.
  destruct f as [? ? ? ? [l|] ? ? ? ? ? ? ? ? ? ? ? ?]; simpl; [|constructor].
  induction l as [|c l IHl]; constructor; [apply IH|apply IHl].
Qed.

Lemma mget_entries (l : list FilterEntry) e :
  NoDup (map (fun e => entry_key e) l) -> e ∈ l ->
  mget (map (fun e => (entry_key e, e_field e)) l) (entry_key e) = Some (e_field e).
Proof.
  induction l as [|e' l IH]; simpl; [by intros _ ?%elem_of_nil|].
  intros [Hn Hnd]%NoDup_cons [->|He]%elem_of_cons; [by rewrite String.eqb_refl|].
  destruct (String.eqb_spec (entry_key e') (entry_key e)) as [Heq|]; [|by apply IH].
  exfalso. apply Hn. rewrite Heq. apply list_elem_of_fmap. eauto.
Qed.

Lemma add_field_indexing idx f parent parentKey :
  indexing idx -> mhas (byPath idx) (joinFilterPath (parent ++ [ff_id f])) = false ->
  (parent = [] \/ exists e, e ∈ fall idx /\ e_path e = parent) ->
  indexing (add_field idx f (parent ++ [ff_id f]) parentKey).
Proof.
  intros [Hb Hnd Hl] Hnew Hpar. apply mhas_false in Hnew. constructor; simpl.
  - rewrite mset_keys_new, Hb, map_app by done. done.
  - rewrite map_app. simpl. apply NoDup_app. split_and!; [done| |apply NoDup_singleton].
    intros x Hx ->%list_elem_of_singleton.
    assert (Hk : joinFilterPath (parent ++ [ff_id f]) ∈ mkeys (byPath idx)).
    { rewrite Hb, map_map. done. }
    apply mget_keys in Hk as [? ?]. congruence.
  - intros e [He|He]%elem_of_app.
    + destruct (Hl e He) as (p & Hp & Hor). exists p. split; [done|].
      destruct Hor as [|(e' & He' & Hpe)]; [by left|right].
      exists e'. split; [|done]. apply elem_of_app. by left.
    + apply list_elem_of_singleton in He as ->. exists parent. split; [done|].
      destruct Hpar as [|(e' & He' & Hpe)]; [by left|right].
      exists e'. split; [|done]. apply elem_of_app. by left.
Qed.

Lemma close_level_indexing k w : indexing (w_index w) -> indexing (close_level k w).
Proof. by intros []. Qed.

Definition walks (w w' : FilterWalk) : Prop :=
  indexing (w_index w') /\ (forall e, e ∈ fall (w_index w) -> e ∈ fall (w_index w')).

Lemma walk_indexing f parent parentKey w :
  indexing (w_index w) ->
  (parent = [] \/ exists e, e ∈ fall (w_index w) /\ e_path e = parent) ->
  walks w (walk_field parent parentKey f w).
Proof.
  revert parent parentKey w. induction f as [f IH] using FilterField_ind'.
  intros parent parentKey w Hw Hpar.
  assert (Hfold : forall path key l w0, Forall (fun f => forall parent parentKey w,
      indexing (w_index w) -> (parent = [] \/ exists e, e ∈ fall (w_index w) /\ e_path e = parent) ->
      walks w (walk_field parent parentKey f w)) l ->
    indexing (w_index w0) -> (exists e, e ∈ fall (w_index w0) /\ e_path e = path) ->
    walks w0 (fold_left (fun s kid => walk_field path key kid s) l w0)).
  { intros path key l w0 Hl. revert w0. induction Hl as [|x l Hx _ IHl]; intros w0 Hw0 He; simpl; [done|].
    destruct (Hx path key w0 Hw0 (or_intror He)) as [H1 H2].
    destruct (IHl (walk_field path key x w0) H1) as [H3 H4].
    { destruct He as (e & He & Hp). exists e. auto. }
    split; auto. }
  destruct f as [id lb kw ct kids0 sl ds ty os ops df cl ed ic rv lo rs].
  set (f := FField id lb kw ct kids0 sl ds ty os ops df cl ed ic rv lo rs) in *.
  simpl walk_field. cbv zeta.
  destruct (sin id (w_seen w)); [by split|].
  destruct (mhas (byPath (w_index w)) (joinFilterPath (parent ++ [id]))) eqn:E; [by split|].
  set (idx := add_field (w_index w) f (parent ++ [id]) parentKey).
  assert (Hidx : indexing idx) by (by apply (add_field_indexing _ f)).
  assert (Hkeep : forall e, e ∈ fall (w_index w) -> e ∈ fall idx)
    by (intros e He; apply elem_of_app; by left).
  assert (Hme : exists e, e ∈ fall idx /\ e_path e = parent ++ [id]).
  { exists (mkEntry f (parent ++ [id])). split; [|done]. apply elem_of_app. right. left. }
  simpl in IH. destruct kids0 as [kids|]; [|by split].
  destruct (Nat.eqb (length kids) 0); [by split|].
  destruct (Hfold (parent ++ [id]) (joinFilterPath (parent ++ [id])) kids (mkWalk idx [] []) IH Hidx Hme)
    as [H1 H2].
  split; simpl; [by apply close_level_indexing|]. intros e He. apply H2. by apply Hkeep.
Qed.

Lemma build_indexing fields sig idx :
  buildFilterIndex fields None sig = Some idx -> indexing idx.
Proof.
  unfold buildFilterIndex.
  assert (H0 : forall s, indexing (mkFilterIndex [] [] [] [] [] s))
    by (intros s; constructor; simpl; [done|constructor|by intros ? ?%elem_of_nil]).
  generalize (sig ?? computeFilterSchemaSignature fields). intros s.
  destruct fields as [|f l]; intros [= <-]; [apply H0|].
  apply close_level_indexing. revert H0. intros H0.
  assert (H : forall l w, indexing (w_index w) ->
    indexing (w_index (fold_left (fun s f => walk_field [] FILTER_ROOT_KEY f s) l w))).
  { clear. intros l. induction l as [|x l IH]; intros w Hw; simpl; [done|]. apply IH.
    by apply walk_indexing; [|left]. }
  apply (H (f :: l) (mkWalk _ [] [])). apply H0.
Qed.

(** A listed path is answered segment by segment. *)
Lemma chain_ids idx e :
  indexing idx -> e ∈ fall idx ->
  map ff_id (getFilterFieldChain idx (e_path e)) = e_path e.
Proof.
  intros I He.
  assert (Hget : forall e, e ∈ fall idx -> mget (byPath idx) (entry_key e) = Some (e_field e)).
  { intros e' He'. rewrite (ix_byPath _ I). apply mget_entries; [apply I|done]. }
  assert (Hpre : forall p, (exists e, e ∈ fall idx /\ e_path e = p) ->
    forall b r, p = b ++ r -> b <> [] -> exists e, e ∈ fall idx /\ e_path e = b).
  { intros p. induction p as [|x p IH] using rev_ind; intros (e' & He' & Hp) b r Hbr Hb.
    - symmetry in Hbr. apply app_nil in Hbr as [-> ->]. done.
    - destruct r as [|y r] using rev_ind; [rewrite app_nil_r in Hbr; subst; eauto|].
      rewrite app_assoc in Hbr. apply app_inj_tail in Hbr as [-> _].
      destruct (ix_last _ I e' He') as (q & Hq & Hpar). rewrite Hp in Hq.
      apply app_inj_tail in Hq as [<- _].
      destruct Hpar as [Hnil|Hpar]; [by apply app_nil in Hnil as [-> _]|]. by apply (IH Hpar b r). }
  unfold getFilterFieldChain.
  enough (H : forall rest before, e_path e = before ++ rest ->
    map ff_id (chain_from idx before rest) = rest) by by apply (H _ []).
  intros rest. induction rest as [|seg rest IH]; intros before Hp; simpl; [done|].
  destruct (Hpre (e_path e) (ex_intro _ e (conj He eq_refl)) (before ++ [seg]) rest) as (e1 & He1 & Hp1).
  { by rewrite <- app_assoc. }
  { by destruct before. }
  rewrite <- Hp1, (Hget e1 He1). simpl.
  destruct (ix_last _ I e1 He1) as (q & Hq & _). rewrite Hp1 in Hq |- *.
  apply app_inj_tail in Hq as [_ <-]. f_equal. apply IH. by rewrite <- app_assoc.
Qed.

(** *** Paths *)
Lemma split_join_path path :
  path <> [] -> path <> [""] -> Forall (lacks PATH_SEPARATOR) path ->
  splitFilterPath (joinFilterPath path) = path.
Proof.
  intros Hne Hne1 Hl. unfold splitFilterPath, joinFilterPath.
  destruct (String.eqb_spec (join (str1 PATH_SEPARATOR) path) "") as [He|].
  - exfalso. assert (Hs : split_char PATH_SEPARATOR (join (str1 PATH_SEPARATOR) path) = path)
      by (by apply split_join). rewrite He in Hs. by subst.
  - by apply split_join.
Qed.

(** *** Shortening a chain *)
Lemma collapse_path_keeps (chain : list FilterField) maxSegments collapse :
  length (flat_map (fun s => match s with PathField f => [f] | PathEllipsis h => h end)
            (collapseFilterPath chain maxSegments collapse)) = length chain.
Proof.
  unfold collapseFilterPath.
  set (segs := collapseCascaderPath _ _ _).
  assert (H : length (flat_map segment_nodes segs) = length chain).
  { unfold segs. destruct (collapse_hides_in_place (positional 0 chain) (maxSegments ?? 3%Z)
      (collapse ?? CollapseNone)) as [-> _].
    generalize 0. induction chain as [|f l IH]; intros i; simpl; [done|]. by rewrite IH. }
  rewrite <- H. clear H. induction segs as [|s segs IH]; simpl; [done|].
  rewrite !length_app, IH. f_equal. destruct s; simpl; [done|]. by rewrite length_map.
Qed.

(** ** Operators *)
Definition catalog_ops (labels : jsmap string) (t : FilterValueType) : list FilterOperator :=
  createFilterOperators labels t.

(** Whether a value has the shape an arity asks for; [undefined] and [null]
    stand for a value not given yet. *)
Definition fits (arity : FilterOperatorArity) (v : val) : bool :=
  match arity, v with
  | ANone, VUndef => true
  | ANone, _ => false
  | _, (VUndef | VNull) => true
  | AOne, VArr _ => false
  | AOne, _ => true
  | AMany, VArr _ => true
  | ARange, VArr [_; _] => true
  | _, _ => false
  end.
(** The elements of an array are single values. *)
Definition flat_value (v : val) : bool :=
  match v with
  | VArr l => every (fun x => match x with VArr _ => false | _ => true end) l
  | _ => true
  end.

Lemma flat_at l i : flat_value (VArr l) = true -> fits AOne (val_at l i) = true.
Proof.
  unfold val_at. simpl. revert i. induction l as [|x l IH]; intros [|i] H; simpl in *; try done.
  - by destruct x.
  - apply IH. by apply andb_true_iff in H as [_ ?].
Qed.

Lemma last_exclusive_spec isExclusive added :
  match last_exclusive isExclusive added with
  | Some x => x ∈ added /\ isExclusive x = true
  | None => every (fun v => negb (isExclusive v)) added = true
  end.
Proof.
  unfold last_exclusive.
  enough (H : forall acc, match fold_left (fun a v => if isExclusive v then Some v else a) added acc with
    | Some x => (x ∈ added /\ isExclusive x = true) \/
                (acc = Some x /\ every (fun v => negb (isExclusive v)) added = true)
    | None => acc = None /\ every (fun v => negb (isExclusive v)) added = true end).
  { specialize (H None). destruct (fold_left _ _ _); [|by destruct H].
    destruct H as [|[[=] _]]; done. }
  induction added as [|v l IH]; intros acc; simpl; [destruct acc; auto|].
  destruct (isExclusive v) eqn:E; simpl.
  - specialize (IH (Some v)). destruct (fold_left _ l (Some v)); [|naive_solver].
    destruct IH as [[H1 H2]|[[= ->] _]]; left; split; [by right|done|left|done].
  - specialize (IH acc). destruct (fold_left _ l acc); [|done].
    destruct IH as [[H1 H2]|]; [left; split; [by right|done]|by right].
Qed.

(** ** Properties *)
Definition plain_field (id : string) (kids : list FilterField) : FilterField :=
  FField id id None None (if Nat.eqb (length kids) 0 then None else Some kids)
    false false None None NoOperators None None NoEditor false false false false.
Definition sample_fields : list FilterField :=
  [plain_field "name" [plain_field "first" []; plain_field "last" []; plain_field "last" []];
   plain_field "age" []].

(** An index built from a schema answers every path it lists: the lookup
    of an entry's path is its field, the chain of the path names its segments
    one by one, no two entries share a key, nothing else is indexed, and a
    path whose ids hold no separator is recovered from its key. *)
Theorem filter_index_lookup fields sig idx :
  buildFilterIndex fields None sig = Some idx ->
  (forall e, e ∈ fall idx -> getFilterField idx (e_path e) = Some (e_field e) /\
     map ff_id (getFilterFieldChain idx (e_path e)) = e_path e /\
     (Forall (lacks PATH_SEPARATOR) (e_path e) -> e_path e <> [""] ->
      splitFilterPath (joinFilterPath (e_path e)) = e_path e)) /\
  NoDup (map (fun e => joinFilterPath (e_path e)) (fall idx)) /\
  (forall path f, getFilterField idx path = Some f ->
     exists e, e ∈ fall idx /\ joinFilterPath (e_path e) = joinFilterPath path /\ e_field e = f).
Proof.
  intros Hb. pose proof (build_indexing _ _ _ Hb) as I. split_and!.
  - intros e He. split_and!.
    + unfold getFilterField. rewrite (ix_byPath _ I). apply mget_entries; [apply I|done].
    + by apply chain_ids.
    + intros Hl Hne. apply split_join_path; [|done|done].
      destruct (ix_last _ I e He) as (p & -> & _). by destruct p.
  - apply I.
  - intros path f. unfold getFilterField. rewrite (ix_byPath _ I).
    generalize (fall idx). intros l. induction l as [|e l IH]; simpl; [done|].
    destruct (String.eqb_spec (entry_key e) (joinFilterPath path)) as [He|].
    + intros [= <-]. exists e. split; [left|done].
    + intros H. destruct (IH H) as (e' & He' & H'). exists e'. split; [by right|done].
Qed.
Lemma filter_index_lookup_witness :
  exists idx, buildFilterIndex sample_fields None None = Some idx /\
    NoDup (map (fun e => joinFilterPath (e_path e)) (fall idx)).
Proof.
  eexists. split; [reflexivity|].
  edestruct (filter_index_lookup sample_fields None) as (_ & H & _); [reflexivity|exact H].
Defined.

(** What negating means: the inverse where the operator has one, with the
    polarity kept; the flag flipped where it has none. *)
Definition negated_form (op : FilterOperator) (negated : bool) : option string * bool :=
  match op_inverse op with
  | Some inverse => (Some inverse, negated)
  | None => (Some (op_value op), negb negated)
  end.

(** Negating an operator of the catalog swaps it for its inverse, which
    the catalog always holds, or flips the flag where it has none; negating
    twice is the identity, for any labels and either polarity; and a swap
    keeps the arity, so the rule's value still fits. *)
Theorem negate_involution labels t op negated :
  op ∈ createFilterOperators labels t ->
  let ops := createFilterOperators labels t in
  let r := negateFilterOperator (Some op) ops (Some negated) in
  r = negated_form op negated /\
  negateFilterOperator (getFilterOperator ops r.1) ops (Some r.2) = (Some (op_value op), negated) /\
  getFilterArity (getFilterOperator ops r.1) = getFilterArity (Some op).
Proof.
  intros Hop. unfold createFilterOperators in Hop. apply list_elem_of_fmap in Hop as (e & -> & He).
  assert (H : Forall (fun e =>
    let op := mkOperator e.1 (mget labels e.1 ?? e.1) (Some (e.2.1 ?? AOne)) e.2.2 false in
    let ops := createFilterOperators labels t in
    let r := negateFilterOperator (Some op) ops (Some negated) in
    r = negated_form op negated /\
    negateFilterOperator (getFilterOperator ops r.1) ops (Some r.2) = (Some (op_value op), negated) /\
    getFilterArity (getFilterOperator ops r.1) = getFilterArity (Some op)) (CATALOG t)).
  { clear. destruct t; repeat constructor; cbv zeta; simpl;
      rewrite ?negb_involutive; reflexivity. }
  rewrite Forall_forall in H. by apply (H e).
Qed.
Lemma negate_involution_witness :
  let ops := DEFAULT_FILTER_OPERATORS TNumber in
  let op := mkOperator "gt" "is greater than" (Some AOne) (Some "lte") false in
  (negateFilterOperator (Some op) ops (Some false)).1 = Some "lte" /\
  getFilterArity (getFilterOperator ops (Some "lte")) = AOne.
Proof.
  split; [reflexivity|].
  refine (proj2 (proj2 (negate_involution DEFAULT_FILTER_OPERATOR_LABELS TNumber
    (mkOperator "gt" "is greater than" (Some AOne) (Some "lte") false) false _))).
  vm_compute. right; right; left.
Defined.

(** When an operator change alters the arity, the value is reshaped to
    what the new operator takes: nothing, one value, a list or a pair;
    widening keeps what was picked and narrowing keeps the first of it. *)
Theorem coerce_fits value from to :
  flat_value value = true -> fits (getFilterArity from) value = true ->
  let value' := coerceFilterValue value from to in
  fits (getFilterArity to) value' = true /\
  (getFilterArity from = getFilterArity to -> getFilterArity to <> ANone -> value' = value) /\
  (getFilterArity to <> ANone -> is_nullish (val_at (value_list value) 0) = false ->
   val_at (value_list value') 0 = val_at (value_list value) 0).
Proof.
  intros Hflat Hfit. unfold coerceFilterValue. cbv zeta.
  destruct (decide (getFilterArity to = ANone)) as [->|Hn].
  { split_and!; [done|by intros _ ?|by intros ?]. }
  destruct (is_nullish value) eqn:En.
  { split_and!; [|done|done]. destruct value, (getFilterArity to); done. }
  destruct (decide (getFilterArity from = getFilterArity to)) as [He|He].
  { rewrite <- He. done. }
  split_and!; [|done|].
  - destruct (getFilterArity to) eqn:Et; try done.
    destruct value as [| | | | |l| |]; try done. apply flat_at. done.
  - intros _ Hx. destruct (getFilterArity to) eqn:Et; try done.
    + destruct value as [| | | | |[|x l]| |]; try done. unfold val_at in *. simpl in *.
      by destruct x.
    + by destruct value.
    + by destruct value.
Qed.
Lemma coerce_fits_witness :
  fits AMany (coerceFilterValue (VStr "a")
    (getFilterOperator (DEFAULT_FILTER_OPERATORS TSelect) (Some "is"))
    (getFilterOperator (DEFAULT_FILTER_OPERATORS TSelect) (Some "is_any_of"))) = true.
Proof.
  refine (proj1 (coerce_fits (VStr "a")
    (getFilterOperator (DEFAULT_FILTER_OPERATORS TSelect) (Some "is"))
    (getFilterOperator (DEFAULT_FILTER_OPERATORS TSelect) (Some "is_any_of")) _ _)); reflexivity.
Defined.

(** After a pick that adds something, an exclusive option is either the
    only value selected - and it is one the pick added - or no exclusive
    value is selected at all and every ordinary value of the pick is kept; a
    pick that only removes is taken as it is. *)
Theorem exclusive_alone next previous isExclusive :
  let out := applyFilterExclusiveSelection next previous isExclusive in
  ((forall v, v ∈ next -> v ∈ previous) -> out = next) /\
  ((exists v, v ∈ next /\ v ∉ previous) ->
   (exists x, out = [x] /\ isExclusive x = true /\ x ∈ next /\ x ∉ previous) \/
   (out = bfilter (fun v => negb (isExclusive v)) next /\
    forall v, v ∈ next -> v ∉ previous -> isExclusive v = false)).
Proof.
  intros out. unfold out, applyFilterExclusiveSelection. cbv zeta.
  destruct (set_of_spec previous) as [_ Hset].
  set (added := bfilter (fun v => negb (sin v (set_of previous))) next).
  assert (Hadd : forall v, v ∈ added <-> v ∈ next /\ v ∉ previous).
  { intros v. unfold added. rewrite bfilter_elem, negb_true_iff, sin_false, Hset. done. }
  destruct (Nat.eqb_spec (length added) 0) as [E|E].
  { split; [done|]. intros (v & Hv). apply Hadd in Hv.
    apply nil_length_inv in E. rewrite E in Hv. by apply elem_of_nil in Hv. }
  split.
  { intros H. destruct added as [|v l] eqn:Ea; [done|]. exfalso.
    destruct (Hadd v) as [Hv _]. destruct Hv as [H1 H2]; [left|]. apply H2. by apply H. }
  intros _. pose proof (last_exclusive_spec isExclusive added) as Hlast.
  destruct (last_exclusive isExclusive added) as [x|].
  - left. exists x. destruct Hlast as [Hx ?]. apply Hadd in Hx as [? ?]. done.
  - right. split.
    + destruct (Nat.eqb_spec (length (bfilter (fun v => negb (isExclusive v)) next)) (length next))
        as [El|]; [|done].
      symmetry. apply bfilter_id. clear -El. induction next as [|v l IH]; simpl in *; [done|].
      destruct (isExclusive v); simpl in *; [|by apply IH; lia].
      pose proof (bfilter_length_le (fun v => negb (isExclusive v)) l). lia.
    + intros v Hv Hp. rewrite forallb_forall in Hlast.
      specialize (Hlast v). rewrite <- list_elem_of_In, Hadd in Hlast.
      by apply negb_true_iff, Hlast.
Qed.

(** ** The draft *)

(** Back walks value, operator, field and then closes. *)
Lemma draft_back_closes d :
  filterDraftReducer (filterDraftReducer (filterDraftReducer (Some d) Back) Back) Back = None.
Proof. destruct d as [[] ? ? ? ? ? ? ?]; reflexivity. Qed.

(** A field change commits at once, drops the value and clears the query. *)
Lemma draft_select_field d path op :
  exists d', filterDraftReducer (Some d) (SelectField path op) = Some d' /\
    d_status d' = Ready /\ d_path d' = path /\ d_value d' = VUndef /\ d_query d' = "" /\
    d_ruleId d' = d_ruleId d /\ d_cascaderPath d' = d_cascaderPath d /\
    (path <> [] -> isFilterDraftCommittable (Some d') = true).
Proof.
  destruct d. eexists. split; [reflexivity|]. split_and!; try done.
  intros Hp. by destruct path.
Qed.
