(* ===== verification/Clipboard.v ===== *)
(** * Clipboard text of the data grid

    The text and HTML flavours of
    [packages/ui/src/components/reui/data-grid/data-grid-cell-selection.tsx]:
    a grid of formatted fields to tab-separated text and back, the tiling of a
    block, and the HTML table.  A grid is a list of lines of fields, as the
    code's [string[][]]; the parser is the code's scan, its variables the
    arguments of [parse_loop]. *)
From S2P Require Import Prelude JsString.

#[local] Arguments Ascii.eqb : simpl never.

Definition special_char (c : ascii) : bool :=
  Ascii.eqb c tab || Ascii.eqb c lf || Ascii.eqb c cr || Ascii.eqb c dquote.

Definition serializeDataGridClipboardField (field : string) : string :=
  if str_exists special_char field
  then str1 dquote +:+ replace_all dquote (str1 dquote +:+ str1 dquote) field +:+ str1 dquote
  else field.

Definition crlf : string := str1 cr +:+ str1 lf.

Definition serializeDataGridClipboardText (grid : list (list string)) : string :=
  join crlf (map (fun line => join (str1 tab) (map serializeDataGridClipboardField line)) grid).

(** The [while] loop: [text] is what is left from [i] on. *)
Fixpoint parse_loop (text : string) (rows : list (list string)) (row : list string)
    (field : string) (quoted : bool) : list (list string) :=
  match text with
  | EmptyString => rows ++ [row ++ [field]]
  | String ch rest =>
      if quoted then
        if Ascii.eqb ch dquote then
          match rest with
          | String next rest' =>
              if Ascii.eqb next dquote
              then parse_loop rest' rows row (field +:+ str1 dquote) true
              else parse_loop rest rows row field false
          | EmptyString => parse_loop rest rows row field false
          end
        else parse_loop rest rows row (field +:+ str1 ch) true
      else if Ascii.eqb ch dquote && String.eqb field "" then parse_loop rest rows row field true
      else if Ascii.eqb ch tab then parse_loop rest rows (row ++ [field]) "" false
      else if Ascii.eqb ch cr || Ascii.eqb ch lf then
        match rest with
        | String next rest' =>
            if Ascii.eqb ch cr && Ascii.eqb next lf
            then parse_loop rest' (rows ++ [row ++ [field]]) [] "" false
            else parse_loop rest (rows ++ [row ++ [field]]) [] "" false
        | EmptyString => parse_loop rest (rows ++ [row ++ [field]]) [] "" false
        end
      else parse_loop rest rows row (field +:+ str1 ch) false
  end.

(** The last line, when it holds one empty field and is not the only line. *)
Definition drop_artifact (rows : list (list string)) : list (list string) :=
  if Nat.ltb 1 (length rows) && bool_decide (last rows = Some [""])
  then removelast rows else rows.

Definition parseDataGridClipboardText (text : string) : list (list string) :=
  drop_artifact (parse_loop text [] [] "" false).

(** [block[r % block.length] ?? []] and [source[c % (source.length || 1)] ?? ""]:
    in JavaScript a remainder by zero is [NaN], which no array has as an index,
    so an empty block gives empty sources, as it does here. *)
Definition tile_field (block : list (list string)) (r c : nat) : string :=
  let source := nth (r mod length block) block [] in
  nth (c mod (match length source with 0 => 1 | n => n end)) source "".
Definition tileDataGridClipboardBlock (block : list (list string)) (rowCount columnCount : nat)
    : list (list string) :=
  map (fun r => map (fun c => tile_field block r c) (seq 0 columnCount)) (seq 0 rowCount).

Definition escapeDataGridClipboardHtml (value : string) : string :=
  replace_all ">" "&gt;" (replace_all "<" "&lt;" (replace_all "&" "&amp;" value)).

(** [.replace(/\r\n|\r|\n/g, "<br>")] *)
Fixpoint break_lines (s : string) : string :=
  match s with
  | EmptyString => ""
  | String c rest =>
      if Ascii.eqb c cr then
        match rest with
        | String d rest' => "<br>" +:+ (if Ascii.eqb d lf then break_lines rest'
                                        else break_lines rest)
        | EmptyString => "<br>"
        end
      else if Ascii.eqb c lf then "<br>" +:+ break_lines rest
      else String c (break_lines rest)
  end.

Definition renderDataGridClipboardHtml (grid : list (list string)) : string :=
  "<table><tbody>" +:+
  join "" (map (fun line =>
    "<tr>" +:+
    join "" (map (fun field =>
      "<td>" +:+ break_lines (escapeDataGridClipboardHtml field) +:+ "</td>") line) +:+
    "</tr>") grid) +:+
  "</tbody></table>".

(** ** The round trip *)
Definition no_quote_next (s : string) : Prop :=
  match s with String c _ => c <> dquote | EmptyString => True end.

Lemma special_false c : special_char c = false ->
  Ascii.eqb c tab = false /\ Ascii.eqb c lf = false /\ Ascii.eqb c cr = false /\
  Ascii.eqb c dquote = false.
Proof. unfold special_char. intros H. repeat (apply orb_false_iff in H as [H ?]). done. Qed.

Lemma parse_bare f s rows row acc : str_exists special_char f = false ->
  parse_loop (f +:+ s) rows row acc false = parse_loop s rows row (acc +:+ f) false.
Proof.
  revert acc. induction f as [|c f IH]; intros acc H; [by rewrite str_app_nil_r|].
  simpl in H. apply orb_false_iff in H as [Hc Hf].
  apply special_false in Hc as (H1 & H2 & H3 & H4).
  rewrite str_app_cons. simpl. rewrite H1, H2, H3, H4. simpl.
  rewrite IH by done. by rewrite <-str_app_assoc.
Qed.

Lemma parse_quoted f s rows row acc : no_quote_next s ->
  parse_loop (replace_all dquote (str1 dquote +:+ str1 dquote) f +:+ str1 dquote +:+ s)
    rows row acc true = parse_loop s rows row (acc +:+ f) false.
Proof.
  intros Hs. revert acc. induction f as [|c f IH]; intros acc.
  - rewrite str_app_nil_r. destruct s as [|d s]; [done|]. simpl in *.
    destruct (Ascii.eqb_spec d dquote); done.
  - simpl. destruct (Ascii.eqb_spec dquote c) as [<-|Hne]; simpl.
    + etransitivity; [apply IH|]. by rewrite <-str_app_assoc.
    + destruct (Ascii.eqb_spec c dquote); [by subst|].
      etransitivity; [apply IH|]. by rewrite <-str_app_assoc.
Qed.

Lemma parse_field f s rows row : no_quote_next s ->
  parse_loop (serializeDataGridClipboardField f +:+ s) rows row "" false =
  parse_loop s rows row f false.
Proof.
  intros Hs. unfold serializeDataGridClipboardField.
  destruct (str_exists special_char f) eqn:E; [|by rewrite parse_bare].
  rewrite <-!str_app_assoc. exact (parse_quoted f s rows row "" Hs).
Qed.

Lemma parse_tab s rows row f :
  parse_loop (str1 tab +:+ s) rows row f false = parse_loop s rows (row ++ [f]) "" false.
Proof. done. Qed.
Lemma parse_crlf s rows row f :
  parse_loop (crlf +:+ s) rows row f false = parse_loop s (rows ++ [row ++ [f]]) [] "" false.
Proof. done. Qed.

Lemma parse_line line f s rows row : no_quote_next s ->
  parse_loop (join (str1 tab) (map serializeDataGridClipboardField (line ++ [f])) +:+ s)
    rows row "" false = parse_loop s rows (row ++ line) f false.
Proof.
  intros Hs. revert row. induction line as [|g line IH]; intros row.
  - simpl. rewrite app_nil_r. by rewrite parse_field.
  - assert (exists h t, line ++ [f] = h :: t) as (h & t & E) by (destruct line; eauto).
    rewrite <-app_comm_cons, E in *. cbn [map] in *. rewrite join_cons2.
    rewrite <-!str_app_assoc, parse_field, parse_tab by done.
    etransitivity; [apply IH|]. by rewrite <-app_assoc.
Qed.

Lemma parse_grid grid rows : grid <> [] -> Forall (fun line => line <> []) grid ->
  parse_loop (serializeDataGridClipboardText grid) rows [] "" false = rows ++ grid.
Proof.
  unfold serializeDataGridClipboardText.
  revert rows. induction grid as [|line grid IH]; intros rows Hne Hf; [done|].
  apply Forall_cons in Hf as [Hl Hf].
  destruct line as [|f line _] using rev_ind; [done|].
  destruct grid as [|line2 grid].
  - cbn [map String.concat]. rewrite <-(str_app_nil_r (join _ _)).
    by rewrite parse_line.
  - cbn [map]. rewrite join_cons2, parse_line, parse_crlf by done.
    etransitivity; [apply IH; done|]. by rewrite <-app_assoc.
Qed.

Lemma parse_serialize grid :
  grid <> [] -> Forall (fun line => line <> []) grid ->
  length grid = 1 \/ last grid <> Some [""] ->
  parseDataGridClipboardText (serializeDataGridClipboardText grid) = grid.
Proof.
  intros Hne Hf H. unfold parseDataGridClipboardText. rewrite parse_grid by done.
  unfold drop_artifact. simpl. destruct H as [-> | H]; [done|].
  rewrite bool_decide_false by done. by rewrite andb_false_r.
Qed.

(** C11: What the grid copies it pastes back, field by field, whatever tabs,
    quotes and line breaks the fields hold: parsing the text of a grid gives
    the grid, except that a last line holding one empty field (a copied single
    column that ends in an empty cell) is taken for the newline other programs
    append, and lost. *)
Theorem clipboard_roundtrip grid :
  grid <> [] -> Forall (fun line => line <> []) grid ->
  parseDataGridClipboardText (serializeDataGridClipboardText (grid ++ [[""]])) = grid /\
  (length grid = 1 \/ last grid <> Some [""] ->
   parseDataGridClipboardText (serializeDataGridClipboardText grid) = grid).
Proof.
  intros Hne Hf. split; [|by apply parse_serialize].
  unfold parseDataGridClipboardText.
  rewrite parse_grid; [|by destruct grid|by apply Forall_app; split; [|constructor]].
  unfold drop_artifact. rewrite app_nil_l, last_snoc, length_app, bool_decide_true by done.
  destruct grid; [done|]. simpl length. rewrite Nat.add_comm. simpl.
  change (removelast ((l :: grid) ++ [[""]]) = l :: grid). apply removelast_last.
Qed.
Lemma clipboard_roundtrip_witness :
  let grid := [["a" +:+ str1 tab +:+ "b"; str1 dquote]; ["two" +:+ crlf +:+ "lines"; ""]] in
  parseDataGridClipboardText (serializeDataGridClipboardText grid) = grid.
Proof.
  apply clipboard_roundtrip; [done|by repeat constructor|]. right. done.
Defined.

(** ** The HTML flavour *)

(** No field can open or close an element: what it adds to the table holds
    angle brackets in line breaks only. *)
Lemma escape_lacks_angles v c : c = "<"%char \/ c = ">"%char ->
  lacks c (escapeDataGridClipboardHtml v).
Proof.
  unfold escapeDataGridClipboardHtml.
  intros [-> | ->]; apply replace_all_out; [done| |done|by left].
  right. apply replace_all_out; [done|by left].
Qed.
