(* ===== verification/CellSelection.v ===== *)
(** * Cell selection of the data grid

    The selection geometry, the batches (copy, clear, paste, fill) and the
    clipboard handlers of
    [packages/ui/src/components/reui/data-grid/data-grid-cell-selection.tsx].
    The table is TanStack's; [Table] holds what its getters answer at the time
    of a call, and the calls that change it are the [Command]s a handler
    returns.  The viewport is the list of the [data-row-id] attributes of its
    rows, top to bottom. *)
From S2P Require Import Prelude JsString JsMap Clipboard.

(** ** Data *)

(** A cell value ([unknown]): what the code tells apart, and the rest. *)
Inductive CellValue (Other : Type) := Undef | Nul | Text (s : string) | Opaque (o : Other).
Arguments Undef {_}.
Arguments Nul {_}.
Arguments Text {_} _.
Arguments Opaque {_} _.

Record Bound := mkBound {
  minRowIndex : nat; maxRowIndex : nat; minColumnIndex : nat; maxColumnIndex : nat
}.
#[export] Instance Bound_eq_dec : EqDecision Bound.
Proof. solve_decision. Defined.

Inductive Direction := Up | Down | Left_ | Right_.
Inductive ChangeSource := SrcPaste | SrcCut | SrcClear | SrcFill | SrcEdit.
(** [control?: "text" | "textarea"] of a column's [cellEdit]. *)
Inductive Control := ControlText | ControlTextarea.
Inductive RejectReason := Readonly | Invalid.
Record Rejection := mkRejection {
  rj_rowId : string; rj_columnId : string; rj_raw : string; rj_reason : RejectReason
}.
Record PasteTarget := mkTarget {
  startRowIndex : nat; endRowIndex : nat; rowCount : nat;
  startColumnIndex : nat; endColumnIndex : nat
}.
Record CellRange := mkRange {
  anchorRowId : string; anchorColumnId : string; focusRowId : string; focusColumnId : string
}.

Section Grid.
Context {Data Other : Type} (to_string : Other -> string).
Notation value := (CellValue Other).

(** [editable?: boolean | (row) => boolean] *)
Inductive Editable := EditAbsent | EditFlag (b : bool) | EditIf (f : Data -> bool).
Record CellEdit := mkEdit {
  ce_editable : Editable;
  ce_parse : option (string -> Data -> value);
  ce_format : option (value -> Data -> string);
  ce_clearValue : value;
  ce_control : option Control
}.
(** [enableCellSelection] is false only when the column says [false];
    [headerTitle] and [header] hold them when they are strings. *)
Record Column := mkColumn {
  col_id : string; enableCellSelection : bool; cellEdit : option CellEdit;
  headerTitle : option string; header : option string
}.
Record Row := mkRow { row_id : string; original : Data; cells : jsmap value }.
Record Focused := mkFocused { fo_row : Row; fo_displayIndex : Z; fo_column : Column }.
Record Table := mkTable {
  rowsInDisplayOrder : list Row; pageRows : list Row;
  startColumns : list Column; centerColumns : list Column; endColumns : list Column;
  cellSelectionBounds : list Bound; focusedCell : option Focused
}.
Record CellChange := mkChange {
  ch_rowId : string; ch_columnId : string; ch_row : Data;
  ch_previous : value; ch_value : value
}.
Record CellsChangeDetails := mkDetails {
  source : ChangeSource; changes : list CellChange; rejected : list Rejection
}.

Inductive Command :=
  | SelectCellRange (r : CellRange)
  | SetFocusedCell (rowId columnId : string)
  | MoveCellSelection (d : Direction)
  | ExtendCellSelection (d : Direction)
  | SelectAllCells
  | ResetCellSelection
  | SelectionStart (rowId columnId : string)
  | OnCellsChange (d : CellsChangeDetails)
  | OnCellsCopy (text : string) (grid : list (list string)) (cut : bool)
  | SetClipboard (text html : string).

(** [cells[id]?.getValue()] *)
Definition getValue (row : Row) (id : string) : value := mget (cells row) id ?? Undef.
(** [String(value ?? "")] *)
Definition shown (v : value) : string :=
  match v with Undef | Nul => "" | Text s => s | Opaque o => to_string o end.
(** [format ? format(value, row) : String(value ?? "")] *)
Definition formatted (column : Column) (row : Row) (v : value) : string :=
  match cellEdit column ≫= ce_format with
  | Some format => format v (original row)
  | None => shown v
  end.

(** ** Geometry *)
Definition getDataGridDisplayOrderedColumns (t : Table) : list Column :=
  startColumns t ++ centerColumns t ++ endColumns t.

Definition getDataGridWritableCellEdit (column : Column) (row : option Data) : option CellEdit :=
  match cellEdit column with
  | None => None
  | Some ce =>
      match ce_editable ce, row with
      | EditFlag false, _ => None
      | EditIf f, Some r => if f r then Some ce else None
      | _, _ => Some ce
      end
  end.

(** [None]: every row is shown. *)
Definition getDataGridRenderedRowIds (t : Table) (viewport : option (list string))
    : option jsset :=
  match viewport with
  | None => None
  | Some domIds =>
      if Nat.eqb (length (pageRows t)) (length (rowsInDisplayOrder t)) then None
      else Some (fold_left (fun s id => if String.eqb id "" then s else sadd s id) domIds
                   (set_of (map row_id (pageRows t))))
  end.
Definition renders (rendered : option jsset) (row : Row) : bool :=
  match rendered with None => true | Some ids => sin (row_id row) ids end.

(** [for (r = from; r < to; r++)] over [rows[r]], the rows the view shows. *)
Definition shown_rows (t : Table) (rendered : option jsset) (from to : nat) : list (Row * nat) :=
  flat_map (fun r => match rowsInDisplayOrder t !! r with
                     | Some row => if renders rendered row then [(row, r)] else []
                     | None => []
                     end) (seq from (to - from)).
(** The same over the columns that can be selected. *)
Definition selectable_columns (columns : list Column) (from to : nat) : list (Column * nat) :=
  flat_map (fun c => match columns !! c with
                     | Some column => if enableCellSelection column then [(column, c)] else []
                     | None => []
                     end) (seq from (to - from)).

Definition getDataGridVisibleSelectedCellCount (t : Table) (viewport : option (list string))
    : nat :=
  let columns := getDataGridDisplayOrderedColumns t in
  let rendered := getDataGridRenderedRowIds t viewport in
  fold_left (fun count b =>
    count +
    length (shown_rows t rendered (minRowIndex b) (S (maxRowIndex b))) *
    length (selectable_columns columns (minColumnIndex b) (S (maxColumnIndex b))))
    (cellSelectionBounds t) 0.

Definition column_index (columns : list Column) (id : string) : Z :=
  find_index (fun c => String.eqb (col_id c) id) columns.

Definition contains_cell (row column : Z) (b : Bound) : bool :=
  (Z.of_nat (minRowIndex b) <=? row)%Z && (row <=? Z.of_nat (maxRowIndex b))%Z &&
  (Z.of_nat (minColumnIndex b) <=? column)%Z && (column <=? Z.of_nat (maxColumnIndex b))%Z.

Definition getDataGridActiveBound (t : Table) : option Bound :=
  let bounds := cellSelectionBounds t in
  match focusedCell t with
  | Some f =>
      let column := column_index (getDataGridDisplayOrderedColumns t) (col_id (fo_column f)) in
      match js_find (contains_cell (fo_displayIndex f) column) bounds with
      | Some containing => Some containing
      | None => last bounds
      end
  | None => last bounds
  end.

(** [array[index + 1]] or [array[index - 1]], from an index that was found. *)
Definition neighbour {A} (l : list A) (index : Z) (forward : bool) : option A :=
  let i := (if forward then index + 1 else index - 1)%Z in
  if (i <? 0)%Z then None else l !! Z.to_nat i.

Inductive StepTarget := Edge | Cell (rowId columnId : string).

(** [None]: the position cannot be resolved here. *)
Definition getDataGridStepTarget (t : Table) (viewport : list string)
    (rowId columnId : string) (direction : Direction) : option StepTarget :=
  let horizontal right :=
    let selectable := bfilter enableCellSelection (getDataGridDisplayOrderedColumns t) in
    let index := column_index selectable columnId in
    if (index =? -1)%Z then None
    else match neighbour selectable index right with
         | Some next => Some (Cell rowId (col_id next))
         | None => Some Edge
         end in
  let vertical down :=
    let index := find_index (String.eqb rowId) viewport in
    if (index =? -1)%Z then None
    else match neighbour viewport index down with
         | Some next => if String.eqb next "" then Some Edge else Some (Cell next columnId)
         | None => Some Edge
         end in
  match direction with
  | Left_ => horizontal false
  | Right_ => horizontal true
  | Up => vertical false
  | Down => vertical true
  end.

(** The corner of the active bound opposite to the focused cell. *)
Definition opposite_row (rows : list Row) (rowIndex : Z) (b : Bound) : option string :=
  row_id <$> rows !! (if (rowIndex =? Z.of_nat (minRowIndex b))%Z then maxRowIndex b
                      else minRowIndex b).
Definition opposite_column (columns : list Column) (columnIndex : Z) (b : Bound)
    : option string :=
  col_id <$> columns !! (if (columnIndex =? Z.of_nat (minColumnIndex b))%Z
                         then maxColumnIndex b else minColumnIndex b).

Definition activeCorner (t : Table) : option (string * string) :=
  match focusedCell t, getDataGridActiveBound t with
  | Some f, Some b =>
      let columns := getDataGridDisplayOrderedColumns t in
      Some (opposite_row (rowsInDisplayOrder t) (fo_displayIndex f) b ?? row_id (fo_row f),
            opposite_column columns (column_index columns (col_id (fo_column f))) b
              ?? col_id (fo_column f))
  | _, _ => None
  end.

(** The template holds the count and the last bound, which it determines. *)
Definition boundKey (t : Table) : option (nat * Bound) :=
  (fun b => (length (cellSelectionBounds t), b)) <$> last (cellSelectionBounds t).

(** [after] is the table once [extendCellSelection] ran. *)
Definition extendDataGridSelection (before after : Table) (viewport : list string)
    (direction : Direction) : list Command * option (string * string) :=
  if negb (bool_decide (boundKey after = boundKey before)) then ([], activeCorner after)
  else match focusedCell after with
       | None => ([], None)
       | Some f =>
           let active := activeCorner after ?? (row_id (fo_row f), col_id (fo_column f)) in
           match getDataGridStepTarget after viewport active.1 active.2 direction with
           | Some (Cell r c) =>
               ([SelectCellRange (mkRange (row_id (fo_row f)) (col_id (fo_column f)) r c)],
                Some (r, c))
           | _ => ([], None)
           end
       end.

(** ** Copy and clear *)
Definition getDataGridActiveRegionGrid (t : Table) (viewport : option (list string))
    : option (list (list string)) :=
  match getDataGridActiveBound t with
  | None => None
  | Some b =>
      let columns := getDataGridDisplayOrderedColumns t in
      let rendered := getDataGridRenderedRowIds t viewport in
      let grid := map (fun row =>
          map (fun column => formatted column.1 row.1 (getValue row.1 (col_id column.1)))
            (selectable_columns columns (minColumnIndex b) (S (maxColumnIndex b))))
        (shown_rows t rendered (minRowIndex b) (S (maxRowIndex b))) in
      if Nat.eqb (length grid) 0 then None else Some grid
  end.

Definition clear_cell (row : Row) (column : Column) : list CellChange :=
  match getDataGridWritableCellEdit column (Some (original row)) with
  | None => []
  | Some ce =>
      [mkChange (row_id row) (col_id column) (original row) (getValue row (col_id column))
         (match ce_clearValue ce with Undef | Nul => Nul | v => v end)]
  end.

Definition buildDataGridClearDetails (t : Table) (source : ChangeSource)
    (activeRegionOnly : bool) (viewport : option (list string)) : option CellsChangeDetails :=
  let bounds :=
    if activeRegionOnly
    then match getDataGridActiveBound t with Some b => [b] | None => [] end
    else cellSelectionBounds t in
  let columns := getDataGridDisplayOrderedColumns t in
  let rendered := getDataGridRenderedRowIds t viewport in
  let changes := flat_map (fun b =>
      flat_map (fun row =>
        flat_map (fun column => clear_cell row.1 column.1)
          (selectable_columns columns (minColumnIndex b) (S (maxColumnIndex b))))
        (shown_rows t rendered (minRowIndex b) (S (maxRowIndex b)))) bounds in
  if Nat.eqb (length changes) 0 then None else Some (mkDetails source changes []).

(** ** Paste *)

(** [cellEdit.parse ? cellEdit.parse(raw, row) : raw] *)
Definition parsed_value (ce : CellEdit) (raw : string) (row : Data) : value :=
  match ce_parse ce with Some parse => parse raw row | None => Text raw end.

(** What happens to a target cell: pushed to [changes] or to [rejected]. *)
Definition paste_cell (row : Row) (column : Column) (raw : string)
    : CellChange + Rejection :=
  match getDataGridWritableCellEdit column (Some (original row)) with
  | None => inr (mkRejection (row_id row) (col_id column) raw Readonly)
  | Some ce =>
      match parsed_value ce raw (original row) with
      | Undef => inr (mkRejection (row_id row) (col_id column) raw Invalid)
      | v => inl (mkChange (row_id row) (col_id column) (original row)
                    (getValue row (col_id column)) v)
      end
  end.
Definition pushed_changes (l : list (CellChange + Rejection)) : list CellChange :=
  omap (fun o => match o with inl c => Some c | inr _ => None end) l.
Definition pushed_rejections (l : list (CellChange + Rejection)) : list Rejection :=
  omap (fun o => match o with inl _ => None | inr r => Some r end) l.

(** Lines 577-595: the size of what is written. *)
Definition paste_size (block : list (list string)) (regionRows regionColumns : nat)
    : nat * nat :=
  let blockRows := length block in
  let blockColumns := fold_left (fun max line => Nat.max max (length line)) block 1 in
  if Nat.eqb blockRows 1 && Nat.eqb blockColumns 1 then (regionRows, regionColumns)
  else if Nat.eqb (regionRows mod blockRows) 0 && Nat.eqb (regionColumns mod blockColumns) 0
  then (regionRows, regionColumns)
  else (blockRows, blockColumns).

(** The two loops over the target rows and columns: [tiled[r]?.[c] ?? ""]. *)
Definition paste_outcomes (targetRows : list (Row * nat)) (targetColumns : list (Column * nat))
    (tiled : list (list string)) (columnCount : nat) : list (CellChange + Rejection) :=
  flat_map (fun r =>
    match targetRows !! r with
    | Some row =>
        flat_map (fun c =>
          match targetColumns !! c with
          | Some column => [paste_cell row.1 column.1 (((tiled !! r) ≫= (.!! c)) ?? "")]
          | None => []
          end) (seq 0 columnCount)
    | None => []
    end) (seq 0 (length targetRows)).

Definition buildDataGridPasteDetails (t : Table) (block : list (list string))
    (viewport : option (list string)) : option (CellsChangeDetails * PasteTarget) :=
  match block, getDataGridActiveBound t with
  | [], _ | _, None => None
  | _, Some b =>
      let rows := rowsInDisplayOrder t in
      let columns := getDataGridDisplayOrderedColumns t in
      let rendered := getDataGridRenderedRowIds t viewport in
      let targetColumns := selectable_columns columns (minColumnIndex b) (length columns) in
      let regionColumns :=
        length (bfilter (fun c => Nat.leb c.2 (maxColumnIndex b)) targetColumns) in
      if Nat.eqb regionColumns 0 then None
      else
        let regionRows := maxRowIndex b - minRowIndex b + 1 in
        let '(rowCount, columnCount) := paste_size block regionRows regionColumns in
        let tiled := tileDataGridClipboardBlock block rowCount columnCount in
        let targetRows := take rowCount (shown_rows t rendered (minRowIndex b) (length rows)) in
        let outcomes := paste_outcomes targetRows targetColumns tiled columnCount in
        let changes := pushed_changes outcomes in
        let rejected := pushed_rejections outcomes in
        if Nat.eqb (length changes) 0 && Nat.eqb (length rejected) 0 then None
        else Some (mkDetails SrcPaste changes rejected,
          mkTarget (minRowIndex b) ((snd <$> last targetRows) ?? minRowIndex b)
            (length targetRows)
            ((snd <$> head targetColumns) ?? 0)
            ((snd <$> targetColumns !! (Nat.min columnCount (length targetColumns) - 1)) ?? 0))
  end.

Definition invert_change (c : CellChange) : CellChange :=
  mkChange (ch_rowId c) (ch_columnId c) (ch_row c) (ch_value c) (ch_previous c).
Definition invertDataGridCellsChange (d : CellsChangeDetails) : CellsChangeDetails :=
  mkDetails (source d) (map invert_change (changes d)) [].

Definition selectDataGridRegion (t : Table) (target : PasteTarget) : list Command :=
  let rows := rowsInDisplayOrder t in
  let columns := getDataGridDisplayOrderedColumns t in
  match rows !! startRowIndex target, columns !! startColumnIndex target,
        rows !! Nat.min (endRowIndex target) (length rows - 1),
        columns !! endColumnIndex target with
  | Some anchorRow, Some anchorColumn, Some focusRow, Some focusColumn =>
      [SelectCellRange (mkRange (row_id anchorRow) (col_id anchorColumn)
                          (row_id focusRow) (col_id focusColumn))]
  | _, _, _, _ => []
  end.

(** ** The fill handle *)
Inductive FillAxis := AxisRow | AxisColumn.
#[global] Instance FillAxis_eq_dec : EqDecision FillAxis.
Proof. solve_decision. Defined.

(** What the session's closures capture, and [extension]. *)
Record FillSession := mkFill {
  fs_bound : Bound;
  fs_columns : list Column;
  visibleRows : list (Row * nat);
  sourceRows : list (Row * nat);
  sourceEndVisibleIndex : nat;
  extension : option (FillAxis * nat)
}.

(** [new Map(entries.map((entry, index) => [id, index]))] *)
Definition index_by_id (ids : list string) : jsmap nat :=
  fold_left (fun m e => mset m e.2 e.1) (imap pair ids) [].

(** [None]: refused. *)
Definition startDataGridFillSession (t : Table) (viewport : list string) : option FillSession :=
  if Nat.ltb 1 (length (cellSelectionBounds t)) then None
  else match getDataGridActiveBound t with
       | None => None
       | Some b =>
           let domRowIds :=
             set_of (bfilter (fun id => negb (String.eqb id "")) viewport) in
           let visibleRows :=
             shown_rows t (Some domRowIds) 0 (length (rowsInDisplayOrder t)) in
           let visibleIndexById := index_by_id (map (fun e => row_id e.1) visibleRows) in
           let sourceRows := bfilter (fun e =>
             Nat.leb (minRowIndex b) e.2 && Nat.leb e.2 (maxRowIndex b)) visibleRows in
           match last sourceRows ≫= (fun e => mget visibleIndexById (row_id e.1)) with
           | None => None
           | Some sourceEnd =>
               Some (mkFill b (getDataGridDisplayOrderedColumns t) visibleRows sourceRows
                       sourceEnd None)
           end
       end.

Definition isFillableColumn (column : Column) : bool :=
  enableCellSelection column && bool_decide (is_Some (getDataGridWritableCellEdit column None)).

(** [columns.map((column, displayIndex) => ...).slice(from, to).filter(fillable)] *)
Definition fillable_columns (columns : list Column) (from to : nat) : list (Column * nat) :=
  bfilter (fun e => isFillableColumn e.1)
    (drop from (take to (imap (fun i column => (column, i)) columns))).

Definition getExtensionTargets (f : FillSession)
    : option (list (Row * nat) * list (Column * nat)) :=
  let b := fs_bound f in
  match extension f with
  | None => None
  | Some (AxisRow, count) =>
      Some (drop (S (sourceEndVisibleIndex f))
              (take (S (sourceEndVisibleIndex f) + count) (visibleRows f)),
            fillable_columns (fs_columns f) (minColumnIndex b) (S (maxColumnIndex b)))
  | Some (AxisColumn, count) =>
      Some (sourceRows f,
            fillable_columns (fs_columns f) (S (maxColumnIndex b))
              (S (maxColumnIndex b) + count))
  end.

(** The cells [applyPreview] marks; [mounted] says whether the cell is in the
    document. *)
Definition applyPreview (f : FillSession) (mounted : string -> string -> bool)
    : list (string * string) :=
  match getExtensionTargets f with
  | None => []
  | Some (rowEntries, columnEntries) =>
      flat_map (fun row =>
        flat_map (fun column =>
          match getDataGridWritableCellEdit column.1 (Some (original row.1)) with
          | None => []
          | Some _ => if mounted (row_id row.1) (col_id column.1)
                      then [(row_id row.1, col_id column.1)] else []
          end) columnEntries) rowEntries
  end.

(** [handleMove] over the cell of row [rowId] and column [columnId]. *)
Definition fill_move (f : FillSession) (rowId columnId : string) : FillSession :=
  let rowIndexById := index_by_id (map (fun e => row_id e.1) (visibleRows f)) in
  let columnIndexById := index_by_id (map col_id (fs_columns f)) in
  match mget rowIndexById rowId, mget columnIndexById columnId with
  | Some r, Some c =>
      let rowsDelta := r - sourceEndVisibleIndex f in
      let columnsDelta := c - maxColumnIndex (fs_bound f) in
      let next :=
        if Nat.eqb rowsDelta 0 && Nat.eqb columnsDelta 0 then None
        else if Nat.leb columnsDelta rowsDelta then Some (AxisRow, rowsDelta)
        else Some (AxisColumn, columnsDelta) in
      mkFill (fs_bound f) (fs_columns f) (visibleRows f) (sourceRows f)
        (sourceEndVisibleIndex f) next
  | _, _ => f
  end.

(** A target cell of a downward fill: the row [offset] rows after the source
    repeats the source's rows cyclically. *)
Definition fill_row_cell (f : FillSession) (offset : nat) (targetRow : Row) (column : Column)
    : list (CellChange + Rejection) :=
  match getDataGridWritableCellEdit column (Some (original targetRow)),
        sourceRows f !! (offset mod length (sourceRows f)) with
  | Some _, Some sourceRow =>
      [inl (mkChange (row_id targetRow) (col_id column) (original targetRow)
              (getValue targetRow (col_id column)) (getValue sourceRow.1 (col_id column)))]
  | _, _ => []
  end.

(** A target cell of a rightward fill: across columns the value goes through
    the source's format and the target's parse. *)
Definition fill_column_cell (f : FillSession) (row : Row) (target : Column * nat)
    : list (CellChange + Rejection) :=
  let b := fs_bound f in
  let regionColumns := maxColumnIndex b - minColumnIndex b + 1 in
  let offset := target.2 - S (maxColumnIndex b) in
  match fs_columns f !! (minColumnIndex b + offset mod regionColumns) with
  | None => []
  | Some sourceColumn =>
      match getDataGridWritableCellEdit target.1 (Some (original row)) with
      | None => []
      | Some targetEdit =>
          let sourceValue := getValue row (col_id sourceColumn) in
          let change v :=
            [inl (mkChange (row_id row) (col_id target.1) (original row)
                    (getValue row (col_id target.1)) v)] in
          match (if String.eqb (col_id target.1) (col_id sourceColumn) then None
                 else ce_parse targetEdit) with
          | None => change sourceValue
          | Some parse =>
              let raw := formatted sourceColumn row sourceValue in
              match parse raw (original row) with
              | Undef => [inr (mkRejection (row_id row) (col_id target.1) raw Invalid)]
              | parsed => change parsed
              end
          end
      end
  end.

Definition fill_outcomes (f : FillSession) : list (CellChange + Rejection) :=
  match getExtensionTargets f, extension f with
  | Some (rowEntries, columnEntries), Some (AxisRow, _) =>
      flat_map (fun e => flat_map (fun column => fill_row_cell f e.1 e.2.1 column.1)
                           columnEntries) (imap pair rowEntries)
  | Some (rowEntries, columnEntries), Some (AxisColumn, _) =>
      flat_map (fun row => flat_map (fun column => fill_column_cell f row.1 column)
                             columnEntries) rowEntries
  | _, _ => []
  end.

(** [finish]: Escape cancels, the release commits; [t] is the table then. *)
Definition fill_finish (f : FillSession) (t : Table) (commit listening : bool) : list Command :=
  match getExtensionTargets f, extension f with
  | Some (rowEntries, _), Some (axis, count) =>
      if negb commit || negb listening || Nat.eqb (length rowEntries) 0 then []
      else
        let outcomes := fill_outcomes f in
        let b := fs_bound f in
        (if Nat.eqb (length outcomes) 0 then []
         else [OnCellsChange (mkDetails SrcFill (pushed_changes outcomes)
                                (pushed_rejections outcomes))]) ++
        selectDataGridRegion t (mkTarget (minRowIndex b)
          (match axis with
           | AxisRow => (snd <$> last rowEntries) ?? maxRowIndex b
           | AxisColumn => maxRowIndex b
           end) 0 (minColumnIndex b)
          (maxColumnIndex b + match axis with AxisColumn => count | AxisRow => 0 end))
  | _, _ => []
  end.
(** ** Focus jumps *)
Inductive RowTarget := RowFirst | RowLast | RowSame | RowDelta (delta : Z).
Inductive ColumnTarget := ColumnFirst | ColumnLast | ColumnSame.

(** The walk back towards the focus; each turn is one closer to it, so the
    distance is fuel enough. *)
Fixpoint clamp_walk (fuel : nat) (rows : list Row) (rendered : jsset) (rowIndex step at_ : Z)
    : Z :=
  match fuel with
  | 0 => at_
  | S fuel' =>
      if (at_ =? rowIndex)%Z then at_
      else if (at_ <? 0)%Z then at_
      else match rows !! Z.to_nat at_ with
           | Some row =>
               if sin (row_id row) rendered then at_
               else clamp_walk fuel' rows rendered rowIndex step (at_ + step)
           | None => at_
           end
  end.

Definition jump_row (t : Table) (viewport : list string) (rowIndex : Z) (target : RowTarget) : Z :=
  let rows := rowsInDisplayOrder t in
  let lastRow := (Z.of_nat (length rows) - 1)%Z in
  let targetRowIndex :=
    match target with
    | RowFirst => 0%Z
    | RowLast => lastRow
    | RowSame => rowIndex
    | RowDelta delta => Z.min lastRow (Z.max 0 (rowIndex + delta))
    end in
  if Nat.eqb (length (pageRows t)) (length rows) then targetRowIndex
  else
    let rendered := fold_left sadd viewport (set_of (map row_id (pageRows t))) in
    let step := if (rowIndex <=? targetRowIndex)%Z then (-1)%Z else 1%Z in
    clamp_walk (Z.abs_nat (targetRowIndex - rowIndex)) rows rendered rowIndex step targetRowIndex.

(** What it asks of the table; [None]: [false], nothing done. *)
Definition jumpFocus (t : Table) (viewport : list string) (rowTarget : RowTarget)
    (columnTarget : ColumnTarget) (extend : bool) : option Command :=
  match focusedCell t with
  | None => None
  | Some f =>
      let rows := rowsInDisplayOrder t in
      let allColumns := getDataGridDisplayOrderedColumns t in
      let selectable := bfilter enableCellSelection allColumns in
      if Nat.eqb (length rows) 0 || Nat.eqb (length selectable) 0 then None
      else
        let rowIndex := fo_displayIndex f in
        let clamped := jump_row t viewport rowIndex rowTarget in
        let targetColumn := match columnTarget with
                            | ColumnFirst => head selectable
                            | ColumnLast => last selectable
                            | ColumnSame => Some (fo_column f)
                            end in
        match (if (clamped <? 0)%Z then None else rows !! Z.to_nat clamped), targetColumn with
        | Some row, Some column =>
            Some (if extend then
              let anchor :=
                match getDataGridActiveBound t with
                | Some b =>
                    (opposite_row rows rowIndex b ?? row_id (fo_row f),
                     opposite_column allColumns (column_index allColumns (col_id (fo_column f))) b
                       ?? col_id (fo_column f))
                | None => (row_id (fo_row f), col_id (fo_column f))
                end in
              SelectCellRange (mkRange anchor.1 anchor.2 (row_id row) (col_id column))
            else SetFocusedCell (row_id row) (col_id column))
        | _, _ => None
        end
  end.

Definition moveFocusVisual (t : Table) (viewport : list string) (direction : Direction)
    : list Command :=
  match focusedCell t ≫= (fun f =>
          getDataGridStepTarget t viewport (row_id (fo_row f)) (col_id (fo_column f)) direction) with
  | Some Edge => []
  | Some (Cell r c) => [SetFocusedCell r c]
  | None => [MoveCellSelection direction]
  end.

(** ** The clipboard handlers *)

(** [None]: [false], with nothing done. *)
Definition copySelection (t : Table) (viewport : list string) (clipboardData cut : bool)
    : option (list Command) :=
  match getDataGridActiveRegionGrid t (Some viewport) with
  | Some grid =>
      if negb clipboardData then None
      else
        let text := serializeDataGridClipboardText grid in
        Some [SetClipboard text (renderDataGridClipboardHtml grid); OnCellsCopy text grid cut]
  | None => None
  end.
Definition handleCopy (t : Table) (viewport : list string) (editableTarget clipboardData : bool)
    : list Command :=
  if editableTarget then [] else copySelection t viewport clipboardData false ?? [].

(** [t'] is the table once [onCellsCopy] returned. *)
Definition handleCut (t t' : Table) (viewport : list string)
    (editableTarget clipboardData listening : bool) : list Command :=
  if editableTarget then []
  else match copySelection t viewport clipboardData true with
       | None => []
       | Some copied =>
           copied ++
           (if negb listening then []
            else match buildDataGridClearDetails t' SrcCut true (Some viewport) with
                 | Some details => [OnCellsChange details]
                 | None => []
                 end)
       end.

(** [t'] is the table once [onCellsChange] returned. *)
Definition handlePaste (t t' : Table) (viewport : list string) (editableTarget listening : bool)
    (text : option string) (rangeSelection : bool) : list Command :=
  if editableTarget || negb listening then []
  else match text with
       | None | Some EmptyString => []
       | Some text =>
           match buildDataGridPasteDetails t (parseDataGridClipboardText text) (Some viewport) with
           | None => []
           | Some (details, target) =>
               OnCellsChange details ::
               (if rangeSelection then selectDataGridRegion t' target else [])
           end
       end.

(** The Delete and Backspace keys. *)
Definition handleDelete (t : Table) (viewport : list string) (listening : bool) : list Command :=
  if negb listening then []
  else match buildDataGridClearDetails t SrcClear false (Some viewport) with
       | Some details => [OnCellsChange details]
       | None => []
       end.
End Grid.
