(* ===== verification/CellKeys.v ===== *)
(** * The keyboard of the data grid

    [handleKeyDown] and what it calls in
    [packages/ui/src/components/reui/data-grid/data-grid-cell-selection.tsx]:
    the rows appended after the data, the chords, the arrows and jumps, Tab,
    the delete keys, Escape, and the keys that open an editor.

    A handler is a computation [K] over the table that logs its [Act]s in
    order.  The table is TanStack's, and the callbacks are the consumer's:
    [call] is what the table reads once a command has run.  What a handler
    reads of the document does not change while it runs: it is the [GridView]. *)
From S2P Require Import Prelude JsString JsMap Clipboard CellSelection.
From Stdlib Require QArith.Qround.

(** ** The document *)

(** A child of the table body: a data row with its [data-row-id], or another
    row with [aria-hidden], and its first focusable control, if any, and
    whether that takes the focus. *)
Inductive BodyRow := DataRow (id : string) | OtherRow (ariaHidden : bool) (control : option bool).

(** An element inside the focused cell, in document order, and the selectors
    it matches. *)
Record CellElement := mkElement {
  el_id : string; el_combobox : bool; el_select : bool; el_input : bool; el_generic : bool;
  el_checkbox : bool
}.

Record GridView := mkView {
  v_body : list BodyRow;
  v_rtl : bool;
  v_focusedTd : option (list CellElement);
  v_scroll : Z * Z;              (* the viewport's scrollHeight and clientHeight *)
  v_ancestors : list (Z * Z);    (* the same, of its ancestors *)
  v_rowHeight : QArith_base.Q    (* of the first data row; 0 without one *)
}.

(** Where the event happened: the row without an id around it, by its place in
    the body, and the guards' [closest] tests. *)
Record Target := mkTarget {
  tg_row : option nat; tg_editable : bool; tg_button : bool; tg_cell : bool
}.
Record KeyEvent := mkKey {
  ke_key : string; ke_code : string;
  ke_shift : bool; ke_ctrl : bool; ke_meta : bool; ke_alt : bool; ke_prevented : bool
}.
(** The table layout and the callbacks the consumer wired. *)
Record Props := mkProps {
  p_single : bool; p_clipboard : bool; p_onCellsChange : bool; p_onCellEditRequest : bool;
  p_clickEdit : bool; p_enterAdvance : bool
}.
Definition isRangeSelectionEnabled (p : Props) : bool := negb (p_single p).
Definition isDataGridEditableTarget (tg : Target) : bool := tg_editable tg.
Definition isDataGridInteractiveKeyTarget (tg : Target) : bool :=
  isDataGridEditableTarget tg || tg_button tg.

(** [querySelectorAll("tbody tr[data-row-id]")] and its ids. *)
Definition row_ids (v : GridView) : list string :=
  omap (fun r => match r with DataRow id => Some id | OtherRow _ _ => None end) (v_body v).

Record EditorSession := mkSession {
  es_rowId : string; es_columnId : string; es_control : Control;
  initialValue : string; baseline : string; es_label : string
}.

(** ** Appended rows *)

(** The loop back from the last row, up to the first data row. *)
Fixpoint appended_walk (l : list (nat * BodyRow)) (appended : list nat) : list nat :=
  match l with
  | (i, OtherRow ariaHidden _) :: l' =>
      appended_walk l' (if ariaHidden then appended else i :: appended)
  | _ => appended
  end.
Definition getAppendedRows (body : list BodyRow) : list nat :=
  appended_walk (rev (imap pair body)) [].

(** The control [focusFirstIn] finds in a row, and whether it takes the focus. *)
Definition first_control (v : GridView) (row : option nat) : option (nat * bool) :=
  match row with
  | Some i => match v_body v !! i with
              | Some (OtherRow _ (Some accepts)) => Some (i, accepts)
              | _ => None
              end
  | None => None
  end.

(** ** The page *)
Definition scroller (v : GridView) : option (Z * Z) :=
  js_find (fun s => Z.ltb s.2 s.1) (v_scroll v :: v_ancestors v).
Definition getPageJumpSize (v : GridView) : Z :=
  let viewHeight :=
    match scroller v with
    | Some s => if Z.eqb s.2 0 then (v_scroll v).2 else s.2
    | None => (v_scroll v).2
    end in
  if QArith_base.Qeq_bool (v_rowHeight v) (QArith_base.inject_Z 0) || Z.eqb viewHeight 0 then 10%Z
  else Z.max 1 (Qround.Qfloor
         (QArith_base.Qdiv (QArith_base.inject_Z viewHeight) (v_rowHeight v)) - 1).

Section Keys.
Context {Data Other : Type} (to_string : Other -> string).
Notation Row := (@Row Data Other).
Notation Column := (@Column Data Other).
Notation Table := (@Table Data Other).
Notation Command := (@Command Data Other).

(** What [onCellEditRequest] is told. *)
Record EditRequest := mkRequest {
  er_rowId : string; er_columnId : string; er_row : Data; er_previous : CellValue Other;
  er_initialText : option string
}.

Inductive Act :=
  | Do (c : Command)
  | FocusGrid                       (* focusTarget.focus() *)
  | FocusIn (row : nat)             (* the first control of an appended row *)
  | SyncActive (nextFrame : bool)   (* syncActiveDescendant *)
  | Scroll (target : option (Z * nat)) (corner : option (string * string))
  | OpenEditor (s : EditorSession)
  | RequestEdit (r : EditRequest)
  | Activate (element : string)     (* control.focus(); control.click() *)
  | Click (element : string)
  | WriteClipboard (cut : bool) (grid : list (list string))
  | PreventDefault | StopPropagation.

(** The table after a command; for a callback, after it returned. *)
Context (call : Command -> Table -> Table).
(** [cell.id] is TanStack's. *)
Context (cell_id : string -> string -> string).

(** ** Computations *)
Definition K (A : Type) : Type := Table -> A * (Table * list Act).
#[global] Instance K_ret : MRet K := fun A a t => (a, (t, [])).
#[global] Instance K_bind : MBind K := fun A B f m t =>
  let '(a, (t1, l1)) := m t in let '(b, (t2, l2)) := f a t1 in (b, (t2, l1 ++ l2)).
Definition getTable : K Table := fun t => (t, (t, [])).
Definition emitAct (a : Act) : K unit := fun t => (tt, (t, [a])).
Definition run (c : Command) : K unit := fun t => (tt, (call c t, [Do c])).
Definition run_all (cs : list Command) : K unit := foldr (fun c k => run c;; k) (mret tt) cs.
Definition when (b : bool) (k : K unit) : K unit := if b then k else mret tt.
Definition nothing : K unit := mret tt.
Definition prevent : K unit := emitAct PreventDefault.

(** ** Steps *)
Definition focusFirstIn (v : GridView) (row : option nat) : K bool :=
  match first_control v row with
  | Some (i, accepts) => emitAct (FocusIn i);; mret accepts
  | None => mret false
  end.

(** [jumpFocus] over [CellSelection.jumpFocus], which says what it asks of the
    table; then it scrolls to the target. *)
Definition jump (v : GridView) (rowTarget : RowTarget) (columnTarget : ColumnTarget) (extend : bool)
    : K bool :=
  t ← getTable;
  match jumpFocus t (row_ids v) rowTarget columnTarget extend, focusedCell t with
  | Some c, Some f =>
      run c;;
      emitAct (Scroll (Some (jump_row t (row_ids v) (fo_displayIndex f) rowTarget,
                         length (rowsInDisplayOrder t)))
             (match c with
              | SelectCellRange r => Some (focusRowId r, focusColumnId r)
              | _ => None
              end));;
      mret true
  | _, _ => mret false
  end.

Definition moveFocus (v : GridView) (direction : Direction) : K unit :=
  t ← getTable; run_all (moveFocusVisual t (row_ids v) direction).

Definition extendSelection (v : GridView) (direction : Direction) : K (option (string * string)) :=
  before ← getTable;
  run (ExtendCellSelection direction);;
  after ← getTable;
  let done := extendDataGridSelection before after (row_ids v) direction in
  run_all done.1;; mret done.2.

(** ** Opening an editor *)
Definition label_of (column : Column) : string :=
  headerTitle column ?? header column ?? col_id column.

Definition open_session (f : @Focused Data Other) (control : Control) (initialText : option string)
    : EditorSession :=
  let v := getValue (fo_row f) (col_id (fo_column f)) in
  let shown := formatted to_string (fo_column f) (fo_row f) v in
  mkSession (row_id (fo_row f)) (col_id (fo_column f)) control (initialText ?? shown) shown
    (label_of (fo_column f)).

(** The lookup in the order of the selectors. *)
Definition primary_control (cell : list CellElement) : option CellElement :=
  let kinds := [el_combobox; el_select; el_input; el_generic] in
  head (omap (fun kind => js_find kind cell) kinds).

(** A deliberate activation only: typed text has nowhere to go. *)
Definition activateControl (v : GridView) (initialText : option string) : K bool :=
  match initialText, v_focusedTd v ≫= primary_control with
  | None, Some control => emitAct (Activate (el_id control));; mret true
  | _, _ => mret false
  end.

Definition requestCellEdit (p : Props) (v : GridView) (initialText : option string) : K bool :=
  t ← getTable;
  match focusedCell t with
  | None => mret false
  | Some f =>
      match getDataGridWritableCellEdit (fo_column f) (Some (original (fo_row f))) with
      | Some ce =>
          match ce_control ce with
          | Some control => emitAct (OpenEditor (open_session f control initialText));; mret true
          | None =>
              if p_onCellEditRequest p then
                emitAct (RequestEdit (mkRequest (row_id (fo_row f)) (col_id (fo_column f))
                       (original (fo_row f)) (getValue (fo_row f) (col_id (fo_column f)))
                       initialText));;
                mret true
              else activateControl v initialText
          end
      | None => activateControl v initialText
      end
  end.

(** ** The keys *)

(** Inside the appended rows: the arrows walk them, every other key is the
    control's.  [None]: the event is not in such a row. *)
Definition appended_keys (v : GridView) (tg : Target) (e : KeyEvent) : option (K unit) :=
  match tg_row tg with
  | None => None
  | Some i =>
      Some (
        let appended := getAppendedRows (v_body v) in
        let index := find_index (Nat.eqb i) appended in
        if Z.eqb index (-1) then nothing
        else if String.eqb (ke_key e) "ArrowDown" then
          moved ← focusFirstIn v (appended !! S (Z.to_nat index)); when moved prevent
        else if String.eqb (ke_key e) "ArrowUp" then
          moved ← (if Z.ltb 0 index then focusFirstIn v (appended !! (Z.to_nat index - 1))
                   else mret false);
          if moved : bool then prevent
          else emitAct FocusGrid;; emitAct (SyncActive false);; prevent
        else nothing)
  end.

(** On a control inside a cell only Escape is the grid's. *)
Definition control_keys (tg : Target) (e : KeyEvent) : K unit :=
  when (String.eqb (ke_key e) "Escape" && tg_cell tg)
    (prevent;; emitAct StopPropagation;; emitAct FocusGrid;; emitAct (SyncActive false)).

Definition letter_is (e : KeyEvent) (lower upper code : string) : bool :=
  String.eqb (ke_key e) lower || String.eqb (ke_key e) upper || String.eqb (ke_code e) code.
Definition chord (e : KeyEvent) : bool := ke_meta e || ke_ctrl e.

Definition select_all_chord (e : KeyEvent) : bool :=
  letter_is e "a" "A" "KeyA" && chord e && negb (ke_alt e).
Definition selectAll (p : Props) : K unit :=
  when (isRangeSelectionEnabled p) (run SelectAllCells;; emitAct (SyncActive true));; prevent.

(** [Some cut]: the chord writes the selection to the clipboard. *)
Definition copy_chord (p : Props) (e : KeyEvent) : option bool :=
  if chord e && negb (ke_alt e) && p_clipboard p then
    let isCut := letter_is e "x" "X" "KeyX" in
    if letter_is e "c" "C" "KeyC" || isCut then Some isCut else None
  else None.
(** Up to the first [await]: the grid is read at once. *)
Definition copyChord (v : GridView) (cut : bool) : K unit :=
  prevent;;
  t ← getTable;
  match getDataGridActiveRegionGrid to_string t (Some (row_ids v)) with
  | Some grid => emitAct (WriteClipboard cut grid)
  | None => nothing
  end.

Definition arrow_direction (v : GridView) (key : string) : option Direction :=
  if String.eqb key "ArrowUp" then Some Up
  else if String.eqb key "ArrowDown" then Some Down
  else if String.eqb key "ArrowLeft" then Some (if v_rtl v then Right_ else Left_)
  else if String.eqb key "ArrowRight" then Some (if v_rtl v then Left_ else Right_)
  else None.

Definition extending (p : Props) (e : KeyEvent) : bool :=
  ke_shift e && isRangeSelectionEnabled p.

(** ArrowDown on the last rendered row. *)
Definition enter_appended (v : GridView) (e : KeyEvent) (direction : Direction) : K bool :=
  t ← getTable;
  match direction, focusedCell t, last (row_ids v) with
  | Down, Some f, Some lastRendered =>
      if negb (ke_shift e) && negb (String.eqb lastRendered "") &&
         String.eqb (row_id (fo_row f)) lastRendered
      then focusFirstIn v (head (getAppendedRows (v_body v)))
      else mret false
  | _, _, _ => mret false
  end.

Definition arrow_step (v : GridView) (direction : Direction) : K unit :=
  t ← getTable;
  match focusedCell t ≫= (fun f => getDataGridStepTarget t (row_ids v) (row_id (fo_row f))
                                      (col_id (fo_column f)) direction) with
  | Some Edge => prevent
  | Some (Cell r c) => run (SetFocusedCell r c);; prevent;; emitAct (Scroll None None)
  | None => run (MoveCellSelection direction);; prevent;; emitAct (Scroll None None)
  end.

Definition arrow_key (p : Props) (v : GridView) (e : KeyEvent) (direction : Direction) : K unit :=
  if chord e then
    jumped ← (match direction with
              | Up => jump v RowFirst ColumnSame (extending p e)
              | Down => jump v RowLast ColumnSame (extending p e)
              | Left_ => jump v RowSame ColumnFirst (extending p e)
              | Right_ => jump v RowSame ColumnLast (extending p e)
              end);
    when jumped prevent
  else
    entered ← enter_appended v e direction;
    if entered : bool then prevent
    else if extending p e then
      corner ← extendSelection v direction;
      prevent;; emitAct (Scroll None corner)
    else arrow_step v direction.

Definition home_end (p : Props) (v : GridView) (e : KeyEvent) (home : bool) : K unit :=
  let row := if home then RowFirst else RowLast in
  let column := if home then ColumnFirst else ColumnLast in
  jumped ← jump v (if chord e then row else RowSame) column (extending p e);
  when jumped prevent.

Definition page_key (p : Props) (v : GridView) (e : KeyEvent) (up : bool) : K unit :=
  let delta := ((if up then -1 else 1) * getPageJumpSize v)%Z in
  jumped ← jump v (RowDelta delta) ColumnSame (extending p e);
  when jumped prevent.

Definition enter_key (p : Props) (v : GridView) (e : KeyEvent) : K unit :=
  opened ← (if ke_shift e then mret false else requestCellEdit p v None);
  if opened : bool then prevent
  else
    moveFocus v (if ke_shift e then Up else Down);; prevent;; emitAct (Scroll None None).

Definition f2_key (p : Props) (v : GridView) : K unit :=
  opened ← requestCellEdit p v None; when opened prevent.

Definition focused_id (t : Table) : option string :=
  (fun f => cell_id (row_id (fo_row f)) (col_id (fo_column f))) <$> focusedCell t.
(** Logical directions, with no right-to-left swap. *)
Definition tab_key (v : GridView) (e : KeyEvent) : K unit :=
  before ← getTable;
  moveFocus v (if ke_shift e then Left_ else Right_);;
  after ← getTable;
  when (bool_decide (is_Some (focused_id after)) &&
        negb (bool_decide (focused_id after = focused_id before)))
    (prevent;; emitAct (Scroll None None)).

Definition delete_key (p : Props) (v : GridView) : K unit :=
  if p_onCellsChange p then
    t ← getTable;
    run_all (handleDelete t (row_ids v) true);; prevent
  else nothing.

Definition escape_key : K unit :=
  t ← getTable;
  when (negb (Nat.eqb (length (cellSelectionBounds t)) 0))
    (run ResetCellSelection;; emitAct (SyncActive true);; prevent;; emitAct StopPropagation).

(** After the switch: Space on a checkbox, typing, and Space that opened
    nothing. *)
Definition space_checkbox (v : GridView) (e : KeyEvent) : option CellElement :=
  if String.eqb (ke_key e) " " then v_focusedTd v ≫= js_find el_checkbox else None.
Definition printable (e : KeyEvent) : bool :=
  Nat.eqb (String.length (ke_key e)) 1 && negb (ke_meta e) && negb (ke_ctrl e && negb (ke_alt e)).
Definition type_key (p : Props) (v : GridView) (e : KeyEvent) : K unit :=
  match space_checkbox v e with
  | Some checkbox => emitAct (Click (el_id checkbox));; prevent
  | None =>
      opened ← (if printable e then requestCellEdit p v (Some (ke_key e)) else mret false);
      if opened : bool then prevent
      else
        t ← getTable;
        when (String.eqb (ke_key e) " " && bool_decide (is_Some (focusedCell t))) prevent
  end.

(** The [switch] on the key. *)
Definition switch_key (p : Props) (v : GridView) (e : KeyEvent) : K unit :=
  let named := String.eqb (ke_key e) in
  match arrow_direction v (ke_key e) with
  | Some direction => arrow_key p v e direction
  | None =>
      if named "Home" || named "End" then home_end p v e (named "Home")
      else if named "PageUp" || named "PageDown" then page_key p v e (named "PageUp")
      else if named "Enter" then enter_key p v e
      else if named "F2" then f2_key p v
      else if named "Tab" then tab_key v e
      else if named "Delete" || named "Backspace" then delete_key p v
      else if named "Escape" then escape_key
      else type_key p v e
  end.

Definition handleKeyDown (p : Props) (v : GridView) (tg : Target) (e : KeyEvent) : K unit :=
  if ke_prevented e then nothing
  else match appended_keys v tg e with
       | Some k => k
       | None =>
           if isDataGridInteractiveKeyTarget tg then control_keys tg e
           else if select_all_chord e then selectAll p
           else match copy_chord p e with
                | Some cut => copyChord v cut
                | None => switch_key p v e
                end
       end.
End Keys.
