(* ===== verification/CellEditor.v ===== *)
(** * The editor and the mouse of the data grid

    The built-in editor's session and overlay, [focusCell] and its retries,
    the clipboard write of the copy chord, and the presses, drags and clicks
    of [packages/ui/src/components/reui/data-grid/data-grid-cell-selection.tsx].
    Handlers are computations of [CellKeys]; what outlives an event (the
    overlay's [finishedRef], a pending retry, a press, a drag) is a state that
    a step per event takes to the next. *)
From S2P Require Import Prelude JsString JsMap Clipboard CellSelection CellKeys.
From Stdlib Require QArith.Qround QArith.Qminmax.

(** ** Geometry *)
Module Measure.
Import QArith_base.
(** The rectangle, and what [Number.parseFloat] reads of the cell's style;
    [None] stands for [NaN]. *)
Record Cell := mkCell {
  left : Q; top : Q; width : Q; height : Q;
  lineHeight : option Q; fontSize : option Q; paddingTop : option Q
}.
Record Frame := mkFrame { vleft : Q; vtop : Q; scrollLeft : Q; scrollTop : Q }.
Record Style := mkStyle { s_left : Q; s_top : Q; s_width : Q; s_minHeight : Q; s_padding : Q }.

(** [a || b] on numbers. *)
Definition or_else (a : option Q) (b : Q) : Q :=
  match a with Some q => if Qeq_bool q (inject_Z 0) then b else q | None => b end.
Definition line_height (c : Cell) : Q :=
  or_else (lineHeight c)
    (or_else ((fun s => Qmult s (Qmake 3 2)) <$> fontSize c) (inject_Z 20)).
Definition centeredBlockPadding (c : Cell) : Q :=
  Qminmax.Qmax (or_else (paddingTop c) (inject_Z 0))
    (Qdiv (Qminus (height c) (line_height c)) (inject_Z 2)).
(** The fields of the style that are not copied from the cell's. *)
Definition measureDataGridCellEditorStyle (cell : option Cell) (v : Frame) : option Style :=
  (fun c => mkStyle (Qplus (Qminus (left c) (vleft v)) (scrollLeft v))
              (Qplus (Qminus (top c) (vtop v)) (scrollTop v))
              (width c) (height c) (centeredBlockPadding c)) <$> cell.
(** The offset estimated for a row that is not mounted. *)
Definition estimated_top (targetRowIndex : Z) (rowCount : positive) (scrollHeight clientHeight : Z)
    : Q :=
  Qminus (Qmult (Qmake (2 * targetRowIndex + 1) (2 * rowCount)) (inject_Z scrollHeight))
    (Qmake clientHeight 2).
End Measure.

Section Editor.
Context {Data Other : Type} (to_string : Other -> string).
Notation Row := (@Row Data Other).
Notation Column := (@Column Data Other).
Notation Table := (@Table Data Other).
Notation Command := (@Command Data Other).
Notation Act := (@Act Data Other).
Notation K := (@K Data Other).
Context (call : Command -> Table -> Table).
Context (getColumn : Table -> string -> option Column).
Notation run := (run call).
Notation run_all := (run_all call).

(** ** Sessions *)

(** [advance]: the step a finished edit takes; the refocus is a frame later. *)
Definition advance_focus (v : GridView) (direction : Direction) : K unit :=
  t ← getTable;
  match focusedCell t ≫= (fun f => getDataGridStepTarget t (row_ids v) (row_id (fo_row f))
                                      (col_id (fo_column f)) direction) with
  | Some (Cell r c) => run (SetFocusedCell r c)
  | Some Edge => nothing
  | None => run (MoveCellSelection direction)
  end.
Definition refocus_grid : K unit := emitAct FocusGrid;; emitAct (SyncActive true);; emitAct (Scroll None None).
Definition closeEditorSession (v : GridView) (advance : option Direction) (refocus : bool) : K unit :=
  match advance with Some direction => advance_focus v direction | None => nothing end;;
  when refocus refocus_grid.

(** The row and the writable column the session names, as the table has them
    now. *)
Definition session_cell (t : Table) (s : EditorSession) : option (Row * Column * CellEdit) :=
  match js_find (fun row => String.eqb (row_id row) (es_rowId s)) (rowsInDisplayOrder t),
        getColumn t (es_columnId s) with
  | Some row, Some column =>
      (fun ce => (row, column, ce)) <$> getDataGridWritableCellEdit column (Some (original row))
  | _, _ => None
  end.
Definition edit_details (s : EditorSession) (row : Row) (column : Column) (ce : CellEdit)
    (raw : string) : @CellsChangeDetails Data Other :=
  match parsed_value ce raw (original row) with
  | Undef => mkDetails SrcEdit [] [mkRejection (es_rowId s) (es_columnId s) raw Invalid]
  | v => mkDetails SrcEdit
           [mkChange (es_rowId s) (es_columnId s) (original row)
              (getValue row (col_id column)) v] []
  end.
Definition commitEditorSession (p : Props) (v : GridView) (session : option EditorSession)
    (raw : string) (advance : option Direction) (refocus : bool) : K unit :=
  closeEditorSession v advance refocus;;
  match session with
  | Some s =>
      if negb (p_onCellsChange p) || String.eqb raw (baseline s) then nothing
      else
        t ← getTable;
        match session_cell t s with
        | Some (row, column, ce) => run (OnCellsChange (edit_details s row column ce raw))
        | None => nothing
        end
  | None => nothing
  end.

(** ** The overlay *)

(** An event of one overlay: a key of its control, a blur, a row added or
    removed in the body, or a first effect that found no cell to cover.
    [value] is the control's text then. *)
Inductive OverlayEvent :=
  | EditorKey (value key : string) (shift alt : bool)
  | EditorBlur (value : string)
  | BodyMutated
  | Unmeasured.

(** [finish]; the state is [finishedRef]. *)
Definition finish_edit (p : Props) (v : GridView) (s : EditorSession) (finished : bool) (value : string)
    (commit : bool) (advance : option Direction) (refocus : bool) : K bool :=
  if finished then mret true
  else
    (if commit then commitEditorSession p v (Some s) value advance refocus
     else closeEditorSession v None true);;
    mret true.

Definition overlay_key (p : Props) (v : GridView) (s : EditorSession) (finished : bool)
    (value key : string) (shift alt : bool) : K bool :=
  if String.eqb key "Escape" then
    prevent;; emitAct StopPropagation;; finish_edit p v s finished value false None true
  else if String.eqb key "Tab" then
    prevent;; finish_edit p v s finished value true (Some (if shift then Left_ else Right_)) true
  else if negb (String.eqb key "Enter") then mret finished
  else if match es_control s with ControlTextarea => shift || alt | ControlText => false end
  then mret finished
  else
    prevent;;
    finish_edit p v s finished value true
      (if p_enterAdvance p then Some (if shift then Up else Down) else None) true.

Definition overlay_step (p : Props) (v : GridView) (s : EditorSession) (finished : bool)
    (e : OverlayEvent) : K bool :=
  match e with
  | EditorKey value key shift alt => overlay_key p v s finished value key shift alt
  | EditorBlur value => finish_edit p v s finished value true None false
  | BodyMutated => if finished then mret finished else closeEditorSession v None true;; mret finished
  | Unmeasured => closeEditorSession v None true;; mret finished
  end.
Fixpoint overlay_run (p : Props) (v : GridView) (s : EditorSession) (finished : bool)
    (es : list OverlayEvent) : K bool :=
  match es with
  | [] => mret finished
  | e :: es' => finished' ← overlay_step p v s finished e; overlay_run p v s finished' es'
  end.

(** ** [focusCell] *)

(** A pending timer: looking for the cell, or waiting for its attribute. *)
Inductive Retry :=
  | Quiet
  | Looking (rowId columnId : string) (edit : bool) (attempts : nat)
  | Waiting (attempts : nat).
(** The document at a timer: the viewport is connected, the cell looked for is
    mounted (and has an id), is still connected, carries the attribute. *)
Record Poll := mkPoll {
  viewport_connected : bool; cell_mounted : option bool; cell_connected : bool;
  cell_marked : bool
}.
Definition attemptEdit (p : Props) (v : GridView) (o : Poll) (attempts : nat) : K Retry :=
  if negb (cell_connected o) then mret Quiet
  else if cell_marked o then requestCellEdit to_string p v None;; mret Quiet
  else mret (match attempts with 0 => Quiet | S n => Waiting n end).
Definition attempt (p : Props) (v : GridView) (o : Poll) (rowId columnId : string) (edit : bool)
    (attempts : nat) : K Retry :=
  if negb (viewport_connected o) then mret Quiet
  else match cell_mounted o with
       | None => mret (match attempts with
                       | 0 => Quiet
                       | S n => Looking rowId columnId edit n
                       end)
       | Some hasId =>
           run (SetFocusedCell rowId columnId);;
           emitAct FocusGrid;;
           when hasId (emitAct (SyncActive false));;
           emitAct (Scroll None (Some (rowId, columnId)));;
           if edit then attemptEdit p v o 12 else mret Quiet
       end.
(** A new call clears the pending timer and makes its first attempt. *)
Definition focusCell (p : Props) (v : GridView) (o : Poll) (rowId columnId : string) (edit : bool)
    : K Retry :=
  attempt p v o rowId columnId edit 12.
Definition retry_fires (p : Props) (v : GridView) (o : Poll) (r : Retry) : K Retry :=
  match r with
  | Quiet => mret Quiet
  | Looking rowId columnId edit attempts => attempt p v o rowId columnId edit attempts
  | Waiting attempts => attemptEdit p v o attempts
  end.
Fixpoint retries (p : Props) (v : GridView) (os : list Poll) (r : Retry) : K Retry :=
  match os with
  | [] => mret r
  | o :: os' => r' ← retry_fires p v o r; retries p v os' r'
  end.
Definition clearSelection : K unit := run ResetCellSelection;; emitAct (SyncActive true).

(** ** The copy chord, after the clipboard answered *)

(** What the platform offers: [None] is not available, [Some false] throws. *)
Record Platform := mkPlatform {
  clipboard_write : option bool; clipboard_writeText : option bool; execCommand_copies : bool
}.
(** Whether [writeSelectionToClipboard] wrote, and whether it went through the
    scratch textarea, which gives the focus back. *)
Definition writes_clipboard (o : Platform) : bool * bool :=
  match clipboard_write o, clipboard_writeText o with
  | Some true, _ => (true, false)
  | Some false, _ => (execCommand_copies o, true)
  | None, Some true => (true, false)
  | None, _ => (execCommand_copies o, true)
  end.
(** The promise's continuation; it reads the table of that moment. *)
Definition chord_written (p : Props) (v : GridView) (cut : bool) (grid : list (list string))
    (o : Platform) : K unit :=
  let '(written, fallback) := writes_clipboard o in
  when fallback (emitAct FocusGrid);;
  when written (
    run (OnCellsCopy (serializeDataGridClipboardText grid) grid cut);;
    when (cut && p_onCellsChange p) (
      t ← getTable;
      match buildDataGridClearDetails t SrcCut true (Some (row_ids v)) with
      | Some details => run (OnCellsChange details)
      | None => nothing
      end)).

(** ** Presses *)

(** A [td[data-col-id]]: its row's id, its column's, whether it lies in the
    viewport and carries the focus attribute. *)
Record Td := mkTd {
  td_rowId : option string; td_columnId : string; td_inViewport : bool; td_focused : bool
}.
(** What is around the press: a widget that keeps its gestures, a checkbox, a
    marked control or one of the controls the selectors know; the nearest
    [td[data-col-id]] of each, and of the press itself. *)
Record PressTarget := mkPress {
  pt_interactive : bool; pt_checkbox : bool;
  pt_marked : option (option Td); pt_control : option (option Td);
  pt_td : option Td; pt_inTd : bool; pt_inFocusedTd : bool; pt_fillHandle : bool;
  pt_keyTarget : Target
}.
Record MouseEvent := mkMouse { me_button : Z; me_shift : bool; me_ctrl : bool; me_meta : bool }.
Definition modified (e : MouseEvent) : bool := me_shift e || me_ctrl e || me_meta e.

(** The control, by the cell it is in. *)
Definition getTwoStepControl (tg : PressTarget) : option (option Td) :=
  if pt_interactive tg || pt_checkbox tg then None
  else match pt_marked tg with Some td => Some td | None => pt_control tg end.

(** Whether the press is on a control of a cell that is not focused. *)
Definition unfocused_control (p : Props) (t : Table) (tg : PressTarget) (e : MouseEvent) : bool :=
  Z.eqb (me_button e) 0 && negb (modified e) && negb (p_clickEdit p) &&
  match getTwoStepControl tg with
  | Some (Some td) =>
      td_inViewport td && negb (td_focused td) &&
      match getColumn t (td_columnId td) with
      | Some column => enableCellSelection column
      | None => false
      end
  | _ => false
  end.

(** The drag in progress, keyed by the selection it started from. *)
Definition SelectionKey : Type := nat * nat * option Bound.
Context (selectedCellCount : Table -> nat).
Definition getSelectionKey (t : Table) : SelectionKey :=
  (selectedCellCount t, length (cellSelectionBounds t), last (cellSelectionBounds t)).

Record Mouse := mkMouseState {
  pressedUnfocusedControl : bool;
  dragStartedOnCell : bool;
  dragStartSelectionKey : option SelectionKey;
  squelching : bool;
  selecting : bool               (* the [data-cell-selecting] attribute *)
}.
Definition set_pressed (b : bool) (m : Mouse) : Mouse :=
  mkMouseState b (dragStartedOnCell m) (dragStartSelectionKey m) (squelching m) (selecting m).

Definition handleControlPointerDown (p : Props) (tg : PressTarget) (e : MouseEvent) (m : Mouse)
    : K Mouse :=
  t ← getTable;
  if unfocused_control p t tg e then emitAct StopPropagation;; mret (set_pressed true m)
  else mret (set_pressed false m).

(** A press held back still starts the selection, as the cell would. *)
Definition start_selection (p : Props) (tg : PressTarget) : K unit :=
  match pt_td tg with
  | Some td =>
      t ← getTable;
      match td_rowId td with
      | Some rowId =>
          if String.eqb rowId "" || String.eqb (td_columnId td) "" then nothing
          else
            match js_find (fun row => String.eqb (row_id row) rowId) (rowsInDisplayOrder t)
                    ≫= (fun row => mget (cells row) (td_columnId td)) with
            | Some _ =>
                run (if isRangeSelectionEnabled p then SelectionStart rowId (td_columnId td)
                     else SetFocusedCell rowId (td_columnId td));;
                emitAct FocusGrid;; emitAct (SyncActive true)
            | None => nothing
            end
      | None => nothing
      end
  | None => nothing
  end.
Definition handleControlMouseDown (p : Props) (tg : PressTarget) (m : Mouse) : K unit :=
  when (pressedUnfocusedControl m)
    (emitAct StopPropagation;; prevent;; start_selection p tg).
Definition handleControlClick (m : Mouse) : K Mouse :=
  if pressedUnfocusedControl m then
    prevent;; emitAct StopPropagation;; mret (set_pressed false m)
  else mret m.

(** ** Drags and clicks *)

(** [handleMouseDown]; the second answer is a fill session it started. *)
Definition handleMouseDown (p : Props) (v : GridView) (tg : PressTarget) (e : MouseEvent) (m : Mouse)
    : K (Mouse * option FillSession) :=
  if negb (Z.eqb (me_button e) 0) then mret (m, None)
  else
    emitAct (SyncActive true);;
    when (modified e && isRangeSelectionEnabled p && bool_decide (is_Some (pt_td tg)))
      (emitAct FocusGrid);;
    t ← getTable;
    let m' := mkMouseState (pressedUnfocusedControl m) (pt_inTd tg)
                (if pt_inTd tg then Some (getSelectionKey t) else dragStartSelectionKey m)
                (squelching m) (pt_inTd tg || selecting m) in
    if pt_fillHandle tg then
      prevent;; emitAct StopPropagation;; mret (m', startDataGridFillSession t (row_ids v))
    else mret (m', None).

Definition handleDragMouseUp (m : Mouse) : K Mouse :=
  t ← getTable;
  let wasDrag := dragStartedOnCell m && Nat.ltb 1 (selectedCellCount t) &&
    negb (bool_decide (dragStartSelectionKey m = Some (getSelectionKey t))) in
  mret (mkMouseState (pressedUnfocusedControl m) false (dragStartSelectionKey m)
          (squelching m || wasDrag) false).
(** The timer of the next task takes the capture listener off again. *)
Definition squelch_ends (m : Mouse) : Mouse :=
  mkMouseState (pressedUnfocusedControl m) (dragStartedOnCell m) (dragStartSelectionKey m) false
    (selecting m).

Definition handleClickToEdit (p : Props) (v : GridView) (tg : PressTarget) (e : MouseEvent) : K unit :=
  if negb (p_clickEdit p) || modified e || isDataGridInteractiveKeyTarget (pt_keyTarget tg) ||
     negb (pt_inFocusedTd tg)
  then nothing
  else requestCellEdit to_string p v None;; nothing.
Definition handleDoubleClick (p : Props) (v : GridView) (tg : PressTarget) : K unit :=
  if isDataGridInteractiveKeyTarget (pt_keyTarget tg) || negb (pt_inFocusedTd tg) then nothing
  else requestCellEdit to_string p v None;; nothing.

(** What reaches the viewport, listener by listener: the squelch is in the
    capture phase and stops a click short of the others. *)
Inductive Gesture :=
  | PointerDown (tg : PressTarget) (e : MouseEvent)
  | MouseDown (tg : PressTarget) (e : MouseEvent)
  | MouseUp
  | NextTask
  | ClickOn (tg : PressTarget) (e : MouseEvent)
  | DoubleClick (tg : PressTarget).
Definition gesture (p : Props) (v : GridView) (g : Gesture) (m : Mouse) : K Mouse :=
  match g with
  | PointerDown tg e => handleControlPointerDown p tg e m
  | MouseDown tg e =>
      handleControlMouseDown p tg m;; r ← handleMouseDown p v tg e m; mret r.1
  | MouseUp => handleDragMouseUp m
  | NextTask => mret (squelch_ends m)
  | ClickOn tg e =>
      if squelching m then emitAct StopPropagation;; prevent;; mret m
      else
        m' ← handleControlClick m;
        handleClickToEdit p v tg e;; mret m'
  | DoubleClick tg => handleDoubleClick p v tg;; mret m
  end.
Fixpoint gestures (p : Props) (v : GridView) (gs : list Gesture) (m : Mouse) : K Mouse :=
  match gs with
  | [] => mret m
  | g :: gs' => m' ← gesture p v g m; gestures p v gs' m'
  end.

(** ** Notifications *)
Record Notice := mkNotice {
  nt_focused : option (string * string); nt_bounds : list Bound; nt_activeBound : option Bound;
  nt_visibleCellCount : nat
}.
Definition selection_notice (t : Table) (v : GridView) : Notice :=
  mkNotice ((fun f => (row_id (fo_row f), col_id (fo_column f))) <$> focusedCell t)
    (cellSelectionBounds t) (getDataGridActiveBound t)
    (getDataGridVisibleSelectedCellCount t (Some (row_ids v))).
End Editor.

(** [DataGridSelectionBar]: the bar's label, when rows are selected. *)
Definition selection_bar (count : nat) (label : option (nat -> string)) : option string :=
  if Nat.eqb count 0 then None
  else Some (match label with
             | Some f => f count
             | None => (show_nat count ++ " selected")%string
             end).
