(* ===== verification/CellSelectionLaws.v ===== *)
(** * The properties of the data grid's batches

    A paste covers exactly the cells Excel's rule names; pasting back what was
    copied writes every value over itself; the preview of a fill is what the
    release commits; a batch and its inverse cancel. *)
From S2P Require Import Prelude JsString JsMap Clipboard CellSelection.

(** ** Walks over index ranges *)
Section Walks.
Context {A : Type} (f : nat -> list A).

Lemma walk_split from mid to : from <= mid -> mid <= to ->
  flat_map f (seq from (to - from)) =
  flat_map f (seq from (mid - from)) ++ flat_map f (seq mid (to - mid)).
Proof.
  intros H1 H2. rewrite <-flat_map_app. f_equal.
  replace (to - from) with ((mid - from) + (to - mid)) by lia.
  rewrite seq_app. f_equal. f_equal. lia.
Qed.

Lemma walk_elem x from to :
  x ∈ flat_map f (seq from (to - from)) <-> exists r, from <= r < to /\ x ∈ f r.
Proof.
  rewrite elem_of_flat_map. split.
  - intros (r & Hr & Hx). exists r. apply elem_of_seq in Hr. split; [lia|done].
  - intros (r & Hr & Hx). exists r. rewrite elem_of_seq. split; [lia|done].
Qed.

Lemma walk_nil from to : (forall r, from <= r < to -> f r = []) ->
  flat_map f (seq from (to - from)) = [].
Proof.
  intros H. remember (to - from) as n eqn:Hn.
  assert (H' : forall r, from <= r < from + n -> f r = []) by (intros; apply H; lia).
  clear H Hn. revert from H'. induction n as [|n IH]; intros from H; [done|]. simpl.
  rewrite H by lia. apply IH. intros r Hr. apply H. lia.
Qed.

(** A walk that yields one element per index. *)
Lemma walk_single from to : (forall r, from <= r < to -> exists x, f r = [x]) ->
  length (flat_map f (seq from (to - from))) = to - from.
Proof.
  intros H. remember (to - from) as n eqn:Hn.
  assert (H' : forall r, from <= r < from + n -> exists x, f r = [x]) by (intros; apply H; lia).
  clear H Hn. revert from H'. induction n as [|n IH]; intros from H; [done|]. simpl.
  destruct (H from) as [x ->]; [lia|]. simpl. f_equal. apply IH. intros r Hr. apply H. lia.
Qed.
End Walks.

Section Laws.
Context {Data Other : Type} (to_string : Other -> string).
Notation Row := (@Row Data Other).
Notation Column := (@Column Data Other).
Notation Table := (@Table Data Other).

Lemma shown_elem (t : Table) rendered from to row r :
  (row, r) ∈ shown_rows t rendered from to <->
  from <= r < to /\ rowsInDisplayOrder t !! r = Some row /\ renders rendered row = true.
Proof.
  unfold shown_rows. rewrite walk_elem. split.
  - intros (k & Hk & Hx). destruct (_ !! k) as [row'|] eqn:E; [|set_solver].
    destruct (renders _ row') eqn:Hr; [|set_solver].
    apply list_elem_of_singleton in Hx as [= <- <-]. done.
  - intros (Hr & Hrow & Hs). exists r. rewrite Hrow, Hs. split; [done|set_solver].
Qed.

Lemma selectable_elem (columns : list Column) from to column c :
  (column, c) ∈ selectable_columns columns from to <->
  from <= c < to /\ columns !! c = Some column /\ enableCellSelection column = true.
Proof.
  unfold selectable_columns. rewrite walk_elem. split.
  - intros (k & Hk & Hx). destruct (_ !! k) as [col'|] eqn:E; [|set_solver].
    destruct (enableCellSelection col') eqn:Hr; [|set_solver].
    apply list_elem_of_singleton in Hx as [= <- <-]. done.
  - intros (Hr & Hrow & Hs). exists c. rewrite Hrow, Hs. split; [done|set_solver].
Qed.

Lemma bfilter_all {A} (p : A -> bool) l : (forall x, x ∈ l -> p x = true) -> bfilter p l = l.
Proof.
  induction l as [|x l IH]; intros H; [done|]. simpl. rewrite H by set_solver.
  f_equal. apply IH. set_solver.
Qed.
Lemma bfilter_none {A} (p : A -> bool) l : (forall x, x ∈ l -> p x = false) -> bfilter p l = [].
Proof.
  induction l as [|x l IH]; intros H; [done|]. simpl. rewrite H by set_solver.
  apply IH. set_solver.
Qed.

(** A longer walk starts with the shorter one. *)
Lemma selectable_prefix (columns : list Column) from last :
  exists rest, selectable_columns columns from (length columns) =
    selectable_columns columns from (S last) ++ rest /\
    (forall e, e ∈ rest -> last < e.2).
Proof.
  unfold selectable_columns.
  destruct (decide (from <= S last)) as [Hl|Hl].
  2:{ eexists. replace (S last - from) with 0 by lia. split; [done|].
      intros [col c] Hc. apply (selectable_elem columns) in Hc as (Hc & _). simpl. lia. }
  destruct (decide (S last <= length columns)) as [Hle|Hgt].
  - eexists. split; [by rewrite (walk_split _ from (S last)) by lia|].
    intros [col c] Hc. apply (selectable_elem columns) in Hc as (Hc & _). simpl. lia.
  - exists []. split; [|set_solver]. rewrite app_nil_r.
    assert (Hnil : forall a b, length columns <= a -> flat_map (fun c =>
      match columns !! c with
      | Some column => if enableCellSelection column then [(column, c)] else []
      | None => [] end) (seq a (b - a)) = []).
    { intros a b Ha. apply walk_nil. intros r Hr. rewrite lookup_ge_None_2 by lia. done. }
    destruct (decide (from <= length columns)).
    + by rewrite (walk_split _ from (length columns) (S last)), (Hnil (length columns)), app_nil_r
        by lia.
    + by rewrite !Hnil by lia.
Qed.

(** The target columns up to the region's last are the region's columns. *)
Lemma selectable_region (columns : list Column) from last :
  bfilter (fun c => Nat.leb c.2 last) (selectable_columns columns from (length columns)) =
  selectable_columns columns from (S last).
Proof.
  destruct (selectable_prefix columns from last) as (rest & -> & Hrest).
  rewrite List.filter_app, bfilter_all, bfilter_none; [by rewrite app_nil_r| |].
  - intros e He. apply Nat.leb_gt. by apply Hrest.
  - intros [col c] Hc. apply selectable_elem in Hc as (Hc & _). apply Nat.leb_le. simpl. lia.
Qed.

(** ** Paste *)
Lemma outcomes_elem (rows : list (Row * nat)) (cols : list (Column * nat)) tiled n o :
  o ∈ paste_outcomes rows cols tiled n <->
  exists r c row col, rows !! r = Some row /\ cols !! c = Some col /\ c < n /\
    o = paste_cell row.1 col.1 (((tiled !! r) ≫= (.!! c)) ?? "").
Proof.
  unfold paste_outcomes. rewrite elem_of_flat_map. split.
  - intros (r & Hr & Ho). destruct (rows !! r) as [row|] eqn:Er; [|set_solver].
    apply elem_of_flat_map in Ho as (c & Hc & Ho). apply elem_of_seq in Hc.
    destruct (cols !! c) as [col|] eqn:Ec; [|set_solver].
    apply list_elem_of_singleton in Ho. exists r, c, row, col. split_and!; [done|done|lia|done].
  - intros (r & c & row & col & Hr & Hc & Hn & ->). exists r. rewrite elem_of_seq, Hr.
    split; [apply lookup_lt_Some in Hr; lia|]. apply elem_of_flat_map. exists c.
    rewrite elem_of_seq, Hc. split; [lia|set_solver].
Qed.

Lemma outcomes_length (rows : list (Row * nat)) (cols : list (Column * nat)) tiled n :
  length (paste_outcomes rows cols tiled n) = length rows * Nat.min n (length cols).
Proof.
  unfold paste_outcomes.
  assert (Hcols : forall g : nat -> Column * nat -> @CellChange Data Other + Rejection,
    length (flat_map (fun c => match cols !! c with Some col => [g c col] | None => [] end)
              (seq 0 n)) = Nat.min n (length cols)).
  { intros g. induction n as [|n IH]; [done|].
    rewrite seq_S, flat_map_app, length_app, IH. cbn [flat_map]. rewrite app_nil_r, Nat.add_0_l.
    destruct (cols !! n) eqn:E; cbn [length].
    - apply lookup_lt_Some in E. lia.
    - apply lookup_ge_None_1 in E. lia. }
  assert (Hrows : forall k, k <= length rows ->
    length (flat_map (fun r => match rows !! r with
      | Some row => flat_map (fun c => match cols !! c with
          | Some column => [paste_cell row.1 column.1 (((tiled !! r) ≫= (.!! c)) ?? "")]
          | None => [] end) (seq 0 n)
      | None => [] end) (seq 0 k)) = k * Nat.min n (length cols)); [|by apply Hrows].
  induction k as [|k IH]; intros Hk; [done|].
  rewrite seq_S, flat_map_app, length_app, IH by lia. cbn [flat_map].
  rewrite app_nil_r, Nat.add_0_l.
  destruct (lookup_lt_is_Some_2 rows k) as [row ->]; [lia|].
  rewrite (Hcols (fun c column => _)). lia.
Qed.

Lemma tile_lookup block R C r c : r < R -> c < C ->
  ((tileDataGridClipboardBlock block R C !! r) ≫= (.!! c)) ?? "" = tile_field block r c.
Proof.
  intros Hr Hc. unfold tileDataGridClipboardBlock.
  rewrite list_lookup_fmap, lookup_seq_lt by done. simpl.
  rewrite list_lookup_fmap, lookup_seq_lt by done. done.
Qed.

Lemma pushed_elem (l : list (@CellChange Data Other + Rejection)) o : o ∈ l <->
  match o with inl c => c ∈ pushed_changes l | inr r => r ∈ pushed_rejections l end.
Proof.
  destruct o as [c|r]; unfold pushed_changes, pushed_rejections; rewrite list_elem_of_omap.
  - split; [intros H; by exists (inl c)|]. by intros ([c'|] & H & [= <-]).
  - split; [intros H; by exists (inr r)|]. by intros ([|r'] & H & [= <-]).
Qed.
Lemma pushed_length (l : list (@CellChange Data Other + Rejection)) :
  length (pushed_changes l) + length (pushed_rejections l) = length l.
Proof.
  unfold pushed_changes, pushed_rejections.
  induction l as [|[c|r] l IH]; csimpl; [done|lia..].
Qed.

(** What a paste of [block] over the active bound [b] is measured against. *)
Definition paste_rows (t : Table) viewport (b : Bound) : list (Row * nat) :=
  shown_rows t (getDataGridRenderedRowIds t viewport) (minRowIndex b)
    (length (rowsInDisplayOrder t)).
Definition paste_columns (t : Table) (b : Bound) : list (Column * nat) :=
  let columns := getDataGridDisplayOrderedColumns t in
  selectable_columns columns (minColumnIndex b) (length columns).
Definition region_columns (t : Table) (b : Bound) : list (Column * nat) :=
  selectable_columns (getDataGridDisplayOrderedColumns t) (minColumnIndex b) (S (maxColumnIndex b)).
Definition paste_extent (t : Table) (b : Bound) (block : list (list string)) : nat * nat :=
  paste_size block (maxRowIndex b - minRowIndex b + 1) (length (region_columns t b)).

(** [change] writes [raw] to the cell of [row] and [col]. *)
Definition writes (row : Row) (col : Column) (raw : string) (change : @CellChange Data Other)
    : Prop :=
  exists ce, getDataGridWritableCellEdit col (Some (original row)) = Some ce /\
    ch_value change = parsed_value ce raw (original row) /\ ch_value change <> Undef /\
    ch_rowId change = row_id row /\ ch_columnId change = col_id col /\
    ch_row change = original row /\ ch_previous change = getValue row (col_id col).

Lemma paste_cell_spec (row : Row) (col : Column) raw :
  match paste_cell row col raw with
  | inl change => writes row col raw change
  | inr r => r = mkRejection (row_id row) (col_id col) raw (rj_reason r) /\
      match getDataGridWritableCellEdit col (Some (original row)) with
      | None => rj_reason r = Readonly
      | Some ce => rj_reason r = Invalid /\ parsed_value ce raw (original row) = Undef
      end
  end.
Proof.
  unfold paste_cell, writes. destruct (getDataGridWritableCellEdit _ _) as [ce|]; [|done].
  destruct (parsed_value _ _ _) eqn:E; [done|..]; by exists ce.
Qed.

Lemma paste_unfold t block viewport b details target :
  getDataGridActiveBound t = Some b ->
  buildDataGridPasteDetails t block viewport = Some (details, target) ->
  let outcomes := paste_outcomes (take (paste_extent t b block).1 (paste_rows t viewport b))
    (paste_columns t b)
    (tileDataGridClipboardBlock block (paste_extent t b block).1 (paste_extent t b block).2)
    (paste_extent t b block).2 in
  changes details = pushed_changes outcomes /\ rejected details = pushed_rejections outcomes.
Proof.
  unfold buildDataGridPasteDetails, paste_extent, paste_rows, paste_columns, region_columns.
  intros ->. destruct block as [|line block]; [done|]. rewrite selectable_region.
  destruct (Nat.eqb _ 0); [done|].
  destruct (paste_size _ _ _) as [R C]. simpl. destruct (_ && _); [done|].
  by intros [= <- <-].
Qed.

Lemma paste_outcome_inv t block viewport b details target o :
  getDataGridActiveBound t = Some b ->
  buildDataGridPasteDetails t block viewport = Some (details, target) ->
  match o with inl c => c ∈ changes details | inr r => r ∈ rejected details end <->
  exists r c row col, paste_rows t viewport b !! r = Some row /\
    paste_columns t b !! c = Some col /\
    r < (paste_extent t b block).1 /\ c < (paste_extent t b block).2 /\
    o = paste_cell row.1 col.1 (tile_field block r c).
Proof.
  intros Hb Hp. destruct (paste_unfold _ _ _ _ _ _ Hb Hp) as [Hc Hr].
  destruct (paste_extent t b block) as [R C]. cbn zeta in *. simpl in Hc, Hr.
  rewrite Hc, Hr, <-(pushed_elem _ o), outcomes_elem. simpl.
  split; intros (r & c & row & col & H).
  - destruct H as (Hrow & Hcol & HC & He).
    assert (HR : r < R) by (apply lookup_lt_Some in Hrow; rewrite length_take in Hrow; lia).
    rewrite lookup_take_lt in Hrow by done. rewrite tile_lookup in He by done. by exists r, c, row, col.
  - destruct H as (Hrow & Hcol & HR & HC & ->). exists r, c, row, col.
    by rewrite lookup_take_lt, tile_lookup by done.
Qed.

(** Excel's rule: the rows [R] and columns [C] a block writes over a region of
    [height] by [width].  A single field fills the region; a block the region
    is a whole multiple of, both ways, is repeated over it; any other is
    written once. *)
Definition widest (block : list (list string)) (w : nat) : Prop :=
  1 <= w /\ (w = 1 \/ exists line, line ∈ block /\ length line = w) /\
  (forall line, line ∈ block -> length line <= w).
Definition excel_size (block : list (list string)) (height width R C : nat) : Prop :=
  exists w, widest block w /\
    (length block = 1 -> w = 1 -> R = height /\ C = width) /\
    (Nat.divide (length block) height -> Nat.divide w width -> R = height /\ C = width) /\
    (~ (Nat.divide (length block) height /\ Nat.divide w width) -> R = length block /\ C = w).
(** The field of the repeated block at row [r] and column [c]: each line is
    repeated on its own, and an absent field is empty. *)
Definition block_field (block : list (list string)) (r c : nat) (raw : string) : Prop :=
  exists line, block !! (r mod length block) = Some line /\
    raw = (line !! (c mod length line)) ?? "".

Lemma widest_spec (block : list (list string)) m : 1 <= m ->
  let w := fold_left (fun max line => Nat.max max (length line)) block m in
  m <= w /\ (w = m \/ exists line, line ∈ block /\ length line = w) /\
  (forall line, line ∈ block -> length line <= w).
Proof.
  revert m. induction block as [|line block IH]; intros m Hm w.
  { subst w. simpl. split_and!; [lia|by left|]. by intros line ?%elem_of_nil. }
  subst w. simpl. destruct (IH (Nat.max m (length line)) ltac:(lia)) as (H1 & H2 & H3).
  set (w := fold_left _ block _) in *. split_and!; [lia| |].
  - destruct H2 as [H2|(l & Hl & H2)].
    + destruct (Nat.max_spec m (length line)) as [[_ E]|[_ E]]; rewrite E in H2; [|by left].
      right. exists line. split; [left|done].
    + right. exists l. split; [by right|done].
  - intros l [->|Hl]%elem_of_cons; [lia|by apply H3].
Qed.

Lemma paste_size_excel block height width : block <> [] ->
  excel_size block height width (paste_size block height width).1 (paste_size block height width).2.
Proof.
  intros Hne. unfold paste_size.
  pose proof (widest_spec block 1 (le_n _)) as (H1 & H2 & H3).
  set (w := fold_left _ block 1) in *. exists w. split; [done|].
  assert (Hb : length block <> 0) by (destruct block; simpl; [done|lia]).
  assert (Hw : w <> 0) by lia.
  pose proof (Nat.Lcm0.mod_divide height (length block)) as Dh.
  pose proof (Nat.Lcm0.mod_divide width w) as Dw.
  destruct (Nat.eqb_spec (length block) 1) as [E1|E1], (Nat.eqb_spec w 1) as [E2|E2]; simpl.
  1: { split_and!; [done..|]. intros Hn. destruct Hn. rewrite E1, E2.
       split; apply Nat.divide_1_l. }
  all: split_and!; [done|..];
    destruct (Nat.eqb_spec (height mod length block) 0) as [Eh|Eh],
             (Nat.eqb_spec (width mod w) 0) as [Ew|Ew]; simpl; try tauto.
Qed.

Lemma tile_block_field block r c : block <> [] -> block_field block r c (tile_field block r c).
Proof.
  intros Hne. unfold block_field, tile_field.
  assert (Hr : r mod length block < length block)
    by (apply Nat.mod_upper_bound; destruct block; simpl; [done|lia]).
  destruct (lookup_lt_is_Some_2 block (r mod length block) Hr) as [line Hl].
  exists line. split; [done|]. rewrite (nth_lookup_Some _ _ _ _ Hl).
  destruct line as [|x line]; [by destruct (c mod _)|].
  change (match length (x :: line) with 0 => 1 | n => n end) with (length (x :: line)).
  by rewrite nth_lookup.
Qed.

(** Something is covered, so the paste has details. *)
Lemma paste_some t block viewport b :
  getDataGridActiveBound t = Some b -> block <> [] -> region_columns t b <> [] ->
  paste_rows t viewport b <> [] ->
  exists details target, buildDataGridPasteDetails t block viewport = Some (details, target) /\
    source details = SrcPaste.
Proof.
  intros Hb Hne Hcols Hrows.
  pose proof (paste_size_excel block (maxRowIndex b - minRowIndex b + 1)
    (length (region_columns t b)) Hne) as (w & (Hw & _) & _ & Htile & Honce).
  assert (Hc : length (region_columns t b) <> 0) by (destruct (region_columns t b); simpl; [done|lia]).
  assert (Hb0 : length block <> 0) by (destruct block; simpl; [done|lia]).
  unfold buildDataGridPasteDetails. rewrite Hb.
  destruct block as [|line block]; [done|]. rewrite selectable_region.
  fold (region_columns t b). destruct (Nat.eqb_spec (length (region_columns t b)) 0); [done|].
  destruct (paste_size _ _ _) as [R C]. simpl in Htile, Honce.
  assert (Hpos : 0 < R /\ 0 < C).
  { destruct (decide (Nat.divide (length (line :: block)) (maxRowIndex b - minRowIndex b + 1) /\
      Nat.divide w (length (region_columns t b)))) as [[D1 D2]|D].
    - destruct (Htile D1 D2). lia.
    - destruct (Honce D). simpl in *. lia. }
  set (outcomes := paste_outcomes _ _ _ _).
  assert (Ho : length outcomes <> 0).
  { subst outcomes. rewrite outcomes_length, length_take.
    destruct (selectable_prefix (getDataGridDisplayOrderedColumns t) (minColumnIndex b)
      (maxColumnIndex b)) as (rest & -> & _). fold (region_columns t b). rewrite length_app.
    assert (length (paste_rows t viewport b) <> 0)
      by (destruct (paste_rows t viewport b); simpl; [done|lia]).
    unfold paste_rows in *. nia. }
  pose proof (pushed_length outcomes) as Hl.
  destruct (Nat.eqb_spec (length (pushed_changes outcomes)) 0);
    destruct (Nat.eqb_spec (length (pushed_rejections outcomes)) 0); simpl; [lia|by eexists _, _..].
Qed.

Lemma paste_none t block viewport b :
  getDataGridActiveBound t = Some b ->
  block = [] \/ region_columns t b = [] \/ paste_rows t viewport b = [] ->
  buildDataGridPasteDetails t block viewport = None.
Proof.
  intros Hb H. unfold buildDataGridPasteDetails. rewrite Hb. destruct block as [|line block]; [done|].
  rewrite selectable_region. fold (region_columns t b).
  destruct (Nat.eqb_spec (length (region_columns t b)) 0) as [|Hc]; [done|].
  destruct H as [?|[H|H]]; [done|by rewrite H in Hc|].
  unfold paste_rows in H. destruct (paste_size _ _ _) as [R C]. by rewrite H, take_nil.
Qed.

(** What a covered cell gets: the parsed value as a change, or a rejection
    that says why not. *)
Definition cell_gets (row : Row) (col : Column) (raw : string)
    (details : @CellsChangeDetails Data Other) : Prop :=
  let rejected_as reason := mkRejection (row_id row) (col_id col) raw reason ∈ rejected details in
  match getDataGridWritableCellEdit col (Some (original row)) with
  | None => rejected_as Readonly
  | Some ce =>
      (parsed_value ce raw (original row) = Undef -> rejected_as Invalid) /\
      (parsed_value ce raw (original row) <> Undef ->
       mkChange (row_id row) (col_id col) (original row) (getValue row (col_id col))
         (parsed_value ce raw (original row)) ∈ changes details)
  end.

Lemma outcome_cell_gets row col raw (details : @CellsChangeDetails Data Other) :
  match paste_cell row col raw with
  | inl c => c ∈ changes details
  | inr r => r ∈ rejected details
  end -> cell_gets row col raw details.
Proof.
  unfold paste_cell, cell_gets. destruct (getDataGridWritableCellEdit _ _) as [ce|]; [|done].
  by destruct (parsed_value _ _ _).
Qed.

(** C28: A paste covers the rectangle Excel's rule names and nothing else.  A
    single field fills the selected region, a block the region is a whole
    multiple of is repeated over it, and any other block is written once from
    the region's first cell, clamped to the grid.  Each cell of that rectangle
    gets its field: a change to the parsed value when the column is writable
    and parses it, else a rejection, as read-only or as invalid; nothing else
    is changed or rejected; and only with no block, no selectable column or no
    shown row is there nothing to paste.  The rectangle is laid over the
    selectable columns and the rows the view shows, from the region's first
    on: a row of the region that is not shown is skipped, but counted in the
    region's height, so such a paste goes on below the region (see the
    findings). *)
Theorem paste_covers_rectangle t block viewport b :
  getDataGridActiveBound t = Some b ->
  let rows := paste_rows t viewport b in
  let columns := paste_columns t b in
  (block = [] \/ region_columns t b = [] \/ rows = [] ->
     buildDataGridPasteDetails t block viewport = None) /\
  (block <> [] -> region_columns t b <> [] -> rows <> [] ->
   exists details target R C,
     buildDataGridPasteDetails t block viewport = Some (details, target) /\
     source details = SrcPaste /\
     excel_size block (maxRowIndex b - minRowIndex b + 1) (length (region_columns t b)) R C /\
     (forall r c row col raw, rows !! r = Some row -> columns !! c = Some col ->
        r < R -> c < C -> block_field block r c raw -> cell_gets row.1 col.1 raw details) /\
     (forall o, match o with inl c => c ∈ changes details | inr j => j ∈ rejected details end ->
        exists r c row col, rows !! r = Some row /\ columns !! c = Some col /\ r < R /\ c < C /\
          match o with
          | inl change => (ch_rowId change, ch_columnId change)
          | inr rejection => (rj_rowId rejection, rj_columnId rejection)
          end = (row_id row.1, col_id col.1)) /\
     length (changes details) + length (rejected details) =
       Nat.min R (length rows) * Nat.min C (length columns)).
Proof.
  intros Hb rows columns. split; [by apply paste_none|]. intros Hne Hcols Hrows.
  destruct (paste_some t block viewport b Hb Hne Hcols Hrows) as (details & target & Hp & Hsrc).
  pose proof (fun o => paste_outcome_inv _ _ _ _ _ _ o Hb Hp) as Hin.
  destruct (paste_unfold _ _ _ _ _ _ Hb Hp) as [Hc Hr].
  pose proof (paste_size_excel block (maxRowIndex b - minRowIndex b + 1)
    (length (region_columns t b)) Hne) as Hx.
  fold (paste_extent t b block) in Hx. destruct (paste_extent t b block) as [R C].
  cbn zeta in *. simpl in Hc, Hr, Hin, Hx.
  exists details, target, R, C. split_and!; [done|done|done| | |].
  - intros r c row col raw Hrow Hcol HR HC Hraw.
    assert (raw = tile_field block r c) as ->.
    { destruct Hraw as (line & Hl & ->). destruct (tile_block_field block r c Hne) as (line' & Hl' & ->).
      congruence. }
    apply outcome_cell_gets. pose proof (Hin (paste_cell row.1 col.1 (tile_field block r c))) as H.
    destruct (paste_cell _ _ _) eqn:E; apply H; exists r, c, row, col; by rewrite E.
  - intros o (r & c & row & col & Hrow & Hcol & HR & HC & ->)%Hin. exists r, c, row, col.
    split_and!; [done..|]. pose proof (paste_cell_spec row.1 col.1 (tile_field block r c)) as Hs.
    destruct (paste_cell _ _ _) as [change|rejection].
    + destruct Hs as (ce & _ & _ & _ & -> & -> & _). done.
    + destruct Hs as [-> _]. done.
  - rewrite Hc, Hr, pushed_length, outcomes_length, length_take. done.
Qed.

(** ** Copy, then paste *)

(** Every row of the bound is one the view shows. *)
Definition whole_region_shown (t : Table) viewport (b : Bound) : Prop :=
  forall r, minRowIndex b <= r <= maxRowIndex b -> exists row,
    rowsInDisplayOrder t !! r = Some row /\
    renders (getDataGridRenderedRowIds t viewport) row = true.
Definition region_rows (t : Table) viewport (b : Bound) : list (Row * nat) :=
  shown_rows t (getDataGridRenderedRowIds t viewport) (minRowIndex b) (S (maxRowIndex b)).

Lemma region_rows_length t viewport b : minRowIndex b <= maxRowIndex b ->
  whole_region_shown t viewport b ->
  length (region_rows t viewport b) = maxRowIndex b - minRowIndex b + 1.
Proof.
  intros Hle Hw. unfold region_rows, shown_rows. rewrite walk_single; [lia|].
  intros r Hr. destruct (Hw r) as (row & -> & ->); [lia|]. by eexists.
Qed.

Lemma region_rows_prefix t viewport b : minRowIndex b <= maxRowIndex b ->
  whole_region_shown t viewport b -> region_rows t viewport b `prefix_of` paste_rows t viewport b.
Proof.
  intros Hle Hw. unfold region_rows, paste_rows, shown_rows.
  destruct (Hw (maxRowIndex b)) as (row & Hrow & _); [lia|]. apply lookup_lt_Some in Hrow.
  rewrite (walk_split _ (minRowIndex b) (S (maxRowIndex b)) (length _)) by lia.
  by apply prefix_app_r.
Qed.

Lemma region_columns_prefix (t : Table) b : region_columns t b `prefix_of` paste_columns t b.
Proof.
  destruct (selectable_prefix (getDataGridDisplayOrderedColumns t) (minColumnIndex b)
    (maxColumnIndex b)) as (rest & H & _). by exists rest.
Qed.

Lemma widest_line (grid : list (list string)) n m : Forall (fun line => length line = n) grid ->
  fold_left (fun max line => Nat.max max (length line)) grid m =
    match grid with [] => m | _ => Nat.max m n end.
Proof.
  revert m. induction grid as [|line grid IH]; intros m H; [done|].
  apply Forall_cons in H as [Hl H]. simpl. rewrite IH by done. destruct grid; lia.
Qed.

(** A block of the region's own size is written once, over the region. *)
Lemma paste_size_same (grid : list (list string)) n : grid <> [] -> 0 < n ->
  Forall (fun line => length line = n) grid -> paste_size grid (length grid) n = (length grid, n).
Proof.
  intros Hne Hn Hf. unfold paste_size. rewrite (widest_line grid n) by done.
  destruct grid as [|line grid]; [done|]. replace (Nat.max 1 n) with n by lia.
  rewrite Nat.Div0.mod_same, (Nat.Div0.mod_same n). simpl.
  by destruct (_ && _).
Qed.

(** The grid a copy takes, cell by cell. *)
Lemma region_grid_lookup t viewport b grid :
  getDataGridActiveBound t = Some b ->
  getDataGridActiveRegionGrid to_string t viewport = Some grid ->
  grid = map (fun row => map (fun col =>
    formatted to_string col.1 row.1 (getValue row.1 (col_id col.1))) (region_columns t b))
    (region_rows t viewport b) /\ grid <> [].
Proof.
  unfold getDataGridActiveRegionGrid. intros ->. destruct (Nat.eqb _ 0) eqn:E; [done|].
  intros [= <-]. split; [done|]. apply Nat.eqb_neq in E. by intros H; rewrite H in E.
Qed.

Lemma region_tile (rows : list (Row * nat)) (cols : list (Column * nat)) r c row col :
  rows !! r = Some row -> cols !! c = Some col ->
  tile_field (map (fun row => map (fun col =>
    formatted to_string col.1 row.1 (getValue row.1 (col_id col.1))) cols) rows) r c =
  formatted to_string col.1 row.1 (getValue row.1 (col_id col.1)).
Proof.
  intros Hr Hc. unfold tile_field.
  pose proof (lookup_lt_Some _ _ _ Hr). pose proof (lookup_lt_Some _ _ _ Hc).
  rewrite length_map, (Nat.mod_small r) by done.
  erewrite (nth_lookup_Some _ r) by (rewrite list_lookup_fmap, Hr; reflexivity).
  rewrite length_map. destruct (length cols) as [|n] eqn:E; [lia|].
  rewrite Nat.mod_small by lia.
  apply nth_lookup_Some. by rewrite list_lookup_fmap, Hc.
Qed.

(** The copied grid survives the clipboard, and is the size of the region. *)
Lemma region_grid_survives t viewport b grid :
  getDataGridActiveBound t = Some b -> whole_region_shown t viewport b ->
  getDataGridActiveRegionGrid to_string t viewport = Some grid -> region_columns t b <> [] ->
  length grid = 1 \/ last grid <> Some [""] ->
  parseDataGridClipboardText (serializeDataGridClipboardText grid) = grid /\
  minRowIndex b <= maxRowIndex b /\
  paste_extent t b grid =
    (length (region_rows t viewport b), length (region_columns t b)).
Proof.
  intros Hb Hw Hg Hcols Hlast. destruct (region_grid_lookup _ _ _ _ Hb Hg) as [Hgrid Hne].
  assert (Hlines : Forall (fun line => length line = length (region_columns t b)) grid).
  { rewrite Hgrid. apply Forall_map, Forall_true. intros row. by rewrite length_map. }
  assert (Hn : 0 < length (region_columns t b)) by (destruct (region_columns t b); simpl; [done|lia]).
  assert (Hle : minRowIndex b <= maxRowIndex b).
  { destruct (decide (minRowIndex b <= maxRowIndex b)) as [|Hgt]; [done|exfalso]. apply Hne.
    rewrite Hgrid. unfold region_rows, shown_rows. by replace (_ - _) with 0 by lia. }
  split_and!; [|done|].
  - apply parse_serialize; [done| |done]. eapply Forall_impl; [exact Hlines|].
    intros line Hl ->. simpl in Hl. lia.
  - unfold paste_extent. rewrite <-(region_rows_length t viewport b Hle Hw).
    replace (length (region_rows t viewport b)) with (length grid) by (by rewrite Hgrid, length_map).
    by apply paste_size_same.
Qed.

(** C29: Copying a selection and pasting it where it is writes every cell over
    itself.  For any selection the view shows in full - through the text on the
    clipboard, whatever it holds, save a single column ending in an empty cell
    - and where each writable column parses what it formats: the paste happens,
    every cell of a writable column that holds a value is a change to that very
    value, every change carries the value it replaces and lies in the
    selection, what is not written (a read-only cell, or one that holds
    nothing) is rejected, and each cell of the selection is met once. *)
Theorem copy_paste_writes_back t viewport b grid :
  getDataGridActiveBound t = Some b -> whole_region_shown t viewport b ->
  getDataGridActiveRegionGrid to_string t viewport = Some grid -> region_columns t b <> [] ->
  (length grid = 1 \/ last grid <> Some [""]) ->
  (forall row col ce, row ∈ region_rows t viewport b -> col ∈ region_columns t b ->
     getDataGridWritableCellEdit col.1 (Some (original row.1)) = Some ce ->
     parsed_value ce (formatted to_string col.1 row.1 (getValue row.1 (col_id col.1)))
       (original row.1) = getValue row.1 (col_id col.1)) ->
  exists details target,
    buildDataGridPasteDetails t (parseDataGridClipboardText (serializeDataGridClipboardText grid))
      viewport = Some (details, target) /\
    (forall row col, row ∈ region_rows t viewport b -> col ∈ region_columns t b ->
       let value := getValue row.1 (col_id col.1) in
       match getDataGridWritableCellEdit col.1 (Some (original row.1)), value with
       | Some _, Nul | Some _, Text _ | Some _, Opaque _ =>
           mkChange (row_id row.1) (col_id col.1) (original row.1) value value ∈ changes details
       | _, _ => exists raw reason,
           mkRejection (row_id row.1) (col_id col.1) raw reason ∈ rejected details
       end) /\
    (forall change, change ∈ changes details ->
       ch_value change = ch_previous change /\
       exists row col, row ∈ region_rows t viewport b /\ col ∈ region_columns t b /\
         ch_rowId change = row_id row.1 /\ ch_columnId change = col_id col.1) /\
    length (changes details) + length (rejected details) =
      (maxRowIndex b - minRowIndex b + 1) * length (region_columns t b).
Proof.
  intros Hb Hw Hg Hcols Hlast Hlaw.
  destruct (region_grid_lookup _ _ _ _ Hb Hg) as [Hgrid Hgne].
  destruct (region_grid_survives _ _ _ _ Hb Hw Hg Hcols Hlast) as (Hround & Hle & Hext).
  rewrite Hround. pose proof (region_rows_length t viewport b Hle Hw) as Hlen.
  destruct (region_rows_prefix t viewport b Hle Hw) as [rest Hrest].
  destruct (region_columns_prefix t b) as [rest' Hrest'].
  destruct (paste_some t grid viewport b Hb Hgne Hcols) as (details & target & Hp & _).
  { rewrite Hrest. destruct (region_rows t viewport b); [by rewrite Hgrid in Hgne|done]. }
  exists details, target. split; [done|]. split_and!.
  - intros row col Hrow Hcol value.
    apply list_elem_of_lookup in Hrow as Hr. destruct Hr as [r Hr].
    apply list_elem_of_lookup in Hcol as Hc. destruct Hc as [c Hc].
    pose proof (paste_outcome_inv _ _ _ _ _ _
      (paste_cell row.1 col.1 (tile_field grid r c)) Hb Hp) as [_ Hin].
    assert (Hgets : cell_gets row.1 col.1 (tile_field grid r c) details).
    { apply outcome_cell_gets. destruct (paste_cell _ _ _) eqn:E; apply Hin;
        exists r, c, row, col; rewrite Hrest, Hrest', !lookup_app_l, Hext, E
          by (by eapply lookup_lt_Some); simpl;
        split_and!; try done; by eapply lookup_lt_Some. }
    unfold cell_gets in Hgets. destruct (getDataGridWritableCellEdit _ _) as [ce|] eqn:Ece;
      [|by eexists _, _].
    rewrite Hgrid, (region_tile _ _ _ _ row col), (Hlaw row col ce) in Hgets by done.
    subst value. destruct Hgets as [Hu Hd].
    destruct (getValue row.1 (col_id col.1)); [by eexists _, _; apply Hu|by apply Hd..].
  - intros change Hin.
    apply (paste_outcome_inv _ _ _ _ _ _ (inl change) Hb Hp) in Hin
      as (r & c & row & col & Hrow & Hcol & HR & HC & He).
    rewrite Hext in HR, HC. simpl in HR, HC.
    rewrite Hrest, lookup_app_l in Hrow by done. rewrite Hrest', lookup_app_l in Hcol by done.
    pose proof (list_elem_of_lookup_2 _ _ _ Hrow). pose proof (list_elem_of_lookup_2 _ _ _ Hcol).
    pose proof (paste_cell_spec row.1 col.1 (tile_field grid r c)) as Hs. rewrite <-He in Hs.
    destruct Hs as (ce & Hce & Hv & _ & Hid & Hid' & _ & Hprev). split; [|by exists row, col].
    rewrite Hv, Hprev, Hgrid, (region_tile _ _ _ _ row col) by done. by apply Hlaw.
  - destruct (paste_unfold _ _ _ _ _ _ Hb Hp) as [-> ->].
    rewrite pushed_length, outcomes_length, length_take, Hext. simpl.
    rewrite Hrest, Hrest', !length_app, Hlen. f_equal; lia.
Qed.
(** ** Fill *)
Definition touched (o : @CellChange Data Other + Rejection) : string * string :=
  match o with
  | inl c => (ch_rowId c, ch_columnId c)
  | inr r => (rj_rowId r, rj_columnId r)
  end.

Lemma touched_flat {A} (g : A -> list (@CellChange Data Other + Rejection)) h (l : list A) :
  (forall x, x ∈ l -> map touched (g x) = h x) -> map touched (flat_map g l) = flat_map h l.
Proof.
  induction l as [|x l IH]; intros H; [done|]. simpl. rewrite map_app, H by set_solver.
  f_equal. apply IH. set_solver.
Qed.
Lemma touched_indexed {A} (g : nat * A -> list (@CellChange Data Other + Rejection)) h
    (l : list A) (k : nat -> nat) :
  (forall i x, x ∈ l -> map touched (g (i, x)) = h x) ->
  map touched (flat_map g (imap (fun i x => (k i, x)) l)) = flat_map h l.
Proof.
  revert k. induction l as [|x l IH]; intros k H; [done|]. simpl.
  rewrite map_app, H by set_solver. f_equal. apply (IH (k ∘ S)). set_solver.
Qed.

(** A session is as it started, apart from its extension. *)
Definition same_session (f g : @FillSession Data Other) : Prop :=
  fs_bound f = fs_bound g /\ fs_columns f = fs_columns g /\ visibleRows f = visibleRows g /\
  sourceRows f = sourceRows g /\ sourceEndVisibleIndex f = sourceEndVisibleIndex g.

Lemma fill_moves_same moves f :
  same_session (fold_left (fun f m => fill_move f m.1 m.2) moves f) f.
Proof.
  revert f. induction moves as [|m moves IH]; intros f; [done|]. simpl.
  destruct (IH (fill_move f m.1 m.2)) as (H1 & H2 & H3 & H4 & H5).
  unfold same_session. rewrite H1, H2, H3, H4, H5. unfold fill_move.
  destruct (mget _ _); [|done]. by destruct (mget _ _).
Qed.

Lemma fill_started (t : Table) viewport f : startDataGridFillSession t viewport = Some f ->
  Forall (fun b => minColumnIndex b <= maxColumnIndex b) (cellSelectionBounds t) ->
  sourceRows f <> [] /\ minColumnIndex (fs_bound f) <= maxColumnIndex (fs_bound f).
Proof.
  unfold startDataGridFillSession. destruct (Nat.ltb _ _); [done|].
  destruct (getDataGridActiveBound t) as [b|] eqn:Hb; [|done]. cbn zeta.
  destruct (last (bfilter _ _)) as [e|] eqn:Hl; [|done]. simpl.
  destruct (mget _ _); [|done]. intros [= <-] Hf. simpl. split; [by intros E; rewrite E in Hl|].
  rewrite Forall_forall in Hf. apply Hf. unfold getDataGridActiveBound in Hb.
  destruct (focusedCell t) as [fo|]; [|by apply last_Some_elem_of].
  destruct (js_find _ _) as [b'|] eqn:E; [|by apply last_Some_elem_of].
  injection Hb as ->. unfold js_find in E. apply List.find_some in E as [E _].
  by apply list_elem_of_In.
Qed.

Lemma fillable_elem (columns : list Column) from to column c :
  (column, c) ∈ fillable_columns columns from to -> from <= c /\ c < length columns.
Proof.
  unfold fillable_columns. rewrite bfilter_elem. intros [H _].
  apply list_elem_of_lookup in H as [i H]. rewrite lookup_drop in H.
  assert (Hi : from + i < to).
  { apply lookup_lt_Some in H. rewrite length_take in H. lia. }
  rewrite lookup_take_lt, list_lookup_imap in H by done.
  destruct (columns !! (from + i)) eqn:E; [|done]. injection H as -> <-.
  apply lookup_lt_Some in E. lia.
Qed.

Lemma fill_column_touched (f : @FillSession Data Other) row column :
  minColumnIndex (fs_bound f) <= maxColumnIndex (fs_bound f) ->
  S (maxColumnIndex (fs_bound f)) <= column.2 -> column.2 < length (fs_columns f) ->
  map touched (fill_column_cell to_string f row column) =
  match getDataGridWritableCellEdit column.1 (Some (original row)) with
  | None => []
  | Some _ => [(row_id row, col_id column.1)]
  end.
Proof.
  intros Hle Hc Hlt. unfold fill_column_cell.
  set (n := maxColumnIndex (fs_bound f) - minColumnIndex (fs_bound f) + 1).
  pose proof (Nat.mod_upper_bound (column.2 - S (maxColumnIndex (fs_bound f))) n) as Hmod.
  destruct (lookup_lt_is_Some_2 (fs_columns f)
    (minColumnIndex (fs_bound f) + (column.2 - S (maxColumnIndex (fs_bound f))) mod n))
    as [source ->]; [lia|].
  destruct (getDataGridWritableCellEdit _ _) as [ce|]; [|done].
  destruct (String.eqb _ _); [done|]. destruct (ce_parse ce) as [parse|]; [|done].
  by destruct (parse _ _).
Qed.

(** The fill handle commits what it showed: wherever the drag went, the
    cells its release writes or rejects are exactly the cells the preview
    marks, in the same order, and none of them when it ended in Escape. *)
Theorem fill_preview_is_commit (t : Table) viewport f0 moves t' listening :
  startDataGridFillSession t viewport = Some f0 ->
  Forall (fun b => minColumnIndex b <= maxColumnIndex b) (cellSelectionBounds t) ->
  let f := fold_left (fun f m => fill_move f m.1 m.2) moves f0 in
  map touched (fill_outcomes to_string f) = applyPreview f (fun _ _ => true) /\
  fill_finish to_string f t' false listening = [] /\
  (forall details, OnCellsChange details ∈ fill_finish to_string f t' true listening ->
     changes details = pushed_changes (fill_outcomes to_string f) /\
     rejected details = pushed_rejections (fill_outcomes to_string f)).
Proof.
  intros Hs Hb f. destruct (fill_moves_same moves f0) as (H1 & H2 & H3 & H4 & H5).
  fold f in H1, H2, H3, H4, H5. destruct (fill_started _ _ _ Hs Hb) as [Hne Hle].
  rewrite <-H4 in Hne. rewrite <-H1 in Hle. clearbody f. split_and!.
  - unfold fill_outcomes, applyPreview, getExtensionTargets.
    destruct (extension f) as [[[|] count]|]; [| |done].
    + apply (touched_indexed _ _ _ id). intros i row _. apply touched_flat. intros column _.
      unfold fill_row_cell. simpl. destruct (getDataGridWritableCellEdit _ _); [|done].
      destruct (lookup_lt_is_Some_2 (sourceRows f) (i mod length (sourceRows f))) as [src ->];
        [|done]. apply Nat.mod_upper_bound. by destruct (sourceRows f).
    + apply touched_flat. intros row _. apply touched_flat. intros [column c] Hc.
      apply fillable_elem in Hc as [Hc1 Hc2]. by apply fill_column_touched.
  - unfold fill_finish. destruct (getExtensionTargets f) as [[rowEntries ?]|]; [|done].
    by destruct (extension f) as [[? ?]|].
  - intros details. unfold fill_finish.
    destruct (getExtensionTargets f) as [[rowEntries ?]|]; [|set_solver].
    destruct (extension f) as [[axis count]|]; [|set_solver]. cbn zeta.
    destruct (_ || _); [set_solver|]. rewrite elem_of_app. intros [H|H].
    + destruct (Nat.eqb _ _); [set_solver|]. apply list_elem_of_singleton in H as [= ->]. done.
    + unfold selectDataGridRegion in H. repeat case_match; set_solver.
Qed.

(** ** Undo *)

(** A consumer's state, cell by cell, and a batch applied to it. *)
Definition write (s : string -> string -> CellValue Other) (c : @CellChange Data Other)
    : string -> string -> CellValue Other :=
  fun row column => if String.eqb row (ch_rowId c) && String.eqb column (ch_columnId c)
                    then ch_value c else s row column.
Definition applied (d : CellsChangeDetails) (s : string -> string -> CellValue Other) :=
  fold_left write (changes d) s.

Lemma applied_other l s row column :
  (row, column) ∉ map (fun c => (ch_rowId c, ch_columnId c)) l ->
  fold_left write l s row column = s row column.
Proof.
  revert s. induction l as [|c l IH]; intros s H; [done|]. simpl in *.
  apply not_elem_of_cons in H as [Hne H]. rewrite IH by done. unfold write.
  destruct (String.eqb_spec row (ch_rowId c)), (String.eqb_spec column (ch_columnId c)); simpl;
    congruence.
Qed.
Lemma applied_in l s c : NoDup (map (fun c => (ch_rowId c, ch_columnId c)) l) -> c ∈ l ->
  fold_left write l s (ch_rowId c) (ch_columnId c) = ch_value c.
Proof.
  revert s. induction l as [|d l IH]; intros s Hnd Hin; [set_solver|]. simpl in *.
  apply NoDup_cons in Hnd as [Hd Hnd]. apply elem_of_cons in Hin as [<-|Hin].
  - rewrite applied_other by done. unfold write. by rewrite !String.eqb_refl.
  - by apply IH.
Qed.

(** A batch over distinct cells whose previous values are the state's, then
    its inverse, gives the state back; inverting twice gives the batch back. *)
Lemma invert_undoes d s :
  NoDup (map (fun c => (ch_rowId c, ch_columnId c)) (changes d)) ->
  Forall (fun c => ch_previous c = s (ch_rowId c) (ch_columnId c)) (changes d) ->
  (forall row column, applied (invertDataGridCellsChange d) (applied d s) row column = s row column) /\
  changes (invertDataGridCellsChange (invertDataGridCellsChange d)) = changes d.
Proof.
  intros Hnd Hp. split.
  - intros row column. unfold applied, invertDataGridCellsChange. simpl.
    set (cell := fun c : @CellChange Data Other => (ch_rowId c, ch_columnId c)) in *.
    assert (Hids : map cell (map invert_change (changes d)) = map cell (changes d))
      by by rewrite map_map.
    destruct (decide ((row, column) ∈ map cell (changes d))) as [Hin|Hout].
    + apply list_elem_of_fmap in Hin as (c & [= -> ->] & Hc).
      rewrite Forall_forall in Hp. rewrite <-(Hp c Hc).
      apply (applied_in _ _ (invert_change c)); [by fold cell; rewrite Hids|].
      by apply list_elem_of_fmap_2.
    + rewrite !applied_other; [done|done|by fold cell; rewrite Hids].
  - simpl. rewrite map_map. rewrite <-(map_id (changes d)) at 2. apply map_ext. by intros [].
Qed.
End Laws.

(** ** Concrete grids *)
Module Sample.
Definition text_edit : @CellEdit unit nat := mkEdit EditAbsent None None Undef None.
Definition name : @Column unit nat := mkColumn "name" true (Some text_edit) None None.
Definition locked : @Column unit nat := mkColumn "id" true None None None.
Definition row (id v : string) : @Row unit nat := mkRow id tt [("name", Text v); ("id", Text id)].
Definition rows : list (@Row unit nat) := [row "r0" "a"; row "r1" ""; row "r2" "c"; row "r3" "d"].
Definition table (page : list (@Row unit nat)) (b : Bound) (focus : nat) : @Table unit nat :=
  mkTable rows page [name] [locked] [] [b]
    ((fun r => mkFocused r (Z.of_nat focus) name) <$> rows !! focus).
Definition whole (b : Bound) : @Table unit nat := table rows b (minRowIndex b).
Definition changed_cells (d : option (@CellsChangeDetails unit nat * PasteTarget))
    : list (string * string * CellValue nat) :=
  match d with
  | Some (details, _) => map (fun c => (ch_rowId c, ch_columnId c, ch_value c)) (changes details)
  | None => []
  end.
End Sample.

Lemma paste_covers_rectangle_witness :
  let t := Sample.whole (mkBound 0 1 0 1) in
  Sample.changed_cells (buildDataGridPasteDetails t [["x"]] None) =
    [("r0", "name", Text "x"); ("r1", "name", Text "x")] /\
  exists details target, buildDataGridPasteDetails t [["x"]] None = Some (details, target) /\
    length (changes details) + length (rejected details) = 4.
Proof.
  split; [vm_compute; reflexivity|].
  destruct (proj2 (paste_covers_rectangle (Sample.whole (mkBound 0 1 0 1)) [["x"]] None
    (mkBound 0 1 0 1) eq_refl)) as (details & target & R & C & Hp & _ & Hx & _ & _ & Hn);
    [done|vm_compute; congruence..|].
  exists details, target. split; [exact Hp|].
  vm_compute in Hp. injection Hp as <- <-. reflexivity.
Defined.

Lemma copy_paste_writes_back_witness :
  let t := Sample.whole (mkBound 0 2 0 1) in
  exists details target,
    buildDataGridPasteDetails t (parseDataGridClipboardText (serializeDataGridClipboardText
      [["a"; "r0"]; [""; "r1"]; ["c"; "r2"]])) None = Some (details, target) /\
    (forall change, change ∈ changes details -> ch_value change = ch_previous change) /\
    length (changes details) + length (rejected details) = 6.
Proof.
  destruct (copy_paste_writes_back show_nat (Sample.whole (mkBound 0 2 0 1)) None (mkBound 0 2 0 1)
    [["a"; "r0"]; [""; "r1"]; ["c"; "r2"]]) as (details & target & Hp & _ & Hc & Hn).
  - vm_compute; reflexivity.
  - intros r Hr. simpl in Hr. destruct r as [|[|[|r]]]; [..|lia]; by eexists.
  - vm_compute; reflexivity.
  - vm_compute. congruence.
  - right. vm_compute. congruence.
  - intros row col ce Hrow Hcol.
    change (row ∈ [(Sample.row "r0" "a", 0); (Sample.row "r1" "", 1); (Sample.row "r2" "c", 2)]) in Hrow.
    change (col ∈ [(Sample.name, 0); (Sample.locked, 1)]) in Hcol.
    assert (Hc2 : col = (Sample.name, 0) \/ col = (Sample.locked, 1)) by set_solver.
    destruct Hc2 as [-> | ->]; [|done]. intros [= <-].
    assert (Hr3 : row = (Sample.row "r0" "a", 0) \/ row = (Sample.row "r1" "", 1) \/
      row = (Sample.row "r2" "c", 2)) by set_solver.
    destruct Hr3 as [-> |[-> | ->]]; reflexivity.
  - exists details, target. split; [exact Hp|]. split; [|exact Hn].
    intros change Hin. exact (proj1 (Hc change Hin)).
Defined.

Lemma fill_preview_is_commit_witness :
  let t := Sample.whole (mkBound 0 0 0 1) in
  exists f0, startDataGridFillSession t ["r0"; "r1"; "r2"; "r3"] = Some f0 /\
    map touched (fill_outcomes show_nat (fill_move f0 "r2" "name")) =
      [("r1", "name"); ("r2", "name")].
Proof.
  eexists. split; [vm_compute; reflexivity|].
  etransitivity.
  - eapply (proj1 (fill_preview_is_commit show_nat (Sample.whole (mkBound 0 0 0 1))
      ["r0"; "r1"; "r2"; "r3"] _ [("r2", "name")] (Sample.whole (mkBound 0 0 0 1)) true
      ltac:(vm_compute; reflexivity) ltac:(repeat constructor))).
  - vm_compute. reflexivity.
Defined.

(** A one-cell paste over a selection with rows the view does not show counts
    those rows too, and runs on past the selection over visible rows: with
    [r1] and [r2] off the page, pasting over [r0..r2] writes [r3]. *)
Lemma paste_overruns_selection :
  let t := Sample.table [Sample.row "r0" "a"] (mkBound 0 2 0 0) 0 in
  Sample.changed_cells (buildDataGridPasteDetails t [["x"]] (Some ["r0"; "r3"])) =
    [("r0", "name", Text "x"); ("r3", "name", Text "x")].
Proof. vm_compute. reflexivity. Qed.

(** A copied column that ends in an empty cell loses it: pasted back over
    itself it repeats what is left, overwriting the empty cell. *)
Lemma copied_column_loses_last :
  let t := Sample.whole (mkBound 0 1 0 0) in
  option_map (fun grid => Sample.changed_cells (buildDataGridPasteDetails t
      (parseDataGridClipboardText (serializeDataGridClipboardText grid)) None))
    (getDataGridActiveRegionGrid show_nat t None) =
  Some [("r0", "name", Text "a"); ("r1", "name", Text "a")].
Proof. vm_compute. reflexivity. Qed.

(** Shift with a jump key takes the corner opposite to the focused cell as the
    anchor: with the focus on the anchor [r1] of [r1..r2], jumping to the last
    row selects [r2..r3] and drops the focused cell. *)
Lemma jump_extend_drops_focus :
  jumpFocus (Sample.table Sample.rows (mkBound 1 2 0 0) 1) [] RowLast ColumnSame true =
  Some (SelectCellRange (mkRange "r2" "name" "r3" "name")).
Proof. vm_compute. reflexivity. Qed.
