(* ===== verification/CellKeysLaws.v ===== *)
(** * The properties of the data grid's keyboard and editor

    What a key may do to the selection and to the data, where a jump can land,
    how reading direction enters, and the appended rows. *)
From S2P Require Import Prelude JsString JsMap Clipboard CellSelection CellSelectionLaws CellKeys.

Create HintDb logs.

(** ** Postconditions of the log *)
Section Logs.
Context {Data Other : Type}.
Notation Command := (@Command Data Other).
Notation Table := (@Table Data Other).
Notation Act := (@Act Data Other).
Notation K := (@K Data Other).
Context (call : Command -> Table -> Table).

(** Every act [k] logs satisfies [P], whatever the table. *)
Definition logs {A} (P : Act -> Prop) (k : K A) : Prop := forall t, Forall P (k t).2.2.

Section Rules.
Context (P : Act -> Prop).

Lemma logs_ret {A} (a : A) : logs P (mret a : K A).
Proof. intros t. constructor. Qed.
Lemma logs_bind {A B} (m : K A) (f : A -> K B) :
  logs P m -> (forall a, logs P (f a)) -> logs P (m ≫= f).
Proof.
  intros Hm Hf t. unfold mbind, K_bind. specialize (Hm t).
  destruct (m t) as [a [t1 l1]]. specialize (Hf a t1). destruct (f a t1) as [b [t2 l2]].
  by apply Forall_app.
Qed.
Lemma logs_act a : P a -> logs P (emitAct a).
Proof. intros H t. by constructor. Qed.
Lemma logs_run c : P (Do c) -> logs P (run call c).
Proof. intros H t. by constructor. Qed.
Lemma logs_getTable : logs P getTable.
Proof. intros t. constructor. Qed.
Lemma logs_when b k : (b = true -> logs P k) -> logs P (when b k).
Proof. destruct b; [auto|intros _; apply logs_ret]. Qed.
Lemma logs_nothing : logs P nothing.
Proof. apply logs_ret. Qed.
Lemma logs_run_all cs : Forall (fun c => P (Do c)) cs -> logs P (run_all call cs).
Proof.
  induction 1 as [|c cs Hc Hcs IH]; [apply logs_ret|]. cbn [run_all foldr].
  apply logs_bind; [by apply logs_run|done].
Qed.
End Rules.
End Logs.
#[export] Hint Resolve logs_ret logs_bind logs_act logs_run logs_getTable logs_when
  logs_nothing logs_run_all : logs.

(** The structure of a handler, down to its acts. *)
Ltac logs_step :=
  match goal with
  | |- logs _ (mret _) => apply logs_ret
  | |- logs _ nothing => apply logs_nothing
  | |- logs _ getTable => apply logs_getTable
  | |- logs _ (_ ≫= _) => apply logs_bind; [|intros ?]
  | |- logs _ (emitAct _) => apply logs_act
  | |- logs _ prevent => apply logs_act
  | |- logs _ (run _ _) => apply logs_run
  | |- logs _ (run_all _ _) => apply logs_run_all
  | |- logs _ (when _ _) => apply logs_when; intros ?
  | |- logs _ (match ?x with _ => _ end) => destruct x eqn:?
  | |- logs _ (let _ := _ in _) => cbn zeta
  end.
Ltac logs_auto := repeat logs_step; simplify_eq/=; try done.

Section Laws.
Context {Data Other : Type} (to_string : Other -> string).
Notation Row := (@Row Data Other).
Notation Table := (@Table Data Other).
Notation Command := (@Command Data Other).
Notation Act := (@Act Data Other).
Notation K := (@K Data Other).
Context (call : Command -> Table -> Table) (cell_id : string -> string -> string).
Notation handleKeyDown := (handleKeyDown to_string call cell_id).

(** The commands of [moveFocusVisual], [jumpFocus] and the extension. *)
Lemma moveFocusVisual_commands (t : Table) rows d c :
  c ∈ moveFocusVisual t rows d -> (exists r k, c = SetFocusedCell r k) \/ c = MoveCellSelection d.
Proof.
  unfold moveFocusVisual. repeat case_match; rewrite ?list_elem_of_singleton; [set_solver| |].
  - intros ->. left. eauto.
  - intros ->. by right.
Qed.
Lemma jumpFocus_command (t : Table) rows r k extend c :
  jumpFocus t rows r k extend = Some c ->
  match c with
  | SelectCellRange _ => extend = true
  | SetFocusedCell _ _ => extend = false
  | _ => False
  end.
Proof.
  unfold jumpFocus. cbn zeta. intros H. repeat case_match; simplify_eq/=; done.
Qed.
Lemma extend_commands (before after : Table) rows d c :
  c ∈ (extendDataGridSelection before after rows d).1 -> exists r, c = SelectCellRange r.
Proof.
  unfold extendDataGridSelection.
  destruct (negb _); [set_solver|]. destruct (focusedCell after); [|set_solver]. cbn zeta.
  repeat case_match; cbn [fst]; rewrite ?list_elem_of_singleton; set_solver.
Qed.
Lemma handleDelete_commands (t : Table) rows b c :
  c ∈ handleDelete t rows b -> exists d, c = OnCellsChange d.
Proof.
  unfold handleDelete. repeat case_match; rewrite ?list_elem_of_singleton; set_solver.
Qed.

(** ** Selection mode *)

(** An act that can make the selection hold more than one cell. *)
Definition grows (a : Act) : bool :=
  match a with
  | Do (SelectCellRange _) | Do (ExtendCellSelection _) | Do SelectAllCells => true
  | _ => false
  end.
(** An act that writes cells. *)
Definition writes_cells (a : Act) : bool :=
  match a with Do (OnCellsChange _) => true | _ => false end.

Lemma logs_jump (P : Act -> Prop) v r k extend :
  (forall c, match c with
             | SelectCellRange _ => extend = true
             | SetFocusedCell _ _ => extend = false
             | _ => False
             end -> P (Do c)) ->
  (forall target corner, P (Scroll target corner)) ->
  logs P (jump call v r k extend).
Proof.
  intros Hc Hs. unfold jump. apply logs_bind; [apply logs_getTable|]. intros t.
  destruct (jumpFocus _ _ _ _ _) as [c|] eqn:E; [|apply logs_ret].
  destruct (focusedCell t); [|apply logs_ret].
  apply jumpFocus_command in E. apply logs_bind; [apply logs_run; auto|]. intros _.
  apply logs_bind; [by apply logs_act|]. intros _. apply logs_ret.
Qed.
Lemma logs_edit (P : Act -> Prop) p v text :
  (forall s, P (OpenEditor s)) -> (forall r, P (RequestEdit r)) -> (forall x, P (Activate x)) ->
  logs P (requestCellEdit to_string p v text).
Proof.
  intros Ho Hr Ha. unfold requestCellEdit, activateControl. logs_auto; auto.
Qed.
Lemma logs_focusFirst (P : Act -> Prop) v row : (forall i, P (FocusIn i)) -> logs P (focusFirstIn v row).
Proof. intros H. unfold focusFirstIn. logs_auto; auto. Qed.
Lemma logs_moveFocus (P : Act -> Prop) v d :
  (forall r c, P (Do (SetFocusedCell r c))) -> P (Do (MoveCellSelection d)) ->
  logs P (moveFocus call v d).
Proof.
  intros H1 H2. unfold moveFocus. logs_auto. apply Forall_forall. intros c.
  intros [(r & k & ->)| ->]%moveFocusVisual_commands; auto.
Qed.

(** The handler, by what it may log: the keys that open an editor, move and
    scroll satisfy [P], and so do the three kinds of command only some keys
    give, when those keys may give them. *)
Lemma logs_handle (P : Act -> Prop) p v tg e :
  (forall a, grows a = false -> writes_cells a = false -> P a) ->
  (p_single p = false -> forall a, grows a = true -> P a) ->
  ((ke_key e = "Delete" \/ ke_key e = "Backspace") -> forall d, P (Do (OnCellsChange d))) ->
  logs P (handleKeyDown p v tg e).
Proof.
  intros Hrest Hgrow Hwrite.
  assert (Hmode : isRangeSelectionEnabled p = true -> p_single p = false)
    by (unfold isRangeSelectionEnabled; by destruct (p_single p)).
  assert (Hext : extending p e = true -> p_single p = false)
    by (unfold extending; intros [_ H]%andb_true_iff; auto).
  assert (Hjump : forall r k, logs P (jump call v r k (extending p e))).
  { intros r k. apply logs_jump; [|auto]. intros []; try done; auto. }
  assert (Hedit : forall text, logs P (requestCellEdit to_string p v text))
    by (intros; apply logs_edit; auto).
  assert (Hfirst : forall row, logs P (focusFirstIn v row)) by (intros; apply logs_focusFirst; auto).
  assert (Hmove : forall d, logs P (moveFocus call v d)) by (intros; apply logs_moveFocus; auto).
  unfold CellKeys.handleKeyDown. destruct (ke_prevented e); [apply logs_nothing|].
  destruct (appended_keys v tg e) as [k|] eqn:Ek.
  { unfold appended_keys in Ek. destruct (tg_row tg); simplify_eq/=. logs_auto; auto. }
  destruct (isDataGridInteractiveKeyTarget tg); [unfold control_keys; logs_auto; auto|].
  destruct (select_all_chord e); [unfold selectAll; logs_auto; auto|].
  destruct (copy_chord p e); [unfold copyChord; logs_auto; auto|].
  unfold switch_key. cbn zeta. destruct (arrow_direction v (ke_key e)) as [d|].
  { unfold arrow_key, enter_appended, arrow_step, extendSelection. logs_auto; auto.
    apply Forall_forall. intros c [r ->]%extend_commands. auto. }
  destruct (_ || _); [unfold home_end; logs_auto; auto|].
  destruct (_ || _); [unfold page_key; logs_auto; auto|].
  destruct (String.eqb _ "Enter"); [unfold enter_key; logs_auto; auto|].
  destruct (String.eqb _ "F2"); [unfold f2_key; logs_auto; auto|].
  destruct (String.eqb _ "Tab"); [unfold tab_key; logs_auto; auto|].
  destruct (_ || _) eqn:Ed.
  { unfold delete_key. logs_auto; auto. apply Forall_forall.
    intros c [d ->]%handleDelete_commands. apply Hwrite.
    apply orb_true_iff in Ed as [H|H]; apply String.eqb_eq in H; auto. }
  destruct (String.eqb _ "Escape"); [unfold escape_key; logs_auto; auto|].
  unfold type_key. logs_auto; auto.
Qed.

(** In single-selection mode no key, with or without a modifier, asks the
    table for anything that can select more than one cell. *)
Theorem single_mode_never_grows p v tg e t :
  p_single p = true -> every (fun a => negb (grows a)) (handleKeyDown p v tg e t).2.2 = true.
Proof.
  intros Hp. apply forallb_forall. intros a Ha%list_elem_of_In.
  assert (H : Forall (fun a => negb (grows a) = true) (handleKeyDown p v tg e t).2.2).
  { apply logs_handle; [by intros ? ->|congruence|done]. }
  by rewrite Forall_forall in H; apply H.
Qed.

(** No key but Delete and Backspace writes a cell: typing opens an editor. *)
Lemma only_delete_writes p v tg e t a :
  a ∈ (handleKeyDown p v tg e t).2.2 -> writes_cells a = true ->
  ke_key e = "Delete" \/ ke_key e = "Backspace".
Proof.
  intros Ha Hw. destruct (decide (ke_key e = "Delete" \/ ke_key e = "Backspace")) as [|Hk]; [done|].
  assert (H : Forall (fun a => writes_cells a = false) (handleKeyDown p v tg e t).2.2).
  { apply logs_handle; [done| |done]. intros _ b. destruct b as [c| | | | | | | | | | |]; [|done..].
    by destruct c. }
  rewrite Forall_forall in H. rewrite H in Hw; done.
Qed.

(** ** Reading direction *)
Definition flip (v : GridView) : GridView :=
  mkView (v_body v) (negb (v_rtl v)) (v_focusedTd v) (v_scroll v) (v_ancestors v) (v_rowHeight v).
Definition mirror (e : KeyEvent) : KeyEvent :=
  mkKey (if String.eqb (ke_key e) "ArrowLeft" then "ArrowRight"
         else if String.eqb (ke_key e) "ArrowRight" then "ArrowLeft" else ke_key e)
    (ke_code e) (ke_shift e) (ke_ctrl e) (ke_meta e) (ke_alt e) (ke_prevented e).

(** In a right-to-left document ArrowLeft does, with the same modifiers, what
    ArrowRight does in a left-to-right one and the other way round, and every
    other key does the same in both. *)
Lemma rtl_mirrors_arrows p v tg e :
  handleKeyDown p (flip v) tg (mirror e) = handleKeyDown p v tg e.
Proof.
  destruct e as [key code shift ctrl meta alt prevented]. unfold mirror. cbn [ke_key].
  destruct (String.eqb_spec key "ArrowLeft") as [->|Hl];
    [|destruct (String.eqb_spec key "ArrowRight") as [->|Hr]].
  1,2: unfold CellKeys.handleKeyDown, switch_key, arrow_direction; cbn; by destruct (v_rtl v).
  unfold CellKeys.handleKeyDown. cbn [ke_key ke_code ke_shift ke_ctrl ke_meta ke_alt ke_prevented].
  destruct prevented; [done|].
  unfold switch_key, arrow_direction. cbn [ke_key v_rtl flip].
  by rewrite (proj2 (String.eqb_neq _ _) Hl), (proj2 (String.eqb_neq _ _) Hr).
Qed.

(** ** Tab and Escape *)

(** Tab at the last cell it can reach does nothing at all, so the browser
    moves the focus on; where it moves, the key is kept. *)
Lemma tab_leaves_at_an_edge v e t f :
  focusedCell t = Some f ->
  getDataGridStepTarget t (row_ids v) (row_id (fo_row f)) (col_id (fo_column f))
    (if ke_shift e then Left_ else Right_) = Some Edge ->
  tab_key call cell_id v e t = (tt, (t, [])).
Proof.
  intros Hf He. unfold tab_key, moveFocus, moveFocusVisual, mbind, K_bind, getTable. rewrite Hf. simpl.
  rewrite He. simpl. by rewrite (bool_decide_eq_true_2 (focused_id cell_id t = focused_id cell_id t)),
    andb_false_r by done.
Qed.

(** Escape is consumed exactly while there is a selection to clear. *)
Lemma escape_only_clears t :
  (PreventDefault ∈ (escape_key call t).2.2 <-> cellSelectionBounds t <> []) /\
  (StopPropagation ∈ (escape_key call t).2.2 <-> cellSelectionBounds t <> []).
Proof.
  unfold escape_key, mbind, K_bind, getTable, when. destruct (cellSelectionBounds t); simpl;
    rewrite ?elem_of_cons, ?elem_of_nil; naive_solver.
Qed.

(** ** Jumps *)
Definition command_cell (c : Command) : option (string * string) :=
  match c with
  | SelectCellRange r => Some (focusRowId r, focusColumnId r)
  | SetFocusedCell r k => Some (r, k)
  | _ => None
  end.
(** The view can show the row: the page slice holds every row, or this one, or
    it is mounted. *)
Definition row_shown (t : Table) (viewport : list string) (row : Row) : Prop :=
  length (pageRows t) = length (rowsInDisplayOrder t) \/
  row_id row ∈ map row_id (pageRows t) \/ row_id row ∈ viewport.
Definition between (a b i : Z) : Prop := (Z.min a b <= i <= Z.max a b)%Z.
Definition asked_row (t : Table) (rowIndex : Z) (target : RowTarget) : Z :=
  match target with
  | RowFirst => 0
  | RowLast => Z.of_nat (length (rowsInDisplayOrder t)) - 1
  | RowSame => rowIndex
  | RowDelta d => Z.min (Z.of_nat (length (rowsInDisplayOrder t)) - 1) (Z.max 0 (rowIndex + d))
  end%Z.

Lemma rendered_rows_elem id viewport (s : jsset) :
  sin id (fold_left sadd viewport s) = true -> id ∈ viewport \/ id ∈ s.
Proof.
  revert s. induction viewport as [|x l IH]; intros s H; [right; by apply sin_elem|].
  simpl in H. apply IH in H as [H|H]; [left; by right|].
  apply sadd_elem in H as [->|H]; [left; by left|by right].
Qed.

(** The walk back ends at the focus or on a row the set holds, and stays
    between the target and the focus. *)
Lemma clamp_walk_spec (rows : list Row) rendered rowIndex step : forall fuel i,
  (step = 1 \/ step = -1)%Z -> (i + step * Z.of_nat fuel = rowIndex)%Z ->
  (0 <= rowIndex < Z.of_nat (length rows))%Z -> (0 <= i < Z.of_nat (length rows))%Z ->
  let j := clamp_walk fuel rows rendered rowIndex step i in
  between i rowIndex j /\
  (j = rowIndex \/ exists row, rows !! Z.to_nat j = Some row /\ sin (row_id row) rendered = true).
Proof.
  induction fuel as [|fuel IH]; intros i Hstep Hi Hr Hlen; cbn [clamp_walk].
  { assert (i = rowIndex) by lia. unfold between. split; [lia|by left]. }
  destruct (Z.eqb_spec i rowIndex) as [->|Hne]; [unfold between; split; [lia|by left]|].
  rewrite (proj2 (Z.ltb_ge i 0)) by lia.
  destruct (lookup_lt_is_Some_2 rows (Z.to_nat i)) as [row Hrow]; [lia|]. rewrite Hrow.
  destruct (sin (row_id row) rendered) eqn:Hs.
  { unfold between. split; [lia|]. right. eauto. }
  destruct (IH (i + step)%Z) as [Hb Hj]; [done|lia|lia|lia|]. split; [|done].
  unfold between in *. lia.
Qed.

Lemma jump_row_spec t viewport rowIndex target :
  (0 <= rowIndex < Z.of_nat (length (rowsInDisplayOrder t)))%Z ->
  let j := jump_row t viewport rowIndex target in
  between rowIndex (asked_row t rowIndex target) j /\
  exists row, rowsInDisplayOrder t !! Z.to_nat j = Some row /\
    (j = rowIndex \/ row_shown t viewport row).
Proof.
  intros Hr. cbn zeta. unfold jump_row. cbn zeta. fold (asked_row t rowIndex target).
  assert (Ha : (0 <= asked_row t rowIndex target < Z.of_nat (length (rowsInDisplayOrder t)))%Z)
    by (destruct target; simpl; lia).
  set (i := asked_row _ _ _) in *. clearbody i.
  destruct (Nat.eqb_spec (length (pageRows t)) (length (rowsInDisplayOrder t))) as [He|He].
  { split; [unfold between; lia|].
    destruct (lookup_lt_is_Some_2 (rowsInDisplayOrder t) (Z.to_nat i)) as [row Hrow]; [lia|].
    exists row. split; [done|]. right. by left. }
  set (step := if (rowIndex <=? i)%Z then (-1)%Z else 1%Z).
  assert (Hstep : (step = 1 \/ step = -1)%Z /\ (i + step * Z.of_nat (Z.abs_nat (i - rowIndex)) = rowIndex)%Z).
  { unfold step. destruct (Z.leb_spec rowIndex i); lia. }
  destruct Hstep as [Hstep Hfuel]. clearbody step.
  destruct (clamp_walk_spec (rowsInDisplayOrder t)
    (fold_left sadd viewport (set_of (map row_id (pageRows t)))) rowIndex step _ i Hstep Hfuel Hr Ha)
    as [Hb Hj].
  set (j := clamp_walk _ _ _ _ _ _) in *. clearbody j. unfold between in *. split; [lia|].
  destruct (lookup_lt_is_Some_2 (rowsInDisplayOrder t) (Z.to_nat j)) as [row Hrow]; [lia|].
  exists row. split; [done|]. destruct Hj as [|(row' & Hrow' & Hs)]; [by left|right].
  assert (row' = row) as -> by congruence.
  right. apply rendered_rows_elem in Hs as [Hs|Hs]; [by right|left].
  by apply (proj2 (set_of_spec _)).
Qed.

(** A jump (Home, End, the Ctrl arrows, PageUp, PageDown) never lands on a
    row the view cannot show: with the focused cell on the row its display
    index names, the cell a jump asks for is of a row that is on the page or
    mounted (or of the row it left), and lies between the focus and the row
    asked for, so it never overshoots either. *)
Theorem jump_lands_on_a_shown_row t viewport target column extend f c :
  focusedCell t = Some f ->
  (0 <= fo_displayIndex f < Z.of_nat (length (rowsInDisplayOrder t)))%Z ->
  jumpFocus t viewport target column extend = Some c ->
  exists j row col, rowsInDisplayOrder t !! Z.to_nat j = Some row /\
    command_cell c = Some (row_id row, col) /\
    between (fo_displayIndex f) (asked_row t (fo_displayIndex f) target) j /\
    (j = fo_displayIndex f \/ row_shown t viewport row).
Proof.
  intros Hf Hr. destruct (jump_row_spec t viewport _ target Hr) as (Hb & row & Hrow & Hs).
  unfold jumpFocus. rewrite Hf. cbn zeta.
  destruct (_ || _); [done|].
  assert (Hpos : (jump_row t viewport (fo_displayIndex f) target <? 0)%Z = false)
    by (apply Z.ltb_ge; destruct target; unfold between in Hb; simpl in Hb; lia).
  rewrite Hpos, Hrow. destruct (match column with ColumnFirst => _ | _ => _ end) as [col|]; [|done].
  intros [= <-]. exists (jump_row t viewport (fo_displayIndex f) target), row, (col_id col).
  split; [done|]. split; [by destruct extend|]. done.
Qed.

(** ** Appended rows *)
Lemma appended_walk_spec l acc :
  exists k, k <= length l /\
    appended_walk l acc =
      rev (omap (fun e => match e.2 with OtherRow false _ => Some e.1 | _ => None end) (take k l))
      ++ acc /\
    (forall e, e ∈ take k l -> forall id, e.2 <> DataRow id) /\
    match l !! k with Some (_, DataRow _) | None => True | _ => False end.
Proof.
  revert acc. induction l as [|[i r] l IH]; intros acc.
  { exists 0. split_and!; [lia|done| |done]. intros e He. by apply elem_of_nil in He. }
  destruct r as [id|ariaHidden control].
  { exists 0. split_and!; [lia|done| |done]. intros e He. rewrite take_0 in He. by apply elem_of_nil in He. }
  cbn [appended_walk].
  destruct (IH (if ariaHidden then acc else i :: acc)) as (k & Hk & -> & Hno & Hend).
  exists (S k). split_and!; [simpl; lia| | |done].
  - destruct ariaHidden; csimpl; [done|]. by rewrite <-app_assoc.
  - intros e [->|He]%elem_of_cons id; [done|by apply Hno].
Qed.

(** The appended rows are the visible rows below the last data row: no data
    row follows one of them. *)
Lemma appended_rows_follow_the_data body i :
  i ∈ getAppendedRows body ->
  (exists control, body !! i = Some (OtherRow false control)) /\
  (forall j id, i <= j -> body !! j <> Some (DataRow id)).
Proof.
  unfold getAppendedRows. destruct (appended_walk_spec (rev (imap pair body)) [])
    as (k & Hk & -> & Hno & _).
  rewrite app_nil_r. intros Hi%list_elem_of_In%in_rev%list_elem_of_In.
  apply list_elem_of_omap in Hi as ([i' r] & Hi & Hr). simpl in Hr.
  destruct r as [|[|] control]; simplify_eq/=.
  rewrite length_rev, length_imap in Hk.
  assert (Hlook : forall n e, take k (rev (imap pair body)) !! n = Some e ->
    e.1 = length body - S n /\ body !! e.1 = Some e.2 /\ n < k /\ n < length body).
  { intros n [a b] Hn. apply lookup_take_Some in Hn as [Hn Hlt].
    rewrite rev_alt in Hn. apply reverse_lookup_Some in Hn as [Hn Hlen]. rewrite length_imap in Hn, Hlen.
    rewrite list_lookup_imap in Hn. destruct (body !! _) eqn:E; simplify_eq/=. done. }
  apply list_elem_of_lookup in Hi as [n Hn]. destruct (Hlook _ _ Hn) as (Hi' & Hb & Hnk & Hnl).
  simpl in *. split; [eauto|]. intros j id Hj Hbj.
  assert (Hjl : j < length body) by (eapply lookup_lt_Some; done).
  destruct (lookup_lt_is_Some_2 (take k (rev (imap pair body))) (length body - S j)) as [[a b] He].
  { rewrite length_take, length_rev, length_imap. lia. }
  destruct (Hlook _ _ He) as (Ha & Hb' & _). simpl in *.
  apply (Hno (a, b)) with id; [by eapply list_elem_of_lookup_2|]. simpl.
  replace a with j in Hb' by lia. congruence.
Qed.
End Laws.

(** ** Concrete grids *)
Module KeySample.
Definition props (single : bool) : Props := mkProps single true true false false false.
Definition view : GridView :=
  mkView [DataRow "r0"; DataRow "r1"; DataRow "r2"; DataRow "r3"; OtherRow false (Some true)] false
    None (400, 100)%Z [] (QArith_base.inject_Z 20).
Definition key (k : string) (shift ctrl : bool) : KeyEvent := mkKey k "" shift ctrl false false false.
Definition on_grid : Target := mkTarget None false false false.
Definition still : @Command unit nat -> @Table unit nat -> @Table unit nat := fun _ t => t.
Definition joined (r c : string) : string := (r ++ "_" ++ c)%string.
Definition log (p : Props) (e : KeyEvent) (t : @Table unit nat) : list (@Act unit nat) :=
  (handleKeyDown show_nat still joined p view on_grid e t).2.2.
Definition table : @Table unit nat := Sample.whole (mkBound 0 0 0 0).
End KeySample.

Lemma single_mode_never_grows_witness :
  every (fun a => negb (grows a))
    (KeySample.log (KeySample.props true) (KeySample.key "End" true true) KeySample.table) = true /\
  every (fun a => negb (grows a))
    (KeySample.log (KeySample.props false) (KeySample.key "End" true true) KeySample.table) = false.
Proof.
  split; [|vm_compute; reflexivity].
  exact (single_mode_never_grows show_nat KeySample.still KeySample.joined (KeySample.props true)
    KeySample.view KeySample.on_grid (KeySample.key "End" true true) KeySample.table eq_refl).
Defined.

(** The page shows [r0] and [r1]; the pinned [r3] is mounted, [r2] is not. *)
Lemma jump_lands_on_a_shown_row_witness :
  let t := Sample.table [Sample.row "r0" "a"; Sample.row "r1" ""] (mkBound 0 0 0 0) 0 in
  jumpFocus t ["r0"; "r1"] RowLast ColumnSame false = Some (SetFocusedCell "r1" "name") /\
  exists j row col, rowsInDisplayOrder t !! Z.to_nat j = Some row /\
    command_cell (@SetFocusedCell unit nat "r1" "name") = Some (row_id row, col) /\
    between 0 3 j /\ (j = 0%Z \/ row_shown t ["r0"; "r1"] row).
Proof.
  split; [vm_compute; reflexivity|].
  exact (jump_lands_on_a_shown_row
    (Sample.table [Sample.row "r0" "a"; Sample.row "r1" ""] (mkBound 0 0 0 0) 0) ["r0"; "r1"]
    RowLast ColumnSame false (mkFocused (Sample.row "r0" "a") 0 Sample.name) _
    eq_refl (conj (Z.le_refl 0) eq_refl) eq_refl).
Defined.

(** ArrowDown on the last row steps into the appended row; Enter there, where
    nothing opens and the grid ends, moves nothing. *)
Lemma arrow_down_enters_the_appended_row :
  KeySample.log (KeySample.props false) (KeySample.key "ArrowDown" false false)
    (Sample.whole (mkBound 3 3 0 0)) = [FocusIn 4; PreventDefault] /\
  KeySample.log (KeySample.props false) (KeySample.key "Enter" false false)
    (Sample.whole (mkBound 3 3 0 0)) = [PreventDefault; Scroll None None].
Proof. split; vm_compute; reflexivity. Qed.
