(* ===== verification/CellEditorLaws.v ===== *)
(** * The properties of the data grid's editor and mouse

    One editor writes at most one cell, the one it was opened on; a created
    row is focused as soon as it is mounted, and the retries end; the first
    press on a control only focuses its cell. *)
From S2P Require Import Prelude JsString JsMap Clipboard CellSelection CellSelectionLaws CellKeys CellKeysLaws CellEditor.

Section Laws.
Context {Data Other : Type} (to_string : Other -> string).
Notation Row := (@Row Data Other).
Notation Column := (@Column Data Other).
Notation Table := (@Table Data Other).
Notation Command := (@Command Data Other).
Notation Act := (@Act Data Other).
Notation K := (@K Data Other).
Context (call : Command -> Table -> Table) (getColumn : Table -> string -> option Column).
Context (selectedCellCount : Table -> nat).
Notation overlay_run := (overlay_run call getColumn).
Notation overlay_step := (overlay_step call getColumn).
Notation commitEditorSession := (commitEditorSession call getColumn).
Notation gesture := (gesture to_string call getColumn selectedCellCount).
Notation retries := (retries to_string call).
Notation focusCell := (focusCell to_string call).
Notation attemptEdit := (@attemptEdit Data Other to_string).
Notation attempt := (attempt to_string call).
Notation retry_fires := (retry_fires to_string call).

(** ** The log of a sequence *)
Definition logOf {A} (k : K A) (t : Table) : list Act := (k t).2.2.

Lemma logOf_bind {A B} (m : K A) (f : A -> K B) t :
  logOf (m ≫= f) t = logOf m t ++ logOf (f (m t).1) (m t).2.1.
Proof.
  unfold logOf, mbind, K_bind. destruct (m t) as [a [t1 l1]]. simpl.
  by destruct (f a t1) as [b [t2 l2]].
Qed.
Lemma result_bind {A B} (m : K A) (f : A -> K B) t :
  ((m ≫= f) t).1 = (f (m t).1 (m t).2.1).1.
Proof.
  unfold mbind, K_bind. destruct (m t) as [a [t1 l1]]. simpl.
  by destruct (f a t1) as [b [t2 l2]].
Qed.

(** The cells a log writes. *)
Definition writings (l : list Act) : list (@CellsChangeDetails Data Other) :=
  omap (fun a => match a with Do (OnCellsChange d) => Some d | _ => None end) l.
Lemma writings_app l k : writings (l ++ k) = writings l ++ writings k.
Proof. apply omap_app. Qed.
Lemma writings_none l : Forall (fun a => writes_cells a = false) l -> writings l = [].
Proof.
  induction 1 as [|a l Ha Hl IH]; [done|]. destruct a as [[]| | | | | | | | | | |];
    simplify_eq/=; try done; by rewrite IH.
Qed.

Lemma close_writes_nothing v advance refocus t :
  writings (logOf (closeEditorSession call v advance refocus) t) = [].
Proof.
  apply writings_none. revert t.
  change (logs (fun a => writes_cells a = false) (closeEditorSession call v advance refocus)).
  unfold closeEditorSession, advance_focus, refocus_grid. logs_auto.
Qed.

(** What a commit may tell the consumer: the session's cell, and no other. *)
Definition edits_only (s : EditorSession) (d : @CellsChangeDetails Data Other) : Prop :=
  source d = SrcEdit /\
  ((exists c, changes d = [c] /\ rejected d = [] /\
      ch_rowId c = es_rowId s /\ ch_columnId c = es_columnId s /\ ch_value c <> Undef) \/
   (exists raw, changes d = [] /\
      rejected d = [mkRejection (es_rowId s) (es_columnId s) raw Invalid])).

Lemma edit_details_only s (row : Row) (column : Column) ce raw :
  edits_only s (edit_details s row column ce raw).
Proof.
  unfold edit_details, edits_only. destruct (parsed_value ce raw (original row)) eqn:E; simpl;
    (split; [done|]); [right; eauto|left; eexists; by split_and!..].
Qed.

Lemma commit_writes p v s raw advance refocus t :
  let w := writings (logOf (commitEditorSession p v (Some s) raw advance refocus) t) in
  (w = [] \/ exists d, w = [d] /\ edits_only s d) /\ (raw = baseline s -> w = []).
Proof.
  unfold CellEditor.commitEditorSession. rewrite logOf_bind, writings_app, close_writes_nothing. simpl.
  destruct (negb _); simpl; [split; [by left|done]|].
  destruct (String.eqb_spec raw (baseline s)); [split; [by left|done]|].
  split; [|done]. rewrite logOf_bind. simpl.
  destruct (session_cell _ _ _) as [[[row column] ce]|]; [|by left].
  right. eexists. split; [done|]. apply edit_details_only.
Qed.

(** ** One editor, one write *)
Lemma finished_writes_nothing p v s e t :
  (overlay_step p v s true e t).1 = true /\
  writings (logOf (overlay_step p v s true e) t) = [].
Proof.
  destruct e as [value key shift alt|value| |].
  - simpl. unfold overlay_key. by repeat case_match.
  - done.
  - done.
  - cbn [CellEditor.overlay_step].
    by rewrite result_bind, logOf_bind, writings_app, close_writes_nothing.
Qed.
Lemma finish_writes p v s value commit advance refocus t :
  let k := finish_edit call getColumn p v s false value commit advance refocus in
  (k t).1 = true /\
  (writings (logOf k t) = [] \/ exists d, writings (logOf k t) = [d] /\ edits_only s d /\
     value <> baseline s /\ commit = true).
Proof.
  cbn zeta. unfold finish_edit. rewrite result_bind, logOf_bind, writings_app, app_nil_r.
  split; [done|]. destruct commit.
  - destruct (commit_writes p v s value advance refocus t) as [[H|(d & H & Hd)] Hb]; [by left|].
    right. exists d. split_and!; try done. intros He. specialize (Hb He). by rewrite H in Hb.
  - left. apply close_writes_nothing.
Qed.
(** A step that writes nothing, or finishes with one write to the session's
    cell. *)
Definition writes_once (s : EditorSession) (k : K bool) : Prop := forall t,
  writings (logOf k t) = [] \/
  (k t).1 = true /\ exists d, writings (logOf k t) = [d] /\ edits_only s d.
Lemma once_act s a k : writes_cells a = false -> writes_once s k -> writes_once s (emitAct a;; k).
Proof.
  intros Ha Hk t. rewrite logOf_bind, result_bind, writings_app.
  change (logOf (emitAct a) t) with [a]. rewrite (writings_none [a]) by by repeat constructor.
  apply Hk.
Qed.
Lemma once_finish p v s value commit advance refocus :
  writes_once s (finish_edit call getColumn p v s false value commit advance refocus).
Proof.
  intros t. destruct (finish_writes p v s value commit advance refocus t) as [H1 [H2|(d & H2 & H3 & _)]];
    [by left|right; eauto].
Qed.
Lemma step_writes p v s e : writes_once s (overlay_step p v s false e).
Proof.
  destruct e as [value key shift alt|value| |]; cbn [CellEditor.overlay_step].
  - unfold overlay_key, prevent. repeat case_match; repeat (apply once_act; [done|]);
      first [apply once_finish|by left].
  - apply once_finish.
  - intros t. rewrite logOf_bind, writings_app, close_writes_nothing. by left.
  - intros t. rewrite logOf_bind, writings_app, close_writes_nothing. by left.
Qed.

(** C32: One editor writes at most once, whatever reaches it and in whatever
    order: keys, the blur its own unmount causes, rows that come and go.  What
    it writes is the cell it was opened on, as one change or one rejection. *)
Theorem one_write_per_editor p v s es t :
  let w := writings (logOf (overlay_run p v s false es) t) in
  w = [] \/ exists d, w = [d] /\ edits_only s d.
Proof.
  cbn zeta. assert (Hdone : forall es t, writings (logOf (overlay_run p v s true es) t) = []).
  { clear. induction es as [|e es IH]; intros t; [done|]. cbn [CellEditor.overlay_run].
    destruct (finished_writes_nothing p v s e t) as [Hr Hw].
    by rewrite logOf_bind, writings_app, Hw, Hr, IH. }
  revert t. induction es as [|e es IH]; intros t; [by left|]. cbn [CellEditor.overlay_run].
  rewrite logOf_bind, writings_app.
  destruct (step_writes p v s e t) as [->|(-> & d & -> & Hd)].
  - destruct (overlay_step p v s false e t).1; [left; apply Hdone|apply IH].
  - right. exists d. by rewrite Hdone.
Qed.

(** ** Focusing a row that is being created *)
Definition left_to_try (r : Retry) : nat :=
  match r with Quiet => 0 | Looking _ _ _ n => n + 14 | Waiting n => S n end.

Lemma attemptEdit_left p v o n t : left_to_try (attemptEdit p v o n t).1 <= n.
Proof.
  unfold CellEditor.attemptEdit. destruct (negb _); [simpl; lia|]. destruct (cell_marked o).
  - rewrite result_bind. simpl. lia.
  - destruct n; simpl; lia.
Qed.
Lemma attempt_left p v o r c edit n t :
  left_to_try (attempt p v o r c edit n t).1 <= n + 13.
Proof.
  unfold CellEditor.attempt. destruct (negb _); [simpl; lia|].
  destruct (cell_mounted o) as [hasId|]; [|destruct n; simpl; lia].
  rewrite !result_bind. destruct edit; [|simpl; lia].
  etransitivity; [apply attemptEdit_left|lia].
Qed.
Lemma fires_left p v o r t :
  left_to_try (retry_fires p v o r t).1 <= left_to_try r - 1.
Proof.
  destruct r as [|r c edit n|n]; simpl; [lia| |].
  - etransitivity; [apply attempt_left|lia].
  - etransitivity; [apply attemptEdit_left|lia].
Qed.
Lemma retries_left p v os : forall r t,
  left_to_try (retries p v os r t).1 <= left_to_try r - length os.
Proof.
  induction os as [|o os IH]; intros r t; [simpl; lia|]. cbn [CellEditor.retries].
  rewrite result_bind. etransitivity; [apply IH|].
  pose proof (fires_left p v o r t). simpl length. lia.
Qed.

Definition still_missing (o : Poll) : Prop :=
  viewport_connected o = true /\ cell_mounted o = None.
Lemma missing_keeps_looking p v o r c edit n t : still_missing o ->
  attempt p v o r c edit (S n) t = (Looking r c edit n, (t, [])).
Proof. intros [Hv Hm]. unfold CellEditor.attempt. by rewrite Hv, Hm. Qed.
Lemma mounted_is_focused p v o r c edit n t hasId :
  viewport_connected o = true -> cell_mounted o = Some hasId ->
  exists rest, logOf (attempt p v o r c edit n) t =
    Do (SetFocusedCell r c) :: FocusGrid :: rest.
Proof.
  intros Hv Hm. unfold CellEditor.attempt. rewrite Hv, Hm. simpl. rewrite !logOf_bind. simpl. by eexists.
Qed.

(** [focusCell] ends: 25 timers after the call no retry is pending,
    whatever the document does meanwhile.  And it reaches a row that is still
    being created: when the cell is mounted at one of its thirteen polls and
    was not before, the cell and then the grid get the focus then, and nothing
    happens until then. *)
Theorem focusCell_settles p v o0 os r c edit t :
  (25 <= length os ->
   ((focusCell p v o0 r c edit ≫= retries p v os) t).1 = Quiet) /\
  (forall n o hasId, n <= 12 -> (o0 :: os) !! n = Some o ->
     (forall i o', i < n -> (o0 :: os) !! i = Some o' -> still_missing o') ->
     viewport_connected o = true -> cell_mounted o = Some hasId ->
     exists rest, logOf (focusCell p v o0 r c edit ≫= retries p v os) t =
       Do (SetFocusedCell r c) :: FocusGrid :: rest).
Proof.
  split.
  - intros Hl. rewrite result_bind.
    pose proof (attempt_left p v o0 r c edit 12 t) as H0.
    pose proof (retries_left p v os (focusCell p v o0 r c edit t).1 (focusCell p v o0 r c edit t).2.1) as H.
    unfold CellEditor.focusCell in *. destruct (retries p v os _ _).1; simpl in H; [done|lia..].
  - intros n o hasId Hn Ho Hmiss Hv Hm. rewrite logOf_bind. unfold CellEditor.focusCell.
    assert (Hgen : forall os o0 t k, n <= k -> (o0 :: os) !! n = Some o ->
      (forall i o', i < n -> (o0 :: os) !! i = Some o' -> still_missing o') ->
      exists rest, logOf (attempt p v o0 r c edit k) t ++
        logOf (retries p v os (attempt p v o0 r c edit k t).1)
          (attempt p v o0 r c edit k t).2.1 =
        Do (SetFocusedCell r c) :: FocusGrid :: rest); [|by apply Hgen].
    clear -Hv Hm. induction n as [|n IH]; intros os o0 t k Hk Ho Hmiss.
    + injection Ho as ->. destruct (mounted_is_focused p v o r c edit k t hasId Hv Hm) as [rest ->].
      by eexists.
    + assert (H0 : still_missing o0) by (apply (Hmiss 0); [lia|done]).
      destruct k as [|k]; [lia|]. destruct os as [|o1 os]; [done|].
      unfold logOf at 1. rewrite !missing_keeps_looking by done.
      cbn [fst snd app CellEditor.retries]. rewrite logOf_bind. cbn [CellEditor.retry_fires].
      apply IH; [lia|done|]. intros i o' Hi. apply (Hmiss (S i)). lia.
Qed.

(** ** Presses *)
Definition held_back (k : K Mouse) (t : Table) : Prop := StopPropagation ∈ logOf k t.

Lemma pointer_down_spec p tg e m t :
  handleControlPointerDown getColumn p tg e m t =
  (set_pressed (unfocused_control getColumn p t tg e) m,
   (t, if unfocused_control getColumn p t tg e then [StopPropagation] else [])).
Proof.
  unfold handleControlPointerDown, mbind, K_bind, getTable. simpl.
  by destruct (unfocused_control _ _ _ _ _).
Qed.
Lemma mouse_down_keeps p v tg e m t :
  let m' := (gesture p v (MouseDown tg e) m t).1 in
  pressedUnfocusedControl m' = pressedUnfocusedControl m /\ squelching m' = squelching m.
Proof.
  cbn [CellEditor.gesture]. rewrite !result_bind. unfold handleMouseDown. cbn [mret K_ret fst].
  destruct (negb _); [done|]. rewrite !result_bind. cbn zeta. by destruct (pt_fillHandle tg).
Qed.
(** A press that is not held back is stopped by nothing else but the fill
    handle. *)
Lemma mouse_down_passes p v tg e m t :
  pressedUnfocusedControl m = false -> pt_fillHandle tg = false ->
  ~ held_back (gesture p v (MouseDown tg e) m) t.
Proof.
  intros Hm Hf H. unfold held_back in H.
  assert (Hl : logs (fun a => a <> StopPropagation) (gesture p v (MouseDown tg e) m)).
  { cbn [CellEditor.gesture]. unfold handleControlMouseDown, handleMouseDown. rewrite Hm, Hf.
    logs_auto. }
  specialize (Hl t). rewrite Forall_forall in Hl. by eapply Hl.
Qed.
Lemma click_spec p v tg e m t :
  squelching m = false -> p_clickEdit p = false ->
  gesture p v (ClickOn tg e) m t =
  (if pressedUnfocusedControl m then set_pressed false m else m,
   (t, if pressedUnfocusedControl m then [PreventDefault; StopPropagation] else [])).
Proof.
  intros Hs Hc. cbn [CellEditor.gesture]. rewrite Hs. unfold handleClickToEdit. rewrite Hc. simpl.
  unfold handleControlClick. by destruct (pressedUnfocusedControl m).
Qed.

(** The first press on a control of a cell that is not focused never
    reaches the control: its pointerdown, its mousedown and its click are all
    stopped, wherever the table went meanwhile, and the click that was
    swallowed is the only one.  On a control of the focused cell all three go
    through. *)
Theorem first_press_only_focuses p v tg e m t t1 t2 :
  squelching m = false -> pt_fillHandle tg = false -> p_clickEdit p = false ->
  let m1 := (gesture p v (PointerDown tg e) m t).1 in
  let m2 := (gesture p v (MouseDown tg e) m1 t1).1 in
  let m3 := (gesture p v (ClickOn tg e) m2 t2).1 in
  (unfocused_control getColumn p t tg e = true ->
     held_back (gesture p v (PointerDown tg e) m) t /\
     held_back (gesture p v (MouseDown tg e) m1) t1 /\
     held_back (gesture p v (ClickOn tg e) m2) t2 /\
     pressedUnfocusedControl m3 = false) /\
  (unfocused_control getColumn p t tg e = false ->
     ~ held_back (gesture p v (PointerDown tg e) m) t /\
     ~ held_back (gesture p v (MouseDown tg e) m1) t1 /\
     ~ held_back (gesture p v (ClickOn tg e) m2) t2).
Proof.
  intros Hs Hf Hc. cbn zeta.
  change (gesture p v (PointerDown tg e) m) with (handleControlPointerDown getColumn p tg e m).
  unfold held_back at 1 4, logOf. rewrite pointer_down_spec. cbn [fst snd].
  set (m1 := set_pressed (unfocused_control getColumn p t tg e) m).
  destruct (mouse_down_keeps p v tg e m1 t1) as [Hp Hq].
  set (m2 := (gesture p v (MouseDown tg e) m1 t1).1) in *. unfold held_back at 2 4, logOf.
  rewrite !click_spec by (rewrite ?Hq; done). rewrite Hp. cbn [fst snd].
  split; intros Hu; unfold m1 in *; rewrite Hu in *; cbn [pressedUnfocusedControl set_pressed].
  - split_and!; [by left| |set_solver|done]. unfold held_back. cbn [CellEditor.gesture].
    unfold handleControlMouseDown. cbn [pressedUnfocusedControl set_pressed when].
    rewrite !logOf_bind. by left.
  - split_and!; [set_solver|by apply mouse_down_passes|set_solver].
Qed.
End Laws.

(** ** Concrete editors *)
Module EditSample.
Definition text_edit : @CellEdit unit nat := mkEdit EditAbsent None None Undef (Some ControlText).
Definition name : @Column unit nat := mkColumn "name" true (Some text_edit) (Some "Name") None.
Definition columnOf (t : @Table unit nat) (id : string) : option (@Column unit nat) :=
  js_find (fun c => String.eqb (col_id c) id) [name; Sample.locked].
Definition table (b : Bound) : @Table unit nat :=
  mkTable Sample.rows Sample.rows [name] [Sample.locked] [] [b]
    ((fun r => mkFocused r (Z.of_nat (minRowIndex b)) name) <$> Sample.rows !! minRowIndex b).
Definition session : EditorSession := mkSession "r0" "name" ControlText "x" "a" "Name".
Definition props : Props := KeySample.props false.
Definition edit (es : list OverlayEvent) : list (@Act unit nat) :=
  logOf (overlay_run KeySample.still columnOf props KeySample.view session false es)
    (table (mkBound 0 0 0 0)).
Definition count (t : @Table unit nat) : nat := length (cellSelectionBounds t).
Definition press (td : option Td) (checkbox : bool) : PressTarget :=
  mkPress false checkbox None (Some td) td true false false KeySample.on_grid.
Definition plain : MouseEvent := mkMouse 0 false false false.
Definition idle : Mouse := mkMouseState false false None false false.
Definition button (focused : bool) : PressTarget := press (Some (mkTd (Some "r0") "name" true focused)) false.
End EditSample.

Lemma one_write_per_editor_witness :
  let l := EditSample.edit [EditorKey "new" "Enter" false false; EditorBlur "new"; BodyMutated] in
  length (writings l) = 1 /\
  (writings l = [] \/ exists d, writings l = [d] /\ edits_only EditSample.session d).
Proof.
  split; [vm_compute; reflexivity|].
  exact (one_write_per_editor KeySample.still EditSample.columnOf EditSample.props KeySample.view
    EditSample.session [EditorKey "new" "Enter" false false; EditorBlur "new"; BodyMutated]
    (EditSample.table (mkBound 0 0 0 0))).
Defined.

Lemma focusCell_settles_witness :
  let missing := mkPoll true None false false in
  let mounted := mkPoll true (Some true) true true in
  exists rest, logOf (focusCell show_nat KeySample.still EditSample.props KeySample.view missing "r2" "name" true
      ≫= retries show_nat KeySample.still EditSample.props KeySample.view [missing; mounted])
    (EditSample.table (mkBound 0 0 0 0)) =
    Do (SetFocusedCell "r2" "name") :: FocusGrid :: rest.
Proof.
  cbn zeta.
  refine (proj2 (focusCell_settles show_nat KeySample.still EditSample.props KeySample.view
    (mkPoll true None false false) [mkPoll true None false false; mkPoll true (Some true) true true]
    "r2" "name" true (EditSample.table (mkBound 0 0 0 0))) 2 _ true _ eq_refl _ eq_refl eq_refl);
    [lia|].
  intros i o Hi. destruct i as [|[|i]]; [| |lia]; intros [= <-]; by split.
Defined.

Lemma first_press_only_focuses_witness :
  let t := EditSample.table (mkBound 0 0 0 0) in
  held_back (gesture show_nat KeySample.still EditSample.columnOf EditSample.count EditSample.props
    KeySample.view (PointerDown (EditSample.button false) EditSample.plain) EditSample.idle) t /\
  ~ held_back (gesture show_nat KeySample.still EditSample.columnOf EditSample.count EditSample.props
    KeySample.view (PointerDown (EditSample.button true) EditSample.plain) EditSample.idle) t.
Proof.
  split.
  - exact (proj1 (proj1 (first_press_only_focuses show_nat KeySample.still EditSample.columnOf
      EditSample.count EditSample.props KeySample.view (EditSample.button false) EditSample.plain
      EditSample.idle (EditSample.table (mkBound 0 0 0 0)) (EditSample.table (mkBound 0 0 0 0))
      (EditSample.table (mkBound 0 0 0 0)) eq_refl eq_refl eq_refl) eq_refl)).
  - exact (proj1 (proj2 (first_press_only_focuses show_nat KeySample.still EditSample.columnOf
      EditSample.count EditSample.props KeySample.view (EditSample.button true) EditSample.plain
      EditSample.idle (EditSample.table (mkBound 0 0 0 0)) (EditSample.table (mkBound 0 0 0 0))
      (EditSample.table (mkBound 0 0 0 0)) eq_refl eq_refl eq_refl) eq_refl)).
Defined.

(** A drag that starts on an unfocused control and grows the range has its
    click squelched before [handleControlClick] resets the press, so the next
    click without a pointer, Space on a checkbox, is swallowed. *)
Module DragSample.
Definition count (t : @Table unit nat) : nat :=
  foldr (fun b n => S (maxRowIndex b - minRowIndex b) + n) 0 (cellSelectionBounds t).
Definition step (g : Gesture) (t : @Table unit nat) (m : Mouse) : Mouse * list (@Act unit nat) :=
  let r := gesture show_nat KeySample.still EditSample.columnOf count EditSample.props
             KeySample.view g m t in (r.1, r.2.2).
Definition checkbox : PressTarget := EditSample.press None true.
End DragSample.
Lemma stale_press_swallows_key_click :
  let one := EditSample.table (mkBound 0 0 0 0) in
  let two := EditSample.table (mkBound 0 1 0 0) in
  let m1 := (DragSample.step (PointerDown (EditSample.button false) EditSample.plain) one EditSample.idle).1 in
  let m2 := (DragSample.step (MouseDown (EditSample.button false) EditSample.plain) one m1).1 in
  let m3 := (DragSample.step MouseUp two m2).1 in
  let m4 := (DragSample.step (ClickOn (EditSample.button false) EditSample.plain) two m3).1 in
  let m5 := (DragSample.step NextTask two m4).1 in
  (DragSample.step (ClickOn DragSample.checkbox EditSample.plain) two m5).2 =
    [PreventDefault; StopPropagation].
Proof. vm_compute. reflexivity. Qed.

(** The observer's cancel leaves [finishedRef] alone, so a key that arrives
    before the overlay is gone still commits. *)
Lemma cancelled_editor_still_commits :
  writings (EditSample.edit [BodyMutated; EditorKey "new" "Enter" false false]) =
    [mkDetails SrcEdit [mkChange "r0" "name" tt (Text "a") (Text "new")] []].
Proof. vm_compute. reflexivity. Qed.

(** The cut chord clears the region that is selected when the clipboard has
    answered: after the selection moved on, that is not the one it copied. *)
Lemma cut_chord_clears_a_later_selection :
  let copied := Sample.whole (mkBound 0 0 0 0) in
  let later := Sample.whole (mkBound 2 2 0 0) in
  KeySample.log EditSample.props (KeySample.key "x" false true) copied =
    [PreventDefault; WriteClipboard true [["a"]]] /\
  writings (logOf (chord_written KeySample.still EditSample.props KeySample.view true [["a"]]
      (mkPlatform (Some true) None false)) later) =
    [mkDetails SrcCut [mkChange "r2" "name" tt (Text "c") Nul] []].
Proof. split; vm_compute; reflexivity. Qed.
