(* ===== verification/PublicApi.v ===== *)
(** * The public site's server side

    [apps/public/src]: [api.ts] (sign-out, contact links, the locator and the
    sitemap's walk), [upstream.ts] (the body cap), [security-headers.ts],
    [lib/hours.ts], the sitemap and robots routes, the site page's grouping
    and the locator's paging state.  What the API answers to a request is an
    argument ([Upstream]); dates go through [Intl], so the formatted times are
    arguments too. *)
From S2P Require Import Prelude JsString JsValue JsMap ApiClient.
Import Url.

(** ** Requests *)

(** How [fetchWithHost] ends: rejected, or a response with its [Set-Cookie]
    headers and body text. *)
Inductive Upstream :=
| Rejected_
| Responded (status : Z) (setCookie : list string) (body : string).

Record UpstreamRequest := mkUpstream {
  up_path : string; up_method : string; up_headers : list (string * string)
}.

(** [{ ...(host ? { Host: host } : {}), ...(cookie ? { cookie } : {}) }] *)
Definition forwarded (host cookie : option string) : list (string * string) :=
  (if truthy_str host then [("Host", host ?? "")] else []) ++
  (if truthy_str cookie then [("cookie", cookie ?? "")] else []).

(** The [TransformStream]: the chunks let through, and whether it failed. *)
Fixpoint pump (bytes : Z) (chunks : list Z) : list Z * bool :=
  match chunks with
  | [] => ([], false)
  | chunk :: rest =>
      if (4 * 1024 * 1024 <? bytes + chunk)%Z then ([], true)
      else let '(out, failed) := pump (bytes + chunk)%Z rest in (chunk :: out, failed)
  end.

(** ** Session cookies *)

(** What follows [premise_session] in the name: [(?:C\d+)?=]. *)
Fixpoint digits_then_equals (s : string) : bool :=
  match s with
  | String c rest => Ascii.eqb c "=" || (is_digit c && digits_then_equals rest)
  | EmptyString => false
  end.
Definition chunk_suffix (s : string) : bool :=
  match s with
  | String c rest =>
      Ascii.eqb c "=" ||
      (Ascii.eqb c "C" &&
       match rest with String d rest' => is_digit d && digits_then_equals rest' | _ => false end)
  | EmptyString => false
  end.
Definition is_session_cookie (raw : string) : bool :=
  starts_with "premise_session" raw &&
  chunk_suffix (str_drop (String.length "premise_session") raw).

(** The attribute tests, on a segment between semicolons. *)
Definition domain_attribute (segment : string) : bool :=
  starts_with "domain=" (to_lower (trim_start segment)).
Definition secure_attribute (segment : string) : bool :=
  String.eqb (to_lower (trim_start segment)) "secure".
Definition segments (raw : string) : list string := split_char ";" raw.

(** [raw.replace(/;\s*Domain=[^;]*/gi, '')]: a match runs from a semicolon to
    the next one, so it is a segment after the first. *)
Definition host_only (raw : string) : string :=
  match segments raw with
  | [] => raw
  | value :: attributes =>
      join ";" (value :: bfilter (fun a => negb (domain_attribute a)) attributes)
  end.
(** [/;\s*Secure(?:;|$)/i.test(s)] *)
Definition is_secure (s : string) : bool := some secure_attribute (tl (segments s)).

Definition relaySessionCookies (production : bool) (setCookie : list string)
    : result (list string) :=
  let cookies := bfilter is_session_cookie setCookie in
  if negb (some (fun raw => starts_with "premise_session=" raw) cookies)
  then Throw (EMsg "Session cookie missing")
  else Ok (map (fun raw =>
    let hostOnly := host_only raw in
    if production && negb (is_secure hostOnly) then hostOnly +:+ "; Secure" else hostOnly) cookies).

(** [{ ok, error }], and the [Set-Cookie] header the call left on the reply. *)
Record Outcome := mkOutcome {
  o_ok : bool; o_error : option string; o_setCookie : option (list string)
}.

Definition sign_out_request (host cookie : option string) : UpstreamRequest :=
  mkUpstream "/auth/logout" "POST" (forwarded host cookie).
Definition publicSignOut (production : bool) (answer : Upstream) : Outcome :=
  let failed := mkOutcome false
    (Some "We could not confirm sign-out. Your session may still be active. Please try again.") None in
  match answer with
  | Rejected_ => failed
  | Responded status setCookie _ =>
      if negb (status =? 204)%Z then failed
      else match relaySessionCookies production setCookie with
           | Ok cookies => mkOutcome true None (Some cookies)
           | Throw _ => failed
           end
  end.

Definition redeem_request (host : option string) (token : string) : UpstreamRequest :=
  mkUpstream ("/contact/redeem?token=" +:+ encodeURIComponent token) "GET" (forwarded host None).
Definition usable_token (token : val) : option string :=
  match token with
  | VStr t => if Nat.eqb (String.length t) 0 || Nat.ltb 8192 (String.length t) then None else Some t
  | _ => None
  end.
(** [answer] is what the API says to [redeem_request]; unasked without a
    usable token. *)
Definition publicRedeem (production : bool) (token : val) (answer : string -> Upstream) : Outcome :=
  match usable_token token with
  | None => mkOutcome false (Some "this link is not valid") None
  | Some t =>
      let failed := mkOutcome false
        (Some "we could not verify this link right now - try again shortly") None in
      match answer t with
      | Rejected_ => failed
      | Responded status setCookie _ =>
          if negb (status =? 302)%Z then mkOutcome false (Some "this link is not valid") None
          else match relaySessionCookies production setCookie with
               | Ok cookies => mkOutcome true None (Some cookies)
               | Throw _ => failed
               end
      end
  end.

(** ** Reads *)
Definition response_ok (status : Z) : bool := (200 <=? status)%Z && (status <=? 299)%Z.

(** [undefined] ([None]) when the request was aborted, failed, was refused,
    or did not answer JSON. *)
Definition publicApiMaybe (aborted : bool) (answer : Upstream) : option val :=
  if aborted then None
  else match answer with
       | Rejected_ => None
       | Responded status _ body => if response_ok status then json_parse body else None
       end.
Definition publicApi (aborted : bool) (answer : Upstream) (fallback : val) : val :=
  publicApiMaybe aborted answer ?? fallback.

Definition is_hex (c : ascii) : bool :=
  let l := lower_ascii c in is_digit c || str_exists (Ascii.eqb l) "abcdef".
Definition site_id_shape (id : string) : bool :=
  match split_char "-" id with
  | [a; b; c; d; e] =>
      every (str_forall is_hex) [a; b; c; d; e] &&
      bool_decide (map String.length [a; b; c; d; e] = [8; 4; 4; 4; 12])
  | _ => false
  end.
(** The path asked for a site page. *)
Definition publicSite (siteId : val) : result string :=
  match siteId with
  | VStr id => if site_id_shape id then Ok ("/public/sites/" +:+ encodeURIComponent id)
               else Throw (EMsg "Invalid site ID")
  | _ => Throw (EMsg "Invalid site ID")
  end.

Definition locatorPath (near after : val) : string :=
  let query := (if truthy near then [("near", js_String near)] else []) ++
               (if truthy after then [("after", js_String after)] else []) in
  let text := search_text query in
  if String.eqb text "" then "/public/sites" else "/public/sites?" +:+ text.

(** [{ sites: page?.items, next: page?.next ?? null, me }] *)
Definition publicLocator (page : option val) (me : val) : val * val * val :=
  (match page with Some p => prop p "items" | None => VUndef end,
   match page with
   | Some p => if is_nullish (prop p "next") then VNull else prop p "next"
   | None => VNull
   end, me).

(** ** The sitemap's walk *)

(** [seen.has(next)]: a set tells primitives by value; an object parsed from
    another answer is another object. *)
Definition same_primitive (a b : val) : bool :=
  match a, b with
  | VStr s, VStr t => String.eqb s t
  | VNum n, VNum m => num_eq n m
  | VBool x, VBool y => Bool.eqb x y
  | _, _ => false
  end.

Definition sitemap_path (after : val) : string :=
  locatorPath VUndef after +:+ (if truthy after then "&" else "?") +:+ "limit=200".

(** Turn [k] of the loop: [aborted k] is the request's or the deadline's
    signal then, [fetch k path] what [publicApiMaybe] gives. *)
Fixpoint sitemap_loop (budget : nat) (k : nat) (aborted : nat -> bool)
    (fetch : nat -> string -> option val) (all : list val) (after : val) (seen : list val)
    : result (list val) :=
  match budget with
  | 0 => Throw (EMsg "Sitemap page budget exceeded")
  | S budget' =>
      if aborted k then Throw (EAbort VUndef)
      else match fetch k (sitemap_path after) with
           | None => Throw (EMsg "Sitemap unavailable")
           | Some page =>
               match (if truthy page then prop page "items" else VUndef) with
               | VArr items =>
                   if Nat.ltb 200 (length items) then Throw (EMsg "Sitemap unavailable")
                   else
                     let next := prop page "next" in
                     if negb (truthy next) then Ok (all ++ items)
                     else if some (same_primitive next) seen
                     then Throw (EMsg "Repeated sitemap cursor")
                     else sitemap_loop budget' (S k) aborted fetch (all ++ items) next (seen ++ [next])
               | _ => Throw (EMsg "Sitemap unavailable")
               end
           end
  end.
Definition publicSitesAll (aborted : nat -> bool) (fetch : nat -> string -> option val)
    : result (list val) := sitemap_loop 250 0 aborted fetch [] VUndef [].

Record Reply := mkReply {
  r_status : Z; r_headers : list (string * string); r_body : string
}.

Definition escape_xml (u : string) : string :=
  replace_all ">" "&gt;" (replace_all "<" "&lt;" (replace_all "&" "&amp;" u)).
Definition sitemap_urls (host : string) (sites : list val) : list string :=
  ("https://" +:+ host +:+ "/") ::
  map (fun s => "https://" +:+ host +:+ "/sites/" +:+ js_String (prop s "id"))
    (take 49999 sites).
Definition nl : string := str1 lf.
Definition attr (name value : string) : string :=
  name +:+ "=" +:+ str1 dquote +:+ value +:+ str1 dquote.
Definition sitemap_xml (urls : list string) : string :=
  "<?xml " +:+ attr "version" "1.0" +:+ " " +:+ attr "encoding" "UTF-8" +:+ "?>" +:+ nl +:+
  "<urlset " +:+ attr "xmlns" "http://www.sitemaps.org/schemas/sitemap/0.9" +:+ ">" +:+ nl +:+
  join nl (map (fun u => "  <url><loc>" +:+ escape_xml u +:+ "</loc></url>") urls) +:+
  nl +:+ "</urlset>" +:+ nl.
Definition get_sitemap (host : option string) (walk : result (list val)) : Reply :=
  match walk with
  | Throw _ => mkReply 503 [("Cache-Control", "no-store")] "Sitemap temporarily unavailable"
  | Ok sites =>
      mkReply 200 [("Content-Type", "application/xml"); ("Cache-Control", "private, no-store")]
        (sitemap_xml (sitemap_urls (host ?? "localhost") sites))
  end.

Definition get_robots (host : option string) : Reply :=
  mkReply 200 [("Content-Type", "text/plain"); ("Cache-Control", "public, max-age=86400")]
    ("User-agent: *" +:+ nl +:+ "Allow: /" +:+ nl +:+
     "Sitemap: https://" +:+ (host ?? "localhost") +:+ "/sitemap.xml" +:+ nl).

(** ** Security headers *)
Definition publicSecurityHeaders (pathname nonce : string) (development : bool)
    : list (string * string) :=
  [("Content-Security-Policy", join "; " [
     "default-src 'self'";
     "script-src 'self' 'nonce-" +:+ nonce +:+ "'";
     "style-src 'self' 'unsafe-inline'";
     "img-src 'self' https: data: blob:";
     "connect-src 'self'" +:+ (if development then " ws: wss:" else "");
     "object-src 'none'"; "base-uri 'none'"; "form-action 'self'";
     "frame-ancestors " +:+ (if String.eqb pathname "/embed" then "https: http:" else "'none'")]);
   ("X-Content-Type-Options", "nosniff");
   ("Referrer-Policy", "no-referrer");
   ("Permissions-Policy", "camera=(), microphone=(), geolocation=(self)");
   ("Cache-Control", "no-store")].

(** ** Hours *)
Section Hours.
(** [Date.prototype.toLocaleTimeString] and [toLocaleDateString] with the
    options the code passes. *)
Context (timeInZone : string -> string -> bool -> string)
        (dateInZone : Z -> string -> string).

Definition spanLabel (startUtc endUtc zone : string) : string :=
  let start24 := timeInZone startUtc zone false in
  let end24 := timeInZone endUtc zone false in
  if String.eqb start24 "00:00" && String.eqb end24 "23:59" then "Open 24 hours"
  else timeInZone startUtc zone true +:+ " – " +:+ timeInZone endUtc zone true.

Definition isTodayInZone (localDate zone : string) (now : Z) : bool :=
  String.eqb (dateInZone now zone) localDate.

Record SiteWindow := mkWindow { startsAtUtc : string; endsAtUtc : string; localDate : string }.

(** The site page's windows by site-local date, in order of appearance. *)
Definition group_windows (zone : string) (windows : list SiteWindow) : jsmap (list string) :=
  fold_left (fun byDate w =>
    mset byDate (localDate w)
      ((mget byDate (localDate w) ?? []) ++ [spanLabel (startsAtUtc w) (endsAtUtc w) zone]))
    windows [].
End Hours.

(** ** The locator's paging *)
Module Locator.
Section Paging.
Context {Site : Type}.

(** [firstPage] and [firstNext] come with the loader data; a click asks for
    the page after [more.next]. *)
Record State := mkState {
  firstPage : option (list Site); firstNext : option string;
  moreItems : list Site; moreNext : option string;
  loadingMore : bool; asked : list string
}.
Definition init (page : option (list Site)) (next : option string) : State :=
  mkState page next [] next false [].

Inductive Event :=
| Loaded (page : option (list Site)) (next : option string)
| ShowMore
| MoreArrived (items : list Site) (next : option string)
| MoreFailed.

Definition handle (s : State) (e : Event) : State :=
  match e with
  | Loaded page next => mkState page next [] next (loadingMore s) (asked s)
  | ShowMore =>
      match moreNext s with
      | Some cursor =>
          if loadingMore s || String.eqb cursor "" then s
          else mkState (firstPage s) (firstNext s) (moreItems s) (moreNext s) true
                 (asked s ++ [cursor])
      | None => s
      end
  | MoreArrived items next =>
      match asked s with
      | [] => s
      | _ :: rest => mkState (firstPage s) (firstNext s) (moreItems s ++ items) next false rest
      end
  | MoreFailed =>
      match asked s with
      | [] => s
      | _ :: rest => mkState (firstPage s) (firstNext s) (moreItems s) (moreNext s) false rest
      end
  end.
Definition sites (s : State) : option (list Site) :=
  match firstPage s with Some l => Some (l ++ moreItems s) | None => None end.
End Paging.

(** A page asked for before a new search is appended to the new search's
    results: nothing ties the answer to the search it was asked under. *)
Lemma late_page_joins_new_search :
  sites (fold_left handle
    [ShowMore; Loaded (Some ["nearest"]) None; MoreArrived ["bergen"] (Some "c2")]
    (init (Some ["aalesund"]) (Some "c1"))) = Some ["nearest"; "bergen"].
Proof. reflexivity. Qed.
End Locator.
