(* ===== verification/PublicApiLaws.v ===== *)
(** * The properties of the public site's server side

    The sitemap is whole or it is an error; only the API's session cookies
    cross the relay, host-only and secured, and only once the API confirmed. *)
From S2P Require Import Prelude JsString JsValue JsMap ApiClient PublicApi.
Import Url.

(** ** The sitemap's walk *)
Section Walk.
Context (aborted : nat -> bool) (fetch : nat -> string -> option val).

(** [pages] are what the API serves from cursor [after] on: each names the
    next until the last, no cursor comes twice, nothing is aborted. *)
Fixpoint served (k : nat) (after : val) (seen : list val) (pages : list (list val)) : Prop :=
  match pages with
  | [] => False
  | items :: rest =>
      aborted k = false /\
      exists page, fetch k (sitemap_path after) = Some page /\ truthy page = true /\
        prop page "items" = VArr items /\ length items <= 200 /\
        match rest with
        | [] => truthy (prop page "next") = false
        | _ => truthy (prop page "next") = true /\
               some (same_primitive (prop page "next")) seen = false /\
               served (S k) (prop page "next") (seen ++ [prop page "next"]) rest
        end
  end.

Lemma sitemap_loop_spec budget k all after seen out :
  sitemap_loop budget k aborted fetch all after seen = Ok out <->
  exists pages, served k after seen pages /\ length pages <= budget /\ out = all ++ concat pages.
Proof.
  revert k all after seen. induction budget as [|budget IH]; intros k all after seen.
  { split; [done|]. intros ([|] & H & Hl & _); [done|simpl in Hl; lia]. }
  simpl. split.
  - destruct (aborted k) eqn:Ha; [done|].
    destruct (fetch k (sitemap_path after)) as [page|] eqn:Hf; [|done].
    destruct (truthy page) eqn:Ht; [|done].
    destruct (prop page "items") as [| | | | |items| |] eqn:Hi; try done.
    destruct (Nat.ltb 200 (length items)) eqn:Hlen; [done|]. apply Nat.ltb_ge in Hlen.
    destruct (truthy (prop page "next")) eqn:Hn; simpl.
    + destruct (some _ seen) eqn:Hs; [done|]. rewrite IH. intros (pages & Hp & Hl & ->).
      exists (items :: pages). destruct pages as [|p pages]; [done|].
      split_and!; [|simpl in *; lia|simpl; by rewrite <-app_assoc]. split; [done|by exists page].
    + intros [= <-]. exists [items]. split_and!; [|simpl; lia|simpl; by rewrite app_nil_r].
      split; [done|by exists page].
  - intros (pages & Hp & Hl & ->). destruct pages as [|items rest]; [done|].
    destruct Hp as (-> & page & -> & -> & -> & Hlen & Hrest).
    destruct (Nat.ltb_spec 200 (length items)); [lia|].
    destruct rest as [|p rest].
    + rewrite Hrest. simpl. by rewrite app_nil_r.
    + destruct Hrest as (-> & -> & Hrest). simpl. apply IH. exists (p :: rest).
      split_and!; [done|simpl in *; lia|by rewrite <-app_assoc].
Qed.

Lemma served_size k after seen pages : served k after seen pages ->
  length (concat pages) <= 200 * length pages.
Proof.
  revert k after seen. induction pages as [|items rest IH]; intros k after seen; [done|].
  intros (_ & page & _ & _ & _ & Hlen & Hrest). simpl. rewrite length_app.
  destruct rest as [|p rest]; [simpl; lia|]. destruct Hrest as (_ & _ & Hrest).
  specialize (IH _ _ _ Hrest). simpl in *. lia.
Qed.

Lemma xml_safe u c : c = "<"%char \/ c = ">"%char -> lacks c (escape_xml u).
Proof.
  unfold escape_xml. intros [-> | ->]; apply replace_all_out; [done| |done|by left].
  right. apply replace_all_out; [done|by left].
Qed.

(** C30: The sitemap is whole or it is an error: when the API serves its pages
    to the end within the budget, each naming the next and none twice, the
    reply lists every site of every page up to the format's 50,000 addresses;
    in any other case - a page refused, malformed or oversized, a cursor
    repeated, the deadline passed, a 251st page - it is a 503 that no cache
    keeps, and never a partial list. *)
Theorem sitemap_whole_or_error host :
  let reply := get_sitemap host (publicSitesAll aborted fetch) in
  (forall pages, served 0 VUndef [] pages -> length pages <= 250 ->
     let urls := sitemap_urls (host ?? "localhost") (concat pages) in
     reply = mkReply 200 [("Content-Type", "application/xml");
                          ("Cache-Control", "private, no-store")] (sitemap_xml urls) /\
     length urls = S (Nat.min 49999 (length (concat pages))) /\
     length (concat pages) <= 50000) /\
  (~ (exists pages, served 0 VUndef [] pages /\ length pages <= 250) ->
     reply = mkReply 503 [("Cache-Control", "no-store")] "Sitemap temporarily unavailable").
Proof.
  intros reply. subst reply. unfold publicSitesAll. split.
  - intros pages Hp Hl.
    assert (Hok : sitemap_loop 250 0 aborted fetch [] VUndef [] = Ok (concat pages))
      by (apply sitemap_loop_spec; by exists pages).
    rewrite Hok. split_and!; [done| |].
    + unfold sitemap_urls. cbn [length]. by rewrite length_map, length_take.
    + etransitivity; [by eapply served_size|]. transitivity (200 * 250); [lia|].
      apply Nat.leb_le. vm_compute. reflexivity.
  - intros Hno. destruct (sitemap_loop _ _ _ _ _ _ _) as [out|e] eqn:E; [|done].
    apply sitemap_loop_spec in E as (pages & Hp & Hl & _). exfalso. apply Hno. by exists pages.
Qed.
End Walk.

Module SitemapSample.
Definition site (id : string) : val := VObj [("id", VStr id)].
(** Two pages, then nothing. *)
Definition fetch (k : nat) (path : string) : option val :=
  match k with
  | 0 => Some (VObj [("items", VArr [site "a"; site "b"]); ("next", VStr "c1")])
  | 1 => if String.eqb path "/public/sites?after=c1&limit=200"
         then Some (VObj [("items", VArr [site "c"]); ("next", VNull)]) else None
  | _ => None
  end.
End SitemapSample.

Lemma sitemap_whole_or_error_witness :
  r_status (get_sitemap (Some "acme.example")
    (publicSitesAll (fun _ => false) SitemapSample.fetch)) = 200%Z /\
  length (sitemap_urls "acme.example"
    [SitemapSample.site "a"; SitemapSample.site "b"; SitemapSample.site "c"]) = 4.
Proof.
  destruct (proj1 (sitemap_whole_or_error (fun _ => false) SitemapSample.fetch (Some "acme.example"))
    [[SitemapSample.site "a"; SitemapSample.site "b"]; [SitemapSample.site "c"]]) as (H & H' & _).
  - split; [done|]. eexists. split_and!; [reflexivity..|simpl; lia|reflexivity|reflexivity|].
    split; [done|]. eexists. split_and!; [vm_compute; reflexivity|reflexivity..|simpl; lia|reflexivity].
  - simpl. lia.
  - rewrite H. split; [reflexivity|exact H'].
Defined.

(** ** Session cookies *)
Lemma prefix_before c p w s : lacks c p ->
  starts_with p (w +:+ String c s) = starts_with p w.
Proof.
  unfold lacks. revert w. induction p as [|d p IH]; intros w H; [by destruct w|].
  simpl in H. apply orb_false_iff in H as [Hd Hp]. destruct w as [|e w]; simpl.
  - destruct (Ascii.ascii_dec d c) as [->|]; [by rewrite Ascii.eqb_refl in Hd|done].
  - destruct (Ascii.ascii_dec d e); [|done]. by apply IH.
Qed.

Lemma digits_before w s : digits_then_equals (w +:+ String ";" s) = digits_then_equals w.
Proof. induction w as [|c w IH]; [done|]. simpl. by rewrite IH. Qed.

(** Whether a cookie is a session cookie shows in its name. *)
Lemma session_name w s : is_session_cookie (w +:+ String ";" s) = is_session_cookie w.
Proof.
  unfold is_session_cookie. rewrite prefix_before by done.
  destruct (starts_with "premise_session" w) eqn:E; [|done].
  apply starts_with_spec in E as [r ->]. rewrite <-str_app_assoc, !str_drop_app.
  destruct r as [|c [|d r]]; [done|done|]. simpl. by rewrite digits_before.
Qed.

Lemma split_pieces c s : Forall (lacks c) (split_char c s).
Proof.
  induction s as [|d s IH]; simpl; [by repeat constructor|].
  destruct (Ascii.eqb c d) eqn:E; [by constructor|].
  destruct (split_char_cons c s) as (w & ws & Hs). rewrite Hs in *.
  apply Forall_cons in IH as [Hw Hws]. constructor; [|done]. unfold lacks in *. simpl. by rewrite E.
Qed.

Lemma session_join value attributes :
  is_session_cookie (join ";" (value :: attributes)) = is_session_cookie value.
Proof.
  destruct attributes as [|a attributes]; [done|]. rewrite join_cons2. apply session_name.
Qed.
Lemma session_value raw :
  is_session_cookie raw = is_session_cookie (hd "" (segments raw)).
Proof.
  unfold segments. destruct (split_char_cons ";" raw) as (w & ws & Hs).
  rewrite <-(join_split ";" raw) at 1. rewrite Hs. apply session_join.
Qed.

(** The relayed form of a cookie: its value, its attributes without [Domain]. *)
Lemma host_only_segments raw : segments (host_only raw) =
  match segments raw with
  | [] => []
  | value :: attributes => value :: bfilter (fun a => negb (domain_attribute a)) attributes
  end.
Proof.
  unfold host_only, segments. pose proof (split_pieces ";" raw) as Hp.
  destruct (split_char_cons ";" raw) as (w & ws & Hs). rewrite Hs in *.
  apply Forall_cons in Hp as [Hw Hws]. apply split_join; [done|]. constructor; [done|].
  apply Forall_forall. intros a [Ha _]%bfilter_elem. rewrite Forall_forall in Hws. by apply Hws.
Qed.

Lemma split_last c s w : lacks c w ->
  split_char c (s +:+ String c w) = split_char c s ++ [w].
Proof.
  intros Hw. induction s as [|d s IH]; simpl.
  - by rewrite Ascii.eqb_refl, (split_char_lacks _ _ Hw).
  - rewrite IH. destruct (Ascii.eqb c d); [done|].
    destruct (split_char_cons c s) as (v & vs & ->). done.
Qed.

(** A cookie as it may leave: a session cookie of the API's, on this host
    only, and in production over TLS only. *)
Definition relayable (production : bool) (cookie : string) : Prop :=
  is_session_cookie cookie = true /\
  (forall a, a ∈ tl (segments cookie) -> domain_attribute a = false) /\
  (production = true -> is_secure cookie = true).

Lemma host_only_relayable raw : is_session_cookie raw = true ->
  is_session_cookie (host_only raw) = true /\
  (forall a, a ∈ tl (segments (host_only raw)) -> domain_attribute a = false).
Proof.
  intros Hs. rewrite session_value, host_only_segments. rewrite session_value in Hs.
  destruct (segments raw) as [|w ws]; [done|]. split; [done|].
  intros a [_ Ha]%bfilter_elem. by apply negb_true_iff.
Qed.

(** What the relay makes of one of the API's cookies: the same name and value,
    every attribute but [Domain], in order, and in production [Secure] unless
    it has it. *)
Definition carried (production : bool) (raw cookie : string) : Prop :=
  let kept := bfilter (fun a => negb (domain_attribute a)) (tl (segments raw)) in
  relayable production cookie /\
  hd "" (segments cookie) = hd "" (segments raw) /\
  tl (segments cookie) =
    kept ++ (if production && negb (some secure_attribute kept) then [" Secure"] else []).

Lemma host_only_kept raw : exists w ws,
  segments raw = w :: ws /\
  segments (host_only raw) = w :: bfilter (fun a => negb (domain_attribute a)) ws.
Proof.
  rewrite host_only_segments. unfold segments.
  destruct (split_char_cons ";" raw) as (w & ws & Hs). exists w, ws. by rewrite Hs.
Qed.

Lemma secured_carried production raw : is_session_cookie raw = true ->
  carried production raw
    (if production && negb (is_secure (host_only raw)) then host_only raw +:+ "; Secure"
     else host_only raw).
Proof.
  intros Hs. destruct (host_only_relayable raw Hs) as [H1 H2]. unfold carried.
  destruct (host_only_kept raw) as (w & ws & Hraw & Hk). rewrite Hraw. cbv zeta. cbn [hd tl].
  set (kept := bfilter _ ws) in *. unfold is_secure. rewrite Hk. cbn [tl].
  destruct (production && negb (some secure_attribute kept)) eqn:E.
  - change "; Secure" with (String ";" " Secure").
    assert (Hsplit : segments (host_only raw +:+ String ";" " Secure") =
      (w :: kept) ++ [" Secure"]) by (rewrite <-Hk; by apply split_last).
    unfold relayable, is_secure. rewrite session_name, Hsplit. rewrite Hk in H2.
    cbn [hd tl app] in *. split_and!; [done| | |done|done].
    + intros a [Ha|Ha]%elem_of_app; [by apply H2|]. by apply list_elem_of_singleton in Ha as ->.
    + intros _. apply existsb_exists. exists " Secure". split; [|done].
      apply List.in_or_app. right. by left.
  - unfold relayable, is_secure. rewrite Hk in *. cbn [hd tl] in *. rewrite app_nil_r.
    split_and!; [done|done| |done|done]. intros ->. simpl in E. by apply negb_false_iff in E.
Qed.

Lemma main_cookie_session raw : starts_with "premise_session=" raw = true ->
  is_session_cookie raw = true.
Proof. intros [r ->]%starts_with_spec. done. Qed.

Lemma relay_spec production cookies :
  match relaySessionCookies production cookies with
  | Ok out =>
      (exists raw, raw ∈ cookies /\ starts_with "premise_session=" raw = true) /\
      Forall2 (carried production) (bfilter is_session_cookie cookies) out
  | Throw _ => forall raw, raw ∈ cookies -> starts_with "premise_session=" raw = false
  end.
Proof.
  unfold relaySessionCookies. destruct (some _ _) eqn:Hsome; simpl.
  - split.
    + apply existsb_exists in Hsome as (raw & Hin & Hp). exists raw. split; [|done].
      apply list_elem_of_In in Hin. by apply bfilter_elem in Hin as [? _].
    + apply Forall2_fmap_r, Forall_Forall2_diag, Forall_forall. intros raw [_ Hs]%bfilter_elem.
      by apply secured_carried.
  - intros raw Hin. destruct (starts_with _ raw) eqn:E; [|done].
    assert (some (fun raw => starts_with "premise_session=" raw)
      (bfilter is_session_cookie cookies) = true); [|congruence].
    apply existsb_exists. exists raw. split; [|done]. apply list_elem_of_In, bfilter_elem.
    split; [done|]. by apply main_cookie_session.
Qed.

(** What an outcome owes to the API's [answer], when [status] is the one that
    confirms. *)
Definition relays (production : bool) (status : Z) (answer : Upstream) (o : Outcome) : Prop :=
  (o_ok o = true <-> exists cookies body, answer = Responded status cookies body /\
     exists raw, raw ∈ cookies /\ starts_with "premise_session=" raw = true) /\
  (o_ok o = true -> forall cookies body, answer = Responded status cookies body ->
     exists out, o_setCookie o = Some out /\
       Forall2 (carried production) (bfilter is_session_cookie cookies) out) /\
  (o_ok o = false -> o_setCookie o = None /\ is_Some (o_error o)).

Lemma failed_relays production status answer e :
  (forall cookies body raw, answer = Responded status cookies body ->
     raw ∈ cookies -> starts_with "premise_session=" raw = false) ->
  relays production status answer (mkOutcome false (Some e) None).
Proof.
  intros H. unfold relays. simpl. split_and!; [|done|by split].
  split; [done|]. intros (cookies & body & -> & raw & Hin & Hp).
  by rewrite (H _ _ raw eq_refl Hin) in Hp.
Qed.

Lemma ok_relays production status cookies body out :
  relaySessionCookies production cookies = Ok out ->
  relays production status (Responded status cookies body) (mkOutcome true None (Some out)).
Proof.
  intros E. pose proof (relay_spec production cookies) as H. rewrite E in H.
  destruct H as [Hmain Hall]. unfold relays. simpl.
  split_and!; [|intros _ ? ? [= -> ->]; by exists out|done].
  split; [|done]. intros _. by exists cookies, body.
Qed.

Lemma throw_lacks production cookies e raw :
  relaySessionCookies production cookies = Throw e ->
  raw ∈ cookies -> starts_with "premise_session=" raw = false.
Proof. intros E. pose proof (relay_spec production cookies) as H. rewrite E in H. apply H. Qed.

(** C13: The public site hands out the API's session cookies and nothing else,
    and only when the API confirmed.  Sign-out succeeds exactly when the API
    answered 204 with the session cookie among its cookies, and a contact link
    exactly when the token has 1 to 8192 characters and the API answered 302
    with that cookie.  The cookies then set are, one for one and in order, the
    session cookies of that answer (the session cookie and its chunks): each
    keeps its name, value and attributes but for any Domain, with Secure added
    in production where the API left it out.  A failure sets no cookie and
    says why. *)
Theorem sessions_relayed_safely production answer token upstream :
  let joined := publicRedeem production token upstream in
  relays production 204 answer (publicSignOut production answer) /\
  (forall t, token = VStr t -> 1 <= String.length t <= 8192 ->
     relays production 302 (upstream t) joined) /\
  ((forall t, token = VStr t -> ~ (1 <= String.length t <= 8192)) ->
     o_ok joined = false /\ o_setCookie joined = None /\ is_Some (o_error joined)).
Proof.
  cbv zeta. split_and!.
  - unfold publicSignOut. destruct answer as [|status cookies body]; [by apply failed_relays|].
    destruct (Z.eqb_spec status 204) as [->|]; simpl.
    + destruct (relaySessionCookies production cookies) as [out|e] eqn:E; [by apply ok_relays|].
      apply failed_relays. intros ? ? raw [= <- <-]. by eapply throw_lacks.
    + apply failed_relays. intros ? ? ? [= -> _ _]. done.
  - intros t -> Hl. unfold publicRedeem, usable_token.
    destruct (Nat.eqb_spec (String.length t) 0); [lia|].
    destruct (Nat.ltb_spec 8192 (String.length t)); [lia|]. simpl.
    destruct (upstream t) as [|status cookies body]; [by apply failed_relays|].
    destruct (Z.eqb_spec status 302) as [->|]; simpl.
    + destruct (relaySessionCookies production cookies) as [out|e] eqn:E; [by apply ok_relays|].
      apply failed_relays. intros ? ? raw [= <- <-]. by eapply throw_lacks.
    + apply failed_relays. intros ? ? ? [= -> _ _]. done.
  - intros H. unfold publicRedeem. destruct (usable_token token) as [t|] eqn:E; [|by split_and!].
    exfalso. unfold usable_token in E. destruct token as [| | | |t'| | |]; try done.
    destruct (Nat.eqb_spec (String.length t') 0); [done|].
    destruct (Nat.ltb_spec 8192 (String.length t')); [done|]. apply (H t' eq_refl). lia.
Qed.

Module RelaySample.
Definition cookies : list string :=
  ["premise_session=chunks-2; Path=/; domain=api.example"; "other=1";
   "premise_sessionC1=abc; path=/; secure"].
Definition upstream (t : string) : Upstream :=
  if String.eqb t "tok" then Responded 302 cookies "" else Rejected_.
End RelaySample.

Lemma sessions_relayed_safely_witness :
  o_setCookie (publicRedeem true (VStr "tok") RelaySample.upstream) =
    Some ["premise_session=chunks-2; Path=/; Secure"; "premise_sessionC1=abc; path=/; secure"] /\
  exists out, o_setCookie (publicRedeem true (VStr "tok") RelaySample.upstream) = Some out /\
    Forall2 (carried true) (bfilter is_session_cookie RelaySample.cookies) out.
Proof.
  split; [vm_compute; reflexivity|].
  refine (proj1 (proj2 (proj1 (proj2 (sessions_relayed_safely true Rejected_ (VStr "tok")
    RelaySample.upstream)) "tok" eq_refl _)) _ RelaySample.cookies "" _).
  - split; apply Nat.leb_le; reflexivity.
  - vm_compute. reflexivity.
  - reflexivity.
Defined.

(** ** Small guarantees *)

(** The body that gets through is never over the cap. *)
Lemma pump_capped bytes chunks : (bytes <= 4 * 1024 * 1024)%Z ->
  (bytes + fold_right Z.add 0 (pump bytes chunks).1 <= 4 * 1024 * 1024)%Z.
Proof.
  revert bytes. induction chunks as [|chunk rest IH]; intros bytes Hb; [simpl; lia|].
  cbn [pump]. destruct (Z.ltb_spec (4 * 1024 * 1024) (bytes + chunk)); [simpl; lia|].
  specialize (IH (bytes + chunk)%Z ltac:(lia)).
  destruct (pump (bytes + chunk) rest). simpl in *. lia.
Qed.

