(* ===== verification/AppLib.v ===== *)
(** * The console's shared library code

    [apps/console/src/lib] and [apps/console/src/app]: the upload flow
    ([uploads.ts]), the mutation contract ([mutation.ts]), preferences
    ([preference.ts], [scope.tsx]), the tab cache ([persisted.ts]), the theme
    ([theme.ts]), debouncing, the weekly schedule, labels ([format.ts]) and
    the security headers.  Browser storage is an ordered map; that it may be
    absent or full is an argument of the operations that meet it. *)
From S2P Require Import Prelude JsString JsValue JsMap ApiClient.

(** ** Uploads *)
Module Uploads.

(** What the ticket chain does, in order: the network calls, and the phases
    it reports. *)
Inductive Call :=
| Phase (text : string)
| CreateTicket
| PutToStorage (url : string)
| Complete (fileId : string)
| PollStatus (fileId : string).

Record Ticket := mkTicket { fileId : string; ticket_url : string; ticket_method : string }.

(** How the browser's [fetch] to storage ends. *)
Inductive PutResult := PutThrew (cause : val) | PutStatus (status : Z).

(** The answers, as the calls come; the 120-second signal shows as the
    exception a call throws. *)
Record Network := mkNetwork {
  created : result Ticket;
  put : PutResult;
  completed : result unit;
  poll : nat -> result string
}.

Fixpoint poll_loop (fuel attempt : nat) (n : Network) (id : string) : list Call * result string :=
  match fuel with
  | 0 => ([], Throw (EMsg "scan timed out"))
  | S fuel' =>
      match poll n attempt with
      | Throw e => ([PollStatus id], Throw e)
      | Ok status =>
          if String.eqb status "Clean" then ([PollStatus id], Ok id)
          else if String.eqb status "Quarantined"
          then ([PollStatus id], Throw (EMsg "file was quarantined by the scanner"))
          else let '(calls, r) := poll_loop fuel' (S attempt) n id in (PollStatus id :: calls, r)
      end
  end.

Definition upload_ok (status : Z) : bool := (200 <=? status)%Z && (status <=? 299)%Z.

Definition put_calls (t : Ticket) : list Call :=
  [Phase "Requesting upload ticket…"; CreateTicket;
   Phase "Uploading to storage…"; PutToStorage (ticket_url t)].
Definition uploadFile (n : Network) : list Call * result string :=
  match created n with
  | Throw e => ([Phase "Requesting upload ticket…"; CreateTicket], Throw e)
  | Ok t =>
      let before := put_calls t in
      match put n with
      | PutThrew cause =>
          (before, Throw (EApi (newApiError 0 (VObj [("error", VStr
             "Upload interrupted. It may have completed at storage. Refresh before retrying.")])
             cause true None)))
      | PutStatus status =>
          if negb (upload_ok status)
          then (before, Throw (EMsg ("Upload failed (HTTP " +:+ show_Z status +:+
                                     "). Please try again.")))
          else match completed n with
               | Throw e => (before ++ [Complete (fileId t)], Throw e)
               | Ok _ =>
                   let '(calls, r) := poll_loop 60 0 n (fileId t) in
                   (before ++ [Complete (fileId t); Phase "Scanning…"] ++ calls, r)
               end
      end
  end.

(** The scan's answers up to the deciding one. *)
Definition scanning (n : Network) (from k : nat) : Prop :=
  forall m, from <= m < k -> exists s, poll n m = Ok s /\ s <> "Clean" /\ s <> "Quarantined".

Lemma poll_clean fuel attempt n id :
  (exists calls, poll_loop fuel attempt n id = (calls, Ok id)) <->
  exists k, attempt <= k < attempt + fuel /\ poll n k = Ok "Clean" /\ scanning n attempt k.
Proof.
  revert attempt. induction fuel as [|fuel IH]; intros attempt; simpl.
  { split; [by intros [? ?]|intros (k & ? & _); lia]. }
  destruct (poll n attempt) as [status|e] eqn:Hp.
  2:{ split; [by intros [? ?]|]. intros (k & Hk & Hc & Hs).
      destruct (decide (k = attempt)) as [->|]; [by rewrite Hp in Hc|].
      destruct (Hs attempt) as (s & Hs' & _); [lia|by rewrite Hp in Hs']. }
  destruct (String.eqb_spec status "Clean") as [->|Hclean].
  { split; [|by eexists]. intros _. exists attempt. split_and!; [lia|lia|done|].
    intros m Hm. lia. }
  destruct (String.eqb_spec status "Quarantined") as [->|Hq].
  { split; [by intros [? ?]|]. intros (k & Hk & Hc & Hs).
    destruct (decide (k = attempt)) as [->|]; [by rewrite Hp in Hc|].
    destruct (Hs attempt) as (s & Hs' & _ & Hn); [lia|]. rewrite Hp in Hs'. by injection Hs' as <-. }
  specialize (IH (S attempt)). destruct (poll_loop fuel (S attempt) n id) as [calls r].
  split.
  - intros [calls' [= _ ->]]. destruct IH as [IH _].
    destruct IH as (k & Hk & Hc & Hs); [by eexists|]. exists k. split_and!; [lia|lia|done|].
    intros m Hm. destruct (decide (m = attempt)) as [->|]; [by exists status|]. apply Hs. lia.
  - intros (k & Hk & Hc & Hs). destruct IH as [_ IH].
    destruct (decide (k = attempt)) as [->|]; [by rewrite Hp in Hc; injection Hc|].
    destruct IH as [calls' [= -> ->]]; [|by eexists].
    exists k. split_and!; [lia|lia|done|]. intros m Hm. apply Hs. lia.
Qed.

Lemma poll_result fuel attempt n id calls r id' :
  poll_loop fuel attempt n id = (calls, r) ->
  (r = Ok id' -> id' = id) /\ Forall (fun c => c = PollStatus id) calls /\ length calls <= fuel.
Proof.
  revert attempt calls r. induction fuel as [|fuel IH]; intros attempt calls r; simpl.
  { intros [= <- <-]. done. }
  destruct (poll n attempt) as [status|]; [|intros [= <- <-]; split_and!; [done|by constructor|simpl; lia]].
  destruct (String.eqb _ _); [intros [= <- <-]; split_and!; [congruence|by constructor|simpl; lia]|].
  destruct (String.eqb _ _); [intros [= <- <-]; split_and!; [done|by constructor|simpl; lia]|].
  destruct (poll_loop fuel (S attempt) n id) as [calls' r'] eqn:E. intros [= <- <-].
  destruct (IH _ _ _ E) as (H1 & H2 & H3). split_and!; [done|by constructor|simpl; lia].
Qed.

(** C31: An upload returns the ticket's file, and does so exactly when storage
    took the bytes, the server was told, and one of at most sixty polls came
    back clean with nothing but pending answers before it; nothing is marked
    complete and no status is asked before storage accepted, and only a lost
    connection to storage leaves the outcome of the upload itself open. *)
Theorem upload_returns_scanned_file n t status :
  created n = Ok t ->
  let '(calls, r) := uploadFile n in
  (r = Ok (fileId t) <->
     (exists s, put n = PutStatus s /\ upload_ok s = true) /\ completed n = Ok tt /\
     exists k, k < 60 /\ poll n k = Ok "Clean" /\ scanning n 0 k) /\
  (forall id, r = Ok id -> id = fileId t) /\
  length calls <= 66 /\
  (put n = PutStatus status -> upload_ok status = false ->
     calls = put_calls t /\
     r = Throw (EMsg ("Upload failed (HTTP " +:+ show_Z status +:+ "). Please try again."))) /\
  (forall cause, put n = PutThrew cause ->
     calls = put_calls t /\
     exists e, r = Throw (EApi e) /\ outcomeUnknown e = true /\ ApiClient.Errors.status e = 0%Z).
Proof.
  intros Ht. unfold uploadFile. rewrite Ht.
  destruct (put n) as [cause|s] eqn:Hput.
  { split_and!; [|done|simpl; lia|done|].
    - split; [done|]. by intros ((s & Hs & _) & _).
    - intros ? _. split; [done|]. by eexists. }
  destruct (upload_ok s) eqn:Hs; cbn [negb].
  2:{ split_and!; [|done|simpl; lia|by intros [= ->]|done].
      split; [done|]. intros ((s' & [= <-] & Hs') & _). congruence. }
  destruct (completed n) as [[]|e] eqn:Hc.
  2:{ split_and!; [|done|simpl; lia|intros [= ->]; congruence|done]. split; [done|]. by intros (_ & H & _). }
  pose proof (poll_clean 60 0 n (fileId t)) as Hclean.
  destruct (poll_loop 60 0 n (fileId t)) as [calls r] eqn:E. cbv beta iota.
  split_and!.
  - split.
    + intros ->. split_and!; [by exists s|done|].
      destruct (proj1 Hclean) as (k & Hk & Hp & Hsc); [by eexists|]. exists k. split_and!; [lia|done|done].
    + intros (_ & _ & k & Hk & Hp & Hsc). destruct (proj2 Hclean) as [calls' [= _ ->]]; [|done].
      exists k. split_and!; [lia|lia|done|done].
  - intros id Hid. by apply (poll_result _ _ _ _ _ _ id E).
  - simpl. destruct (poll_result _ _ _ _ _ _ "" E) as (_ & _ & H). lia.
  - intros [= ->]. congruence.
  - done.
Qed.
Lemma upload_returns_scanned_file_witness :
  let n := mkNetwork (Ok (mkTicket "f1" "https://store/f1" "PUT")) (PutStatus 200) (Ok tt)
    (fun k => Ok (if Nat.ltb k 3 then "Scanning" else "Clean")) in
  snd (uploadFile n) = Ok "f1" /\ length (fst (uploadFile n)) <= 66.
Proof.
  split; [vm_compute; reflexivity|].
  pose proof (upload_returns_scanned_file
    (mkNetwork (Ok (mkTicket "f1" "https://store/f1" "PUT")) (PutStatus 200) (Ok tt)
      (fun k => Ok (if Nat.ltb k 3 then "Scanning" else "Clean")))
    (mkTicket "f1" "https://store/f1" "PUT") 200 eq_refl) as (_ & _ & H & _).
  exact H.
Defined.
End Uploads.

(** ** Mutations *)
Module Mutations.

(** [apiError(error, fallback)]; [apiProblem] answers an object. *)
Definition apiError (error : exn) (fallback : string) : string :=
  match error with
  | EApi e =>
      let text := if starts_with "API " (ApiClient.Errors.message e) then fallback
                  else ApiClient.Errors.message e in
      match apiProblem (ApiClient.Errors.body e) with
      | Some problem =>
          match prop problem "traceId" with
          | VStr (String _ _ as traceId) => text +:+ " (trace " +:+ traceId +:+ ")"
          | _ => text
          end
      | None => text
      end
  | _ => fallback
  end.

Definition retry (failureCount : nat) (error : exn) : bool :=
  Nat.ltb failureCount 1 && isTransient error.
(** In seconds; the code multiplies by 1000. *)
Definition retryDelay (error : exn) : num :=
  match error with
  | EApi e => retryAfterSeconds e ?? num_nat 1
  | _ => num_nat 1
  end.

(** What a run of [useApiMutation] does: the attempts, the waits between
    them, then the callbacks of its end. *)
Inductive Step :=
| Attempt (k : nat)
| Wait (seconds : num)
| InvalidateQueries (key : list string)
| ToastSuccess (text : string)
| ToastError (text : string)
| OnSuccess
| OnError.

Record Options := mkOptions {
  invalidate : list (list string); success : option string;
  errorFallback : option string; hasOnSuccess : bool; hasOnError : bool
}.

Definition onSuccess (o : Options) : list Step :=
  map InvalidateQueries (invalidate o) ++
  (if truthy_str (success o) then [ToastSuccess (success o ?? "")] else []) ++
  (if hasOnSuccess o then [OnSuccess] else []).
Definition onError (o : Options) (error : exn) : list Step :=
  ToastError (apiError error (errorFallback o ?? "Request failed")) ::
  (if hasOnError o then [OnError] else []).

(** React Query's loop over [retry] and [retryDelay]: [call k] is how the
    k-th attempt ends.  [retry] refuses a second failure, so two turns are
    enough fuel. *)
Fixpoint attempts {A} (fuel k : nat) (o : Options) (call : nat -> result A) : list Step :=
  match fuel with
  | 0 => []
  | S fuel' =>
      Attempt k ::
      match call k with
      | Ok _ => onSuccess o
      | Throw e => if retry k e then Wait (retryDelay e) :: attempts fuel' (S k) o call
                   else onError o e
      end
  end.
Definition run {A} (o : Options) (call : nat -> result A) : list Step := attempts 2 0 o call.

(** Fuel is never what ends a run. *)
Lemma run_enough {A} fuel o (call : nat -> result A) : attempts (S (S fuel)) 0 o call = run o call.
Proof.
  unfold run. cbn [attempts]. destruct (call 0) as [|e]; [done|].
  destruct (retry 0 e); [|done]. destruct (call 1) as [|e']; [done|].
  by destruct (retry 1 e') eqn:E.
Qed.

Definition is_attempt (s : Step) : bool := match s with Attempt _ => true | _ => false end.
Lemma callbacks_no_attempt o e :
  bfilter is_attempt (onSuccess o) = [] /\ bfilter is_attempt (onError o e) = [].
Proof.
  unfold onSuccess, onError. split.
  - rewrite !List.filter_app. assert (H : bfilter is_attempt (map InvalidateQueries (invalidate o)) = []).
    { by induction (invalidate o). }
    rewrite H. by destruct (truthy_str _), (hasOnSuccess o).
  - by destruct (hasOnError o).
Qed.

(** A mutation is sent at most twice, and a second time only after a 503 that
    named a delay. *)
Lemma retried_once {A} o (call : nat -> result A) :
  bfilter is_attempt (run o call) = [Attempt 0] \/
  (bfilter is_attempt (run o call) = [Attempt 0; Attempt 1] /\
   exists e s, call 0 = Throw (EApi e) /\ ApiClient.Errors.status e = 503%Z /\
     retryAfterSeconds e = Some s /\ Wait s ∈ run o call).
Proof.
  unfold run. cbn [attempts]. cbn [List.filter is_attempt].
  destruct (call 0) as [a|e]; [left; f_equal; by apply (callbacks_no_attempt o (EMsg ""))|].
  unfold retry. change (Nat.ltb 0 1) with true. change (Nat.ltb 1 1) with false. cbn [andb].
  destruct (isTransient e) eqn:Ht; [|left; f_equal; apply callbacks_no_attempt].
  right. unfold isTransient in Ht. destruct e as [e| |]; [|done..].
  apply andb_true_iff in Ht as [Hs Hr]. apply Z.eqb_eq in Hs.
  destruct (retryAfterSeconds e) as [s|] eqn:Hra; [|done]. split.
  - cbn [List.filter is_attempt]. do 2 f_equal.
    destruct (call 1) as [a|e']; [by apply (callbacks_no_attempt o (EMsg ""))|].
    apply callbacks_no_attempt.
  - exists e, s. split_and!; [done|done|done|]. simpl. rewrite Hra. set_solver.
Qed.
End Mutations.

(** ** Browser storage *)
Module Storage.
Definition PREFIX : string := "premise.".

(** [store] is [None] where storage is refused. *)
Definition readPreference (store : option (jsmap string)) (key : string) (fallback : val) : val :=
  match store with
  | Some m => match mget m (PREFIX +:+ key) with
              | None => fallback
              | Some raw => json_parse raw ?? fallback
              end
  | None => fallback
  end.
(** [room] is false where [setItem] throws. *)
Definition writePreference (store : option (jsmap string)) (room : bool) (key : string)
    (value : val) : option (jsmap string) :=
  match store with
  | None => None
  | Some m =>
      if is_nullish value then Some (mdel m (PREFIX +:+ key))
      else match stringify value with
           | Some text => Some (if room then mset m (PREFIX +:+ key) text else m)
           | None => Some m
           end
  end.

(** [scope.tsx]: the preference a scope is kept under. *)
Definition scope_key (orgId : string) : string := "scope." +:+ orgId.

(** A preference for one organization is no other's. *)
Lemma scope_apart m room a b v fallback : a <> b ->
  readPreference (writePreference (Some m) room (scope_key a) v) (scope_key b) fallback =
  readPreference (Some m) (scope_key b) fallback.
Proof.
  intros Hne. assert (Hk : PREFIX +:+ scope_key a <> PREFIX +:+ scope_key b).
  { intros H. apply str_app_inj_l, str_app_inj_l in H. done. }
  unfold writePreference. destruct (is_nullish v).
  - unfold readPreference. by rewrite mget_del_ne.
  - destruct (stringify v); [|done]. destruct room; [|done].
    unfold readPreference. by rewrite mget_set_ne.
Qed.

(** [persisted(key)]. *)
Definition MAX_BYTES : Z := 256 * 1024.
Definition full_key (key : string) : string := "premise.cache." +:+ key.
Definition persisted_read (store : option (jsmap string)) (key : string) : option val :=
  match store with
  | None => None
  | Some m =>
      match mget m (full_key key) with
      | None | Some EmptyString => None
      | Some raw =>
          match json_parse raw with
          | Some parsed => match prop parsed "at" with VNum _ => Some parsed | _ => None end
          | None => None
          end
      end
  end.
Definition persisted_write (store : option (jsmap string)) (room : bool) (key : string)
    (data : val) (now : num) : option (jsmap string) :=
  match store with
  | None => None
  | Some m =>
      match stringify (VObj [("data", data); ("at", VNum now)]) with
      | None => Some m
      | Some json =>
          if (MAX_BYTES <? Z.of_nat (String.length json))%Z then Some (mdel m (full_key key))
          else Some (if room then mset m (full_key key) json else m)
      end
  end.

Definition private_key (key : string) : bool := starts_with "premise.cache.hierarchy." key.
Definition clearPrivateCache (store : option (jsmap string)) : option (jsmap string) :=
  match store with
  | None => None
  | Some m => Some (fold_left (fun m key => if private_key key then mdel m key else m) (mkeys m) m)
  end.

Lemma clear_fold keys (m : jsmap string) k : NoDup (mkeys m) ->
  mget (fold_left (fun m key => if private_key key then mdel m key else m) keys m) k =
  if bool_decide (k ∈ keys) && private_key k then None else mget m k.
Proof.
  revert m. induction keys as [|key keys IH]; intros m Hm; [done|]. simpl.
  rewrite IH by (destruct (private_key key); [by apply mdel_NoDup|done]).
  destruct (decide (k = key)) as [->|Hne].
  - rewrite (bool_decide_true (key ∈ key :: keys)) by set_solver. simpl.
    destruct (private_key key) eqn:E; [|by rewrite andb_false_r].
    rewrite mget_del, String.eqb_refl by done. by destruct (_ && _).
  - rewrite (bool_decide_ext (k ∈ key :: keys) (k ∈ keys)) by set_solver.
    destruct (_ && _); [done|]. destruct (private_key key); [|done].
    by rewrite mget_del_ne.
Qed.

(** After a clear no private entry can be read, and nothing else moved. *)
Lemma clear_private m m' k : NoDup (mkeys m) -> clearPrivateCache (Some m) = Some m' ->
  mget m' k = if private_key k then None else mget m k.
Proof.
  intros Hm [= <-]. rewrite clear_fold by done. destruct (private_key k); [|by rewrite andb_false_r].
  rewrite andb_true_r. destruct (bool_decide (k ∈ mkeys m)) eqn:E; [done|].
  apply bool_decide_eq_false in E. destruct (mget m k) eqn:Hk; [|done].
  exfalso. apply E, mget_keys. by eexists.
Qed.
End Storage.

(** ** Theme *)
Module ThemeState.
Inductive Theme := Dark | Light.
(** The root element's class, and the stored choice; [None]: no storage. *)
Record Page := mkPage { dark_class : bool; stored : option (option string) }.

Definition currentTheme (p : Page) : Theme := if dark_class p then Dark else Light.
Definition theme_name (t : Theme) : string := match t with Dark => "dark" | Light => "light" end.
Definition applyStoredTheme (p : Page) : Page :=
  match stored p with
  | Some (Some s) =>
      let d := if String.eqb s "light" then false else dark_class p in
      mkPage (if String.eqb s "dark" then true else d) (stored p)
  | _ => p
  end.
Definition toggleTheme (p : Page) : Page * Theme :=
  let next := match currentTheme p with Dark => Light | Light => Dark end in
  (mkPage (match next with Dark => true | Light => false end)
     (match stored p with Some _ => Some (Some (theme_name next)) | None => None end), next).

(** A choice survives a reload, whatever class the document ships with, and
    toggling twice is no change. *)
Lemma theme_survives_reload p shipped : stored p <> None ->
  currentTheme (applyStoredTheme (mkPage shipped (stored (fst (toggleTheme p))))) =
  snd (toggleTheme p).
Proof. destruct p as [[] [[]|]], shipped; done. Qed.
Lemma theme_toggle_twice p : dark_class (fst (toggleTheme (fst (toggleTheme p)))) = dark_class p.
Proof. by destruct p as [[] ?]. Qed.
End ThemeState.

(** ** Debouncing, schedules, labels *)
Module Small.
(** [useDebounced]: the settled value and the pending timer's. *)
Record Debounce (A : Type) := mkDebounce { settled : A; timer : option A }.
Arguments mkDebounce {A}.
Arguments settled {A}.
Arguments timer {A}.
Definition debounce_change {A} (d : Debounce A) (value : A) : Debounce A :=
  mkDebounce (settled d) (Some value).
Definition debounce_fire {A} (d : Debounce A) : Debounce A :=
  mkDebounce (timer d ?? settled d) None.

Lemma debounce_settles {A} (d : Debounce A) values v :
  settled (debounce_fire (fold_left debounce_change (values ++ [v]) d)) = v.
Proof. by rewrite fold_left_app. Qed.

Inductive DayCode := MO | TU | WE | TH | FR | SA | SU.
Definition day_index (d : DayCode) : nat :=
  match d with MO => 0 | TU => 1 | WE => 2 | TH => 3 | FR => 4 | SA => 5 | SU => 6 end.
Definition day_name (d : DayCode) : string :=
  match d with
  | MO => "MO" | TU => "TU" | WE => "WE" | TH => "TH" | FR => "FR" | SA => "SA" | SU => "SU"
  end.
(** [.sort], stable. *)
Fixpoint insert_day (d : DayCode) (l : list DayCode) : list DayCode :=
  match l with
  | [] => [d]
  | e :: rest => if Nat.leb (day_index d) (day_index e) then d :: l else e :: insert_day d rest
  end.
Definition sort_days (days : list DayCode) : list DayCode := fold_right insert_day [] days.

(** [new Date(ms).toISOString().slice(0, 10)] for the years 0 to 9999: the
    civil date of a day count from 1970-01-01. *)
Definition civil (days : Z) : Z * Z * Z :=
  let z := (days + 719468)%Z in
  let era := (z / 146097)%Z in
  let doe := (z - era * 146097)%Z in
  let yoe := ((doe - doe / 1460 + doe / 36524 - doe / 146096) / 365)%Z in
  let doy := (doe - (365 * yoe + yoe / 4 - yoe / 100))%Z in
  let mp := ((5 * doy + 2) / 153)%Z in
  let d := (doy - (153 * mp + 2) / 5 + 1)%Z in
  let m := (if mp <? 10 then mp + 3 else mp - 9)%Z in
  ((yoe + era * 400 + (if m <=? 2 then 1 else 0))%Z, m, d).
Definition iso_date (ms : Z) : string :=
  let '(y, m, d) := civil (ms / 86400000) in
  pad_left 4 (show_Z y) +:+ "-" +:+ pad_left 2 (show_Z m) +:+ "-" +:+ pad_left 2 (show_Z d).
Definition weeklySchedule (days : list DayCode) (now : Z) : string * string :=
  ("FREQ=WEEKLY;BYDAY=" +:+ join "," (map day_name (sort_days days)),
   iso_date (now - 7 * 86400000)).

Example anchor_is_a_week_back :
  weeklySchedule [FR; MO] 1709251200000 = ("FREQ=WEEKLY;BYDAY=MO,FR", "2024-02-23").
Proof. vm_compute. reflexivity. Qed.

Lemma insert_day_perm d l : Permutation (insert_day d l) (d :: l).
Proof.
  induction l as [|e l IH]; [done|]. simpl. destruct (Nat.leb _ _); [done|].
  rewrite IH. constructor.
Qed.
Lemma sort_days_perm days : Permutation (sort_days days) days.
Proof. induction days as [|d days IH]; [done|]. simpl. by rewrite insert_day_perm, IH. Qed.

Definition ENTITLEMENT_LABELS : jsmap string :=
  [("audit.read_logging", "Read-access logging");
   ("audit.retention_days", "Audit retention (days)");
   ("contact_links.enabled", "Contact links");
   ("contact_links.monthly", "Contact links / month");
   ("hierarchy.depth", "Hierarchy depth");
   ("reports.enabled", "Report generation");
   ("reports.monthly", "PDF reports / UTC month");
   ("sites.max", "Site limit");
   ("sso.enabled", "Single sign-on")].
Definition entitlementLabel (code : string) : string := mget ENTITLEMENT_LABELS code ?? code.
Definition eventLabel (code : string) : string :=
  match replace_all "_" " " (replace_all "." " " code) with
  | String c rest => String (upper_ascii c) rest
  | EmptyString => ""
  end.

Definition consoleSecurityHeaders (development : bool) : list (string * string) :=
  [("Content-Security-Policy", join "; " [
     "default-src 'self'";
     "script-src 'self'" +:+ (if development then " 'unsafe-inline'" else "");
     "style-src 'self' 'unsafe-inline'"; "img-src 'self' https: data: blob:";
     "connect-src 'self' https:" +:+ (if development then " ws: wss:" else "");
     "worker-src 'self' blob:"; "object-src 'none'"; "base-uri 'none'";
     "form-action 'self'"; "frame-ancestors 'none'"]);
   ("X-Content-Type-Options", "nosniff");
   ("X-Frame-Options", "DENY");
   ("Referrer-Policy", "no-referrer");
   ("Permissions-Policy", "camera=(), microphone=(), geolocation=(self)")].
End Small.
