(* ===== verification/FileUpload.v ===== *)
(** * The file upload hook

    [packages/ui/src/hooks/use-file-upload.ts]: the state, every action, and
    the object URLs it creates and revokes.  An action reads the files of the
    render it was created in ([closure]) and updates the current state; the
    callbacks it makes are returned in order.  [formatBytes] prints a size
    through a logarithm in floating point and appears in messages only, so it
    is an argument; so is the random part of a generated id. *)
From S2P Require Import Prelude JsString JsValue.

(** A [File] of the browser, or the metadata of one uploaded before. *)
Inductive FileKind := BrowserFile | Metadata (url id : string).
Record UploadedFile := mkUploaded {
  uf_kind : FileKind; uf_name : string; uf_size : num; uf_type : string
}.
Record FileWithPreview := mkPreview {
  fp_file : UploadedFile; fp_id : string; fp_preview : option string
}.
Record FileUploadState := mkState {
  files : list FileWithPreview; isDragging : bool; errors : list string
}.
Inductive Callback :=
| OnFilesChange (files : list FileWithPreview)
| OnFilesAdded (added : list FileWithPreview)
| OnError (errors : list string).

(** The object URLs made so far, by number, and those still alive. *)
Record Urls := mkUrls { issued : nat; live : list string }.
Definition object_url (n : nat) : string := "blob:" +:+ show_nat n.
Definition createObjectURL (u : Urls) : string * Urls :=
  (object_url (issued u), mkUrls (S (issued u)) (live u ++ [object_url (issued u)])).
Definition revokeObjectURL (url : string) (u : Urls) : Urls :=
  mkUrls (issued u) (bfilter (fun l => negb (String.eqb l url)) (live u)).

Section Hook.
(** The options: [maxFiles] is [None] for infinity. *)
Context (maxFiles : option nat) (maxSize : num) (accept : string) (multiple : bool)
        (formatBytes : num -> string) (generated : nat -> string -> string).

Definition initial (initialFiles : list UploadedFile) : FileUploadState :=
  mkState (map (fun f => match uf_kind f with
                         | Metadata url id => mkPreview f id (Some url)
                         | BrowserFile => mkPreview f "" None
                         end) initialFiles) false [].

Definition too_large (f : UploadedFile) : bool := num_lt maxSize (uf_size f).

(** [name.split(".").pop()] *)
Definition file_extension (name : string) : string :=
  "." +:+ (last (split_char "." name) ?? "").
Definition type_accepted (f : UploadedFile) (type : string) : bool :=
  if starts_with "." type
  then String.eqb (to_lower (file_extension (uf_name f))) (to_lower type)
  else if ends_with "/*" type
  then starts_with (hd "" (split_char "/" type) +:+ "/") (uf_type f)
  else String.eqb (uf_type f) type.
Definition isAccepted (f : UploadedFile) : bool :=
  String.eqb accept "*" ||
  some (fun type => type_accepted f type) (map trim (split_char "," accept)).

Definition quoted (name : string) : string := str1 dquote +:+ name +:+ str1 dquote.
Definition validateFile (f : UploadedFile) : option string :=
  if too_large f
  then Some ("File " +:+ quoted (uf_name f) +:+ " exceeds the maximum size of " +:+
             formatBytes maxSize +:+ ".")
  else if negb (isAccepted f)
  then Some ("File " +:+ quoted (uf_name f) +:+ " is not an accepted file type.")
  else None.

Definition generateUniqueId (n : nat) (f : UploadedFile) : string :=
  match uf_kind f with Metadata _ id => id | BrowserFile => generated n (uf_name f) end.
Definition createPreview (f : UploadedFile) (u : Urls) : option string * Urls :=
  match uf_kind f with
  | Metadata url _ => (Some url, u)
  | BrowserFile => let '(url, u') := createObjectURL u in (Some url, u')
  end.

(** Only a browser file with an image type is revoked. *)
Definition revoke_preview (f : FileWithPreview) (u : Urls) : Urls :=
  match fp_preview f, uf_kind (fp_file f) with
  | Some (String _ _ as url), BrowserFile =>
      if starts_with "image/" (uf_type (fp_file f)) then revokeObjectURL url u else u
  | _, _ => u
  end.

Definition clearFiles (s : FileUploadState) (u : Urls)
    : FileUploadState * Urls * list Callback :=
  (mkState [] (isDragging s) [], fold_left (fun u f => revoke_preview f u) (files s) u,
   [OnFilesChange []]).

Definition with_errors (s : FileUploadState) (errors : list string) : FileUploadState :=
  mkState (files s) (isDragging s) errors.

Definition is_duplicate (closure : list FileWithPreview) (f : UploadedFile) : bool :=
  some (fun e => String.eqb (uf_name (fp_file e)) (uf_name f) &&
                 num_eq (uf_size (fp_file e)) (uf_size f)) closure.

(** The loop over the new files; [None]: the [return] on a duplicate. *)
Fixpoint validate_files (closure : list FileWithPreview) (newFiles : list UploadedFile)
    (u : Urls) (errors : list string) (valid : list FileWithPreview)
    : option (list string * list FileWithPreview) * Urls :=
  match newFiles with
  | [] => (Some (errors, valid), u)
  | f :: rest =>
      if multiple && is_duplicate closure f then (None, u)
      else if too_large f
      then validate_files closure rest u
             (errors ++ [(if multiple then "Some files exceed the maximum size of "
                          else "File exceeds the maximum size of ") +:+
                         formatBytes maxSize +:+ "."]) valid
      else match validateFile f with
           | Some e => validate_files closure rest u (errors ++ [e]) valid
           | None =>
               let id := generateUniqueId (issued u) f in
               let '(preview, u') := createPreview f u in
               validate_files closure rest u' errors (valid ++ [mkPreview f id preview])
           end
  end.

Definition over_limit (closure : list FileWithPreview) (newFiles : list UploadedFile) : bool :=
  match maxFiles with
  | Some limit => multiple && Nat.ltb limit (length closure + length newFiles)
  | None => false
  end.

Definition addFiles (closure : list FileWithPreview) (s : FileUploadState) (u : Urls)
    (newFiles : list UploadedFile) : FileUploadState * Urls * list Callback :=
  match newFiles with
  | [] => (s, u, [])
  | _ =>
      let s1 := with_errors s [] in
      let '(s2, u2, before) := if multiple then (s1, u, []) else clearFiles s1 u in
      if over_limit closure newFiles then
        let errors := ["You can only upload a maximum of " +:+
                       show_nat (maxFiles ?? 0) +:+ " files."] in
        (with_errors s2 errors, u2, before ++ [OnError errors])
      else
        match validate_files closure newFiles u2 [] [] with
        | (None, u3) => (s2, u3, before)
        | (Some (errors, valid), u3) =>
            if negb (Nat.eqb (length valid) 0) then
              let next := if multiple then files s2 ++ valid else valid in
              (mkState next (isDragging s2) errors, u3,
               before ++ [OnFilesAdded valid; OnFilesChange next])
            else if negb (Nat.eqb (length errors) 0)
            then (with_errors s2 errors, u3, before ++ [OnError errors])
            else (s2, u3, before)
        end
  end.

Definition removeFile (s : FileUploadState) (u : Urls) (id : string)
    : FileUploadState * Urls * list Callback :=
  let u' := match js_find (fun f => String.eqb (fp_id f) id) (files s) with
            | Some f => revoke_preview f u
            | None => u
            end in
  let next := bfilter (fun f => negb (String.eqb (fp_id f) id)) (files s) in
  (mkState next (isDragging s) [], u', [OnFilesChange next]).

Definition clearErrors (s : FileUploadState) : FileUploadState := with_errors s [].
Definition set_dragging (s : FileUploadState) (b : bool) : FileUploadState :=
  mkState (files s) b (errors s).

(** The user's events; a drop and a choice carry the files, a drag leaving
    says whether it only entered a child of the drop zone. *)
Inductive Event :=
| DragEnter | DragLeave (intoChild : bool) | Drop (disabled : bool) (dropped : list UploadedFile)
| FileChange (chosen : list UploadedFile) | AddFiles (added : list UploadedFile)
| RemoveFile (id : string) | ClearFiles | ClearErrors.

Definition handleDrop (closure : list FileWithPreview) (s : FileUploadState) (u : Urls)
    (disabled : bool) (dropped : list UploadedFile) : FileUploadState * Urls * list Callback :=
  let s' := set_dragging s false in
  if disabled then (s', u, [])
  else match dropped with
       | [] => (s', u, [])
       | first :: _ => addFiles closure s' u (if multiple then dropped else [first])
       end.

Definition handle (closure : list FileWithPreview) (s : FileUploadState) (u : Urls) (e : Event)
    : FileUploadState * Urls * list Callback :=
  match e with
  | DragEnter => (set_dragging s true, u, [])
  | DragLeave intoChild => (if intoChild then s else set_dragging s false, u, [])
  | Drop disabled dropped => handleDrop closure s u disabled dropped
  | FileChange chosen => addFiles closure s u chosen
  | AddFiles added => addFiles closure s u added
  | RemoveFile id => removeFile s u id
  | ClearFiles => clearFiles s u
  | ClearErrors => (clearErrors s, u, [])
  end.

(** Events one at a time, each after the render the last one caused. *)
Fixpoint play (s : FileUploadState) (u : Urls) (events : list Event)
    : FileUploadState * Urls * list Callback :=
  match events with
  | [] => (s, u, [])
  | e :: rest =>
      let '(s1, u1, c1) := handle (files s) s u e in
      let '(s2, u2, c2) := play s1 u1 rest in (s2, u2, c1 ++ c2)
  end.

(** ** What is kept is valid *)
Definition valid_file (f : UploadedFile) : Prop := too_large f = false /\ isAccepted f = true.

Lemma validate_files_spec closure newFiles u errs valid errs' valid' u' :
  validate_files closure newFiles u errs valid = (Some (errs', valid'), u') ->
  exists added, valid' = valid ++ added /\ length added <= length newFiles /\
    Forall (fun p => valid_file (fp_file p) /\ fp_file p ∈ newFiles) added.
Proof.
  revert u errs valid. induction newFiles as [|f rest IH]; intros u errs valid; simpl.
  { intros [= <- <- <-]. exists []. by rewrite app_nil_r. }
  assert (Hweak : forall l, Forall (fun p => valid_file (fp_file p) /\ fp_file p ∈ rest) l ->
    Forall (fun p => valid_file (fp_file p) /\ fp_file p ∈ f :: rest) l).
  { intros l Hl. eapply Forall_impl; [exact Hl|]. simpl. intros p [Hv Hp].
    split; [done|by right]. }
  destruct (multiple && is_duplicate closure f); [done|].
  destruct (too_large f) eqn:Hsize.
  { intros H. destruct (IH _ _ _ H) as (added & -> & Hl & Hf). exists added. auto. }
  unfold validateFile. rewrite Hsize. destruct (isAccepted f) eqn:Hacc; simpl.
  - destruct (createPreview f u) as [preview u1]. intros H.
    destruct (IH _ _ _ H) as (added & -> & Hl & Hf).
    exists (mkPreview f (generateUniqueId (issued u) f) preview :: added).
    split_and!; [by rewrite <-app_assoc|simpl; lia|].
    constructor; [split; [done|by left]|by apply Hweak].
  - intros H. destruct (IH _ _ _ H) as (added & -> & Hl & Hf). exists added. auto.
Qed.

(** The files of a state: kept from [start], or valid; within the limit. *)
Definition kept (start : list FileWithPreview) (s : FileUploadState) : Prop :=
  Forall (fun p => p ∈ start \/ valid_file (fp_file p)) (files s) /\
  match maxFiles with
  | Some limit => multiple = true -> length (files s) <= Nat.max limit (length start)
  | None => True
  end.

Lemma kept_sub start s s' : kept start s -> files s' `sublist_of` files s -> kept start s'.
Proof.
  intros [Hf Hn] Hs. split.
  { rewrite Forall_forall in Hf |- *. intros p Hp. apply Hf.
    eapply elem_of_submseteq; [exact Hp|by apply sublist_submseteq]. }
  destruct maxFiles; [|done]. intros Hm. apply sublist_length in Hs. specialize (Hn Hm). lia.
Qed.

Lemma add_kept start s s0 u newFiles : files s0 = files s -> kept start s ->
  kept start (addFiles (files s) s0 u newFiles).1.1.
Proof.
  intros Heq Hk. unfold addFiles. destruct newFiles as [|f rest].
  { eapply kept_sub; [exact Hk|]. simpl. by rewrite Heq. }
  set (newFiles := f :: rest).
  destruct (if multiple then _ else _) as [[s2 u2] before] eqn:E.
  assert (Hs2 : files s2 = if multiple then files s else []).
  { destruct multiple; injection E as <- <- <-; [by rewrite <-Heq|done]. }
  assert (Hk2 : kept start s2).
  { eapply kept_sub; [exact Hk|]. rewrite Hs2. destruct multiple; [done|apply sublist_nil_l]. }
  destruct (over_limit (files s) newFiles) eqn:Hlim; [by eapply kept_sub|].
  destruct (validate_files (files s) newFiles u2 [] []) as [[[errs valid]|] u3] eqn:Hv; [|done].
  destruct (validate_files_spec _ _ _ _ _ _ _ _ Hv) as (added & -> & Hlen & Hadded).
  rewrite app_nil_l in *. destruct (negb (Nat.eqb (length added) 0)).
  2:{ destruct (negb _); [by eapply kept_sub|done]. }
  destruct Hk2 as [Hf2 Hn2]. split; simpl.
  - assert (Hvalid : Forall (fun p => p ∈ start \/ valid_file (fp_file p)) added).
    { eapply Forall_impl; [exact Hadded|]. simpl. intros p [Hp _]. by right. }
    destruct multiple; [by apply Forall_app|done].
  - unfold over_limit in Hlim. destruct maxFiles as [limit|]; [|done]. intros Hm.
    rewrite Hm in *. simpl in Hlim. apply Nat.ltb_ge in Hlim. rewrite length_app, Hs2. subst newFiles. simpl in Hlen. lia.
Qed.

(** Whatever the user drops, chooses, removes and clears, in any order,
    the list only ever holds files that were there to begin with or that pass
    the size and type checks, and in multiple mode never more than the limit
    (or than there were to begin with). *)
Theorem upload_list_valid initialFiles u events :
  let start := files (initial initialFiles) in
  let s := (play (initial initialFiles) u events).1.1 in
  Forall (fun p => p ∈ start \/ (too_large (fp_file p) = false /\ isAccepted (fp_file p) = true))
    (files s) /\
  (forall limit, maxFiles = Some limit -> multiple = true ->
     length (files s) <= Nat.max limit (length initialFiles)).
Proof.
  intros start s. assert (Hk : kept start s).
  { subst s. assert (H0 : kept start (initial initialFiles)).
    { split; [apply Forall_forall; by left|]. destruct maxFiles; [|done]. intros _. subst start. lia. }
    revert u H0. generalize (initial initialFiles) as s.
    induction events as [|e events IH]; intros s u Hs; [done|]. simpl.
    assert (H1 : kept start (handle (files s) s u e).1.1).
    { destruct e; simpl; try done.
      - destruct intoChild; [done|by eapply kept_sub].
      - unfold handleDrop. destruct disabled; [by eapply kept_sub|].
        destruct dropped; [by eapply kept_sub|]. by apply add_kept.
      - by apply add_kept.
      - by apply add_kept.
      - eapply kept_sub; [exact Hs|]. simpl. clear.
        induction (files s) as [|f l IH]; [done|]. simpl. destruct (negb _); by constructor.
      - eapply kept_sub; [exact Hs|apply sublist_nil_l]. }
    destruct (handle (files s) s u e) as [[s1 u1] c1]. simpl in H1.
    specialize (IH s1 u1 H1). by destruct (play s1 u1 events) as [[s2 u2] c2]. }
  destruct Hk as [Hf Hn]. split; [done|]. intros limit Hl Hm. rewrite Hl in Hn.
  specialize (Hn Hm). unfold start in Hn. simpl in Hn. by rewrite length_map in Hn.
Qed.
End Hook.

(** ** Concrete files *)
Module Sample.
Definition file (name : string) (size : nat) (type : string) : UploadedFile :=
  mkUploaded BrowserFile name (num_nat size) type.
Definition no_urls : Urls := mkUrls 0 [].
Definition gen (n : nat) (name : string) : string := name +:+ "-" +:+ show_nat n.
Definition bytes (n : num) : string := "1KB".
Definition run (limit : option nat) (multiple : bool) (events : list Event)
    : FileUploadState * Urls * list Callback :=
  play limit (num_nat 1024) "image/*,.pdf" multiple bytes gen (initial []) no_urls events.
Definition names (r : FileUploadState * Urls * list Callback) : list string :=
  map (fun p => uf_name (fp_file p)) (files r.1.1).
End Sample.

Lemma upload_list_valid_witness :
  length (files (Sample.run (Some 2) true
    [AddFiles [Sample.file "a.png" 10 "image/png"]; AddFiles [Sample.file "b.pdf" 20 ""]]).1.1) <= 2.
Proof.
  apply (proj2 (upload_list_valid (Some 2) (num_nat 1024) "image/*,.pdf" true Sample.bytes
    Sample.gen [] Sample.no_urls
    [AddFiles [Sample.file "a.png" 10 "image/png"]; AddFiles [Sample.file "b.pdf" 20 ""]]) 2);
    reflexivity.
Defined.

(** One file that is already there stops the whole batch: the new file next to
    it is not added, and the URL made for it is never revoked. *)
Lemma duplicate_drops_batch :
  let a := Sample.file "a.png" 10 "image/png" in
  let b := Sample.file "b.png" 20 "image/png" in
  let r := Sample.run None true [AddFiles [a]; AddFiles [b; a]] in
  Sample.names r = ["a.png"] /\ live r.1.2 = ["blob:0"; "blob:1"].
Proof. vm_compute. split; reflexivity. Qed.

(** In single mode a file that is refused still empties the list. *)
Lemma refused_file_clears_list :
  Sample.names (Sample.run None false
    [AddFiles [Sample.file "a.png" 10 "image/png"]; AddFiles [Sample.file "b.png" 4096 "image/png"]]) = [].
Proof. vm_compute. reflexivity. Qed.

(** The URL of a file that is not an image outlives its removal. *)
Lemma document_url_leaks :
  let r := Sample.run None true [AddFiles [Sample.file "a.pdf" 10 "application/pdf"]; ClearFiles] in
  Sample.names r = [] /\ live r.1.2 = ["blob:0"].
Proof. vm_compute. split; reflexivity. Qed.
