(* ===== verification/Filters.v ===== *)
(** * The filter bar

    [packages/ui/src/components/reui/filters/filters.tsx], the handlers between
    the chrome and the query edits of [FilterQuery], and the three stores of
    [filters-context.tsx] it owns.  The state is what the component keeps
    between renders; an event is a call of one of its actions, with the props
    of the render the caller closed over, or a commit of React.  A query is an
    object: [q_obj] says which one, since the code compares by identity. *)
From S2P Require Import Prelude JsString JsValue JsMap CascaderLib FilterQuery FilterSchema.

(** ** The focus store *)
Inductive Segment :=
| SegCombinator | SegField | SegOperator | SegValue | SegAdd | SegMenu | SegUngroup
| SegRemove | SegDrag.
Record FilterFocus := mkFocus {
  fo_id : option string;
  fo_segment : option Segment;
  fo_autoOpen : bool
}.
#[export] Instance Segment_eq_dec : EqDecision Segment.
Proof. solve_decision. Defined.
#[export] Instance FilterFocus_eq_dec : EqDecision FilterFocus.
Proof. solve_decision. Defined.

(** A snapshot and how often its listeners have been called. *)
Record FocusStore := mkFocusStore { snapshot : FilterFocus; focus_notified : nat }.
Definition NO_FOCUS : FilterFocus := mkFocus None None false.
Definition createFilterFocusStore : FocusStore := mkFocusStore NO_FOCUS 0.
Definition focus_set (s : FocusStore) (next : FilterFocus) : FocusStore :=
  if decide (next = snapshot s) then s else mkFocusStore next (S (focus_notified s)).

(** ** The row state store *)
Record RowStore := mkRowStore { touched : jsset; pending_rows : jsset; row_version : nat }.
Definition createFilterRowStateStore : RowStore := mkRowStore [] [] 0.
Definition row_has (s : RowStore) (id : string) : bool := sin id (touched s).
Definition isPending (s : RowStore) (id : string) : bool := sin id (pending_rows s).
Definition mark (s : RowStore) (id : string) : RowStore :=
  if row_has s id then s
  else mkRowStore (sadd (touched s) id) (pending_rows s) (S (row_version s)).
Definition unmark (s : RowStore) (id : string) : RowStore :=
  if negb (row_has s id) then s
  else mkRowStore (sdel (touched s) id) (pending_rows s) (S (row_version s)).
Definition markPending (s : RowStore) (id : string) : RowStore :=
  if isPending s id then s
  else mkRowStore (touched s) (sadd (pending_rows s) id) (S (row_version s)).
Definition resolvePending (s : RowStore) (id : string) : RowStore :=
  if negb (isPending s id) then s
  else mkRowStore (touched s) (sdel (pending_rows s) id) (S (row_version s)).
Definition reset_rows (s : RowStore) : RowStore :=
  if Nat.eqb (length (touched s)) 0 && Nat.eqb (length (pending_rows s)) 0 then s
  else mkRowStore [] [] (S (row_version s)).

(** ** The resolution store *)
Record ResolutionStore := mkResolution {
  resolved : jsmap (jsmap FilterOption);
  claimed : jsmap jsset;
  res_version : nat
}.
Definition createFilterResolutionStore : ResolutionStore := mkResolution [] [] 0.

Definition res_get (s : ResolutionStore) (fieldKey value : string) : option FilterOption :=
  match mget (resolved s) fieldKey with Some m => mget m value | None => None end.

Definition res_set (s : ResolutionStore) (fieldKey : string) (options : list FilterOption)
    : ResolutionStore :=
  let '(m, landed) :=
    fold_left (fun '(m, landed) o =>
        (mset m (o_value o) o, landed || negb (mhas m (o_value o))))
      options (mget (resolved s) fieldKey ?? [], false) in
  mkResolution (mset (resolved s) fieldKey m) (claimed s)
    (if landed then S (res_version s) else res_version s).

(** The loop of [claim]: the bucket of claims and the values nobody had claimed. *)
Fixpoint claim_values (known : string -> bool) (taken : jsset) (values : list string)
    : jsset * list string :=
  match values with
  | [] => (taken, [])
  | value :: rest =>
      if sin value taken || known value then claim_values known taken rest
      else let '(taken', fresh) := claim_values known (sadd taken value) rest in
           (taken', value :: fresh)
  end.
Definition claim (s : ResolutionStore) (fieldKey : string) (values : list string)
    : ResolutionStore * list string :=
  let known v := match mget (resolved s) fieldKey with Some m => mhas m v | None => false end in
  let '(taken, fresh) := claim_values known (mget (claimed s) fieldKey ?? []) values in
  (mkResolution (resolved s) (mset (claimed s) fieldKey taken) (res_version s), fresh).
Definition release (s : ResolutionStore) (fieldKey : string) (values : list string)
    : ResolutionStore :=
  match mget (claimed s) fieldKey with
  | None => s
  | Some taken =>
      mkResolution (resolved s) (mset (claimed s) fieldKey (fold_left sdel values taken))
        (res_version s)
  end.

(** ** Labels *)
Record FilterLabels := mkLabels {
  filtersLabel : string;
  groupAll : string;
  groupAny : string;
  pathSeparator : string;
  countAnnouncement : nat -> string;
  groupAnnouncement : bool -> string;
  reorderAnnouncement : string -> Z -> nat -> string;
  moveAnnouncement : string -> string -> Z -> nat -> string
}.
(** The shipped wording of the sentences the handlers say. *)
Definition default_count (count : nat) : string :=
  if Nat.eqb count 1 then "1 filter applied" else show_nat count +:+ " filters applied".
Definition default_group (added : bool) : string :=
  if added then "Group added" else "Group removed".
Definition default_reorder (label : string) (position : Z) (total : nat) : string :=
  label +:+ " moved to position " +:+ show_Z position +:+ " of " +:+ show_nat total.
Definition default_move (label destination : string) (position : Z) (total : nat) : string :=
  label +:+ " moved into " +:+ destination +:+ ", position " +:+ show_Z position +:+
  " of " +:+ show_nat total.
Definition DEFAULT_FILTER_LABELS : FilterLabels :=
  mkLabels "Filters" "All of the following are true..." "Any of the following are true..."
    " > " default_count default_group default_reorder default_move.

(** ** The bar *)

(** A query object. *)
Record QueryObj := mkQ { q_obj : nat; q_tree : FilterQuery }.

Inductive ChangeReason :=
| RAdd | RUpdate | RRemove | RDuplicate | RNegate | RReorder | RCombinator | RClear.
Record FilterChangeDetails := mkDetails {
  reason : ChangeReason;
  det_rule : option FilterRule;
  det_field : option FilterField
}.

(** What a render is given.  [p_before] is [onBeforeQueryChange]; [None] from
    it is a handler that returns nothing. *)
Record Props := mkProps {
  p_fields : list FilterField;
  p_query : option QueryObj;
  p_operatorLabels : option (jsmap string);
  p_labels : FilterLabels;
  p_disabled : bool;
  p_readOnly : bool;
  p_before : option (FilterQuery -> FilterChangeDetails -> option bool)
}.

(** [latest.current]: the values the handlers read, written by an effect. *)
Record Latest := mkLatest {
  l_index : FilterIndex;
  l_labels : FilterLabels;
  l_catalog : FilterValueType -> list FilterOperator;
  l_controlled : bool;
  l_disabled : bool;
  l_readOnly : bool;
  l_before : option (FilterQuery -> FilterChangeDetails -> option bool)
}.

(** [b_internal] is the state of an uncontrolled bar, [b_ref] is [queryRef],
    [b_rendered] the query of the last commit, [b_objects] the identities in
    use, and [b_ids] the id source of [nextId]. *)
Record FilterBar (St : Type) := mkBar {
  b_internal : QueryObj;
  b_ref : QueryObj;
  b_rendered : QueryObj;
  b_objects : nat;
  b_draft : option FilterDraft;
  b_announced : nat * string;
  b_ids : St;
  b_focus : FocusStore;
  b_rows : RowStore;
  b_latest : Latest
}.
Arguments mkBar {St}.
Arguments b_internal {St}.
Arguments b_ref {St}.
Arguments b_rendered {St}.
Arguments b_objects {St}.
Arguments b_draft {St}.
Arguments b_announced {St}.
Arguments b_ids {St}.
Arguments b_focus {St}.
Arguments b_rows {St}.
Arguments b_latest {St}.

(** What the consumer sees. *)
Inductive Call :=
| BeforeChange (next : FilterQuery) (d : FilterChangeDetails)
| OnChange (next : FilterQuery) (d : FilterChangeDetails).

Definition isFilterLocked (disabled readOnly : bool) : bool := disabled || readOnly.

Definition operatorCatalog (p : Props) : FilterValueType -> list FilterOperator :=
  match p_operatorLabels p with
  | None => DEFAULT_FILTER_OPERATORS
  | Some labels =>
      createFilterOperators
        (fold_left (fun m e => mset m e.1 e.2) labels DEFAULT_FILTER_OPERATOR_LABELS)
  end.

(** The index is memoized on the schema's signature. *)
Definition memo_index (previous : FilterIndex) (fields : list FilterField) : FilterIndex :=
  let sig := computeFilterSchemaSignature fields in
  if String.eqb (signature previous) sig then previous
  else buildFilterIndex fields None (Some sig) ?? previous.

Section Bar.
Context {St : Type} `{!IdSource St}.
(** A field's own operator functions. *)
Context (call : string -> FilterField -> list FilterOperator).
Notation Bar := (FilterBar St).
Implicit Types (p : Props) (b : Bar).

Definition current b : FilterQuery := q_tree (b_ref b).
Definition labels b : FilterLabels := l_labels (b_latest b).

(** One field replaced. *)
Definition with_query b (controlled : bool) (q : FilterQuery) : Bar :=
  let o := mkQ (b_objects b) q in
  mkBar (if controlled then b_internal b else o) o (b_rendered b) (S (b_objects b)) (b_draft b)
    (b_announced b) (b_ids b) (b_focus b) (b_rows b) (b_latest b).
Definition with_draft b (d : option FilterDraft) : Bar :=
  mkBar (b_internal b) (b_ref b) (b_rendered b) (b_objects b) d
    (b_announced b) (b_ids b) (b_focus b) (b_rows b) (b_latest b).
Definition with_ids b (s : St) : Bar :=
  mkBar (b_internal b) (b_ref b) (b_rendered b) (b_objects b) (b_draft b)
    (b_announced b) s (b_focus b) (b_rows b) (b_latest b).
Definition with_focus b (f : FocusStore) : Bar :=
  mkBar (b_internal b) (b_ref b) (b_rendered b) (b_objects b) (b_draft b)
    (b_announced b) (b_ids b) f (b_rows b) (b_latest b).
Definition with_rows_store b (r : RowStore) : Bar :=
  mkBar (b_internal b) (b_ref b) (b_rendered b) (b_objects b) (b_draft b)
    (b_announced b) (b_ids b) (b_focus b) r (b_latest b).

Definition setAnnouncement b (text : string) : Bar :=
  mkBar (b_internal b) (b_ref b) (b_rendered b) (b_objects b) (b_draft b)
    (S (b_announced b).1, text) (b_ids b) (b_focus b) (b_rows b) (b_latest b).

(** [setQuery]: [None] is the object [queryRef] holds. *)
Definition setQuery b (next : option FilterQuery) (d : FilterChangeDetails) : Bar * list Call :=
  match next with
  | None => (b, [])
  | Some q => (with_query b (l_controlled (b_latest b)) q, [OnChange q d])
  end.

Definition locked p b : bool :=
  p_disabled p || p_readOnly p || isFilterLocked (l_disabled (b_latest b)) (l_readOnly (b_latest b)).

(** Whether the hook let the write through. *)
Definition approved b (next : FilterQuery) (d : FilterChangeDetails) : bool :=
  match l_before (b_latest b) with
  | Some f => negb (bool_decide (f next d = Some false))
  | None => true
  end.
Definition emit p b (next : option FilterQuery) (why : ChangeReason) (rule : option FilterRule)
    : Bar * list Call * bool :=
  if locked p b then (b, [], false)
  else
    let field := match rule with
                 | Some r => getFilterField (l_index (b_latest b)) (r_path r)
                 | None => None
                 end in
    let d := mkDetails why rule field in
    let proposed := settle (current b) next in
    let asked := match l_before (b_latest b) with
                 | Some _ => [BeforeChange proposed d]
                 | None => []
                 end in
    if approved b proposed d
    then let '(b', calls) := setQuery b next d in (b', asked ++ calls, true)
    else (b, asked, false).

(** [if (!emit(...)) return; ...] *)
Definition emit_then p b next why rule (said : Bar -> Bar) : Bar * list Call :=
  let '(b', calls, landed) := emit p b next why rule in
  (if landed then said b' else b', calls).
(** [if (next === current) return], before the same. *)
Definition emit_changed p b (next : option FilterQuery) why rule (said : FilterQuery -> Bar -> Bar)
    : Bar * list Call :=
  match next with
  | None => (b, [])
  | Some q => emit_then p b next why (rule q) (said q)
  end.

Definition say_count (q : FilterQuery) b : Bar :=
  setAnnouncement b (countAnnouncement (labels b) (countFilterRules q)).
Definition say_group (added : bool) b : Bar :=
  setAnnouncement b (groupAnnouncement (labels b) added).
Definition group_headline b (k : FilterCombinator) : string :=
  match k with CAnd => groupAll (labels b) | COr => groupAny (labels b) end.

(** *** Actions *)
Definition addRule p b (rule : FilterRule) (parentId : option string) : Bar * list Call :=
  if locked p b then (b, [])
  else
    let next := insertFilterNode (current b) (NRule rule) parentId None in
    emit_then p b next RAdd (Some rule) (say_count (settle (current b) next)).

Definition addGroup p b (parentId : option string) (combinator : FilterCombinator)
    : Bar * list Call * string :=
  if locked p b then (b, [], "")
  else
    let '(id, s) := nextId (b_ids b) in
    let b1 := with_ids b s in
    let next := insertFilterNode (current b1)
                  (NGroup (createFilterGroup id (Some combinator) None)) parentId None in
    let '(b2, calls, landed) := emit p b1 next RAdd None in
    if landed then (say_group true b2, calls, id) else (b2, calls, "").

Definition updateRule p b (id : string) (updates : RuleUpdates) : Bar * list Call :=
  if locked p b then (b, [])
  else
    match updateFilterRule (current b) id updates with
    | None => (b, [])
    | Some next =>
        let rows := match u_path updates, u_value updates with
                    | Some _, _ => unmark (b_rows b) id
                    | None, Some _ => mark (b_rows b) id
                    | None, None => b_rows b
                    end in
        (emit p (with_rows_store b rows) (Some next) RUpdate (findFilterRule next id)).1
    end.

Definition removeNode p b (id : string) : Bar * list Call :=
  if locked p b then (b, [])
  else
    let removed := findFilterRule (current b) id in
    emit_changed p b (removeFilterNode (current b) id) RRemove (fun _ => removed)
      (fun next => match removed with Some _ => say_count next | None => say_group false end).

Definition duplicateNode p b (id : string) : Bar * list Call :=
  if locked p b then (b, [])
  else
    let '(next, s) := duplicateFilterNode (current b) id (b_ids b) in
    emit_changed p (with_ids b s) next RDuplicate (fun _ => findFilterRule (current b) id) say_count.

Definition negateRule p b (id : string) : Bar * list Call :=
  if locked p b then (b, [])
  else
    match findFilterRule (current b) id with
    | None => (b, [])
    | Some rule =>
        match getFilterField (l_index (b_latest b)) (r_path rule) with
        | None => (b, [])
        | Some field =>
            let operators := resolveFilterOperators call field (l_catalog (b_latest b)) in
            let '(operator, negated) :=
              negateFilterOperator (getFilterOperator operators (Some (r_operator rule)))
                operators (r_negated rule) in
            let updates := mkUpdates None (Some (operator ?? r_operator rule)) None
                             (Some (if negated then Some true else None)) in
            let next := updateFilterRule (current b) id updates in
            (emit p b next RNegate (findFilterRule (settle (current b) next) id)).1
        end
    end.

Definition announceReorder (id : string) (fromParentId : option string) (next : FilterQuery) b
    : Bar :=
  match findFilterNode next id with
  | Some (mkFound node (Some parent) index) =>
      let label := match node with
                   | NRule r => formatFilterPath (l_index (b_latest b)) (r_path r)
                                  (pathSeparator (labels b))
                   | NGroup g => group_headline b (g_combinator g)
                   end in
      let position := (index + 1)%Z in
      let total := length (g_rules parent) in
      if truthy_str fromParentId && negb (bool_decide (fromParentId = Some (g_id parent)))
      then
        let destination := if String.eqb (g_id parent) (g_id next) then filtersLabel (labels b)
                           else group_headline b (g_combinator parent) in
        setAnnouncement b (moveAnnouncement (labels b) label destination position total)
      else setAnnouncement b (reorderAnnouncement (labels b) label position total)
  | _ => b
  end.

Definition moveNode p b (id : string) (delta : Z) : Bar * list Call :=
  if locked p b then (b, [])
  else emit_changed p b (moveFilterNode (current b) id delta) RReorder
         (fun next => findFilterRule next id) (announceReorder id None).

Definition moveNodeTo p b (id parentId : string) (index : Z) : Bar * list Call :=
  if locked p b then (b, [])
  else
    let fromParentId := match findFilterNode (current b) id with
                        | Some (mkFound _ (Some parent) _) => Some (g_id parent)
                        | _ => None
                        end in
    emit_changed p b (moveFilterNodeTo (current b) id parentId index) RReorder
      (fun next => findFilterRule next id) (announceReorder id fromParentId).

Definition copyNodeTo p b (id parentId : string) (index : Z) : Bar * list Call :=
  if locked p b then (b, [])
  else
    let '(next, s) := copyFilterNodeTo (current b) id parentId index (b_ids b) in
    emit_changed p (with_ids b s) next RDuplicate (fun _ => findFilterRule (current b) id) say_count.

Definition wrapNodeInGroup p b (id : string) (combinator : FilterCombinator) : Bar * list Call :=
  if locked p b then (b, [])
  else
    let '(groupId, s) := nextId (b_ids b) in
    let b1 := with_ids b s in
    emit_changed p b1 (wrapFilterNodeInGroup (current b1) id groupId combinator) RAdd
      (fun next => findFilterRule next id) (fun _ => say_group true).

Definition unwrapGroup p b (groupId : string) : Bar * list Call :=
  if locked p b then (b, [])
  else emit_changed p b (unwrapFilterGroup (current b) groupId) RRemove (fun _ => None)
         (fun _ => say_group false).

Definition announceCombinator (k : FilterCombinator) b : Bar :=
  setAnnouncement b (group_headline b k).
Definition setCombinatorAction p b (groupId : string) (k : FilterCombinator) : Bar * list Call :=
  if locked p b then (b, [])
  else emit_changed p b (setFilterCombinator (current b) groupId k) RCombinator (fun _ => None)
         (fun _ => announceCombinator k).
Definition toggleCombinatorAction p b (groupId : string) : Bar * list Call :=
  if locked p b then (b, [])
  else emit_changed p b (toggleFilterCombinator (current b) groupId) RCombinator (fun _ => None)
         (fun next => match findFilterNode next groupId with
                      | Some (mkFound (NGroup g) _ _) => announceCombinator (g_combinator g)
                      | _ => fun b => b
                      end).

Definition clearQueryAction p b : Bar * list Call :=
  if locked p b then (b, [])
  else emit_changed p b (clearFilterQuery (current b)) RClear (fun _ => None)
         (fun _ b => setAnnouncement b (countAnnouncement (labels b) 0)).

Definition announce b (message : string) : Bar :=
  if String.eqb message "" then b else setAnnouncement b message.

Definition dispatchDraftRaw b (action : FilterDraftAction) : Bar :=
  with_draft b (filterDraftReducer (b_draft b) action).
Definition dispatchDraft p b (action : FilterDraftAction) : Bar :=
  if match action with Close => false | _ => locked p b end then b
  else dispatchDraftRaw b action.
Definition openCreate p b : Bar :=
  if locked p b then b else dispatchDraftRaw b (OpenCreate None).
Definition openAmend p b (id : string) (step : FilterDraftStep) : Bar :=
  if locked p b then b
  else match findFilterRule (current b) id with
       | None => b
       | Some rule =>
           dispatchDraftRaw b
             (OpenAmend id step (r_path rule) (Some (r_operator rule)) (r_value rule) None)
       end.
Definition closeDraft b : Bar := dispatchDraftRaw b Close.
End Bar.

(** ** Events *)
Inductive Action :=
| AddRule (rule : FilterRule) (parentId : option string)
| AddGroup (parentId : option string) (combinator : FilterCombinator)
| UpdateRule (id : string) (updates : RuleUpdates)
| RemoveNode (id : string)
| DuplicateNode (id : string)
| NegateRule (id : string)
| MoveNode (id : string) (delta : Z)
| MoveNodeTo (id parentId : string) (index : Z)
| CopyNodeTo (id parentId : string) (index : Z)
| WrapNodeInGroup (id : string) (combinator : FilterCombinator)
| UnwrapGroup (id : string)
| SetCombinator (id : string) (combinator : FilterCombinator)
| ToggleCombinator (id : string)
| ClearQuery
| Announce (message : string)
| DispatchDraft (action : FilterDraftAction)
| OpenCreateDraft
| OpenAmendDraft (id : string) (step : FilterDraftStep)
| CloseDraft
| NextId
| SetFocus (next : FilterFocus).

Inductive Event :=
| Act (p : Props) (a : Action)
| Commit (p : Props).

Section Events.
Context {St : Type} `{!IdSource St}.
Context (call : string -> FilterField -> list FilterOperator).
Notation Bar := (FilterBar St).
Implicit Types (p : Props) (b : Bar).

Definition act p b (a : Action) : Bar * list Call :=
  match a with
  | AddRule rule parentId => addRule p b rule parentId
  | AddGroup parentId k => (addGroup p b parentId k).1
  | UpdateRule id updates => updateRule p b id updates
  | RemoveNode id => removeNode p b id
  | DuplicateNode id => duplicateNode p b id
  | NegateRule id => negateRule call p b id
  | MoveNode id delta => moveNode p b id delta
  | MoveNodeTo id parentId index => moveNodeTo p b id parentId index
  | CopyNodeTo id parentId index => copyNodeTo p b id parentId index
  | WrapNodeInGroup id k => wrapNodeInGroup p b id k
  | UnwrapGroup id => unwrapGroup p b id
  | SetCombinator id k => setCombinatorAction p b id k
  | ToggleCombinator id => toggleCombinatorAction p b id
  | ClearQuery => clearQueryAction p b
  | Announce message => (announce b message, [])
  | DispatchDraft action => (dispatchDraft p b action, [])
  | OpenCreateDraft => (openCreate p b, [])
  | OpenAmendDraft id step => (openAmend p b id step, [])
  | CloseDraft => (closeDraft b, [])
  | NextId => (with_ids b (nextId (b_ids b)).2, [])
  | SetFocus next => (with_focus b (focus_set (b_focus b) next), [])
  end.

(** *** The effects of a commit, in the order of their hooks *)
Definition rendered_query p b : QueryObj := p_query p ?? b_internal b.

(** [queryRef.current = query], and [latest.current = {...}]. *)
Definition latest_effect p b : Bar :=
  let index := memo_index (l_index (b_latest b)) (p_fields p) in
  mkBar (b_internal b) (rendered_query p b) (b_rendered b) (b_objects b) (b_draft b)
    (b_announced b) (b_ids b) (b_focus b) (b_rows b)
    (mkLatest index (p_labels p) (operatorCatalog p) (bool_decide (is_Some (p_query p)))
       (p_disabled p) (p_readOnly p) (p_before p)).

(** The effect keyed on [query]. *)
Definition repair_effect p b : Bar :=
  let query := rendered_query p b in
  if Nat.eqb (q_obj query) (q_obj (b_rendered b)) then b
  else
    let b1 := mkBar (b_internal b) (b_ref b) query (b_objects b) (b_draft b)
                (b_announced b) (b_ids b) (b_focus b) (b_rows b) (b_latest b) in
    let id := fo_id (snapshot (b_focus b)) in
    if negb (truthy_str id) ||
       match id with Some i => bool_decide (is_Some (findFilterNode (q_tree query) i)) | None => true end
    then b1
    else with_focus b1 (focus_set (b_focus b1) (mkFocus None None false)).

(** The effect keyed on [draft]: the draft becomes a rule. *)
Definition draft_effect p b : Bar * list Call :=
  match b_draft b with
  | None => (b, [])
  | Some draft =>
      match d_status draft with
      | Editing => (b, [])
      | Ready =>
          if negb (isFilterDraftCommittable (Some draft)) then (b, [])
          else
            let '(b1, calls) :=
              match d_ruleId draft with
              | Some (String _ _ as ruleId) =>
                  updateRule p b ruleId
                    (mkUpdates (Some (d_path draft)) (Some (d_operator draft ?? ""))
                       (Some (d_value draft)) None)
              | _ =>
                  if locked p b then (b, [])
                  else
                    let '(id, s) := nextId (b_ids b) in
                    let '(b1, calls) :=
                      addRule p (with_ids b s) (createFilterRule id (d_path draft) "" VUndef None)
                        None in
                    (with_focus b1 (focus_set (b_focus b1) (mkFocus (Some id) (Some SegOperator) true)),
                     calls)
              end in
            (dispatchDraftRaw b1 Close, calls)
      end
  end.

Definition commit p b : Bar * list Call := draft_effect p (repair_effect p (latest_effect p b)).

Definition handle b (e : Event) : Bar * list Call :=
  match e with Act p a => act p b a | Commit p => commit p b end.
Definition run b (es : list Event) : Bar * list Call :=
  fold_left (fun '(b, calls) e => let '(b', more) := handle b e in (b', calls ++ more)) es (b, []).

(** The first render. *)
Definition createFilterQueryDefault : FilterQuery := createFilterQuery [] CAnd "root".
Definition mount p (defaultQuery : option FilterQuery) (ids : St) : Bar :=
  let internal := mkQ 0 (defaultQuery ?? createFilterQueryDefault) in
  let query := p_query p ?? internal in
  let sig := computeFilterSchemaSignature (p_fields p) in
  mkBar internal query query 1 None (0, "") ids createFilterFocusStore createFilterRowStateStore
    (mkLatest (buildFilterIndex (p_fields p) None (Some sig) ?? mkFilterIndex [] [] [] [] [] sig)
       (p_labels p) (operatorCatalog p) (bool_decide (is_Some (p_query p)))
       (p_disabled p) (p_readOnly p) (p_before p)).
End Events.
