(* ===== verification/FiltersLaws.v ===== *)
(** * The properties of the filter bar

    What the chrome may rely on when it calls an action of [filters.tsx]: the
    lock, the veto hook, the identity of nodes, the draft that becomes a rule,
    and the one request per unresolved value. *)
From stdpp Require Import relations.
From S2P Require Import Prelude JsString JsValue JsMap CascaderLib FilterQuery FilterTree FilterEdits FilterLaws FilterSchema Filters.

(** ** Writes *)
Section Writes.
Context {St : Type} `{!IdSource St}.
Context (call : string -> FilterField -> list FilterOperator).
Implicit Types (p : Props) (b : FilterBar St).

Definition is_question (c : Call) : Prop :=
  match c with BeforeChange _ _ => True | OnChange _ _ => False end.

(** Nothing a consumer or a reader of the query could notice. *)
Record unnoticed b b' : Prop := {
  un_ref : b_ref b' = b_ref b;
  un_internal : b_internal b' = b_internal b;
  un_announced : b_announced b' = b_announced b;
  un_latest : b_latest b' = b_latest b
}.

(** A write that landed: approved, in an unlocked bar, told once, last. *)
Definition landed_write p b (r : FilterBar St * list Call) : Prop :=
  exists q d asked, r.2 = asked ++ [OnChange q d] /\ Forall is_question asked /\
    current r.1 = q /\ locked p b = false /\ approved b q d = true /\
    (b_announced r.1).1 <= S (b_announced b).1.
Definition written p b (r : FilterBar St * list Call) : Prop :=
  (Forall is_question r.2 /\ unnoticed b r.1) \/ landed_write p b r.

(** An announcement, or nothing. *)
Definition only_says (said : FilterBar St -> FilterBar St) : Prop :=
  forall b, said b = b \/ exists t, said b = setAnnouncement b t.

Lemma unnoticed_refl b : unnoticed b b.
Proof. done. Qed.
Lemma unnoticed_ids b s : unnoticed b (with_ids b s).
Proof. done. Qed.
Lemma unnoticed_rows b r : unnoticed b (with_rows_store b r).
Proof. done. Qed.

Lemma written_none p b b1 : unnoticed b b1 -> written p b (b1, []).
Proof. by left. Qed.
Lemma written_id p b : written p b (b, []).
Proof. by apply written_none. Qed.

Lemma unnoticed_locked p b b1 : unnoticed b b1 -> locked p b1 = locked p b.
Proof. intros [_ _ _ E]. unfold locked. by rewrite E. Qed.
Lemma unnoticed_approved b b1 q d : unnoticed b b1 -> approved b1 q d = approved b q d.
Proof. intros [_ _ _ E]. unfold approved. by rewrite E. Qed.

(** The three ends of [emit]. *)
Lemma emit_cases p b next why rule :
  (exists asked, emit p b next why rule = (b, asked, false) /\ Forall is_question asked) \/
  (exists asked, next = None /\ emit p b next why rule = (b, asked, true) /\
     Forall is_question asked) \/
  (exists asked q d, next = Some q /\ locked p b = false /\ approved b q d = true /\
     emit p b next why rule =
       (with_query b (l_controlled (b_latest b)) q, asked ++ [OnChange q d], true) /\
     Forall is_question asked).
Proof.
  unfold emit. destruct (locked p b) eqn:El; [left; by exists []|]. cbv zeta.
  set (d := mkDetails _ _ _). set (asked := match l_before _ with Some _ => _ | None => _ end).
  assert (Ha : Forall is_question asked)
    by (unfold asked; destruct (l_before _); by repeat constructor).
  destruct (approved _ _ _) eqn:Ea; [|left; by exists asked].
  right. destruct next as [q|]; [right|left]; unfold setQuery.
  - exists asked, q, d. by split_and!.
  - exists asked. by rewrite app_nil_r.
Qed.

Lemma emit_changed_written p b b1 next why rule said :
  unnoticed b b1 -> (forall q, only_says (said q)) ->
  written p b (emit_changed p b1 next why rule said).
Proof.
  intros Hu Hs. destruct next as [q|]; [|by apply written_none]. unfold emit_changed, emit_then.
  destruct (emit_cases p b1 (Some q) why (rule q))
    as [(asked & -> & Ha)|[(asked & [=] & _)|(asked & q' & d & [= <-] & Hl & Hap & -> & Ha)]].
  - by left.
  - right. exists q, d, asked.
    rewrite <-(unnoticed_locked p b b1), <-(unnoticed_approved b b1) by done.
    destruct Hu as [_ _ E _].
    destruct (Hs q (with_query b1 (l_controlled (b_latest b1)) q)) as [->|[t ->]]; simpl; rewrite E;
      split_and!; first [done | lia].
Qed.

Lemma says_id : only_says (fun b => b).
Proof. by left. Qed.
Lemma says_count q : only_says (say_count q).
Proof. right. by eexists. Qed.
Lemma says_group a : only_says (say_group a).
Proof. right. by eexists. Qed.
Lemma says_combinator k : only_says (announceCombinator k).
Proof. right. by eexists. Qed.
Lemma says_reorder id from q : only_says (announceReorder id from q).
Proof.
  intros b. unfold announceReorder.
  destruct (findFilterNode q id) as [[n [par|] i]|]; [|by left..].
  right. cbv zeta. destruct (_ && _); by eexists.
Qed.
Hint Resolve says_id says_count says_group says_combinator says_reorder : premise.
Hint Resolve unnoticed_refl unnoticed_ids unnoticed_rows written_none written_id : premise.

Lemma emit_alone_written p b b1 next why rule :
  unnoticed b b1 -> written p b (emit p b1 next why rule).1.
Proof.
  intros Hu. destruct (emit_cases p b1 next why rule)
    as [(asked & -> & Ha)|[(asked & _ & -> & Ha)|(asked & q' & d & -> & Hl & Hap & -> & Ha)]];
    [by left..|].
  right. exists q', d, asked.
  rewrite <-(unnoticed_locked p b b1), <-(unnoticed_approved b b1) by done.
  destruct Hu as [_ _ E _]. simpl. rewrite E. split_and!; first [done|lia].
Qed.

(** An insertion under a group that is not there. *)
Definition lost_insert b (a : Action) : Prop :=
  match a with
  | AddRule rule parentId => insertFilterNode (current b) (NRule rule) parentId None = None
  | AddGroup parentId k =>
      insertFilterNode (current b)
        (NGroup (createFilterGroup (nextId (b_ids b)).1 (Some k) None)) parentId None = None
  | _ => False
  end.
Definition speaks (a : Action) : bool := match a with Announce _ => true | _ => false end.

Lemma insert_written p b b1 next why rule said :
  unnoticed b b1 -> next <> None -> only_says said ->
  written p b (emit_then p b1 next why rule said).
Proof.
  intros Hu Hn Hs. destruct next as [q|]; [|done].
  by apply (emit_changed_written p b b1 (Some q) why (fun _ => rule) (fun _ => said)).
Qed.

Lemma act_written p b a : speaks a = false -> ~ lost_insert b a -> written p b (act call p b a).
Proof.
  intros Hs Hl. destruct a; simpl in Hs, Hl; try discriminate; cbn [act];
    try (by apply written_none; unfold dispatchDraft, openCreate, openAmend; case_all).
  all: try (unfold removeNode, moveNode, moveNodeTo, unwrapGroup, setCombinatorAction,
              toggleCombinatorAction, clearQueryAction;
            destruct (locked p b); [auto with premise|];
            apply emit_changed_written; [done|]; intros q; auto with premise).
  - unfold addRule. destruct (locked p b); [auto with premise|].
    by apply insert_written; auto with premise.
  - unfold addGroup. destruct (locked p b); [auto with premise|].
    destruct (nextId (b_ids b)) as [id s]. cbn [fst] in Hl.
    set (next := insertFilterNode _ _ _ _) in *.
    pose proof (insert_written p b (with_ids b s) next RAdd None (say_group true)
                  (unnoticed_ids b s) Hl (says_group true)) as H.
    unfold emit_then in H. cbv zeta. destruct (emit _ _ _ _ _) as [[b' calls] [|]]; exact H.
  - unfold updateRule. destruct (locked p b); [auto with premise|].
    destruct (updateFilterRule _ _ _); [|auto with premise]. apply emit_alone_written; auto with premise.
  - destruct (findFilterRule (current b) id); auto with premise.
  - unfold duplicateNode. destruct (locked p b); [auto with premise|].
    destruct (duplicateFilterNode _ _ _) as [next s]. apply emit_changed_written; auto with premise.
  - unfold negateRule. destruct (locked p b); [auto with premise|].
    destruct (findFilterRule _ _) as [r|]; [|auto with premise].
    destruct (getFilterField _ _) as [f|]; [|auto with premise]. cbv zeta.
    destruct (negateFilterOperator _ _ _) as [op n]. apply emit_alone_written; auto with premise.
  - unfold copyNodeTo. destruct (locked p b); [auto with premise|].
    destruct (copyFilterNodeTo _ _ _ _ _) as [next s]. apply emit_changed_written; auto with premise.
  - unfold wrapNodeInGroup. destruct (locked p b); [auto with premise|].
    destruct (nextId (b_ids b)) as [gid s]. apply emit_changed_written; auto with premise.
  - destruct (findFilterNode q id) as [[[r|g] ? ?]|]; auto with premise.
  - by right; eexists.
Qed.
End Writes.

(** ** The bar's ids *)
Section Ids.
Context {St : Type} `{IdSupply St}.
Context (call : string -> FilterField -> list FilterOperator).
Implicit Types (p : Props) (b : FilterBar St).

(** An uncontrolled bar whose query and id source are in step. *)
Record bar_ok b : Prop := {
  ok_session : session_ok (current b, b_ids b);
  ok_internal : b_internal b = b_ref b;
  ok_uncontrolled : l_controlled (b_latest b) = false
}.

(** What the bar asks of an event: a query the bar owns, and a rule that comes
    with an id of [nextId] the query does not hold. *)
Definition admissible b (e : Event) : Prop :=
  match e with
  | Commit p => p_query p = None
  | Act _ (AddRule rule _) => spent (b_ids b) (r_id rule) /\ r_id rule ∉ ids_of (current b)
  | Act _ _ => True
  end.
Inductive step : FilterBar St -> FilterBar St -> Prop :=
| Step b e : admissible b e -> step b (handle call b e).1.

Lemma bar_ok_later b b1 new :
  bar_ok b -> issues (b_ids b) (b_ids b1) new ->
  b_ref b1 = b_ref b -> b_internal b1 = b_internal b ->
  l_controlled (b_latest b1) = l_controlled (b_latest b) -> bar_ok b1.
Proof.
  intros [Hs Hi Hc] Hn Er Ei El. constructor; [|congruence..].
  unfold current. rewrite Er. by eapply session_later.
Qed.
Lemma bar_ok_same b b1 :
  bar_ok b -> b_ref b1 = b_ref b -> b_internal b1 = b_internal b -> b_ids b1 = b_ids b ->
  l_controlled (b_latest b1) = l_controlled (b_latest b) -> bar_ok b1.
Proof. intros Hb Er Ei Es El. eapply bar_ok_later; [done|rewrite Es; apply issues_nil|done..]. Qed.

Lemma bar_ok_says b said : only_says said -> bar_ok b -> bar_ok (said b).
Proof. intros Hs Hb. destruct (Hs b) as [->|[t ->]]; [done|]. by apply (bar_ok_same b). Qed.

(** [emit] keeps what the proposed query keeps. *)
Lemma emit_ok p b next why rule :
  bar_ok b -> session_ok (settle (current b) next, b_ids b) ->
  bar_ok (emit p b next why rule).1.1.
Proof.
  intros Hb Hn. destruct (emit_cases p b next why rule)
    as [(asked & -> & _)|[(asked & _ & -> & _)|(asked & q & d & -> & _ & _ & -> & _)]]; [done..|].
  constructor; [done| |apply Hb]. cbn. by rewrite (ok_uncontrolled b Hb).
Qed.
Lemma emit_then_ok p b next why rule said :
  only_says said -> bar_ok b -> session_ok (settle (current b) next, b_ids b) ->
  bar_ok (emit_then p b next why rule said).1.
Proof.
  intros Hs Hb Hn. unfold emit_then. pose proof (emit_ok p b next why rule Hb Hn) as He.
  destruct (emit _ _ _ _ _) as [[b' calls] [|]]; [by apply bar_ok_says|done].
Qed.
Lemma emit_changed_ok p b next why rule said :
  (forall q, only_says (said q)) -> bar_ok b -> session_ok (settle (current b) next, b_ids b) ->
  bar_ok (emit_changed p b next why rule said).1.
Proof. intros Hs Hb Hn. destruct next as [q|]; [|done]. by apply (emit_then_ok p b (Some q)). Qed.

(** The ids a bar has used up while its query is still the old one. *)
Lemma with_ids_ok b s new : bar_ok b -> issues (b_ids b) s new -> bar_ok (with_ids b s).
Proof. intros Hb Hn. by eapply bar_ok_later. Qed.
Lemma next_ok b : bar_ok b -> bar_ok (with_ids b (nextId (b_ids b)).2).
Proof. intros Hb. eapply with_ids_ok; [done|apply issues_next]. Qed.

Lemma edited b q' s' : bar_ok b -> edit (current b, b_ids b) (q', s') -> session_ok (q', s').
Proof. intros Hb He. by eapply edit_ok; [apply Hb|]. Qed.

(** Ids issued by a step of the abstract session, whatever becomes of its query. *)
Lemma clone_ids_ok b n : bar_ok b -> bar_ok (with_ids b (cloneFilterNode n (b_ids b)).2).
Proof. intros Hb. eapply with_ids_ok; [done|]. apply clone_spec. Qed.
Lemma duplicate_ids_ok b id :
  bar_ok b -> bar_ok (with_ids b (duplicateFilterNode (current b) id (b_ids b)).2).
Proof.
  intros Hb. unfold duplicateFilterNode.
  destruct (findFilterNode _ _) as [[n [par|] i]|]; [|by apply (bar_ok_same b)..].
  pose proof (clone_ids_ok b n Hb) as Hc. by destruct (cloneFilterNode n (b_ids b)).
Qed.
Lemma copy_ids_ok b id parent index :
  bar_ok b -> bar_ok (with_ids b (copyFilterNodeTo (current b) id parent index (b_ids b)).2).
Proof.
  intros Hb. unfold copyFilterNodeTo.
  destruct (findFilterNode _ _) as [[n [par|] i]|]; [|by apply (bar_ok_same b)..].
  destruct (findFilterNode _ _) as [[[r|g] ? ?]|]; [by apply (bar_ok_same b)| |by apply (bar_ok_same b)].
  pose proof (clone_ids_ok b n Hb) as Hc. by destruct (cloneFilterNode n (b_ids b)).
Qed.

Lemma insert_rule_ok b rule parent :
  bar_ok b -> spent (b_ids b) (r_id rule) -> r_id rule ∉ ids_of (current b) ->
  session_ok (settle (current b) (insertFilterNode (current b) (NRule rule) parent None), b_ids b).
Proof.
  intros Hb Hsp Hf. destruct (ok_session b Hb) as [Hd Hs]. cbn [fst snd] in *.
  pose proof (insert_ids_sub (current b) (NRule rule) parent None Hd) as Hsub.
  change (ids (NRule rule)) with [r_id rule] in Hsub.
  split; cbn [fst snd].
  - eapply distinct_ids_sub; [done|]. apply NoDup_app. split_and!; [done| |by apply NoDup_singleton].
    by intros x Hx ->%list_elem_of_singleton.
  - apply Forall_forall. intros x Hx. rewrite Forall_forall in Hs.
    assert (Hin : x ∈ ids_of (current b) ++ [r_id rule]) by (by eapply elem_of_submseteq).
    apply elem_of_app in Hin as [?| ->%list_elem_of_singleton]; [by apply Hs|done].
Qed.

Hint Resolve says_id says_count says_group says_combinator says_reorder : premise.

Ltac by_edit c := apply emit_changed_ok; [auto with premise|done|]; eapply edited; [done|apply c].

Lemma addRule_ok p b rule parent :
  bar_ok b -> spent (b_ids b) (r_id rule) -> r_id rule ∉ ids_of (current b) ->
  bar_ok (addRule p b rule parent).1.
Proof.
  intros Hb Hsp Hf. unfold addRule. destruct (locked p b); [done|].
  apply emit_then_ok; [auto with premise|done|by apply insert_rule_ok].
Qed.
Lemma updateRule_ok p b id u : bar_ok b -> bar_ok (updateRule p b id u).1.
Proof.
  intros Hb. unfold updateRule. destruct (locked p b); [done|].
  destruct (updateFilterRule (current b) id u) as [next|] eqn:Eu; [|done]. cbv zeta.
  apply emit_ok; [by apply (bar_ok_same b)|].
  pose proof (edited b _ _ Hb (E_update (current b) (b_ids b) id u)) as He. by rewrite Eu in He.
Qed.

Lemma act_ok p b a : bar_ok b -> admissible b (Act p a) -> bar_ok (act call p b a).1.
Proof.
  intros Hb Ha. destruct a; cbn [act fst]; simpl in Ha;
    try (apply (bar_ok_same b); [done|..];
         unfold dispatchDraft, openCreate, openAmend, announce; by case_all).
  - destruct Ha. by apply addRule_ok.
  - unfold addGroup. destruct (locked p b); [done|].
    pose proof (next_ok b Hb) as Hn.
    pose proof (edited b _ _ Hb (E_add_group (current b) (b_ids b) combinator parentId)) as He.
    destruct (nextId (b_ids b)) as [id s]. cbv zeta. cbn [fst snd] in *.
    pose proof (emit_ok p (with_ids b s) _ RAdd None Hn He) as Hok.
    destruct (emit _ _ _ _ _) as [[b' calls] [|]]; [|done].
    apply (bar_ok_says _ (say_group true)); auto with premise.
  - by apply updateRule_ok.
  - unfold removeNode. destruct (locked p b); [done|]. apply emit_changed_ok; [|done|].
    { intros q. destruct (findFilterRule _ _); auto with premise. }
    eapply edited; [done|apply E_remove].
  - unfold duplicateNode. destruct (locked p b); [done|].
    pose proof (duplicate_ids_ok b id Hb) as Hn.
    pose proof (edited b _ _ Hb (E_duplicate (current b) (b_ids b) id)) as He.
    destruct (duplicateFilterNode _ _ _) as [next s]. by apply emit_changed_ok; auto with premise.
  - unfold negateRule. destruct (locked p b); [done|].
    destruct (findFilterRule _ _) as [r|]; [|done].
    destruct (getFilterField _ _) as [f|]; [|done]. cbv zeta.
    destruct (negateFilterOperator _ _ _) as [op n]. apply emit_ok; [done|].
    eapply edited; [done|apply E_update].
  - unfold moveNode. destruct (locked p b); [done|]. by_edit E_move.
  - unfold moveNodeTo. destruct (locked p b); [done|]. by_edit E_move_to.
  - unfold copyNodeTo. destruct (locked p b); [done|].
    pose proof (copy_ids_ok b id parentId index Hb) as Hn.
    pose proof (edited b _ _ Hb (E_copy (current b) (b_ids b) id parentId index)) as He.
    destruct (copyFilterNodeTo _ _ _ _ _) as [next s]. by apply emit_changed_ok; auto with premise.
  - unfold wrapNodeInGroup. destruct (locked p b); [done|]. pose proof (next_ok b Hb) as Hn.
    pose proof (edited b _ _ Hb (E_wrap (current b) (b_ids b) id combinator)) as He.
    destruct (nextId (b_ids b)) as [gid s]. by apply emit_changed_ok; auto with premise.
  - unfold unwrapGroup. destruct (locked p b); [done|]. by_edit E_unwrap.
  - unfold setCombinatorAction. destruct (locked p b); [done|].
    apply emit_changed_ok; [auto with premise|done|]. eapply session_shrink; [apply Hb|].
    apply combinator_ids_sub, Hb.
  - unfold toggleCombinatorAction. destruct (locked p b); [done|].
    apply emit_changed_ok; [|done|eapply edited; [done|apply E_combinator]].
    intros q. destruct (findFilterNode q id) as [[[r|g] ? ?]|]; auto with premise.
  - unfold clearQueryAction. destruct (locked p b); [done|].
    apply emit_changed_ok; [by right; eexists|done|]. eapply edited; [done|apply E_clear].
  - by apply next_ok.
Qed.

(** The draft's effect adds a rule under an id the query does not hold. *)
Lemma draft_ok p b : bar_ok b -> bar_ok (draft_effect p b).1.
Proof.
  intros Hb. unfold draft_effect. destruct (b_draft b) as [d|]; [|done].
  destruct (d_status d); [done|]. destruct (negb _); [done|].
  assert (Hadd : bar_ok (if locked p b then (b, []) else
      let '(id, s) := nextId (b_ids b) in
      let '(b1, calls) := addRule p (with_ids b s) (createFilterRule id (d_path d) "" VUndef None) None in
      (with_focus b1 (focus_set (b_focus b1) (mkFocus (Some id) (Some SegOperator) true)), calls)).1).
  { destruct (locked p b); [done|]. pose proof (next_ok b Hb) as Hn.
    pose proof (issued_fresh (b_ids b)) as Hf. pose proof (issued_spent (b_ids b)) as Hs.
    destruct (nextId (b_ids b)) as [id s]. cbn [fst snd] in *.
    pose proof (addRule_ok p (with_ids b s) (createFilterRule id (d_path d) "" VUndef None) None Hn) as Ha.
    destruct (addRule _ _ _ _) as [b1 calls]. cbn [fst] in *.
    apply (bar_ok_same b1); try done. apply Ha; [done|].
    intros Hin. apply Hf. destruct (ok_session b Hb) as [_ Hall]. rewrite Forall_forall in Hall.
    by apply Hall. }
  match goal with |- context [let '(x, y) := ?e in _] => assert (He : bar_ok e.1) end.
  { destruct (d_ruleId d) as [[|c s]|]; [exact Hadd|by apply updateRule_ok|exact Hadd]. }
  clear Hadd. match goal with |- context [let '(x, y) := ?e in _] => destruct e as [b1 calls] end.
  by apply (bar_ok_same b1).
Qed.

Lemma handle_ok b e : bar_ok b -> admissible b e -> bar_ok (handle call b e).1.
Proof.
  intros Hb. destruct e as [p a|p]; [by apply act_ok|]. simpl. intros Hp. apply draft_ok.
  assert (Hl : bar_ok (latest_effect p b)).
  { unfold latest_effect, rendered_query. rewrite Hp. cbn.
    destruct Hb as [Hs Hi Hc]. constructor; cbn; [|done|done].
    unfold current in *. cbn. by rewrite Hi. }
  unfold repair_effect. destruct (Nat.eqb _ _); [done|].
  destruct (_ || _); by apply (bar_ok_same (latest_effect p b)).
Qed.
End Ids.

(** ** The claims on unresolved values *)
Inductive ResEvent :=
| RSet (fieldKey : string) (options : list FilterOption)
| RClaim (fieldKey : string) (values : list string)
| RRelease (fieldKey : string) (values : list string).

(** The store after an event, and the values it asked to be resolved. *)
Definition res_step (s : ResolutionStore) (e : ResEvent) : ResolutionStore * list (string * string) :=
  match e with
  | RSet k options => (res_set s k options, [])
  | RClaim k values => let '(s', fresh) := claim s k values in (s', map (pair k) fresh)
  | RRelease k values => (release s k values, [])
  end.
Fixpoint requests (s : ResolutionStore) (es : list ResEvent) : list (string * string) :=
  match es with
  | [] => []
  | e :: es' => let '(s', asked) := res_step s e in asked ++ requests s' es'
  end.
Definition releases (k v : string) (e : ResEvent) : bool :=
  match e with RRelease k' values => String.eqb k' k && sin v values | _ => false end.

Definition is_claimed (s : ResolutionStore) (k v : string) : bool :=
  match mget (claimed s) k with Some taken => sin v taken | None => false end.

Lemma sin_sadd k s x : sin x (sadd s k) = sin x s || String.eqb x k.
Proof.
  unfold sadd. destruct (sin k s) eqn:E.
  - destruct (String.eqb_spec x k) as [->|]; [by rewrite E|by rewrite orb_false_r].
  - unfold sin. rewrite existsb_app. simpl. by rewrite orb_false_r.
Qed.

Lemma claim_values_spec known taken values :
  let '(taken', fresh) := claim_values known taken values in
  NoDup fresh /\
  (forall v, v ∈ fresh -> sin v taken = false /\ known v = false) /\
  (forall v, sin v taken' = sin v taken || sin v fresh) /\
  (forall v, v ∈ values -> known v = false -> sin v taken' = true).
Proof.
  revert taken. induction values as [|v values IH]; intros taken; simpl.
  { split_and!; [constructor|by intros v ?%elem_of_nil|by intros v; rewrite orb_false_r|
      by intros v ?%elem_of_nil]. }
  destruct (sin v taken || known v) eqn:E.
  - specialize (IH taken). destruct (claim_values known taken values) as [t' f].
    destruct IH as (H1 & H2 & H3 & H4). split_and!; [done..|].
    intros w [->|Hw]%elem_of_cons Hk; [|by apply H4]. rewrite Hk, orb_false_r in E.
    by rewrite H3, E.
  - apply orb_false_iff in E as [E1 E2]. specialize (IH (sadd taken v)).
    destruct (claim_values known (sadd taken v) values) as [t' f].
    destruct IH as (H1 & H2 & H3 & H4). split_and!.
    + constructor; [|done]. intros Hv. apply H2 in Hv as [Hv _].
      by rewrite sin_sadd, String.eqb_refl, orb_true_r in Hv.
    + intros w [->|Hw]%elem_of_cons; [done|]. apply H2 in Hw as [Hw Hk].
      rewrite sin_sadd in Hw. by apply orb_false_iff in Hw as [? _].
    + intros w. rewrite H3, sin_sadd. cbn. by rewrite orb_assoc.
    + intros w [->|Hw]%elem_of_cons Hk; [|by apply H4].
      by rewrite H3, sin_sadd, String.eqb_refl, orb_true_r.
Qed.

Lemma sin_cons v x s : sin v (x :: s) = String.eqb v x || sin v s.
Proof. done. Qed.
Lemma sdel_other s x v : x <> v -> sin v (sdel s x) = sin v s.
Proof.
  intros Hn. induction s as [|y s IH]; [done|]. cbn [sdel].
  destruct (String.eqb_spec y x) as [->|]; rewrite !sin_cons; [|by rewrite IH].
  destruct (String.eqb_spec v x); [congruence|done].
Qed.
Lemma sdel_all values taken v : sin v values = false -> sin v (fold_left sdel values taken) = sin v taken.
Proof.
  revert taken. induction values as [|x values IH]; intros taken; [done|]. rewrite sin_cons.
  intros [Hx Hv]%orb_false_iff. cbn [fold_left]. rewrite IH by done. apply sdel_other.
  intros ->. by rewrite String.eqb_refl in Hx.
Qed.

(** A claim outlives everything but its release. *)
Lemma claim_stays s e k v :
  releases k v e = false -> is_claimed s k v = true -> is_claimed (res_step s e).1 k v = true.
Proof.
  intros Hr Hc. destruct e as [k' options|k' values|k' values]; cbn [res_step fst].
  - unfold res_set. by destruct (fold_left _ _ _) as [m b].
  - unfold claim. cbv zeta. set (known := fun _ => _).
    pose proof (claim_values_spec known (mget (claimed s) k' ?? []) values) as H.
    destruct (claim_values known _ values) as [t' f]. destruct H as (_ & _ & H & _).
    unfold is_claimed in *. cbn [claimed fst]. rewrite mget_set. destruct (String.eqb_spec k' k) as [->|]; [|done].
    rewrite H. destruct (mget (claimed s) k); [|done].
    cbn [from_option]. by rewrite Hc.
  - cbn [releases] in Hr. unfold release. destruct (mget (claimed s) k') as [taken|] eqn:Et; [|done].
    unfold is_claimed in *. cbn [claimed fst]. rewrite mget_set. destruct (String.eqb_spec k' k) as [->|]; [|done].
    rewrite sdel_all by done. by rewrite Et in Hc.
Qed.

(** A claim asks once for values neither claimed nor known, and claims them. *)
Lemma step_requests s e k :
  NoDup (res_step s e).2 /\
  forall v, (k, v) ∈ (res_step s e).2 ->
    is_claimed s k v = false /\ res_get s k v = None /\ is_claimed (res_step s e).1 k v = true.
Proof.
  destruct e as [k' options|k' values|k' values]; cbn [res_step];
    try (split; [constructor|by intros v ?%elem_of_nil]).
  unfold claim. cbv zeta. set (known := fun _ => _).
  pose proof (claim_values_spec known (mget (claimed s) k' ?? []) values) as H.
  destruct (claim_values known _ values) as [t' f]. destruct H as (Hn & Hf & H & _). cbn [fst snd].
  split.
  { apply NoDup_fmap_2; [by intros ? ? [=]|done]. }
  intros v Hv. apply list_elem_of_fmap_1 in Hv as (w & [= -> ->] & Hv).
  destruct (Hf w Hv) as [H1 H2]. unfold is_claimed, res_get. cbn [claimed fst resolved].
  rewrite mget_set_eq, H, H1. unfold known, mhas in H2.
  split_and!; [by destruct (mget (claimed s) k')| |].
  - destruct (mget (resolved s) k') as [m|]; [|done]. by destruct (mget m w).
  - cbn [orb]. apply existsb_exists. exists w. split; [by apply list_elem_of_In|].
    apply String.eqb_refl.
Qed.

Lemma claimed_not_asked es s k v :
  every (fun e => negb (releases k v e)) es = true -> is_claimed s k v = true ->
  (k, v) ∉ requests s es.
Proof.
  revert s. induction es as [|e es IH]; intros s; simpl; [by intros _ _ ?%elem_of_nil|].
  intros [He Hes]%andb_true_iff Hc. apply negb_true_iff in He.
  pose proof (claim_stays s e k v He Hc) as Hc'. pose proof (step_requests s e k) as [_ Ha].
  destruct (res_step s e) as [s' asked]. cbn [fst snd] in *.
  rewrite elem_of_app. intros [Hin|Hin]; [|by eapply IH].
  destruct (Ha v Hin) as [Hf _]. congruence.
Qed.

(** How often [x] stands in [l]. *)
Notation times x l := (length (filter (fun y => y = x) l)).
Lemma times_absent {A} `{EqDecision A} (x : A) l : x ∉ l -> times x l = 0.
Proof.
  induction l as [|y l IH]; [done|]. rewrite not_elem_of_cons, filter_cons. intros [Hx Hl].
  rewrite decide_False by congruence. by apply IH.
Qed.
Lemma times_NoDup {A} `{EqDecision A} (x : A) l : NoDup l -> times x l <= 1.
Proof.
  induction 1 as [|y l Hy _ IH]; [simpl; lia|]. rewrite filter_cons.
  destruct (decide (y = x)) as [->|]; [|done]. simpl. by rewrite times_absent.
Qed.

(** *** Properties *)

(** A value a chip holds is asked of the server once: whatever mounts,
    answers and further claims come in whatever order, the store hands a value
    of a field to a claimer at most once as long as that value is not released
    (which only a failed request does), and never one whose option it has. *)
Theorem values_asked_once (s : ResolutionStore) (es : list ResEvent) (k v : string) :
  every (fun e => negb (releases k v e)) es = true ->
  length (filter (fun r => r = (k, v)) (requests s es)) <= 1 /\
  (is_claimed s k v = true -> (k, v) ∉ requests s es) /\
  (forall values, (k, v) ∈ (res_step s (RClaim k values)).2 -> res_get s k v = None).
Proof.
  intros Hr. split_and!; [|by apply claimed_not_asked|
    intros values Hin; by apply (step_requests s (RClaim k values) k)].
  revert s Hr. induction es as [|e es IH]; intros s; simpl; [lia|].
  intros [He Hes]%andb_true_iff. pose proof (step_requests s e k) as [Hn Ha].
  destruct (res_step s e) as [s' asked]. cbn [fst snd] in *. rewrite filter_app, length_app.
  destruct (decide ((k, v) ∈ asked)) as [Hin|Hin].
  - destruct (Ha v Hin) as (_ & _ & Hc).
    rewrite (times_absent _ (requests s' es)) by (by apply claimed_not_asked).
    rewrite Nat.add_0_r. by apply times_NoDup.
  - rewrite times_absent by done. by apply IH.
Qed.
Lemma values_asked_once_witness :
  let es := [RClaim "city" ["1"; "2"]; RSet "city" []; RClaim "city" ["2"; "3"]] in
  requests createFilterResolutionStore es = [("city", "1"); ("city", "2"); ("city", "3")] /\
  times ("city", "2") (requests createFilterResolutionStore es) <= 1.
Proof. split; [reflexivity|]. apply values_asked_once. reflexivity. Defined.

(** The actions a locked bar must not carry out. *)
Definition asks_change (a : Action) : bool :=
  match a with
  | Announce _ | DispatchDraft Close | CloseDraft | NextId | SetFocus _ => false
  | _ => true
  end.

Lemma locked_draft {St} `{!IdSource St} p (b : FilterBar St) :
  locked p b = true -> draft_effect p b = (b, []) \/ draft_effect p b = (closeDraft b, []).
Proof.
  intros Hl. unfold draft_effect. destruct (b_draft b) as [d|]; [|by left].
  destruct (d_status d); [by left|]. destruct (negb _); [by left|]. right.
  unfold updateRule. rewrite Hl. by destruct (d_ruleId d) as [[|c s]|].
Qed.
Lemma latest_locked {St} `{!IdSource St} p (b : FilterBar St) :
  p_disabled p || p_readOnly p = true -> locked p (repair_effect p (latest_effect p b)) = true.
Proof. intros H. unfold locked. by rewrite H. Qed.

(** A locked bar (disabled or read only, by the caller's render or by the
    latest one) does nothing at all when asked for a change: no query, id,
    store, draft or announcement moves and the veto hook is not consulted; and
    a commit of a locked bar turns no draft into a rule. *)
Theorem locked_bar_is_inert {St} `{!IdSource St} call (p : Props) (b : FilterBar St) (a : Action) :
  (locked p b = true -> asks_change a = true -> act call p b a = (b, [])) /\
  (p_disabled p || p_readOnly p = true ->
   (commit p b).2 = [] /\ b_ref (commit p b).1 = rendered_query p b /\
   b_internal (commit p b).1 = b_internal b /\ b_ids (commit p b).1 = b_ids b /\
   b_rows (commit p b).1 = b_rows b /\ b_announced (commit p b).1 = b_announced b).
Proof.
  split.
  - intros Hl Ha. destruct a as [| | | | | | | | | | | | | | |action| | | | |];
      try (by destruct action); try done; cbn [act];
      unfold addRule, addGroup, updateRule, removeNode, duplicateNode, negateRule, moveNode,
        moveNodeTo, copyNodeTo, wrapNodeInGroup, unwrapGroup, setCombinatorAction,
        toggleCombinatorAction, clearQueryAction, dispatchDraft, openCreate, openAmend;
      rewrite Hl; try done. by destruct action.
  - intros Hl. pose proof (latest_locked p b Hl) as Hl'. unfold commit.
    assert (Hr : unnoticed (latest_effect p b) (repair_effect p (latest_effect p b)) /\
      b_ids (repair_effect p (latest_effect p b)) = b_ids b /\
      b_rows (repair_effect p (latest_effect p b)) = b_rows b)
      by (unfold repair_effect; cbv zeta; case_all).
    destruct Hr as ([E1 E2 E3 _] & E4 & E5).
    destruct (locked_draft p _ Hl') as [->| ->]; split_and!; try done; cbn;
      by rewrite ?E1, ?E2, ?E3, ?E4, ?E5.
Qed.

(** C18: The consumer's [onBeforeQueryChange] and the lock stand before every
    write: an action (other than an announcement, and an insertion under a
    group that is gone) either leaves the query, the live region and the
    consumer alone, or it calls [onQueryChange] once and last with the query
    the bar then holds, which an unlocked bar proposed and the hook approved,
    and says one thing at most. *)
Theorem writes_are_approved {St} `{!IdSource St} call (p : Props) (b : FilterBar St) (a : Action) :
  speaks a = false -> ~ lost_insert b a -> written p b (act call p b a).
Proof. apply act_written. Qed.

(** C5: In a bar that owns its query, whatever actions (every rule added under
    an id the bar issued) and renders come in whatever order, vetoed and locked
    ones included, every node keeps an id of its own and no id is issued that
    the query still holds; the state and the ref keep agreeing. *)
Theorem bar_keeps_ids {St} `{IdSupply St} call (b b' : FilterBar St) :
  bar_ok b -> rtc (step call) b b' -> bar_ok b'.
Proof.
  intros Hb Hs. induction Hs as [|b b1 b' Hstep _ IH]; [done|]. apply IH.
  destruct Hstep as [b e He]. by apply handle_ok.
Qed.

(** *** The draft *)

(** A draft that the next commit turns into a rule. *)
Definition due (d : option FilterDraft) : Prop :=
  exists f, d = Some f /\ d_status f = Ready /\ isFilterDraftCommittable d = true.
Lemma insert_at_root (q : FilterQuery) n :
  insertFilterNode q n None None = Some (with_rules q (g_rules q ++ [n])).
Proof.
  unfold insertFilterNode, rewriteGroup. cbn. rewrite String.eqb_refl. f_equal.
  unfold insert_rules, splice. cbn. f_equal. by rewrite take_ge, drop_ge by lia.
Qed.

Section Draft.
Context {St : Type} `{!IdSource St}.
Implicit Types (p : Props) (b : FilterBar St).

(** A commit's state just before the draft's effect. *)
Definition before_draft p b : FilterBar St := repair_effect p (latest_effect p b).
Lemma before_draft_spec p b :
  current (before_draft p b) = q_tree (rendered_query p b) /\
  b_draft (before_draft p b) = b_draft b /\ b_ids (before_draft p b) = b_ids b /\
  l_labels (b_latest (before_draft p b)) = p_labels p /\
  l_before (b_latest (before_draft p b)) = p_before p /\
  locked p (before_draft p b) = p_disabled p || p_readOnly p.
Proof.
  unfold before_draft, repair_effect, locked, isFilterLocked. cbv zeta.
  destruct (Nat.eqb _ _); [|destruct (_ || _)]; cbn; split_and!; try done;
    by destruct (p_disabled p), (p_readOnly p).
Qed.

Lemma emit_open p b next why rule :
  locked p b = false -> (forall h q d, l_before (b_latest b) = Some h -> h q d <> Some false) ->
  exists d asked, reason d = why /\ det_rule d = rule /\ Forall is_question asked /\
    emit p b next why rule =
      ((setQuery b next d).1, asked ++ (setQuery b next d).2, true).
Proof.
  intros Hl Hh. unfold emit. rewrite Hl. cbv zeta. set (d := mkDetails why rule _).
  assert (Ha : approved b (settle (current b) next) d = true).
  { unfold approved. destruct (l_before (b_latest b)) as [h|] eqn:E; [|done].
    rewrite bool_decide_eq_false_2; [done|]. by apply Hh. }
  rewrite Ha. exists d, (match l_before (b_latest b) with Some _ => [BeforeChange (settle (current b) next) d] | None => [] end).
  split_and!; [done..| |by destruct (setQuery b next d)].
  destruct (l_before (b_latest b)); by repeat constructor.
Qed.

Lemma addRule_open p b rule :
  locked p b = false -> (forall h q d, l_before (b_latest b) = Some h -> h q d <> Some false) ->
  let b' := (addRule p b rule None).1 in
  current b' = with_rules (current b) (g_rules (current b) ++ [NRule rule]) /\
  (b_announced b').2 = countAnnouncement (labels b) (S (countFilterRules (current b))) /\
  exists d asked, reason d = RAdd /\ det_rule d = Some rule /\
    (addRule p b rule None).2 = asked ++ [OnChange (current b') d] /\ Forall is_question asked.
Proof.
  intros Hl Hh. unfold addRule. rewrite Hl. cbv zeta. rewrite insert_at_root. unfold emit_then.
  edestruct (emit_open p b (Some (with_rules (current b) (g_rules (current b) ++ [NRule rule])))
               RAdd (Some rule) Hl Hh) as (d & asked & Hr & Hd & Ha & ->).
  split_and!; [done| |by exists d, asked].
  change (countAnnouncement (labels b) (countFilterRules
            (with_rules (current b) (g_rules (current b) ++ [NRule rule])))
          = countAnnouncement (labels b) (S (countFilterRules (current b)))).
  f_equal. rewrite !count_flatten. unfold flattenFilterRules. cbn [flatten_node with_rules g_rules].
  rewrite flat_map_app, length_app. cbn. lia.
Qed.

Lemma updateRule_open p b id u :
  locked p b = false -> (forall h q d, l_before (b_latest b) = Some h -> h q d <> Some false) ->
  current (updateRule p b id u).1 = settle (current b) (updateFilterRule (current b) id u) /\
  b_ids (updateRule p b id u).1 = b_ids b.
Proof.
  intros Hl Hh. unfold updateRule. rewrite Hl.
  destruct (updateFilterRule (current b) id u) as [next|]; [|done]. cbv zeta.
  set (rows := match u_path u with Some _ => _ | None => _ end).
  edestruct (emit_open p (with_rows_store b rows) (Some next) RUpdate (findFilterRule next id) Hl Hh)
    as (d & asked & _ & _ & _ & ->). done.
Qed.

Lemma focus_set_snapshot s next : snapshot (focus_set s next) = next.
Proof. unfold focus_set. by destruct (decide _) as [->|]. Qed.

Lemma due_effect p b f :
  b_draft b = Some f -> d_status f = Ready -> isFilterDraftCommittable (Some f) = true ->
  b_draft (draft_effect p b).1 = None.
Proof.
  intros Hf Hs Hc. unfold draft_effect. rewrite Hf, Hs, Hc. cbn [negb].
  match goal with |- context [let '(x, y) := ?e in _] => by destruct e end.
Qed.
End Draft.

(** A draft the reducer says is ready becomes a rule exactly once: in an
    unlocked bar whose hook lets it through, the commit that sees it either
    amends the rule it came from, or appends one rule under a fresh id, with
    the picked path, no operator and no value, tells the consumer and the
    live region, and opens the operator menu on that rule; and after any
    commit no draft is left waiting. *)
Theorem draft_becomes_one_rule {St} `{!IdSource St} (p : Props) (b : FilterBar St) (f : FilterDraft) :
  p_disabled p || p_readOnly p = false ->
  (forall h q d, p_before p = Some h -> h q d <> Some false) ->
  b_draft b = Some f -> d_status f = Ready -> isFilterDraftCommittable (Some f) = true ->
  let q := q_tree (rendered_query p b) in
  let b' := (commit p b).1 in
  b_draft b' = None /\
  match d_ruleId f with
  | Some (String _ _ as id) =>
      current b' = settle q (updateFilterRule q id
        (mkUpdates (Some (d_path f)) (Some (d_operator f ?? "")) (Some (d_value f)) None)) /\
      b_ids b' = b_ids b
  | _ =>
      let id := (nextId (b_ids b)).1 in
      let rule := createFilterRule id (d_path f) "" VUndef None in
      current b' = with_rules q (g_rules q ++ [NRule rule]) /\
      snapshot (b_focus b') = mkFocus (Some id) (Some SegOperator) true /\
      (b_announced b').2 = countAnnouncement (p_labels p) (S (countFilterRules q)) /\
      exists d asked, reason d = RAdd /\ det_rule d = Some rule /\
        (commit p b).2 = asked ++ [OnChange (current b') d] /\ Forall is_question asked
  end.
Proof.
  intros Hl Hh Hf Hs Hc. cbv zeta. unfold commit. fold (before_draft p b).
  destruct (before_draft_spec p b) as (E1 & E2 & E3 & E4 & E5 & Hl'). rewrite Hl in Hl'.
  rewrite <-E5 in Hh. rewrite <-E2 in Hf. rewrite <-E1, <-E3, <-E4.
  remember (before_draft p b) as c eqn:Ec. clear Ec E1 E2 E3 E4 E5.
  split; [by eapply due_effect|]. unfold draft_effect. rewrite Hf, Hs, Hc, Hl'. cbn [negb].
  destruct (nextId (b_ids c)) as [id s]. cbn [fst].
  pose proof (addRule_open p (with_ids c s) (createFilterRule id (d_path f) "" VUndef None) Hl' Hh)
    as Hadd. cbv zeta in Hadd.
  pose proof (fun i u => updateRule_open p c i u Hl' Hh) as Hupdate.
  destruct (d_ruleId f) as [[|ch i]|].
  2: { specialize (Hupdate (String ch i) (mkUpdates (Some (d_path f)) (Some (d_operator f ?? ""))
                     (Some (d_value f)) None)). by destruct (updateRule _ _ _ _). }
  all: destruct (addRule _ _ _ _) as [b1 calls]; cbn [fst snd] in Hadd; cbn;
    rewrite focus_set_snapshot; destruct Hadd as (H1 & H2 & H3); split_and!; done.
Qed.

(** *** Witnesses *)

(** A bar of one text field, with and without a hook that refuses everything. *)
Definition sample_field : FilterField :=
  FField "name" "Name" None None None true false None None NoOperators None None NoEditor
    false false false false.
Definition sample_props (readOnly : bool)
    (before : option (FilterQuery -> FilterChangeDetails -> option bool)) : Props :=
  mkProps [sample_field] None None DEFAULT_FILTER_LABELS false readOnly before.
Definition refuse (_ : FilterQuery) (_ : FilterChangeDetails) : option bool := Some false.
Definition sample_bar (p : Props) : FilterBar IdFactory := mount p None (mkFactory "f" 0).
Definition no_functions (_ : string) (_ : FilterField) : list FilterOperator := [].
(** The picker opened and an attribute picked. *)
Definition picked (p : Props) : FilterBar IdFactory :=
  (run no_functions (sample_bar p)
     [Act p OpenCreateDraft; Act p (DispatchDraft (SelectField ["name"] None))]).1.

Lemma locked_bar_is_inert_witness :
  let p := sample_props true None in
  act no_functions p (sample_bar p) (AddGroup None COr) = (sample_bar p, []) /\
  (commit p (picked p)).2 = [].
Proof.
  split.
  - apply (proj1 (locked_bar_is_inert no_functions (sample_props true None) _ (AddGroup None COr)));
      reflexivity.
  - apply (proj2 (locked_bar_is_inert no_functions (sample_props true None) _ ClearQuery)).
    reflexivity.
Defined.

Lemma writes_are_approved_witness :
  let p := sample_props false (Some refuse) in
  written p (sample_bar p) (act no_functions p (sample_bar p) (AddGroup None COr)).
Proof. apply writes_are_approved; [reflexivity|]. vm_compute. discriminate. Defined.

Lemma sample_bar_ok p : p_query p = None -> bar_ok (sample_bar p).
Proof.
  intros Hp. unfold sample_bar, mount. rewrite Hp. constructor; [|done|done].
  split; cbn; [by apply NoDup_singleton|]. repeat constructor. intros n [=].
Qed.
Lemma bar_keeps_ids_witness :
  let p := sample_props false None in
  bar_ok (act no_functions p (sample_bar p) (AddGroup None COr)).1.
Proof.
  apply (bar_keeps_ids no_functions (sample_bar (sample_props false None))).
  - by apply sample_bar_ok.
  - apply rtc_once. exact (Step no_functions _ (Act (sample_props false None) (AddGroup None COr)) I).
Defined.

Lemma draft_becomes_one_rule_witness :
  let p := sample_props false None in
  let b' := (commit p (picked p)).1 in
  b_draft b' = None /\
  current b' = mkGroup "root" CAnd [NRule (createFilterRule "f1" ["name"] "" VUndef None)] /\
  (b_announced b').2 = "1 filter applied".
Proof.
  destruct (draft_becomes_one_rule (sample_props false None) (picked (sample_props false None))
              (mkDraft StepOperator Ready None ["name"] [] None VUndef "")) as (H1 & H2 & _ & H3 & _);
    [reflexivity|discriminate|reflexivity..|]. exact (conj H1 (conj H2 H3)).
Defined.

(** *** Findings *)

(** A vetoed draft leaves the focus on a rule that was never made, and no
    later render repairs it while the query stays the same object. *)
Lemma vetoed_draft_strands_focus :
  let p := sample_props false (Some refuse) in
  let b := (run no_functions (picked p) [Commit p; Commit p; Commit p]).1 in
  g_rules (current b) = [] /\ fo_id (snapshot (b_focus b)) = Some "f1" /\
  findFilterNode (current b) "f1" = None.
Proof. by vm_compute. Qed.

(** A group added under a group that is gone: the caller gets the id of a
    group that does not exist, and the live region says it was added. *)
Lemma lost_group_is_announced :
  let p := sample_props false None in
  let '(b, calls, id) := addGroup p (sample_bar p) (Some "gone") COr in
  id = "f1" /\ calls = [] /\ findFilterNode (current b) id = None /\
  (b_announced b).2 = "Group added".
Proof. by vm_compute. Qed.

(** A refused value still marks its row as touched. *)
Lemma vetoed_value_marks_row :
  let p := sample_props false None in
  let rule := createFilterRule "f1" ["name"] "is" VUndef None in
  let b := (run no_functions (sample_bar p)
              [Act p NextId; Act p (AddRule rule None); Commit (sample_props false (Some refuse));
               Act p (UpdateRule "f1" (mkUpdates None None (Some (VStr "x")) None))]).1 in
  row_has (b_rows b) "f1" = true /\ r_value <$> findFilterRule (current b) "f1" = Some VUndef.
Proof. by vm_compute. Qed.
