(* ===== verification/FilterDrag.v ===== *)
(** * Dragging a row of the filter builder

    [packages/ui/src/components/reui/filters/filters-dnd.tsx]: the measured
    boxes, the drop they resolve a pointer to, and the gesture - one press of
    the handle - as a state machine over pointer, key, timer, scroll and
    teardown events.  Coordinates are rationals, so a midpoint is exact where
    the code rounds to a double.  The panel's elements are a tree that holds
    what the code reads of each: its slot, its data attributes, its rect. *)
From Stdlib Require Export QArith Qround.
From S2P Require Import Prelude JsString JsValue FilterQuery.
Open Scope nat_scope.

(** ** Geometry *)
Definition moveDistancePx : Q := 5.
Definition touchTolerancePx : Q := 5.
Definition autoScrollEdgePx : Q := 40.
Definition autoScrollMaxStepPx : Q := 12.
Definition FILTER_ROW_SEAM_PX : Q := 6.

Record Rect := mkRect { top : Q; bottom : Q; left : Q; right : Q }.
(** A [MeasuredBox]: the drop box, and the elements it stands for. *)
Record DropBox := mkBox {
  box : Rect;
  parentId : string;
  index : Z;
  depth : nat;
  el : nat;
  card : option nat
}.
Inductive Edge := Before | After.
Record FilterDropResolution := mkResolved { target : DropBox; edge : option Edge }.

Definition contains (b : Rect) (x y grow : Q) : bool :=
  Qle_bool (left b) x && Qle_bool x (right b) &&
  Qle_bool (top b - grow) y && Qle_bool y (bottom b + grow).

(** The first of the deepest boxes that contain the point. *)
Definition deepest (x y grow : Q) (boxes : list DropBox) : option DropBox :=
  fold_left (fun best candidate =>
    if negb (contains (box candidate) x y grow) then best
    else match best with
         | None => Some candidate
         | Some b => if Nat.ltb (depth b) (depth candidate) then Some candidate else best
         end) boxes None.

Definition resolveFilterDrop (zones rows : list DropBox) (x y seam : Q)
    : option FilterDropResolution :=
  match deepest x y 0 zones with
  | Some zone => Some (mkResolved zone None)
  | None =>
      match deepest x y seam rows with
      | None => None
      | Some row =>
          let r := box row in
          let after := negb (Qle_bool y (top r + (bottom r - top r) / 2)) in
          Some (mkResolved
            (mkBox r (parentId row) (index row + (if after then 1 else 0)) (depth row) (el row)
               (card row))
            (Some (if after then After else Before)))
      end
  end.

Record FilterDropOrigin := mkOrigin { o_parentId : string; o_index : Z }.
Definition isFilterDropNoop (resolution : option FilterDropResolution)
    (origin : option FilterDropOrigin) (copy : bool) : bool :=
  match resolution, origin with
  | Some r, Some o =>
      if copy then false
      else if negb (String.eqb (parentId (target r)) (o_parentId o)) then false
      else Z.eqb (index (target r)) (o_index o) || Z.eqb (index (target r)) (o_index o + 1)
  | _, _ => false
  end.

(** ** Measuring the panel *)

(** An element: [data-slot="filter-row"], [data-slot="filter-group"],
    [data-drop-parent] with its index, [data-parent-id] with its index. *)
Inductive Element := mkElement {
  e_el : nat;
  e_row : bool;
  e_group : bool;
  e_drop : option (string * option Z);
  e_parent : option (string * option Z);
  e_rect : Rect;
  e_children : list Element
}.

Definition nonempty_attr (a : option (string * option Z)) : option (string * Z) :=
  match a with
  | Some (String _ _ as s, i) => Some (s, i ?? 0%Z)
  | _ => None
  end.

(** One element and what is below it: [depth] rows of the panel enclose it,
    [group] is the closest group at or above, [inside] says that the dragged
    row contains it. *)
Fixpoint zones_of (dragged depth : nat) (group : option nat) (inside : bool) (e : Element)
    {struct e} : list DropBox :=
  let inside' := inside || Nat.eqb (e_el e) dragged in
  let group' := if e_group e then Some (e_el e) else group in
  (if inside' then []
   else match nonempty_attr (e_drop e) with
        | Some (parent, i) => [mkBox (e_rect e) parent i depth (e_el e) group']
        | None => []
        end) ++
  flat_map (zones_of dragged (if e_row e then S depth else depth) group' inside') (e_children e).
Fixpoint rows_of (dragged depth : nat) (inside : bool) (e : Element) {struct e} : list DropBox :=
  (if inside || negb (e_row e) then []
   else match nonempty_attr (e_parent e) with
        | Some (parent, i) => [mkBox (e_rect e) parent i depth (e_el e) None]
        | None => []
        end) ++
  flat_map (rows_of dragged (if e_row e then S depth else depth)
              (inside || Nat.eqb (e_el e) dragged)) (e_children e).

(** The scroller of the panel: its rect, and the furthest it scrolls. *)
Record Viewport := mkViewport { v_rect : Rect; v_extent : Q }.
Record Surface := mkSurface {
  zones : list DropBox;
  rows : list DropBox;
  viewport : option Viewport;
  startScrollTop : Q
}.
Definition collectSurface (root : Element) (dragged : nat) (v : option Viewport) (scrollTop : Q)
    : Surface :=
  mkSurface (flat_map (zones_of dragged 0 (if e_group root then Some (e_el root) else None) false)
               (e_children root))
    (flat_map (rows_of dragged 0 false) (e_children root)) v
    (match v with Some _ => scrollTop | None => 0%Q end).

(** ** The gesture *)

(** What the press found. *)
Record Press := mkPress {
  nodeId : string;
  pointerId : nat;
  isTouch : bool;
  startX : Q;
  startY : Q;
  source : nat;
  sourceRect : Rect;
  origin : option FilterDropOrigin;
  panel : Element;
  scroller : option Viewport;
  devicePixelRatio : Q
}.

Inductive DropState := DropOk | DropNoop | DropNone.
#[export] Instance DropState_eq_dec : EqDecision DropState.
Proof. solve_decision. Defined.

(** The variables of [startDrag] and what it has put on the page.  [scrollTop]
    is the scroller's, [autoscroll] the step of the frame loop when it runs,
    [timer] the touch timer; [carry] is where the row's copy hangs. *)
Record Drag := mkDrag {
  active : bool;
  finished : bool;
  surface : option Surface;
  hit : option FilterDropResolution;
  copy : bool;
  lastEvent : option (Q * Q);
  timer : bool;
  autoscroll : option Q;
  dropState : DropState;
  scrollTop : Q;
  carry : option (Q * Q);
  cursor : string;
  userSelect : string;
  dragging : bool;
  dropNoop : bool;
  painted : option FilterDropResolution;
  endedAt : option Q
}.

Inductive Event :=
| PointerMove (id : nat) (x y : Q) (altKey : bool)
| PointerUp (id : nat)
| PointerCancel (id : nat)
| KeyDown (key : string)
| KeyUp (key : string)
| Blur
| Scrolled (top : Q)
| Timer
| Tick
| PanelGone.

Record FilterDropDetails := mkDrop { drop_parentId : string; drop_index : Z; drop_copy : bool }.
(** [options.onDrop(nodeId, details)]. *)
Inductive Call := OnDrop (node : string) (d : FilterDropDetails).

Section Gesture.
Context (p : Press).
Implicit Types (s : Drag).

Definition press (altKey : bool) (top : Q) (ended : option Q) : Drag :=
  mkDrag false false None None altKey None (isTouch p) None DropNone top None "" "" false false None
    ended.

(** [Math.round(value * dpr) / dpr] *)
Definition snapToPixel (value : Q) : Q :=
  let dpr := if Qeq_bool (devicePixelRatio p) 0 then 1%Q else devicePixelRatio p in
  (inject_Z (Qfloor (value * dpr + (1 # 2))) / dpr)%Q.
Definition positionCarry s (x y : Q) : Drag :=
  match carry s with
  | None => s
  | Some _ =>
      mkDrag (active s) (finished s) (surface s) (hit s) (copy s) (lastEvent s) (timer s)
        (autoscroll s) (dropState s) (scrollTop s)
        (Some (snapToPixel (x - (startX p - left (sourceRect p))),
               snapToPixel (y - (startY p - top (sourceRect p)))))
        (cursor s) (userSelect s) (dragging s) (dropNoop s) (painted s) (endedAt s)
  end.

Definition cursor_of (a : bool) (state : DropState) (c : bool) (old : string) : string :=
  if negb a then old
  else match state with
       | DropNone => "no-drop"
       | _ => if c then "copy" else "grabbing"
       end.

(** What a pointer at [(x, y)] resolves to, scrolling taken into account. *)
Definition resolve_at (sf : Surface) (scrolled x y : Q) : option FilterDropResolution :=
  let top := match viewport sf with Some _ => scrolled | None => startScrollTop sf end in
  resolveFilterDrop (zones sf) (rows sf) x (y + (top - startScrollTop sf)) FILTER_ROW_SEAM_PX.

Definition hitTest s (x y : Q) : Drag :=
  match surface s with
  | None => s
  | Some sf =>
      let resolved := resolve_at sf (scrollTop s) x y in
      let noop := isFilterDropNoop resolved (origin p) (copy s) in
      let hit' := if noop then None else resolved in
      let state := if noop then DropNoop else match hit' with Some _ => DropOk | None => DropNone end in
      mkDrag (active s) (finished s) (surface s) hit' (copy s) (lastEvent s) (timer s)
        (autoscroll s) state (scrollTop s) (carry s)
        (cursor_of (active s) state (copy s) (cursor s)) (userSelect s) (dragging s) noop
        hit' (endedAt s)
  end.
Definition hit_last s : Drag :=
  match lastEvent s with Some (x, y) => hitTest s x y | None => s end.

Definition setCopy s (next : bool) : Drag :=
  if Bool.eqb (copy s) next then s
  else hit_last
    (mkDrag (active s) (finished s) (surface s) (hit s) next (lastEvent s) (timer s)
       (autoscroll s) (dropState s) (scrollTop s) (carry s)
       (cursor_of (active s) (dropState s) next (cursor s)) (userSelect s) (dragging s)
       (dropNoop s) (painted s) (endedAt s)).

(** The step a pointer at [y] asks the scroller for. *)
Definition scroll_delta (r : Rect) (y : Q) : Q :=
  if Qle_bool (top r) y && negb (Qle_bool (top r + autoScrollEdgePx) y)
  then - (autoScrollMaxStepPx * ((top r + autoScrollEdgePx - y) / autoScrollEdgePx))
  else if Qle_bool y (bottom r) && negb (Qle_bool y (bottom r - autoScrollEdgePx))
  then
    let t := ((y - (bottom r - autoScrollEdgePx)) / autoScrollEdgePx)%Q in
    autoScrollMaxStepPx * (if Qle_bool t 1 then t else 1)
  else 0.
Definition with_autoscroll s (a : option Q) : Drag :=
  mkDrag (active s) (finished s) (surface s) (hit s) (copy s) (lastEvent s) (timer s) a
    (dropState s) (scrollTop s) (carry s) (cursor s) (userSelect s) (dragging s) (dropNoop s)
    (painted s) (endedAt s).
Definition autoScroll s (y : Q) : Drag :=
  match surface s with
  | Some (mkSurface _ _ (Some v) _) =>
      let delta := scroll_delta (v_rect v) y in
      with_autoscroll s (if Qeq_bool delta 0 then None else Some delta)
  | _ => with_autoscroll s None
  end.
Definition with_scroll s (top : Q) : Drag :=
  mkDrag (active s) (finished s) (surface s) (hit s) (copy s) (lastEvent s) (timer s) (autoscroll s)
    (dropState s) top (carry s) (cursor s) (userSelect s) (dragging s) (dropNoop s)
    (painted s) (endedAt s).
(** A frame of the loop; the browser clamps what it writes. *)
Definition tick s : Drag :=
  match autoscroll s, surface s with
  | Some delta, Some (mkSurface _ _ (Some v) _) =>
      let wanted := (scrollTop s + delta)%Q in
      let next := if Qle_bool wanted 0 then 0%Q
                  else if Qle_bool (v_extent v) wanted then v_extent v else wanted in
      if Qeq_bool next (scrollTop s) then with_autoscroll s None
      else hit_last (with_scroll s next)
  | _, _ => s
  end.

Definition onViewportScroll s (top : Q) : Drag :=
  let s' := with_scroll s top in
  if active s then hit_last s' else s'.

Definition activate s : Drag :=
  if active s then s
  else
    positionCarry
      (mkDrag true (finished s) (Some (collectSurface (panel p) (source p) (scroller p) (scrollTop s)))
         (hit s) (copy s) (lastEvent s) (timer s) (autoscroll s) (dropState s) (scrollTop s)
         (Some (0%Q, 0%Q)) (if copy s then "copy" else "grabbing") "none" true (dropNoop s)
         (painted s) (endedAt s))
      (startX p) (startY p).

Definition cleanup s : Drag :=
  if finished s then s
  else
    mkDrag (active s) true (surface s) (hit s) (copy s) (lastEvent s) false None (dropState s)
      (scrollTop s) None "" "" false false
      (match surface s with Some _ => None | None => painted s end) (endedAt s).
Definition ended s (now : Q) : Drag :=
  mkDrag (active s) (finished s) (surface s) (hit s) (copy s) (lastEvent s) (timer s) (autoscroll s)
    (dropState s) (scrollTop s) (carry s) (cursor s) (userSelect s) (dragging s) (dropNoop s)
    (painted s) (Some now).
Definition cancel s (now : Q) : Drag := cleanup (if active s then ended s now else s).

Definition with_last s (x y : Q) : Drag :=
  mkDrag (active s) (finished s) (surface s) (hit s) (copy s) (Some (x, y)) (timer s) (autoscroll s)
    (dropState s) (scrollTop s) (carry s) (cursor s) (userSelect s) (dragging s) (dropNoop s)
    (painted s) (endedAt s).

(** [Math.hypot(dx, dy) > d], on squares. *)
Definition further (d x y : Q) : bool :=
  let dx := (x - startX p)%Q in let dy := (y - startY p)%Q in
  negb (Qle_bool (dx * dx + dy * dy) (d * d)).
Definition nearer (d x y : Q) : bool :=
  let dx := (x - startX p)%Q in let dy := (y - startY p)%Q in
  negb (Qle_bool (d * d) (dx * dx + dy * dy)).

Definition follow s (x y : Q) (altKey : bool) : Drag :=
  autoScroll (hitTest (positionCarry (setCopy s altKey) x y) x y) y.
Definition onPointerMove s (now : Q) (id : nat) (x y : Q) (altKey : bool) : Drag :=
  if negb (Nat.eqb id (pointerId p)) then s
  else
    let s := with_last s x y in
    if active s then follow s x y altKey
    else if isTouch p then (if further touchTolerancePx x y then cancel s now else s)
    else if nearer moveDistancePx x y then s
    else follow (activate s) x y altKey.

Definition onPointerUp s (now : Q) (id : nat) : Drag * list Call :=
  if negb (Nat.eqb id (pointerId p)) then (s, [])
  else
    let landed := if active s then hit s else None in
    let wasCopy := copy s in
    let s' := cleanup s in
    if negb (active s') then (s', [])
    else
      (ended s' now,
       match landed with
       | None => []
       | Some r => [OnDrop (nodeId p) (mkDrop (parentId (target r)) (index (target r)) wasCopy)]
       end).

Definition onKeyDown s (now : Q) (key : string) : Drag :=
  if String.eqb key "Escape" && active s then cancel s now
  else if String.eqb key "Alt" then setCopy s true else s.
Definition onKeyUp s (key : string) : Drag := if String.eqb key "Alt" then setCopy s false else s.

(** The touch timer: the press was held. *)
Definition onTimer s : Drag :=
  let s' := activate s in
  match lastEvent s' with
  | Some (x, y) => hitTest (positionCarry s' x y) x y
  | None => s'
  end.
Definition without_timer s : Drag :=
  mkDrag (active s) (finished s) (surface s) (hit s) (copy s) (lastEvent s) false (autoscroll s)
    (dropState s) (scrollTop s) (carry s) (cursor s) (userSelect s) (dragging s) (dropNoop s)
    (painted s) (endedAt s).

(** One event. [cleanup] has taken every listener, timer and frame away, so a
    finished gesture hears of nothing; [blur] and [scroll] are armed with the
    activation. *)
Definition handle (now : Q) s (e : Event) : Drag * list Call :=
  if finished s then (match e with Scrolled top => with_scroll s top | _ => s end, [])
  else
    match e with
    | PointerMove id x y altKey => (onPointerMove s now id x y altKey, [])
    | PointerUp id => onPointerUp s now id
    | PointerCancel id => (if Nat.eqb id (pointerId p) then cancel s now else s, [])
    | KeyDown key => (onKeyDown s now key, [])
    | KeyUp key => (onKeyUp s key, [])
    | Blur => (if active s then cancel s now else s, [])
    | Scrolled top => (onViewportScroll s top, [])
    | Timer => (if timer s then onTimer (without_timer s) else s, [])
    | Tick => (tick s, [])
    | PanelGone => (cancel s now, [])
    end.
Fixpoint run s (es : list (Q * Event)) : Drag * list Call :=
  match es with
  | [] => (s, [])
  | (now, e) :: es' =>
      let '(s1, calls) := handle now s e in
      let '(s2, more) := run s1 es' in (s2, calls ++ more)
  end.
End Gesture.

(** [wasRecentFilterDrag], at a time. *)
Definition wasRecentFilterDrag (s : Drag) (now : Q) : bool :=
  match endedAt s with Some t => negb (Qle_bool 250 (now - t)) | None => negb (Qle_bool 250 now) end.
