(* ===== verification/FilterDragLaws.v ===== *)
(** * The properties of a row drag

    The gesture commits at most one drop, the one it painted, and leaves the
    page as it found it; a drop refused as "no change" is exactly a move the
    query tree would not make; siblings tile, so a pointer between two rows is
    over one of them. *)
From Stdlib Require Import Lqa.
From S2P Require Import Prelude JsString JsValue FilterQuery FilterTree FilterEdits FilterLaws FilterDrag.
Open Scope nat_scope.

(** ** The gesture *)
Section Gesture.
Context (p : Press).
Implicit Types (s : Drag).

(** What a gesture with the pointer at [(x, y)] is about to do. *)
Definition intended (sf : Surface) (scrolled x y : Q) (copy : bool) : option FilterDropResolution :=
  let r := resolve_at sf scrolled x y in
  if isFilterDropNoop r (origin p) copy then None else r.

(** No mark of the gesture is on the page. *)
Record clean s : Prop := {
  cl_painted : painted s = None;
  cl_carry : carry s = None;
  cl_cursor : cursor s = "";
  cl_select : userSelect s = "";
  cl_dragging : dragging s = false;
  cl_noop : dropNoop s = false;
  cl_scroll : autoscroll s = None
}.

(** A running gesture shows the drop it would make. *)
Record showing s : Prop := {
  sw_surface : exists sf, surface s = Some sf /\
    match lastEvent s with
    | Some (x, y) => hit s = intended sf (scrollTop s) x y (copy s)
    | None => hit s = None
    end;
  sw_painted : painted s = hit s
}.
Definition idle s : Prop := surface s = None /\ hit s = None.
Record sound s : Prop := {
  so_done : finished s = true -> clean s /\ timer s = false;
  so_idle : active s = false -> clean s /\ idle s;
  so_live : active s = true -> finished s = false -> showing s
}.

Lemma press_sound alt top ended : sound (press p alt top ended).
Proof. by repeat constructor. Qed.

(** Only [activate] measures and only [cleanup] finishes. *)
Lemma hitTest_showing s x y :
  is_Some (surface s) -> lastEvent s = Some (x, y) -> showing (hitTest p s x y).
Proof.
  intros [sf Hsf] Hl. unfold hitTest. rewrite Hsf. constructor; [|done].
  exists sf. cbn. by rewrite Hl.
Qed.
Lemma hitTest_same s x y :
  active (hitTest p s x y) = active s /\ finished (hitTest p s x y) = finished s /\
  surface (hitTest p s x y) = surface s /\ lastEvent (hitTest p s x y) = lastEvent s.
Proof. unfold hitTest. destruct (surface s) eqn:E; cbn; by rewrite ?E. Qed.

Lemma hit_last_showing s : (is_Some (lastEvent s) -> is_Some (surface s)) ->
  (lastEvent s = None -> showing s) -> showing (hit_last p s).
Proof.
  intros H1 H2. unfold hit_last. destruct (lastEvent s) as [[x y]|] eqn:E; [|by apply H2].
  apply hitTest_showing; [|done]. apply H1. by eexists.
Qed.
Lemma hit_last_same s :
  active (hit_last p s) = active s /\ finished (hit_last p s) = finished s /\
  surface (hit_last p s) = surface s /\ lastEvent (hit_last p s) = lastEvent s.
Proof. unfold hit_last. destruct (lastEvent s) as [[x y]|] eqn:E; [|done]. rewrite <-E. apply hitTest_same. Qed.

Lemma setCopy_same s c :
  active (setCopy p s c) = active s /\ finished (setCopy p s c) = finished s /\
  surface (setCopy p s c) = surface s /\ lastEvent (setCopy p s c) = lastEvent s.
Proof. unfold setCopy. destruct (Bool.eqb _ _); [done|]. apply (hit_last_same (mkDrag _ _ _ _ _ _ _ _ _ _ _ _ _ _ _ _ _)). Qed.
Lemma positionCarry_same s x y :
  active (positionCarry p s x y) = active s /\ finished (positionCarry p s x y) = finished s /\
  surface (positionCarry p s x y) = surface s /\ lastEvent (positionCarry p s x y) = lastEvent s.
Proof. unfold positionCarry. by destruct (carry s). Qed.
Lemma autoScroll_same s y :
  active (autoScroll s y) = active s /\ finished (autoScroll s y) = finished s /\
  (showing s -> showing (autoScroll s y)).
Proof. unfold autoScroll. destruct (surface s) as [[? ? [v|] ?]|]; split_and!; try done; by intros [H1 H2]. Qed.

Lemma live_sound s : active s = true -> finished s = false -> showing s -> sound s.
Proof. intros Ha Hf Hs. constructor; congruence. Qed.

(** A move of the pointer, once the surface is measured. *)
Lemma follow_sound s x y alt :
  active s = true -> finished s = false -> is_Some (surface s) -> lastEvent s = Some (x, y) ->
  sound (follow p s x y alt).
Proof.
  intros Ha Hf Hs Hl. unfold follow.
  destruct (setCopy_same s alt) as (A1 & A2 & A3 & A4).
  destruct (positionCarry_same (setCopy p s alt) x y) as (B1 & B2 & B3 & B4).
  destruct (hitTest_same (positionCarry p (setCopy p s alt) x y) x y) as (C1 & C2 & C3 & C4).
  destruct (autoScroll_same (hitTest p (positionCarry p (setCopy p s alt) x y) x y) y) as (D1 & D2 & D3).
  apply live_sound; [congruence..|]. apply D3, hitTest_showing; [by rewrite B3, A3|congruence].
Qed.

Lemma activate_same s : active s = false ->
  active (activate p s) = true /\ finished (activate p s) = finished s /\
  is_Some (surface (activate p s)) /\ lastEvent (activate p s) = lastEvent s.
Proof.
  intros Ha. unfold activate. rewrite Ha.
  destruct (positionCarry_same (mkDrag true (finished s)
    (Some (collectSurface (panel p) (source p) (scroller p) (scrollTop s)))
    (hit s) (copy s) (lastEvent s) (timer s) (autoscroll s) (dropState s) (scrollTop s)
    (Some (0%Q, 0%Q)) (if copy s then "copy" else "grabbing") "none" true (dropNoop s)
    (painted s) (endedAt s)) (startX p) (startY p)) as (-> & -> & -> & ->).
  by split_and!.
Qed.

Lemma cleanup_sound s : sound s -> sound (cleanup s).
Proof.
  intros Hs. unfold cleanup. destruct (finished s) eqn:Ef; [done|]. destruct Hs as [Hd Hi Hl].
  constructor; cbn; intros Ha; try discriminate.
  - split; [|done]. constructor; try done. cbn. destruct (surface s) eqn:Es; [done|].
    destruct (active s) eqn:Ea; [|by apply Hi]. destruct (Hl eq_refl Ef) as [[sf [Hsf _]] _]. congruence.
  - destruct (Hi Ha) as [[] [Hs ?]]. split; [|done]. constructor; try done. cbn. by rewrite Hs.
Qed.
Lemma ended_sound s now : sound s -> sound (ended s now).
Proof.
  intros [Hd Hi Hl]. constructor; cbn; intros Ha.
  - destruct (Hd Ha) as [[] ?]. by split.
  - destruct (Hi Ha) as [[] ?]. by split.
  - intros Hf. by destruct (Hl Ha Hf).
Qed.
Lemma cancel_sound s now : sound s -> sound (cancel s now).
Proof. intros Hs. apply cleanup_sound. destruct (active s); [by apply ended_sound|done]. Qed.
Lemma cancel_finished s now : finished (cancel s now) = true.
Proof. unfold cancel, cleanup. by destruct (active s); cbn; destruct (finished s) eqn:E; cbn. Qed.

(** The changes that leave an idle gesture idle. *)
Lemma idle_sound s s' : sound s -> active s = false -> active s' = false -> finished s = finished s' ->
  (clean s -> clean s') -> (idle s -> idle s') -> (timer s = false -> timer s' = false) -> sound s'.
Proof.
  intros [Hd Hi Hl] Ha Ha' Hf Hc H1 Ht. destruct (Hi Ha) as [Hcl Hid].
  constructor; [|by split; auto|congruence]. rewrite <-Hf. intros Hfin. destruct (Hd Hfin). auto.
Qed.

Lemma setCopy_sound s c : finished s = false -> sound s -> sound (setCopy p s c).
Proof.
  intros Hf Hs. destruct (setCopy_same s c) as (A1 & A2 & A3 & A4).
  destruct (active s) eqn:Ea.
  - apply live_sound; [congruence..|]. destruct (so_live s Hs Ea Hf) as [[sf [Hsf Hh]] Hp].
    unfold setCopy. destruct (Bool.eqb _ _); [constructor; eauto|].
    apply hit_last_showing; cbn; [by rewrite Hsf|]. intros Hl. constructor; [|done]. exists sf.
    cbn. rewrite Hl in Hh |- *. done.
  - apply (idle_sound s); try congruence; unfold setCopy; destruct (Bool.eqb _ _); try done;
      unfold hit_last, hitTest, cursor_of; cbn; destruct (so_idle s Hs Ea) as [_ [Hsf _]];
      rewrite Hsf, Ea; cbn; destruct (lastEvent s) as [[x y]|]; cbn; try done; by intros [].
Qed.

Lemma scrolled_sound s top : finished s = false -> sound s -> sound (onViewportScroll p s top).
Proof.
  intros Hf Hs. unfold onViewportScroll. destruct (active s) eqn:Ea.
  - destruct (hit_last_same (with_scroll s top)) as (A1 & A2 & _).
    apply live_sound; [by rewrite A1|by rewrite A2|].
    destruct (so_live s Hs Ea Hf) as [[sf [Hsf Hh]] Hp].
    apply hit_last_showing; cbn; [by rewrite Hsf|]. intros Hl. constructor; [|done]. exists sf.
    cbn. by rewrite Hl in Hh |- *.
  - by apply (idle_sound s); cbn; try done; intros [].
Qed.

Lemma tick_sound s : finished s = false -> sound s -> sound (tick p s).
Proof.
  intros Hf Hs. unfold tick. destruct (autoscroll s) as [delta|] eqn:Et; [|done].
  destruct (surface s) as [[zs rs [v|] st]|] eqn:Es; try done. cbv zeta.
  destruct (active s) eqn:Ea; [|destruct (so_idle s Hs Ea) as [_ [? _]]; congruence].
  destruct (so_live s Hs Ea Hf) as [[sf [Hsf Hh]] Hp]. set (next := if Qle_bool _ 0 then _ else _).
  destruct (Qeq_bool _ _).
  - apply live_sound; [done..|]. by constructor; [exists sf|].
  - destruct (hit_last_same (with_scroll s next)) as (A1 & A2 & _).
    apply live_sound; [by rewrite A1|by rewrite A2|]. apply hit_last_showing; cbn; [by rewrite Es|].
    intros Hl. constructor; [|done]. exists sf. split; [done|]. cbn. by rewrite Hl in Hh |- *.
Qed.

Lemma with_last_idle s x y : sound s -> active s = false -> sound (with_last s x y).
Proof. intros Hs Ha. by apply (idle_sound s); cbn; try done; intros []. Qed.

Lemma move_sound s now id x y alt :
  finished s = false -> sound s -> sound (onPointerMove p s now id x y alt).
Proof.
  intros Hf Hs. unfold onPointerMove. destruct (negb _); [done|]. cbv zeta. cbn [active with_last].
  destruct (active s) eqn:Ea.
  - apply follow_sound; try done. cbn. destruct (so_live s Hs Ea Hf) as [[sf [-> _]] _]. by eexists.
  - pose proof (with_last_idle s x y Hs Ea) as Hw. destruct (isTouch p).
    + destruct (further _ _ _ _); [by apply cancel_sound|done].
    + destruct (nearer _ _ _ _); [done|].
      destruct (activate_same (with_last s x y) Ea) as (A1 & A2 & A3 & A4).
      apply follow_sound; [done|by rewrite A2|done|by rewrite A4].
Qed.

Lemma timer_sound s : finished s = false -> sound s -> sound (onTimer p (without_timer s)).
Proof.
  intros Hf Hs. unfold onTimer. cbv zeta. destruct (active s) eqn:Ea.
  - unfold activate. cbn [active without_timer]. rewrite Ea. cbn [lastEvent without_timer].
    destruct (so_live s Hs Ea Hf) as [[sf [Hsf Hh]] Hp]. destruct (lastEvent s) as [[x y]|] eqn:El.
    + destruct (positionCarry_same (without_timer s) x y) as (B1 & B2 & B3 & B4).
      destruct (hitTest_same (positionCarry p (without_timer s) x y) x y) as (C1 & C2 & _).
      apply live_sound; [by rewrite C1, B1|by rewrite C2, B2|].
      apply hitTest_showing; [rewrite B3; by eexists|by rewrite B4].
    + apply live_sound; [done..|]. constructor; [|done]. exists sf. cbn. by rewrite El.
  - destruct (activate_same (without_timer s) Ea) as (A1 & A2 & A3 & A4). cbn in A2, A4.
    rewrite A4. destruct (lastEvent s) as [[x y]|] eqn:El.
    + destruct (positionCarry_same (activate p (without_timer s)) x y) as (B1 & B2 & B3 & B4).
      destruct (hitTest_same (positionCarry p (activate p (without_timer s)) x y) x y) as (C1 & C2 & _).
      apply live_sound; [congruence..|]. apply hitTest_showing; [by rewrite B3|congruence].
    + apply live_sound; [done|congruence|]. destruct (so_idle s Hs Ea) as [Hc [Hsf Hh]].
      unfold activate in *. cbn [active without_timer] in *. rewrite Ea in *. cbn in *.
      constructor; [|cbn; rewrite Hh; apply Hc]. eexists. cbn. split; [done|]. by rewrite El.
Qed.

Lemma handle_sound now s e : sound s -> sound (handle p now s e).1.
Proof.
  intros Hs. unfold handle. destruct (finished s) eqn:Ef.
  { destruct e; try done. cbn. destruct Hs as [Hd Hi Hl]. constructor; cbn; [| |congruence].
    - intros H. by destruct (Hd H) as [[] ?].
    - intros H. by destruct (Hi H) as [[] ?]. }
  destruct e; cbn [fst].
  - by apply move_sound.
  - unfold onPointerUp. destruct (negb _); [done|]. cbv zeta.
    pose proof (cleanup_sound s Hs). destruct (negb (active (cleanup s))); [done|]. by apply ended_sound.
  - destruct (Nat.eqb _ _); [by apply cancel_sound|done].
  - unfold onKeyDown. destruct (_ && _); [by apply cancel_sound|].
    destruct (String.eqb _ _); [by apply setCopy_sound|done].
  - unfold onKeyUp. destruct (String.eqb _ _); [by apply setCopy_sound|done].
  - destruct (active s); [by apply cancel_sound|done].
  - by apply scrolled_sound.
  - destruct (timer s); [by apply timer_sound|done].
  - by apply tick_sound.
  - by apply cancel_sound.
Qed.
Lemma run_sound es s : sound s -> sound (run p s es).1.
Proof.
  revert s. induction es as [|[now e] es IH]; intros s Hs; simpl; [done|].
  pose proof (handle_sound now s e Hs) as H1. destruct (handle p now s e) as [s1 calls].
  specialize (IH s1 H1). by destruct (run p s1 es).
Qed.

(** The drop a release makes. *)
Definition dropped (r : FilterDropResolution) (copy : bool) : Call :=
  OnDrop (nodeId p) (mkDrop (parentId (target r)) (index (target r)) copy).

Lemma handle_call now s e : sound s ->
  (handle p now s e).2 = [] \/
  exists r, e = PointerUp (pointerId p) /\ active s = true /\ painted s = Some r /\
    isFilterDropNoop (Some r) (origin p) (copy s) = false /\
    (handle p now s e).2 = [dropped r (copy s)] /\ finished (handle p now s e).1 = true.
Proof.
  intros Hs. unfold handle. destruct (finished s) eqn:Ef; [by left|]. destruct e; try by left.
  unfold onPointerUp. destruct (Nat.eqb_spec id (pointerId p)) as [->|]; [|by left]. cbn [negb].
  cbv zeta. assert (Ha : active (cleanup s) = active s) by (unfold cleanup; by destruct (finished s)).
  rewrite Ha. destruct (active s) eqn:Ea; [|by left]. cbn [negb snd fst].
  destruct (so_live s Hs Ea Ef) as [[sf [Hsf Hh]] Hp].
  destruct (hit s) as [r|] eqn:Eh; [right|by left]. exists r. split_and!; try done.
  - destruct (lastEvent s) as [[x y]|]; [|done]. unfold intended in Hh.
    destruct (isFilterDropNoop _ _ _) eqn:En in Hh; [done|]. by rewrite <-Hh in En.
  - cbn. unfold cleanup. by rewrite Ef.
Qed.

Lemma finished_run es s : finished s = true -> (run p s es).2 = [].
Proof.
  revert s. induction es as [|[now e] es IH]; intros s Hf; simpl; [done|].
  unfold handle. rewrite Hf. set (s1 := match e with Scrolled _ => _ | _ => _ end).
  specialize (IH s1). destruct (run p s1 es) as [s2 more]. cbn in *. apply IH.
  unfold s1. by destruct e.
Qed.
End Gesture.

(** C19: A press of a drag handle drops at most once, whatever pointers, keys,
    timers, scrolls and teardowns follow and in whatever order: the one drop
    is made by the release of the pressing pointer, is the one painted on the
    page at that moment, and is not one that puts the row back where it was;
    and once the gesture has ended, or before it has begun, no mark of it (the
    hanging copy, the cursor, the selection lock, the indicator, the scroll
    loop) is on the page. *)
Theorem drag_drops_what_it_shows (p : Press) (alt : bool) (top : Q) (ended : option Q)
    (es : list (Q * Event)) :
  let '(s, calls) := run p (press p alt top ended) es in
  (finished s = true \/ active s = false -> clean s) /\
  (calls = [] \/
   exists before now after s1 r, es = before ++ (now, PointerUp (pointerId p)) :: after /\
     run p (press p alt top ended) before = (s1, []) /\ active s1 = true /\ painted s1 = Some r /\
     isFilterDropNoop (Some r) (origin p) (copy s1) = false /\ calls = [dropped p r (copy s1)]).
Proof.
  destruct (run p (press p alt top ended) es) as [s calls] eqn:E.
  pose proof (press_sound p alt top ended) as Hs. split.
  { apply (run_sound p es) in Hs. rewrite E in Hs. cbn in Hs.
    intros [H|H]; [apply (so_done p s Hs H)|apply (so_idle p s Hs H)]. }
  revert E Hs.
  generalize (press p alt top ended) as s0. clear alt top ended. intros s0 E Hs.
  revert s0 s calls Hs E. induction es as [|[now e] es IH]; intros s0 s calls Hs; simpl.
  { intros [= <- <-]. by left. }
  pose proof (handle_sound p now s0 e Hs) as H1.
  destruct (handle_call p now s0 e Hs) as [Hc|(r & -> & Ha & Hp & Hn & Hc & Hf)].
  - destruct (handle p now s0 e) as [s1 c1] eqn:Eh. cbn in Hc, H1. subst c1.
    destruct (run p s1 es) as [s2 more] eqn:Er. intros [= <- <-]. cbn.
    destruct (IH s1 s2 more H1 Er) as [->|(be & n & af & s3 & r & -> & Hr & HH)]; [by left|right].
    exists ((now, e) :: be), n, af, s3, r. split_and!; [done| |apply HH..]. cbn. by rewrite Eh, Hr.
  - destruct (handle p now s0 _) as [s1 c1] eqn:Eh. cbn in Hc, H1, Hf. subst c1.
    pose proof (finished_run p es s1 Hf) as Hm.
    destruct (run p s1 es) as [s2 more]. cbn in Hm. subst more. intros [= <- <-]. right.
    by exists [], now, es, s0, r.
Qed.

(** ** No-op drops *)

Lemma detach_found q id n par i : distinct_ids q ->
  findFilterNode q id = Some (mkFound n (Some par) i) -> is_Some (detachFilterNode q id).
Proof.
  intros Hd Hf. apply find_spec in Hf as (c & b & a & -> & Hp & <- & _).
  rewrite (detach_plug c par b n a Hd Hp). by eexists.
Qed.
(** A group below the root stands in the group around it. *)
Lemma plug_parent i k b c a (g : FilterGroupNode) : exists c' g' b' a',
  plug (Inside i k b c a) g = plug c' g' /\ g_rules g' = b' ++ NGroup g :: a'.
Proof.
  revert i k b a. induction c as [|i2 k2 b2 c IH a2]; intros i k b a.
  - by exists Hole, (mkGroup i k (b ++ NGroup g :: a)), b, a.
  - destruct (IH i2 k2 b2 a2) as (c' & g' & b' & a' & E & Hg).
    exists (Inside i k b c' a), g', b', a'. split; [|done]. cbn [plug] in E |- *. by rewrite E.
Qed.
Lemma find_group c (g : FilterGroupNode) : distinct_ids (plug c g) ->
  exists around i, findFilterNode (plug c g) (g_id g) = Some (mkFound (NGroup g) around i).
Proof.
  intros Hd. destruct c as [|i k b c a].
  - exists None, (-1)%Z. unfold findFilterNode. cbn. by rewrite String.eqb_refl.
  - destruct (plug_parent i k b c a g) as (c' & g' & b' & a' & E & Hg). rewrite E in Hd |- *.
    exists (Some g'), (Z.of_nat (length b')). exact (find_plug c' g' b' (NGroup g) a' Hd Hg).
Qed.

(** A move inside its own group is refused in the two slots around the node. *)
Lemma move_same_parent q id n par i index : distinct_ids q ->
  findFilterNode q id = Some (mkFound n (Some par) i) ->
  moveFilterNodeTo q id (g_id par) index = None <-> index = i \/ index = (i + 1)%Z.
Proof.
  intros Hd Hf. unfold moveFilterNodeTo. rewrite Hf.
  pose proof Hf as Hs. apply find_spec in Hs as (c & b & a & -> & Hp & <- & ->).
  destruct (distinct_hole c par b n a Hd Hp) as [_ Hout].
  assert (Hc : containsFilterNode n (g_id par) = false).
  { destruct (containsFilterNode n (g_id par)) eqn:E; [|done]. apply contains_ids in E.
    exfalso. apply Hout. rewrite !elem_of_app. by right; left. }
  destruct (find_group c par Hd) as (around & j & Hg). rewrite Hc, Hg, String.eqb_refl.
  cbn [andb]. cbv zeta. set (at_ := Z.of_nat (length b)).
  destruct (_ =? _)%Z eqn:Et.
  - apply Z.eqb_eq in Et. split; [intros _|done]. destruct (at_ <? index)%Z eqn:El; unbool; lia.
  - apply Z.eqb_neq in Et. unfold then_edit. rewrite (detach_plug c par b n a Hd Hp). split.
    + by destruct (insertFilterNode _ _ _ _).
    + destruct (at_ <? index)%Z eqn:El; unbool; lia.
Qed.

(** A drop the drag layer refuses as "no change" is exactly a move the
    query tree would not make: for a row dragged from where it is, over a
    target in its own group, [isFilterDropNoop] holds if and only if
    [moveFilterNodeTo] returns the tree it was given; a copy is never
    refused. *)
Theorem noop_is_no_move (q : FilterQuery) (id : string) (n : FilterNode) (par : FilterGroupNode)
    (i : Z) (r : FilterDropResolution) :
  distinct_ids q -> findFilterNode q id = Some (mkFound n (Some par) i) ->
  parentId (target r) = g_id par ->
  (isFilterDropNoop (Some r) (Some (mkOrigin (g_id par) i)) false = true <->
   moveFilterNodeTo q id (parentId (target r)) (index (target r)) = None) /\
  isFilterDropNoop (Some r) (Some (mkOrigin (g_id par) i)) true = false.
Proof.
  intros Hd Hf Hr. split; [|done]. rewrite Hr, (move_same_parent q id n par i) by done.
  unfold isFilterDropNoop. cbn. rewrite Hr, String.eqb_refl. cbn.
  by rewrite orb_true_iff, !Z.eqb_eq.
Qed.
Lemma noop_is_no_move_witness :
  let b := mkBox (mkRect 0 10 0 10) "f2" 1 1 7 None in
  moveFilterNodeTo sample "f3" "f2" 1 = None /\
  isFilterDropNoop (Some (mkResolved b (Some After))) (Some (mkOrigin "f2" 0)) false = true.
Proof.
  cbv zeta. set (r := mkResolved (mkBox (mkRect 0 10 0 10) "f2" 1 1 7 None) (Some After)).
  edestruct (noop_is_no_move sample "f3") with (r := r) as [H _];
    [apply sample_distinct|reflexivity|reflexivity|].
  assert (Hn : isFilterDropNoop (Some r) (Some (mkOrigin "f2" 0)) false = true) by reflexivity.
  exact (conj (proj1 H Hn) Hn).
Defined.

(** ** Resolution *)
Lemma contains_spec b x y grow : contains b x y grow = true <->
  (left b <= x /\ x <= right b /\ top b - grow <= y /\ y <= bottom b + grow)%Q.
Proof. unfold contains. rewrite !andb_true_iff, !Qle_bool_iff. tauto. Qed.

(** The box a pointer resolves to contains it, and no deeper one does. *)
Lemma deepest_spec x y grow boxes :
  match deepest x y grow boxes with
  | Some b => b ∈ boxes /\ contains (box b) x y grow = true /\
      forall c, c ∈ boxes -> contains (box c) x y grow = true -> depth c <= depth b
  | None => forall c, c ∈ boxes -> contains (box c) x y grow = false
  end.
Proof.
  unfold deepest. induction boxes as [|c l IH] using rev_ind; [by intros c ?%elem_of_nil|].
  rewrite fold_left_app. cbn [fold_left].
  destruct (fold_left _ l None) as [b|]; destruct (contains (box c) x y grow) eqn:Ec; cbn [negb].
  - destruct IH as (Hb & Hc & Hm). destruct (Nat.ltb (depth b) (depth c)) eqn:El; unbool.
    + split_and!; [set_solver|done|]. intros d [Hd|Hd%list_elem_of_singleton]%elem_of_app Hcd;
        [specialize (Hm d Hd Hcd); lia|by subst].
    + split_and!; [set_solver|done|]. intros d [Hd|Hd%list_elem_of_singleton]%elem_of_app Hcd;
        [by apply Hm|by subst].
  - destruct IH as (Hb & Hc & Hm). split_and!; [set_solver|done|].
    intros d [Hd|Hd%list_elem_of_singleton]%elem_of_app Hcd; [by apply Hm|congruence].
  - split_and!; [set_solver|done|].
    intros d [Hd|Hd%list_elem_of_singleton]%elem_of_app Hcd; [by rewrite IH in Hcd|by subst].
  - intros d [Hd|Hd%list_elem_of_singleton]%elem_of_app; [by apply IH|by subst].
Qed.

(** The seam: a pointer between two rows whose gap is at most twice the seam
    is over one of them. *)
Lemma siblings_tile zones rows a b x y :
  a ∈ rows -> b ∈ rows ->
  (left (box a) <= x)%Q -> (x <= right (box a))%Q -> (left (box b) <= x)%Q -> (x <= right (box b))%Q ->
  (top (box b) <= bottom (box a) + 2 * FILTER_ROW_SEAM_PX)%Q ->
  (top (box a) <= y)%Q -> (y <= bottom (box b))%Q ->
  is_Some (resolveFilterDrop zones rows x y FILTER_ROW_SEAM_PX).
Proof.
  intros Ha Hb H1 H2 H3 H4 Hgap H5 H6. unfold resolveFilterDrop.
  destruct (deepest x y 0 zones) as [z|]; [by eexists|].
  pose proof (deepest_spec x y FILTER_ROW_SEAM_PX rows) as Hd.
  destruct (deepest x y FILTER_ROW_SEAM_PX rows) as [r|]; [by eexists|].
  exfalso. unfold FILTER_ROW_SEAM_PX in *.
  destruct (Qlt_le_dec (bottom (box a) + 6) y) as [Hy|Hy].
  - specialize (Hd b Hb). assert (Ht : contains (box b) x y 6 = true)
      by (apply contains_spec; split_and!; lra). congruence.
  - specialize (Hd a Ha). assert (Ht : contains (box a) x y 6 = true)
      by (apply contains_spec; split_and!; lra). congruence.
Qed.

(** The loop never asks for more than its greatest step, and for none away
    from the edges. *)
Lemma scroll_delta_bounded r y :
  (- autoScrollMaxStepPx <= scroll_delta r y /\ scroll_delta r y <= autoScrollMaxStepPx)%Q.
Proof.
  unfold scroll_delta, autoScrollMaxStepPx, autoScrollEdgePx. unfold Qdiv.
  change (/ 40)%Q with (1 # 40). destruct (_ && _) eqn:E1.
  - apply andb_true_iff in E1 as [H1 H2]. apply Qle_bool_iff in H1. apply negb_true_iff in H2.
    rewrite <-not_true_iff_false, Qle_bool_iff in H2. lra.
  - destruct (Qle_bool y (bottom r) && _) eqn:E2; [|lra].
    apply andb_true_iff in E2 as [H1 H2]. apply Qle_bool_iff in H1. apply negb_true_iff in H2.
    rewrite <-not_true_iff_false, Qle_bool_iff in H2. cbv zeta.
    destruct (Qle_bool _ 1) eqn:E3; [apply Qle_bool_iff in E3|]; lra.
Qed.
