(* ===== verification/CodeText.v ===== *)
(** * Code block: text

    The pure helpers of
    [packages/ui/src/components/reui/code-block/code-block-highlight.tsx] up to
    the engine: languages and their aliases, line specifications, line endings,
    word decorations, notation comments, plain lines, and the two readers of
    markdown.  Offsets are byte offsets, exact for ASCII.  A number read from
    digits is the double JavaScript makes of them, so the loops over line
    ranges run on doubles. *)
From S2P Require Import Prelude JsString JsValue JsMap.

#[local] Arguments Ascii.eqb : simpl never.
#[local] Arguments is_space : simpl never.
#[local] Arguments is_digit : simpl never.

(** ** Data *)
Inductive CodeBlockFontStyle := FItalic | FBold | FUnderline.

Record CodeBlockToken := mkToken {
  content : string;
  color : option string;
  colorDark : option string;
  fontStyle : option CodeBlockFontStyle;
  word : bool
}.
Definition plain_token (s : string) : CodeBlockToken := mkToken s None None None false.

(** A line's state is the object the code builds: its keys in the order they
    were set, among [highlighted], [focused], [diff] and [level]. *)
Notation CodeBlockLineState := (jsmap val).

Record CodeBlockLine := mkLine {
  tokens : list CodeBlockToken;
  number : Z;
  text : string;
  state : option CodeBlockLineState;
  gutter : option string
}.

Inductive CodeBlockLineSpec := SpecNumbers (lines : list num) | SpecText (s : string).

(** ** Languages *)
Definition codeBlockLanguages : list string :=
  ["bash"; "c"; "cpp"; "csharp"; "css"; "diff"; "docker"; "go"; "graphql"; "html"; "java";
   "javascript"; "json"; "jsx"; "kotlin"; "markdown"; "php"; "python"; "ruby"; "rust"; "scss";
   "shell"; "sql"; "swift"; "toml"; "tsx"; "typescript"; "vue"; "yaml"].

Definition LANGUAGE_ALIASES : jsmap string :=
  [("c++", "cpp"); ("c#", "csharp"); ("cs", "csharp"); ("dockerfile", "docker");
   ("htm", "html"); ("js", "javascript"); ("jsonc", "json"); ("md", "markdown");
   ("mdx", "markdown"); ("py", "python"); ("rb", "ruby"); ("rs", "rust"); ("sh", "shell");
   ("shellscript", "shell"); ("ts", "typescript"); ("yml", "yaml"); ("zsh", "shell")].

Definition codeBlockThemes : list string := ["github-light"; "github-dark"; "css-variables"].

(** The names every object inherits from [Object.prototype]: [in] finds them,
    and [LANGUAGE_ALIASES[name]] reads them (as functions, or as the prototype
    itself, none of which is a string). *)
Definition OBJECT_PROTOTYPE : list string :=
  ["constructor"; "__defineGetter__"; "__defineSetter__"; "hasOwnProperty";
   "__lookupGetter__"; "__lookupSetter__"; "isPrototypeOf"; "propertyIsEnumerable";
   "toString"; "valueOf"; "__proto__"; "toLocaleString"].

(** [name in record] of an object literal. *)
Definition in_record (name : string) (own : list string) : bool :=
  sin name own || sin name OBJECT_PROTOTYPE.

(** A name of the prototype reads from [LANGUAGE_ALIASES] as an inherited
    function or object, whose text [in] then looks up in vain. *)
Definition resolveCodeBlockLanguage (language : option string) : option string :=
  match language with
  | None | Some "" => None
  | Some l =>
      let normalized := to_lower (trim l) in
      match mget LANGUAGE_ALIASES normalized with
      | Some resolved => if in_record resolved codeBlockLanguages then Some resolved else None
      | None =>
          if sin normalized OBJECT_PROTOTYPE then None
          else if in_record normalized codeBlockLanguages then Some normalized else None
      end
  end.

(** ** Line specifications *)

(** The non-negative integral doubles: [None] is Infinity.  [to_double] rounds
    to 53 significant bits, ties to even. *)
Notation dbl := (option Z).
Definition to_double (z : Z) : dbl :=
  if (z <? 2 ^ 53)%Z then Some z
  else
    let q := (2 ^ (Z.log2 z - 52))%Z in
    let lo := (z / q)%Z in
    let r := (z mod q)%Z in
    let m := if (2 * r <? q)%Z then lo
             else if (q <? 2 * r)%Z then (lo + 1)%Z
             else if Z.even lo then lo else (lo + 1)%Z in
    let v := (m * q)%Z in
    if (v <? 2 ^ 1024)%Z then Some v else None.
Definition dbl_le (a b : dbl) : bool :=
  match a, b with
  | _, None => true
  | None, Some _ => false
  | Some x, Some y => (x <=? y)%Z
  end.
(** [line + 1] *)
Definition dbl_succ (a : dbl) : dbl :=
  match a with None => None | Some x => to_double (x + 1) end.
Definition dbl_pos (a : dbl) : bool := negb (dbl_le a (Some 0%Z)).

(** [Number(digits)] of a text of digits. *)
Definition digits_number (s : string) : dbl := to_double ((digits 0 0 s).1.1).

Definition dbl_in (v : dbl) (s : list dbl) : bool := some (fun w => bool_decide (v = w)) s.
Definition dbl_add (s : list dbl) (v : dbl) : list dbl := if dbl_in v s then s else s ++ [v].

(** [for (let line = start; line <= end; line += 1) out.add(line)], [None]
    when the fuel runs out. *)
Fixpoint add_lines (fuel : nat) (line stop : dbl) (out : list dbl) : option (list dbl) :=
  match fuel with
  | 0 => None
  | S fuel' =>
      if dbl_le line stop then add_lines fuel' (dbl_succ line) stop (dbl_add out line)
      else Some out
  end.

(** Below [2^53] the loop counts exactly; from there on a double's successor is
    itself, after at most one step. *)
Definition range_fuel (start stop : dbl) : nat :=
  match start, stop with
  | Some x, Some y => if (y <? 2 ^ 53)%Z then S (S (Z.to_nat (y - x))) else 3
  | _, _ => 3
  end.

(** The longest prefix of characters with a property, and the rest. *)
Fixpoint span (p : ascii -> bool) (s : string) : string * string :=
  match s with
  | String c s' => if p c then let '(a, b) := span p s' in (String c a, b) else ("", s)
  | EmptyString => ("", "")
  end.

(** [/^(\d+)\s*-\s*(\d+)$/] *)
Definition match_range (s : string) : option (string * string) :=
  let '(a, r1) := span is_digit s in
  match trim_start r1 with
  | String "-" r2 =>
      let '(b, r3) := span is_digit (trim_start r2) in
      if negb (String.eqb a "") && negb (String.eqb b "") && String.eqb r3 ""
      then Some (a, b) else None
  | _ => None
  end.

(** One part of the text between commas. *)
Definition spec_part (part : string) (out : list dbl) : option (list dbl) :=
  let trimmed := trim part in
  if String.eqb trimmed "" then Some out
  else match match_range trimmed with
       | Some (a, b) =>
           let start := digits_number a in
           let stop := digits_number b in
           if dbl_pos start && dbl_le start stop
           then add_lines (range_fuel start stop) start stop out
           else Some out
       | None =>
           if str_forall is_digit trimmed then
             let single := digits_number trimmed in
             Some (if dbl_pos single then dbl_add out single else out)
           else Some out
       end.

(** [Number.isInteger(value) && value > 0] *)
Definition spec_number (v : num) : option Z :=
  match v with
  | Fin q =>
      if (Qnum q mod Z.pos (Qden q) =? 0)%Z && (0 <? Qnum q)%Z
      then Some (Qnum q / Z.pos (Qden q))%Z else None
  | _ => None
  end.

Definition option_bind_list {A B} (f : B -> A -> option A) (bs : list B) (a : A) : option A :=
  fold_left (fun acc b => match acc with Some x => f b x | None => None end) bs (Some a).

(** [None] stands for a call that does not return. *)
Definition parseLineSpec (spec : option CodeBlockLineSpec) : option (list dbl) :=
  match spec with
  | None | Some (SpecText "") => Some []
  | Some (SpecNumbers values) =>
      Some (fold_left (fun out v =>
              match spec_number v with Some z => dbl_add out (Some z) | None => out end) values [])
  | Some (SpecText s) => option_bind_list spec_part (split_char "," s) []
  end.

(** [set.has(n)] *)
Definition has_line (s : list dbl) (n : Z) : bool := dbl_in (Some n) s.

(** ** Line endings *)

(** [.replace(/\r\n?/g, "\n")] *)
Fixpoint normalizeCode (code : string) : string :=
  match code with
  | EmptyString => ""
  | String c rest =>
      if Ascii.eqb c cr then
        String lf (match rest with
                   | String d rest' => if Ascii.eqb d lf then normalizeCode rest'
                                       else normalizeCode rest
                   | EmptyString => ""
                   end)
      else String c (normalizeCode rest)
  end.

(** ** Word decorations *)
Inductive CodeBlockWordSpec := WordText (w : string) | WordAt (w : string) (lines : option CodeBlockLineSpec).

Record Decoration := mkDec { dstart : nat; dend : nat }.

(** The offsets just after each line feed, counting from [index]. *)
Fixpoint starts_from (index : nat) (code : string) : list nat :=
  match code with
  | EmptyString => []
  | String c rest =>
      (if Ascii.eqb c lf then [S index] else []) ++ starts_from (S index) rest
  end.
Definition lineStarts (code : string) : list nat := 0 :: starts_from 0 code.

(** The [while] of [lineAt]; [Math.ceil((low + high) / 2)] halves upwards. *)
Fixpoint line_search (fuel : nat) (starts : list nat) (offset low high : nat) : nat :=
  match fuel with
  | 0 => low
  | S fuel' =>
      if Nat.ltb low high then
        let mid := Nat.div2 (low + high + 1) in
        if Nat.leb (nth mid starts 0) offset
        then line_search fuel' starts offset mid high
        else line_search fuel' starts offset low (mid - 1)
      else low
  end.
Definition lineAt (starts : list nat) (offset : nat) : nat :=
  S (line_search (length starts) starts offset 0 (length starts - 1)).

(** [code.indexOf(word)]; [indexOf(word, from)] looks at the rest of the text. *)
Fixpoint index_of (w s : string) : option nat :=
  if starts_with w s then Some 0
  else match s with
       | EmptyString => None
       | String _ s' => option_map S (index_of w s')
       end.
Definition index_from (w s : string) (from : nat) : option nat :=
  option_map (fun i => from + i) (index_of w (str_drop from s)).

Definition overlaps (taken : list Decoration) (from to : nat) : bool :=
  some (fun r => Nat.ltb from (dend r) && Nat.ltb (dstart r) to) taken.

(** The [while] over the occurrences of one word; [taken] and the decorations
    found so far are the same list. *)
Fixpoint occurrences (fuel : nat) (code w : string) (limit : option (list dbl))
    (starts : list nat) (from : option nat) (taken : list Decoration) : list Decoration :=
  match fuel, from with
  | S fuel', Some at_ =>
      let to := at_ + String.length w in
      let withinLimit := match limit with
                         | None | Some [] => true
                         | Some l => has_line l (Z.of_nat (lineAt starts at_))
                         end in
      let taken' := if withinLimit && negb (overlaps taken at_ to)
                    then taken ++ [mkDec at_ to] else taken in
      occurrences fuel' code w limit starts (index_from w code (at_ + String.length w)) taken'
  | _, _ => taken
  end.

(** One entry of [words]. *)
Definition decorate_word (code : string) (entry : CodeBlockWordSpec) (taken : list Decoration)
    : option (list Decoration) :=
  let go w limit :=
    occurrences (S (String.length code)) code w limit (lineStarts code) (index_of w code) taken in
  match entry with
  | WordText w => Some (if String.eqb w "" then taken else go w None)
  | WordAt w lines =>
      if String.eqb w "" then Some taken
      else match parseLineSpec lines with
           | Some limit => Some (go w (Some limit))
           | None => None
           end
  end.

(** [out.sort((a, b) => a.start - b.start)] *)
Definition dec_le (d e : Decoration) : bool := Nat.leb (dstart d) (dstart e).
Definition sort_decs (l : list Decoration) : list Decoration := sort_by dec_le l.

Definition buildWordDecorations (code : string) (words : list CodeBlockWordSpec)
    : option (list Decoration) :=
  option_map sort_decs (option_bind_list (decorate_word code) words []).

(** ** Notation comments *)

(** The rest of a text after a prefix. *)
Definition after_prefix (p s : string) : option string :=
  if starts_with p s then Some (str_drop (String.length p) s) else None.

Definition COMMENT_OPENERS : list string := ["//"; "#"; "--"; ";"; "%"; "<!--"; "/*"].
Definition COMMENT_CLOSERS : list string := ["-->"; "*/"].

Fixpoint first_prefix (ps : list string) (s : string) : option string :=
  match ps with
  | [] => None
  | p :: ps' => match after_prefix p s with Some r => Some r | None => first_prefix ps' s end
  end.

(** The expression of [stripNotationComments] matches here, up to the end. *)
Definition notation_tail (s : string) : bool :=
  match first_prefix COMMENT_OPENERS (trim_start s) with
  | None => false
  | Some r1 =>
      match after_prefix "[!code" (trim_start r1) with
      | None => false
      | Some r2 =>
          match (span (fun c => negb (Ascii.eqb c "]")) r2).2 with
          | String _ r3 =>
              let r4 := trim_start r3 in
              let r5 := match first_prefix COMMENT_CLOSERS r4 with Some r => r | None => r4 end in
              String.eqb (trim_start r5) ""
          | EmptyString => false
          end
      end
  end.

(** The leftmost match, removed. *)
Fixpoint strip_line (line : string) : string :=
  if notation_tail line then ""
  else match line with EmptyString => "" | String c rest => String c (strip_line rest) end.

Definition stripNotationComments (code : string) : string :=
  join (str1 lf) (map strip_line (split_char lf code)).

(** ** Plain lines *)
Definition plain_line (startLine : Z) (index : nat) (t : string) : CodeBlockLine :=
  mkLine (if String.eqb t "" then [] else [plain_token t]) (startLine + Z.of_nat index) t None None.
Definition toPlainLines (code : string) (startLine : Z) : list CodeBlockLine :=
  imap (plain_line startLine) (split_char lf (normalizeCode code)).

(** ** The code of a markdown [pre] *)

Definition language_char (c : ascii) : bool :=
  is_word c || Ascii.eqb c "+" || Ascii.eqb c "#" || Ascii.eqb c "-".

(** [/(?:^|\s)language-([\w+#-]+)/]; [free] says the text before ends in white
    space, or is empty. *)
Fixpoint class_language (free : bool) (s : string) : option string :=
  let here :=
    if free then
      match after_prefix "language-" s with
      | Some r => match (span language_char r).1 with "" => None | l => Some l end
      | None => None
      end
    else None in
  match here with
  | Some l => Some l
  | None => match s with
            | EmptyString => None
            | String c rest => class_language (is_space c) rest
            end
  end.

Record CodeProps := mkProps { cp_code : string; cp_language : option string }.

Definition readClassName (value : val) (acc : CodeProps) : CodeProps :=
  match value, cp_language acc with
  | VStr s, None => mkProps (cp_code acc) (class_language true s)
  | _, _ => acc
  end.
Definition add_code (s : string) (acc : CodeProps) : CodeProps :=
  mkProps (cp_code acc +:+ s) (cp_language acc).

(** [walk]: an element is an object with [props]; the first field of a name is
    the one the object has. *)
Fixpoint walk_code (node : val) (acc : CodeProps) {struct node} : CodeProps :=
  match node with
  | VStr s => add_code s acc
  | VNum n => add_code (show_num n) acc
  | VArr items =>
      (fix each items acc := match items with
       | [] => acc
       | x :: rest => each rest (walk_code x acc)
       end) items acc
  | VObj fields =>
      (fix props_of fields := match fields with
       | [] => acc
       | (k, v) :: rest =>
           if String.eqb k "props" then
             match v with
             | VObj ps =>
                 let acc := readClassName (field_of ps "className") acc in
                 (fix children_of ps := match ps with
                  | [] => acc
                  | (k', c) :: rest' =>
                      if String.eqb k' "children" then walk_code c acc else children_of rest'
                  end) ps
             | _ => acc
             end
           else props_of rest
       end) fields
  | _ => acc
  end.

(** [code.replace(/\n$/, "")] *)
Fixpoint drop_final_lf (s : string) : string :=
  match s with
  | EmptyString => ""
  | String c "" => if Ascii.eqb c lf then "" else s
  | String c rest => String c (drop_final_lf rest)
  end.

Definition markdownCodeProps (children className : val) : CodeProps :=
  let acc := walk_code children (readClassName className (mkProps "" None)) in
  mkProps (drop_final_lf (cp_code acc)) (cp_language acc).

(** ** Fences of a markdown text *)
Inductive PartType := PText | PCode.
Record CodeBlockMarkdownPart := mkPart {
  part_type : PartType;
  part_content : string;
  part_language : option string;
  part_open : bool
}.

Definition backtick : ascii := chr 96.
Definition tilde : ascii := chr 126.

(** The expression for a fence: white space, three or more backticks or
    tildes, an optional language, white space.  The delimiter and the language. *)
Definition match_fence (line : string) : option (string * string) :=
  let s := trim_start line in
  let '(ticks, r1) := span (Ascii.eqb backtick) s in
  let '(run, rest) := if String.eqb ticks "" then span (Ascii.eqb tilde) s else (ticks, r1) in
  let '(info, tail) := span language_char rest in
  if Nat.leb 3 (String.length run) && String.eqb (trim_start tail) ""
  then Some (run, info) else None.

(** The local variables of [markdownFences]; [inFence] is whether there is an
    [opener] in force. *)
Record FenceState := mkFence {
  parts : list CodeBlockMarkdownPart;
  opener : option string;
  language : option string;
  buffer : list string
}.

Definition flushText (st : FenceState) : FenceState :=
  let t := trim (join (str1 lf) (buffer st)) in
  mkFence (if String.eqb t "" then parts st else parts st ++ [mkPart PText t None false])
    (opener st) (language st) [].
Definition flushCode (open : bool) (st : FenceState) : FenceState :=
  mkFence (parts st ++ [mkPart PCode (join (str1 lf) (buffer st)) (language st) open])
    (opener st) None [].

(** The fence [(run, info)] ends the block [o] opened. *)
Definition closes (o run info : string) : bool :=
  bool_decide (String.get 0 run = String.get 0 o) &&
  Nat.leb (String.length o) (String.length run) && String.eqb info "".

Definition fence_line (st : FenceState) (line : string) : FenceState :=
  let keep := mkFence (parts st) (opener st) (language st) (buffer st ++ [line]) in
  match match_fence line, opener st with
  | Some (run, info), None =>
      let st' := flushText st in
      mkFence (parts st') (Some run) (if String.eqb info "" then None else Some info) (buffer st')
  | Some (run, info), Some o =>
      if closes o run info then
        let st' := flushCode false st in mkFence (parts st') None (language st') (buffer st')
      else keep
  | None, _ => keep
  end.

Definition markdownFences (markdown : string) : list CodeBlockMarkdownPart :=
  let st := fold_left fence_line (split_char lf markdown) (mkFence [] None None []) in
  parts (match opener st with Some _ => flushCode true st | None => flushText st end).
