(* ===== verification/CodeTextLaws.v ===== *)
(** * Code block: laws of the text helpers

    Line specifications end and mean what they list, below [2^53]; above it a
    range can loop for ever ([huge_range_hangs]).  The binary search of
    [lineAt] is the count of line feeds.  Word decorations are sorted, disjoint
    occurrences of the words.  Fences come back from the text they are written
    in. *)
From S2P Require Import Prelude JsString JsValue JsMap CodeText.

#[local] Arguments Ascii.eqb : simpl never.
#[local] Arguments is_space : simpl never.
#[local] Arguments is_digit : simpl never.

(** ** Text *)
Lemma join_nil_cons x xs : join "" (x :: xs) = x +:+ join "" xs.
Proof. destruct xs; simpl; [by rewrite str_app_nil_r|done]. Qed.
Lemma join_nil_app xs ys : join "" (xs ++ ys) = join "" xs +:+ join "" ys.
Proof.
  induction xs as [|x xs IH]; [done|]. cbn [app].
  by rewrite !join_nil_cons, IH, str_app_assoc.
Qed.

Lemma span_app p a c s : str_forall p a = true -> p c = false ->
  span p (a +:+ String c s) = (a, String c s).
Proof.
  intros Ha Hc. induction a as [|x a IH]; simpl in *; [by rewrite Hc|].
  apply andb_true_iff in Ha as [Hx Ha]. by rewrite Hx, IH.
Qed.

Lemma join_lacks c sep ws : lacks c sep -> Forall (lacks c) ws -> lacks c (join sep ws).
Proof.
  unfold lacks. intros Hs. induction 1 as [|x xs Hx Hxs IH]; [done|].
  destruct xs as [|y ys]; [done|]. rewrite join_cons2, !str_exists_app, Hs, Hx, IH. done.
Qed.

Lemma normalize_lacks code : lacks cr (normalizeCode code).
Proof.
  unfold lacks. remember (String.length code) as n eqn:Hn.
  assert (H : String.length code <= n) by lia. clear Hn. revert code H.
  induction n as [|n IH]; intros [|c code] H; simpl in *; try done; [lia|].
  destruct (Ascii.eqb_spec c cr) as [->|Hc].
  - destruct code as [|d code]; [done|]. simpl in H.
    destruct (Ascii.eqb d lf); cbn [str_exists]; (rewrite orb_false_iff; split; [done|apply IH; simpl; lia]).
  - cbn [str_exists]. destruct (Ascii.eqb_spec cr c); [congruence|]. apply IH. lia.
Qed.

Lemma normalize_id s : lacks cr s -> normalizeCode s = s.
Proof.
  unfold lacks. induction s as [|c s IH]; [done|]. simpl.
  intros [H1 H2]%orb_false_iff. destruct (Ascii.eqb_spec c cr) as [->|]; [done|].
  by rewrite IH.
Qed.

(** ** Line specifications *)
Section Ranges.
Local Open Scope Z_scope.

Lemma dbl_in_elem v s : dbl_in v s = true <-> v ∈ s.
Proof.
  unfold dbl_in. rewrite existsb_exists, list_elem_of_In. split.
  - by intros (w & Hw & ->%bool_decide_eq_true_1).
  - intros H. exists v. split; [done|by apply bool_decide_eq_true_2].
Qed.

Lemma dbl_add_elem s v w : w ∈ dbl_add s v <-> w = v \/ w ∈ s.
Proof.
  unfold dbl_add. destruct (dbl_in v s) eqn:E.
  - apply dbl_in_elem in E. split; [by right|]. by intros [->|].
  - rewrite elem_of_app, list_elem_of_singleton. tauto.
Qed.

Lemma to_double_small z : z < 2 ^ 53 -> to_double z = Some z.
Proof. intros H. unfold to_double. destruct (Z.ltb_spec z (2 ^ 53)); [done|lia]. Qed.

Lemma dbl_succ_small x : x < 2 ^ 53 -> dbl_succ (Some x) = Some (x + 1).
Proof.
  intros H. simpl. destruct (Z.ltb_spec (x + 1) (2 ^ 53)) as [H1|H1].
  - by apply to_double_small.
  - assert (x + 1 = 2 ^ 53) as -> by lia. done.
Qed.

(** Below [2^53] the loop ends and adds exactly the range. *)
Lemma add_lines_exact fuel x y out : y < 2 ^ 53 -> (Z.to_nat (y - x + 1) < fuel)%nat ->
  exists out', add_lines fuel (Some x) (Some y) out = Some out' /\
    forall v, v ∈ out' <-> v ∈ out \/ exists z, v = Some z /\ x <= z <= y.
Proof.
  intros Hy. revert x out. induction fuel as [|fuel IH]; intros x out Hf; [lia|].
  cbn [add_lines dbl_le]. destruct (Z.leb_spec x y) as [Hxy|Hxy].
  - rewrite dbl_succ_small by lia.
    destruct (IH (x + 1) (dbl_add out (Some x))) as (out' & -> & Hout); [lia|].
    exists out'. split; [done|]. intros v. rewrite Hout, dbl_add_elem. split.
    + intros [[->|H]|(z & -> & Hz)]; [right; exists x; split; [done|lia]|by left|].
      right. exists z. split; [done|lia].
    + intros [H|(z & -> & Hz)]; [by left; right|].
      destruct (decide (z = x)) as [->|]; [by left; left|right; exists z; split; [done|lia]].
  - exists out. split; [done|]. intros v. split; [by left|].
    intros [H|(z & -> & Hz)]; [done|lia].
Qed.

(** A bound that is its own successor is never passed. *)
Lemma add_lines_stuck fuel v stop out : dbl_succ v = v -> dbl_le v stop = true ->
  add_lines fuel v stop out = None.
Proof.
  intros Hs Hle. revert out. induction fuel as [|fuel IH]; intros out; [done|].
  cbn [add_lines]. rewrite Hle, Hs. apply IH.
Qed.

(** Towards such a bound the loop does not end either. *)
Lemma add_lines_climb fuel x stop out : x <= 2 ^ 53 -> dbl_le (Some (2 ^ 53)) stop = true ->
  add_lines fuel (Some x) stop out = None.
Proof.
  revert x out. induction fuel as [|fuel IH]; intros x out Hx Hs; [done|].
  destruct (decide (x = 2 ^ 53)) as [->|]; [by apply add_lines_stuck|].
  cbn [add_lines]. assert (dbl_le (Some x) stop = true) as ->.
  { destruct stop as [y|]; [|done]. simpl in *. apply Z.leb_le in Hs. apply Z.leb_le. lia. }
  rewrite dbl_succ_small by lia. apply IH; [lia|done].
Qed.

(** The comment on [parseLineSpec] calls it total; this range of two lines
    keeps it in its loop for ever. *)
Lemma huge_range_hangs :
  parseLineSpec (Some (SpecText "9007199254740992-9007199254740993")) = None /\
  forall fuel out, add_lines fuel (digits_number "9007199254740992")
                     (digits_number "9007199254740993") out = None.
Proof. split; [done|]. intros. by apply add_lines_stuck. Qed.

(** The doubles from [2^53] on, by mantissa and exponent. *)
Definition wide (x : Z) : Prop :=
  exists m e, 1 <= e /\ 2 ^ 52 <= m < 2 ^ 53 /\ x = m * 2 ^ e.

Lemma wide_log2 m e r : 1 <= e -> 2 ^ 52 <= m < 2 ^ 53 -> 0 <= r < 2 ^ e ->
  Z.log2 (m * 2 ^ e + r) = 52 + e.
Proof.
  intros He Hm Hr. apply Z.log2_unique; [lia|].
  replace (Z.succ (52 + e)) with (53 + e) by lia.
  rewrite !Z.pow_add_r by lia. nia.
Qed.

Lemma to_double_wide m e r : 1 <= e -> 2 ^ 52 <= m < 2 ^ 53 -> 0 <= r < 2 ^ e ->
  to_double (m * 2 ^ e + r) =
    let v := (if 2 * r <? 2 ^ e then m else if 2 ^ e <? 2 * r then m + 1
              else if Z.even m then m else m + 1) * 2 ^ e in
    if v <? 2 ^ 1024 then Some v else None.
Proof.
  intros He Hm Hr. unfold to_double.
  assert (2 <= 2 ^ e) by (change 2 with (2 ^ 1) at 1; apply Z.pow_le_mono_r; lia).
  destruct (Z.ltb_spec (m * 2 ^ e + r) (2 ^ 53)); [nia|].
  rewrite wide_log2 by done. replace (52 + e - 52) with e by lia.
  rewrite Z.add_comm, Z.div_add, Z.div_small, Z.mod_add, Z.mod_small by lia. done.
Qed.

Lemma wide_bump m e : 1 <= e -> 2 ^ 52 <= m < 2 ^ 53 -> wide ((m + 1) * 2 ^ e).
Proof.
  intros He Hm. destruct (decide (m + 1 = 2 ^ 53)) as [->|].
  - exists (2 ^ 52), (e + 1). split_and!; [lia|lia|done|]. rewrite Z.pow_add_r by lia. lia.
  - exists (m + 1), e. split_and!; [lia..|done].
Qed.

Lemma to_double_range z x : to_double z = Some x -> x < 2 ^ 53 \/ wide x.
Proof.
  destruct (Z.ltb_spec z (2 ^ 53)) as [Hz|Hz].
  { rewrite to_double_small by done. intros [= ->]. by left. }
  set (e := Z.log2 z - 52). assert (53 <= Z.log2 z) by (by apply Z.log2_le_pow2; lia).
  assert (Hp : 0 < 2 ^ e) by (apply Z.pow_pos_nonneg; lia).
  pose proof (Z.log2_spec z ltac:(lia)) as [Hlo Hhi].
  replace (Z.log2 z) with (52 + e) in Hlo by lia.
  replace (Z.succ (Z.log2 z)) with (53 + e) in Hhi by lia.
  rewrite Z.pow_add_r in Hlo, Hhi by lia.
  pose proof (Z.div_mod z (2 ^ e) ltac:(lia)) as Hd. pose proof (Z.mod_pos_bound z (2 ^ e) Hp).
  assert (2 ^ 52 <= z / 2 ^ e < 2 ^ 53) by nia.
  replace z with (z / 2 ^ e * 2 ^ e + z mod 2 ^ e) by lia.
  rewrite to_double_wide by lia. cbv zeta. destruct (_ <? 2 ^ 1024); [|done]. intros [= <-].
  right. assert (Hw : wide (z / 2 ^ e * 2 ^ e)) by (exists (z / 2 ^ e), e; split_and!; lia).
  repeat case_match; try done; apply wide_bump; lia.
Qed.

(** From [2^53] on, adding one twice is adding one once. *)
Lemma wide_succ x : wide x -> dbl_succ (Some x) = Some x \/
  dbl_succ (dbl_succ (Some x)) = dbl_succ (Some x).
Proof.
  intros (m & e & He & Hm & ->). cbn [dbl_succ].
  assert (H2 : 2 ^ e = 2 \/ 4 <= 2 ^ e).
  { destruct (decide (e = 1)) as [->|]; [by left|right].
    change 4 with (2 ^ 2). apply Z.pow_le_mono_r; lia. }
  rewrite to_double_wide by lia. cbv zeta. destruct H2 as [H2|H2]; rewrite ?H2.
  2:{ destruct (Z.ltb_spec (2 * 1) (2 ^ e)); [|lia].
      destruct (Z.ltb_spec (m * 2 ^ e) (2 ^ 1024)) as [|Ho]; [by left|]. by right. }
  change (2 * 1 <? 2) with false. change (2 <? 2 * 1) with false. cbv iota.
  assert (Hmax : 2 ^ 54 < 2 ^ 1024) by done.
  destruct (Z.even m) eqn:Hev.
  - left. destruct (Z.ltb_spec (m * 2) (2 ^ 1024)); [done|lia].
  - right. destruct (Z.ltb_spec ((m + 1) * 2) (2 ^ 1024)); [|lia]. cbn [dbl_succ].
    destruct (decide (m + 1 = 2 ^ 53)) as [->|]; [done|].
    change 2 with (2 ^ 1) at 1. rewrite to_double_wide by lia. cbv zeta.
    change (2 * 1 <? 2 ^ 1) with false. change (2 ^ 1 <? 2 * 1) with false. cbv iota.
    assert (Z.even (m + 1) = true) as ->.
    { rewrite Z.add_1_r, Z.even_succ, <-Z.negb_even, Hev. done. }
    change (2 ^ 1) with 2. destruct (Z.ltb_spec ((m + 1) * 2) (2 ^ 1024)); [done|lia].
Qed.

Lemma add_lines_mono fuel fuel' v stop out r : (fuel <= fuel')%nat ->
  add_lines fuel v stop out = Some r -> add_lines fuel' v stop out = Some r.
Proof.
  revert fuel' v out. induction fuel as [|fuel IH]; intros fuel' v out Hle H; [done|].
  destruct fuel' as [|fuel']; [lia|]. cbn [add_lines] in *.
  destruct (dbl_le v stop); [|done]. by apply IH; [lia|].
Qed.

(** The fuel [parseLineSpec] runs on misses no loop that ends: its [None]
    stands for a loop that does not. *)
Lemma range_fuel_complete fuel za zb out r :
  let start := to_double za in let stop := to_double zb in
  add_lines fuel start stop out = Some r ->
  add_lines (range_fuel start stop) start stop out = Some r.
Proof.
  cbv zeta. intros H.
  destruct (to_double zb) as [y|] eqn:Hb; [destruct (Z.ltb_spec y (2 ^ 53)) as [Hy|Hy]|].
  - destruct (to_double za) as [x|]; [|destruct fuel; [done|]; by cbn in H |- *].
    unfold range_fuel. destruct (Z.ltb_spec y (2 ^ 53)); [|lia].
    destruct (add_lines_exact (S (S (Z.to_nat (y - x)))) x y out) as (r' & E & _); [done|lia|].
    set (n := (fuel + S (S (Z.to_nat (y - x))))%nat).
    apply (add_lines_mono _ n) in H; [|lia]. pose proof E as E'.
    apply (add_lines_mono _ n) in E'; [|lia].
    rewrite E. congruence.
  - destruct (to_double za) as [x|] eqn:Ha; [|destruct fuel; [done|]; by cbn in H |- *].
    destruct (Z.leb_spec x (2 ^ 53)) as [Hx|Hx].
    { rewrite add_lines_climb in H; [done|lia|]. by apply Z.leb_le. }
    assert (range_fuel (Some x) (Some y) = 3%nat) as ->.
    { unfold range_fuel. by destruct (Z.ltb_spec y (2 ^ 53)); [lia|]. }
    apply to_double_range in Ha as [|Hw]; [lia|].
    destruct (dbl_le (Some x) (Some y)) eqn:E1;
      [|destruct fuel; [done|]; cbn [add_lines] in *; by rewrite E1 in *].
    destruct (wide_succ x Hw) as [Hs|Hs]; [by rewrite add_lines_stuck in H|].
    destruct fuel as [|fuel]; [done|]. cbn [add_lines] in H. rewrite E1 in H.
    destruct (dbl_le (dbl_succ (Some x)) (Some y)) eqn:E2; [by rewrite add_lines_stuck in H|].
    destruct fuel as [|fuel]; [done|]. cbn [add_lines] in H |- *. by rewrite E1, E2 in *.
  - destruct (to_double za) as [x|] eqn:Ha; [|by rewrite add_lines_stuck in H].
    destruct (Z.leb_spec x (2 ^ 53)) as [Hx|Hx]; [by rewrite add_lines_climb in H|].
    apply to_double_range in Ha as [|Hw]; [lia|].
    destruct (wide_succ x Hw) as [Hs|Hs]; [by rewrite add_lines_stuck in H|].
    destruct fuel as [|fuel]; [done|]. cbn [add_lines dbl_le] in H.
    by rewrite add_lines_stuck in H by (done || by destruct (dbl_succ (Some x))).
Qed.

(** What a part of the text names. *)
Definition part_names (part : string) (z : Z) : Prop :=
  let t := trim part in
  t <> "" /\
  match match_range t with
  | Some (a, b) => exists x y, digits_number a = Some x /\ digits_number b = Some y /\
                     0 < x /\ x <= z <= y
  | None => str_forall is_digit t = true /\ digits_number t = Some z /\ 0 < z
  end.

(** Every range of the part ends below [2^53]. *)
Definition part_bounded (part : string) : Prop :=
  forall a b, match_range (trim part) = Some (a, b) ->
    exists y, digits_number b = Some y /\ y < 2 ^ 53.

Lemma spec_part_exact part out : part_bounded part ->
  exists out', spec_part part out = Some out' /\
    forall z, Some z ∈ out' <-> Some z ∈ out \/ part_names part z.
Proof.
  intros Hb. unfold spec_part, part_names. cbv zeta.
  destruct (String.eqb_spec (trim part) "") as [He|He].
  { exists out. split; [done|]. intros z. naive_solver. }
  destruct (match_range (trim part)) as [[a b]|] eqn:Hm.
  - destruct (Hb a b Hm) as (y & Hy & Hlt). rewrite Hy.
    destruct (digits_number a) as [x|] eqn:Hx; [|exists out; split; [done|naive_solver]].
    unfold dbl_pos. cbn [dbl_le].
    destruct (Z.leb_spec x 0); cbn [negb andb]; [exists out; split; [done|]|].
    { intros z. split; [by left|]. intros [?|(_ & x' & y' & [= <-] & ? & ? & ?)]; [done|lia]. }
    destruct (Z.leb_spec x y); [|exists out; split; [done|]].
    + unfold range_fuel. destruct (Z.ltb_spec y (2 ^ 53)); [|lia].
      destruct (add_lines_exact (S (S (Z.to_nat (y - x)))) x y out) as (out' & -> & Hout); [done|lia|].
      exists out'. split; [done|]. intros z. rewrite Hout. split.
      * intros [?|(z' & [= <-] & ?)]; [by left|right]. split; [done|]. by exists x, y.
      * intros [?|(_ & x' & y' & [= <-] & [= <-] & _ & ?)]; [by left|right]. by exists z.
    + intros z. split; [by left|].
      intros [?|(_ & x' & y' & [= <-] & [= <-] & ? & ?)]; [done|lia].
  - destruct (str_forall is_digit (trim part)) eqn:Hd;
      [|exists out; split; [done|intros z; naive_solver]].
    unfold dbl_pos. destruct (digits_number (trim part)) as [x|] eqn:Hx.
    + cbn [dbl_le]. destruct (Z.leb_spec x 0); cbn [negb].
      * exists out. split; [done|]. intros z. split; [by left|].
        intros [?|(_ & _ & [= <-] & ?)]; [done|lia].
      * eexists. split; [done|]. intros z. rewrite dbl_add_elem. naive_solver.
    + cbn [dbl_le negb]. eexists. split; [done|]. intros z. rewrite dbl_add_elem. naive_solver.
Qed.

Lemma spec_parts_exact ps out : Forall part_bounded ps ->
  exists out', option_bind_list spec_part ps out = Some out' /\
    forall z, Some z ∈ out' <-> Some z ∈ out \/ exists part, part ∈ ps /\ part_names part z.
Proof.
  intros Hps. revert out. induction Hps as [|p ps Hp _ IH]; intros out; unfold option_bind_list; simpl.
  - exists out. split; [done|]. intros z. split; [by left|].
    intros [?|(? & []%elem_of_nil & _)]; done.
  - destruct (spec_part_exact p out Hp) as (o1 & -> & H1).
    destruct (IH o1) as (o2 & H2 & H3). exists o2. split; [exact H2|]. intros z.
    rewrite H3, H1. setoid_rewrite elem_of_cons. naive_solver.
Qed.

(** A text specification whose ranges end below [2^53] is read to the end:
    the loops of [parseLineSpec] terminate within the fuel computed from the
    range, and the set holds a line exactly when some part between commas is
    that line's number or a range around it. *)
Theorem line_spec_terminates (s : string) :
  Forall part_bounded (split_char "," s) ->
  exists out, parseLineSpec (Some (SpecText s)) = Some out /\
    forall z, has_line out z = true <-> exists part, part ∈ split_char "," s /\ part_names part z.
Proof.
  intros H. assert (E : parseLineSpec (Some (SpecText s)) =
    option_bind_list spec_part (split_char "," s) []) by (by destruct s).
  rewrite E. destruct (spec_parts_exact _ [] H) as (out & -> & Hout). exists out.
  split; [done|]. intros z. unfold has_line. rewrite dbl_in_elem, Hout.
  split; [intros [?%elem_of_nil|?]; done|by right].
Qed.

Lemma line_spec_terminates_witness :
  exists out, parseLineSpec (Some (SpecText "2-4, x,7")) = Some out /\
    forall z, has_line out z = true <->
      exists part, part ∈ split_char "," "2-4, x,7" /\ part_names part z.
Proof.
  apply line_spec_terminates. cbn. repeat constructor; intros a b H; vm_compute in H;
    try discriminate. injection H as <- <-. by exists 4.
Defined.
End Ranges.

(** ** The binary search *)
Fixpoint count_lf (s : string) : nat :=
  match s with
  | EmptyString => 0
  | String c s' => (if Ascii.eqb c lf then 1 else 0) + count_lf s'
  end.

Definition upto (offset : nat) (starts : list nat) : nat :=
  length (bfilter (fun x => Nat.leb x offset) starts).

Lemma starts_from_above i code : Forall (fun x => i < x) (starts_from i code).
Proof.
  revert i. induction code as [|c code IH]; intros i; simpl; [constructor|].
  apply Forall_app. split; [destruct (Ascii.eqb c lf); repeat constructor|].
  eapply Forall_impl; [apply IH|]. simpl. lia.
Qed.

Lemma starts_from_sorted i code : StronglySorted lt (starts_from i code).
Proof.
  revert i. induction code as [|c code IH]; intros i; simpl; [constructor|].
  destruct (Ascii.eqb c lf); simpl; [|done]. constructor; [done|]. apply starts_from_above.
Qed.

Lemma upto_none i offset code : offset <= i -> upto offset (starts_from i code) = 0.
Proof.
  intros H. unfold upto. pose proof (starts_from_above i code) as Ha.
  induction Ha as [|x l Hx _ IH]; [done|]. simpl.
  destruct (Nat.leb_spec x offset); [lia|done].
Qed.

Lemma upto_count i offset code :
  upto offset (starts_from i code) = count_lf (str_take (offset - i) code).
Proof.
  revert i. induction code as [|c code IH]; intros i; [by destruct (offset - i)|].
  destruct (Nat.leb_spec offset i) as [Hle|Hlt].
  - rewrite upto_none by done. by replace (offset - i) with 0 by lia.
  - replace (offset - i) with (S (offset - S i)) by lia. simpl. rewrite <-IH.
    unfold upto. destruct (Ascii.eqb c lf); [|done]. cbn [app bfilter List.filter].
    destruct (Nat.leb_spec (S i) offset); [done|lia].
Qed.

Lemma sorted_nth (l : list nat) i j : StronglySorted lt l -> i < j < length l ->
  nth i l 0 < nth j l 0.
Proof.
  intros Hl. revert i j. induction Hl as [|x l Hl IH Hx]; intros i j [Hij Hj]; simpl in *; [lia|].
  destruct j as [|j]; [lia|]. destruct i as [|i].
  - rewrite Forall_forall in Hx. apply Hx. apply list_elem_of_In, nth_In. lia.
  - apply IH. lia.
Qed.

(** The last start at or before the offset is at the index their number gives. *)
Lemma upto_index (l : list nat) offset r : StronglySorted lt l -> r < length l ->
  nth r l 0 <= offset -> (forall j, r < j < length l -> offset < nth j l 0) ->
  upto offset l = S r.
Proof.
  unfold upto. intros Hl. revert r. induction Hl as [|x l Hl IH Hx]; intros r Hr Hle Hgt; simpl in *; [lia|].
  destruct r as [|r].
  - destruct (Nat.leb_spec x offset); [|lia]. simpl. f_equal.
    assert (Hall : Forall (fun y => offset < y) l).
    { rewrite Forall_forall. intros y Hy. apply list_elem_of_In, (In_nth _ _ 0) in Hy as (n & Hn & <-).
      apply (Hgt (S n)). lia. }
    clear -Hall. induction Hall as [|y l Hy _ IH]; [done|]. simpl.
    destruct (Nat.leb_spec y offset); [lia|done].
  - assert (x < nth r l 0).
    { rewrite Forall_forall in Hx. apply Hx. apply list_elem_of_In, nth_In. lia. }
    destruct (Nat.leb_spec x offset); [|lia]. simpl. f_equal. apply IH; [lia|done|].
    intros j Hj. apply (Hgt (S j)). lia.
Qed.

(** The search keeps the answer between [low] and [high], and halves towards it. *)
Lemma line_search_finds fuel l offset low high : StronglySorted lt l ->
  high < length l -> low <= high -> high - low <= fuel -> nth low l 0 <= offset ->
  (forall j, high < j < length l -> offset < nth j l 0) ->
  let r := line_search fuel l offset low high in
  r < length l /\ nth r l 0 <= offset /\ forall j, r < j < length l -> offset < nth j l 0.
Proof.
  intros Hl. revert low high. induction fuel as [|fuel IH]; intros low high Hh Hlh Hf Hlow Hgt; simpl.
  { assert (low = high) as -> by lia. done. }
  destruct (Nat.ltb_spec low high) as [Hlt|]; [|assert (low = high) as -> by lia; done].
  pose proof (Nat.div2_odd (low + high + 1)) as Hmid. set (mid := Nat.div2 _) in *.
  assert (low < mid <= high) by (destruct (Nat.odd _); simpl in Hmid; lia).
  destruct (Nat.leb_spec (nth mid l 0) offset) as [Hle|Hgt'].
  - apply IH; [lia|lia|lia|done|done].
  - apply IH; [lia|lia|lia|done|]. intros j Hj.
    destruct (decide (j = mid)) as [->|]; [done|].
    pose proof (sorted_nth l mid j Hl). lia.
Qed.

(** The binary search of [lineAt] over the offsets where lines start ends
    within its fuel on the line of an offset: one more than the number of line
    feeds before the offset, the linear count. *)
Theorem line_at_counts_line_feeds (code : string) (offset : nat) :
  lineAt (lineStarts code) offset = S (count_lf (str_take offset code)).
Proof.
  unfold lineAt. f_equal.
  assert (Hs : StronglySorted lt (lineStarts code)).
  { constructor; [apply starts_from_sorted|apply starts_from_above]. }
  destruct (line_search_finds (length (lineStarts code)) _ offset 0 (length (lineStarts code) - 1) Hs)
    as (Hr & Hle & Hgt); [simpl; lia|lia|lia|simpl; lia|simpl; lia|].
  pose proof (upto_index _ offset _ Hs Hr Hle Hgt) as Hu.
  rewrite <-(Nat.sub_0_r offset) at 2. rewrite <-upto_count.
  change (upto offset (lineStarts code)) with (S (upto offset (starts_from 0 code))) in Hu.
  apply Nat.succ_inj in Hu. by rewrite Hu.
Qed.

(** ** Word decorations *)

Lemma index_of_some w s i : index_of w s = Some i ->
  starts_with w (str_drop i s) = true /\ i + String.length w <= String.length s.
Proof.
  revert i. induction s as [|c s IH]; intros i; cbn [index_of].
  - destruct (starts_with w "") eqn:E; [|done]. intros [= <-]. split; [done|].
    by destruct w.
  - destruct (starts_with w (String c s)) eqn:E.
    + intros [= <-]. split; [done|]. apply starts_with_spec in E as [r E]. rewrite E, str_length_app. lia.
    + destruct (index_of w s) as [j|]; [|done]. intros [= <-].
      destruct (IH j eq_refl). simpl. split; [done|lia].
Qed.

Lemma str_drop_drop i j s : str_drop i (str_drop j s) = str_drop (j + i) s.
Proof.
  revert s. induction j as [|j IH]; intros s; [done|]. destruct s as [|c s]; simpl; [by destruct i|].
  apply IH.
Qed.
Lemma str_drop_length i s : String.length (str_drop i s) = String.length s - i.
Proof. revert s. induction i as [|i IH]; intros [|c s]; simpl; auto. Qed.

Lemma index_from_some w s from i : index_from w s from = Some i -> from <= String.length s ->
  from <= i /\ starts_with w (str_drop i s) = true /\ i + String.length w <= String.length s.
Proof.
  unfold index_from. destruct (index_of w (str_drop from s)) as [j|] eqn:E; [|done].
  intros [= <-] Hle. apply index_of_some in E as [H1 H2].
  rewrite str_drop_drop in H1. rewrite str_drop_length in H2. split_and!; [lia|done|lia].
Qed.

(** An occurrence of a word the line limit lets through. *)
Definition marks (code w : string) (limit : option (list dbl)) (d : Decoration) : Prop :=
  w <> "" /\ dend d = dstart d + String.length w /\
  starts_with w (str_drop (dstart d) code) = true /\
  (forall l, limit = Some l -> l <> [] ->
     has_line l (Z.of_nat (S (count_lf (str_take (dstart d) code)))) = true).

Definition apart (d e : Decoration) : Prop := dend d <= dstart e \/ dend e <= dstart d.

Lemma overlaps_false taken from to : overlaps taken from to = false ->
  Forall (fun d => dend d <= from \/ to <= dstart d) taken.
Proof.
  unfold overlaps. induction taken as [|d l IH]; [constructor|]. simpl.
  intros [H1 H2]%orb_false_iff. constructor; [|by apply IH].
  apply andb_false_iff in H1 as [?%Nat.ltb_ge|?%Nat.ltb_ge]; lia.
Qed.

Lemma ForallOrdPairs_snoc {A} (R : A -> A -> Prop) l x :
  ForallOrdPairs R l -> Forall (fun y => R y x) l -> ForallOrdPairs R (l ++ [x]).
Proof.
  induction 1 as [|y l Hy Hl IH]; simpl; [by repeat constructor|].
  intros [H1 H2]%Forall_cons_1. constructor; [|by apply IH].
  apply Forall_app. by repeat constructor.
Qed.

Definition permits (limit : option (list dbl)) (line : nat) : Prop :=
  forall l, limit = Some l -> l <> [] -> has_line l (Z.of_nat line) = true.
Lemma within_permits limit line :
  match limit with None | Some [] => true | Some l => has_line l (Z.of_nat line) end = true ->
  permits limit line.
Proof. intros H l -> Hl. by destruct l. Qed.

Section Words.
Variables (code w : string) (limit : option (list dbl)) (P : Decoration -> Prop).
Hypothesis Hw : w <> "".
Hypothesis HP : forall d, marks code w limit d -> P d.

(** Each turn of the loop keeps the marks apart, and only adds. *)
Lemma occurrences_ok fuel from taken : from <> None ->
  (forall at_, from = Some at_ -> starts_with w (str_drop at_ code) = true /\
                                  at_ + String.length w <= String.length code) ->
  Forall P taken -> ForallOrdPairs apart taken ->
  let r := occurrences fuel code w limit (lineStarts code) from taken in
  Forall P r /\ ForallOrdPairs apart r /\ taken `prefix_of` r.
Proof.
  revert from taken. induction fuel as [|fuel IH]; intros from taken Hn Hat HPt Ht; simpl.
  { split_and!; [done..|]. by exists []; rewrite app_nil_r. }
  destruct from as [a|]; [|done]. destruct (Hat a eq_refl) as [Ha Hlen].
  set (taken' := if _ && _ then _ else _).
  assert (H' : Forall P taken' /\ ForallOrdPairs apart taken' /\ taken `prefix_of` taken').
  { subst taken'. destruct (_ && _) eqn:E; [|split_and!; [done..|by exists []; rewrite app_nil_r]].
    apply andb_true_iff in E as [E1 E2%negb_true_iff]. apply overlaps_false in E2.
    split_and!; [|by apply ForallOrdPairs_snoc|by eexists].
    apply Forall_app. split; [done|]. repeat constructor. apply HP.
    split_and!; [done|done|done|]. simpl. rewrite <-line_at_counts_line_feeds.
    by apply within_permits. }
  destruct H' as (H1 & H2 & H3).
  destruct (index_from w code (a + String.length w)) as [b|] eqn:E.
  - destruct (IH (Some b) taken') as (? & ? & ?); [done| |done|done|].
    { intros at_ [= <-]. apply index_from_some in E as (_ & ? & ?); [done|lia]. }
    split_and!; [done..|]. by etransitivity.
  - assert (forall n, occurrences n code w limit (lineStarts code) None taken' = taken') as ->
      by (by intros []). done.
Qed.

(** The fuel is enough: more of it gives the same marks. *)
Lemma occurrences_fuel fuel more from taken :
  (forall at_, from = Some at_ -> String.length code - at_ < fuel) ->
  (forall at_, from = Some at_ -> at_ + String.length w <= String.length code) ->
  occurrences (fuel + more) code w limit (lineStarts code) from taken =
  occurrences fuel code w limit (lineStarts code) from taken.
Proof.
  revert from taken. induction fuel as [|fuel IH]; intros from taken Hf Hat.
  { destruct from as [a|]; [specialize (Hf a eq_refl); lia|by destruct more]. }
  destruct from as [a|]; [|done]. simpl. apply IH.
  - intros b E. specialize (Hf a eq_refl). specialize (Hat a eq_refl).
    apply index_from_some in E as (? & _ & ?); [|lia]. destruct w; [done|]. simpl in *. lia.
  - intros b E. specialize (Hat a eq_refl). by apply index_from_some in E as (_ & _ & ?).
Qed.
End Words.

(** In order, each before the next. *)
Definition before (d e : Decoration) : Prop := dend d <= dstart e.
Definition solid (d : Decoration) : Prop := dstart d < dend d.

Lemma sort_decs_sorted l : Forall solid l -> ForallOrdPairs apart l ->
  StronglySorted before (sort_decs l).
Proof.
  intros Hl Ha. induction Ha as [|x l Hx Ha IH]; [constructor|].
  apply Forall_cons_1 in Hl as [Hsx Hl]. specialize (IH Hl).
  assert (Hs : Forall (fun d => solid d /\ apart x d) (sort_decs l)).
  { unfold sort_decs. rewrite sort_by_perm. apply Forall_and. done. }
  change (sort_decs (x :: l)) with (insert_by dec_le x (sort_decs l)). clear Hx Ha Hl.
  unfold solid, apart, before, dec_le in *.
  induction IH as [|y k Hk IH Hy]; simpl; [by repeat constructor|].
  apply Forall_cons_1 in Hs as [[Hsy Hay] Hs].
  destruct (Nat.leb_spec (dstart x) (dstart y)).
  - constructor; [by constructor|]. constructor; [lia|].
    eapply Forall_impl; [exact Hy|]. simpl. lia.
  - constructor; [by apply IH|]. rewrite insert_by_perm. constructor; [lia|done].
Qed.

(** What an entry of [highlightedWords] asks for. *)
Definition entry_word (e : CodeBlockWordSpec) : string :=
  match e with WordText w | WordAt w _ => w end.
Definition entry_marks (code : string) (e : CodeBlockWordSpec) (d : Decoration) : Prop :=
  match e with
  | WordText w => marks code w None d
  | WordAt w lines => exists limit, parseLineSpec lines = Some limit /\ marks code w (Some limit) d
  end.

Lemma decorate_word_ok code e taken taken' (P : Decoration -> Prop) :
  (forall d, entry_marks code e d -> P d) ->
  Forall P taken -> ForallOrdPairs apart taken -> decorate_word code e taken = Some taken' ->
  Forall P taken' /\ ForallOrdPairs apart taken'.
Proof.
  intros HP Ht Ha. unfold decorate_word. cbv zeta.
  assert (Hgo : forall w limit, w <> "" -> (forall d, marks code w limit d -> P d) ->
    let r := occurrences (S (String.length code)) code w limit (lineStarts code)
               (index_of w code) taken in
    Forall P r /\ ForallOrdPairs apart r).
  { intros w limit Hw Hm r. subst r. destruct (index_of w code) as [i|] eqn:E.
    - destruct (occurrences_ok code w limit P Hw Hm (S (String.length code)) (Some i) taken)
        as (? & ? & _); [done| |done..].
      intros ? [= <-]. by apply index_of_some.
    - done. }
  destruct e as [w|w lines].
  - destruct (String.eqb_spec w ""); intros [= <-]; [done|]. by apply Hgo.
  - destruct (String.eqb_spec w ""); [by intros [= <-]|].
    destruct (parseLineSpec lines) as [limit|] eqn:El; [|done]. intros [= <-].
    apply Hgo; [done|]. intros d Hd. apply HP. by exists limit.
Qed.

Lemma option_bind_list_none {A B} (f : B -> A -> option A) bs :
  fold_left (fun acc b => match acc with Some x => f b x | None => None end) bs None = None.
Proof. by induction bs. Qed.

Lemma decorate_words_ok code words taken taken' (P : Decoration -> Prop) :
  (forall e d, e ∈ words -> entry_marks code e d -> P d) ->
  Forall P taken -> ForallOrdPairs apart taken ->
  option_bind_list (decorate_word code) words taken = Some taken' ->
  Forall P taken' /\ ForallOrdPairs apart taken'.
Proof.
  revert taken. induction words as [|e words IH]; intros taken HP Ht Ha;
    unfold option_bind_list; simpl; [by intros [= <-]|].
  destruct (decorate_word code e taken) as [t1|] eqn:E.
  - intros H. eapply decorate_word_ok in E as [H1 H2];
      [|intros d Hd; apply (HP e); [by left|done]|done|done].
    apply (IH t1); [|done..]. intros e' d He'. apply HP. by right.
  - by rewrite option_bind_list_none.
Qed.

(** The decorations handed to the highlighter, which throws on overlapping
    ones, are in order and each ends before the next begins; each covers an
    occurrence of a word that was asked for, on a line the word's entry lets
    through. *)
Theorem word_decorations_disjoint (code : string) (words : list CodeBlockWordSpec)
    (ds : list Decoration) :
  buildWordDecorations code words = Some ds ->
  StronglySorted before ds /\
  forall d, d ∈ ds -> exists e, e ∈ words /\ entry_marks code e d.
Proof.
  unfold buildWordDecorations. destruct (option_bind_list _ _ _) as [l|] eqn:E; [|done].
  intros [= <-].
  destruct (decorate_words_ok code words [] l (fun d => exists e, e ∈ words /\ entry_marks code e d))
    as [HP Ha]; [intros e d ? ?; by exists e|constructor|constructor|done|].
  rewrite Forall_forall in HP. split; [|intros d Hd; unfold sort_decs in Hd; rewrite sort_by_elem in Hd; by apply HP].
  apply sort_decs_sorted; [|done]. rewrite Forall_forall. intros d Hd.
  destruct (HP d Hd) as (e & _ & He). unfold solid.
  assert (Hm : exists w limit, marks code w limit d)
    by (destruct e; simpl in He; [eauto|destruct He as (? & _ & ?); eauto]).
  destruct Hm as ([|c w] & limit & Hw & -> & _); [done|]. simpl. lia.
Qed.

Lemma word_decorations_disjoint_witness :
  let ds := [mkDec 0 3; mkDec 4 6] in
  StronglySorted before ds /\
  forall d, d ∈ ds -> exists e, e ∈ [WordText "foo"; WordAt "ba" (Some (SpecText "1"))] /\
                                entry_marks "foo ba" e d.
Proof.
  apply (word_decorations_disjoint "foo ba" [WordText "foo"; WordAt "ba" (Some (SpecText "1"))]).
  reflexivity.
Defined.

(** ** Fences *)

(** A markdown text as prose and fenced blocks; the last block may be open. *)
Record Fenced := mkFenced { open_line : string; fence_body : list string; close_line : string }.
Record Document := mkDocument {
  segments : list (list string * Fenced);
  rest_prose : list string;
  open_fence : option (string * list string)
}.

Definition fenced_lines (f : Fenced) : list string :=
  open_line f :: fence_body f ++ [close_line f].
Definition document_lines (d : Document) : list string :=
  flat_map (fun s => s.1 ++ fenced_lines s.2) (segments d) ++ rest_prose d ++
  match open_fence d with Some (o, body) => o :: body | None => [] end.

Definition text_part (ls : list string) : list CodeBlockMarkdownPart :=
  let t := trim (join (str1 lf) ls) in
  if String.eqb t "" then [] else [mkPart PText t None false].
Definition code_part (open_ : string) (body : list string) (isOpen : bool) : CodeBlockMarkdownPart :=
  let info := match match_fence open_ with Some (_, i) => i | None => "" end in
  mkPart PCode (join (str1 lf) body) (if String.eqb info "" then None else Some info) isOpen.
Definition document_parts (d : Document) : list CodeBlockMarkdownPart :=
  flat_map (fun s => text_part s.1 ++ [code_part (open_line s.2) (fence_body s.2) false]) (segments d) ++
  text_part (rest_prose d) ++
  match open_fence d with Some (o, body) => [code_part o body true] | None => [] end.

(** The delimiters [r] with [i] after them end a fence of the delimiters [o]. *)
Definition closing (o r i : string) : Prop :=
  String.get 0 r = String.get 0 o /\ (String.length o <= String.length r)%nat /\ i = "".
Lemma closes_spec o r i : closes o r i = true <-> closing o r i.
Proof.
  unfold closes, closing. rewrite !andb_true_iff, bool_decide_eq_true, Nat.leb_le, String.eqb_eq.
  tauto.
Qed.

(** Prose holds no fence; a fence's body does not close it, its last line does. *)
Definition prose (ls : list string) : Prop := Forall (fun l => match_fence l = None) ls.
Definition stays_open (o l : string) : Prop :=
  forall r i, match_fence l = Some (r, i) -> ~ closing o r i.
Definition opens (o_line : string) (body : list string) : Prop :=
  exists r i, match_fence o_line = Some (r, i) /\ Forall (stays_open r) body.
Definition well_fenced (f : Fenced) : Prop :=
  exists r i r' i', match_fence (open_line f) = Some (r, i) /\ Forall (stays_open r) (fence_body f) /\
    match_fence (close_line f) = Some (r', i') /\ closing r r' i'.
Definition well_formed (d : Document) : Prop :=
  Forall (fun s => prose s.1 /\ well_fenced s.2) (segments d) /\ prose (rest_prose d) /\
  match open_fence d with Some (o, body) => opens o body | None => True end.

Lemma fold_prose ls st : prose ls -> opener st = None ->
  fold_left fence_line ls st = mkFence (parts st) None (language st) (buffer st ++ ls).
Proof.
  intros H. revert st. induction H as [|l ls Hl _ IH]; intros [ps o la b] Ho; simpl in *; subst o.
  - by rewrite app_nil_r.
  - unfold fence_line at 2. rewrite Hl. simpl. rewrite IH by done. simpl. by rewrite <-app_assoc.
Qed.

Lemma fold_body ls o st : Forall (stays_open o) ls -> opener st = Some o ->
  fold_left fence_line ls st = mkFence (parts st) (Some o) (language st) (buffer st ++ ls).
Proof.
  intros H. revert st. induction H as [|l ls Hl _ IH]; intros [ps o' la b] Ho; simpl in *; subst o'.
  - by rewrite app_nil_r.
  - assert (E : fence_line (mkFence ps (Some o) la b) l = mkFence ps (Some o) la (b ++ [l])).
    { unfold fence_line. destruct (match_fence l) as [[r i]|] eqn:Em; [|done]. simpl.
      destruct (closes o r i) eqn:Ec; [|done]. by destruct (Hl r i Em); apply closes_spec. }
    rewrite E, IH by done. simpl. by rewrite <-app_assoc.
Qed.

Lemma flushText_parts ps la ls :
  flushText (mkFence ps None la ls) = mkFence (ps ++ text_part ls) None la [].
Proof.
  unfold flushText, text_part. simpl. destruct (String.eqb _ _); [by rewrite app_nil_r|done].
Qed.

Lemma fold_open ls o r i ps : prose ls -> match_fence o = Some (r, i) ->
  fold_left fence_line (ls ++ [o]) (mkFence ps None None []) =
  mkFence (ps ++ text_part ls) (Some r) (if String.eqb i "" then None else Some i) [].
Proof.
  intros Hls Ho. rewrite fold_left_app, (fold_prose ls) by done. cbn [fold_left].
  unfold fence_line. rewrite Ho. cbn [opener parts language buffer app].
  by rewrite flushText_parts.
Qed.

Lemma fold_segment s ps : prose s.1 -> well_fenced s.2 ->
  fold_left fence_line (s.1 ++ fenced_lines s.2) (mkFence ps None None []) =
  mkFence (ps ++ text_part s.1 ++ [code_part (open_line s.2) (fence_body s.2) false]) None None [].
Proof.
  intros Hp (r & i & r' & i' & Ho & Hb & Hc & Hcl). unfold fenced_lines.
  rewrite app_comm_cons, app_assoc, fold_left_app, cons_middle, app_assoc, fold_left_app.
  rewrite (fold_open _ _ _ _ _ Hp Ho), (fold_body (fence_body s.2) r) by done. cbn [fold_left].
  apply closes_spec in Hcl. unfold fence_line. rewrite Hc. cbn [opener]. rewrite Hcl. unfold flushCode. cbn.
  unfold code_part. rewrite Ho. by rewrite app_assoc.
Qed.

Lemma fold_segments ss ps : Forall (fun s => prose s.1 /\ well_fenced s.2) ss ->
  fold_left fence_line (flat_map (fun s => s.1 ++ fenced_lines s.2) ss) (mkFence ps None None []) =
  mkFence (ps ++ flat_map (fun s => text_part s.1 ++
                             [code_part (open_line s.2) (fence_body s.2) false]) ss) None None [].
Proof.
  intros H. revert ps. induction H as [|s ss [Hp Hw] _ IH]; intros ps; cbn [flat_map].
  - by rewrite app_nil_r.
  - rewrite fold_left_app, fold_segment, IH by done. by rewrite <-app_assoc.
Qed.

(** Reading a list of lines. *)
Definition read_lines (ls : list string) : list CodeBlockMarkdownPart :=
  let st := fold_left fence_line ls (mkFence [] None None []) in
  parts (match opener st with Some _ => flushCode true st | None => flushText st end).

Lemma read_document d : well_formed d -> read_lines (document_lines d) = document_parts d.
Proof.
  intros (Hs & Hp & Ho). unfold read_lines, document_lines, document_parts.
  rewrite fold_left_app, fold_segments by done. cbn [app].
  destruct (open_fence d) as [[o body]|].
  - destruct Ho as (r & i & Hm & Hb).
    rewrite cons_middle, app_assoc, fold_left_app, (fold_open _ _ _ _ _ Hp Hm).
    rewrite (fold_body _ r) by done. unfold flushCode, code_part. simpl. rewrite Hm.
    by rewrite <-app_assoc.
  - rewrite app_nil_r, fold_prose by done. cbn [opener app parts]. rewrite flushText_parts.
    cbn [parts]. by rewrite app_nil_r.
Qed.

(** Every list of lines is a document in exactly one way of reading it. *)
Definition add_line (d : Document) (l : string) : Document :=
  match open_fence d, match_fence l with
  | None, None => mkDocument (segments d) (rest_prose d ++ [l]) None
  | None, Some _ => mkDocument (segments d) (rest_prose d) (Some (l, []))
  | Some (o, body), None => mkDocument (segments d) (rest_prose d) (Some (o, body ++ [l]))
  | Some (o, body), Some (r', i') =>
      match match_fence o with
      | Some (r, _) =>
          if closes r r' i'
          then mkDocument (segments d ++ [(rest_prose d, mkFenced o body l)]) [] None
          else mkDocument (segments d) (rest_prose d) (Some (o, body ++ [l]))
      | None => d
      end
  end.

Lemma add_line_ok d l : well_formed d ->
  well_formed (add_line d l) /\ document_lines (add_line d l) = document_lines d ++ [l].
Proof.
  destruct d as [ss ls [[o body]|]]; unfold well_formed, document_lines, add_line; simpl;
    intros (Hs & Hp & Ho).
  - destruct Ho as (r & i & Hm & Hb). rewrite Hm.
    assert (Hgrow : stays_open r l -> opens o (body ++ [l])).
    { intros H. exists r, i. split; [done|]. apply Forall_app. by repeat constructor. }
    assert (Hlines : ls ++ o :: body ++ [l] = (ls ++ o :: body) ++ [l])
      by (by rewrite <-app_assoc).
    destruct (match_fence l) as [[r' i']|] eqn:El; [destruct (closes r r' i') eqn:Ec|];
      cbn [segments rest_prose open_fence].
    + rewrite flat_map_app. cbn [flat_map fst snd fenced_lines open_line fence_body close_line].
      split_and!; [|constructor|done|].
      * apply Forall_app. split; [done|]. repeat constructor; [done|].
        exists r, i, r', i'. by rewrite <-closes_spec.
      * unfold fenced_lines. cbn. rewrite !app_nil_r, <-!app_assoc. done.
    + split_and!; [done|done| |by rewrite Hlines, app_assoc].
      apply Hgrow. intros r2 i2. rewrite El, <-closes_spec. intros [= <- <-]. by rewrite Ec.
    + split_and!; [done|done| |by rewrite Hlines, app_assoc].
      apply Hgrow. intros r2 i2. by rewrite El.
  - rewrite !app_nil_r. destruct (match_fence l) as [[r i]|] eqn:El; simpl.
    + split_and!; [done|done| |by rewrite app_assoc]. by exists r, i.
    + split_and!; [done| |done|by rewrite app_nil_r, app_assoc]. apply Forall_app. by repeat constructor.
Qed.

Definition document_of (ls : list string) : Document :=
  fold_left add_line ls (mkDocument [] [] None).
Lemma document_of_ok ls : well_formed (document_of ls) /\ document_lines (document_of ls) = ls.
Proof.
  unfold document_of. induction ls as [|l ls [IH1 IH2]] using rev_ind.
  - by repeat constructor.
  - rewrite fold_left_app. simpl. destruct (add_line_ok _ l IH1) as [H1 H2].
    split; [done|]. by rewrite H2, IH2.
Qed.

(** Whatever the text, its parts are those of the document it spells: prose
    trimmed, each closed block, and a last block flagged [open] when the
    closing delimiter has not arrived. *)
Lemma fences_of_any_text md : exists d, well_formed d /\
  join (str1 lf) (document_lines d) = md /\ markdownFences md = document_parts d.
Proof.
  exists (document_of (split_char lf md)).
  destruct (document_of_ok (split_char lf md)) as [Hw Hl]. split_and!; [done| |].
  - by rewrite Hl, join_split.
  - rewrite <-read_document, Hl by done. done.
Qed.

(** A document of prose and fenced blocks, written out line by line, reads
    back as its own parts: a fence of more delimiters may hold shorter ones,
    and a block still open at the end comes back flagged, never dropped. *)
Theorem fences_read_back (d : Document) :
  well_formed d -> document_lines d <> [] -> Forall (lacks lf) (document_lines d) ->
  markdownFences (join (str1 lf) (document_lines d)) = document_parts d.
Proof.
  intros Hw Hn Hl. rewrite <-read_document by done.
  unfold markdownFences, read_lines. by rewrite split_join.
Qed.

Definition sample_document : Document :=
  mkDocument [(["An example:"], mkFenced "````ts" ["```"; "let x = 1"] "````")]
    ["then"] (Some ("~~~sh", ["ls"])).
Lemma fences_read_back_witness :
  markdownFences (join (str1 lf) (document_lines sample_document)) =
  [mkPart PText "An example:" None false;
   mkPart PCode (join (str1 lf) ["```"; "let x = 1"]) (Some "ts") false;
   mkPart PText "then" None false; mkPart PCode "ls" (Some "sh") true].
Proof.
  rewrite fences_read_back; [reflexivity| |discriminate|repeat constructor].
  split_and!; repeat constructor; simpl.
  - exists "````", "ts", "````", "". split_and!; [reflexivity| |reflexivity|].
    + repeat constructor; intros r i H; vm_compute in H; [|discriminate].
      injection H as <- <-. intros (_ & Hl & _). simpl in Hl. lia.
    + split_and!; [reflexivity|simpl; lia|reflexivity].
  - exists "~~~", "sh". split; [reflexivity|]. repeat constructor.
    intros r i H; vm_compute in H; discriminate.
Defined.
