(* ===== verification/CodeHighlight.v ===== *)
(** * Code block: the highlighting pass

    The second half of
    [packages/ui/src/components/reui/code-block/code-block-highlight.tsx]: theme
    and language registration, the walk from the highlighter's tree to lines,
    line states, the cache that keeps unchanged lines the same objects, and
    [highlightCode].  The highlighter (shiki) is an argument: what it loads and
    the tree it answers.  A line is an object, so it has an identity beside its
    value; the pass hands out fresh ones. *)
From S2P Require Import Prelude JsString JsValue JsMap ApiClient CodeText.

(** ** Classes, styles and states *)

(** A node of the highlighter's tree; absent children are none. *)
Inductive HastNode :=
  Hast (type : string) (tagName : option string) (value : option string)
       (properties : list (string * val)) (children : list HastNode).
Definition hast_type (n : HastNode) : string := let 'Hast t _ _ _ _ := n in t.
Definition hast_value (n : HastNode) : string := let 'Hast _ _ v _ _ := n in v ?? "".
Definition hast_properties (n : HastNode) : list (string * val) := let 'Hast _ _ _ p _ := n in p.
Definition hast_children (n : HastNode) : list HastNode := let 'Hast _ _ _ _ c := n in c.

(** What [readTokenStyle] answers: a token without its content. *)
Record TokenStyle := mkStyle {
  st_color : option string;
  st_colorDark : option string;
  st_fontStyle : option CodeBlockFontStyle
}.

Definition FONT_STYLE_BY_DECLARATION : jsmap CodeBlockFontStyle :=
  [("font-style:italic", FItalic); ("font-weight:bold", FBold);
   ("text-decoration:underline", FUnderline)].

Definition read_declaration (out : TokenStyle) (declaration : string) : TokenStyle :=
  let trimmed := trim declaration in
  match index_of ":" trimmed with
  | None => out
  | Some separator =>
      let property := trim (str_take separator trimmed) in
      let value := trim (str_drop (S separator) trimmed) in
      if String.eqb property "color" then mkStyle (Some value) (st_colorDark out) (st_fontStyle out)
      else if String.eqb property "--shiki-dark"
      then mkStyle (st_color out) (Some value) (st_fontStyle out)
      else match mget FONT_STYLE_BY_DECLARATION (property +:+ ":" +:+ value) with
           | Some fs => mkStyle (st_color out) (st_colorDark out) (Some fs)
           | None => out
           end
  end.
Definition readTokenStyle (style : val) : TokenStyle :=
  match style with
  | VStr s => fold_left read_declaration (split_char ";" s) (mkStyle None None None)
  | _ => mkStyle None None None
  end.

(** [value.split(/\s+/).filter(Boolean)]: the words of a text. *)
Fixpoint words_from (word s : string) : list string :=
  let flush := if String.eqb word "" then [] else [word] in
  match s with
  | EmptyString => flush
  | String c rest =>
      if is_space c then flush ++ words_from "" rest else words_from (word +:+ str1 c) rest
  end.

Definition classListOf (n : HastNode) : list string :=
  let c := field_of (hast_properties n) "class" in
  let value := if is_nullish c then field_of (hast_properties n) "className" else c in
  match value with
  | VArr items => map js_String items
  | VStr s => words_from "" s
  | _ => []
  end.

Definition LEVELS : list string := ["error"; "warning"; "info"].

(** [Object.keys(state).length ? state : undefined] *)
Definition nonempty_state (s : CodeBlockLineState) : option CodeBlockLineState :=
  match s with [] => None | _ => Some s end.

Definition stateFromClasses (classes : list string) : option CodeBlockLineState :=
  let s0 := if sin "highlighted" classes then mset [] "highlighted" (VBool true) else [] in
  let s1 := if sin "focused" classes then mset s0 "focused" (VBool true) else s0 in
  let s2 := if sin "diff" classes then
              if sin "add" classes then mset s1 "diff" (VStr "add")
              else if sin "remove" classes then mset s1 "diff" (VStr "remove") else s1
            else s1 in
  nonempty_state (fold_left (fun s level =>
    if sin level classes then mset s "level" (VStr level) else s) LEVELS s2).

(** ** From the tree to tokens *)
Definition is_text (n : HastNode) : bool := String.eqb (hast_type n) "text".

(** One child of [collectTokens]'s node: the tokens it pushes. *)
Fixpoint child_tokens (inWord : bool) (child : HastNode) {struct child} : list CodeBlockToken :=
  let 'Hast type _ value properties children := child in
  if String.eqb type "text" then
    match value with
    | None | Some "" => []
    | Some v => [mkToken v None None None inWord]
    end
  else if negb (String.eqb type "element") then []
  else
    let classes := classListOf child in
    let childInWord := inWord || sin "cb-word" classes in
    let style := readTokenStyle (field_of properties "style") in
    let hasStyle := truthy_str (st_color style) || truthy_str (st_colorDark style) ||
                    bool_decide (st_fontStyle style <> None) in
    if hasStyle && every is_text children then
      let content := join "" (map hast_value children) in
      if String.eqb content "" then []
      else [mkToken content (st_color style) (st_colorDark style) (st_fontStyle style) childInWord]
    else flat_map (child_tokens childInWord) children.
Definition collectTokens (n : HastNode) (inWord : bool) : list CodeBlockToken :=
  flat_map (child_tokens inWord) (hast_children n).

Fixpoint findCodeElement (root : HastNode) : option HastNode :=
  let 'Hast type tagName _ _ children := root in
  if String.eqb type "element" && bool_decide (tagName = Some "code") then Some root
  else (fix first children := match children with
        | [] => None
        | c :: rest => match findCodeElement c with Some f => Some f | None => first rest end
        end) children.

(** ** Identity reuse *)
Definition MAX_TRACKED_DOCUMENTS : nat := 24.

(** A line object: its identity, and the value it holds. *)
Record LineObj := mkObj { oid : nat; oline : CodeBlockLine }.

#[export] Instance font_style_dec : EqDecision CodeBlockFontStyle.
Proof. solve_decision. Defined.
#[export] Instance token_dec : EqDecision CodeBlockToken.
Proof. solve_decision. Defined.

(** [JSON.stringify(state ?? null)] *)
Definition state_json (s : option CodeBlockLineState) : option string :=
  stringify (match s with Some st => VObj st | None => VNull end).

Definition sameLine (a b : CodeBlockLine) : bool :=
  Z.eqb (number a) (number b) && String.eqb (text a) (text b) &&
  Nat.eqb (length (tokens a)) (length (tokens b)) &&
  bool_decide (state_json (state a) = state_json (state b)) &&
  every (fun p => bool_decide (p.1 = p.2)) (zip (tokens a) (tokens b)).

Notation Documents := (jsmap (list LineObj)).

(** The loop over [next]: each line with the previous one at its index. *)
Fixpoint reuse_lines (previous next : list LineObj) : list LineObj :=
  match previous, next with
  | before :: ps, n :: ns =>
      (if sameLine (oline before) (oline n) then before else n) :: reuse_lines ps ns
  | [], _ => next
  | _, [] => []
  end.

Definition reuseUnchangedLines (docs : Documents) (key : string) (next : list LineObj)
    : Documents * list LineObj :=
  let next' := match mget docs key with
               | Some previous => reuse_lines previous next
               | None => next
               end in
  let docs1 := mset docs key next' in
  let docs2 := if Nat.ltb MAX_TRACKED_DOCUMENTS (length docs1)
               then match docs1 with (oldest, _) :: _ => mdel docs1 oldest | [] => docs1 end
               else docs1 in
  (docs2, next').

(** ** [highlightCode] *)

Record LevelSpecs := mkLevels {
  lv_error : option CodeBlockLineSpec;
  lv_warning : option CodeBlockLineSpec;
  lv_info : option CodeBlockLineSpec
}.
Record HighlightOptions := mkOptions {
  o_language : option string;
  o_themes : option (string * string);
  o_transformers : nat;
  o_startLine : option Z;
  o_instanceKey : option string;
  o_highlightedLines : option CodeBlockLineSpec;
  o_highlightedWords : option (list CodeBlockWordSpec);
  o_focusedLines : option CodeBlockLineSpec;
  o_diff : option (option CodeBlockLineSpec * option CodeBlockLineSpec);
  o_lineLevels : option LevelSpecs
}.

(** The five kinds of line set [applyPropState] consults. *)
Record LineSets := mkSets {
  ls_highlighted : list dbl;
  ls_focused : list dbl;
  ls_added : list dbl;
  ls_removed : list dbl;
  ls_levels : list (string * list dbl)
}.

(** [None] when a specification keeps [parseLineSpec] in its loop. *)
Definition line_sets (o : HighlightOptions) : option LineSets :=
  let level f := parseLineSpec (match o_lineLevels o with Some l => f l | None => None end) in
  match parseLineSpec (o_highlightedLines o), parseLineSpec (o_focusedLines o),
        parseLineSpec (match o_diff o with Some d => d.1 | None => None end),
        parseLineSpec (match o_diff o with Some d => d.2 | None => None end),
        level lv_error, level lv_warning, level lv_info with
  | Some h, Some f, Some a, Some r, Some e, Some w, Some i =>
      Some (mkSets h f a r [("error", e); ("warning", w); ("info", i)])
  | _, _, _, _, _, _, _ => None
  end.

(** The state of the line at [source], counted from one. *)
Definition prop_state (s : LineSets) (source : Z) (st : option CodeBlockLineState)
    : option CodeBlockLineState :=
  let s0 := st ?? [] in
  let s1 := if has_line (ls_highlighted s) source then mset s0 "highlighted" (VBool true) else s0 in
  let s2 := if has_line (ls_focused s) source then mset s1 "focused" (VBool true) else s1 in
  let s3 := if has_line (ls_added s) source then mset s2 "diff" (VStr "add")
            else if has_line (ls_removed s) source then mset s2 "diff" (VStr "remove") else s2 in
  nonempty_state (fold_left (fun acc lv =>
    if has_line lv.2 source then mset acc "level" (VStr lv.1) else acc) (ls_levels s) s3).

Definition with_state (l : CodeBlockLine) (st : option CodeBlockLineState) : CodeBlockLine :=
  mkLine (tokens l) (number l) (text l) st (gutter l).
Definition applyPropState (lines : list CodeBlockLine) (s : LineSets) : list CodeBlockLine :=
  imap (fun i l => with_state l (prop_state s (Z.of_nat (S i)) (state l))) lines.

(** The options as the values [JSON.stringify] prints in the cache's key. *)
Definition spec_val (s : option CodeBlockLineSpec) : val :=
  match s with
  | None => VUndef
  | Some (SpecNumbers l) => VArr (map VNum l)
  | Some (SpecText t) => VStr t
  end.
Definition or_null (v : val) : val := if is_nullish v then VNull else v.
Definition word_val (w : CodeBlockWordSpec) : val :=
  match w with
  | WordText t => VStr t
  | WordAt t lines => VObj [("word", VStr t); ("lines", spec_val lines)]
  end.
Definition signature (o : HighlightOptions) (language : string) (themes : string * string)
    (startLine : Z) : string :=
  stringify (VArr [
    match o_instanceKey o with Some k => VStr k | None => VNull end;
    VStr language;
    VObj [("light", VStr themes.1); ("dark", VStr themes.2)];
    VNum (num_Z startLine);
    or_null (spec_val (o_highlightedLines o));
    match o_highlightedWords o with Some ws => VArr (map word_val ws) | None => VNull end;
    or_null (spec_val (o_focusedLines o));
    match o_diff o with
    | Some d => VObj [("added", spec_val d.1); ("removed", spec_val d.2)] | None => VNull end;
    match o_lineLevels o with
    | Some l => VObj [("error", spec_val (lv_error l)); ("warning", spec_val (lv_warning l));
                      ("info", spec_val (lv_info l))]
    | None => VNull end;
    VNum (num_nat (o_transformers o))]) ?? "".

(** The module's variables, and the next identity to hand out. *)
Record Module := mkModule {
  loadedLanguages : jsset;
  loadedThemes : jsset;
  warnedThemes : jsset;
  previousDocuments : Documents;
  next_id : nat
}.

(** The highlighter: whether each load is fulfilled, and its tree ([None] when
    it throws). *)
Record Engine := mkEngine {
  starts : bool;
  loads_theme : string -> bool;
  loads_language : string -> bool;
  codeToHast : string -> string -> string * string -> list Decoration -> option HastNode
}.

Inductive Side := Light | Dark.
Definition default_theme (s : Side) : string :=
  match s with Light => "github-light" | Dark => "github-dark" end.

(** The registered theme for a name, and whether its load was fulfilled. *)
Definition ensureTheme (production : bool) (e : Engine) (m : Module) (name : string) (s : Side)
    : Module * option string :=
  let resolved := if in_record name codeBlockThemes then name else default_theme s in
  let warned := if negb (String.eqb resolved name) && negb production
                then sadd (warnedThemes m) name else warnedThemes m in
  let put themes := mkModule (loadedLanguages m) themes warned (previousDocuments m) (next_id m) in
  if sin resolved (loadedThemes m) then (put (loadedThemes m), Some resolved)
  else if loads_theme e resolved
  then (put (sadd (loadedThemes m) resolved), Some resolved)
  else (put (loadedThemes m), None).

Definition ensureLanguage (e : Engine) (m : Module) (language : string) : Module * bool :=
  if sin language (loadedLanguages m) then (m, true)
  else if negb (in_record language codeBlockLanguages) then (m, true)
  else if loads_language e language
  then (mkModule (sadd (loadedLanguages m) language) (loadedThemes m) (warnedThemes m)
          (previousDocuments m) (next_id m), true)
  else (m, false).

(** Objects for a list of lines. *)
Definition fresh_lines (m : Module) (ls : list CodeBlockLine) : Module * list LineObj :=
  (mkModule (loadedLanguages m) (loadedThemes m) (warnedThemes m) (previousDocuments m)
     (next_id m + length ls),
   imap (fun i l => mkObj (next_id m + i) l) ls).

(** The [try]: the highlighter's tree, or [None] for the [catch]; no answer
    when the decorations keep [parseLineSpec] in its loop.  Both calls of
    [ensureTheme] leave the side out. *)
Definition run_engine (production : bool) (e : Engine) (m : Module) (source language : string)
    (themes : string * string) (o : HighlightOptions) : option (Module * option HastNode) :=
  if negb (starts e) then Some (m, None)
  else
    let '(m1, light) := ensureTheme production e m themes.1 Light in
    let '(m2, dark) := ensureTheme production e m1 themes.2 Light in
    match light, dark with
    | Some light, Some dark =>
        let '(m3, ok) := ensureLanguage e m2 language in
        if negb ok then Some (m3, None)
        else match buildWordDecorations source (o_highlightedWords o ?? []) with
             | Some decorations => Some (m3, codeToHast e source language (light, dark) decorations)
             | None => None
             end
    | _, _ => Some (m2, None)
    end.

(** The lines of the code element's children. *)
Definition element_line (startLine : Z) (i : nat) (child : HastNode) : CodeBlockLine :=
  let ts := collectTokens child false in
  mkLine ts (startLine + Z.of_nat i) (join "" (map content ts))
    (stateFromClasses (classListOf child)) None.
Definition hast_lines (codeElement : HastNode) (startLine : Z) : list CodeBlockLine :=
  imap (element_line startLine)
    (bfilter (fun c => String.eqb (hast_type c) "element") (hast_children codeElement)).

(** The whole pass.  [None]: the call does not return. *)
Definition highlightCode (production : bool) (e : Engine) (m : Module) (code : string)
    (o : HighlightOptions) : option (Module * list LineObj) :=
  let source := normalizeCode code in
  let startLine := o_startLine o ?? 1%Z in
  let plain m := fresh_lines m (toPlainLines source startLine) in
  match resolveCodeBlockLanguage (o_language o) with
  | None => Some (plain m)
  | Some language =>
      let themes := o_themes o ?? ("github-light", "github-dark") in
      match run_engine production e m source language themes o with
      | None => None
      | Some (m1, None) => Some (plain m1)
      | Some (m1, Some root) =>
          match findCodeElement root with
          | None => Some (plain m1)
          | Some codeElement =>
              match hast_lines codeElement startLine with
              | [] => Some (plain m1)
              | lines =>
                  match line_sets o with
                  | None => None
                  | Some sets =>
                      let '(m2, objs) := fresh_lines m1 (applyPropState lines sets) in
                      let '(docs, objs') := reuseUnchangedLines (previousDocuments m2)
                                              (signature o language themes startLine) objs in
                      Some (mkModule (loadedLanguages m2) (loadedThemes m2) (warnedThemes m2)
                              docs (next_id m2), objs')
                  end
              end
          end
      end
  end.

Definition resetCodeBlockHighlighter (m : Module) : Module :=
  mkModule [] [] (warnedThemes m) [] (next_id m).
