(* ===== verification/CodeHighlightLaws.v ===== *)
(** * Code block: laws of the highlighting pass

    Whatever the highlighter answers, the lines shown are the lines of the
    source, numbered in sequence; a line that did not change keeps its object,
    and the cache of documents stays bounded. *)
From S2P Require Import Prelude JsString JsValue JsMap CodeText CodeTextLaws CodeHighlight.

#[local] Arguments Ascii.eqb : simpl never.

(** ** Trees *)
Lemma hast_induction (P : HastNode -> Prop) :
  (forall t tag v ps cs, Forall P cs -> P (Hast t tag v ps cs)) -> forall n, P n.
Proof.
  intros H. fix IH 1. intros [t tag v ps cs]. apply H.
  induction cs as [|c cs IHcs]; constructor; [apply IH|exact IHcs].
Qed.

(** The text of a node: its text nodes, under elements, in order. *)
Fixpoint text_of (n : HastNode) : string :=
  let 'Hast type _ value _ children := n in
  if String.eqb type "text" then value ?? ""
  else if String.eqb type "element" then join "" (map text_of children)
  else "".

Definition tokens_text (ts : list CodeBlockToken) : string := join "" (map content ts).

Lemma text_children cs : every is_text cs = true -> map hast_value cs = map text_of cs.
Proof.
  induction cs as [|[t tag v ps cs'] cs IH]; [done|]. simpl.
  intros [H1 H2]%andb_true_iff. unfold is_text in H1. simpl in H1. by rewrite H1, IH.
Qed.

Lemma child_tokens_text n inWord : tokens_text (child_tokens inWord n) = text_of n.
Proof.
  revert inWord. induction n as [t tag v ps cs IH] using hast_induction. intros inWord.
  cbn [child_tokens text_of]. destruct (String.eqb t "text").
  { destruct v as [[|c s]|]; done. }
  destruct (String.eqb t "element"); [|done]. cbn [negb]. cbv zeta.
  set (classes := classListOf _). set (style := readTokenStyle _).
  destruct (_ && every is_text cs) eqn:E.
  - apply andb_true_iff in E as [_ E]. rewrite text_children by done.
    destruct (String.eqb_spec (join "" (map text_of cs)) "") as [->|]; done.
  - clear E. unfold tokens_text. generalize (inWord || sin "cb-word" classes). intros b.
    induction IH as [|c cs Hc _ IH']; [done|]. cbn [flat_map map].
    rewrite map_app, join_nil_app, join_nil_cons. f_equal; [apply Hc|apply IH'].
Qed.

Lemma element_line_text startLine i t tag v ps cs : t = "element" ->
  text (element_line startLine i (Hast t tag v ps cs)) = text_of (Hast t tag v ps cs).
Proof.
  intros ->. unfold element_line. cbn [text]. cbn [text_of]. change (String.eqb "element" "text") with false.
  change (String.eqb "element" "element") with true. cbv iota.
  unfold collectTokens. cbn [hast_children].
  induction cs as [|c cs IH]; [done|]. cbn [flat_map map].
  rewrite map_app, join_nil_app, join_nil_cons. f_equal; [apply child_tokens_text|apply IH].
Qed.

(** ** Identity reuse *)

(** Two lines a reader cannot tell apart. *)
Definition shows_same (a b : CodeBlockLine) : Prop :=
  number a = number b /\ text a = text b /\ tokens a = tokens b /\
  state_json (state a) = state_json (state b).

Lemma zip_equal {A} `{EqDecision A} (l k : list A) : length l = length k ->
  every (fun p => bool_decide (p.1 = p.2)) (zip l k) = true -> l = k.
Proof.
  revert k. induction l as [|x l IH]; intros [|y k]; [done..|]. simpl.
  intros [= Hlen] [H1 H2]%andb_true_iff. apply bool_decide_eq_true_1 in H1. simpl in H1.
  by rewrite H1, (IH k).
Qed.

Lemma sameLine_shows a b : sameLine a b = true -> shows_same a b.
Proof.
  unfold sameLine. intros [[[[H1 H2]%andb_true_iff H3]%andb_true_iff H4]%andb_true_iff H5]%andb_true_iff.
  unbool. split_and!; [done|done|by apply zip_equal|done].
Qed.

Definition kept (previous : list LineObj) (i : nat) (n : LineObj) : LineObj :=
  match previous !! i with
  | Some b => if sameLine (oline b) (oline n) then b else n
  | None => n
  end.

Lemma reuse_lines_lookup previous next i :
  reuse_lines previous next !! i = kept previous i <$> next !! i.
Proof.
  revert next i. induction previous as [|b ps IH]; intros next i; simpl.
  - destruct (next !! i) eqn:E; simpl; by rewrite ?E.
  - destruct next as [|n ns]; [done|]. destruct i as [|i]; simpl.
    + unfold kept. simpl. by destruct (sameLine _ _).
    + rewrite IH. done.
Qed.

Lemma kept_shows previous i n : shows_same (oline (kept previous i n)) (oline n).
Proof.
  unfold kept. destruct (previous !! i) as [b|]; [|done].
  destruct (sameLine (oline b) (oline n)) eqn:E; [by apply sameLine_shows|done].
Qed.

Lemma reuse_lookup docs key next i :
  (reuseUnchangedLines docs key next).2 !! i = kept (mget docs key ?? []) i <$> next !! i.
Proof.
  unfold reuseUnchangedLines. cbv zeta. cbn [snd].
  destruct (mget docs key); simpl; [apply reuse_lines_lookup|by destruct (next !! i)].
Qed.

Definition bounded (docs : Documents) : Prop :=
  NoDup (mkeys docs) /\ length docs <= MAX_TRACKED_DOCUMENTS.

Lemma mset_length {A} (m : jsmap A) k v : length (mset m k v) <= S (length m).
Proof.
  destruct (mget m k) eqn:E.
  - rewrite <-(length_map fst (mset m k v)), mset_keys_old, length_map by (by rewrite E). lia.
  - rewrite mset_keys_new, length_app by done. simpl. lia.
Qed.

Lemma reuse_bounded docs key next : bounded docs ->
  bounded (reuseUnchangedLines docs key next).1.
Proof.
  intros [Hn Hl]. unfold reuseUnchangedLines, bounded. cbv zeta. cbn [fst].
  set (next' := match mget docs key with Some _ => _ | None => _ end).
  pose proof (mset_length docs key next') as Hlen.
  pose proof (mset_NoDup docs key next' Hn) as Hd.
  destruct (Nat.ltb_spec MAX_TRACKED_DOCUMENTS (length (mset docs key next'))); [|done].
  destruct (mset docs key next') as [|[k v] docs1]; [simpl in *; lia|].
  split; [by apply mdel_NoDup|]. simpl in *. rewrite String.eqb_refl. lia.
Qed.

(** A pass keeps the cache within its 24 documents and answers, at each
    index, a line the reader cannot tell from the fresh one - the previous
    pass's very object when that line is the same, the fresh object otherwise -
    and it is this answer that the next pass will compare with. *)
Theorem reuse_keeps_unchanged_objects (docs : Documents) (key : string) (next : list LineObj) :
  bounded docs ->
  let '(docs', lines) := reuseUnchangedLines docs key next in
  bounded docs' /\
  (key ∈ mkeys docs' -> mget docs' key = Some lines) /\
  (forall i, lines !! i = kept (mget docs key ?? []) i <$> next !! i) /\
  (forall i l n, lines !! i = Some l -> next !! i = Some n -> shows_same (oline l) (oline n)).
Proof.
  intros Hb. pose proof (reuse_bounded docs key next Hb) as Hb'.
  pose proof (reuse_lookup docs key next) as Hlines.
  assert (Hkey : key ∈ mkeys (reuseUnchangedLines docs key next).1 ->
            mget (reuseUnchangedLines docs key next).1 key =
            Some (reuseUnchangedLines docs key next).2).
  { unfold reuseUnchangedLines. cbv zeta. cbn [fst snd].
    set (next' := match mget docs key with Some _ => _ | None => _ end).
    pose proof (mget_set_eq docs key next') as Hg. pose proof (mset_NoDup docs key next' (proj1 Hb)) as Hd.
    destruct (Nat.ltb _ _); [|done]. destruct (mset docs key next') as [|[k v] docs1]; [done|].
    intros [w Hw]%mget_keys. rewrite mget_del in Hw |- * by done.
    by destruct (String.eqb k key). }
  destruct (reuseUnchangedLines docs key next) as [docs' lines]. simpl in *.
  split_and!; [done|done|done|]. intros i l n Hl Hn. rewrite Hlines, Hn in Hl.
  injection Hl as <-. apply kept_shows.
Qed.

Definition line_obj (i : nat) (t : string) : LineObj := mkObj i (plain_line 1 0 t).
Lemma reuse_keeps_unchanged_objects_witness :
  let docs := [("k", [line_obj 0 "a"])] in
  let lines := [line_obj 0 "a"; line_obj 8 "b"] in
  bounded docs /\
  (("k" ∈ ["k"] -> mget [("k", lines)] "k" = Some lines)) /\
  bounded [("k", lines)].
Proof.
  pose proof (reuse_keeps_unchanged_objects [("k", [line_obj 0 "a"])] "k"
                [line_obj 7 "a"; line_obj 8 "b"]) as H.
  assert (Hb : bounded [("k", [line_obj 0 "a"])]).
  { split; [apply NoDup_singleton|vm_compute; lia]. }
  destruct (H Hb) as (H1 & H2 & _). split_and!; [exact Hb|exact H2|exact H1].
Defined.

(** ** The pass *)

(** What the pass answers: the texts of the lines, numbered from the start. *)
Definition displays (objs : list LineObj) (startLine : Z) (ls : list string) : Prop :=
  map (fun o => text (oline o)) objs = ls /\
  map (fun o => number (oline o)) objs = map (fun i => startLine + Z.of_nat i)%Z (seq 0 (length ls)).

Lemma list_eq_map {A B} (f g : A -> B) (l k : list A) :
  length l = length k -> (forall i x y, l !! i = Some x -> k !! i = Some y -> f x = g y) ->
  map f l = map g k.
Proof.
  revert k. induction l as [|x l IH]; intros [|y k]; [done..|]. simpl. intros [= Hl] H.
  f_equal; [by apply (H 0)|]. apply IH; [done|]. intros i. apply (H (S i)).
Qed.

Lemma map_imap_seq {A B} (f : nat -> A -> B) (g : B -> Z) (h : nat -> Z) l :
  (forall i x, g (f i x) = h i) -> map g (imap f l) = map h (seq 0 (length l)).
Proof.
  intros H. apply list_eq. intros i. rewrite !list_lookup_fmap, list_lookup_imap.
  destruct (l !! i) as [x|] eqn:E.
  - rewrite lookup_seq_lt by (by eapply lookup_lt_Some). simpl. by rewrite H.
  - apply lookup_ge_None in E. by rewrite lookup_seq_ge.
Qed.

Lemma map_imap_text {A B C} (f : nat -> A -> B) (g : B -> C) (h : A -> C) l :
  (forall i x, g (f i x) = h x) -> map g (imap f l) = map h l.
Proof.
  intros H. apply list_eq. intros i. rewrite !list_lookup_fmap, list_lookup_imap.
  destruct (l !! i); simpl; [by rewrite H|done].
Qed.

Lemma fresh_displays m lines startLine ts : map text lines = ts ->
  map number lines = map (fun i => startLine + Z.of_nat i)%Z (seq 0 (length ts)) ->
  displays (fresh_lines m lines).2 startLine ts.
Proof.
  intros <- Hn. unfold displays, fresh_lines. cbn [snd]. rewrite <-Hn. split.
  - by apply map_imap_text.
  - apply list_eq. intros i. rewrite !list_lookup_fmap, list_lookup_imap. by destruct (lines !! i).
Qed.

Lemma plain_displays m source startLine : lacks cr source ->
  displays (fresh_lines m (toPlainLines source startLine)).2 startLine (split_char lf source).
Proof.
  intros H. unfold toPlainLines. rewrite normalize_id by done. apply fresh_displays.
  - rewrite (map_imap_text _ _ id) by done. apply map_id.
  - by apply map_imap_seq.
Qed.

(** The highlighter keeps the text: the elements of its code element are the
    lines it was given. *)
Definition keeps_text (e : Engine) : Prop :=
  forall source language themes decorations root codeElement,
    codeToHast e source language themes decorations = Some root ->
    findCodeElement root = Some codeElement ->
    map text_of (bfilter (fun c => String.eqb (hast_type c) "element") (hast_children codeElement)) =
    split_char lf source.

Lemma hast_displays m ce startLine sets ts :
  map text_of (bfilter (fun c => String.eqb (hast_type c) "element") (hast_children ce)) = ts ->
  displays (fresh_lines m (applyPropState (hast_lines ce startLine) sets)).2 startLine ts.
Proof.
  intros H. unfold applyPropState, hast_lines. set (els := bfilter _ _) in *.
  assert (He : Forall (fun c => hast_type c = "element") els).
  { rewrite Forall_forall. intros c Hc. apply bfilter_elem in Hc as [_ Hc].
    by apply String.eqb_eq in Hc. }
  apply fresh_displays.
  - rewrite (map_imap_text _ _ text) by done. rewrite <-H. apply list_eq. intros i.
    rewrite !list_lookup_fmap, list_lookup_imap. destruct (els !! i) as [c|] eqn:E; [|done].
    simpl. f_equal. rewrite Forall_lookup in He. specialize (He i c E).
    destruct c as [t tag v ps cs].
    exact (element_line_text startLine i t tag v ps cs He).
  - rewrite (map_imap_text _ _ number), <-H, length_map by done. by apply map_imap_seq.
Qed.

Lemma reuse_displays docs key next startLine ts : displays next startLine ts ->
  displays (reuseUnchangedLines docs key next).2 startLine ts.
Proof.
  intros [H1 H2]. unfold displays. rewrite <-H1 at 1. rewrite <-H2.
  split; apply list_eq; intros i; rewrite !list_lookup_fmap, reuse_lookup;
    destruct (next !! i) as [n|]; simpl; try done; f_equal; apply kept_shows.
Qed.

Lemma run_engine_tree production e m source language themes o m' root :
  run_engine production e m source language themes o = Some (m', Some root) ->
  exists themes' ds, codeToHast e source language themes' ds = Some root.
Proof.
  unfold run_engine. destruct (starts e); [|done]. simpl.
  destruct (ensureTheme _ _ m _ _) as [m1 [light|]]; destruct (ensureTheme _ _ m1 _ _) as [m2 [dark|]];
    try done.
  destruct (ensureLanguage _ _ _) as [m3 []]; [|done]. simpl.
  destruct (buildWordDecorations _ _) as [ds|]; [|done]. intros [= _ H]. by exists (light, dark), ds.
Qed.

Lemma run_engine_returns production e m source language themes o :
  run_engine production e m source language themes o = None ->
  buildWordDecorations source (o_highlightedWords o ?? []) = None.
Proof.
  unfold run_engine. destruct (starts e); [|done]. simpl.
  destruct (ensureTheme _ _ m _ _) as [m1 [light|]]; destruct (ensureTheme _ _ m1 _ _) as [m2 [dark|]];
    try done.
  destruct (ensureLanguage _ _ _) as [m3 []]; [|done]. simpl.
  by destruct (buildWordDecorations _ _) as [ds|].
Qed.

(** Highlighting never changes what the code says: over any highlighter
    that keeps the text - whether it starts, loads or throws - and any state of
    the cache, a pass whose line specifications end answers with the lines of
    the source, its line endings made line feeds, numbered in sequence from
    the start line. *)
Theorem highlight_shows_source (production : bool) (e : Engine) (m : Module) (code : string)
    (o : HighlightOptions) :
  keeps_text e -> line_sets o <> None ->
  buildWordDecorations (normalizeCode code) (o_highlightedWords o ?? []) <> None ->
  exists m' objs, highlightCode production e m code o = Some (m', objs) /\
    displays objs (o_startLine o ?? 1%Z) (split_char lf (normalizeCode code)).
Proof.
  intros He Hs Hd. unfold highlightCode. cbv zeta. pose proof (normalize_lacks code) as Hcr.
  assert (Hplain : forall m1, exists m' objs,
    Some (fresh_lines m1 (toPlainLines (normalizeCode code) (o_startLine o ?? 1%Z))) = Some (m', objs) /\
    displays objs (o_startLine o ?? 1%Z) (split_char lf (normalizeCode code))).
  { intros m1. pose proof (plain_displays m1 _ (o_startLine o ?? 1%Z) Hcr) as H.
    destruct (fresh_lines m1 _) as [m' objs]. by exists m', objs. }
  destruct (resolveCodeBlockLanguage (o_language o)) as [language|]; [|apply Hplain].
  destruct (run_engine _ _ _ _ _ _ _) as [[m1 [root|]]|] eqn:Er; [| |].
  - destruct (findCodeElement root) as [ce|] eqn:Ef; [|apply Hplain].
    destruct (run_engine_tree _ _ _ _ _ _ _ _ _ Er) as (themes' & ds & Ht).
    pose proof (He _ _ _ _ _ _ Ht Ef) as Htext.
    destruct (line_sets o) as [sets|]; [|done].
    pose proof (hast_displays m1 ce (o_startLine o ?? 1%Z) sets _ Htext) as Hx.
    destruct (hast_lines ce _) as [|l ls]; [apply Hplain|].
    destruct (fresh_lines m1 _) as [m2 objs]. cbn [snd] in Hx.
    pose proof (reuse_displays (previousDocuments m2) (signature o language
       (o_themes o ?? ("github-light", "github-dark")) (o_startLine o ?? 1%Z)) _ _ _ Hx) as Hr.
    destruct (reuseUnchangedLines _ _ objs) as [docs objs']. by do 2 eexists.
  - apply Hplain.
  - by apply run_engine_returns in Er.
Qed.

(** An engine that answers one element per line. *)
Definition line_node (t : string) : HastNode :=
  Hast "element" (Some "span") None [("class", VStr "line")] [Hast "text" None (Some t) [] []].
Definition sample_engine : Engine :=
  mkEngine true (fun _ => true) (fun _ => true) (fun source _ _ _ =>
    Some (Hast "element" (Some "code") None [] (map line_node (split_char lf source)))).
Definition no_options : HighlightOptions :=
  mkOptions (Some "ts") None 0 None None None None None None None.
Definition empty_module : Module := mkModule [] [] [] [] 0.

Lemma sample_keeps_text : keeps_text sample_engine.
Proof.
  intros source language themes ds root ce [= <-]. cbn. intros [= <-]. cbn [hast_children].
  induction (split_char lf source) as [|t ts IH]; [done|].
  exact (f_equal (cons t) IH).
Qed.

Lemma highlight_shows_source_witness :
  exists m' objs, highlightCode true sample_engine empty_module "let x" no_options = Some (m', objs) /\
    displays objs 1 ["let x"].
Proof.
  apply (highlight_shows_source true sample_engine empty_module "let x" no_options);
    [apply sample_keeps_text|discriminate|discriminate].
Defined.

(** The comment on [ensureTheme] says an unknown dark theme falls back to the
    dark side; both calls leave the side out, so it falls back to the light
    one, whatever the rest. *)
Lemma unknown_dark_theme_turns_light e m source language o ds :
  starts e = true -> (forall name, loads_theme e name = true) ->
  (forall name, loads_language e name = true) ->
  buildWordDecorations source (o_highlightedWords o ?? []) = Some ds ->
  exists m', run_engine true e m source language ("github-dark", "solarized-dark") o =
    Some (m', codeToHast e source language ("github-dark", "github-light") ds).
Proof.
  intros Hs Ht Hl Hd. unfold run_engine. rewrite Hs. cbn [negb fst snd]. unfold ensureTheme.
  change (in_record "github-dark" codeBlockThemes) with true.
  change (in_record "solarized-dark" codeBlockThemes) with false. cbv zeta iota.
  cbn [default_theme]. rewrite !Ht.
  unfold ensureLanguage. rewrite Hl, Hd.
  repeat (case_match; simplify_eq/=); eauto.
Qed.
