(* ===== verification/Ansi.v ===== *)
(** * Code block: terminal output

    [ansiToLines] of
    [packages/ui/src/components/reui/code-block/code-block-highlight.tsx]:
    escape sequences removed, SGR sequences turned into token styles.  The two
    regular expressions are written as scanners; a number of a sequence is an
    integer, exact below [2^53]. *)
From S2P Require Import Prelude JsString JsValue CodeText CodeTextLaws.

#[local] Arguments Ascii.eqb : simpl never.

Definition esc : ascii := chr 27.
Definition bel : ascii := chr 7.

(** ** The palette *)
Definition ANSI_SLOTS : list string :=
  ["black"; "red"; "green"; "yellow"; "blue"; "magenta"; "cyan"; "white"; "bright-black";
   "bright-red"; "bright-green"; "bright-yellow"; "bright-blue"; "bright-magenta";
   "bright-cyan"; "bright-white"].
Definition ANSI_LIGHT : list string :=
  ["#3f3f46"; "#dc2626"; "#16a34a"; "#a16207"; "#2563eb"; "#9333ea"; "#0891b2"; "#71717a";
   "#52525b"; "#ef4444"; "#22c55e"; "#ca8a04"; "#3b82f6"; "#a855f7"; "#06b6d4"; "#a1a1aa"].
Definition ANSI_DARK : list string :=
  ["#a1a1aa"; "#f87171"; "#4ade80"; "#facc15"; "#60a5fa"; "#c084fc"; "#22d3ee"; "#e4e4e7";
   "#71717a"; "#fca5a5"; "#86efac"; "#fde047"; "#93c5fd"; "#d8b4fe"; "#67e8f9"; "#fafafa"].

Definition ansiVar (slot : Z) (fallback : string) : string :=
  "var(--code-ansi-" +:+ nth (Z.to_nat slot) ANSI_SLOTS "undefined" +:+ ", " +:+ fallback +:+ ")".

(** [v.toString(16)] of a non-negative integer. *)
Fixpoint hex_digits (fuel : nat) (v : Z) (acc : string) : string :=
  let acc' := String (hex_digit (Z.to_nat (v mod 16))) acc in
  match fuel with
  | 0 => acc'
  | S fuel' => if (v <? 16)%Z then acc' else hex_digits fuel' (v / 16) acc'
  end.
Definition to_hex (v : Z) : string := hex_digits (Z.to_nat (Z.log2 v)) v "".
Definition hex2 (v : Z) : string := pad_left 2 (to_hex v).

Definition CUBE : list Z := [0; 95; 135; 175; 215; 255]%Z.
Definition ansi256 (index : Z) : string :=
  if (index <? 16)%Z then nth (Z.to_nat index) ANSI_DARK "undefined"
  else if (232 <=? index)%Z then
    let h := hex2 (8 + (index - 232) * 10) in "#" +:+ h +:+ h +:+ h
  else
    let n := (index - 16)%Z in
    let to v := hex2 (nth (Z.to_nat v) CUBE 0%Z) in
    "#" +:+ to (n / 36)%Z +:+ to ((n / 6) mod 6)%Z +:+ to (n mod 6)%Z.

(** ** Escape sequences other than SGR *)
Definition csi_char (c : ascii) : bool := is_digit c || Ascii.eqb c ";" || Ascii.eqb c "?".
Definition sgr_char (c : ascii) : bool := is_digit c || Ascii.eqb c ";".
Definition is_letter (c : ascii) : bool := is_lower c || is_upper c.

(** The text after the last [ESC \]. *)
Fixpoint after_last_st (s : string) : option string :=
  match s with
  | String c (String d rest as s') =>
      match after_last_st s' with
      | Some r => Some r
      | None => if Ascii.eqb c esc && Ascii.eqb d "\" then Some rest else None
      end
  | _ => None
  end.

(** What follows a sequence whose [ESC] was just read.  The operating-system
    command is greedy: it runs to the first [BEL] of the text, or, without one,
    to the last [ESC \]. *)
Definition match_escape (s : string) : option string :=
  match s with
  | String "[" r =>
      let '(run, tail) := span csi_char r in
      match tail with
      | String c rest =>
          if str_forall sgr_char run && Ascii.eqb c "m" then None
          else if is_letter c then Some rest else None
      | EmptyString => None
      end
  | String "]" r =>
      match (span (fun c => negb (Ascii.eqb c bel)) r).2 with
      | String _ rest => Some rest
      | EmptyString => after_last_st r
      end
  | String c (String d rest) =>
      if (Ascii.eqb c "(" || Ascii.eqb c ")") &&
         (is_digit d || Ascii.eqb d "A" || Ascii.eqb d "B")
      then Some rest else None
  | _ => None
  end.

(** [.replace(OTHER_ESCAPES_RE, "")]; each turn reads a character. *)
Fixpoint strip_escapes (fuel : nat) (s : string) : string :=
  match fuel, s with
  | S fuel', String c rest =>
      if Ascii.eqb c esc then
        match match_escape rest with
        | Some after => strip_escapes fuel' after
        | None => String c (strip_escapes fuel' rest)
        end
      else String c (strip_escapes fuel' rest)
  | _, _ => ""
  end.

(** ** Styles *)
Record AnsiStyle := mkAnsi {
  a_color : option string;
  a_colorDark : option string;
  a_bold : bool;
  a_italic : bool;
  a_underline : bool
}.
Definition no_style : AnsiStyle := mkAnsi None None false false false.

Definition with_colors (st : AnsiStyle) (c d : option string) : AnsiStyle :=
  mkAnsi c d (a_bold st) (a_italic st) (a_underline st).
Definition slot_colors (st : AnsiStyle) (slot : Z) : AnsiStyle :=
  with_colors st (Some (ansiVar slot (nth (Z.to_nat slot) ANSI_LIGHT "undefined")))
    (Some (ansiVar slot (nth (Z.to_nat slot) ANSI_DARK "undefined"))).
Definition literal_color (st : AnsiStyle) (hex : string) : AnsiStyle :=
  with_colors st (Some hex) (Some hex).

(** The loop over the parameters of a sequence; [skip] counts those [i += n]
    jumps over. *)
Fixpoint apply_params (skip : nat) (params : list Z) (st : AnsiStyle) : AnsiStyle :=
  match params, skip with
  | [], _ => st
  | _ :: rest, S k => apply_params k rest st
  | code :: rest, 0 =>
      let at_ i := nth i rest 0%Z in
      let next := nth_error rest 0 in
      let set b i u := mkAnsi (a_color st) (a_colorDark st) b i u in
      if (code =? 0)%Z then apply_params 0 rest no_style
      else if (code =? 1)%Z then apply_params 0 rest (set true (a_italic st) (a_underline st))
      else if (code =? 3)%Z then apply_params 0 rest (set (a_bold st) true (a_underline st))
      else if (code =? 4)%Z then apply_params 0 rest (set (a_bold st) (a_italic st) true)
      else if (code =? 22)%Z then apply_params 0 rest (set false (a_italic st) (a_underline st))
      else if (code =? 23)%Z then apply_params 0 rest (set (a_bold st) false (a_underline st))
      else if (code =? 24)%Z then apply_params 0 rest (set (a_bold st) (a_italic st) false)
      else if (code =? 39)%Z then apply_params 0 rest (with_colors st None None)
      else if (30 <=? code)%Z && (code <=? 37)%Z
      then apply_params 0 rest (slot_colors st (code - 30))
      else if (90 <=? code)%Z && (code <=? 97)%Z
      then apply_params 0 rest (slot_colors st (code - 82))
      else if (code =? 38)%Z && bool_decide (next = Some 5%Z)
      then apply_params 2 rest (literal_color st (ansi256 (at_ 1)))
      else if (code =? 38)%Z && bool_decide (next = Some 2%Z)
      then apply_params 4 rest
             (literal_color st ("#" +:+ hex2 (at_ 1) +:+ hex2 (at_ 2) +:+ hex2 (at_ 3)))
      else if (code =? 48)%Z && bool_decide (next = Some 5%Z) then apply_params 2 rest st
      else if (code =? 48)%Z && bool_decide (next = Some 2%Z) then apply_params 4 rest st
      else apply_params 0 rest st
  end.

(** [(match[1] || "0").split(";").map(Number)] *)
Definition sgr_params (p : string) : list Z :=
  map (fun d => (digits 0 0 d).1.1) (split_char ";" (if String.eqb p "" then "0" else p)).

(** ** Lines *)

(** [SGR_RE] at the head of a text: the parameters and the rest. *)
Definition match_sgr (s : string) : option (string * string) :=
  match s with
  | String c (String "[" r) =>
      if Ascii.eqb c esc then
        match span sgr_char r with
        | (p, String "m" rest) => Some (p, rest)
        | _ => None
        end
      else None
  | _ => None
  end.
(** The next match: the text before it, its parameters, the text after. *)
Fixpoint next_sgr (s : string) : option (string * string * string) :=
  match match_sgr s with
  | Some (p, rest) => Some ("", p, rest)
  | None =>
      match s with
      | EmptyString => None
      | String c s' =>
          match next_sgr s' with
          | Some (before, p, rest) => Some (String c before, p, rest)
          | None => None
          end
      end
  end.

(** [flush] *)
Definition ansi_token (st : AnsiStyle) (s : string) : list CodeBlockToken :=
  if String.eqb s "" then []
  else [mkToken s (a_color st) (a_colorDark st)
          (if a_bold st then Some FBold else if a_italic st then Some FItalic
           else if a_underline st then Some FUnderline else None) false].

(** The [while] over the matches of a line: its tokens and its plain text. *)
Fixpoint ansi_loop (fuel : nat) (raw : string) (st : AnsiStyle) : list CodeBlockToken * string :=
  match fuel, next_sgr raw with
  | S fuel', Some (before, p, rest) =>
      let '(ts, plain) := ansi_loop fuel' rest (apply_params 0 (sgr_params p) st) in
      (ansi_token st before ++ ts, before +:+ plain)
  | _, _ => (ansi_token st raw, raw)
  end.

Definition ansi_line (startLine : Z) (index : nat) (raw : string) : CodeBlockLine :=
  let '(ts, plain) := ansi_loop (String.length raw) raw no_style in
  mkLine ts (startLine + Z.of_nat index) plain None None.

Definition ansiToLines (t : string) (startLine : Z) : list CodeBlockLine :=
  let normal := normalizeCode t in
  let clean := strip_escapes (String.length normal) normal in
  imap (ansi_line startLine) (split_char lf clean).

(** ** Laws *)

(** Lower-case hexadecimal colours of six digits, and the palette's variables. *)
Definition is_hex_digit (c : ascii) : bool :=
  is_digit c || (is_lower c && Nat.leb (Ascii.nat_of_ascii c) 102).
Definition hex_color (s : string) : bool :=
  match s with
  | String "#" h => Nat.eqb (String.length h) 6 && str_forall is_hex_digit h
  | _ => false
  end.
Definition slot_color (palette : list string) (s : string) : bool :=
  some (fun slot => String.eqb s (ansiVar (Z.of_nat slot) (nth slot palette ""))) (seq 0 16).
Definition css_color (s : string) : bool :=
  hex_color s || slot_color ANSI_LIGHT s || slot_color ANSI_DARK s.

(** A property of every byte, by looking at them all. *)
Lemma byte_all (P : Z -> bool) : every P (map Z.of_nat (seq 0 256)) = true ->
  forall v, (0 <= v <= 255)%Z -> P v = true.
Proof.
  intros H v Hv. rewrite forallb_forall in H. apply H.
  replace v with (Z.of_nat (Z.to_nat v)) by lia. apply in_map, in_seq. lia.
Qed.

Lemma ansi256_hex v : (0 <= v <= 255)%Z -> hex_color (ansi256 v) = true.
Proof. by apply (byte_all (fun v => hex_color (ansi256 v))). Qed.

Lemma hex2_digits v : (0 <= v <= 255)%Z ->
  String.length (hex2 v) = 2 /\ str_forall is_hex_digit (hex2 v) = true.
Proof.
  intros Hv.
  assert (H : Nat.eqb (String.length (hex2 v)) 2 && str_forall is_hex_digit (hex2 v) = true)
    by (by apply (byte_all (fun v => Nat.eqb (String.length (hex2 v)) 2 &&
                                     str_forall is_hex_digit (hex2 v)))).
  by unbool.
Qed.

Lemma truecolor_hex r g b : (0 <= r <= 255)%Z -> (0 <= g <= 255)%Z -> (0 <= b <= 255)%Z ->
  hex_color ("#" +:+ hex2 r +:+ hex2 g +:+ hex2 b) = true.
Proof.
  intros Hr Hg Hb. destruct (hex2_digits r Hr), (hex2_digits g Hg), (hex2_digits b Hb).
  cbn [String.append hex_color]. rewrite !str_length_app, !str_forall_app.
  by repeat match goal with H : _ = _ |- _ => rewrite H; clear H end.
Qed.

Lemma slot_css palette k : palette = ANSI_LIGHT \/ palette = ANSI_DARK -> (0 <= k <= 15)%Z ->
  css_color (ansiVar k (nth (Z.to_nat k) palette "undefined")) = true.
Proof.
  intros Hp Hk. assert (Hlen : Z.to_nat k < 16) by lia.
  assert (Hs : slot_color palette (ansiVar k (nth (Z.to_nat k) palette "undefined")) = true).
  { unfold slot_color. apply existsb_exists. exists (Z.to_nat k). split; [apply in_seq; lia|].
    rewrite Z2Nat.id by lia. rewrite (nth_indep palette "" "undefined"); [apply String.eqb_refl|].
    by destruct Hp as [-> | ->]. }
  unfold css_color. destruct Hp as [-> | ->]; rewrite Hs; by rewrite ?orb_true_r.
Qed.

Definition colored (st : AnsiStyle) : Prop :=
  forall c, a_color st = Some c \/ a_colorDark st = Some c -> css_color c = true.

Lemma colored_literal st hex : hex_color hex = true -> colored (literal_color st hex).
Proof. intros H c. simpl. unfold css_color. intros [[= <-]|[= <-]]; by rewrite H. Qed.
Lemma colored_slot st k : (0 <= k <= 15)%Z -> colored (slot_colors st k).
Proof.
  intros Hk c. unfold slot_colors, with_colors. cbn [a_color a_colorDark].
  intros [H|H]; apply (inj Some) in H; rewrite <-H; apply slot_css; [by left|done|by right|done].
Qed.
Lemma colored_none st : colored (with_colors st None None).
Proof. intros c. simpl. by intros [|]. Qed.

Lemma nth_byte (rest : list Z) i :
  Forall (fun v => 0 <= v <= 255)%Z rest -> (0 <= nth i rest 0 <= 255)%Z.
Proof.
  intros H. destruct (Nat.lt_ge_cases i (length rest)).
  - rewrite Forall_forall in H. by apply H, list_elem_of_In, nth_In.
  - rewrite nth_overflow by done. lia.
Qed.

(** When every number of a sequence is a byte, a token's colours are CSS
    colours: one of the palette's variables with its fallback, or a hash sign
    and six hexadecimal digits, whatever codes came before or are cut short. *)
Theorem ansi_colors_in_bounds (skip : nat) (params : list Z) (st : AnsiStyle) :
  Forall (fun v => 0 <= v <= 255)%Z params -> colored st -> colored (apply_params skip params st).
Proof.
  intros Hp. revert skip st. induction Hp as [|code rest Hc Hrest IH]; intros skip st Hst; [done|].
  destruct skip as [|k]; [|by apply IH]. cbn [apply_params]. cbv zeta.
  pose proof (fun i => nth_byte rest i Hrest) as Hb.
  repeat match goal with
  | |- colored (if ?b then _ else _) => destruct b eqn:?
  end; apply IH; try exact Hst; try exact (colored_none st); unbool.
  - apply colored_slot. lia.
  - apply colored_slot. lia.
  - by apply colored_literal, ansi256_hex.
  - apply colored_literal. by apply truecolor_hex.
Qed.

Lemma ansi_colors_in_bounds_witness :
  colored (apply_params 0 [1; 38; 5; 208; 38; 2; 255; 0; 16]%Z no_style).
Proof.
  apply ansi_colors_in_bounds; [repeat constructor; lia|]. intros c [H|H]; discriminate H.
Defined.

(** Above a byte the text is no colour at all. *)
Lemma large_index_no_color : ansi256 300 = "#2b02b02b0" /\ css_color (ansi256 300) = false.
Proof. by vm_compute. Qed.

(** *** Reading back styled lines *)

(** A line as a program prints it: text, then texts each behind a sequence of
    parameters. *)
Record Printed := mkPrinted { lead : string; chunks : list (string * string) }.
Definition sgr_text (p : string) : string := String esc (String "[" (p +:+ "m")).
Definition printed_text (l : Printed) : string :=
  lead l +:+ join "" (map (fun c => sgr_text c.1 +:+ c.2) (chunks l)).
Definition clean_text (s : string) : Prop := lacks esc s /\ lacks lf s /\ lacks cr s.
Definition printed_ok (l : Printed) : Prop :=
  clean_text (lead l) /\
  Forall (fun c => str_forall sgr_char c.1 = true /\ clean_text c.2) (chunks l).

(** What it shows: each text in the style the sequences before it add up to. *)
Fixpoint chunk_tokens (st : AnsiStyle) (cs : list (string * string)) : list CodeBlockToken :=
  match cs with
  | [] => []
  | (p, s) :: rest =>
      let st' := apply_params 0 (sgr_params p) st in ansi_token st' s ++ chunk_tokens st' rest
  end.
Definition shown_line (startLine : Z) (i : nat) (l : Printed) : CodeBlockLine :=
  mkLine (ansi_token no_style (lead l) ++ chunk_tokens no_style (chunks l))
    (startLine + Z.of_nat i) (lead l +:+ join "" (map snd (chunks l))) None None.

Lemma sgr_csi p : str_forall sgr_char p = true -> str_forall csi_char p = true.
Proof.
  apply str_forall_impl. intros c. unfold sgr_char, csi_char. intros [-> | ->]%orb_true_iff; [done|].
  by rewrite orb_true_r.
Qed.

Lemma next_sgr_lacks s : lacks esc s -> next_sgr s = None.
Proof.
  unfold lacks. induction s as [|c s IH]; [done|]. cbn [str_exists].
  intros [H1 H2]%orb_false_iff. cbn [next_sgr].
  assert (match_sgr (String c s) = None) as ->.
  { unfold match_sgr. destruct s as [|d s]; [done|]. rewrite Ascii.eqb_sym, H1.
    by repeat case_match. }
  by rewrite IH.
Qed.

Lemma next_sgr_at a p s : lacks esc a -> str_forall sgr_char p = true ->
  next_sgr (a +:+ sgr_text p +:+ s) = Some (a, p, s).
Proof.
  unfold lacks. intros Ha Hp. induction a as [|c a IH].
  - cbn [String.append sgr_text]. rewrite <-str_app_assoc. cbn [String.append next_sgr match_sgr].
    change (Ascii.eqb esc esc) with true. cbv iota. by rewrite span_app.
  - cbn [str_exists] in Ha. apply orb_false_iff in Ha as [H1 H2]. cbn [String.append next_sgr].
    assert (forall t, match_sgr (String c t) = None) as ->.
    { intros t. unfold match_sgr. destruct t as [|d t]; [done|]. rewrite Ascii.eqb_sym, H1.
      by repeat case_match. }
    by rewrite IH.
Qed.

Lemma ansi_loop_chunks cs : forall fuel a st,
  Forall (fun c => str_forall sgr_char c.1 = true /\ clean_text c.2) cs -> lacks esc a ->
  length cs <= fuel ->
  ansi_loop fuel (a +:+ join "" (map (fun c => sgr_text c.1 +:+ c.2) cs)) st =
  (ansi_token st a ++ chunk_tokens st cs, a +:+ join "" (map snd cs)).
Proof.
  induction cs as [|[p s] cs IH]; intros fuel a st Hcs Ha Hf.
  - cbn. rewrite str_app_nil_r, app_nil_r.
    destruct fuel; cbn [ansi_loop]; [done|]. by rewrite next_sgr_lacks.
  - apply Forall_cons_1 in Hcs as [[Hp (Hs & _)] Hcs]. cbn [fst snd] in *.
    destruct fuel as [|fuel]; [simpl in Hf; lia|].
    cbn [map fst snd]. rewrite !join_nil_cons, <-str_app_assoc. cbn [ansi_loop].
    rewrite next_sgr_at by done. rewrite IH by (done || simpl in Hf; lia).
    done.
Qed.

Lemma printed_length cs :
  length cs <= String.length (join "" (map (fun c => sgr_text c.1 +:+ c.2) cs)).
Proof.
  induction cs as [|[p s] cs IH]; [done|]. cbn [map fst snd length].
  rewrite join_nil_cons, !str_length_app. cbn [String.length sgr_text]. lia.
Qed.

Lemma ansi_line_printed startLine i l : printed_ok l ->
  ansi_line startLine i (printed_text l) = shown_line startLine i l.
Proof.
  intros [(Ha & _) Hcs]. unfold ansi_line, printed_text, shown_line.
  rewrite ansi_loop_chunks; [done|done|done|].
  rewrite str_length_app. pose proof (printed_length (chunks l)). lia.
Qed.

(** Nothing else is stripped from such lines. *)
Lemma strip_clean a s : lacks esc a ->
  strip_escapes (String.length (a +:+ s)) (a +:+ s) =
  a +:+ strip_escapes (String.length s) s.
Proof.
  unfold lacks. induction a as [|c a IH]; [done|]. cbn [str_exists].
  intros [H1 H2]%orb_false_iff. cbn [String.append String.length strip_escapes].
  by rewrite Ascii.eqb_sym, H1, IH.
Qed.

Lemma sgr_lacks p c : str_forall sgr_char p = true -> sgr_char c = false -> lacks c p.
Proof.
  intros Hp Hc. unfold lacks. induction p as [|d p IH]; [done|]. cbn [str_forall str_exists] in *.
  apply andb_true_iff in Hp as [Hd Hp]. rewrite IH by done. rewrite orb_false_r.
  destruct (Ascii.eqb_spec c d); [congruence|done].
Qed.

Lemma strip_sgr p s : str_forall sgr_char p = true ->
  strip_escapes (String.length (sgr_text p +:+ s)) (sgr_text p +:+ s) =
  sgr_text p +:+ strip_escapes (String.length s) s.
Proof.
  intros Hp. cbn [sgr_text String.append String.length]. cbn [strip_escapes].
  change (Ascii.eqb esc esc) with true. cbv iota.
  assert (match_escape (String "[" ((p +:+ "m") +:+ s)) = None) as ->.
  { cbn [match_escape]. rewrite <-str_app_assoc. cbn [String.append].
    rewrite span_app by (done || by apply sgr_csi). by rewrite Hp. }
  f_equal. apply (strip_clean (String "[" (p +:+ "m")) s).
  unfold lacks. cbn [str_exists]. rewrite str_exists_app, (sgr_lacks p esc) by done. done.
Qed.

Lemma strip_printed l s : printed_ok l ->
  strip_escapes (String.length (printed_text l +:+ s)) (printed_text l +:+ s) =
  printed_text l +:+ strip_escapes (String.length s) s.
Proof.
  intros [(Ha & _) Hcs]. unfold printed_text. rewrite <-!str_app_assoc, strip_clean by done.
  f_equal. induction Hcs as [|[p t] cs [Hp (Ht & _)] _ IH]; [done|]. cbn [map fst snd] in *.
  rewrite !join_nil_cons, <-!str_app_assoc, strip_sgr, strip_clean by done. by rewrite IH.
Qed.

Lemma strip_lines ls : Forall printed_ok ls ->
  let s := join (str1 lf) (map printed_text ls) in strip_escapes (String.length s) s = s.
Proof.
  cbv zeta. induction 1 as [|l ls Hl Hls IH]; [done|].
  destruct ls as [|l2 ls].
  - cbn [map]. cbn [String.concat]. rewrite <-(str_app_nil_r (printed_text l)).
    by rewrite strip_printed.
  - cbn [map] in *. rewrite join_cons2, strip_printed by done. f_equal.
    rewrite strip_clean by done. by rewrite IH.
Qed.

Lemma printed_lacks c l : sgr_char c = false -> c <> esc -> c <> "["%char -> c <> "m"%char ->
  lacks c (lead l) -> Forall (fun x => str_forall sgr_char x.1 = true /\ lacks c x.2) (chunks l) ->
  lacks c (printed_text l).
Proof.
  intros Hc H1 H2 H3 Ha Hcs. unfold lacks, printed_text. rewrite str_exists_app, Ha. cbn [orb].
  induction Hcs as [|[p t] cs [Hp Ht] _ IH]; [done|]. cbn [map fst snd] in *.
  rewrite join_nil_cons, !str_exists_app, IH, Ht. cbn [sgr_text str_exists].
  rewrite str_exists_app, (sgr_lacks p c) by done. cbn [str_exists].
  destruct (Ascii.eqb_spec c esc), (Ascii.eqb_spec c "["), (Ascii.eqb_spec c "m"); done.
Qed.

(** Lines of text and colour sequences read back as they were printed: one
    line per printed line, its text without the sequences, and each piece of
    text in the style the sequences before it on that line add up to. *)
Theorem ansi_reads_back (ls : list Printed) (startLine : Z) :
  ls <> [] -> Forall printed_ok ls ->
  ansiToLines (join (str1 lf) (map printed_text ls)) startLine = imap (shown_line startLine) ls.
Proof.
  intros Hn Hls. set (s := join _ _).
  assert (Hlacks : forall c, c = lf \/ c = cr ->
            Forall (lacks c) (map printed_text ls)).
  { intros c Hc. rewrite Forall_map. eapply Forall_impl; [exact Hls|].
    intros l [(H1 & H2 & H3) Hcs]. apply printed_lacks; try (by destruct Hc; subst c).
    eapply Forall_impl; [exact Hcs|]. intros x [Hp (? & ? & ?)]. split; [done|].
    by destruct Hc; subst c. }
  assert (Hcr : lacks cr s).
  { apply join_lacks; [done|]. apply Hlacks. by right. }
  unfold ansiToLines. rewrite normalize_id by done.
  pose proof (strip_lines ls Hls) as Hs. cbv zeta in Hs. fold s in Hs. rewrite Hs. subst s.
  rewrite split_join; [|by destruct ls|apply Hlacks; by left].
  apply list_eq. intros i. rewrite !list_lookup_imap, list_lookup_fmap.
  destruct (ls !! i) as [l|] eqn:E; [|done]. simpl. f_equal. apply ansi_line_printed.
  rewrite Forall_lookup in Hls. by apply (Hls i).
Qed.

Definition printed_sample : list Printed :=
  [mkPrinted "ok " [("1;32", "passed"); ("", " in 2s")]; mkPrinted "" [("38;5;208", "warn")]].
Lemma ansi_reads_back_witness :
  ansiToLines (join (str1 lf) (map printed_text printed_sample)) 1 =
  imap (shown_line 1) printed_sample.
Proof. apply ansi_reads_back; [discriminate|]. repeat constructor. Defined.

(** A hyperlink as terminals print it, both ends closed by [ESC \]: its text
    is swallowed with the codes around it. *)
Lemma hyperlink_text_is_lost :
  let st := String esc "\" in
  map text (ansiToLines ("see " +:+ String esc "]8;;http://x" +:+ st +:+ "the docs" +:+
                         String esc "]8;;" +:+ st +:+ " now") 1) = ["see  now"].
Proof. done. Qed.

(** A colour set on one line does not reach the next. *)
Lemma color_ends_with_line :
  map (fun l => map color (tokens l))
    (ansiToLines (String esc "[31ma" +:+ str1 lf +:+ "b" +:+ String esc "[0m") 1) =
  [[Some "var(--code-ansi-red, #dc2626)"]; [None]].
Proof. done. Qed.
