(* ===== verification/UnifiedDiff.v ===== *)
(** * Code block: unified diffs

    [parseUnifiedDiff] of
    [packages/ui/src/components/reui/code-block/code-block-highlight.tsx]: a
    patch read line by line into files with counted, doubly numbered rows.
    [current] is the last of [files]; the state keeps it apart from those
    before it. *)
From S2P Require Import Prelude JsString JsValue JsMap CodeText CodeTextLaws.

#[local] Arguments Ascii.eqb : simpl never.

Record CodeBlockPatchFile := mkFile {
  file : string;
  lines : list CodeBlockLine;
  added : nat;
  removed : nat;
  hunks : list (string * nat)
}.

(** The local variables of the parse. *)
Record DiffState := mkDiff {
  earlier : list CodeBlockPatchFile;
  current : option CodeBlockPatchFile;
  oldNumber : Z;
  newNumber : Z;
  width : nat
}.

(** ** Headers *)

(** The text after the last separator that leaves something behind it. *)
Fixpoint after_last (sep s : string) : option string :=
  match s with
  | EmptyString => None
  | String _ s' =>
      match after_last sep s' with
      | Some r => Some r
      | None => match after_prefix sep s with
                | Some (String _ _ as r) => Some r
                | _ => None
                end
      end
  end.

(** The name in a [diff --git a/... b/...] line: both names have a character,
    and the first takes what it can. *)
Definition file_header (raw : string) : option string :=
  match after_prefix "diff --git a/" raw with
  | Some (String _ r) => after_last " b/" r
  | _ => None
  end.
(** The name in a [+++ b/...] line; the [b/] is left out when something follows. *)
Definition plus_header (raw : string) : option string :=
  match after_prefix "+++ " raw with
  | Some r =>
      match after_prefix "b/" r with
      | Some (String _ _ as n) => Some n
      | _ => if String.eqb r "" then None else Some r
      end
  | None => None
  end.

Definition SKIPPED : list string :=
  ["---"; "index "; "old mode"; "new mode"; "new file"; "deleted file"; "similarity"; "rename ";
   "Binary "].
Definition is_skipped (raw : string) : bool := some (fun p => starts_with p raw) SKIPPED.

(** Digits, then maybe a comma and digits: the two numbers and the rest. *)
Definition hunk_range (s : string) : option (string * option string * string) :=
  let '(a, r) := span is_digit s in
  if String.eqb a "" then None
  else match r with
       | String "," r' =>
           let '(b, r2) := span is_digit r' in
           if String.eqb b "" then Some (a, None, r) else Some (a, Some b, r2)
       | _ => Some (a, None, r)
       end.

Record Hunk := mkHunk {
  hk_old : string; hk_oldCount : option string;
  hk_new : string; hk_newCount : option string;
  hk_heading : string
}.
(** A hunk's header: [@@ -old,count +new,count @@] and the heading. *)
Definition match_hunk (raw : string) : option Hunk :=
  match after_prefix "@@ -" raw with
  | None => None
  | Some r0 =>
      match hunk_range r0 with
      | None => None
      | Some (a, b, r1) =>
          match after_prefix " +" r1 with
          | None => None
          | Some r2 =>
              match hunk_range r2 with
              | None => None
              | Some (c, d, r3) =>
                  match after_prefix " @@" r3 with
                  | Some heading => Some (mkHunk a b c d heading)
                  | None => None
                  end
              end
          end
      end
  end.

(** [Number(digits)], exact below [2^53]. *)
Definition num_of (s : string) : Z := (digits 0 0 s).1.1.
Definition count_of (s : option string) : Z := match s with Some d => num_of d | None => 0%Z end.

(** ** Rows *)
Definition spaces (n : nat) : string := join "" (repeat " " n).
Definition pad_start (n : nat) (s : string) : string := spaces (n - String.length s) +:+ s.
(** [pad] *)
Definition pad (w : nat) (value : option Z) : string :=
  pad_start w (match value with None => "" | Some v => show_Z v end).
(** A middle dot, one character wide. *)
Definition dot : string := String (chr 194) (str1 (chr 183)).
Definition pad_dot (w : nat) : string := spaces (w - 1) +:+ dot.

Definition add_row (f : CodeBlockPatchFile) (t : string) (st : option CodeBlockLineState)
    (g : string) : CodeBlockPatchFile :=
  mkFile (file f)
    (lines f ++ [mkLine [plain_token t] (Z.of_nat (S (length (lines f)))) t st (Some g)])
    (added f) (removed f) (hunks f).

Definition hunk_width (h : Hunk) : nat :=
  Nat.max (Nat.max (String.length (show_Z (num_of (hk_old h) + count_of (hk_oldCount h))))
                   (String.length (show_Z (num_of (hk_new h) + count_of (hk_newCount h))))) 2.

Definition drop1 (s : string) : string := str_drop 1 s.

(** A hunk header met inside a file. *)
Definition start_hunk (st : DiffState) (f : CodeBlockPatchFile) (raw : string) (h : Hunk) : DiffState :=
  let w := hunk_width h in
  let f' := mkFile (file f) (lines f) (added f) (removed f)
              (hunks f ++ [(raw, S (length (lines f)))]) in
  let heading := trim (hk_heading h) in
  mkDiff (earlier st)
    (Some (add_row f' (if String.eqb heading "" then raw else heading)
             (Some [("level", VStr "info")]) (pad_dot w +:+ " " +:+ pad_dot w)))
    (num_of (hk_old h)) (num_of (hk_new h)) w.

(** A row of a file's hunk; other lines are dropped. *)
Definition read_row (st : DiffState) (f : CodeBlockPatchFile) (raw : string) : DiffState :=
  let w := width st in
  let o := oldNumber st in
  let n := newNumber st in
  if starts_with "+" raw then
    let f' := add_row f (drop1 raw) (Some [("diff", VStr "add")])
                (pad w None +:+ " " +:+ pad w (Some n)) in
    mkDiff (earlier st)
      (Some (mkFile (file f') (lines f') (S (added f')) (removed f') (hunks f'))) o (n + 1) w
  else if starts_with "-" raw then
    let f' := add_row f (drop1 raw) (Some [("diff", VStr "remove")])
                (pad w (Some o) +:+ " " +:+ pad w None) in
    mkDiff (earlier st)
      (Some (mkFile (file f') (lines f') (added f') (S (removed f')) (hunks f'))) (o + 1) n w
  else if starts_with " " raw || String.eqb raw "" then
    if Nat.eqb (length (lines f)) 0 && String.eqb raw "" then st
    else mkDiff (earlier st)
           (Some (add_row f (drop1 raw) None (pad w (Some o) +:+ " " +:+ pad w (Some n))))
           (o + 1) (n + 1) w
  else st.

Definition open_file (st : DiffState) (name : string) : DiffState :=
  if String.eqb name "/dev/null" || bool_decide (file <$> current st = Some name) then st
  else mkDiff (earlier st ++ option_list (current st)) (Some (mkFile name [] 0 0 []))
         (oldNumber st) (newNumber st) (width st).

(** One turn of the loop. *)
Definition diff_line (st : DiffState) (raw : string) : DiffState :=
  match file_header raw, plus_header raw with
  | Some name, _ => open_file st name
  | None, Some name => open_file st name
  | None, None =>
      if is_skipped raw then st
      else match match_hunk raw, current st with
           | Some h, Some f => start_hunk st f raw h
           | _, None => st
           | None, Some f => read_row st f raw
           end
  end.

Definition parseUnifiedDiff (patch : string) : list CodeBlockPatchFile :=
  let st := fold_left diff_line (split_char lf (normalizeCode patch)) (mkDiff [] None 0 0 4) in
  earlier st ++ option_list (current st).

(** ** Laws *)

(** A patch as [git diff] writes it: files of hunks of rows. *)
Inductive Row := Ctx (t : string) | Ins (t : string) | Del (t : string).
Record PrintedHunk := mkPH { ph_header : Hunk; ph_rows : list Row }.
Record PrintedFile := mkPF { pf_name : string; pf_meta : list string; pf_hunks : list PrintedHunk }.

Definition row_text (r : Row) : string :=
  match r with Ctx t => " " +:+ t | Ins t => "+" +:+ t | Del t => "-" +:+ t end.
Definition count_text (c : option string) : string := match c with Some d => "," +:+ d | None => "" end.
Definition header_text (h : Hunk) : string :=
  "@@ -" +:+ hk_old h +:+ count_text (hk_oldCount h) +:+ " +" +:+ hk_new h +:+
  count_text (hk_newCount h) +:+ " @@" +:+ hk_heading h.
Definition hunk_lines (h : PrintedHunk) : list string :=
  header_text (ph_header h) :: map row_text (ph_rows h).
Definition file_text (f : PrintedFile) : list string :=
  ["diff --git a/" +:+ pf_name f +:+ " b/" +:+ pf_name f] ++ pf_meta f ++
  ["+++ b/" +:+ pf_name f] ++ flat_map hunk_lines (pf_hunks f).

(** What the rows of a hunk show. *)
Notation Entry := (string * option CodeBlockLineState * string)%type.
Fixpoint row_entries (w : nat) (o n : Z) (rows : list Row) : list Entry :=
  match rows with
  | [] => []
  | Ctx t :: rest =>
      (t, None, pad w (Some o) +:+ " " +:+ pad w (Some n)) :: row_entries w (o + 1) (n + 1) rest
  | Ins t :: rest =>
      (t, Some [("diff", VStr "add")], pad w None +:+ " " +:+ pad w (Some n)) ::
      row_entries w o (n + 1) rest
  | Del t :: rest =>
      (t, Some [("diff", VStr "remove")], pad w (Some o) +:+ " " +:+ pad w None) ::
      row_entries w (o + 1) n rest
  end.
Definition hunk_entries (h : PrintedHunk) : list Entry :=
  let hd := ph_header h in
  let w := hunk_width hd in
  let heading := trim (hk_heading hd) in
  (if String.eqb heading "" then header_text hd else heading,
   Some [("level", VStr "info")], pad_dot w +:+ " " +:+ pad_dot w) ::
  row_entries w (num_of (hk_old hd)) (num_of (hk_new hd)) (ph_rows h).

Definition is_ins (r : Row) : bool := match r with Ins _ => true | _ => false end.
Definition is_del (r : Row) : bool := match r with Del _ => true | _ => false end.
Definition count (p : Row -> bool) (rows : list Row) : nat := length (bfilter p rows).
Definition count_in (p : Row -> bool) (hs : list PrintedHunk) : nat := count p (flat_map ph_rows hs).

(** The entries as rows numbered from [k + 1]. *)
Fixpoint number_rows (k : nat) (es : list Entry) : list CodeBlockLine :=
  match es with
  | [] => []
  | (t, st, g) :: rest => mkLine [plain_token t] (Z.of_nat (S k)) t st (Some g) :: number_rows (S k) rest
  end.
(** Each hunk's header and the row it is at. *)
Fixpoint hunk_marks (k : nat) (hs : list PrintedHunk) : list (string * nat) :=
  match hs with
  | [] => []
  | h :: rest => (header_text (ph_header h), S k) :: hunk_marks (S k + length (ph_rows h)) rest
  end.

Definition shown_file (f : PrintedFile) : CodeBlockPatchFile :=
  mkFile (pf_name f) (number_rows 0 (flat_map hunk_entries (pf_hunks f)))
    (count_in is_ins (pf_hunks f)) (count_in is_del (pf_hunks f)) (hunk_marks 0 (pf_hunks f)).

(** Rows the parse tells from headers, headers of digits, names it can cut out. *)
Definition row_ok (r : Row) : Prop :=
  match r with
  | Ctx _ => True
  | Ins t => starts_with "++ " t = false
  | Del t => starts_with "--" t = false
  end.
Definition digits_ok (s : string) : Prop := s <> "" /\ str_forall is_digit s = true.
Definition count_ok (c : option string) : Prop := match c with Some d => digits_ok d | None => True end.
Definition hunk_ok (h : PrintedHunk) : Prop :=
  digits_ok (hk_old (ph_header h)) /\ count_ok (hk_oldCount (ph_header h)) /\
  digits_ok (hk_new (ph_header h)) /\ count_ok (hk_newCount (ph_header h)) /\
  Forall row_ok (ph_rows h).
Definition meta_ok (raw : string) : Prop :=
  file_header raw = None /\ plus_header raw = None /\ is_skipped raw = true.
Definition file_ok (f : PrintedFile) : Prop :=
  pf_name f <> "" /\ pf_name f <> "/dev/null" /\ after_last " b/" (pf_name f) = None /\
  Forall meta_ok (pf_meta f) /\ Forall hunk_ok (pf_hunks f).

(** A file after more rows, additions, removals and hunks. *)
Definition grown (f : CodeBlockPatchFile) (es : list Entry) (a d : nat) (ms : list (string * nat))
    : CodeBlockPatchFile :=
  mkFile (file f) (lines f ++ number_rows (length (lines f)) es) (added f + a) (removed f + d)
    (hunks f ++ ms).

Lemma number_rows_length k es : length (number_rows k es) = length es.
Proof. revert k. induction es as [|[[t st] g] es IH]; intros k; simpl; auto. Qed.
Lemma number_rows_app k es es' :
  number_rows k (es ++ es') = number_rows k es ++ number_rows (k + length es) es'.
Proof.
  revert k. induction es as [|[[t st] g] es IH]; intros k; simpl.
  - by rewrite Nat.add_0_r.
  - rewrite IH. by replace (S k + length es) with (k + S (length es)) by lia.
Qed.

Lemma grown_nil f : grown f [] 0 0 [] = f.
Proof. destruct f. unfold grown. simpl. by rewrite !app_nil_r, !Nat.add_0_r. Qed.
Lemma grown_grown f es a d ms es' a' d' ms' :
  grown (grown f es a d ms) es' a' d' ms' = grown f (es ++ es') (a + a') (d + d') (ms ++ ms').
Proof.
  unfold grown. simpl. rewrite number_rows_app, length_app, number_rows_length, <-!app_assoc.
  by rewrite !Nat.add_assoc.
Qed.
Lemma add_row_grown f t st g : add_row f t st g = grown f [(t, st, g)] 0 0 [].
Proof. unfold add_row, grown. simpl. by rewrite !Nat.add_0_r, app_nil_r. Qed.

Lemma mark_grown f m :
  mkFile (file f) (lines f) (added f) (removed f) (hunks f ++ [m]) = grown f [] 0 0 [m].
Proof. unfold grown. simpl. by rewrite !Nat.add_0_r, app_nil_r. Qed.

Lemma row_entries_length w o n rows : length (row_entries w o n rows) = length rows.
Proof. revert o n. induction rows as [|[] rows IH]; intros; simpl; auto. Qed.

(** *** Headers *)
Lemma after_last_app sep x t r : after_last sep t = Some r -> after_last sep (x +:+ t) = Some r.
Proof. intros H. induction x as [|c x IH]; [done|]. simpl. by rewrite IH. Qed.

Lemma file_header_printed n : n <> "" -> after_last " b/" n = None ->
  file_header ("diff --git a/" +:+ n +:+ " b/" +:+ n) = Some n.
Proof.
  intros Hn Hl. unfold file_header, after_prefix.
  rewrite starts_with_app, str_drop_app. destruct n as [|c r]; [done|].
  cbn [String.append]. apply after_last_app.
  cbn [after_last]. cbn [after_last] in Hl. rewrite Hl. reflexivity.
Qed.

Lemma plus_header_printed n : n <> "" -> plus_header ("+++ b/" +:+ n) = Some n.
Proof. intros Hn. destruct n as [|c r]; [done|]. reflexivity. Qed.

Lemma hunk_range_printed a c r : digits_ok a -> count_ok c -> (exists r', r = String " " r') ->
  hunk_range (a +:+ count_text c +:+ r) = Some (a, c, r).
Proof.
  intros [Hn Ha] Hc [r' ->]. unfold hunk_range. destruct c as [d|]; cbn [count_text].
  - destruct Hc as [Hdn Hd]. cbn [String.append]. rewrite span_app by done.
    destruct (String.eqb_spec a ""); [done|]. rewrite span_app by done.
    by destruct (String.eqb_spec d "").
  - cbn [String.append]. rewrite span_app by done. by destruct (String.eqb_spec a "").
Qed.

Lemma after_prefix_app p s : after_prefix p (p +:+ s) = Some s.
Proof. unfold after_prefix. by rewrite starts_with_app, str_drop_app. Qed.

Lemma match_hunk_printed h : digits_ok (hk_old h) -> count_ok (hk_oldCount h) ->
  digits_ok (hk_new h) -> count_ok (hk_newCount h) -> match_hunk (header_text h) = Some h.
Proof.
  intros H1 H2 H3 H4. unfold match_hunk, header_text.
  rewrite after_prefix_app, hunk_range_printed by (done || by eexists).
  rewrite after_prefix_app, hunk_range_printed by (done || by eexists).
  rewrite after_prefix_app. by destruct h.
Qed.

Lemma starts_with_ne (c d : ascii) p s : c <> d -> starts_with (String c p) (String d s) = false.
Proof. intros H. simpl. by destruct (Ascii.ascii_dec c d). Qed.

(** A hunk's header is no other kind of line. *)
Lemma header_text_kind h :
  file_header (header_text h) = None /\ plus_header (header_text h) = None /\
  is_skipped (header_text h) = false.
Proof. done. Qed.

(** Rows are told apart from headers by their first characters. *)
Lemma row_text_kind r : row_ok r ->
  file_header (row_text r) = None /\ plus_header (row_text r) = None /\
  is_skipped (row_text r) = false /\ match_hunk (row_text r) = None.
Proof.
  destruct r as [t|t|t]; cbn [row_ok row_text]; intros H; split_and!; try done.
  - unfold plus_header, after_prefix.
    change (starts_with "+++ " ("+" +:+ t)) with (starts_with "++ " t). by rewrite H.
  - change (is_skipped ("-" +:+ t)) with (starts_with "--" t || false). by rewrite H.
Qed.

(** *** Rows and hunks *)
Lemma read_row_step ea f o n w r rows : length (lines f) <> 0 -> exists e a d o1 n1,
  read_row (mkDiff ea (Some f) o n w) f (row_text r) = mkDiff ea (Some (grown f [e] a d [])) o1 n1 w /\
  row_entries w o n (r :: rows) = e :: row_entries w o1 n1 rows /\
  count is_ins (r :: rows) = a + count is_ins rows /\
  count is_del (r :: rows) = d + count is_del rows.
Proof.
  intros Hf. destruct r as [t|t|t]; cbn [row_entries row_text]; unfold read_row;
    cbn [oldNumber newNumber width earlier].
  - exists (t, None, pad w (Some o) +:+ " " +:+ pad w (Some n)), 0, 0, (o + 1)%Z, (n + 1)%Z.
    split_and!; [|done..]. change (starts_with "+" (" " +:+ t)) with false.
    change (starts_with "-" (" " +:+ t)) with false. rewrite starts_with_app. cbn [orb].
    change (String.eqb (" " +:+ t) "") with false. rewrite andb_false_r.
    by rewrite <-add_row_grown.
  - exists (t, Some [("diff", VStr "add")], pad w None +:+ " " +:+ pad w (Some n)), 1, 0, o, (n + 1)%Z.
    split_and!; [|done..]. rewrite starts_with_app, add_row_grown. unfold grown. cbn -[pad].
    by rewrite !Nat.add_1_r, !Nat.add_0_r, !app_nil_r.
  - exists (t, Some [("diff", VStr "remove")], pad w (Some o) +:+ " " +:+ pad w None), 0, 1, (o + 1)%Z, n.
    split_and!; [|done..]. change (starts_with "+" ("-" +:+ t)) with false.
    rewrite starts_with_app, add_row_grown. unfold grown. cbn -[pad].
    by rewrite !Nat.add_1_r, !Nat.add_0_r, !app_nil_r.
Qed.

Lemma read_rows ea f o n w rows : Forall row_ok rows -> length (lines f) <> 0 ->
  exists o' n', fold_left diff_line (map row_text rows) (mkDiff ea (Some f) o n w) =
    mkDiff ea (Some (grown f (row_entries w o n rows) (count is_ins rows) (count is_del rows) []))
      o' n' w.
Proof.
  intros Hr. revert f o n. induction Hr as [|r rows Hr _ IH]; intros f o n Hf.
  { exists o, n. cbn. by rewrite grown_nil. }
  cbn [map fold_left]. unfold diff_line at 2. destruct (row_text_kind r Hr) as (-> & -> & -> & ->).
  cbv beta iota; cbn [current].
  assert (Hl : forall e a d, length (lines (grown f [e] a d [])) <> 0).
  { intros [[t st] g] a d. simpl. rewrite length_app. simpl. lia. }
  destruct (read_row_step ea f o n w r rows Hf) as (e & a & d & o1 & n1 & -> & -> & -> & ->).
  destruct (IH (grown f [e] a d []) o1 n1 (Hl e a d)) as (o' & n' & ->).
  exists o', n'. by rewrite grown_grown.
Qed.

Lemma count_rows_app p l k : count p (l ++ k) = count p l + count p k.
Proof. unfold count. by rewrite List.filter_app, length_app. Qed.

Lemma read_hunk ea f o n w h : hunk_ok h ->
  exists o' n' w', fold_left diff_line (hunk_lines h) (mkDiff ea (Some f) o n w) =
    mkDiff ea (Some (grown f (hunk_entries h) (count is_ins (ph_rows h)) (count is_del (ph_rows h))
                       [(header_text (ph_header h), S (length (lines f)))])) o' n' w'.
Proof.
  intros (H1 & H2 & H3 & H4 & Hr). unfold hunk_lines. cbn [fold_left]. unfold diff_line at 2.
  destruct (header_text_kind (ph_header h)) as (-> & -> & ->).
  rewrite match_hunk_printed by done. cbn [current]. unfold start_hunk. cbn [earlier].
  rewrite mark_grown, add_row_grown, grown_grown.
  set (e := (_, Some _, _)). set (f' := grown f _ _ _ _).
  destruct (read_rows ea f' (num_of (hk_old (ph_header h))) (num_of (hk_new (ph_header h)))
              (hunk_width (ph_header h)) _ Hr) as (o' & n' & ->).
  { subst f' e. simpl. rewrite length_app. simpl. lia. }
  exists o', n', (hunk_width (ph_header h)). subst f'. by rewrite grown_grown.
Qed.

Lemma hunk_entries_length h : length (hunk_entries h) = S (length (ph_rows h)).
Proof. unfold hunk_entries. simpl. by rewrite row_entries_length. Qed.

Lemma read_hunks ea f o n w hs : Forall hunk_ok hs ->
  exists o' n' w', fold_left diff_line (flat_map hunk_lines hs) (mkDiff ea (Some f) o n w) =
    mkDiff ea (Some (grown f (flat_map hunk_entries hs) (count_in is_ins hs) (count_in is_del hs)
                       (hunk_marks (length (lines f)) hs))) o' n' w'.
Proof.
  intros Hh. revert f o n w. induction Hh as [|h hs Hh _ IH]; intros f o n w.
  { exists o, n, w. cbn. by rewrite grown_nil. }
  cbn [flat_map]. rewrite fold_left_app.
  destruct (read_hunk ea f o n w h Hh) as (o1 & n1 & w1 & ->).
  edestruct IH as (o' & n' & w' & ->). exists o', n', w'. f_equal. f_equal.
  rewrite grown_grown. unfold count_in. cbn [flat_map]. rewrite !count_rows_app. f_equal.
  cbn [app hunk_marks]. f_equal. f_equal.
  cbn [grown lines]. rewrite length_app, number_rows_length, hunk_entries_length. lia.
Qed.

(** *** Files *)
Lemma read_meta st ms : Forall meta_ok ms -> fold_left diff_line ms st = st.
Proof.
  induction 1 as [|m ms (H1 & H2 & H3) _ IH]; [done|]. simpl. unfold diff_line at 2.
  by rewrite H1, H2, H3.
Qed.

Lemma read_file ea c o n w f : file_ok f -> file <$> c <> Some (pf_name f) ->
  exists o' n' w', fold_left diff_line (file_text f) (mkDiff ea c o n w) =
    mkDiff (ea ++ option_list c) (Some (shown_file f)) o' n' w'.
Proof.
  intros (Hn & Hd & Hl & Hm & Hh) Hc. unfold file_text. rewrite !fold_left_app.
  cbn [fold_left]. unfold diff_line at 4. rewrite file_header_printed by done.
  unfold open_file. destruct (String.eqb_spec (pf_name f) "/dev/null"); [done|]. cbn [orb].
  rewrite bool_decide_eq_false_2 by done. cbn [earlier current oldNumber newNumber width].
  rewrite (read_meta _ (pf_meta f)) by done. unfold diff_line at 2.
  assert (file_header ("+++ b/" +:+ pf_name f) = None) as -> by done.
  rewrite plus_header_printed by done. unfold open_file.
  rewrite orb_comm, bool_decide_eq_true_2 by done. cbn [orb].
  destruct (read_hunks (ea ++ option_list c) (mkFile (pf_name f) [] 0 0 []) o n w _ Hh)
    as (o' & n' & w' & ->). by exists o', n', w'.
Qed.

(** Neighbouring files differ in name. *)
Fixpoint distinct_neighbours (previous : option string) (fs : list PrintedFile) : Prop :=
  match fs with
  | [] => True
  | f :: rest => previous <> Some (pf_name f) /\ distinct_neighbours (Some (pf_name f)) rest
  end.

Lemma read_files ea c o n w fs : Forall file_ok fs -> distinct_neighbours (file <$> c) fs ->
  let st := fold_left diff_line (flat_map file_text fs) (mkDiff ea c o n w) in
  earlier st ++ option_list (current st) = ea ++ option_list c ++ map shown_file fs.
Proof.
  intros Hf. revert ea c o n w. induction Hf as [|f fs Hf _ IH]; intros ea c o n w Hd; cbv zeta.
  { cbn. by rewrite app_nil_r. }
  destruct Hd as [Hc Hd]. cbn [flat_map]. rewrite fold_left_app.
  destruct (read_file ea c o n w f Hf Hc) as (o' & n' & w' & ->).
  specialize (IH (ea ++ option_list c) (Some (shown_file f)) o' n' w' Hd). cbv zeta in IH.
  rewrite IH. by rewrite <-app_assoc.
Qed.

(** A patch read line by line gives back the files it was printed from, in
    order: each with its rows and hunk headers in sequence, every row with its
    old and new number as its hunk's header sets them out, its additions and
    removals counted, and each hunk's header where it stands. *)
Theorem diff_reads_back (fs : list PrintedFile) :
  fs <> [] -> Forall file_ok fs -> distinct_neighbours None fs ->
  Forall (fun l => lacks lf l /\ lacks cr l) (flat_map file_text fs) ->
  parseUnifiedDiff (join (str1 lf) (flat_map file_text fs)) = map shown_file fs.
Proof.
  intros Hn Hf Hd Hl. unfold parseUnifiedDiff. rewrite normalize_id, split_join.
  - apply (read_files [] None 0 0 4 fs Hf Hd).
  - destruct fs; [done|]. discriminate.
  - eapply Forall_impl; [exact Hl|]. by intros ? [].
  - apply join_lacks; [done|]. eapply Forall_impl; [exact Hl|]. by intros ? [].
Qed.

Definition sample_patch : list PrintedFile :=
  [mkPF "a.ts" ["index 1..2"; "--- a/a.ts"]
     [mkPH (mkHunk "9" (Some "2") "9" (Some "3") " f()") [Ctx "x"; Del "y"; Ins "z"; Ins ""]];
   mkPF "b.sql" ["new file mode"; "--- /dev/null"]
     [mkPH (mkHunk "0" (Some "0") "1" None "") [Ins "select"]]].
Lemma diff_reads_back_witness :
  parseUnifiedDiff (join (str1 lf) (flat_map file_text sample_patch)) = map shown_file sample_patch.
Proof.
  apply diff_reads_back; [discriminate| |by split_and!|repeat constructor].
  repeat constructor; discriminate.
Defined.

(** A removed line that starts with two hyphens - a comment of SQL or Lua - is
    taken for a file header: the row is missing, nothing is counted, and the
    old numbers after it are one short. *)
Lemma removed_comment_is_lost :
  let patch := join (str1 lf) ["+++ b/q.sql"; "@@ -1,3 +1,2 @@"; " select"; "--- old"; " from t"] in
  map (fun f => (map text (lines f), removed f)) (parseUnifiedDiff patch) =
    [(["@@ -1,3 +1,2 @@"; "select"; "from t"], 0)].
Proof. done. Qed.

(** The line feed that ends a patch shows as one more context row. *)
Lemma final_line_feed_adds_row :
  let patch := join (str1 lf) ["+++ b/a"; "@@ -1 +1 @@"; "-x"; "+y"; ""] in
  map (fun f => map text (lines f)) (parseUnifiedDiff patch) = [["@@ -1 +1 @@"; "x"; "y"; ""]].
Proof. done. Qed.

(** The file of a deletion without a [diff --git] line is not shown at all,
    where the type promises the old path. *)
Lemma plain_deletion_is_lost :
  parseUnifiedDiff (join (str1 lf) ["--- a/gone"; "+++ /dev/null"; "@@ -1 +0,0 @@"; "-x"]) = [].
Proof. done. Qed.
