(* ===== verification/CodeBlock.v ===== *)
(** * Code block: the component

    The logic of [packages/ui/src/components/reui/code-block/code-block.tsx]:
    fold regions, the lines shown while a stream is highlighted, selection,
    folding, wrapping, the keyboard, the registry of line actions, and what the
    copy and download buttons take.  A prop that may be controlled is optional;
    a callback's calls are returned as a list.  Scrolling, focus and markup are
    not here. *)
From S2P Require Import Prelude JsString JsValue JsMap CodeText CodeHighlight.

(** ** Fold regions *)
Record CodeBlockFoldRegion := mkRegion { r_start : Z; r_end : Z }.

(** [(INDENT_RE.exec(text)?.[0] ?? "").replace(/\t/g, "  ").length] *)
Fixpoint indent (t : string) : nat :=
  match t with
  | String c rest =>
      if Ascii.eqb c " " then S (indent rest)
      else if Ascii.eqb c tab then S (S (indent rest)) else 0
  | EmptyString => 0
  end.
Definition blank (t : string) : bool := String.eqb (trim t) "".

(** An open region of the stack, the top first. *)
Record OpenRegion := mkOpen { op_start : Z; op_indent : nat; op_last : Z }.

(** What closing a region pushes. *)
Definition close_region (o : OpenRegion) : list CodeBlockFoldRegion :=
  if (op_start o <? op_last o)%Z then [mkRegion (op_start o) (op_last o)] else [].

(** [while (stack.length && own <= top.indent)]: the regions closed, and the
    stack that is left. *)
Fixpoint close_deeper (own : nat) (stack : list OpenRegion)
    : list CodeBlockFoldRegion * list OpenRegion :=
  match stack with
  | [] => ([], [])
  | o :: below =>
      if Nat.leb own (op_indent o)
      then let '(closed, left_) := close_deeper own below in (close_region o ++ closed, left_)
      else ([], stack)
  end.

Record FoldState := mkFold {
  regions : list CodeBlockFoldRegion;
  stack : list OpenRegion;
  previous : option (Z * nat)
}.

Definition fold_line (st : FoldState) (line : CodeBlockLine) : FoldState :=
  if blank (text line) then st
  else
    let own := indent (text line) in
    let '(closed, left_) := close_deeper own (stack st) in
    let left' := map (fun o => mkOpen (op_start o) (op_indent o) (number line)) left_ in
    mkFold (regions st ++ closed)
      (match previous st with
       | Some (n, i) => if Nat.ltb i own then mkOpen n i (number line) :: left' else left'
       | None => left'
       end)
      (Some (number line, own)).

Definition region_le (a b : CodeBlockFoldRegion) : bool := (r_start a <=? r_start b)%Z.
Definition computeFoldRegions (ls : list CodeBlockLine) : list CodeBlockFoldRegion :=
  let st := fold_left fold_line ls (mkFold [] [] None) in
  sort_by region_le (regions st ++ flat_map close_region (stack st)).

(** ** Tokens *)

(** The style of a token: its properties in the order they are set; [None] when
    there is nothing to style. *)
Definition tokenStyle (t : CodeBlockToken) : option (list (string * string)) :=
  let set name (v : option string) :=
    match v with Some (String _ _ as s) => [(name, s)] | _ => [] end in
  if negb (truthy_str (color t)) && negb (truthy_str (colorDark t)) &&
     bool_decide (fontStyle t = None)
  then None
  else Some (set "--cb-c" (color t) ++ set "--cb-cd" (colorDark t) ++
             match fontStyle t with
             | Some FItalic => [("fontStyle", "italic")]
             | Some FBold => [("fontWeight", "700")]
             | Some FUnderline => [("textDecoration", "underline")]
             | None => []
             end).

(** ** The lines shown *)

(** The result of a highlighting pass, tagged with its inputs. *)
Record Highlighted := mkHighlighted {
  h_source : string;
  h_spec : string;
  h_lines : list CodeBlockLine
}.

Definition shown_lines (linesProp : option (list CodeBlockLine)) (shouldHighlight : bool)
    (highlighted : option Highlighted) (deferredSource specKey : string) (startLine : Z)
    : list CodeBlockLine :=
  let plainLines := toPlainLines deferredSource startLine in
  match linesProp with
  | Some ls => ls
  | None =>
      match shouldHighlight, highlighted with
      | true, Some h =>
          if negb (String.eqb (h_spec h) specKey) || negb (starts_with (h_source h) deferredSource)
          then plainLines
          else if Nat.leb (length plainLines) (length (h_lines h)) then h_lines h
          else h_lines h ++ drop (length (h_lines h)) plainLines
      | _, _ => plainLines
      end
  end.

Definition shouldHighlight (linesProp : option (list CodeBlockLine)) (highlight : bool)
    (resolvedLanguage : option string) (source : string) : bool :=
  negb (bool_decide (linesProp <> None)) && highlight && bool_decide (resolvedLanguage <> None) &&
  negb (String.eqb source "").

(** [state?.focused] and [state?.diff] of any line. *)
Definition state_has (key : string) (l : CodeBlockLine) : bool :=
  match state l with Some st => truthy (match mget st key with Some v => v | None => VUndef end) | None => false end.
Definition focusMode (ls : list CodeBlockLine) : bool := some (state_has "focused") ls.
Definition hasDiff (ls : list CodeBlockLine) : bool := some (state_has "diff") ls.

(** ** Selection, folding, wrapping *)
Record Props := mkCBProps {
  p_wrap : option bool;
  p_expanded : option bool;
  p_maxLines : option Z;
  p_selectedLines : option (list Z);
  p_foldable : bool;
  p_foldRegions : option (list CodeBlockFoldRegion);
  p_folded : option (list Z);
  p_startLine : Z
}.
Record State := mkState {
  internalWrap : bool;
  internalExpanded : bool;
  internalSelected : list Z;
  lastSelected : option Z;
  internalFolded : list Z
}.
Inductive Callback :=
| OnWrapChange (next : bool)
| OnExpandedChange (next : bool)
| OnSelectedLinesChange (next : list Z)
| OnFoldedChange (next : list Z).

Definition wrap (p : Props) (s : State) : bool := p_wrap p ?? internalWrap s.
Definition setWrap (p : Props) (s : State) (next : bool) : State * list Callback :=
  (mkState (match p_wrap p with None => next | Some _ => internalWrap s end) (internalExpanded s)
     (internalSelected s) (lastSelected s) (internalFolded s), [OnWrapChange next]).

Definition collapsible (p : Props) (ls : list CodeBlockLine) : bool :=
  match p_maxLines p with Some m => (m <? Z.of_nat (length ls))%Z | None => false end.
Definition isExpanded (p : Props) (s : State) (ls : list CodeBlockLine) : bool :=
  if collapsible p ls then p_expanded p ?? internalExpanded s else true.
Definition setExpanded (p : Props) (s : State) (next : bool) : State * list Callback :=
  (mkState (internalWrap s) (match p_expanded p with None => next | Some _ => internalExpanded s end)
     (internalSelected s) (lastSelected s) (internalFolded s), [OnExpandedChange next]).
(** The cut, while the block is collapsed. *)
Definition visibleLines (p : Props) (s : State) (ls : list CodeBlockLine) : option Z :=
  if collapsible p ls && negb (isExpanded p s ls) then p_maxLines p else None.

Definition zmem (x : Z) (l : list Z) : bool := some (Z.eqb x) l.
Definition sort_z (l : list Z) : list Z := sort_by Z.leb l.
(** [for (let value = from; value <= to; value += 1) range.push(value)] *)
Definition line_range (from to : Z) : list Z :=
  map (fun i => from + Z.of_nat i)%Z (seq 0 (Z.to_nat (to - from + 1))).

Definition selection (p : Props) (s : State) : list Z := p_selectedLines p ?? internalSelected s.
Definition commitSelection (p : Props) (s : State) (next : list Z) : State * list Callback :=
  (mkState (internalWrap s) (internalExpanded s)
     (match p_selectedLines p with None => next | Some _ => internalSelected s end)
     (lastSelected s) (internalFolded s), [OnSelectedLinesChange next]).
Definition toggleLine (p : Props) (s : State) (line : Z) (extend : bool) : State * list Callback :=
  match extend, lastSelected s with
  | true, Some anchor => commitSelection p s (line_range (Z.min anchor line) (Z.max anchor line))
  | _, _ =>
      let s' := mkState (internalWrap s) (internalExpanded s) (internalSelected s) (Some line)
                  (internalFolded s) in
      let sel := selection p s in
      commitSelection p s'
        (if zmem line sel then bfilter (fun v => negb (Z.eqb v line)) sel else sort_z (sel ++ [line]))
  end.
Definition clearSelection (p : Props) (s : State) : State * list Callback := commitSelection p s [].

(** Regions count lines from one within the source. *)
Definition foldRegions (p : Props) (ls : list CodeBlockLine) : list CodeBlockFoldRegion :=
  if negb (p_foldable p) then []
  else match p_foldRegions p with
       | Some rs => rs
       | None => map (fun r => mkRegion (r_start r - p_startLine p + 1) (r_end r - p_startLine p + 1))
                   (computeFoldRegions ls)
       end.
(** [new Map(foldRegions.map(r => [r.start, r]))]: the last of a start wins. *)
Definition fold_start (rs : list CodeBlockFoldRegion) (start : Z) : option CodeBlockFoldRegion :=
  js_find (fun r => Z.eqb (r_start r) start) (rev rs).

Definition folded (p : Props) (s : State) : list Z := p_folded p ?? internalFolded s.
Definition commitFolded (p : Props) (s : State) (next : list Z) : State * list Callback :=
  (mkState (internalWrap s) (internalExpanded s) (internalSelected s) (lastSelected s)
     (match p_folded p with None => next | Some _ => internalFolded s end), [OnFoldedChange next]).
Definition toggleFold (p : Props) (s : State) (start : Z) : State * list Callback :=
  let f := folded p s in
  commitFolded p s (if zmem start f then bfilter (fun v => negb (Z.eqb v start)) f
                    else sort_z (f ++ [start])).
Definition foldAll (p : Props) (s : State) (ls : list CodeBlockLine) : State * list Callback :=
  commitFolded p s (map r_start (foldRegions p ls)).
Definition unfoldAll (p : Props) (s : State) : State * list Callback := commitFolded p s [].

(** The displayed numbers a fold hides. *)
Definition hidden_by (p : Props) (rs : list CodeBlockFoldRegion) (start : Z) : list Z :=
  match fold_start rs start with
  | Some r => map (fun n => n + p_startLine p - 1)%Z (line_range (r_start r + 1) (r_end r))
  | None => []
  end.
Definition renderedLines (p : Props) (s : State) (ls : list CodeBlockLine) : list CodeBlockLine :=
  if negb (p_foldable p) || Nat.eqb (length (folded p s)) 0 then ls
  else
    let hidden := flat_map (hidden_by p (foldRegions p ls)) (folded p s) in
    bfilter (fun l => negb (zmem (number l) hidden)) ls.

(** ** The keyboard *)
Inductive Key := KEscape | KEnter | KSpace | KDown | KUp | KHome | KEnd | KOther.

(** What a key press does: the new active line, the line it toggles and whether
    that extends, whether the default is prevented. *)
Record Press := mkPress {
  active' : option Z;
  toggled : option (Z * bool);
  prevented : bool
}.

(** The line a movement leads to: by index among the rendered lines. *)
Definition line_number (ls : list CodeBlockLine) (i : Z) (startLine : Z) : Z :=
  match (if (i <? 0)%Z then None else nth_error ls (Z.to_nat i)) with
  | Some l => number l
  | None => startLine
  end.
Definition move_target (ls : list CodeBlockLine) (activeLine : option Z) (startLine : Z) (k : Key) : Z :=
  let last_ := (Z.of_nat (length ls) - 1)%Z in
  match k with
  | KHome => line_number ls 0 startLine
  | KEnd => line_number ls last_ startLine
  | _ =>
      let step := match k with KDown => 1 | _ => -1 end%Z in
      let index := find_index (fun l => bool_decide (Some (number l) = activeLine)) ls in
      let next := if (index =? -1)%Z then (if (step =? 1)%Z then 0 else last_)%Z
                  else Z.min last_ (Z.max 0 (index + step)) in
      line_number ls next startLine
  end.

Definition handleKeyDown (selectable : bool) (ls : list CodeBlockLine) (startLine : Z)
    (activeLine : option Z) (k : Key) (shift : bool) : Press :=
  let displayed n := (n - startLine + 1)%Z in
  if negb selectable then mkPress activeLine None false
  else match k, activeLine with
       | KEscape, _ => mkPress None None false
       | (KEnter | KSpace), Some a => mkPress activeLine (Some (displayed a, shift)) true
       | (KEnter | KSpace | KOther), _ => mkPress activeLine None false
       | (KHome | KEnd), _ => mkPress (Some (move_target ls activeLine startLine k)) None true
       | (KDown | KUp), _ =>
           let next := move_target ls activeLine startLine k in
           mkPress (Some next) (if shift then Some (displayed next, true) else None) true
       end.

(** The length of a text whose characters are UTF-16 units: the bytes that start
    a character. *)
Fixpoint char_count (s : string) : nat :=
  match s with
  | EmptyString => 0
  | String c rest =>
      let n := Ascii.nat_of_ascii c in
      (if Nat.leb 128 n && Nat.ltb n 192 then 0 else 1) + char_count rest
  end.

(** [Math.max(2, String(gutterMax).length, ...labels)] *)
Definition gutterDigits (gutterMax : Z) (ls : list CodeBlockLine) : nat :=
  foldr Nat.max (Nat.max 2 (String.length (show_Z gutterMax)))
    (map (fun l => match gutter l with Some g => char_count g | None => 0 end) ls).

(** ** Line actions *)

(** Whose render prop is shown; an owner is the object a group was made with. *)
Record Registry := mkRegistry { owner : option nat; render : option nat; on_gutter : bool }.
Definition register (r : Registry) (who : nat) (renderProp : option nat) (gutterSide : bool) : Registry :=
  match renderProp with
  | Some f => mkRegistry (Some who) (Some f) gutterSide
  | None => if bool_decide (owner r = Some who) then mkRegistry None None gutterSide else r
  end.

(** ** Copy and download *)

(** [value ?? (code || lines joined) ?? ""], without its notation comments. *)
Definition payload (value : option string) (code : string) (ls : list CodeBlockLine) : string :=
  stripNotationComments
    (value ?? (if String.eqb code "" then join (str1 lf) (map text ls) else code)).

Definition LANGUAGE_EXTENSIONS : jsmap string :=
  [("bash", "sh"); ("c", "c"); ("cpp", "cpp"); ("csharp", "cs"); ("css", "css"); ("diff", "patch");
   ("docker", "dockerfile"); ("go", "go"); ("graphql", "graphql"); ("html", "html");
   ("java", "java"); ("javascript", "js"); ("json", "json"); ("jsx", "jsx"); ("kotlin", "kt");
   ("markdown", "md"); ("php", "php"); ("python", "py"); ("ruby", "rb"); ("rust", "rs");
   ("sql", "sql"); ("swift", "swift"); ("toml", "toml"); ("tsx", "tsx"); ("typescript", "ts");
   ("xml", "xml"); ("yaml", "yaml")].
(** The file a download saves, [None] when there is nothing to save. *)
Definition download (value filename resolvedLanguage : option string) (code : string)
    (ls : list CodeBlockLine) : option (string * string) :=
  let content := payload value code ls in
  if String.eqb content "" then None
  else Some (filename ?? ("code." +:+ (mget LANGUAGE_EXTENSIONS (resolvedLanguage ?? "") ?? "txt")),
             content).

(** ** Composition *)

(** What a block's children can be, for [containsElementType]: text, or an
    element of a type with children. *)
Inductive ReactNode := RText | RElement (type : string) (children : list ReactNode).
Fixpoint contains_type (type : string) (n : ReactNode) : bool :=
  match n with
  | RText => false
  | RElement t cs => String.eqb t type || some (contains_type type) cs
  end.
Definition containsElementType (nodes : list ReactNode) (type : string) : bool :=
  some (contains_type type) nodes.
