(* ===== verification/CodeBlockLaws.v ===== *)
(** * Code block: laws of the component

    The one-pass fold regions are the regions a nested scan defines; a stream's
    merged lines show the source; folding hides exactly what the folded regions
    cover, and toggling twice undoes itself; the keyboard stays on rendered
    lines. *)
From S2P Require Import Prelude JsString JsValue JsMap CodeText CodeTextLaws CodeHighlight CodeHighlightLaws CodeBlock.

(** ** Fold regions *)

(** The lines that count: their numbers and indents, blanks left out. *)
Definition outline (ls : list CodeBlockLine) : list (Z * nat) :=
  map (fun l => (number l, indent (text l))) (bfilter (fun l => negb (blank (text l))) ls).

(** The lines after a line that are indented deeper than it, up to the first
    that is not. *)
Fixpoint body (own : nat) (rest : list (Z * nat)) : list (Z * nat) :=
  match rest with
  | (n, i) :: rest' => if Nat.ltb own i then (n, i) :: body own rest' else []
  | [] => []
  end.

(** The nested scan: a line opens a region over its body, if it has one. *)
Fixpoint nested_regions (l : list (Z * nat)) : list CodeBlockFoldRegion :=
  match l with
  | [] => []
  | (n, i) :: rest =>
      match last (body i rest) with
      | Some (m, _) => mkRegion n m :: nested_regions rest
      | None => nested_regions rest
      end
  end.

(** The last line an open region reaches, given the lines to come. *)
Definition reach (o : OpenRegion) (rest : list (Z * nat)) : Z :=
  match last (body (op_indent o) rest) with Some (m, _) => m | None => op_last o end.
Definition final_region (rest : list (Z * nat)) (o : OpenRegion) : CodeBlockFoldRegion :=
  mkRegion (op_start o) (reach o rest).

Definition opened (o : OpenRegion) : Prop := (op_start o < op_last o)%Z.
(** Indents fall from the top of the stack down, all below the last line's. *)
Fixpoint deeper_than (i : nat) (stack : list OpenRegion) : Prop :=
  match stack with
  | [] => True
  | o :: below => op_indent o < i /\ deeper_than (op_indent o) below
  end.

Lemma close_region_opened o : opened o -> close_region o = [mkRegion (op_start o) (op_last o)].
Proof. unfold opened, close_region. by destruct (Z.ltb_spec (op_start o) (op_last o)); [|lia]. Qed.

Lemma last_cons_some {A} (x : A) l : last (x :: l) = Some (match last l with Some y => y | None => x end).
Proof. revert x. induction l as [|y l IH]; intros x; [done|]. cbn [last] in *. by rewrite IH. Qed.

Lemma reach_closed o n i rest : i <= op_indent o -> reach o ((n, i) :: rest) = op_last o.
Proof. intros H. unfold reach. cbn [body]. by destruct (Nat.ltb_spec (op_indent o) i); [lia|]. Qed.
Lemma reach_open o n i rest : op_indent o < i ->
  reach o ((n, i) :: rest) = reach (mkOpen (op_start o) (op_indent o) n) rest.
Proof.
  intros H. unfold reach. cbn [body op_indent op_last].
  destruct (Nat.ltb_spec (op_indent o) i); [|lia]. rewrite last_cons_some.
  by destruct (last (body (op_indent o) rest)) as [[m k]|].
Qed.

Lemma deeper_weaken i j stack : i <= j -> deeper_than i stack -> deeper_than j stack.
Proof. intros H. destruct stack as [|o st]; simpl; [done|]. intros []. split; [lia|done]. Qed.

(** The stack that is left, reaching this line. *)
Definition carried (n : Z) (o : OpenRegion) : OpenRegion := mkOpen (op_start o) (op_indent o) n.
Lemma deeper_carried n i stack : deeper_than i stack -> deeper_than i (map (carried n) stack).
Proof. revert i. induction stack as [|o st IH]; intros i; simpl; [done|]. intros []. split; [done|by apply IH]. Qed.
Lemma regions_carried own n rest i stack : deeper_than i stack -> i <= own ->
  map (final_region ((n, own) :: rest)) stack = map (final_region rest) (map (carried n) stack).
Proof.
  revert i. induction stack as [|o st IH]; intros i; [done|]. cbn [deeper_than map]. intros [H1 H2] Hi.
  f_equal; [|by eapply IH; [done|lia]]. unfold final_region. rewrite reach_open by lia. done.
Qed.

(** Popping splits the stack: what is closed ends before this line, what is
    left goes on through it. *)
Lemma close_deeper_split own n rest stack i : deeper_than i stack -> Forall opened stack ->
  let '(closed, left_) := close_deeper own stack in
  Permutation (map (final_region ((n, own) :: rest)) stack)
              (closed ++ map (final_region rest) (map (carried n) left_)) /\
  deeper_than own left_ /\ deeper_than i left_ /\ left_ ⊆ stack.
Proof.
  intros Hd Ho. revert i Hd. induction Ho as [|o stack Ho Hos IH]; intros i Hd; cbn [close_deeper]; [done|].
  destruct Hd as [Hi Hd]. destruct (Nat.leb_spec own (op_indent o)) as [Hle|Hlt].
  - specialize (IH _ Hd). destruct (close_deeper own stack) as [closed left_].
    destruct IH as (Hp & H2 & H3 & H4). split_and!; [|done|by eapply deeper_weaken; [|done]; lia|].
    + rewrite close_region_opened by done. simpl.
      unfold final_region at 1. rewrite reach_closed by done. by apply perm_skip.
    + intros x Hx. right. by apply H4.
  - split_and!; [|done..]. cbn [app].
    by rewrite (regions_carried own n rest (S (op_indent o)) (o :: stack)) by (lia || by split; [lia|]).
Qed.

(** What is still to come of a state, given the lines left. *)
Definition to_come (st : FoldState) (rest : list (Z * nat)) : list CodeBlockFoldRegion :=
  regions st ++ map (final_region rest) (stack st) ++
  nested_regions (match previous st with Some p => p :: rest | None => rest end).

Definition coherent (st : FoldState) : Prop :=
  match previous st with
  | Some (n, i) => deeper_than i (stack st) /\ Forall opened (stack st) /\
                   (forall o, o ∈ stack st -> (op_start o < n)%Z)
  | None => stack st = []
  end.

Lemma nested_cons n i m k rest :
  nested_regions ((n, i) :: (m, k) :: rest) =
  (if Nat.ltb i k then [final_region rest (mkOpen n i m)] else []) ++ nested_regions ((m, k) :: rest).
Proof.
  cbn [nested_regions body]. destruct (Nat.ltb i k); [|done].
  rewrite last_cons_some. unfold final_region, reach. cbn [op_indent op_start op_last].
  by destruct (last (body i rest)) as [[x y]|].
Qed.

Lemma fold_line_step st l rest : coherent st -> blank (text l) = false ->
  (forall n i, previous st = Some (n, i) -> (n < number l)%Z) ->
  coherent (fold_line st l) /\
  Permutation (to_come st ((number l, indent (text l)) :: rest)) (to_come (fold_line st l) rest).
Proof.
  intros Hc Hb Hn. unfold fold_line. rewrite Hb. set (own := indent (text l)). set (n := number l) in *.
  destruct st as [rs sk [[pn pi]|]]; unfold coherent, to_come in *; cbn [regions stack previous] in *.
  2:{ subst sk. simpl. rewrite !app_nil_r. split_and!; [done|constructor| |done].
      by intros ? ?%elem_of_nil. }
  destruct Hc as (Hd & Ho & Hs). specialize (Hn pn pi eq_refl).
  pose proof (close_deeper_split own n rest sk pi Hd Ho) as H.
  destruct (close_deeper own sk) as [closed left_]. cbn [regions stack previous].
  destruct H as (Hp & H2 & H3 & H4). fold (carried n).
  assert (Hstarts : forall o, o ∈ map (carried n) left_ -> (op_start o < n)%Z).
  { intros o Hx. apply list_elem_of_fmap in Hx as (x & -> & Hx). specialize (Hs x (H4 x Hx)).
    simpl. lia. }
  assert (Hopen : Forall opened (map (carried n) left_)).
  { rewrite Forall_map, Forall_forall. intros x Hx. specialize (Hs x (H4 x Hx)). unfold opened. simpl. lia. }
  rewrite nested_cons. split.
  - destruct (Nat.ltb_spec pi own); [|by split_and!; [apply deeper_carried|..]].
    split_and!; [split; [done|by apply deeper_carried]|constructor; [exact Hn|done]|].
    intros o [->|Hx]%elem_of_cons; [done|by apply Hstarts].
  - rewrite Hp, <-!app_assoc. do 2 apply Permutation_app_head.
    destruct (Nat.ltb pi own); simpl; [|done]. by rewrite <-Permutation_middle.
Qed.

Lemma fold_lines ls st : coherent st -> StronglySorted (fun a b => number a < number b)%Z ls ->
  (forall n i l, previous st = Some (n, i) -> l ∈ ls -> (n < number l)%Z) ->
  coherent (fold_left fold_line ls st) /\
  Permutation (to_come st (outline ls)) (to_come (fold_left fold_line ls st) []).
Proof.
  intros Hc Hs. revert st Hc. induction Hs as [|l ls Hs IH Hl]; intros st Hc Hn; [done|].
  cbn [fold_left]. unfold outline. cbn [bfilter List.filter map].
  destruct (blank (text l)) eqn:Hb; cbn [negb map].
  - assert (fold_line st l = st) as -> by (unfold fold_line; by rewrite Hb).
    apply IH; [done|]. intros n i l' Hp Hx. apply (Hn n i); [done|by right].
  - destruct (fold_line_step st l (outline ls) Hc Hb) as [Hc' Hp].
    { intros n i E. apply (Hn n i); [done|by left]. }
    destruct (IH (fold_line st l) Hc') as [H1 H2].
    { intros n i l' E Hx. unfold fold_line in E. rewrite Hb in E.
      destruct (close_deeper _ _). injection E as <- _. rewrite Forall_forall in Hl. by apply Hl. }
    split; [done|]. etransitivity; [exact Hp|exact H2].
Qed.

Lemma nested_sorted l : StronglySorted (fun a b => a.1 < b.1)%Z l ->
  StronglySorted (fun a b => region_le b a = false) (nested_regions l) /\
  forall r, r ∈ nested_regions l -> exists p, p ∈ l /\ r_start r = p.1.
Proof.
  induction 1 as [|[n i] l Hl [IH1 IH2] Hx].
  { split; [constructor|by intros ? ?%elem_of_nil]. }
  cbn [nested_regions].
  assert (H2 : forall r, r ∈ nested_regions l -> exists p, p ∈ (n, i) :: l /\ r_start r = p.1).
  { intros r Hr. destruct (IH2 r Hr) as (p & Hp & E). exists p. split; [by right|done]. }
  destruct (last (body i l)) as [[m k]|]; [|done]. split.
  - constructor; [done|]. rewrite Forall_forall in Hx. rewrite Forall_forall. intros r Hr.
    destruct (IH2 r Hr) as (p & Hp & E). specialize (Hx p Hp). unfold region_le. simpl in *.
    apply Z.leb_gt. lia.
  - intros r [->|Hr]%elem_of_cons; [|by apply H2]. exists (n, i). split; [by left|done].
Qed.

Lemma close_all st : coherent st ->
  regions st ++ flat_map close_region (stack st) = to_come st [].
Proof.
  intros Hc. unfold to_come, coherent in *. f_equal.
  destruct (previous st) as [[n i]|]; [|by rewrite Hc]. destruct Hc as (_ & Ho & _).
  cbn. rewrite app_nil_r. induction Ho as [|o sk Ho _ IH]; [done|]. cbn.
  rewrite close_region_opened by done. simpl. by f_equal.
Qed.

(** On lines numbered in ascending order, the one-pass scan with its stack
    of open regions finds exactly the regions of the nested scan it replaced:
    every line with deeper lines after it opens one, through the last of them
    before the indent returns, blank lines aside, in order of their starts. *)
Theorem fold_regions_reference (ls : list CodeBlockLine) :
  StronglySorted (fun a b => number a < number b)%Z ls ->
  computeFoldRegions ls = nested_regions (outline ls).
Proof.
  intros Hs. unfold computeFoldRegions.
  destruct (fold_lines ls (mkFold [] [] None)) as [Hc Hp]; [done|done|done|].
  rewrite close_all by done.
  assert (Ho : StronglySorted (fun a b => a.1 < b.1)%Z (outline ls)).
  { unfold outline. clear -Hs. induction Hs as [|l ls Hs IH Hl]; [constructor|].
    cbn [bfilter List.filter]. destruct (blank (text l)); cbn [negb map]; [done|].
    constructor; [done|]. rewrite Forall_map. rewrite Forall_forall in Hl. rewrite Forall_forall.
    intros x Hx. apply Hl. by apply bfilter_elem in Hx as [Hx _]. }
  apply (sorted_perm_eq region_le).
  - by apply nested_sorted.
  - apply sort_by_sorted; unfold region_le.
    + intros a b. rewrite Z.leb_gt, Z.leb_le. lia.
    + intros a b c. rewrite !Z.leb_le. lia.
  - rewrite sort_by_perm, <-Hp. done.
Qed.

Definition outline_sample : list CodeBlockLine :=
  toPlainLines (join (str1 lf) ["f() {"; "  a"; ""; "    b"; "  c"; "}"]) 1.
Lemma fold_regions_reference_witness :
  computeFoldRegions outline_sample = [mkRegion 1 5; mkRegion 2 4].
Proof.
  rewrite fold_regions_reference; [reflexivity|].
  repeat (constructor; [|repeat (constructor; [reflexivity|])]); constructor.
Defined.

(** ** The lines of a stream *)

Lemma starts_with_cons c d a b :
  starts_with (String c a) (String d b) = true <-> c = d /\ starts_with a b = true.
Proof. simpl. destruct (Ascii.ascii_dec c d); [naive_solver|]. split; [done|by intros []]. Qed.

Lemma starts_with_refl s : starts_with s s = true.
Proof. rewrite <-(str_app_nil_r s) at 2. apply starts_with_app. Qed.

(** Reading line endings keeps prefixes: what has come does not change. *)
Lemma normalize_prefix a b : starts_with a b = true ->
  starts_with (normalizeCode a) (normalizeCode b) = true.
Proof.
  remember (String.length a) as n eqn:Hn. assert (H : String.length a <= n) by lia. clear Hn.
  revert a b H. induction n as [|n IH]; intros a b Hlen Hp.
  { destruct a; [by destruct (normalizeCode b)|simpl in Hlen; lia]. }
  destruct a as [|c a]; [by destruct (normalizeCode b)|]. destruct b as [|d b]; [done|].
  apply starts_with_cons in Hp as [<- Hp]. simpl in Hlen. cbn [normalizeCode].
  destruct (Ascii.eqb c cr).
  - apply starts_with_cons. split; [done|]. destruct a as [|x a]; [by destruct b; [|case_match; destruct (normalizeCode _)]|].
    destruct b as [|y b]; [done|]. pose proof Hp as Hp'. apply starts_with_cons in Hp' as [<- Hp'].
    simpl in Hlen. destruct (Ascii.eqb x lf); [|by apply IH; [simpl; lia|]].
    by apply IH; [lia|].
  - apply starts_with_cons. split; [done|]. by apply IH; [lia|].
Qed.

(** The lines of a prefix: all but the last are whole. *)
Lemma split_prefix c a b : starts_with a b = true ->
  exists ws w w' rest, split_char c a = ws ++ [w] /\ split_char c b = ws ++ w' :: rest /\
    starts_with w w' = true.
Proof.
  revert b. induction a as [|x a IH]; intros b Hp.
  - destruct (split_char_cons c b) as (w' & rest & E). exists [], "", w', rest.
    split_and!; [done|done|by destruct w'].
  - destruct b as [|y b]; [done|]. apply starts_with_cons in Hp as [<- Hp].
    destruct (IH b Hp) as (ws & w & w' & rest & Ha & Hb & Hw). simpl. rewrite Ha, Hb.
    destruct (Ascii.eqb c x).
    + by exists ("" :: ws), w, w', rest.
    + destruct ws as [|v ws]; simpl.
      * exists [], (String x w), (String x w'), rest. split_and!; [done|done|].
        by apply starts_with_cons.
      * by exists (String x v :: ws), w, w', rest.
Qed.

(** Lines that show a text, numbered from the start. *)
Definition shows (ls : list CodeBlockLine) (startLine : Z) (ts : list string) : Prop :=
  map text ls = ts /\
  map number ls = map (fun i => startLine + Z.of_nat i)%Z (seq 0 (length ts)).

Lemma plain_shows source startLine :
  shows (toPlainLines source startLine) startLine (split_char lf (normalizeCode source)).
Proof.
  unfold toPlainLines, shows. split.
  - rewrite (map_imap_text _ _ id) by done. apply map_id.
  - by apply map_imap_seq.
Qed.

(** While a stream is being highlighted, the block shows every line of the
    text received so far, numbered in sequence: the lines of the last pass, then
    plain ones.  Each is the line itself, except that the last line of the pass
    may still lack what arrived since; a result for another text or another
    presentation is not shown at all. *)
Theorem stream_shows_source (highlighted : option Highlighted) (source specKey : string)
    (startLine : Z) (highlight : bool) :
  (forall h, highlighted = Some h -> shows (h_lines h) startLine (split_char lf (normalizeCode (h_source h)))) ->
  let ls := shown_lines None highlight highlighted source specKey startLine in
  let ts := split_char lf (normalizeCode source) in
  map number ls = map (fun i => startLine + Z.of_nat i)%Z (seq 0 (length ts)) /\
  forall i l t, ls !! i = Some l -> ts !! i = Some t ->
    starts_with (text l) t = true /\
    (text l = t \/ exists h, highlighted = Some h /\ S i = length (h_lines h)).
Proof.
  intros Hh ls ts. pose proof (plain_shows source startLine) as [Ht Hn]. fold ts in Ht, Hn.
  assert (Hplain : ls = toPlainLines source startLine -> map number ls = map (fun i => startLine + Z.of_nat i)%Z (seq 0 (length ts)) /\
    forall i l t, ls !! i = Some l -> ts !! i = Some t -> starts_with (text l) t = true /\
      (text l = t \/ exists h, highlighted = Some h /\ S i = length (h_lines h))).
  { intros ->. split; [done|]. intros i l t Hl Hi. rewrite <-Ht, list_lookup_fmap, Hl in Hi.
    injection Hi as <-. split; [|by left]. apply starts_with_refl. }
  unfold shown_lines in ls. destruct highlight; [|by apply Hplain].
  destruct highlighted as [h|]; [|by apply Hplain].
  destruct (negb _ || negb _) eqn:E; [by apply Hplain|]. apply orb_false_iff in E as [_ E].
  apply negb_false_iff in E. destruct (Hh h eq_refl) as [Hht Hhn].
  destruct (split_prefix lf _ _ (normalize_prefix _ _ E)) as (ws & w & w' & rest & Ea & Eb & Hw).
  rewrite Ea in Hht, Hhn. fold ts in Eb.
  assert (Hlen : length (h_lines h) = S (length ws)).
  { rewrite <-(length_map text), Hht, length_app. simpl. lia. }
  assert (Hls : ls = h_lines h ++ drop (length (h_lines h)) (toPlainLines source startLine)).
  { subst ls. destruct (Nat.leb_spec (length (toPlainLines source startLine)) (length (h_lines h))); [|done].
    by rewrite drop_ge, app_nil_r by done. }
  clearbody ls. subst ls. split.
  - rewrite map_app, <-skipn_map, Hn, Hhn.
    set (f := fun i => _). rewrite <-(take_drop (length (h_lines h)) (map f (seq 0 (length ts)))) at 2.
    f_equal. rewrite firstn_map, take_seq. f_equal. f_equal.
    rewrite Eb, !length_app, Hlen. cbn [length]. lia.
  - intros i l t Hl Hi. destruct (Nat.lt_ge_cases i (length (h_lines h))) as [Hlt|Hge].
    + rewrite lookup_app_l in Hl by done.
      assert (Hx : (ws ++ [w]) !! i = Some (text l)) by (by rewrite <-Hht, list_lookup_fmap, Hl).
      rewrite Eb in Hi. destruct (decide (i = length ws)) as [->|Hne].
      * rewrite list_lookup_middle in Hi by done. rewrite lookup_app_r, Nat.sub_diag in Hx by done.
        injection Hx as <-. injection Hi as <-. split; [done|]. right. exists h. by rewrite Hlen.
      * rewrite lookup_app_l in Hx by lia. rewrite lookup_app_l in Hi by lia.
        rewrite Hx in Hi. injection Hi as <-. split; [|by left].
        apply starts_with_refl.
    + rewrite lookup_app_r, lookup_drop in Hl by done.
      replace (length (h_lines h) + (i - length (h_lines h))) with i in Hl by lia.
      rewrite <-Ht, list_lookup_fmap, Hl in Hi. injection Hi as <-. split; [|by left].
      apply starts_with_refl.
Qed.

Definition stream_sample : Highlighted :=
  mkHighlighted "let" "k" (toPlainLines "let" 1).
Lemma stream_shows_source_witness :
  let ls := shown_lines None true (Some stream_sample) ("let x" +:+ str1 lf +:+ "y") "k" 1 in
  map text ls = ["let"; "y"] /\ map number ls = [1; 2]%Z.
Proof.
  destruct (stream_shows_source (Some stream_sample) ("let x" +:+ str1 lf +:+ "y") "k" 1 true)
    as [H _].
  - intros h [= <-]. apply plain_shows.
  - split; [reflexivity|exact H].
Defined.

(** ** Toggling *)
Notation ascending := (StronglySorted Z.lt).

Lemma zmem_elem x l : zmem x l = true <-> x ∈ l.
Proof.
  unfold zmem. rewrite existsb_exists, list_elem_of_In. split.
  - by intros (y & Hy & ->%Z.eqb_eq).
  - intros H. exists x. by rewrite Z.eqb_refl.
Qed.

Definition without (x : Z) (l : list Z) : list Z := bfilter (fun v => negb (Z.eqb v x)) l.
Lemma without_elem x y l : y ∈ without x l <-> y <> x /\ y ∈ l.
Proof. unfold without. rewrite bfilter_elem, negb_true_iff, Z.eqb_neq. tauto. Qed.

Lemma ascending_NoDup l : ascending l -> NoDup l.
Proof.
  induction 1 as [|x l Hl IH Hx]; constructor; [|done]. intros H.
  rewrite Forall_forall in Hx. specialize (Hx x H). lia.
Qed.

(** Ascending lists are the sets they hold. *)
Lemma ascending_eq l k : ascending l -> ascending k -> (forall x, x ∈ l <-> x ∈ k) -> l = k.
Proof.
  intros Hl Hk H. apply (sorted_perm_eq Z.leb).
  - clear -Hk. induction Hk as [|x k Hk IH Hx]; constructor; [done|].
    eapply Forall_impl; [exact Hx|]. intros y. simpl. rewrite Z.leb_gt. lia.
  - clear -Hl. induction Hl as [|x l Hl IH Hx]; constructor; [done|].
    eapply Forall_impl; [exact Hx|]. intros y. simpl. rewrite Z.leb_le. lia.
  - by apply NoDup_Permutation; [apply ascending_NoDup|apply ascending_NoDup|].
Qed.

Lemma without_ascending x l : ascending l -> ascending (without x l).
Proof.
  induction 1 as [|y l Hl IH Hy]; [constructor|]. cbn. destruct (negb (y =? x)%Z); [|done].
  constructor; [done|]. rewrite Forall_forall in Hy. rewrite Forall_forall.
  intros z Hz. apply Hy. by apply bfilter_elem in Hz as [Hz _].
Qed.
Lemma added_ascending x l : ascending l -> x ∉ l -> ascending (sort_z (l ++ [x])).
Proof.
  intros Hl Hx. assert (Hs : StronglySorted (fun a b => Z.leb a b = true) (sort_z (l ++ [x]))).
  { apply sort_by_sorted; intros *; rewrite ?Z.leb_gt, ?Z.leb_le; lia. }
  assert (Hd : NoDup (sort_z (l ++ [x]))).
  { unfold sort_z. rewrite sort_by_perm, Permutation_app_comm. simpl.
    constructor; [done|by apply ascending_NoDup]. }
  induction Hs as [|y k Hk IH Hy]; [constructor|]. apply NoDup_cons in Hd as [Hn Hd].
  constructor; [by apply IH|]. rewrite Forall_forall in Hy. rewrite Forall_forall. intros z Hz.
  specialize (Hy z Hz). simpl in Hy. apply Z.leb_le in Hy.
  destruct (decide (y = z)) as [->|]; [done|lia].
Qed.

(** Adding a value that is not there, removing one that is. *)
Definition toggled_list (x : Z) (l : list Z) : list Z :=
  if zmem x l then without x l else sort_z (l ++ [x]).
Lemma toggled_elem x y l : y ∈ toggled_list x l <-> (if decide (y = x) then y ∉ l else y ∈ l).
Proof.
  unfold toggled_list. destruct (zmem x l) eqn:E.
  - apply zmem_elem in E. rewrite without_elem. destruct (decide (y = x)) as [->|]; tauto.
  - assert (x ∉ l) by (intros H%zmem_elem; congruence).
    unfold sort_z. rewrite sort_by_elem, elem_of_app, list_elem_of_singleton.
    destruct (decide (y = x)) as [->|]; tauto.
Qed.
Lemma toggled_ascending x l : ascending l -> ascending (toggled_list x l).
Proof.
  intros H. unfold toggled_list. destruct (zmem x l) eqn:E; [by apply without_ascending|].
  apply added_ascending; [done|]. intros Hx%zmem_elem. congruence.
Qed.
Lemma toggled_twice x l : ascending l -> toggled_list x (toggled_list x l) = l.
Proof.
  intros H. apply ascending_eq; [by do 2 apply toggled_ascending|done|].
  intros y. rewrite toggled_elem. destruct (decide (y = x)) as [->|Hne].
  - rewrite toggled_elem, decide_True by done. destruct (decide (x ∈ l)); tauto.
  - by rewrite toggled_elem, decide_False.
Qed.

(** A line and the regions in force: covered by a folded region that starts
    above it. *)
Definition covered (p : Props) (s : State) (ls : list CodeBlockLine) (l : CodeBlockLine) : Prop :=
  exists start r, start ∈ folded p s /\ fold_start (foldRegions p ls) start = Some r /\
    (r_start r < number l - p_startLine p + 1 <= r_end r)%Z.

Lemma line_range_elem a b x : x ∈ line_range a b <-> (a <= x <= b)%Z.
Proof.
  unfold line_range. rewrite list_elem_of_fmap. split.
  - intros (i & -> & Hi). apply elem_of_seq in Hi. lia.
  - intros H. exists (Z.to_nat (x - a)). split; [lia|]. apply elem_of_seq. lia.
Qed.

Lemma rendered_elem p s ls l : p_foldable p = true ->
  l ∈ renderedLines p s ls <-> l ∈ ls /\ ~ covered p s ls l.
Proof.
  intros Hf. unfold renderedLines, covered. rewrite Hf. cbn [negb orb].
  destruct (Nat.eqb_spec (length (folded p s)) 0) as [E|E].
  { apply length_zero_iff_nil in E. rewrite E. split; [|by intros []]. intros H. split; [done|].
    by intros (? & ? & ?%elem_of_nil & _). }
  rewrite bfilter_elem, negb_true_iff, <-not_true_iff_false, zmem_elem, elem_of_flat_map.
  apply and_iff_compat_l, not_iff_compat. unfold hidden_by. split.
  - intros (start & Hs & Hx). exists start. destruct (fold_start _ start) as [r|] eqn:Er; [|by apply elem_of_nil in Hx].
    exists r. split_and!; [done|done| |]; apply list_elem_of_fmap in Hx as (n & E' & Hn%line_range_elem); lia.
  - intros (start & r & Hs & Er & Hx). exists start. split; [done|]. rewrite Er.
    apply list_elem_of_fmap. exists (number l - p_startLine p + 1)%Z. split; [lia|].
    apply line_range_elem. lia.
Qed.

Definition with_folded (s : State) (f : list Z) : State :=
  mkState (internalWrap s) (internalExpanded s) (internalSelected s) (lastSelected s) f.
Lemma toggleFold_free p s start : p_folded p = None ->
  (toggleFold p s start).1 = with_folded s (toggled_list start (internalFolded s)).
Proof. intros Hp. unfold toggleFold, commitFolded, folded. by rewrite Hp. Qed.

(** Folding hides exactly the lines some folded region covers below its
    first, in the order they were; toggling a fold changes that region alone,
    and toggling it again brings back what was there, inner folds included. *)
Theorem fold_hides_what_it_covers (p : Props) (s : State) (ls : list CodeBlockLine) (start : Z) :
  p_foldable p = true -> p_folded p = None -> ascending (internalFolded s) ->
  let s1 := (toggleFold p s start).1 in
  let s2 := (toggleFold p s1 start).1 in
  (forall l, l ∈ renderedLines p s ls <-> l ∈ ls /\ ~ covered p s ls l) /\
  (forall x, x ∈ folded p s1 <-> (if decide (x = start) then x ∉ folded p s else x ∈ folded p s)) /\
  ascending (folded p s1) /\ s2 = s.
Proof.
  intros Hf Hp Ha s1 s2. subst s1 s2. rewrite !toggleFold_free by done. cbn [fst internalFolded].
  unfold folded. rewrite Hp. cbn [from_option internalFolded]. split_and!.
  - intros l. by apply rendered_elem.
  - intros x. apply toggled_elem.
  - by apply toggled_ascending.
  - cbn [with_folded internalFolded]. rewrite toggled_twice by done. by destruct s.
Qed.

Definition fold_props : Props := mkCBProps None None None None true None None 1.
Definition fold_sample : State := mkState false false [] None [2%Z].
Lemma fold_hides_what_it_covers_witness :
  map number (renderedLines fold_props fold_sample outline_sample) = [1; 2; 5; 6]%Z /\
  (toggleFold fold_props (toggleFold fold_props fold_sample 1).1 1).1 = fold_sample.
Proof.
  split; [reflexivity|].
  apply (fold_hides_what_it_covers fold_props fold_sample outline_sample 1);
    [reflexivity|reflexivity|repeat constructor].
Defined.

(** The lines a block starts with stay ascending under every selection. *)
Lemma selection_ascending p s line extend :
  p_selectedLines p = None -> ascending (internalSelected s) ->
  ascending (internalSelected (toggleLine p s line extend).1).
Proof.
  intros Hp Ha. unfold toggleLine, commitSelection, selection. rewrite Hp. cbn [from_option].
  assert (Ht : ascending (toggled_list line (internalSelected s))) by by apply toggled_ascending.
  destruct extend; [destruct (lastSelected s) as [a|]|]; cbn [fst internalSelected]; try exact Ht.
  unfold line_range. generalize (Z.min a line). intros from. generalize (Z.to_nat (Z.max a line - from + 1)).
  intros n. assert (H : forall k, ascending (map (fun i => from + Z.of_nat i)%Z (seq k n))).
  { induction n as [|n IH]; intros k; [constructor|]. simpl. constructor; [apply IH|].
    rewrite Forall_map, Forall_forall. intros i Hi%elem_of_seq. lia. }
  apply H.
Qed.

(** ** The keyboard *)

Lemma find_index_range {A} (p : A -> bool) l :
  (-1 <= find_index p l < Z.of_nat (length l))%Z.
Proof.
  induction l as [|x l IH]; simpl; [lia|]. destruct (p x); [lia|].
  destruct (find_index p l <? 0)%Z eqn:E; [lia|]. apply Z.ltb_ge in E. lia.
Qed.

Lemma line_number_rendered ls i startLine : ls <> [] -> (0 <= i < Z.of_nat (length ls))%Z ->
  exists l, l ∈ ls /\ line_number ls i startLine = number l.
Proof.
  intros Hn Hi. unfold line_number. destruct (Z.ltb_spec i 0); [lia|].
  destruct (nth_error ls (Z.to_nat i)) as [l|] eqn:E.
  - exists l. split; [|done]. by apply list_elem_of_In, (nth_error_In _ _ E).
  - apply nth_error_None in E. lia.
Qed.

(** The active line after a movement is one that is rendered, folds or not. *)
Lemma keyboard_stays_rendered ls startLine active k shift p :
  ls <> [] -> k = KDown \/ k = KUp \/ k = KHome \/ k = KEnd ->
  handleKeyDown true ls startLine active k shift = p ->
  exists l, l ∈ ls /\ active' p = Some (number l) /\
    (forall n extend, toggled p = Some (n, extend) -> n = number l - startLine + 1)%Z.
Proof.
  intros Hn Hk <-. assert (Hlen : (0 < Z.of_nat (length ls))%Z) by (destruct ls; [done|simpl; lia]).
  assert (H : exists l, l ∈ ls /\ move_target ls active startLine k = number l).
  { unfold move_target. pose proof (find_index_range (fun l => bool_decide (Some (number l) = active)) ls).
    set (j := find_index _ ls) in *.
    destruct Hk as [->|[->|[->| ->]]]; apply line_number_rendered; try done; try lia;
      destruct (Z.eqb_spec j (-1)); try lia; simpl; lia. }
  destruct H as (l & Hl & E). exists l.
  unfold handleKeyDown. cbn [negb]. cbv zeta.
  destruct Hk as [->|[->|[->| ->]]]; cbn [active' toggled]; rewrite E; split_and!; try done;
    destruct shift; intros n e; try done; by intros [= <- <-].
Qed.
