(* ===== verification/FilterDate.v ===== *)
(** * Dates in a filter

    [packages/ui/src/components/reui/filters/filters-date.tsx]: the value of a
    date filter, which keeps a relative phrase relative, the phrases a person
    may type, and the wording a value is shown with.  The calendar is
    date-fns, an interface here. *)
From S2P Require Import Prelude JsString JsValue CodeText.

(** ** The calendar *)

(** An offset is an integral double; [Infinite] is what a phrase with more than
    308 digits gives. *)
Inductive Offset := Finite (z : Z) | Infinite (past : bool).

(** A [Date] and the functions of date-fns; an invalid date is a date. *)
Class Calendar (D : Type) := {
  startOfDay : D -> D;
  addDays : D -> Offset -> D;
  addWeeks : D -> Offset -> D;
  addMonths : D -> Offset -> D;
  addYears : D -> Offset -> D;
  (** [format(date, pattern)], [parse(text, pattern, now)], [isValid(date)]. *)
  format : D -> string -> string;
  parse : string -> string -> D -> D;
  isValid : D -> bool;
  (** [date.getDay()], Sunday first. *)
  getDay : D -> Z
}.
(** What the calendar promises: days of the week go round. *)
Class CalendarLaws (D : Type) `{!Calendar D} := {
  getDay_range d : (0 <= getDay d < 7)%Z;
  getDay_add d k : getDay (addDays d (Finite k)) = ((getDay d + k) mod 7)%Z
}.

(** ** Values *)
Inductive DateUnit := UDay | UWeek | UMonth | UYear.
#[export] Instance DateUnit_eq_dec : EqDecision DateUnit.
Proof. solve_decision. Defined.

Record FilterRelativeDate := mkRelative { unit : DateUnit; offset : Offset }.
Record FilterDateValue := mkDateValue {
  v_date : option string;
  v_relative : option FilterRelativeDate;
  v_time : option string
}.
Definition relative_value (u : DateUnit) (o : Offset) : FilterDateValue :=
  mkDateValue None (Some (mkRelative u o)) None.

Definition FILTER_DATE_FORMAT : string := "yyyy-MM-dd".
Definition RELATIVE_TODAY : FilterRelativeDate := mkRelative UDay (Finite 0).
Definition RELATIVE_TOMORROW : FilterRelativeDate := mkRelative UDay (Finite 1).
Definition RELATIVE_YESTERDAY : FilterRelativeDate := mkRelative UDay (Finite (-1)).
Definition RELATIVE_NEXT_WEEK : FilterRelativeDate := mkRelative UWeek (Finite 1).

Definition unit_name (u : DateUnit) : string :=
  match u with UDay => "day" | UWeek => "week" | UMonth => "month" | UYear => "year" end.
Definition unit_of (s : string) : option DateUnit :=
  js_find (fun u => String.eqb (unit_name u) s) [UDay; UWeek; UMonth; UYear].

Definition WEEKDAYS : list string :=
  ["sunday"; "monday"; "tuesday"; "wednesday"; "thursday"; "friday"; "saturday"].
Definition EXPLICIT_FORMATS : list string :=
  ["yyyy-MM-dd"; "MM/dd/yyyy"; "M/d/yyyy"; "dd/MM/yyyy"; "MMMM d, yyyy"; "MMM d, yyyy";
   "MMMM d"; "MMM d"; "d MMMM yyyy"; "d MMM yyyy"].

(** [s.replace(/\s+/g, " ")] *)
Fixpoint collapse_spaces (s : string) : string :=
  match s with
  | EmptyString => ""
  | String c s' =>
      if is_space c
      then match s' with
           | String d _ => if is_space d then collapse_spaces s' else String " " (collapse_spaces s')
           | EmptyString => " "
           end
      else String c (collapse_spaces s')
  end.

Section Dates.
Context {D : Type} `{!Calendar D}.
(** [String(n)] of an integer beyond [2^53], where the digits are rounded. *)
Context (show_big : Z -> string).

Definition show_offset (z : Z) : string := if (z <? 2 ^ 53)%Z then show_Z z else show_big z.

(** ** Reading a value *)

Definition applyFilterRelative (r : FilterRelativeDate) (now : D) : D :=
  let base := startOfDay now in
  match unit r with
  | UDay => addDays base (offset r)
  | UWeek => addWeeks base (offset r)
  | UMonth => addMonths base (offset r)
  | UYear => addYears base (offset r)
  end.

Definition resolveFilterDate (value : option FilterDateValue) (now : D) : option D :=
  match value with
  | None => None
  | Some v =>
      match v_relative v with
      | Some r => Some (applyFilterRelative r now)
      | None =>
          match v_date v with
          | Some (String _ _ as date) =>
              let parsed := parse date FILTER_DATE_FORMAT now in
              if isValid parsed then Some parsed else None
          | _ => None
          end
      end
  end.

Definition toFilterDateValue (date : D) (time : option string) : FilterDateValue :=
  mkDateValue (Some (format date FILTER_DATE_FORMAT)) None
    (if truthy_str time then time else None).

(** ** Typed phrases *)
Definition phrase (text : string) : string := collapse_spaces (to_lower (trim text)).

(** [/^(next|last|this) (day|week|month|year)$/] *)
Definition match_next (words : list string) : option FilterRelativeDate :=
  match words with
  | [q; u] =>
      match unit_of u with
      | Some u =>
          if String.eqb q "next" then Some (mkRelative u (Finite 1))
          else if String.eqb q "last" then Some (mkRelative u (Finite (-1)))
          else if String.eqb q "this" then Some (mkRelative u (Finite 0)) else None
      | None => None
      end
  | _ => None
  end.

(** [(day|week|month|year)s?] *)
Definition plural_unit (s : string) : option DateUnit :=
  match unit_of s with
  | Some u => Some u
  | None => js_find (fun u => String.eqb (unit_name u +:+ "s") s) [UDay; UWeek; UMonth; UYear]
  end.
Definition all_digits (s : string) : bool := negb (String.eqb s "") && str_forall is_digit s.
(** [/^(?:in )?(\d+) (day|week|month|year)s?(?: ago)?$/], then [endsWith("ago")] *)
Definition match_counted (words : list string) : option FilterRelativeDate :=
  let words' := match words with
                | w :: rest => if String.eqb w "in" then rest else words
                | [] => []
                end in
  match words' with
  | d :: u :: rest =>
      let ago := bool_decide (rest = ["ago"]) in
      match plural_unit u with
      | Some u =>
          if all_digits d && (bool_decide (rest = []) || ago)
          then Some (mkRelative u
                 (match digits_number d with
                  | Some n => Finite (if ago then - n else n)
                  | None => Infinite ago
                  end))
          else None
      | None => None
      end
  | _ => None
  end.

(** [/^(?:(next|last|this) )?([a-z]+)$/], then the weekday it names. *)
Definition match_weekday (words : list string) : option (option string * Z) :=
  let known w := let i := find_index (String.eqb w) WEEKDAYS in
                 if Z.eqb i (-1) then None else Some i in
  match words with
  | [w] => pair None <$> known w
  | [q; w] =>
      if String.eqb q "next" || String.eqb q "last" || String.eqb q "this"
      then pair (Some q) <$> known w else None
  | _ => None
  end.
Definition weekday_delta (index current : Z) (qualifier : option string) : Z :=
  let delta := (index - current)%Z in
  if bool_decide (qualifier = Some "last")
  then if (0 <=? delta)%Z then (delta - 7)%Z else delta
  else if (delta <=? 0)%Z then (delta + 7)%Z else delta.

(** The first of the explicit formats that reads the text. *)
Fixpoint match_explicit (input : string) (now : D) (formats : list string)
    : option FilterDateValue :=
  match formats with
  | [] => None
  | pattern :: rest =>
      let parsed := parse input pattern now in
      if isValid parsed then Some (toFilterDateValue parsed None)
      else match_explicit input now rest
  end.

Definition parseFilterDate (text : string) (now : D) : option FilterDateValue :=
  let input := phrase text in
  let words := split_char " " input in
  let relative r := Some (mkDateValue None (Some r) None) in
  if String.eqb input "" then None
  else if String.eqb input "today" || String.eqb input "now" then relative RELATIVE_TODAY
  else if String.eqb input "tomorrow" then relative RELATIVE_TOMORROW
  else if String.eqb input "yesterday" then relative RELATIVE_YESTERDAY
  else
    match match_next words with
    | Some r => relative r
    | None =>
        match match_counted words with
        | Some r => relative r
        | None =>
            match match_weekday words with
            | Some (qualifier, index) =>
                relative (mkRelative UDay
                  (Finite (weekday_delta index (getDay (startOfDay now)) qualifier)))
            | None => match_explicit input now EXPLICIT_FORMATS
            end
        end
    end.

(** ** Wording *)
Definition relative_wording (r : FilterRelativeDate) : string :=
  let name := unit_name (unit r) in
  match offset r with
  | Infinite past => if past then "Infinity " +:+ name +:+ "s ago" else "in Infinity " +:+ name +:+ "s"
  | Finite z =>
      if bool_decide (unit r = UDay) && Z.eqb z 0 then "today"
      else if bool_decide (unit r = UDay) && Z.eqb z 1 then "tomorrow"
      else if bool_decide (unit r = UDay) && Z.eqb z (-1) then "yesterday"
      else
        let plural := if Z.eqb (Z.abs z) 1 then name else name +:+ "s" in
        if (0 <? z)%Z then "in " +:+ show_offset z +:+ " " +:+ plural
        else if (z <? 0)%Z then show_offset (Z.abs z) +:+ " " +:+ plural +:+ " ago"
        else "this " +:+ name
  end.

Definition formatFilterDate (value : option FilterDateValue) (now : D) (pattern : option string)
    : string :=
  match value with
  | None => ""
  | Some v =>
      match v_relative v with
      | Some r => relative_wording r
      | None =>
          match resolveFilterDate value now with
          | None => ""
          | Some resolved =>
              let day := format resolved (pattern ?? "MMM d, yyyy") in
              match v_time v with
              | Some (String _ _ as time) => day +:+ " " +:+ time
              | _ => day
              end
          end
      end
  end.
End Dates.

(** [/^([01]\d|2[0-3]):[0-5]\d$/] *)
Definition isFilterTime (time : string) : bool :=
  match time with
  | String a (String b (String ":" (String c (String d EmptyString)))) =>
      let n x := Ascii.nat_of_ascii x - 48 in
      is_digit a && is_digit b && is_digit c && is_digit d &&
      (Nat.leb (n a) 1 || (Nat.eqb (n a) 2 && Nat.leb (n b) 3)) && Nat.leb (n c) 5
  | _ => false
  end.
