(* ===== verification/DateSelector.v ===== *)
(** * The date selector

    [packages/ui/src/components/reui/date-selector.tsx]: the value a selection
    stands for and the text it is shown with; the hook [useDateSelector] with
    its clicks, its period and filter changes; what the input reads; and the
    loop between the selector's effects and the component that holds its
    value.  A [Date] and the functions of date-fns are an interface here. *)
From S2P Require Import Prelude JsString.

(** ** The calendar *)

(** A [Date] object, compared by identity, and what the code asks of it. *)
Class DateFns (D : Type) := {
  date_eq_dec :: EqDecision D;
  isBefore : D -> D -> bool;
  (** [format(date, pattern)]; [parse(text, pattern, now)], [None] where it is
      invalid or throws. *)
  formatDate : D -> string -> string;
  parseDate : string -> string -> option D;
  isSameMonth : D -> D -> bool;
  subMonths : D -> nat -> D;
  addMonths : D -> nat -> D;
  getDay : D -> nat;
  getMonth : D -> nat;
  getFullYear : D -> Z
}.
(** What the theorems rely on: two dates are not each before the other. *)
Class DateFnsLaws (D : Type) `{!DateFns D} := {
  isBefore_asym a b : isBefore a b = true -> isBefore b a = false
}.

(** ** Values *)
Inductive PeriodType := PDay | PMonth | PQuarter | PHalfYear | PYear.
Inductive FilterType := FIs | FBefore | FAfter | FBetween.
#[export] Instance PeriodType_eq_dec : EqDecision PeriodType.
Proof. solve_decision. Defined.
#[export] Instance FilterType_eq_dec : EqDecision FilterType.
Proof. solve_decision. Defined.

(** [{ year, value }], an object with an identity. *)
Record PeriodPoint := mkPoint { pp_id : nat; pp_year : Z; pp_value : Z }.
#[export] Instance PeriodPoint_eq_dec : EqDecision PeriodPoint.
Proof. solve_decision. Defined.
Definition point_key (p : PeriodPoint) : Z := (pp_year p * 100 + pp_value p)%Z.

Record I18n := mkI18n {
  months : list string; monthsShort : list string; quarters : list string;
  halfYears : list string; weekdays : list string; weekdaysShort : list string;
  filterTypes : FilterType -> string; periodTypeNames : PeriodType -> string
}.
Definition DEFAULT_DATE_SELECTOR_I18N : I18n :=
  mkI18n
    ["January"; "February"; "March"; "April"; "May"; "June"; "July"; "August"; "September";
     "October"; "November"; "December"]
    ["Jan"; "Feb"; "Mar"; "Apr"; "May"; "Jun"; "Jul"; "Aug"; "Sep"; "Oct"; "Nov"; "Dec"]
    ["Q1"; "Q2"; "Q3"; "Q4"] ["H1"; "H2"]
    ["Sunday"; "Monday"; "Tuesday"; "Wednesday"; "Thursday"; "Friday"; "Saturday"]
    ["Su"; "Mo"; "Tu"; "We"; "Th"; "Fr"; "Sa"]
    (fun f => match f with FIs => "is" | FBefore => "before" | FAfter => "after"
                         | FBetween => "between" end)
    (fun p => match p with PDay => "Day" | PMonth => "Month" | PQuarter => "Quarter"
                         | PHalfYear => "Half-year" | PYear => "Year" end).

(** [`${labels[index]}`] *)
Definition label_at (labels : list string) (index : Z) : string :=
  if (index <? 0)%Z then "undefined" else labels !! Z.to_nat index ?? "undefined".

Section Selector.
Context {D : Type} `{!DateFns D}.

Record DateSelectorValue := mkValue {
  period : PeriodType; operator : FilterType;
  startDate : option D; endDate : option D;
  year : option Z; month : option Z; quarter : option Z; halfYear : option Z;
  v_rangeStart : option PeriodPoint; v_rangeEnd : option PeriodPoint
}.
#[export] Instance DateSelectorValue_eq_dec : EqDecision DateSelectorValue.
Proof. solve_decision. Defined.

(** The three periods that name a part of the year. *)
Definition format_part (labels : list string) (year part : option Z)
    (rangeStart rangeEnd : option PeriodPoint) : string :=
  let at_ i y := (label_at labels i ++ " " ++ show_Z y)%string in
  match rangeStart, rangeEnd with
  | Some s, Some e => (at_ (pp_value s) (pp_year s) ++ " - " ++ at_ (pp_value e) (pp_year e))%string
  | _, _ => match year, part with Some y, Some i => at_ i y | _, _ => "" end
  end.
Definition formatDateValue (v : DateSelectorValue) (i18n : I18n) (dayDateFormat : string)
    : string :=
  match period v with
  | PDay =>
      match startDate v, endDate v with
      | Some s, Some e => (formatDate s dayDateFormat ++ " - " ++ formatDate e dayDateFormat)%string
      | Some s, None => formatDate s dayDateFormat
      | None, _ => ""
      end
  | PMonth => format_part (monthsShort i18n) (year v) (month v) (v_rangeStart v) (v_rangeEnd v)
  | PQuarter => format_part (quarters i18n) (year v) (quarter v) (v_rangeStart v) (v_rangeEnd v)
  | PHalfYear => format_part (halfYears i18n) (year v) (halfYear v) (v_rangeStart v) (v_rangeEnd v)
  | PYear =>
      match v_rangeStart v, v_rangeEnd v, year v with
      | Some s, Some e, _ => (show_Z (pp_year s) ++ " - " ++ show_Z (pp_year e))%string
      | _, _, Some y => show_Z y
      | _, _, None => ""
      end
  end.

(** ** The hook *)
Record SelectorOptions := mkSelectorOptions {
  o_defaultPeriodType : PeriodType; o_defaultFilterType : FilterType;
  o_presetMode : option FilterType; o_allowRange : bool;
  o_yearRange : Z; o_baseYear : option Z; o_minYear : option Z; o_maxYear : option Z;
  o_periodTypes : option (list PeriodType)
}.
Record Selector := mkSelector {
  periodType : PeriodType; filterType : FilterType;
  selectedDate : option D; selectedEndDate : option D;
  selectedYear : option Z; selectedMonth : option Z; selectedQuarter : option Z;
  selectedHalfYear : option Z;
  rangeStart : option PeriodPoint; rangeEnd : option PeriodPoint
}.
#[export] Instance Selector_eq_dec : EqDecision Selector.
Proof. solve_decision. Defined.

Definition validDefaultPeriodType (o : SelectorOptions) : PeriodType :=
  match o_periodTypes o with
  | None | Some [] => o_defaultPeriodType o
  | Some (first :: _ as types) =>
      if bool_decide (o_defaultPeriodType o ∈ types) then o_defaultPeriodType o else first
  end.

(** The options [DateSelector] hands to the hook, from its own props. *)
Definition component_options (defaultPeriodType : option PeriodType)
    (defaultFilterType presetMode : option FilterType) (allowRange : option bool)
    (yearRange baseYear minYear maxYear : option Z) (periodTypes : option (list PeriodType))
    : SelectorOptions :=
  mkSelectorOptions (defaultPeriodType ?? PDay) (defaultFilterType ?? FIs) presetMode (allowRange ?? true)
    (yearRange ?? 10%Z) baseYear (Some (minYear ?? 2015%Z)) (Some (maxYear ?? 2026%Z)) periodTypes.

(** [Array.from({ length }, (_, i) => first + i)]; a negative length is none. *)
Definition numbers_from (first length : Z) : list Z :=
  map (fun i => (first + Z.of_nat i)%Z) (seq 0 (Z.to_nat length)).
Definition years (o : SelectorOptions) (thisYear : Z) : list Z :=
  match o_minYear o, o_maxYear o with
  | Some lo, Some hi => numbers_from lo (hi - lo + 1)
  | _, _ => numbers_from ((o_baseYear o ?? thisYear) - o_yearRange o / 2) (o_yearRange o)
  end.

Definition currentValue (o : SelectorOptions) (s : Selector) : DateSelectorValue :=
  mkValue (periodType s) (o_presetMode o ?? filterType s) (selectedDate s) (selectedEndDate s)
    (selectedYear s) (selectedMonth s) (selectedQuarter s) (selectedHalfYear s)
    (rangeStart s) (rangeEnd s).

(** [useState] on mount. *)
Definition initial (o : SelectorOptions) (v : option DateSelectorValue) : Selector :=
  mkSelector ((period <$> v) ?? validDefaultPeriodType o)
    (o_presetMode o ?? ((operator <$> v) ?? o_defaultFilterType o))
    (v ≫= startDate) (v ≫= endDate) (v ≫= year) (v ≫= month) (v ≫= quarter) (v ≫= halfYear)
    (v ≫= v_rangeStart) (v ≫= v_rangeEnd).
(** The effect that follows the [value] prop. *)
Definition sync (o : SelectorOptions) (v : DateSelectorValue) : Selector :=
  mkSelector (period v) (o_presetMode o ?? operator v) (startDate v) (endDate v)
    (year v) (month v) (quarter v) (halfYear v) (v_rangeStart v) (v_rangeEnd v).

Definition clearSelection (s : Selector) : Selector :=
  mkSelector (periodType s) (filterType s) None None None None None None None None.

Definition with_days (s : Selector) (start endd : option D) : Selector :=
  mkSelector (periodType s) (filterType s) start endd (selectedYear s) (selectedMonth s)
    (selectedQuarter s) (selectedHalfYear s) (rangeStart s) (rangeEnd s).
Definition with_range (s : Selector) (start endd : option PeriodPoint) : Selector :=
  mkSelector (periodType s) (filterType s) (selectedDate s) (selectedEndDate s) (selectedYear s)
    (selectedMonth s) (selectedQuarter s) (selectedHalfYear s) start endd.
Definition with_year (s : Selector) (y : Z) : Selector :=
  mkSelector (periodType s) (filterType s) (selectedDate s) (selectedEndDate s) (Some y)
    (selectedMonth s) (selectedQuarter s) (selectedHalfYear s) (rangeStart s) (rangeEnd s).
(** [setSelectedMonth], [setSelectedQuarter] or [setSelectedHalfYear]. *)
Definition with_part (s : Selector) (i : Z) : Selector :=
  mkSelector (periodType s) (filterType s) (selectedDate s) (selectedEndDate s) (selectedYear s)
    (match periodType s with PMonth => Some i | _ => selectedMonth s end)
    (match periodType s with PQuarter => Some i | _ => selectedQuarter s end)
    (match periodType s with PHalfYear => Some i | _ => selectedHalfYear s end)
    (rangeStart s) (rangeEnd s).

Definition picks_range (o : SelectorOptions) (s : Selector) : bool :=
  bool_decide (filterType s = FBetween) && o_allowRange o.

Definition handleDayClick (o : SelectorOptions) (day : D) (s : Selector) : Selector :=
  if picks_range o s then
    match selectedDate s, selectedEndDate s with
    | Some start, None =>
        if isBefore day start then with_days s (Some day) (Some start)
        else with_days s (Some start) (Some day)
    | _, _ => with_days s (Some day) None
    end
  else with_days s (Some day) None.

(** [id] is the identity of the object the click makes. *)
Definition handlePeriodSelect (o : SelectorOptions) (id : nat) (y i : Z) (s : Selector) : Selector :=
  let point := mkPoint id y i in
  if picks_range o s then
    match rangeStart s, rangeEnd s with
    | Some start, None =>
        if (point_key point <? point_key start)%Z then with_range s (Some point) (Some start)
        else with_range s (Some start) (Some point)
    | _, _ => with_part (with_year (with_range s (Some point) None) y) i
    end
  else with_range (with_part (with_year s y) i) None None.

Definition handleYearSelect (o : SelectorOptions) (id : nat) (y : Z) (s : Selector) : Selector :=
  let point := mkPoint id y 0 in
  if picks_range o s then
    match rangeStart s, rangeEnd s with
    | Some start, None =>
        if (y <? pp_year start)%Z then with_range s (Some point) (Some start)
        else with_range s (Some start) (Some point)
    | _, _ => with_year (with_range s (Some point) None) y
    end
  else with_range (with_year s y) None None.

Definition handlePeriodTypeChange (type : PeriodType) (s : Selector) : Selector :=
  clearSelection (mkSelector type (filterType s) (selectedDate s) (selectedEndDate s)
    (selectedYear s) (selectedMonth s) (selectedQuarter s) (selectedHalfYear s) (rangeStart s)
    (rangeEnd s)).
Definition handleFilterTypeChange (o : SelectorOptions) (type : FilterType) (s : Selector) : Selector :=
  match o_presetMode o with
  | Some _ => s
  | None => clearSelection (mkSelector (periodType s) type (selectedDate s) (selectedEndDate s)
      (selectedYear s) (selectedMonth s) (selectedQuarter s) (selectedHalfYear s) (rangeStart s)
      (rangeEnd s))
  end.

Definition isInRange (s : Selector) (y i : Z) : bool :=
  match rangeStart s, rangeEnd s with
  | Some a, Some b => (point_key a <=? y * 100 + i)%Z && (y * 100 + i <=? point_key b)%Z
  | _, _ => false
  end.
Definition isYearInRange (s : Selector) (y : Z) : bool :=
  match rangeStart s, rangeEnd s with
  | Some a, Some b => (pp_year a <=? y)%Z && (y <=? pp_year b)%Z
  | _, _ => false
  end.

(** What a person does to the selector. *)
Inductive Click :=
  | ClickDay (day : D)
  | ClickPeriod (id : nat) (y i : Z)
  | ClickYear (id : nat) (y : Z)
  | ChangePeriodType (type : PeriodType)
  | ChangeFilterType (type : FilterType)
  | ClearAll.
Definition click (o : SelectorOptions) (s : Selector) (c : Click) : Selector :=
  match c with
  | ClickDay day => handleDayClick o day s
  | ClickPeriod id y i => handlePeriodSelect o id y i s
  | ClickYear id y => handleYearSelect o id y s
  | ChangePeriodType type => handlePeriodTypeChange type s
  | ChangeFilterType type => handleFilterTypeChange o type s
  | ClearAll => clearSelection s
  end.

(** ** The view *)

(** [DateSelectorPeriodTabs] and [DateSelectorFilterToggle]. *)
Definition period_tabs (o : SelectorOptions) : list PeriodType :=
  let tabs := [PDay; PMonth; PQuarter; PHalfYear; PYear] in
  match o_periodTypes o with
  | Some types => bfilter (fun tab => bool_decide (tab ∈ types)) tabs
  | None => tabs
  end.
Definition filter_tabs (o : SelectorOptions) : list FilterType :=
  [FIs; FBefore; FAfter] ++ (if o_allowRange o then [FBetween] else []).

(** The day view's buttons: the way back to today, [true] when the calendar is
    in the future, and the months before and after. *)
Definition today_button (calendarMonth today : D) : option bool :=
  if isSameMonth calendarMonth today then None else Some (isBefore today calendarMonth).

(** What the calendar is told is selected, and what its answer clicks. *)
Inductive Picked := PickNothing | PickDate (d : D) | PickRange (from to : option D).
Definition picker_selected (isRange : bool) (s : Selector) (hoverDate : option D) : Picked :=
  if isRange then
    match selectedDate s, selectedEndDate s with
    | Some a, Some b => PickRange (Some a) (Some b)
    | Some a, None => PickRange (Some a) (Some (hoverDate ?? a))
    | None, _ => PickNothing
    end
  else match selectedDate s with Some d => PickDate d | None => PickNothing end.
Definition handleSelect (isRange : bool) (date : Picked) : option D :=
  match isRange, date with
  | true, PickRange (Some from) None => Some from
  | true, PickRange (Some _) (Some to) => Some to
  | false, PickDate d => Some d
  | _, _ => None
  end.
Definition formatWeekdayName (i18n : I18n) (d : D) : option string :=
  match weekdaysShort i18n !! getDay d with
  | Some (String _ _ as short) => Some short
  | _ => weekdays i18n !! getDay d
  end.
Definition formatMonthCaption (i18n : I18n) (d : D) : string :=
  (label_at (months i18n) (Z.of_nat (getMonth d)) ++ " " ++ show_Z (getFullYear d))%string.

(** A button of the grid: filled, tinted as inside the range, or plain. *)
Inductive Tint := Filled | InRange | Plain.
Definition point_at (p : option PeriodPoint) (y i : Z) : bool :=
  match p with Some p => Z.eqb (pp_year p) y && Z.eqb (pp_value p) i | None => false end.
Definition grid_tint (s : Selector) (part : option Z) (y i : Z) : Tint :=
  let isSelected := bool_decide (selectedYear s = Some y) && bool_decide (part = Some i) in
  if isSelected || point_at (rangeStart s) y i || point_at (rangeEnd s) y i then Filled
  else if isInRange s y i then InRange else Plain.
Definition year_at (p : option PeriodPoint) (y : Z) : bool :=
  match p with Some p => Z.eqb (pp_year p) y | None => false end.
Definition year_tint (s : Selector) (y : Z) : Tint :=
  let isSelected := bool_decide (selectedYear s = Some y) &&
    bool_decide (rangeStart s = None) && bool_decide (rangeEnd s = None) in
  if isSelected || year_at (rangeStart s) y || year_at (rangeEnd s) y then Filled
  else if isYearInRange s y then InRange else Plain.

(** ** The input *)
Definition dateFormats (dayDateFormat : string) (dayDateFormats : option (list string))
    : list string :=
  match dayDateFormats with
  | Some (_ :: _ as formats) =>
      if bool_decide (dayDateFormat ∈ formats) then formats else dayDateFormat :: formats
  | _ =>
      fold_left (fun seen f => if bool_decide (f ∈ seen) then seen else seen ++ [f])
        [dayDateFormat; "dd/MM/yyyy"; "yyyy-MM-dd"; "MM-dd-yyyy"; "dd-MM-yyyy"] []
  end.

(** [/^\d{4}$/], and [parseInt] of the match. *)
Definition read_year (text : string) : option Z :=
  if Nat.eqb (String.length text) 4 && str_forall is_digit text
  then Some (foldl (fun n c => n * 10 + Z.of_nat (nat_of_ascii c - 48))%Z 0%Z
               (String.list_ascii_of_string text))
  else None.
(** [/^Q([1-4])(?:\s+(\d{4}))?$/i] *)
Definition read_quarter (text : string) : option (Z * option Z) :=
  match text with
  | String q (String d rest) =>
      let n := (Z.of_nat (nat_of_ascii d) - 48)%Z in
      if (Ascii.eqb q "Q" || Ascii.eqb q "q") && (1 <=? n)%Z && (n <=? 4)%Z then
        match rest with
        | EmptyString => Some (n, None)
        | String c _ =>
            if is_space c then (fun y => (n, Some y)) <$> read_year (trim_start rest) else None
        end
      else None
  | _ => None
  end.
Definition year_ok (y : Z) : bool := (1900 <=? y)%Z && (y <=? 2100)%Z.

(** [mode] is [presetMode ?? filterType]. *)
Definition parseInputValue (mode : FilterType) (formats : list string) (thisYear : Z)
    (text : string) : option DateSelectorValue :=
  let trimmed := trim text in
  if String.eqb trimmed "" then None
  else
    let as_date :=
      head (omap (fun f => (fun d => mkValue PDay mode (Some d) None None None None None None None)
                             <$> parseDate trimmed f) formats) in
    let as_quarter :=
      match read_quarter trimmed with
      | Some (q, y) =>
          let y := y ?? thisYear in
          if year_ok y
          then Some (mkValue PQuarter mode None None (Some y) None (Some (q - 1)%Z) None None None)
          else as_date
      | None => as_date
      end in
    match read_year trimmed with
    | Some y =>
        if year_ok y then Some (mkValue PYear mode None None (Some y) None None None None None)
        else as_quarter
    | None => as_quarter
    end.

Record InputState := mkInput { inputValue : string; isInputFocused : bool }.
(** The effect: the text follows the value while nobody types. *)
Definition input_effect (displayValue : string) (i : InputState) : InputState :=
  if isInputFocused i then i else mkInput displayValue false.
(** The text and what [onChange] is told. *)
Definition handleInputChange (read : string -> option DateSelectorValue) (text : string)
    (i : InputState) : InputState * option DateSelectorValue :=
  (mkInput text (isInputFocused i), read text).
Definition handleInputBlur (read : string -> option DateSelectorValue) (displayValue : string)
    (i : InputState) : InputState :=
  mkInput (match read (inputValue i) with
           | Some _ => inputValue i
           | None => displayValue
           end) false.
End Selector.
Arguments DateSelectorValue D : clear implicits.
Arguments Selector D : clear implicits.

(** ** The selector and the component that holds its value

    One commit of React: the effects whose dependencies changed run in their
    order, and what they set is what the next render reads.  The parent takes
    every value it is told; with [inline] it passes a new [onChange] on every
    render of its own, otherwise the same one. *)
Section Loop.
Context {D : Type} `{!DateFns D}.

(** A value object, by its identity. *)
Record Obj := mkObj { ob_id : nat; ob_val : DateSelectorValue D }.
(** The [value] and [onChange] props, the hook's state, the memoised
    [currentValue], the identities used so far, and the dependencies the
    effects saw last. *)
Record Host := mkHost {
  h_value : option Obj; h_handler : nat;
  h_sel : Selector D; h_memo : Obj;
  h_fresh : nat;
  h_seen : option (option nat * nat * nat)
}.
Definition deps (h : Host) : option nat * nat * nat :=
  (ob_id <$> h_value h, h_handler h, ob_id (h_memo h)).
(** No effect has anything to do. *)
Definition settled (h : Host) : Prop := h_seen h = Some (deps h).

Definition memo_value (o : SelectorOptions) (h : Host) (s : Selector D) : Obj :=
  if bool_decide (s = h_sel h) then h_memo h else mkObj (h_fresh h) (currentValue o s).
Definition commit (o : SelectorOptions) (inline : bool) (h : Host) : Host :=
  let value_changed := negb (bool_decide (fst <$> (fst <$> h_seen h) = Some (ob_id <$> h_value h))) in
  let s := match h_value h with
           | Some v => if value_changed then sync o (ob_val v) else h_sel h
           | None => h_sel h
           end in
  let told := negb (bool_decide (
    (fun d => (d.1.2, d.2)) <$> h_seen h = Some (h_handler h, ob_id (h_memo h)))) in
  let value := if told then Some (h_memo h) else h_value h in
  let rerendered := negb (bool_decide (ob_id <$> value = ob_id <$> h_value h)) in
  mkHost value (if inline && rerendered then S (h_fresh h) else h_handler h) s
    (memo_value o h s) (S (S (h_fresh h))) (Some (deps h)).
Definition commits (o : SelectorOptions) (inline : bool) (n : nat) (h : Host) : Host :=
  Nat.iter n (commit o inline) h.

(** A click sets the hook's state; the parent setting a value re-renders it. *)
Definition clicked (o : SelectorOptions) (c : Click) (h : Host) : Host :=
  let s := click o (h_sel h) c in
  mkHost (h_value h) (h_handler h) s (memo_value o h s) (S (h_fresh h)) (h_seen h).
Definition given (inline : bool) (v : DateSelectorValue D) (h : Host) : Host :=
  mkHost (Some (mkObj (h_fresh h) v)) (if inline then S (h_fresh h) else h_handler h) (h_sel h)
    (h_memo h) (S (S (h_fresh h))) (h_seen h).
End Loop.
Arguments Obj D : clear implicits.
Arguments Host D : clear implicits.
