(* ===== verification/FilterDateLaws.v ===== *)
(** * The properties of date filters

    A relative value's wording, typed back, is that value; a typed weekday is
    an offset of at most a week that lands on it. *)
From S2P Require Import Prelude JsString JsValue CodeText CodeTextLaws FilterDate.
Open Scope nat_scope.

(** ** Tidy phrases *)

(** Words of lower-case letters and digits, one space between them. *)
Definition plain (c : ascii) : bool := is_lower c || is_digit c.
Definition word (w : string) : Prop := w <> "" /\ str_forall plain w = true.
Fixpoint tidy_rest (s : string) : bool :=
  match s with
  | EmptyString => true
  | String c s' =>
      (plain c || Ascii.eqb c " " && match s' with String d _ => plain d | EmptyString => false end)
      && tidy_rest s'
  end.
Definition tidy (s : string) : bool :=
  match s with String c _ => plain c && tidy_rest s | EmptyString => false end.

Lemma ascii_all (P : ascii -> bool) :
  forallb P (map Ascii.ascii_of_nat (seq 0 256)) = true -> forall c, P c = true.
Proof.
  intros H c. rewrite forallb_forall in H. apply H. apply in_map_iff.
  exists (Ascii.nat_of_ascii c). split; [apply Ascii.ascii_nat_embedding|].
  apply in_seq. pose proof (Ascii.nat_ascii_bounded c). lia.
Qed.
Lemma plain_spec c : plain c = true ->
  is_space c = false /\ lower_ascii c = c /\ Ascii.eqb " " c = false.
Proof.
  intros H.
  pose proof (ascii_all (fun c => negb (plain c) ||
    (negb (is_space c) && Ascii.eqb (lower_ascii c) c && negb (Ascii.eqb " " c))) ltac:(by vm_compute) c)
    as Hc. cbv beta in Hc. rewrite H in Hc. cbn [negb orb] in Hc. unbool.
  split_and!; [done|by apply Ascii.eqb_eq|done].
Qed.

Lemma trim_end_tidy s : tidy_rest s = true -> trim_end s = s.
Proof.
  induction s as [|c s IH]; [done|]. cbn [tidy_rest trim_end]. intros [Hc Hs]%andb_true_iff.
  rewrite (IH Hs). destruct s as [|d s]; [|done]. rewrite andb_false_r, orb_false_r in Hc.
  by destruct (plain_spec c Hc) as [-> _].
Qed.
Lemma collapse_tidy s : tidy_rest s = true -> collapse_spaces s = s.
Proof.
  induction s as [|c s IH]; [done|]. cbn [tidy_rest collapse_spaces]. intros [Hc Hs]%andb_true_iff.
  specialize (IH Hs). destruct (plain c) eqn:Ep; cbn [orb] in Hc.
  - destruct (plain_spec c Ep) as [-> _]. by rewrite IH.
  - apply andb_true_iff in Hc as [Hc Hd]. apply Ascii.eqb_eq in Hc. subst c.
    change (is_space " ") with true. cbn match. destruct s as [|d s]; [done|].
    destruct (plain_spec d Hd) as [-> _]. by rewrite IH.
Qed.
Lemma lower_tidy s : tidy_rest s = true -> to_lower s = s.
Proof.
  unfold to_lower. induction s as [|c s IH]; [done|]. cbn [tidy_rest str_map].
  intros [Hc Hs]%andb_true_iff. rewrite (IH Hs). destruct (plain c) eqn:Ep; cbn [orb] in Hc.
  - by destruct (plain_spec c Ep) as (_ & -> & _).
  - apply andb_true_iff in Hc as [Hc _]. apply Ascii.eqb_eq in Hc. by subst c.
Qed.
Lemma phrase_tidy s : tidy s = true -> phrase s = s.
Proof.
  intros Ht. unfold phrase, trim. destruct s as [|c s]; [done|]. unfold tidy in Ht.
  apply andb_true_iff in Ht as [Hc Hs]. cbn [trim_start]. destruct (plain_spec c Hc) as [-> _].
  by rewrite trim_end_tidy, lower_tidy, collapse_tidy.
Qed.

Lemma tidy_cons w s : word w -> tidy s = true -> tidy (w +:+ String " " s) = true.
Proof.
  intros [Hn Hw] Hs. assert (Hr : tidy_rest (w +:+ String " " s) = true).
  { clear Hn. induction w as [|c w IH]; cbn in *.
    - destruct s as [|d s]; [done|]. unfold tidy in Hs. by apply andb_true_iff in Hs as [-> ->].
    - apply andb_true_iff in Hw as [-> Hw]. cbn. by apply IH. }
  destruct w as [|c w]; [done|]. cbn in Hw. apply andb_true_iff in Hw as [Hc _].
  unfold tidy. cbn [String.append]. rewrite Hc. exact Hr.
Qed.
Lemma tidy_word w : word w -> tidy w = true.
Proof.
  intros [Hn Hw]. destruct w as [|c w]; [done|]. unfold tidy. cbn in Hw.
  apply andb_true_iff in Hw as [Hc Hw]. cbn. rewrite Hc. cbn. clear Hn Hc.
  induction w as [|d w IH]; [done|]. cbn in *. apply andb_true_iff in Hw as [-> Hw]. by apply IH.
Qed.
Lemma tidy_words ws : Forall word ws -> ws <> [] -> tidy (join " " ws) = true.
Proof.
  induction 1 as [|w ws Hw Hws IH]; [done|]. intros _. destruct ws as [|v ws].
  - by apply tidy_word.
  - rewrite join_cons2. apply tidy_cons; [done|]. by apply IH.
Qed.
Lemma word_lacks w : word w -> lacks " " w.
Proof.
  intros [_ Hw]. unfold lacks. induction w as [|c w IH]; [done|]. cbn [str_forall str_exists] in Hw |- *.
  apply andb_true_iff in Hw as [Hc Hw]. destruct (plain_spec c Hc) as (_ & _ & ->). by apply IH.
Qed.

(** ** Parsing tidy phrases *)
Section Dates.
Context {D : Type} `{!Calendar D}.
Context (show_big : Z -> string).

Lemma words_differ ws s : length (split_char " " s) <> length ws -> Forall word ws -> ws <> [] ->
  String.eqb (join " " ws) s = false.
Proof.
  intros Hl Hw Hn. apply String.eqb_neq. intros <-. apply Hl.
  change " " with (str1 " "). rewrite split_join; [done|done|].
  eapply Forall_impl; [exact Hw|apply word_lacks].
Qed.

Lemma parse_counted ws r (now : D) : Forall word ws -> 3 <= length ws ->
  match_counted ws = Some r ->
  parseFilterDate (join " " ws) now = Some (mkDateValue None (Some r) None).
Proof.
  intros Hw Hl Hm. unfold parseFilterDate. assert (Hn : ws <> []) by (by intros ->).
  rewrite phrase_tidy by (by apply tidy_words). cbv zeta.
  rewrite !words_differ by (cbn; done || lia). cbn [orb].
  change " " with (str1 " ") at 1 2. rewrite split_join;
    [|done|eapply Forall_impl; [exact Hw|apply word_lacks]].
  assert (Hx : match_next ws = None) by (destruct ws as [|? [|? [|? ?]]]; done || (cbn in Hl; lia)).
  by rewrite Hx, Hm.
Qed.

Lemma digits_word z : (0 <= z)%Z -> word (show_Z z) /\ all_digits (show_Z z) = true.
Proof.
  intros Hz. destruct (digits_show z Hz) as (n & _ & Hd & Hn). unfold word, all_digits.
  split; [split; [done|]|].
  - eapply str_forall_impl; [|exact Hd]. intros c Hc. unfold plain. by rewrite Hc, orb_true_r.
  - rewrite Hd, andb_true_r. apply negb_true_iff, String.eqb_neq. done.
Qed.
Lemma digits_number_show z : (0 <= z < 2 ^ 53)%Z -> digits_number (show_Z z) = Some z.
Proof.
  intros [Hz Hb]. destruct (digits_show z Hz) as (n & Hd & _). unfold digits_number. rewrite Hd.
  by apply to_double_small.
Qed.

(** The words of a counted phrase. *)
Definition plural (u : DateUnit) (n : Z) : string :=
  if Z.eqb n 1 then unit_name u else unit_name u +:+ "s".
Lemma plural_word u n : word (plural u n) /\ plural_unit (plural u n) = Some u.
Proof. unfold plural. destruct (Z.eqb n 1), u; by repeat split. Qed.
Lemma plain_word w : String.eqb w "" = false -> str_forall plain w = true -> word w.
Proof. by intros ?%String.eqb_neq. Qed.

Lemma parse_future u n (now : D) : (0 < n < 2 ^ 53)%Z ->
  parseFilterDate ("in " +:+ show_Z n +:+ " " +:+ plural u n) now = Some (relative_value u (Finite n)).
Proof.
  intros Hn. destruct (digits_word n ltac:(lia)) as [Hw Ha]. destruct (plural_word u n) as [Hp Hu].
  change ("in " +:+ show_Z n +:+ " " +:+ plural u n) with (join " " ["in"; show_Z n; plural u n]).
  apply parse_counted; [|done|].
  - repeat constructor; try done; apply Hw || apply Hp.
  - cbn. rewrite Hu, Ha, digits_number_show by lia. done.
Qed.
Lemma parse_past u n (now : D) : (0 < n < 2 ^ 53)%Z ->
  parseFilterDate (show_Z n +:+ " " +:+ plural u n +:+ " ago") now = Some (relative_value u (Finite (- n))).
Proof.
  intros Hn. destruct (digits_word n ltac:(lia)) as [Hw Ha]. destruct (plural_word u n) as [Hp Hu].
  change (show_Z n +:+ " " +:+ plural u n +:+ " ago") with (join " " [show_Z n; plural u n; "ago"]).
  apply parse_counted; [|done|].
  - repeat constructor; try done; apply Hw || apply Hp.
  - unfold match_counted. assert (Hin : String.eqb (show_Z n) "in" = false)
      by (apply String.eqb_neq; intros E; by rewrite E in Ha).
    rewrite Hin, Hu, Ha, digits_number_show by lia. done.
Qed.

(** How far a weekday is, and on which side. *)
Lemma weekday_delta_spec index current q : (0 <= index < 7)%Z -> (0 <= current < 7)%Z ->
  let delta := weekday_delta index current q in
  ((current + delta) mod 7 = index)%Z /\
  (if bool_decide (q = Some "last") then -7 <= delta <= -1 else 1 <= delta <= 7)%Z.
Proof.
  intros Hi Hc. unfold weekday_delta. cbv zeta. destruct (bool_decide _).
  - destruct (0 <=? index - current)%Z eqn:E; unbool; (split; [|lia]).
    + replace (current + (index - current - 7))%Z with (index + (-1) * 7)%Z by lia.
      rewrite Z_mod_plus_full. by apply Z.mod_small.
    + replace (current + (index - current))%Z with index by lia. by apply Z.mod_small.
  - destruct (index - current <=? 0)%Z eqn:E; unbool; (split; [|lia]).
    + replace (current + (index - current + 7))%Z with (index + 1 * 7)%Z by lia.
      rewrite Z_mod_plus_full. by apply Z.mod_small.
    + replace (current + (index - current))%Z with index by lia. by apply Z.mod_small.
Qed.

(** The phrase of a weekday, with its qualifier. *)
Definition weekday_phrase (q : option string) (index : nat) : string :=
  let day := nth index WEEKDAYS "" in
  match q with Some q => q +:+ " " +:+ day | None => day end.
Lemma parse_weekday text q index (now : D) : index < 7 ->
  q = None \/ q = Some "next" \/ q = Some "last" \/ q = Some "this" ->
  phrase text = weekday_phrase q index ->
  parseFilterDate text now =
    Some (relative_value UDay (Finite (weekday_delta (Z.of_nat index) (getDay (startOfDay now)) q))).
Proof.
  intros Hi Hq Ht. unfold parseFilterDate. rewrite Ht.
  assert (Hx : index = 0 \/ index = 1 \/ index = 2 \/ index = 3 \/ index = 4 \/ index = 5 \/ index = 6)
    by lia.
  destruct Hq as [-> |[-> |[-> | ->]]];
    by destruct Hx as [-> |[-> |[-> |[-> |[-> |[-> | ->]]]]]].
Qed.
End Dates.

(** ** Properties *)

(** A relative date filter survives its own wording: the phrase a chip
    shows for an offset (below [2^53], where JavaScript's integers are exact),
    typed back at any later time, gives the same unit and offset. *)
Theorem relative_date_roundtrip {D} `{!Calendar D} (show_big : Z -> string) (u : DateUnit) (z : Z)
    (now later : D) (pattern : option string) :
  (Z.abs z < 2 ^ 53)%Z ->
  parseFilterDate (formatFilterDate show_big (Some (relative_value u (Finite z))) now pattern) later
  = Some (relative_value u (Finite z)).
Proof.
  intros Hz. unfold formatFilterDate, relative_value at 1. cbn [v_relative].
  unfold relative_wording. cbn [unit offset].
  destruct (bool_decide (u = UDay) && Z.eqb z 0) eqn:E0; unbool; [by subst|].
  destruct (bool_decide (u = UDay) && Z.eqb z 1) eqn:E1; unbool; [by subst|].
  destruct (bool_decide (u = UDay) && Z.eqb z (-1)) eqn:E2; unbool; [by subst|].
  cbv zeta. fold (plural u (Z.abs z)). destruct (0 <? z)%Z eqn:Ep; [|destruct (z <? 0)%Z eqn:En]; unbool.
  - unfold show_offset. rewrite (proj2 (Z.ltb_lt z (2 ^ 53))) by lia.
    rewrite Z.abs_eq by lia. apply parse_future. lia.
  - unfold show_offset. rewrite (proj2 (Z.ltb_lt (Z.abs z) (2 ^ 53))) by lia.
    rewrite parse_past by lia. do 3 f_equal. lia.
  - assert (z = 0)%Z as -> by lia. by destruct u.
Qed.

(** A typed weekday, alone or after next, last or this, however spaced and
    capitalised, becomes an offset in days that lands on that weekday: one to
    seven days ahead, or for last one to seven days back, and never today. *)
Theorem weekday_lands_on_its_day {D} `{CalendarLaws D} (text : string) (q : option string)
    (index : nat) (now : D) :
  index < 7 -> q = None \/ q = Some "next" \/ q = Some "last" \/ q = Some "this" ->
  phrase text = weekday_phrase q index ->
  exists delta day, parseFilterDate text now = Some (relative_value UDay (Finite delta)) /\
    resolveFilterDate (Some (relative_value UDay (Finite delta))) now = Some day /\
    getDay day = Z.of_nat index /\
    (if bool_decide (q = Some "last") then -7 <= delta <= -1 else 1 <= delta <= 7)%Z.
Proof.
  intros Hi Hq Ht. set (delta := weekday_delta (Z.of_nat index) (getDay (startOfDay now)) q).
  destruct (weekday_delta_spec (Z.of_nat index) (getDay (startOfDay now)) q ltac:(lia) (getDay_range _))
    as [Hm Hb].
  exists delta, (addDays (startOfDay now) (Finite delta)). split_and!; [|done| |done].
  - by apply parse_weekday.
  - by rewrite getDay_add.
Qed.

(** A calendar of bare day numbers; day 0 is a Sunday. *)
Definition shift (n d : Z) (k : Offset) : Z := match k with Finite k => (d + n * k)%Z | Infinite _ => d end.
#[export] Instance day_numbers : Calendar Z := {
  startOfDay d := d;
  addDays := shift 1;
  addWeeks := shift 7;
  addMonths := shift 30;
  addYears := shift 365;
  format d _ := show_Z d;
  parse _ _ d := d;
  isValid _ := false;
  getDay d := (d mod 7)%Z
}.
#[export] Instance day_numbers_laws : CalendarLaws Z.
Proof.
  split; unfold getDay, addDays, day_numbers, shift.
  - intros d. apply Z.mod_pos_bound. lia.
  - intros d k. by rewrite Z.mul_1_l, Zplus_mod_idemp_l.
Qed.

Lemma relative_date_roundtrip_witness :
  parseFilterDate (formatFilterDate show_Z (Some (relative_value UWeek (Finite (-3)))) 0%Z None) 9%Z
  = Some (relative_value UWeek (Finite (-3))).
Proof. apply relative_date_roundtrip. lia. Defined.
Lemma weekday_lands_on_its_day_witness :
  exists delta day, parseFilterDate "  Last   FRIDAY" 12%Z = Some (relative_value UDay (Finite delta)) /\
    getDay day = 5%Z /\ (-7 <= delta <= -1)%Z.
Proof.
  destruct (weekday_lands_on_its_day "  Last   FRIDAY" (Some "last") 5 12%Z) as (delta & day & H1 & _ & H2 & H3);
    [lia|by right; right; left|reflexivity|]. exists delta, day. exact (conj H1 (conj H2 H3)).
Defined.

(** A weekday is kept as a number of days, not as a weekday: typed on a Monday
    (day 1), "next friday" is four days, and read again on the Wednesday it
    resolves to a Sunday. *)
Lemma weekday_drifts :
  parseFilterDate "next friday" 1%Z = Some (relative_value UDay (Finite 4)) /\
  getDay (1 + 4)%Z = 5%Z /\
  getDay <$> resolveFilterDate (Some (relative_value UDay (Finite 4))) 3%Z = Some 0%Z.
Proof. by vm_compute. Qed.

(** [isFilterTime] accepts the 1440 minutes of a day. *)
Definition pad2 (n : nat) : string := (if Nat.ltb n 10 then "0" else "") +:+ show_nat n.
Lemma filter_times :
  forallb (fun h => forallb (fun m => isFilterTime (pad2 h +:+ ":" +:+ pad2 m)) (seq 0 60)) (seq 0 24)
  = true /\ isFilterTime "24:00" = false /\ isFilterTime "9:30" = false.
Proof. by vm_compute. Qed.
