(* ===== verification/DateSelectorLaws.v ===== *)
(** * The properties of the date selector

    A range is never the wrong way round; what the selector shows is what its
    parent holds, once the effects have run; a quarter and a year read back
    as they are shown. *)
From S2P Require Import Prelude JsString DateSelector.

Section Laws.
Context {D : Type} `{!DateFns D, !DateFnsLaws D}.

(** ** Ranges *)

(** The clicks the view of the current period offers. *)
Definition offered (s : Selector D) (c : @Click D) : bool :=
  match c with
  | ClickDay _ => bool_decide (periodType s = PDay)
  | ClickPeriod _ _ i =>
      match periodType s with
      | PMonth => (0 <=? i)%Z && (i <? 12)%Z
      | PQuarter => (0 <=? i)%Z && (i <? 4)%Z
      | PHalfYear => (0 <=? i)%Z && (i <? 2)%Z
      | _ => false
      end
  | ClickYear _ _ => bool_decide (periodType s = PYear)
  | _ => true
  end.
Fixpoint all_offered (o : SelectorOptions) (s : Selector D) (cs : list (@Click D)) : bool :=
  match cs with
  | [] => true
  | c :: cs' => offered s c && all_offered o (click o s c) cs'
  end.

(** The start is not after the end, in days, parts of a year and years; the
    points of the year view are whole years; and a second end needs a first. *)
Definition ordered (s : Selector D) : Prop :=
  (forall a b, selectedDate s = Some a -> selectedEndDate s = Some b -> isBefore b a = false) /\
  (forall a b, rangeStart s = Some a -> rangeEnd s = Some b -> (point_key a <= point_key b)%Z) /\
  (periodType s = PYear -> forall p, rangeStart s = Some p \/ rangeEnd s = Some p -> pp_value p = 0%Z).

Lemma cleared_ordered s : ordered (clearSelection s).
Proof. by split_and!; simpl; try naive_solver. Qed.

Lemma click_ordered o s c : offered s c = true -> ordered s -> ordered (click o s c).
Proof.
  intros Ho (Hd & Hr & Hy). destruct c as [day|id y i|id y|type|type|]; simpl in *.
  - unfold handleDayClick. unbool.
    destruct (picks_range o s); [|split_and!; simpl; naive_solver congruence].
    destruct (selectedDate s) as [start|] eqn:Es; [destruct (selectedEndDate s) eqn:Ee|];
      [split_and!; simpl; naive_solver congruence| |split_and!; simpl; naive_solver congruence].
    destruct (isBefore day start) eqn:Eb; split_and!; simpl; try done; intros ? ? [= <-] [= <-].
    + by apply isBefore_asym.
    + done.
  - assert (Hp : periodType s <> PYear) by (intros E; by rewrite E in Ho).
    unfold handlePeriodSelect.
    destruct (picks_range o s); [|split_and!; simpl; naive_solver].
    destruct (rangeStart s) as [start|] eqn:Es; [destruct (rangeEnd s) eqn:Ee|];
      [split_and!; simpl; naive_solver| |split_and!; simpl; naive_solver].
    destruct (Z.ltb_spec (point_key (mkPoint id y i)) (point_key start));
      split_and!; simpl; try done; intros ? ? [= <-] [= <-]; lia.
  - unbool. unfold handleYearSelect.
    destruct (picks_range o s); [|split_and!; simpl; naive_solver].
    destruct (rangeStart s) as [start|] eqn:Es; [destruct (rangeEnd s) eqn:Ee|];
      [split_and!; simpl; naive_solver| |split_and!; simpl; naive_solver].
    assert (Hz : pp_value start = 0%Z) by (apply Hy; auto).
    destruct (Z.ltb_spec y (pp_year start)); split_and!; simpl; try done;
      try (intros ? ? [= <-] [= <-]; unfold point_key; simpl; lia); naive_solver.
  - apply cleared_ordered.
  - unfold handleFilterTypeChange. destruct (o_presetMode o); [by split_and!|apply cleared_ordered].
  - apply cleared_ordered.
Qed.

(** Whatever is clicked, in the views that offer it, and in whichever
    order, a selected range runs forward: the end date is not before the start
    date, and the later month, quarter, half or year is the end. *)
Theorem ranges_run_forward o v cs :
  (forall v', v = Some v' -> ordered (initial o (Some v'))) ->
  all_offered o (initial o v) cs = true ->
  ordered (fold_left (click o) cs (initial o v)).
Proof.
  intros Hv. assert (H : ordered (initial o v)).
  { destruct v as [v|]; [by apply Hv|]. split_and!; simpl; naive_solver. }
  clear Hv. revert H. generalize (initial o v) as s.
  induction cs as [|c cs IH]; intros s H Ho; [done|]. simpl in *.
  apply andb_true_iff in Ho as [Hc Ho]. apply IH; [by apply click_ordered|done].
Qed.

(** ** The loop with the parent *)
Definition consistent (o : SelectorOptions) (s : Selector D) : Prop :=
  filterType s = o_presetMode o ?? filterType s.

Lemma sync_current o s : consistent o s -> sync o (currentValue o s) = s.
Proof.
  intros H. destruct s. unfold sync, currentValue, consistent in *. simpl in *.
  f_equal. rewrite H at 2. by destruct (o_presetMode o).
Qed.
Lemma sync_consistent o v : consistent o (sync o v).
Proof. unfold consistent, sync. simpl. by destruct (o_presetMode o). Qed.
Lemma initial_consistent o v : consistent o (initial o v).
Proof. unfold consistent, initial. simpl. by destruct (o_presetMode o). Qed.
Lemma click_consistent o s c : consistent o s -> consistent o (click o s c).
Proof.
  unfold consistent. intros H.
  destruct c; simpl; unfold handleDayClick, handlePeriodSelect, handleYearSelect,
    handlePeriodTypeChange, handleFilterTypeChange; repeat case_match; simpl; try done.
  all: by rewrite H1 in *.
Qed.

(** Every identity in use is an old one. *)
Definition fresh_ok (h : Host D) : Prop :=
  ob_id (h_memo h) < h_fresh h /\ h_handler h < h_fresh h /\
  (forall v, h_value h = Some v -> ob_id v < h_fresh h).
(** Nothing is pending, and the parent holds what the selector shows. *)
Definition at_rest (o : SelectorOptions) (h : Host D) : Prop :=
  settled h /\ (exists v, h_value h = Some v /\ sync o (ob_val v) = h_sel h) /\
  ob_val (h_memo h) = currentValue o (h_sel h) /\ consistent o (h_sel h) /\ fresh_ok h.

Lemma memo_value_same o (h : Host D) : memo_value o h (h_sel h) = h_memo h.
Proof. unfold memo_value. by rewrite bool_decide_eq_true_2. Qed.
Lemma memo_value_val o (h : Host D) s : ob_val (h_memo h) = currentValue o (h_sel h) ->
  ob_val (memo_value o h s) = currentValue o s.
Proof. intros H. unfold memo_value. case_bool_decide as E; [by rewrite E|done]. Qed.
Lemma memo_value_id o (h : Host D) s : ob_id (h_memo h) < h_fresh h ->
  ob_id (memo_value o h s) <= h_fresh h.
Proof. intros H. unfold memo_value. case_bool_decide; simpl; lia. Qed.

(** A commit, with its tests as propositions. *)
Lemma commit_told o inline h a b c : h_seen h = Some (a, b, c) ->
  (b, c) <> (h_handler h, ob_id (h_memo h)) -> forall v, h_value h = Some v ->
  a = Some (ob_id v) -> ob_id v <> ob_id (h_memo h) ->
  commit o inline h = mkHost (Some (h_memo h)) (if inline then S (h_fresh h) else h_handler h)
    (h_sel h) (h_memo h) (S (S (h_fresh h))) (Some (deps h)).
Proof.
  intros Hs Hbc v Hv -> Hid. unfold commit. rewrite Hs, Hv. simpl.
  rewrite (bool_decide_eq_true_2 (Some (Some (ob_id v)) = _)) by done. simpl.
  rewrite (bool_decide_eq_false_2 (Some (b, c) = _)) by congruence. simpl.
  rewrite bool_decide_eq_false_2 by congruence. simpl. by rewrite andb_true_r, memo_value_same.
Qed.
Lemma commit_silent o inline h a b c v : h_seen h = Some (a, b, c) ->
  (b, c) = (h_handler h, ob_id (h_memo h)) -> h_value h = Some v ->
  commit o inline h = mkHost (Some v) (h_handler h)
    (if bool_decide (a = Some (ob_id v)) then h_sel h else sync o (ob_val v))
    (memo_value o h (if bool_decide (a = Some (ob_id v)) then h_sel h else sync o (ob_val v)))
    (S (S (h_fresh h))) (Some (deps h)).
Proof.
  intros Hs [= -> ->] Hv. unfold commit. rewrite Hs, Hv. simpl.
  rewrite (bool_decide_eq_true_2 (Some (h_handler h, _) = _)) by done. simpl.
  rewrite (bool_decide_eq_true_2 (Some (ob_id v) = Some (ob_id v))) by done. simpl.
  rewrite andb_false_r.
  assert (He : negb (bool_decide (Some a = Some (Some (ob_id v)))) =
    negb (bool_decide (a = Some (ob_id v)))).
  { f_equal. apply bool_decide_ext. split; [by intros [= ->]|by intros ->]. }
  rewrite He. by destruct (bool_decide (a = Some (ob_id v))).
Qed.
(** A commit after the parent took the memoised value: the state stays. *)
Lemma commit_echo o inline h a b c : h_seen h = Some (a, b, c) ->
  h_value h = Some (h_memo h) -> sync o (ob_val (h_memo h)) = h_sel h ->
  commit o inline h = mkHost (Some (h_memo h)) (h_handler h) (h_sel h) (h_memo h)
    (S (S (h_fresh h))) (Some (deps h)).
Proof.
  intros Hs Hv Hy. unfold commit. rewrite Hs, Hv. cbn -[bool_decide sync memo_value deps]. rewrite Hy.
  assert (Hif : forall A (x : A) (b : bool), (if b then x else x) = x) by by intros ? ? [].
  rewrite !Hif. cbn -[bool_decide sync memo_value deps].
  rewrite (bool_decide_eq_true_2 (Some (ob_id (h_memo h)) = _)) by done.
  by rewrite andb_false_r, memo_value_same.
Qed.
Lemma rest_commit o inline h : at_rest o h -> at_rest o (commit o inline h) /\
  h_sel (commit o inline h) = h_sel h.
Proof.
  intros (Hs & (v & Hv & Hy) & Hm & Hc & Hf1 & Hf2 & Hf3). unfold settled, deps in Hs.
  rewrite (commit_silent o inline h _ _ _ v Hs eq_refl Hv), Hv. simpl.
  rewrite bool_decide_eq_true_2, memo_value_same by done. simpl. split; [|done].
  split_and!; try done.
  - unfold settled, deps. simpl. by rewrite Hv.
  - by exists v.
  - specialize (Hf3 v Hv). unfold fresh_ok. simpl. split_and!; [lia|lia|]. intros ? [= <-]. lia.
Qed.

(** A new current value that the parent was not told yet. *)
Definition to_tell (o : SelectorOptions) (h : Host D) : Prop :=
  (exists a b c v, h_seen h = Some (a, b, c) /\ (b, c) <> (h_handler h, ob_id (h_memo h)) /\
     h_value h = Some v /\ a = Some (ob_id v) /\ ob_id v <> ob_id (h_memo h)) /\
  ob_val (h_memo h) = currentValue o (h_sel h) /\ consistent o (h_sel h) /\ fresh_ok h.
Lemma told_rests o inline h : to_tell o h ->
  at_rest o (commits o inline 2 h) /\ h_sel (commits o inline 2 h) = h_sel h.
Proof.
  intros ((a & b & c & v & Hs & Hbc & Hv & Ha & Hid) & Hm & Hc & Hf).
  change (commits o inline 2 h) with (commit o inline (commit o inline h)).
  rewrite (commit_told o inline h a b c Hs Hbc v Hv Ha Hid).
  set (h1 := mkHost _ _ _ _ _ _).
  assert (Hy : sync o (ob_val (h_memo h1)) = h_sel h1) by (simpl; rewrite Hm; by apply sync_current).
  rewrite (commit_echo o inline h1 _ _ _ eq_refl eq_refl Hy). simpl. split; [|done].
  destruct Hf as (Hf1 & Hf2 & Hf3).
  split_and!; try done; [by exists (h_memo h)|].
  unfold fresh_ok. simpl. split_and!; [lia|destruct inline; lia|]. intros ? [= <-]. lia.
Qed.
Lemma rest_commits o inline n h : at_rest o h -> at_rest o (commits o inline n h) /\
  h_sel (commits o inline n h) = h_sel h.
Proof.
  intros H. induction n as [|n [IH1 IH2]]; [done|].
  change (commits o inline (S n) h) with (commit o inline (commits o inline n h)).
  destruct (rest_commit o inline _ IH1) as [H1 H2]. by rewrite H2, IH2.
Qed.

(** C33: The selector and its parent come to rest.  After a click, whether the
    parent passes a new handler on every render or always the same, and after
    the parent sets a value, when its handler stays the same, three commits
    later no effect is pending, the parent holds what the selector shows, and
    that is the click's outcome or the value that was set. *)
Theorem selector_settles o h : at_rest o h ->
  (forall inline c, at_rest o (commits o inline 3 (clicked o c h)) /\
     h_sel (commits o inline 3 (clicked o c h)) = click o (h_sel h) c) /\
  (forall v, at_rest o (commits o false 3 (given false v h)) /\
     h_sel (commits o false 3 (given false v h)) = sync o v).
Proof.
  intros Hr. pose proof Hr as (Hs & (v0 & Hv & Hy) & Hm & Hc & Hf1 & Hf2 & Hf3).
  unfold settled, deps in Hs. rewrite Hv in Hs. simpl in Hs. specialize (Hf3 v0 Hv). split.
  - intros inline c. set (s := click o (h_sel h) c).
    assert (Hcs : consistent o s) by by apply click_consistent.
    change (commits o inline 3 ?x) with (commit o inline (commits o inline 2 x)).
    enough (H : at_rest o (commits o inline 2 (clicked o c h)) /\
      h_sel (commits o inline 2 (clicked o c h)) = s).
    { destruct H as [H1 H2]. destruct (rest_commit o inline _ H1) as [H3 H4].
      by rewrite H4, H2. }
    destruct (decide (s = h_sel h)) as [He|Hne].
    + assert (Hrest : at_rest o (clicked o c h)).
      { unfold clicked. fold s. rewrite He, memo_value_same. split_and!; try done.
        - unfold settled, deps. simpl. by rewrite Hv.
        - by exists v0.
        - unfold fresh_ok. simpl. split_and!; [lia|lia|]. rewrite Hv. intros ? [= <-]. lia. }
      destruct (rest_commits o inline 2 _ Hrest) as [H1 H2]. split; [done|]. by rewrite H2.
    + assert (Hmemo : memo_value o h s = mkObj (h_fresh h) (currentValue o s))
        by (unfold memo_value; by rewrite bool_decide_eq_false_2).
      assert (Ht : to_tell o (clicked o c h)).
      { unfold clicked. fold s. rewrite Hmemo. split_and!; try done.
        - eexists _, _, _, _. split_and!; [exact Hs| |exact Hv|done|simpl; lia].
          simpl. intros [= He]. lia.
        - unfold fresh_ok. simpl. split_and!; [lia|lia|]. rewrite Hv. intros ? [= <-]. lia. }
      destruct (told_rests o inline _ Ht) as [H1 H2]. split; [done|]. by rewrite H2.
  - intros v.
    change (commits o false 3 ?x) with (commits o false 2 (commit o false x)).
    rewrite (commit_silent o false (given false v h) _ _ _ _ Hs eq_refl eq_refl).
    cbn -[commits commit bool_decide memo_value sync deps].
    rewrite bool_decide_eq_false_2 by (intros [= He]; lia). cbn iota.
    set (s := sync o v). assert (Hcs : consistent o s) by apply sync_consistent.
    set (h1 := mkHost _ _ _ _ _ _).
    assert (Hf : fresh_ok h1).
    { pose proof (memo_value_id o (given false v h) s). unfold fresh_ok, h1. simpl in *.
      split_and!; [lia|lia|]. intros ? [= <-]. simpl. lia. }
    assert (Hm1 : ob_val (h_memo h1) = currentValue o s) by by apply (memo_value_val o (given false v h)).
    destruct (decide (s = h_sel h)) as [He|Hne].
    + assert (Hrest : at_rest o h1).
      { split_and!; try done; [|by eexists].
        unfold settled, deps, h1, memo_value. simpl. rewrite bool_decide_eq_true_2 by done. done. }
      destruct (rest_commits o false 2 _ Hrest) as [H1 H2]. split; [done|]. by rewrite H2.
    + assert (Ht : to_tell o h1).
      { split_and!; try done. eexists _, _, _, _. split_and!; [done| |done|done|].
        all: unfold h1, memo_value; simpl; rewrite bool_decide_eq_false_2 by done; simpl.
        - intros [= He]. lia.
        - lia. }
      destruct (told_rests o false _ Ht) as [H1 H2]. split; [done|]. by rewrite H2.
Qed.

(** A parent that passes a new handler on every render never comes to rest
    again once it sets a value of its own, or takes one the input read: at each
    commit the value is the one the selector shows no more, and the selector
    is told to show it while the parent is told what it showed before. *)
Definition out_of_step (o : SelectorOptions) (h : Host D) : Prop :=
  exists v a b c, h_value h = Some v /\ h_seen h = Some (a, b, c) /\
    a <> Some (ob_id v) /\ b <> h_handler h /\ ob_id v <> ob_id (h_memo h) /\
    sync o (ob_val v) <> h_sel h /\
    ob_val (h_memo h) = currentValue o (h_sel h) /\ consistent o (h_sel h) /\ fresh_ok h.

Lemma out_of_step_commit o h : out_of_step o h -> out_of_step o (commit o true h).
Proof.
  intros (v & a & b & c & Hv & Hs & Ha & Hb & Hid & Hne & Hm & Hc & Hf1 & Hf2 & Hf3).
  specialize (Hf3 v Hv). unfold commit. rewrite Hs, Hv. cbn -[bool_decide memo_value sync deps].
  rewrite (bool_decide_eq_false_2 (Some a = _)) by congruence.
  rewrite (bool_decide_eq_false_2 (Some (b, c) = _)) by congruence.
  cbn -[bool_decide memo_value sync deps].
  rewrite bool_decide_eq_false_2 by congruence. cbn -[bool_decide memo_value sync deps].
  assert (Hr : memo_value o h (sync o (ob_val v)) = mkObj (h_fresh h) (currentValue o (sync o (ob_val v))))
    by (unfold memo_value; by rewrite bool_decide_eq_false_2).
  rewrite Hr. eexists _, _, _, _. cbn -[sync].
  split_and!; try done; [rewrite Hv; simpl; congruence|lia|lia| |apply sync_consistent|].
  - rewrite Hm, sync_current by done. congruence.
  - unfold fresh_ok. simpl. split_and!; [lia|lia|]. intros ? [= <-]. lia.
Qed.
Lemma new_handlers_never_settle o h v : at_rest o h -> sync o v <> h_sel h ->
  forall n, ~ settled (commits o true n (given true v h)).
Proof.
  intros (Hs & (v0 & Hv & Hy) & Hm & Hc & Hf1 & Hf2 & Hf3) Hne n.
  specialize (Hf3 v0 Hv). unfold settled, deps in Hs. rewrite Hv in Hs. simpl in Hs.
  assert (H : out_of_step o (commits o true n (given true v h))).
  { induction n as [|n IH]; [|by apply out_of_step_commit].
    eexists _, _, _, _. unfold commits, given. cbn -[sync].
    split_and!; [done|exact Hs|intros [= He]; lia|lia|simpl; lia|done..|].
    unfold fresh_ok. simpl. split_and!; [lia|lia|]. intros ? [= <-]. simpl. lia. }
  destruct H as (w & a & b & c & Hw & Hsn & Ha & _). unfold settled, deps. rewrite Hsn, Hw.
  simpl. congruence.
Qed.

(** ** The input *)

(** What the selector shows for a quarter or a year of a plausible year is
    read back as that quarter or year. *)
Lemma four_digits y : year_ok y = true -> read_year (show_Z y) = Some y.
Proof.
  unfold year_ok. intros [H1 H2]%andb_true_iff. apply Z.leb_le in H1, H2.
  assert (Hall : every (fun n => bool_decide (read_year (show_Z (1900 + Z.of_nat n)) =
    Some (1900 + Z.of_nat n)%Z)) (seq 0 201) = true) by (vm_compute; reflexivity).
  rewrite forallb_forall in Hall. specialize (Hall (Z.to_nat (y - 1900))).
  rewrite in_seq, bool_decide_eq_true in Hall. replace (1900 + Z.of_nat _)%Z with y in Hall by lia.
  apply Hall. lia.
Qed.

Definition quarter_value (mode : FilterType) (y i : Z) : DateSelectorValue D :=
  mkValue PQuarter mode None None (Some y) None (Some i) None None None.
Definition year_value (mode : FilterType) (y : Z) : DateSelectorValue D :=
  mkValue PYear mode None None (Some y) None None None None None.

Lemma quarter_text y i : year_ok y = true -> (0 <= i < 4)%Z ->
  let text := (label_at (quarters DEFAULT_DATE_SELECTOR_I18N) i ++ " " ++ show_Z y)%string in
  trim text = text /\ text <> "" /\ read_year text = None /\
  read_quarter text = Some ((i + 1)%Z, Some y).
Proof.
  unfold year_ok. intros [H1 H2]%andb_true_iff Hi. apply Z.leb_le in H1, H2.
  assert (Hall : every (fun n => every (fun k =>
      let y := (1900 + Z.of_nat n)%Z in let i := Z.of_nat k in
      let text := (label_at (quarters DEFAULT_DATE_SELECTOR_I18N) i ++ " " ++ show_Z y)%string in
      bool_decide (trim text = text /\ text <> "" /\ read_year text = None /\
        read_quarter text = Some ((i + 1)%Z, Some y))) (seq 0 4)) (seq 0 201) = true)
    by (vm_compute; reflexivity).
  rewrite forallb_forall in Hall. specialize (Hall (Z.to_nat (y - 1900))).
  rewrite in_seq, forallb_forall in Hall. specialize (Hall ltac:(lia) (Z.to_nat i)).
  rewrite in_seq, bool_decide_eq_true in Hall.
  replace (1900 + Z.of_nat _)%Z with y in Hall by lia.
  replace (Z.of_nat (Z.to_nat i)) with i in Hall by lia. apply Hall. lia.
Qed.
Lemma year_text y : year_ok y = true -> trim (show_Z y) = show_Z y /\ show_Z y <> "".
Proof.
  unfold year_ok. intros [H1 H2]%andb_true_iff. apply Z.leb_le in H1, H2.
  assert (Hall : every (fun n => bool_decide (trim (show_Z (1900 + Z.of_nat n)) =
    show_Z (1900 + Z.of_nat n) /\ show_Z (1900 + Z.of_nat n) <> "")) (seq 0 201) = true)
    by (vm_compute; reflexivity).
  rewrite forallb_forall in Hall. specialize (Hall (Z.to_nat (y - 1900))).
  rewrite in_seq, bool_decide_eq_true in Hall. replace (1900 + Z.of_nat _)%Z with y in Hall by lia.
  apply Hall. lia.
Qed.

(** A quarter or a year of a plausible year, typed the way the selector shows
    it, is read as that quarter or year. *)
Lemma shown_period_reads_back mode formats thisYear dayFormat y i :
  year_ok y = true -> (0 <= i < 4)%Z ->
  let read := parseInputValue mode formats thisYear in
  let shown v := formatDateValue v DEFAULT_DATE_SELECTOR_I18N dayFormat in
  read (shown (quarter_value mode y i)) = Some (quarter_value mode y i) /\
  read (shown (year_value mode y)) = Some (year_value mode y).
Proof.
  intros Hy Hi. cbn zeta.
  destruct (quarter_text y i Hy Hi) as (Ht & Hne & Hr & Hq).
  destruct (year_text y Hy) as [Hty Hney].
  change (formatDateValue (quarter_value mode y i) DEFAULT_DATE_SELECTOR_I18N dayFormat) with
    (label_at (quarters DEFAULT_DATE_SELECTOR_I18N) i ++ " " ++ show_Z y)%string.
  change (formatDateValue (year_value mode y) DEFAULT_DATE_SELECTOR_I18N dayFormat) with (show_Z y).
  unfold parseInputValue. split.
  - rewrite Ht, (proj2 (String.eqb_neq _ _) Hne), Hr, Hq. cbn [from_option]. rewrite Hy.
    unfold quarter_value. by replace (i + 1 - 1)%Z with i by lia.
  - by rewrite Hty, (proj2 (String.eqb_neq _ _) Hney), four_digits, Hy.
Qed.

(** [minYear] and [maxYear] have defaults in the component, so [yearRange] and
    [baseYear] are never read. *)
Lemma year_range_is_never_read p f m a yr by_ yr' by' lo hi types now now' :
  years (component_options p f m a yr by_ lo hi types) now =
  years (component_options p f m a yr' by' lo hi types) now'.
Proof. done. Qed.
End Laws.

(** ** Concrete selectors *)
Module SelectorSample.
#[global] Instance day_fns : DateFns Z := {|
  isBefore a b := Z.ltb a b; formatDate d _ := show_Z d; parseDate _ _ := None;
  isSameMonth a b := Z.eqb (a / 30) (b / 30); subMonths d n := (d - 30 * Z.of_nat n)%Z;
  addMonths d n := (d + 30 * Z.of_nat n)%Z; getDay d := Z.to_nat (d mod 7);
  getMonth d := Z.to_nat (d / 30); getFullYear d := (d / 365)%Z |}.
#[global] Instance day_laws : DateFnsLaws Z.
Proof. constructor. intros a b H. apply Z.ltb_lt in H. apply Z.ltb_ge. lia. Qed.

Definition options : SelectorOptions :=
  component_options None (Some FBetween) None None None None None None None.
Definition start : Selector Z := initial options None.
Definition value : DateSelectorValue Z := currentValue options start.
Definition host : Host Z :=
  mkHost (Some (mkObj 0 value)) 1 start (mkObj 0 value) 2 (Some (Some 0, 1, 0)).
Definition typed : DateSelectorValue Z :=
  mkValue PYear FBetween None None (Some 2024%Z) None None None None None.
End SelectorSample.

Lemma ranges_run_forward_witness :
  let s := fold_left (click SelectorSample.options) [ClickDay 9%Z; ClickDay 4%Z] SelectorSample.start in
  selectedDate s = Some 4%Z /\ selectedEndDate s = Some 9%Z /\ ordered s.
Proof.
  split_and!; [vm_compute; reflexivity..|].
  apply (ranges_run_forward SelectorSample.options None [ClickDay 9%Z; ClickDay 4%Z]); [done|].
  vm_compute. reflexivity.
Defined.

Lemma sample_at_rest : at_rest SelectorSample.options SelectorSample.host.
Proof.
  split_and!; try (vm_compute; reflexivity).
  - eexists. split; vm_compute; reflexivity.
  - unfold fresh_ok. simpl. split_and!; [lia|lia|]. intros v [= <-]. simpl. lia.
Qed.
Lemma selector_settles_witness :
  let h := commits SelectorSample.options true 3 (clicked SelectorSample.options (ClickDay 9%Z) SelectorSample.host) in
  selectedDate (h_sel h) = Some 9%Z /\ at_rest SelectorSample.options h.
Proof.
  split; [vm_compute; reflexivity|].
  exact (proj1 (proj1 (selector_settles SelectorSample.options SelectorSample.host sample_at_rest)
    true (ClickDay 9%Z))).
Defined.

(** A typed year, with a parent that writes its handler inline: the selector
    and the value swap what they show at every commit. *)
Lemma typed_year_ping_pongs :
  let h n := commits SelectorSample.options true n (given true SelectorSample.typed SelectorSample.host) in
  map (fun n => (periodType (h_sel (h n)), (fun v => period (ob_val v)) <$> h_value (h n))) [1; 2; 3; 4] =
  [(PYear, Some PDay); (PDay, Some PYear); (PYear, Some PDay); (PDay, Some PYear)].
Proof. vm_compute. reflexivity. Qed.
