(* ===== verification/CascaderView.v ===== *)
(** * What the cascader shows

    The render half of [Cascader] in [reui/cascader/cascader.tsx] with the
    labels of [cascader-i18n.tsx]: from the props, the five controllable
    values and the loader's store to the rows on screen and the sentence the
    live region says.  A string array the code compares by identity is an
    [Arr], tagged with the object it is. *)
From S2P Require Import Prelude JsString JsValue JsMap CascaderLib CascaderLoader.

(** ** Objects *)

(** Whose array it is: the consumer's, or the n-th the cascader made. *)
Inductive ObjId := Given (n : nat) | Own (n : nat).
#[export] Instance ObjId_eq_dec : EqDecision ObjId.
Proof. solve_decision. Defined.
Record Arr := mkArr { a_id : ObjId; a_items : list string }.
(** The selection: a string, or an array with [multiple]. *)
Inductive Value := One (v : string) | Many (a : Arr).

(** [Object.is]. *)
Class ObjectIs (V : Type) := object_is : V -> V -> bool.
#[export] Instance string_is : ObjectIs string := String.eqb.
#[export] Instance bool_is : ObjectIs bool := Bool.eqb.
#[export] Instance arr_is : ObjectIs Arr := fun a b => bool_decide (a_id a = a_id b).
#[export] Instance value_is : ObjectIs Value := fun a b =>
  match a, b with
  | One x, One y => String.eqb x y
  | Many x, Many y => object_is x y
  | _, _ => false
  end.

Definition toArray (value : Value) : list string :=
  match value with
  | Many a => bfilter (fun entry => negb (String.eqb entry "")) (a_items a)
  | One v => if String.eqb v "" then [] else [v]
  end.

(** ** Labels *)
Inductive CascaderMode := MDrill | MColumns | MTree.
Inductive SearchLabel := SearchText (s : string) | SearchFun (f : option string -> string).
Record CascaderLabels := mkCLabels {
  cl_search : SearchLabel;
  cl_back : string;
  cl_loading : string;
  cl_loadingMore : string;
  cl_loadMore : string;
  cl_error : string;
  cl_retry : string;
  cl_empty : string;
  cl_selectedCount : nat -> string;
  cl_breadcrumbLabel : string;
  cl_chipsLabel : string;
  cl_removeChip : string -> string;
  cl_pathSeparator : string;
  cl_rootLevel : string;
  cl_itemCount : nat -> string;
  cl_branchAffordance : string;
  cl_selectedState : string;
  cl_partiallySelectedState : string;
  cl_columnsLabel : string;
  cl_actionsLabel : string;
  cl_submenuAffordance : string;
  cl_panelLabel : string;
  cl_keyboardHint : CascaderMode -> bool -> string;
  cl_rootAnnouncement : nat -> string;
  cl_expandedAnnouncement : string -> nat -> string;
  cl_collapsedAnnouncement : string -> string;
  cl_levelAnnouncement : string -> nat -> nat -> string;
  cl_resultsAnnouncement : nat -> string;
  cl_maxReachedAnnouncement : Z -> string;
  cl_cascadeAnnouncement : string -> nat -> bool -> string;
  cl_searchingAnnouncement : string
}.
Definition ROOT_LEVEL : string := "Top level".
Definition itemCount (count : nat) : string :=
  show_nat count +:+ " " +:+ (if Nat.eqb count 1 then "item" else "items").
Definition default_search (parentLabel : option string) : string :=
  match parentLabel with
  | Some ((String _ _) as l) => "Search " +:+ l +:+ "..."
  | _ => "Search..."
  end.
Definition keyboardHint (mode : CascaderMode) (rtl : bool) : string :=
  let open := if rtl then "Left" else "Right" in
  let back := if rtl then "Right" else "Left" in
  match mode with
  | MTree => "Use the " +:+ open +:+ " Arrow key to expand and the " +:+ back +:+
             " Arrow key to collapse."
  | MColumns => "Use the " +:+ open +:+ " Arrow key to open the next column and the " +:+ back +:+
                " Arrow key to go back."
  | MDrill => "Use the " +:+ open +:+ " Arrow key to open a branch and the " +:+ back +:+
              " Arrow key to go back."
  end.
Definition CASCADER_LABELS : CascaderLabels := {|
  cl_search := SearchFun default_search;
  cl_back := "Back";
  cl_loading := "Loading...";
  cl_loadingMore := "Loading more...";
  cl_loadMore := "Load more";
  cl_error := "Could not load items.";
  cl_retry := "Retry";
  cl_empty := "No results found.";
  cl_selectedCount := fun count => show_nat count +:+ " selected";
  cl_breadcrumbLabel := "Breadcrumb";
  cl_chipsLabel := "Selected items";
  cl_removeChip := fun label => "Remove " +:+ label;
  cl_pathSeparator := "/";
  cl_rootLevel := ROOT_LEVEL;
  cl_itemCount := itemCount;
  cl_branchAffordance := "submenu";
  cl_selectedState := "selected";
  cl_partiallySelectedState := "partially selected";
  cl_columnsLabel := "Levels";
  cl_actionsLabel := "Actions";
  cl_submenuAffordance := "opens a menu";
  cl_panelLabel := "Options";
  cl_keyboardHint := keyboardHint;
  cl_rootAnnouncement := fun count => ROOT_LEVEL +:+ ", " +:+ itemCount count;
  cl_expandedAnnouncement := fun label count => label +:+ " expanded, " +:+ itemCount count;
  cl_collapsedAnnouncement := fun label => label +:+ " collapsed";
  cl_levelAnnouncement := fun parentLabel depth count =>
    parentLabel +:+ ", level " +:+ show_nat depth +:+ ", " +:+ itemCount count;
  cl_resultsAnnouncement := fun count =>
    if Nat.eqb count 1 then "1 result" else show_nat count +:+ " results";
  cl_maxReachedAnnouncement := fun max => "Selection limit of " +:+ show_Z max +:+ " reached";
  cl_cascadeAnnouncement := fun label count selecting =>
    label +:+ " " +:+ (if selecting then "selected" else "deselected") +:+ ", " +:+
    itemCount count +:+ " followed";
  cl_searchingAnnouncement := "Searching..."
|}.
Definition resolveCascaderSearchLabel (labels : CascaderLabels) (parentLabel : option string)
    : string :=
  match cl_search labels with SearchFun f => f parentLabel | SearchText s => s end.

(** ** Props *)

(** [items] with its identity, on which the index is memoized. *)
Record CascaderProps := mkCP {
  items_id : nat;
  cp_items : list CascaderNode;
  cp_getParent : option (CascaderNode -> option string);
  cp_getChildren : bool;
  cp_onSearch : bool;
  cp_resolveValue : bool;
  cp_prefetch : bool;
  cp_value : option Value;
  cp_multiple : bool;
  cp_selectable : CascaderSelectable;
  cp_cascade : bool;
  cp_max : option Z;
  cp_mode : CascaderMode;
  cp_path : option Arr;
  cp_expanded : option Arr;
  cp_open : option bool;
  cp_closeOnSelect : bool;
  cp_inputValue : option string;
  cp_deep : bool;
  cp_filter : option (CascaderNode -> string -> bool);
  cp_revealSelected : bool;
  cp_labels : CascaderLabels;
  cp_inline : bool;
  cp_virtualize : option bool;
  cp_virtualizeThreshold : nat
}.
(** The state and the refs a render reads besides the props. *)
Record Shown := mkShown {
  sh_value : Value;
  sh_path : Arr;
  sh_expanded : Arr;
  sh_open : bool;
  sh_query : string
}.
Record View := mkView {
  v_props : CascaderProps;
  v_base : CascaderIndex;
  v_index : CascaderIndex;
  v_states : jsmap CascaderLoadState;
  v_searchResults : option (list CascaderNode);
  v_searchState : option CascaderLoadState;
  v_shown : Shown
}.
Record CascaderColumn := mkColumn {
  co_parent : option CascaderNode;
  co_depth : nat;
  co_activeValue : option string;
  co_active : bool;
  co_items : list CascaderNode
}.
(** One signal per navigation. *)
Record Signal := mkSignal { sg_seq : nat; sg_toggled : option string; sg_notice : option string }.
Inductive PendingKind := PPush | PAt (depth : Z) | PExpand.
Record PendingNavigation := mkPending { pn_value : string; pn_kind : PendingKind }.

#[export] Instance CascaderMode_eq_dec : EqDecision CascaderMode.
Proof. solve_decision. Defined.
Definition is_tree (m : CascaderMode) : bool := bool_decide (m = MTree).

(** [value ? ... : null] on an optional string. *)
Definition truthy_value (v : option string) : option string :=
  match v with Some (String _ _ as s) => Some s | _ => None end.

(** A node by value: the index, else the last one seen, else the bare value. *)
Definition resolveNode (index : CascaderIndex) (cache : jsmap CascaderNode) (nodeValue : string)
    : CascaderNode :=
  mget (byValue index) nodeValue ?? (mget cache nodeValue ??
    CNode nodeValue nodeValue [] false None false [] false).
Definition cache_selected (index : CascaderIndex) (cache : jsmap CascaderNode)
    (selected : list string) : jsmap CascaderNode :=
  fold_left (fun m v => match mget (byValue index) v with
                        | Some node => mset m v node
                        | None => m
                        end) selected cache.

(** The levels worth fetching. *)
Definition shown_levels (mode : CascaderMode) (path expandedList : list string) : list string :=
  match mode with
  | MTree => CASCADER_ROOT_KEY :: expandedList
  | MColumns => CASCADER_ROOT_KEY :: path
  | MDrill => [last path ?? CASCADER_ROOT_KEY]
  end.

Section View.
(** [String.prototype.toLocaleLowerCase] of the host's locale. *)
Context (fold : string -> string).
Implicit Types (v : View).

(** *** Reading a render *)
Definition v_mode v : CascaderMode := cp_mode (v_props v).
Definition v_path v : list string := a_items (sh_path (v_shown v)).
Definition v_expanded v : jsset := set_of (a_items (sh_expanded (v_shown v))).
Definition v_query v : string := sh_query (v_shown v).
Definition selectedValues v : list string := toArray (sh_value (v_shown v)).
Definition v_live v : bool := sh_open (v_shown v) || cp_inline (v_props v).

Definition needsChildren v (node : CascaderNode) : bool :=
  if negb (cp_getChildren (v_props v)) then false
  else match mget (v_states v) (cn_value node) with
       | Some state => ls_loading state || ls_error state
       | None => negb (mhas (childrenOf (v_base v)) (cn_value node))
       end.
Definition needsMoreRow v (key : string) (childCount : nat) : bool :=
  match mget (v_states v) key with
  | None => false
  | Some state =>
      if Nat.ltb 0 childCount then ls_hasMore state || ls_loading state || ls_error state
      else is_tree (v_mode v) && (ls_loading state || ls_error state)
  end.

Definition currentParentValue v : option string := last (v_path v).
Definition node_at v (value : option string) : option CascaderNode :=
  match truthy_value value with Some p => mget (byValue (v_index v)) p | None => None end.
Definition currentParent v : option CascaderNode := node_at v (currentParentValue v).
Definition currentLevelKey v : string := currentParentValue v ?? CASCADER_ROOT_KEY.

(** The consumer's matcher, or the library's. *)
Definition matcher v : CascaderNode -> string -> bool :=
  cp_filter (v_props v) ?? matchesCascaderQuery fold.
Definition is_querying v : bool := negb (String.eqb (trim (v_query v)) "").
Definition isDeepSearching v : bool :=
  cp_deep (v_props v) && is_querying v && negb (is_tree (v_mode v)).
Definition localDeepResults v : option (list CascaderNode) :=
  if isDeepSearching v
  then Some (searchCascaderDeep fold (v_index v) (v_query v) (currentParentValue v) 200 (matcher v))
  else None.
Definition deepResults v : option (list CascaderNode) :=
  match v_searchResults v with Some hits => Some hits | None => localDeepResults v end.

Definition levelItems v : list CascaderNode :=
  filterCascaderLevel fold (getCascaderChildren (v_index v) (currentParentValue v))
    (v_query v) (matcher v).
(** Rows of a level, with its paging row. *)
Definition paged v (key : string) (rows : list CascaderNode) : list CascaderNode :=
  if needsMoreRow v key (length rows)
  then rows ++ [createCascaderMoreNode key (length rows)] else rows.
Definition levelRendered v : list CascaderNode :=
  match deepResults v with
  | Some hits => hits
  | None => paged v (currentLevelKey v) (levelItems v)
  end.

Definition column v (depth : nat) : CascaderColumn :=
  let parentValue := match depth with 0 => None | S d => v_path v !! d end in
  let isActive := Nat.eqb depth (length (v_path v)) in
  mkColumn (node_at v parentValue) depth (v_path v !! depth) isActive
    (if isActive then levelRendered v
     else paged v (parentValue ?? CASCADER_ROOT_KEY)
            (getCascaderChildren (v_index v) parentValue)).
Definition columns v : list CascaderColumn :=
  match v_mode v with
  | MColumns => map (column v) (List.seq 0 (S (length (v_path v))))
  | _ => []
  end.

Definition treeSentinels v : jsset :=
  set_of (bfilter (fun key =>
      needsMoreRow v key (length (mget (childrenOf (v_index v)) key ?? [])))
    (CASCADER_ROOT_KEY :: v_expanded v)).
(** The hits of a tree query and their ancestors. *)
Definition tree_keep v (normalized : string) : jsset :=
  fold_left sadd
    (flat_map (fun node => map cn_value (getCascaderPath (v_index v) (Some (cn_value node))))
       (bfilter (fun node => matcher v node normalized) (all (v_index v)))) [].
Definition treeRows v : list CascaderFlatNode :=
  if negb (is_tree (v_mode v)) then []
  else
    let normalized := normalizeCascaderQuery fold (v_query v) in
    if String.eqb normalized "" then
      flattenCascaderTree (v_index v) (v_expanded v) (treeSentinels v)
    else
      let keep := tree_keep v normalized in
      bfilter (fun row => sin (cn_value (fn_node row)) keep)
        (flattenCascaderTree (v_index v) (set_of (v_expanded v ++ keep)) []).
Definition renderedItems v : list CascaderNode :=
  if is_tree (v_mode v) then map fn_node (treeRows v) else levelRendered v.

Definition isBranch v (node : CascaderNode) : bool := isCascaderBranch (v_index v) node.
Definition isSelectable v (node : CascaderNode) : bool :=
  isCascaderSelectable (v_index v) node (cp_selectable (v_props v)).
Definition isSelected v (node : CascaderNode) : bool :=
  sin (cn_value node) (set_of (selectedValues v)).
Definition selectedDescendants v : jsmap nat :=
  getCascaderSelectedDescendants (v_index v) (selectedValues v).
Definition selectedDescendantCount v (node : CascaderNode) : nat :=
  mget (selectedDescendants v) (cn_value node) ?? 0.
Definition isIndeterminate v (node : CascaderNode) : bool :=
  cp_cascade (v_props v) && cp_multiple (v_props v) &&
  sin (cn_value node) (getCascaderIndeterminateFrom (selectedDescendants v) (selectedValues v)).

(** *** What the live region says *)
Definition announcedMatches v : nat :=
  match deepResults v with
  | Some hits => length hits
  | None =>
      let normalized := normalizeCascaderQuery fold (v_query v) in
      if String.eqb normalized "" then 0
      else length (bfilter (fun node => negb (isCascaderMoreNode node) && matcher v node normalized)
                     (renderedItems v))
  end.

(** The word joiner, in UTF-8. *)
Definition ANNOUNCE_MARKER : string := String (chr 226) (String (chr 129) (str1 (chr 160))).

(** The sentence with no notice standing, and whether it may be deferred. *)
Definition announcement_text v (signal : Signal) (pending : option PendingNavigation)
    : string * bool :=
  let labels := cp_labels (v_props v) in
  let total := length (renderedItems v) in
  let toggledNode :=
    if is_tree (v_mode v) then node_at v (sg_toggled signal) else None in
  let pendingState :=
    match pending with Some pn => mget (v_states v) (pn_value pn) | None => None end in
  let levelState :=
    if is_querying v then v_searchState v else mget (v_states v) (currentLevelKey v) in
  if from_option ls_error false pendingState then (cl_error labels, false)
  else if bool_decide (is_Some pending) then (cl_loading labels, false)
  else if from_option ls_error false levelState then (cl_error labels, false)
  else if from_option ls_loading false levelState then
    (if is_querying v then cl_searchingAnnouncement labels
     else if Nat.ltb 0 total then cl_loadingMore labels else cl_loading labels, false)
  else if is_querying v then
    (if Nat.eqb (announcedMatches v) 0 then cl_empty labels
     else cl_resultsAnnouncement labels (announcedMatches v), true)
  else match toggledNode, currentParent v with
       | Some node, _ =>
           (if sin (cn_value node) (v_expanded v)
            then cl_expandedAnnouncement labels (cn_label node) (getCascaderCount (v_index v) node)
            else cl_collapsedAnnouncement labels (cn_label node), false)
       | None, Some parent =>
           (cl_levelAnnouncement labels (cn_label parent) (length (v_path v) + 1) total, false)
       | None, None => (cl_rootAnnouncement labels total, false)
       end.
Definition announcementTarget v (signal : Signal) (pending : option PendingNavigation)
    : string * bool :=
  if negb (v_live v) then ("", false)
  else
    let marker := if Nat.eqb (Nat.modulo (sg_seq signal) 2) 0 then "" else ANNOUNCE_MARKER in
    match sg_notice signal with
    | Some (String _ _ as said) => (said +:+ marker, false)
    | _ => let '(text, defer) := announcement_text v signal pending in (text +:+ marker, defer)
    end.
End View.

(** ** Development warnings *)

(** What [useCascaderDevWarnings] passes to [warnCascaderOnce]: key and text. *)
Record DevOptions := mkDev {
  dv_mode : CascaderMode;
  dv_multiple : bool;
  dv_cascade : bool;
  dv_indicator : bool;
  dv_leafOnly : bool;
  dv_deep : bool;
  dv_max : bool;
  dv_value : option Value;
  dv_defaultValue : option Value;
  dv_hasExpanded : bool;
  dv_hasPath : bool;
  dv_hasOnSearch : bool
}.
Definition mode_name (m : CascaderMode) : string :=
  match m with MDrill => "drill" | MColumns => "columns" | MTree => "tree" end.
Definition quoted (s : string) : string := str1 dquote +:+ s +:+ str1 dquote.

Definition issue_warnings (issues : CascaderDataIssues) : list (string * string) :=
  map (fun duplicate =>
    ("duplicate-value:" +:+ duplicate,
     "Duplicate node value " +:+ quote_str duplicate +:+
     ". `value` is the selection key, so only the first occurrence is indexed and the rest never render."))
    (duplicates issues) ++
  map (fun cycle =>
    ("cycle:" +:+ cycle,
     "`getParent` puts " +:+ quote_str cycle +:+
     " on a cycle. The depth walk is cycle-guarded so nothing hangs, but every depth on that chain is clamped rather than derived."))
    (cycles issues).
Definition shape_warning (multiple : bool) (prop : string) (current : option Value)
    : list (string * string) :=
  match current with
  | None => []
  | Some (One _) =>
      if multiple then
        [("value-shape:multiple:" +:+ prop,
          "`multiple` is set but `" +:+ prop +:+
          "` is a string. Multi-select reads and writes a `string[]`; a string is treated as no selection at all.")]
      else []
  | Some (Many _) =>
      if multiple then []
      else
        [("value-shape:single:" +:+ prop,
          "`" +:+ prop +:+
          "` is an array but `multiple` is not set. Single-select reads and writes a `string`; only the first entry would survive a commit.")]
  end.
Definition prop_warnings (o : DevOptions) : list (string * string) :=
  let name := mode_name (dv_mode o) in
  let tree := quoted "tree" in
  let when (b : bool) (key text : string) := if b then [(key, text)] else [] in
  shape_warning (dv_multiple o) "value" (dv_value o) ++
  shape_warning (dv_multiple o) "defaultValue" (dv_defaultValue o) ++
  when (dv_cascade o && negb (dv_multiple o)) "cascade-without-multiple"
    "`cascade` does nothing without `multiple`: a single selection has no subtree to propagate over." ++
  when (dv_cascade o && dv_leafOnly o) "cascade-with-leaf-selectable"
    ("`cascade` does nothing while `selectable=" +:+ quoted "leaf" +:+
     "`: no branch can be committed, so no commit ever has a subtree under it. Pass `selectable=" +:+
     quoted "any" +:+ "` or a predicate that accepts branches.") ++
  when (negb (dv_indicator o) && dv_multiple o) "indicator-false-with-multiple"
    "`indicator={false}` does nothing with `multiple`: the checkbox is the selection control rather than a decoration, so it and its gutter stay. Mark selection your own way from `data-selected` on the row, and drop the prop." ++
  when (dv_max o && negb (dv_multiple o)) "max-without-multiple"
    "`max` does nothing without `multiple`: there is only ever one selection to cap." ++
  when (dv_hasExpanded o && negb (is_tree (dv_mode o))) ("expanded-outside-tree:" +:+ name)
    ("`expanded` only does something in `mode=" +:+ tree +:+ "`, and this cascader is in `mode=" +:+
     quoted name +:+ "`. Drill and columns navigate with `path`.") ++
  when (dv_hasPath o && is_tree (dv_mode o)) "path-in-tree"
    ("`path` does nothing in `mode=" +:+ tree +:+
     "`: branches expand in place rather than replacing the level. Use `expanded`.") ++
  when (dv_deep o && is_tree (dv_mode o)) "deep-search-in-tree"
    ("`searchScope=" +:+ quoted "deep" +:+ "` does nothing in `mode=" +:+ tree +:+
     "`: a tree query already matches at any depth and auto-expands the ancestors of every hit.") ++
  when (dv_hasOnSearch o && is_tree (dv_mode o)) "onsearch-in-tree"
    ("`onSearch` does nothing in `mode=" +:+ tree +:+
     "`: a tree query filters the loaded tree in place, and a server hit belongs to no visible branch, so its results would never render. The request is not fired. Filter the tree locally, or use drill or columns for server search.").
