(* ===== verification/CascaderRoot.v ===== *)
(** * The cascader's root component

    [Cascader] of [reui/cascader/cascader.tsx]: its states and refs are one
    record [Root], a handler is a step from a root to the next with what it
    tells the outside, and [commit_root] is a render followed by the effects
    of the component in the order of their hooks.  Handlers run between
    commits, after the effects of the last one: what they read through
    [latest] and what they close over is the committed render, [r_view].  The
    effects of the loader hook are events of CascaderLoader and may come in
    any order after the commit. *)
From S2P Require Import Prelude JsString JsValue JsMap CascaderLib CascaderLoader CascaderView.

(** ** [useControllable] *)

(** [c_latest] and [c_controlled] are [latest.current], [c_prop] is [lastProp]. *)
Record Ctl (V : Type) := mkCtl {
  c_state : V;
  c_latest : V;
  c_controlled : bool;
  c_prop : option V
}.
Arguments mkCtl {V}.
Arguments c_state {V}.
Arguments c_latest {V}.
Arguments c_controlled {V}.
Arguments c_prop {V}.

Section Controllable.
Context {V : Type} `{!ObjectIs V}.
Implicit Types (c : Ctl V).

Definition is_some (o : option V) : bool := match o with Some _ => true | None => false end.
Definition ctl_value c (controlled : option V) : V := controlled ?? c_state c.
Definition ctl_init (controlled : option V) (defaultValue : V) : Ctl V :=
  mkCtl defaultValue (controlled ?? defaultValue) (is_some controlled) controlled.
(** The effects of a commit. *)
Definition ctl_commit c (controlled : option V) : Ctl V :=
  mkCtl (c_state c) (ctl_value c controlled) (is_some controlled) controlled.
(** [set]: the cell, and the value [onChange] is called with. *)
Definition ctl_set c (next : V -> V) : Ctl V * option V :=
  let resolved := next (c_latest c) in
  if object_is resolved (c_latest c) &&
     (negb (c_controlled c) ||
      match c_prop c with Some p => object_is resolved p | None => false end)
  then (c, None)
  else (mkCtl (if c_controlled c then c_state c else resolved) resolved
          (c_controlled c) (c_prop c), Some resolved).
End Controllable.

(** ** The root *)
Inductive CascaderPathChangeReason := Drill | Back | Breadcrumb | Reveal | External.
Inductive CascaderChangeReason := Select | Deselect | Clear.
Record CascaderChangeDetails := mkChange {
  cd_node : option CascaderNode;
  cd_path : list CascaderNode;
  cd_nodes : list CascaderNode;
  cd_reason : CascaderChangeReason
}.
(** What a step tells the outside: the consumer's callbacks, Base UI's
    [details.cancel()], and the empty frame of a level swap. *)
Inductive Call :=
| OnValueChange (next : Value) (details : CascaderChangeDetails)
| OnPathChange (next : Arr) (reason : CascaderPathChangeReason)
| OnExpandedChange (next : Arr)
| OnOpenChange (next : bool) (reason : string)
| OnInputValueChange (next : string)
| Cancel
| EmptyFrame.

(** The windowing renderers mounted, and the latch of the level. *)
Record VirtualLatch := mkLatch { vl_renderers : nat; vl_key : string; vl_on : bool }.

Record Root := mkRoot {
  r_value : Ctl Value;
  r_path : Ctl Arr;
  r_expanded : Ctl Arr;
  r_open : Ctl bool;
  r_query : Ctl string;
  r_loader : Loader;
  r_base : nat * CascaderIndex;
  r_cache : jsmap CascaderNode;
  r_signal : Signal;
  r_pending : option PendingNavigation;
  r_flyouts : jsset;
  r_highlighted : option CascaderNode;
  r_virtual : VirtualLatch;
  r_swap : string;
  r_announced : string;
  r_timer : option string;
  r_gate : bool * bool;
  r_view : View;
  r_fresh : nat
}.

(** One field replaced. *)
Definition with_path (r : Root) (x : Ctl Arr) : Root :=
  mkRoot (r_value r) x (r_expanded r) (r_open r) (r_query r) (r_loader r) (r_base r)
    (r_cache r) (r_signal r) (r_pending r) (r_flyouts r) (r_highlighted r) (r_virtual r)
    (r_swap r) (r_announced r) (r_timer r) (r_gate r) (r_view r) (r_fresh r).
Definition with_expanded (r : Root) (x : Ctl Arr) : Root :=
  mkRoot (r_value r) (r_path r) x (r_open r) (r_query r) (r_loader r) (r_base r) (r_cache r)
    (r_signal r) (r_pending r) (r_flyouts r) (r_highlighted r) (r_virtual r) (r_swap r)
    (r_announced r) (r_timer r) (r_gate r) (r_view r) (r_fresh r).
Definition with_open (r : Root) (x : Ctl bool) : Root :=
  mkRoot (r_value r) (r_path r) (r_expanded r) x (r_query r) (r_loader r) (r_base r)
    (r_cache r) (r_signal r) (r_pending r) (r_flyouts r) (r_highlighted r) (r_virtual r)
    (r_swap r) (r_announced r) (r_timer r) (r_gate r) (r_view r) (r_fresh r).
Definition with_query (r : Root) (x : Ctl string) : Root :=
  mkRoot (r_value r) (r_path r) (r_expanded r) (r_open r) x (r_loader r) (r_base r) (r_cache r)
    (r_signal r) (r_pending r) (r_flyouts r) (r_highlighted r) (r_virtual r) (r_swap r)
    (r_announced r) (r_timer r) (r_gate r) (r_view r) (r_fresh r).
Definition with_loader (r : Root) (x : Loader) : Root :=
  mkRoot (r_value r) (r_path r) (r_expanded r) (r_open r) (r_query r) x (r_base r) (r_cache r)
    (r_signal r) (r_pending r) (r_flyouts r) (r_highlighted r) (r_virtual r) (r_swap r)
    (r_announced r) (r_timer r) (r_gate r) (r_view r) (r_fresh r).
Definition with_signal (r : Root) (x : Signal) : Root :=
  mkRoot (r_value r) (r_path r) (r_expanded r) (r_open r) (r_query r) (r_loader r) (r_base r)
    (r_cache r) x (r_pending r) (r_flyouts r) (r_highlighted r) (r_virtual r) (r_swap r)
    (r_announced r) (r_timer r) (r_gate r) (r_view r) (r_fresh r).
Definition with_pending (r : Root) (x : option PendingNavigation) : Root :=
  mkRoot (r_value r) (r_path r) (r_expanded r) (r_open r) (r_query r) (r_loader r) (r_base r)
    (r_cache r) (r_signal r) x (r_flyouts r) (r_highlighted r) (r_virtual r) (r_swap r)
    (r_announced r) (r_timer r) (r_gate r) (r_view r) (r_fresh r).
Definition with_flyouts (r : Root) (x : jsset) : Root :=
  mkRoot (r_value r) (r_path r) (r_expanded r) (r_open r) (r_query r) (r_loader r) (r_base r)
    (r_cache r) (r_signal r) (r_pending r) x (r_highlighted r) (r_virtual r) (r_swap r)
    (r_announced r) (r_timer r) (r_gate r) (r_view r) (r_fresh r).
Definition with_highlighted (r : Root) (x : option CascaderNode) : Root :=
  mkRoot (r_value r) (r_path r) (r_expanded r) (r_open r) (r_query r) (r_loader r) (r_base r)
    (r_cache r) (r_signal r) (r_pending r) (r_flyouts r) x (r_virtual r) (r_swap r)
    (r_announced r) (r_timer r) (r_gate r) (r_view r) (r_fresh r).
Definition with_virtual (r : Root) (x : VirtualLatch) : Root :=
  mkRoot (r_value r) (r_path r) (r_expanded r) (r_open r) (r_query r) (r_loader r) (r_base r)
    (r_cache r) (r_signal r) (r_pending r) (r_flyouts r) (r_highlighted r) x (r_swap r)
    (r_announced r) (r_timer r) (r_gate r) (r_view r) (r_fresh r).
Definition with_value (r : Root) (x : Ctl Value) : Root :=
  mkRoot x (r_path r) (r_expanded r) (r_open r) (r_query r) (r_loader r) (r_base r) (r_cache r)
    (r_signal r) (r_pending r) (r_flyouts r) (r_highlighted r) (r_virtual r) (r_swap r)
    (r_announced r) (r_timer r) (r_gate r) (r_view r) (r_fresh r).
Definition with_timer (r : Root) (x : option string) : Root :=
  mkRoot (r_value r) (r_path r) (r_expanded r) (r_open r) (r_query r) (r_loader r) (r_base r)
    (r_cache r) (r_signal r) (r_pending r) (r_flyouts r) (r_highlighted r) (r_virtual r)
    (r_swap r) (r_announced r) x (r_gate r) (r_view r) (r_fresh r).
Definition with_announced (r : Root) (x : string) : Root :=
  mkRoot (r_value r) (r_path r) (r_expanded r) (r_open r) (r_query r) (r_loader r) (r_base r)
    (r_cache r) (r_signal r) (r_pending r) (r_flyouts r) (r_highlighted r) (r_virtual r)
    (r_swap r) x (r_timer r) (r_gate r) (r_view r) (r_fresh r).
Definition with_fresh (r : Root) (x : nat) : Root :=
  mkRoot (r_value r) (r_path r) (r_expanded r) (r_open r) (r_query r) (r_loader r) (r_base r)
    (r_cache r) (r_signal r) (r_pending r) (r_flyouts r) (r_highlighted r) (r_virtual r)
    (r_swap r) (r_announced r) (r_timer r) (r_gate r) (r_view r) x.

(** ** Steps *)
Definition Step := Root -> Root * list Call.
Definition skip : Step := fun r => (r, []).
Definition andThen (f g : Step) : Step := fun r =>
  let '(r1, c1) := f r in let '(r2, c2) := g r1 in (r2, c1 ++ c2).
Notation "f >> g" := (andThen f g) (at level 61, left associativity) : js_scope.
Definition tell (c : Call) : Step := fun r => (r, [c]).
Definition tellAll (cs : list Call) : Step := fun r => (r, cs).
(** A step that reads the committed render. *)
Definition reading (k : View -> Step) : Step := fun r => k (r_view r) r.

(** *** The setters *)

(** [setPath] and [setPathWithReason]. *)
Definition setPathWith (reason : CascaderPathChangeReason) (next : ObjId -> Arr -> Arr) : Step :=
  fun r =>
    let '(c, emitted) := ctl_set (r_path r) (next (Own (r_fresh r))) in
    (with_fresh (with_path r c) (S (r_fresh r)),
     match emitted with Some a => [OnPathChange a reason] | None => [] end).
(** An updater that makes a new array. *)
Definition setPathItems (reason : CascaderPathChangeReason) (f : list string -> list string)
    : Step :=
  setPathWith reason (fun o prev => mkArr o (f (a_items prev))).
Definition setExpandedItems (f : list string -> list string) : Step := fun r =>
  let '(c, emitted) :=
    ctl_set (r_expanded r) (fun prev => mkArr (Own (r_fresh r)) (f (a_items prev))) in
  (with_fresh (with_expanded r c) (S (r_fresh r)),
   match emitted with Some a => [OnExpandedChange a] | None => [] end).
Definition setOpen (next : bool) (reason : string) : Step := fun r =>
  let '(c, emitted) := ctl_set (r_open r) (fun _ => next) in
  (with_open r c, match emitted with Some b => [OnOpenChange b reason] | None => [] end).
Definition setQuery (next : string) : Step := fun r =>
  let '(c, emitted) := ctl_set (r_query r) (fun _ => next) in
  (with_query r c, match emitted with Some q => [OnInputValueChange q] | None => [] end).
Definition setValue (next : Value) : Step := fun r =>
  (with_value r (ctl_set (r_value r) (fun _ => next)).1, []).

Definition setPendingNavigation (p : option PendingNavigation) : Step := fun r =>
  (with_pending r p, []).
Definition on_loader (f : Loader -> Loader) : Step := fun r => (with_loader r (f (r_loader r)), []).
Definition bumpAnnouncement (toggledValue : option string) : Step := fun r =>
  (with_signal r (mkSignal (S (sg_seq (r_signal r))) toggledValue None), []).
Definition announceNotice (said : string) : Step := fun r =>
  (with_signal r (mkSignal (S (sg_seq (r_signal r))) None (Some said)), []).
Definition setFlyoutOpen (key : string) (isOpen : bool) : Step := fun r =>
  (with_flyouts r (if isOpen then sadd (r_flyouts r) key else sdel (r_flyouts r) key), []).
Definition hasOpenFlyout (r : Root) : bool := Nat.ltb 0 (length (r_flyouts r)).

(** *** Navigation *)
Definition requestChildren (node : CascaderNode) (kind : PendingKind) : Step :=
  setPendingNavigation (Some (mkPending (cn_value node) kind))
  >> on_loader (fun l => retryLevel l (cn_value node))
  >> on_loader (fun l => ensureLevel l (cn_value node) RLevel)
  >> bumpAnnouncement None.

Definition pushLevel (nodeValue : string) : Step :=
  setPathItems Drill (fun prev => prev ++ [nodeValue])
  >> setQuery "" >> bumpAnnouncement None.
Definition popLevel : Step :=
  setPathWith Back (fun o prev =>
    if Nat.ltb 0 (length (a_items prev))
    then mkArr o (take (length (a_items prev) - 1) (a_items prev)) else prev)
  >> setQuery "" >> setPendingNavigation None >> bumpAnnouncement None.
Definition goToDepth (depth : Z) : Step :=
  setPathItems Breadcrumb (fun prev => take (Z.to_nat depth) prev)
  >> setQuery "" >> setPendingNavigation None >> bumpAnnouncement None.
Definition toggleExpanded (nodeValue : string) : Step :=
  setExpandedItems (fun prev =>
    if sin nodeValue prev then bfilter (fun v => negb (String.eqb v nodeValue)) prev
    else prev ++ [nodeValue])
  >> bumpAnnouncement (Some nodeValue).
Definition goToLevelAt (nodeValue : string) (depth : Z) : Step :=
  setPathItems Drill (fun prev => take (Z.to_nat depth) prev ++ [nodeValue])
  >> setQuery "" >> bumpAnnouncement None.

Section Root.
(** [String.prototype.toLocaleLowerCase] of the host's locale. *)
Context (fold : string -> string).

Definition navigateAt (node : CascaderNode) (depth : Z) : Step := reading (fun v =>
  if is_tree (v_mode v) then toggleExpanded (cn_value node)
  else if needsChildren v node then requestChildren node (PAt depth)
  else goToLevelAt (cn_value node) depth).

Definition navigate (node : CascaderNode) : Step := reading (fun v =>
  if is_tree (v_mode v) then
    if negb (sin (cn_value node) (v_expanded v)) && needsChildren v node
    then requestChildren node PExpand
    else toggleExpanded (cn_value node)
  else match deepResults fold v with
       | Some _ =>
           let ancestors := getCascaderPath (v_index v) (Some (cn_value node)) in
           if needsChildren v node
           then requestChildren node (PAt (Z.max 0 (Z.of_nat (length ancestors) - 1)))
           else setPathItems Drill (fun _ => map cn_value ancestors)
                >> setQuery "" >> bumpAnnouncement None
       | None =>
           if needsChildren v node then requestChildren node PPush
           else pushLevel (cn_value node)
       end).

(** *** Selection *)
Definition emitSelection (nextValues : Arr) (node : option CascaderNode)
    (reason : CascaderChangeReason) : Step := fun r =>
  let v := r_view r in
  let resolve := resolveNode (v_index v) (r_cache r) in
  if bool_decide (a_items nextValues = selectedValues v) then (r, [])
  else
    let next := if cp_multiple (v_props v) then Many nextValues
                else One (head (a_items nextValues) ?? "") in
    let path := match node with
                | Some n =>
                    let chain := getCascaderPath (v_index v) (Some (cn_value n)) in
                    if Nat.ltb 0 (length chain) then chain else [n]
                | None => []
                end in
    (setValue next >>
     tell (OnValueChange next (mkChange node path (map resolve (a_items nextValues)) reason))) r.

(** [emitSelection] of an array the cascader makes. *)
Definition emitFresh (values : list string) (node : option CascaderNode)
    (reason : CascaderChangeReason) : Step := fun r =>
  emitSelection (mkArr (Own (r_fresh r)) values) node reason (with_fresh r (S (r_fresh r))).

Definition setSelection (values : Arr) (reason : option CascaderChangeReason) : Step := fun r =>
  let current := selectedValues (r_view r) in
  let resolve := resolveNode (v_index (r_view r)) (r_cache r) in
  let added := js_find (fun entry => negb (sin entry (set_of current))) (a_items values) in
  let removed := js_find (fun entry => negb (sin entry (set_of (a_items values)))) current in
  match reason with
  | Some Clear => emitSelection values None Clear r
  | _ =>
      match truthy_value added, truthy_value removed with
      | Some value, _ => emitSelection values (Some (resolve value)) (reason ?? Select) r
      | None, Some value => emitSelection values (Some (resolve value)) (reason ?? Deselect) r
      | None, None => emitSelection values None (reason ?? Select) r
      end
  end.

(** How many values besides [value] a cascade swept along. *)
Definition swept (current next : list string) (value : string) (selecting : bool) : nat :=
  length (bfilter (fun entry =>
      negb (String.eqb entry value) &&
      negb (sin entry (set_of (if selecting then current else next))))
    (if selecting then next else current)).

Definition max_reached (v : View) (max : Z) : Step :=
  announceNotice (cl_maxReachedAnnouncement (cp_labels (v_props v)) max).
Definition commit_single (v : View) (node : CascaderNode) : Step :=
  emitFresh [cn_value node] (Some node) Select
  >> (if cp_closeOnSelect (v_props v) then setOpen false "item-press" else setQuery "").
Definition commit_cascade (v : View) (node : CascaderNode) : Step :=
  let current := selectedValues v in
  let selecting := negb (sin (cn_value node) current) in
  let next := applyCascadeSelection (v_index v) (isSelectable v) current (cn_value node) selecting in
  let commit :=
    emitFresh next (Some node) (if selecting then Select else Deselect)
    >> (let n := swept current next (cn_value node) selecting in
        if Nat.ltb 0 n
        then announceNotice (cl_cascadeAnnouncement (cp_labels (v_props v)) (cn_label node) n selecting)
        else skip)
    >> setQuery "" in
  match cp_max (v_props v) with
  | Some max =>
      if selecting && Z.ltb max (Z.of_nat (length next)) && Nat.ltb (length current) (length next)
      then max_reached v max else commit
  | None => commit
  end.
Definition commit_many (v : View) (node : CascaderNode) : Step :=
  let current := selectedValues v in
  (if sin (cn_value node) current then
     emitFresh (bfilter (fun value => negb (String.eqb value (cn_value node))) current)
       (Some node) Deselect
   else match cp_max (v_props v) with
        | Some max =>
            if Z.ltb (Z.of_nat (length current)) max
            then emitFresh (current ++ [cn_value node]) (Some node) Select
            else max_reached v max
        | None => emitFresh (current ++ [cn_value node]) (Some node) Select
        end)
  >> setQuery "".
Definition commit (node : CascaderNode) : Step := reading (fun v =>
  if negb (cp_multiple (v_props v)) then commit_single v node
  else if cp_cascade (v_props v) then commit_cascade v node
  else commit_many v node).

(** What Base UI proposes as the new value. *)
Inductive Picked :=
| PickedNone
| PickedOne (node : CascaderNode)
| PickedMany (nodes : list CascaderNode).

Definition picked_one (v : View) (node : option CascaderNode) : Step :=
  match node with
  | None => skip
  | Some node =>
      if isCascaderMoreNode node then tell Cancel
      else if negb (isSelectable v node) && isBranch v node then tell Cancel >> navigate node
      else (if cp_closeOnSelect (v_props v) then skip else tell Cancel) >> commit node
  end.
Definition picked_many (v : View) (nextNodes : list CascaderNode) : Step := fun r =>
  let current := selectedValues v in
  let added := js_find (fun node => negb (sin (cn_value node) (set_of current))) nextNodes in
  let plain : Step :=
    if cp_cascade (v_props v) then
      let nextValues := set_of (map cn_value nextNodes) in
      match added, js_find (fun entry => negb (sin entry nextValues)) current with
      | Some node, _ => commit node
      | None, Some removed => commit (resolveNode (v_index v) (r_cache r) removed)
      | None, None => skip
      end
    else
      let take_it : Step := (fun r' =>
        setSelection (mkArr (Own (r_fresh r')) (map cn_value nextNodes)) None
          (with_fresh r' (S (r_fresh r')))) >> setQuery "" in
      match cp_max (v_props v) with
      | Some max =>
          if Nat.ltb (length current) (length nextNodes) &&
             Z.ltb max (Z.of_nat (length nextNodes))
          then tell Cancel >> max_reached v max
          else take_it
      | None => take_it
      end in
  match added with
  | Some node =>
      if isCascaderMoreNode node then tell Cancel r
      else if negb (isSelectable v node) && isBranch v node
      then (tell Cancel >> navigate node) r
      else plain r
  | None => plain r
  end.
Definition handleComboboxValueChange (next : Picked) : Step := reading (fun v =>
  if negb (cp_multiple (v_props v)) then
    picked_one v (match next with
                  | PickedMany nodes => head nodes
                  | PickedOne node => Some node
                  | PickedNone => None
                  end)
  else picked_many v (match next with PickedMany nodes => nodes | _ => [] end)).

(** [details.reason] and whether the event is already cancelled. *)
Definition handleOpenChange (nextOpen isCanceled : bool) (reason : string) : Step := fun r =>
  let v := r_view r in
  if isCanceled then (r, [])
  else if negb nextOpen && String.eqb reason "escape-key" && hasOpenFlyout r then tell Cancel r
  else
    (setOpen nextOpen reason >>
     (if negb nextOpen then setQuery ""
      else if cp_revealSelected (v_props v) then
        setQuery "" >>
        setPathItems Reveal (fun _ =>
          match head (selectedValues v) with
          | Some first =>
              let path := getCascaderPath (v_index v) (Some first) in
              map cn_value (take (length path - 1) path)
          | None => []
          end)
      else skip)) r.

(** [useCascaderSelection]. *)
Record CascaderSelection := mkSelection {
  cs_selected : list CascaderNode;
  cs_paths : list (list CascaderNode);
  cs_first : option CascaderNode;
  cs_firstPath : list CascaderNode;
  cs_count : nat;
  cs_isEmpty : bool
}.
Definition useCascaderSelection (v : View) : CascaderSelection :=
  let values := selectedValues v in
  let selected := omap (mget (byValue (v_index v))) values in
  let paths := map (fun value => getCascaderPath (v_index v) (Some value)) values in
  mkSelection selected paths (head selected) (head paths ?? []) (length values)
    (Nat.eqb (length values) 0).
(** [setSelection] of an array the hook makes. *)
Definition setSelectionFresh (values : list string) (reason : option CascaderChangeReason) : Step :=
  fun r => setSelection (mkArr (Own (r_fresh r)) values) reason (with_fresh r (S (r_fresh r))).
Definition selection_remove (value : string) : Step := reading (fun v =>
  setSelectionFresh (bfilter (fun entry => negb (String.eqb entry value)) (selectedValues v)) None).
Definition selection_clear : Step := setSelectionFresh [] (Some Clear).

(** The highlight as an external store, with the times it notified. *)
Record HighlightStore := mkHighlight { hs_index : Z; hs_value : option string; hs_notified : nat }.
Definition createCascaderHighlightStore : HighlightStore := mkHighlight (-1) None 0.
Definition highlight_set (s : HighlightStore) (index : Z) (value : option string) : HighlightStore :=
  if Z.eqb index (hs_index s) && bool_decide (value = hs_value s) then s
  else mkHighlight index value (S (hs_notified s)).

Definition onItemHighlighted (item : option CascaderNode) : Step := fun r =>
  on_loader (fun l => prefetchNode l item) (with_highlighted r item).
End Root.

(** ** Commits *)

(** The index of [items], rebuilt when the array is another one. *)
Definition base_memo (previous : nat * CascaderIndex) (p : CascaderProps) : nat * CascaderIndex :=
  if Nat.eqb (items_id p) previous.1 then previous
  else (items_id p, buildCascaderIndex (cp_items p) (cp_getParent p)).

Definition shown_values (p : CascaderProps) (r : Root) : Shown :=
  mkShown (ctl_value (r_value r) (cp_value p)) (ctl_value (r_path r) (cp_path p))
    (ctl_value (r_expanded r) (cp_expanded p)) (ctl_value (r_open r) (cp_open p))
    (ctl_value (r_query r) (cp_inputValue p)).

Definition loader_props (p : CascaderProps) (base : CascaderIndex) (s : Shown) : LoaderProps :=
  let path := a_items (sh_path s) in
  {| p_base := base; p_getChildren := cp_getChildren p;
     p_onSearch := negb (is_tree (cp_mode p)) && cp_onSearch p;
     p_resolveValue := cp_resolveValue p; p_prefetch := cp_prefetch p;
     p_enabled := sh_open s || cp_inline p; p_query := sh_query s;
     p_levels := shown_levels (cp_mode p) path (a_items (sh_expanded s));
     p_path := path; p_values := toArray (sh_value s) |}.

Definition render (p : CascaderProps) (base : CascaderIndex) (l : Loader) (s : Shown) : View :=
  let lp := loader_props p base s in
  mkView p base
    (mergeCascaderIndex base (pages (store l)) (Some (detached (store l))))
    (states (store l)) (search_results l lp) (search_state l lp) s.

Section Commit.
Context (fold : string -> string).

(** The key of the level, and whether the list is windowed. *)
Definition level_key (v : View) : string := currentParentValue v ?? "".
Definition wantsVirtual (v : View) : bool :=
  cp_virtualize (v_props v) ??
  Nat.leb (cp_virtualizeThreshold (v_props v)) (length (renderedItems fold v)).
Definition virtualized (l : VirtualLatch) (v : View) : bool :=
  Nat.ltb 0 (vl_renderers l) &&
  (if String.eqb (vl_key l) (level_key v) then vl_on l || wantsVirtual v else wantsVirtual v).
Definition next_latch (l : VirtualLatch) (v : View) : VirtualLatch :=
  let key := level_key v in
  if Nat.eqb (vl_renderers l) 0 then mkLatch (vl_renderers l) key false
  else if negb (String.eqb (vl_key l) key) then mkLatch (vl_renderers l) key (virtualized l v)
  else if virtualized l v && negb (vl_on l) then mkLatch (vl_renderers l) (vl_key l) true
  else l.

(** The render and the effects that only write refs. *)
Definition commit_render (p : CascaderProps) : Step := fun r =>
  let base := base_memo (r_base r) p in
  let s := shown_values p r in
  let v := render p base.2 (r_loader r) s in
  let '(text, defer) := announcementTarget fold v (r_signal r) (r_pending r) in
  (mkRoot (ctl_commit (r_value r) (cp_value p)) (ctl_commit (r_path r) (cp_path p))
     (ctl_commit (r_expanded r) (cp_expanded p)) (ctl_commit (r_open r) (cp_open p))
     (ctl_commit (r_query r) (cp_inputValue p))
     (CascaderLoader.handle (r_loader r) (Committed (loader_props p base.2 s))) base
     (cache_selected (v_index v) (r_cache r) (selectedValues v))
     (r_signal r) (r_pending r) (r_flyouts r) (r_highlighted r) (next_latch (r_virtual r) v)
     (level_key v) (if defer then r_announced r else text) (if defer then Some text else None)
     (r_gate r) v (r_fresh r),
   if String.eqb (r_swap r) (level_key v) then [] else [EmptyFrame]).

(** The held navigation happens once the load has settled. *)
Definition settle_effect : Step := fun r =>
  match r_pending r with
  | None => (r, [])
  | Some pn =>
      match mget (v_states (r_view r)) (pn_value pn) with
      | None => (r, [])
      | Some state =>
          if ls_loading state || ls_error state then (r, [])
          else (setPendingNavigation None >>
                match pn_kind pn with
                | PExpand => toggleExpanded (pn_value pn)
                | PAt depth => goToLevelAt (pn_value pn) depth
                | PPush => pushLevel (pn_value pn)
                end) r
      end
  end.
(** The effect keyed on [open] and [inline]. *)
Definition close_effect : Step := fun r =>
  let deps := (sh_open (v_shown (r_view r)), cp_inline (v_props (r_view r))) in
  if bool_decide (deps = r_gate r) then (r, [])
  else
    let r1 := if deps.1 || deps.2 then r else with_pending r None in
    (mkRoot (r_value r1) (r_path r1) (r_expanded r1) (r_open r1) (r_query r1) (r_loader r1)
       (r_base r1) (r_cache r1) (r_signal r1) (r_pending r1) (r_flyouts r1) (r_highlighted r1)
       (r_virtual r1) (r_swap r1) (r_announced r1) (r_timer r1) deps (r_view r1) (r_fresh r1), []).
Definition commit_root (p : CascaderProps) : Step :=
  commit_render p >> settle_effect >> close_effect.

(** ** Events *)
Inductive RootEvent :=
| CommitRoot (p : CascaderProps)
| LoaderEvent (e : CascaderLoader.event)
| AnnounceTimer
| SetPath (next : Arr)
| PushLevel (value : string)
| PopLevel
| GoToDepth (depth : Z)
| ToggleExpanded (value : string)
| SetFlyoutOpen (key : string) (isOpen : bool)
| SetQuery (text : string)
| SetSelection (values : Arr) (reason : option CascaderChangeReason)
| CommitNode (node : CascaderNode)
| Navigate (node : CascaderNode)
| NavigateAt (node : CascaderNode) (depth : Z)
| ValueChange (next : Picked)
| OpenChange (nextOpen isCanceled : bool) (reason : string)
| Highlight (item : option CascaderNode)
| RegisterRenderer
| UnregisterRenderer.

Definition root_step (e : RootEvent) : Step :=
  match e with
  | CommitRoot p => commit_root p
  | LoaderEvent (Committed _) => skip
  | LoaderEvent e => on_loader (fun l => CascaderLoader.handle l e)
  | AnnounceTimer => fun r =>
      match r_timer r with
      | Some text => (with_timer (with_announced r text) None, [])
      | None => (r, [])
      end
  | SetPath next => setPathWith External (fun _ _ => next)
  | PushLevel value => pushLevel value
  | PopLevel => popLevel
  | GoToDepth depth => goToDepth depth
  | ToggleExpanded value => toggleExpanded value
  | SetFlyoutOpen key isOpen => setFlyoutOpen key isOpen
  | SetQuery text => setQuery text
  | SetSelection values reason => setSelection values reason
  | CommitNode node => commit node
  | Navigate node => navigate fold node
  | NavigateAt node depth => navigateAt node depth
  | ValueChange next => handleComboboxValueChange fold next
  | OpenChange nextOpen isCanceled reason => handleOpenChange nextOpen isCanceled reason
  | Highlight item => onItemHighlighted item
  | RegisterRenderer => fun r =>
      (with_virtual r (mkLatch (S (vl_renderers (r_virtual r))) (vl_key (r_virtual r))
                         (vl_on (r_virtual r))), [])
  | UnregisterRenderer => fun r =>
      (with_virtual r (mkLatch (vl_renderers (r_virtual r) - 1) (vl_key (r_virtual r))
                         (vl_on (r_virtual r))), [])
  end.
Fixpoint root_run (es : list RootEvent) : Step :=
  match es with [] => skip | e :: rest => root_step e >> root_run rest end.

(** The first render. *)
Record CascaderDefaults := mkDefaults {
  defaultValue : option Value;
  defaultPath : option Arr;
  defaultExpanded : option Arr;
  defaultOpen : bool;
  defaultInputValue : string
}.
Definition mount (p : CascaderProps) (d : CascaderDefaults) : Root * list Call :=
  let value := ctl_init (cp_value p)
    (defaultValue d ?? (if cp_multiple p then Many (mkArr (Own 0) []) else One "")) in
  let path := ctl_init (cp_path p) (defaultPath d ?? mkArr (Own 1) []) in
  let expanded := ctl_init (cp_expanded p) (defaultExpanded d ?? mkArr (Own 2) []) in
  let open := ctl_init (cp_open p) (defaultOpen d) in
  let query := ctl_init (cp_inputValue p) (defaultInputValue d) in
  let s := mkShown (c_latest value) (c_latest path) (c_latest expanded) (c_latest open)
             (c_latest query) in
  let base := buildCascaderIndex (cp_items p) (cp_getParent p) in
  let l := CascaderLoader.initial (loader_props p base s) in
  let v := render p base l s in
  let signal := mkSignal 0 None None in
  commit_root p
    (mkRoot value path expanded open query l (items_id p, base) [] signal None [] None
       (mkLatch 0 (level_key v) false) (level_key v) (announcementTarget fold v signal None).1 None
       (sh_open s, cp_inline p) v 3).
End Commit.
