(* ===== verification/CascaderRootLaws.v ===== *)
(** * Laws of the cascader's root

    What a held navigation waits for and does, what a press may add to the
    selection, and that a change the consumer declined is asked for again;
    then three concrete sessions in which the code does not do what its
    comments say. *)
From S2P Require Import Prelude JsString JsValue JsMap CascaderLib CascaderLoader CascaderView CascaderRoot.

(** ** Sessions on a small tree *)

(** [b] and its child are loaded, [a] has to be fetched. *)
Definition leaf (value : string) : CascaderNode := CNode value value [] false None false [] false.
Definition branch (value : string) (children : list CascaderNode) : CascaderNode :=
  CNode value value children true None false [] false.
Definition demo_items : list CascaderNode := [branch "a" []; branch "b" [leaf "b1"; branch "b2" []]].
Definition demo_props : CascaderProps := {|
  items_id := 0; cp_items := demo_items; cp_getParent := None; cp_getChildren := true;
  cp_onSearch := false; cp_resolveValue := false; cp_prefetch := false; cp_value := None;
  cp_multiple := false; cp_selectable := SelLeaf; cp_cascade := false; cp_max := None;
  cp_mode := MDrill; cp_path := None; cp_expanded := None; cp_open := Some true;
  cp_closeOnSelect := true; cp_inputValue := None; cp_deep := false; cp_filter := None;
  cp_revealSelected := true; cp_labels := CASCADER_LABELS; cp_inline := false;
  cp_virtualize := None; cp_virtualizeThreshold := 100 |}.
Definition no_defaults : CascaderDefaults := mkDefaults None None None false "".
Definition demo : Root := (mount to_lower demo_props no_defaults).1.
Definition play (r : Root) (es : list RootEvent) : Root * list Call := root_run to_lower es r.

(** The navigation held for [a] is not dropped by entering [b] meanwhile, and
    its answer then puts [a] under [b]. *)
Lemma held_push_lands_elsewhere :
  let '(r, _) := play demo
    [Navigate (branch "a" []); CommitRoot demo_props;
     Navigate (branch "b" []); CommitRoot demo_props;
     LoaderEvent (Respond 0 (Items [leaf "a1"])); CommitRoot demo_props] in
  a_items (c_latest (r_path r)) = ["b"; "a"] /\
  parent_of (parentOf (v_index (r_view r))) "a" = None.
Proof. vm_compute. split; reflexivity. Qed.

Definition deep_props : CascaderProps := {|
  items_id := 0; cp_items := demo_items; cp_getParent := None; cp_getChildren := true;
  cp_onSearch := false; cp_resolveValue := false; cp_prefetch := false; cp_value := None;
  cp_multiple := false; cp_selectable := SelLeaf; cp_cascade := false; cp_max := None;
  cp_mode := MDrill; cp_path := None; cp_expanded := None; cp_open := Some true;
  cp_closeOnSelect := true; cp_inputValue := None; cp_deep := true; cp_filter := None;
  cp_revealSelected := true; cp_labels := CASCADER_LABELS; cp_inline := false;
  cp_virtualize := None; cp_virtualizeThreshold := 100 |}.
Definition search_b2 (respond : list RootEvent) : Root :=
  (play (mount to_lower deep_props no_defaults).1
     ([SetQuery "b2"; CommitRoot deep_props; Navigate (branch "b2" []); CommitRoot deep_props] ++
      respond)).1.

(** A deep hit whose children have to be fetched does not rebuild the trail
    the same hit gets once they are there. *)
Lemma deep_hit_loses_trail :
  let answer := [LoaderEvent (Respond 0 (Items [leaf "b21"])); CommitRoot deep_props] in
  a_items (c_latest (r_path (search_b2 answer))) = ["b2"] /\
  a_items (c_latest (r_path (play (search_b2 answer)
    [GoToDepth 0; SetQuery "b2"; CommitRoot deep_props; Navigate (branch "b2" [])]).1)) = ["b"; "b2"].
Proof. vm_compute. split; reflexivity. Qed.

Definition veto_props : CascaderProps := {|
  items_id := 0; cp_items := demo_items; cp_getParent := None; cp_getChildren := false;
  cp_onSearch := false; cp_resolveValue := false; cp_prefetch := false; cp_value := None;
  cp_multiple := false; cp_selectable := SelFun (fun _ => false); cp_cascade := false;
  cp_max := None; cp_mode := MDrill; cp_path := None; cp_expanded := None; cp_open := Some true;
  cp_closeOnSelect := true; cp_inputValue := None; cp_deep := false; cp_filter := None;
  cp_revealSelected := true; cp_labels := CASCADER_LABELS; cp_inline := false;
  cp_virtualize := None; cp_virtualizeThreshold := 100 |}.
(** A leaf the predicate refuses is committed: the safety net stops branches only. *)
Lemma unselectable_leaf_is_committed :
  let '(r, calls) := play (mount to_lower veto_props no_defaults).1 [ValueChange (PickedOne (leaf "b1"))] in
  isSelectable (r_view r) (leaf "b1") = false /\ c_latest (r_value r) = One "b1".
Proof. vm_compute. split; reflexivity. Qed.

(** ** Frames *)

(** A step of which [P] holds of every call and that keeps the committed render. *)
Definition obeys (v : View) (P : Call -> Prop) (s : Step) : Prop :=
  forall r, r_view r = v -> r_view (s r).1 = v /\ Forall P (s r).2.

Lemma obeys_then v P f g : obeys v P f -> obeys v P g -> obeys v P (f >> g).
Proof.
  intros Hf Hg r Hr. unfold andThen. destruct (f r) as [r1 c1] eqn:E1.
  destruct (Hf r Hr) as [H1 C1]. rewrite E1 in H1, C1. destruct (g r1) as [r2 c2] eqn:E2.
  destruct (Hg r1 H1) as [H2 C2]. rewrite E2 in H2, C2.
  split; [done|]. by apply Forall_app.
Qed.
Lemma obeys_skip v P : obeys v P skip.
Proof. by intros r Hr. Qed.
Lemma obeys_tell v (P : Call -> Prop) c : P c -> obeys v P (tell c).
Proof. intros Hc r Hr. split; [done|]. by constructor. Qed.
Lemma obeys_reading v P k : obeys v P (k v) -> obeys v P (reading k).
Proof. intros H r Hr. unfold reading. rewrite Hr. by apply H. Qed.
Lemma obeys_if v P (b : bool) f g : obeys v P f -> obeys v P g -> obeys v P (if b then f else g).
Proof. by destruct b. Qed.

(** What is not an announcement of a selection. *)
Definition not_value (c : Call) : Prop := match c with OnValueChange _ _ => False | _ => True end.
Definition admits (P : Call -> Prop) : Prop := forall c, not_value c -> P c.

(** The path, the held navigation and the fresh ids are left alone. *)
Definition path_calls (calls : list Call) : list (list string) :=
  omap (fun c => match c with OnPathChange a _ => Some (a_items a) | _ => None end) calls.
Lemma path_calls_app a b : path_calls (a ++ b) = path_calls a ++ path_calls b.
Proof. apply omap_app. Qed.
Definition calm (s : Step) : Prop := forall r,
  r_path (s r).1 = r_path r /\ r_pending (s r).1 = r_pending r /\
  path_calls (s r).2 = [] /\ r_fresh r <= r_fresh (s r).1.

Lemma calm_then f g : calm f -> calm g -> calm (f >> g).
Proof.
  intros Hf Hg r. unfold andThen. destruct (f r) as [r1 c1] eqn:E1.
  destruct (Hf r) as (A1 & A2 & A3 & A4). rewrite E1 in A1, A2, A3, A4.
  destruct (g r1) as [r2 c2] eqn:E2.
  destruct (Hg r1) as (B1 & B2 & B3 & B4). rewrite E2 in B1, B2, B3, B4.
  cbn [fst snd] in *. rewrite path_calls_app, A3, B3. repeat split; [congruence.. |lia].
Qed.
Lemma calm_if (b : bool) f g : calm f -> calm g -> calm (if b then f else g).
Proof. by destruct b. Qed.
Lemma calm_reading k : (forall v, calm (k v)) -> calm (reading k).
Proof. intros H r. apply H. Qed.

Ltac step_frame := intros r; cbn; repeat case_match; simplify_eq/=; repeat split; auto with lia.
Lemma calm_skip : calm skip. Proof. step_frame. Qed.
Lemma calm_query q : calm (setQuery q).
Proof. intros r. unfold setQuery. destruct (ctl_set _ _) as [c [x|]]; cbn; auto. Qed.
Lemma calm_open b why : calm (setOpen b why).
Proof. intros r. unfold setOpen. destruct (ctl_set _ _) as [c [x|]]; cbn; auto. Qed.
Lemma calm_expanded f : calm (setExpandedItems f).
Proof. intros r. unfold setExpandedItems. destruct (ctl_set _ _) as [c [x|]]; cbn; auto. Qed.
Lemma calm_value x : calm (setValue x). Proof. step_frame. Qed.
Lemma calm_loader f : calm (on_loader f). Proof. step_frame. Qed.
Lemma calm_bump t : calm (bumpAnnouncement t). Proof. step_frame. Qed.
Lemma calm_notice s : calm (announceNotice s). Proof. step_frame. Qed.
Lemma calm_flyout k b : calm (setFlyoutOpen k b). Proof. step_frame. Qed.
Lemma calm_tell c : path_calls [c] = [] -> calm (tell c).
Proof. intros H r. cbn. auto. Qed.
Lemma calm_toggle x : calm (toggleExpanded x).
Proof. apply calm_then; [apply calm_expanded|apply calm_bump]. Qed.
#[local] Hint Resolve calm_then calm_if calm_reading calm_skip calm_query calm_open calm_expanded
  calm_value calm_loader calm_bump calm_notice calm_flyout calm_toggle : calm.
#[local] Hint Extern 1 (calm (tell _)) => (apply calm_tell; reflexivity) : calm.

Lemma calm_emit a n why : calm (emitSelection a n why).
Proof.
  intros r. unfold emitSelection. case_bool_decide; [cbn; auto|].
  apply (calm_then (setValue _) (tell _)); auto with calm.
Qed.
Lemma calm_fresh l n why : calm (emitFresh l n why).
Proof.
  intros r. unfold emitFresh.
  destruct (calm_emit (mkArr (Own (r_fresh r)) l) n why (with_fresh r (S (r_fresh r)))) as (A & B & C & D).
  cbn in *. repeat split; [done..|lia].
Qed.
#[local] Hint Resolve calm_emit calm_fresh : calm.
Lemma calm_selection a why : calm (setSelection a why).
Proof. intros r. unfold setSelection. repeat case_match; apply calm_emit. Qed.
Lemma calm_commit node : calm (commit node).
Proof.
  apply calm_reading. intros v. apply calm_if; [|apply calm_if].
  - unfold commit_single. auto with calm.
  - unfold commit_cascade, max_reached. repeat case_match; auto 10 with calm.
  - unfold commit_many, max_reached. apply calm_then; [|auto with calm]. repeat case_match; auto with calm.
Qed.

(** ** Held navigation *)
Definition path_items (r : Root) : list string := a_items (c_latest (r_path r)).
(** The cascader owns its path, and its arrays are older than the next one. *)
Definition own_path (r : Root) : Prop :=
  c_controlled (r_path r) = false /\ c_state (r_path r) = c_latest (r_path r) /\
  (forall n, a_id (c_latest (r_path r)) = Own n -> n < r_fresh r).
Definition settled (s : jsmap CascaderLoadState) (value : string) : bool :=
  match mget s value with
  | Some state => negb (ls_loading state || ls_error state)
  | None => false
  end.
(** The events that do not navigate, under a consumer that leaves the path to
    the cascader. *)
Definition quiet (e : RootEvent) : Prop :=
  match e with
  | CommitRoot p => cp_path p = None
  | SetPath _ | PushLevel _ | PopLevel | GoToDepth _ | Navigate _ | NavigateAt _ _
  | ValueChange _ => False
  | OpenChange nextOpen _ _ => nextOpen = false
  | _ => True
  end.
(** The popup is shown by every render of the run: inline, held open by the
    consumer, or open of its own. *)
Definition shows (e : RootEvent) (r : Root) : Prop :=
  match e with
  | CommitRoot p => cp_inline p = true \/ ctl_value (r_open r) (cp_open p) = true
  | _ => True
  end.
Fixpoint stays_open (fold : string -> string) (es : list RootEvent) (r : Root) : Prop :=
  match es with
  | [] => True
  | e :: rest => shows e r /\ stays_open fold rest (root_step fold e r).1
  end.
Definition calm_event (e : RootEvent) : Prop := match e with CommitRoot _ => False | _ => True end.

Lemma quiet_calm fold e : quiet e -> calm_event e -> calm (root_step fold e).
Proof.
  intros Hq Hc. destruct e; cbn in Hq, Hc; try done; cbn [root_step]; auto with calm.
  - destruct e; first [apply calm_skip | apply calm_loader].
  - step_frame.
  - apply calm_selection.
  - apply calm_commit.
  - subst. intros r. unfold handleOpenChange. destruct isCanceled; [by apply calm_skip|].
    case_match; [by apply (calm_tell Cancel)|]. apply calm_then; [apply calm_open|apply calm_query].
Qed.
Lemma calm_own s r : calm s -> own_path r -> own_path (s r).1.
Proof.
  intros H (A & B & C). destruct (H r) as (E1 & _ & _ & E4). unfold own_path. rewrite E1.
  repeat split; [done..|]. intros n Hn. specialize (C n Hn). lia.
Qed.

(** A write of the path lands, with one call. *)
Lemma path_write why f r : own_path r ->
  let '(r', calls) := setPathItems why f r in
  own_path r' /\ path_items r' = f (path_items r) /\ calls = [OnPathChange (mkArr (Own (r_fresh r)) (f (path_items r))) why] /\
  r_pending r' = r_pending r /\ r_view r' = r_view r /\ r_gate r' = r_gate r.
Proof.
  intros (A & B & C). unfold setPathItems, setPathWith, ctl_set, object_is, arr_is. cbn.
  rewrite A. cbn [negb orb]. rewrite andb_true_r. case_bool_decide as H.
  - symmetry in H. apply C in H. lia.
  - cbn. repeat split; cbn; auto. intros n [= ->]. lia.
Qed.

(** Where a held navigation leads from [path]. *)
Definition arrival (pn : PendingNavigation) (path : list string) : list string :=
  match pn_kind pn with
  | PPush => path ++ [pn_value pn]
  | PAt depth => take (Z.to_nat depth) path ++ [pn_value pn]
  | PExpand => path
  end.
Definition moves (pn : PendingNavigation) : Prop := pn_kind pn <> PExpand.

Lemma query_frame q r :
  let '(r', calls) := setQuery q r in
  r_path r' = r_path r /\ r_pending r' = r_pending r /\ r_fresh r' = r_fresh r /\
  r_view r' = r_view r /\ r_gate r' = r_gate r /\ path_calls calls = [].
Proof. unfold setQuery. by destruct (ctl_set _ _) as [c [x|]]. Qed.

(** The move itself, whichever the kind. *)
Lemma arrive_spec pn r : moves pn -> own_path r -> r_pending r = None ->
  let '(r', calls) :=
    match pn_kind pn with
    | PExpand => toggleExpanded (pn_value pn)
    | PAt depth => goToLevelAt (pn_value pn) depth
    | PPush => pushLevel (pn_value pn)
    end r in
  own_path r' /\ path_items r' = arrival pn (path_items r) /\
  path_calls calls = [arrival pn (path_items r)] /\ r_pending r' = None /\
  r_view r' = r_view r /\ r_gate r' = r_gate r.
Proof.
  intros Hm Ho Hp. unfold moves in Hm.
  assert (forall f, f (path_items r) = arrival pn (path_items r) ->
    let '(r', calls) := (setPathItems Drill f >> setQuery "" >> bumpAnnouncement None) r in
    own_path r' /\ path_items r' = arrival pn (path_items r) /\
    path_calls calls = [arrival pn (path_items r)] /\ r_pending r' = None /\
    r_view r' = r_view r /\ r_gate r' = r_gate r) as K.
  { intros f Hf. unfold andThen. pose proof (path_write Drill f r Ho) as H.
    destruct (setPathItems Drill f r) as [r1 c1]. destruct H as (O & I & -> & P & V & G).
    pose proof (query_frame "" r1) as H. destruct (setQuery "" r1) as [r2 c2].
    destruct H as (Q1 & Q2 & Q3 & Q4 & Q5 & Q6). unfold bumpAnnouncement, own_path, path_items in *.
    rewrite !path_calls_app, Q6. cbn. rewrite Q1, Q3, Q2, Q4, Q5, <- Hf.
    destruct O as (O1 & O2 & O3). repeat split; congruence || done. }
  destruct (pn_kind pn) eqn:E; [apply K|apply K|done]; unfold arrival; by rewrite E.
Qed.

(** What the commit of [p] reads of the held navigation's level. *)
Definition commit_answers (e : RootEvent) (r : Root) (value : string) : bool :=
  match e with CommitRoot _ => settled (states (store (r_loader r))) value | _ => false end.

Lemma render_frame fold p r : own_path r -> cp_path p = None ->
  let '(r1, calls) := commit_render fold p r in
  own_path r1 /\ path_items r1 = path_items r /\ r_pending r1 = r_pending r /\
  r_gate r1 = r_gate r /\ v_states (r_view r1) = states (store (r_loader r)) /\
  v_props (r_view r1) = p /\
  sh_open (v_shown (r_view r1)) = ctl_value (r_open r) (cp_open p) /\ path_calls calls = [].
Proof.
  intros (A & B & C) Hp. unfold commit_render.
  destruct (announcementTarget _ _ _ _) as [text defer].
  unfold own_path, path_items, render, shown_values. cbn. rewrite Hp. cbn. rewrite B.
  repeat split; try done. by destruct (String.eqb _ _).
Qed.
Lemma close_frame r : sh_open (v_shown (r_view r)) || cp_inline (v_props (r_view r)) = true ->
  let '(r', calls) := close_effect r in
  r_path r' = r_path r /\ r_pending r' = r_pending r /\ r_fresh r' = r_fresh r /\ calls = [].
Proof.
  intros H. unfold close_effect. case_bool_decide; [done|]. cbn. by rewrite H.
Qed.

Lemma settle_spec r : own_path r ->
  let '(r', calls) := settle_effect r in
  own_path r' /\ r_view r' = r_view r /\
  match r_pending r with
  | Some pn =>
      moves pn ->
      if settled (v_states (r_view r)) (pn_value pn)
      then r_pending r' = None /\ path_items r' = arrival pn (path_items r) /\
           path_calls calls = [arrival pn (path_items r)]
      else r_pending r' = Some pn /\ path_items r' = path_items r /\ path_calls calls = []
  | None => r_pending r' = None /\ path_items r' = path_items r /\ path_calls calls = []
  end.
Proof.
  intros Ho. unfold settle_effect, settled. destruct (r_pending r) as [pn|] eqn:Ep; [|done].
  destruct (mget _ _) as [st|]; [|done]. destruct (_ || _); [done|]. cbn [negb].
  unfold andThen, setPendingNavigation. set (r0 := with_pending r None).
  assert (own_path r0 /\ r_pending r0 = None /\ path_items r0 = path_items r /\ r_view r0 = r_view r)
    as (O0 & P0 & I0 & V0) by done.
  destruct (pn_kind pn) eqn:Ek.
  3: { pose proof (calm_own _ _ (calm_toggle (pn_value pn)) O0) as O1.
       assert (r_view (toggleExpanded (pn_value pn) r0).1 = r_view r0) as V1.
       { unfold toggleExpanded, andThen, setExpandedItems. by destruct (ctl_set _ _). }
       destruct (toggleExpanded _ r0) as [r1 c1]. cbn [fst] in *.
       split; [done|]. split; [congruence|]. intros []; done. }
  all: assert (moves pn) as Hm by (unfold moves; congruence);
    pose proof (arrive_spec pn r0 Hm O0 P0) as H; rewrite Ek in H;
    match type of H with let '(_, _) := ?x in _ => destruct x as [r1 c1] end;
    destruct H as (A & B & C & D & V & _); rewrite I0 in *;
    (split; [done|]); (split; [congruence|]); intros _; cbn [app]; auto.
Qed.

(** One quiet event: the navigation stays held, or its load has settled and it happens. *)
Lemma quiet_step fold e r : quiet e -> shows e r -> own_path r ->
  let '(r', calls) := root_step fold e r in
  own_path r' /\
  match r_pending r with
  | Some pn =>
      moves pn ->
      if commit_answers e r (pn_value pn)
      then r_pending r' = None /\ path_items r' = arrival pn (path_items r) /\
           path_calls calls = [arrival pn (path_items r)]
      else r_pending r' = Some pn /\ path_items r' = path_items r /\ path_calls calls = []
  | None => r_pending r' = None /\ path_items r' = path_items r /\ path_calls calls = []
  end.
Proof.
  intros Hq Hlive Ho. destruct (root_step fold e r) as [r' calls] eqn:E.
  assert (calm_event e -> own_path r' /\ r_path r' = r_path r /\ r_pending r' = r_pending r /\
    path_calls calls = []) as Hcalm.
  { intros Hc. pose proof (quiet_calm fold e Hq Hc) as H. pose proof (calm_own _ r H Ho) as Ho'.
    destruct (H r) as (A & B & C & D). by rewrite E in *. }
  destruct e; try (destruct Hcalm as (A & B & C & D); [done|]; split; [done|];
    unfold path_items; rewrite B, C; destruct (r_pending r); [intros _|]; cbn [commit_answers]; by auto).
  clear Hcalm. cbn [root_step] in E. unfold commit_root, andThen in E.
  pose proof (render_frame fold p r Ho Hq) as H.
  destruct (commit_render fold p r) as [r1 c1]. destruct H as (O1 & I1 & P1 & G1 & S1 & V1 & W1 & C1).
  assert (sh_open (v_shown (r_view r1)) || cp_inline (v_props (r_view r1)) = true) as Hl.
  { rewrite W1, V1. destruct Hlive as [Hi|Ho']; [by rewrite Hi, orb_true_r|by rewrite Ho']. }
  pose proof (settle_spec r1 O1) as H. rewrite P1, I1, S1 in H.
  destruct (settle_effect r1) as [r2 c2]. destruct H as (O2 & V2 & H2).
  pose proof (close_frame r2) as H. rewrite V2 in H. specialize (H Hl).
  destruct (close_effect r2) as [r3 c3]. destruct H as (K1 & K2 & K3 & ->). simplify_eq.
  split; [unfold own_path; by rewrite K1, K3|].
  unfold path_items in *. rewrite K1, K2, !path_calls_app, C1.
  destruct (r_pending r) as [pn|]; cbn [commit_answers]; [intros Hm; specialize (H2 Hm)|];
    try destruct (settled _ _); destruct H2 as (-> & -> & ->); by rewrite ?app_nil_r.
Qed.

(** Whether the level's answer reaches a commit of the run. *)
Fixpoint answered (fold : string -> string) (es : list RootEvent) (r : Root) (value : string)
    : bool :=
  match es with
  | [] => false
  | e :: rest => commit_answers e r value || answered fold rest (root_step fold e r).1 value
  end.

Lemma quiet_run_idle fold es r : Forall quiet es -> stays_open fold es r -> own_path r ->
  r_pending r = None ->
  let '(r', calls) := root_run fold es r in
  r_pending r' = None /\ path_items r' = path_items r /\ path_calls calls = [].
Proof.
  intros H. revert r. induction H as [|e es He _ IH]; intros r Hs Ho Hp; [done|].
  destruct Hs as [Hs Hss].
  cbn [root_run]. unfold andThen. pose proof (quiet_step fold e r He Hs Ho) as H. rewrite Hp in H.
  destruct (root_step fold e r) as [r1 c1]. destruct H as (O1 & P1 & I1 & C1).
  specialize (IH r1 Hss O1 P1). destruct (root_run fold es r1) as [r2 c2].
  destruct IH as (P2 & I2 & C2). by rewrite path_calls_app, C1, C2, I2.
Qed.

(** C25: load before you move.  Of a cascader that owns its path: a navigation
    held for an unfetched branch (a drill into it, or the opening of it as a
    column; not a tree's expansion, which moves nowhere) moves nothing until a
    commit finds the branch's level neither loading nor failed; then it happens
    exactly once, with one report to the consumer.  This over any run of
    events in which nothing else navigates - no path set, pushed, popped or
    revealed by reopening, no press - and whose renders all show the popup:
    inline, held open by the consumer, or open of its own. *)
Theorem held_navigation_moves_once fold es r pn :
  r_pending r = Some pn -> moves pn -> own_path r -> Forall quiet es -> stays_open fold es r ->
  let '(r', calls) := root_run fold es r in
  if answered fold es r (pn_value pn)
  then r_pending r' = None /\ path_items r' = arrival pn (path_items r) /\
       path_calls calls = [arrival pn (path_items r)]
  else r_pending r' = Some pn /\ path_items r' = path_items r /\ path_calls calls = [].
Proof.
  intros Hp Hm Ho H. revert r Hp Ho. induction H as [|e es He Hes IH]; intros r Hp Ho Hs; [done|].
  destruct Hs as [Hs Hss].
  cbn [root_run answered]. unfold andThen. pose proof (quiet_step fold e r He Hs Ho) as H.
  rewrite Hp in H. destruct (root_step fold e r) as [r1 c1]. destruct H as [O1 H]. specialize (H Hm).
  cbn [fst] in *. destruct (commit_answers e r (pn_value pn)); destruct H as (P1 & I1 & C1); cbn [orb].
  - pose proof (quiet_run_idle fold es r1 Hes Hss O1 P1) as H. destruct (root_run fold es r1) as [r2 c2].
    destruct H as (P2 & I2 & C2). by rewrite path_calls_app, C1, C2, I2.
  - specialize (IH r1 P1 O1 Hss). destruct (root_run fold es r1) as [r2 c2]. rewrite I1 in IH.
    rewrite path_calls_app, C1. by destruct (answered _ _ _ _).
Qed.

(** The default popup, which opens itself. *)
Definition own_props : CascaderProps := {|
  items_id := 0; cp_items := demo_items; cp_getParent := None; cp_getChildren := true;
  cp_onSearch := false; cp_resolveValue := false; cp_prefetch := false; cp_value := None;
  cp_multiple := false; cp_selectable := SelLeaf; cp_cascade := false; cp_max := None;
  cp_mode := MDrill; cp_path := None; cp_expanded := None; cp_open := None;
  cp_closeOnSelect := true; cp_inputValue := None; cp_deep := false; cp_filter := None;
  cp_revealSelected := true; cp_labels := CASCADER_LABELS; cp_inline := false;
  cp_virtualize := None; cp_virtualizeThreshold := 100 |}.
Lemma held_navigation_moves_once_witness :
  let r := (play (mount to_lower own_props no_defaults).1
    [OpenChange true false "trigger-press"; CommitRoot own_props; Navigate (branch "a" [])]).1 in
  let es := [CommitRoot own_props; LoaderEvent (Respond 0 (Items [leaf "a1"]));
             CommitRoot own_props; CommitRoot own_props] in
  answered to_lower es r "a" = true /\ path_items (root_run to_lower es r).1 = ["a"].
Proof.
  intros r es.
  assert (Forall quiet es) as Hq by (repeat constructor; vm_compute; auto).
  assert (own_path r) as Ho by (split; [|split]; [reflexivity..|vm_compute; intros n [= <-]; lia]).
  assert (stays_open to_lower es r) as Hs by (vm_compute; tauto).
  pose proof (held_navigation_moves_once to_lower es r (mkPending "a" PPush) eq_refl ltac:(discriminate) Ho Hq Hs) as H.
  destruct (root_run to_lower es r) as [r' calls] eqn:E.
  assert (answered to_lower es r "a" = true) as Ha by reflexivity.
  cbn [pn_value] in H. rewrite Ha in H. destruct H as (_ & I & _). split; [done|].
  cbn [fst]. rewrite I. reflexivity.
Defined.

(** ** What the consumer declined *)

(** Whether the consumer owns [open], and the last value it passed. *)
Definition open_prop (r : Root) : bool * option bool := (c_controlled (r_open r), c_prop (r_open r)).
Definition keeps_prop (s : Step) : Prop := forall r, open_prop (s r).1 = open_prop r.
Lemma keeps_then f g : keeps_prop f -> keeps_prop g -> keeps_prop (f >> g).
Proof.
  intros Hf Hg r. unfold andThen. specialize (Hf r). destruct (f r) as [r1 c1].
  specialize (Hg r1). destruct (g r1) as [r2 c2]. cbn [fst] in *. congruence.
Qed.
Lemma keeps_if (b : bool) f g : keeps_prop f -> keeps_prop g -> keeps_prop (if b then f else g).
Proof. by destruct b. Qed.
Lemma keeps_reading k : (forall v, keeps_prop (k v)) -> keeps_prop (reading k).
Proof. intros H r. apply H. Qed.
Lemma ctl_set_prop {V} `{!ObjectIs V} (c : Ctl V) f :
  c_controlled (ctl_set c f).1 = c_controlled c /\ c_prop (ctl_set c f).1 = c_prop c.
Proof. unfold ctl_set. by case_match. Qed.
Ltac keeps_set := intros r; cbv delta [setQuery setExpandedItems setPathItems setPathWith]; cbn beta;
  destruct (ctl_set _ _) as [? [?|]]; reflexivity.
Lemma keeps_query q : keeps_prop (setQuery q). Proof. keeps_set. Qed.
Lemma keeps_expanded f : keeps_prop (setExpandedItems f). Proof. keeps_set. Qed.
Lemma keeps_path why f : keeps_prop (setPathWith why f). Proof. keeps_set. Qed.
Lemma keeps_open b why : keeps_prop (setOpen b why).
Proof.
  intros r. unfold setOpen. destruct (ctl_set_prop (r_open r) (fun _ => b)) as [A B].
  destruct (ctl_set _ _) as [c x]. cbn [fst] in *. unfold open_prop. cbn. by rewrite A, B.
Qed.
#[local] Hint Resolve keeps_then keeps_if keeps_reading keeps_query keeps_expanded keeps_path keeps_open : keeps.
#[local] Hint Extern 3 (keeps_prop _) => (intros ?; reflexivity) : keeps.
Lemma keeps_emit a n why : keeps_prop (emitSelection a n why).
Proof. intros r. unfold emitSelection. by case_bool_decide. Qed.
Lemma keeps_fresh l n why : keeps_prop (emitFresh l n why).
Proof.
  intros r. exact (keeps_emit (mkArr (Own (r_fresh r)) l) n why (with_fresh r (S (r_fresh r)))).
Qed.
Lemma keeps_selection a why : keeps_prop (setSelection a why).
Proof. intros r. unfold setSelection. repeat case_match; apply keeps_emit. Qed.
#[local] Hint Resolve keeps_emit keeps_fresh keeps_selection : keeps.
Lemma keeps_request node k : keeps_prop (requestChildren node k).
Proof. unfold requestChildren. auto 10 with keeps. Qed.
Lemma keeps_items why f : keeps_prop (setPathItems why f). Proof. apply keeps_path. Qed.
#[local] Hint Resolve keeps_request keeps_items : keeps.
Lemma keeps_navigate fold node : keeps_prop (navigate fold node).
Proof.
  apply keeps_reading. intros v. unfold toggleExpanded, pushLevel.
  repeat case_match; auto 10 with keeps.
Qed.
Lemma keeps_commit node : keeps_prop (commit node).
Proof.
  apply keeps_reading. intros v. unfold commit_single, commit_cascade, commit_many, max_reached.
  repeat case_match; auto 10 with keeps.
Qed.
#[local] Hint Resolve keeps_navigate keeps_commit : keeps.
Lemma keeps_value fold next : keeps_prop (handleComboboxValueChange fold next).
Proof.
  apply keeps_reading. intros v. apply keeps_if.
  - unfold picked_one. repeat case_match; auto 10 with keeps.
  - set (nodes := match next with PickedMany nodes => nodes | _ => [] end).
    assert (keeps_prop ((fun r' => setSelection (mkArr (Own (r_fresh r')) (map cn_value nodes)) None
              (with_fresh r' (S (r_fresh r')))) >> setQuery "")) as T.
    { apply keeps_then; [|auto with keeps]. intros r.
      apply (keeps_selection _ None (with_fresh r (S (r_fresh r)))). }
    assert (forall m, keeps_prop (tell Cancel >> max_reached v m)) as M
      by (intros m; unfold max_reached; auto with keeps).
    intros r. unfold picked_many. fold nodes.
    repeat case_match; first
      [ reflexivity | apply T | apply M | apply keeps_commit
      | apply (keeps_then (tell Cancel) (navigate fold _)); auto with keeps ].
Qed.
Lemma keeps_event fold e : calm_event e -> keeps_prop (root_step fold e).
Proof.
  intros He. destruct e; cbn in He; try done; cbn [root_step];
    unfold pushLevel, popLevel, goToDepth, toggleExpanded; auto 10 with keeps.
  - destruct e; auto with keeps.
  - intros r. by destruct (r_timer r).
  - unfold navigateAt, goToLevelAt, toggleExpanded. apply keeps_reading. intros v. auto 10 with keeps.
  - apply keeps_value.
  - intros r. unfold handleOpenChange.
    repeat case_match; try done; apply keeps_then; auto 10 with keeps.
Qed.
Lemma keeps_run fold es : Forall calm_event es -> keeps_prop (root_run fold es).
Proof.
  induction 1 as [|e es He _ IH]; [intros r; reflexivity|].
  apply keeps_then; [by apply keeps_event|done].
Qed.

(** A popup can be dismissed again.  Whatever happened since the consumer
    last rendered it open, having declined any number of closes, the next close
    it did not cancel asks the consumer once more; an Escape does so unless a
    flyout takes it. *)
Theorem declined_close_asks_again fold es r reason :
  open_prop r = (true, Some true) -> Forall calm_event es ->
  let r' := (root_run fold es r).1 in
  hasOpenFlyout r' = false \/ reason <> "escape-key" ->
  OnOpenChange false reason ∈ (root_step fold (OpenChange false false reason) r').2.
Proof.
  intros Hr He r' Hf. pose proof (keeps_run fold es He r) as K. fold r' in K. rewrite Hr in K.
  unfold open_prop in K. cbn [root_step]. unfold handleOpenChange. cbn [negb andb].
  replace (String.eqb reason "escape-key" && hasOpenFlyout r') with false.
  2: { destruct Hf as [->|Hf]; [by rewrite andb_false_r|]. by apply String.eqb_neq in Hf as ->. }
  unfold andThen at 1, setOpen, ctl_set. injection K as -> ->.
  unfold object_is, bool_is. cbn [Bool.eqb orb negb]. rewrite andb_false_r.
  destruct (setQuery "" _) as [r2 c2]. cbn. left.
Qed.
Lemma declined_close_asks_again_witness :
  let es := [OpenChange false false "escape-key"; OpenChange false false "outside-press"] in
  open_prop demo = (true, Some true) /\
  OnOpenChange false "escape-key" ∈
    (root_step to_lower (OpenChange false false "escape-key") (root_run to_lower es demo).1).2.
Proof.
  intros es. assert (open_prop demo = (true, Some true)) as H by reflexivity. split; [done|].
  apply (declined_close_asks_again to_lower es demo "escape-key" H);
    [repeat constructor|left; reflexivity].
Defined.

(** ** What a press may select *)
Section Presses.
Context (fold : string -> string) (v : View) (P : Call -> Prop) (HP : admits P).

Lemma obeys_query q : obeys v P (setQuery q).
Proof.
  intros r Hr. unfold setQuery. destruct (ctl_set _ _) as [c [x|]]; split; auto; repeat constructor; by apply HP.
Qed.
Lemma obeys_open b why : obeys v P (setOpen b why).
Proof.
  intros r Hr. unfold setOpen. destruct (ctl_set _ _) as [c [x|]]; split; auto; repeat constructor; by apply HP.
Qed.
Lemma obeys_expanded f : obeys v P (setExpandedItems f).
Proof.
  intros r Hr. unfold setExpandedItems.
  destruct (ctl_set _ _) as [c [x|]]; split; auto; repeat constructor; by apply HP.
Qed.
Lemma obeys_path why f : obeys v P (setPathItems why f).
Proof.
  intros r Hr. unfold setPathItems, setPathWith.
  destruct (ctl_set _ _) as [c [x|]]; split; auto; repeat constructor; by apply HP.
Qed.
Lemma obeys_silent s : (forall r, r_view (s r).1 = r_view r /\ (s r).2 = []) -> obeys v P s.
Proof. intros H r Hr. destruct (H r) as [-> ->]. auto. Qed.
Lemma obeys_bump t : obeys v P (bumpAnnouncement t). Proof. by apply obeys_silent. Qed.
Lemma obeys_notice s : obeys v P (announceNotice s). Proof. by apply obeys_silent. Qed.
Lemma obeys_pending p : obeys v P (setPendingNavigation p). Proof. by apply obeys_silent. Qed.
Lemma obeys_loader f : obeys v P (on_loader f). Proof. by apply obeys_silent. Qed.
Lemma obeys_cancel : obeys v P (tell Cancel). Proof. apply obeys_tell. by apply HP. Qed.

(** The selection a write proposes. *)
Definition proposal (values : list string) (a : Arr) : Value :=
  if cp_multiple (v_props v) then Many a else One (head values ?? "").
Lemma obeys_emit a n why :
  (forall d, cd_reason d = why -> P (OnValueChange (proposal (a_items a) a) d)) ->
  obeys v P (emitSelection a n why).
Proof.
  intros H r Hr. unfold emitSelection. rewrite Hr. case_bool_decide; [by split|].
  apply (obeys_then v P (setValue _) (tell _)); [by apply obeys_silent| |done].
  apply obeys_tell. by apply (H (mkChange _ _ _ why)).
Qed.
Lemma obeys_fresh l n why :
  (forall o d, cd_reason d = why -> P (OnValueChange (proposal l (mkArr o l)) d)) ->
  obeys v P (emitFresh l n why).
Proof.
  intros H r Hr.
  exact (obeys_emit (mkArr (Own (r_fresh r)) l) n why (H _) (with_fresh r (S (r_fresh r))) Hr).
Qed.
Lemma obeys_selection a why :
  (forall d, P (OnValueChange (proposal (a_items a) a) d)) -> obeys v P (setSelection a why).
Proof. intros H r Hr. unfold setSelection. repeat case_match; by apply obeys_emit. Qed.

Lemma obeys_navigate node : obeys v P (navigate fold node).
Proof.
  apply obeys_reading. unfold requestChildren, toggleExpanded, pushLevel.
  repeat case_match; repeat apply obeys_then;
    auto using obeys_pending, obeys_loader, obeys_expanded, obeys_bump, obeys_path, obeys_query.
Qed.
End Presses.
#[local] Hint Resolve obeys_then obeys_skip obeys_if obeys_query obeys_open obeys_notice obeys_cancel
  obeys_navigate : obeys.

(** A press: the row's own commit, or the change Base UI reports. *)
Definition press (e : RootEvent) : Prop :=
  match e with CommitNode _ | ValueChange _ => True | _ => False end.

Definition capped (v : View) (max : Z) (c : Call) : Prop :=
  match c with
  | OnValueChange (Many a) d =>
      cd_reason d = Select ->
      (Z.of_nat (length (a_items a)) <= Z.max max (Z.of_nat (length (selectedValues v))))%Z
  | _ => True
  end.
Lemma capped_admits v m : admits (capped v m).
Proof. intros c Hc. by destruct c. Qed.
#[local] Hint Resolve capped_admits : obeys.

Lemma capped_commit v m node : cp_max (v_props v) = Some m -> obeys v (capped v m) (commit node).
Proof.
  intros Hm. pose proof (capped_admits v m) as HP. apply obeys_reading. case_match; [|case_match].
  - apply obeys_then; [|auto with obeys]. apply obeys_fresh. intros o d _. unfold proposal, capped.
    destruct (cp_multiple _); done.
  - unfold commit_cascade, max_reached. rewrite Hm.
    set (next := applyCascadeSelection _ _ _ _ _).
    destruct (negb (sin (cn_value node) (selectedValues v))) eqn:Es; cbn [andb].
    + case_match eqn:Eg; [auto with obeys|].
      apply obeys_then; [|auto with obeys]. apply obeys_then; [|auto with obeys].
      apply obeys_fresh. intros o d _. unfold proposal, capped. destruct (cp_multiple _); [|done].
      intros _. cbn [a_items]. apply andb_false_iff in Eg as [Eg|Eg]; [apply Z.ltb_ge in Eg|apply Nat.ltb_ge in Eg]; lia.
    + apply obeys_then; [|auto with obeys]. apply obeys_then; [|auto with obeys].
      apply obeys_fresh. intros o d Hd. unfold proposal, capped. rewrite Hd. by destruct (cp_multiple _).
  - unfold commit_many, max_reached. apply obeys_then; [|auto with obeys]. rewrite Hm.
    case_match; [|case_match; [|auto with obeys]]; apply obeys_fresh; intros o d Hd;
      unfold proposal, capped; rewrite Hd; destruct (cp_multiple _); try done.
    intros _. cbn. rewrite length_app. cbn. unbool. lia.
Qed.
Lemma obeys_at v P (s : Step) r : obeys v P s -> r_view r = v ->
  r_view (s r).1 = v /\ Forall P (s r).2.
Proof. intros H. apply H. Qed.
(** The plain change of a multiple selection. *)
Lemma obeys_take v P nodes : admits P ->
  (forall o d, P (OnValueChange (proposal v (map cn_value nodes) (mkArr o (map cn_value nodes))) d)) ->
  obeys v P ((fun r' => setSelection (mkArr (Own (r_fresh r')) (map cn_value nodes)) None
                (with_fresh r' (S (r_fresh r')))) >> setQuery "").
Proof.
  intros HP H. apply obeys_then; [|by apply obeys_query]. intros r Hr.
  refine (obeys_selection v P _ None _ (with_fresh r (S (r_fresh r))) Hr). apply H.
Qed.

(** C27: [max] caps every press that selects.  Whatever row is committed or
    whatever change the listbox reports, with or without cascade, a selection
    the consumer is told of holds at most [max] values, or at most as many as
    it already had. *)
Theorem selecting_respects_max fold e r m :
  press e -> cp_max (v_props (r_view r)) = Some m ->
  Forall (capped (r_view r) m) (root_step fold e r).2.
Proof.
  intros He Hm. set (v := r_view r) in *. pose proof (capped_admits v m) as HP.
  enough (obeys v (capped v m) (root_step fold e)) as H by (by apply (H r)).
  destruct e; try done; cbn [root_step]; [by apply capped_commit|].
  apply obeys_reading. case_match.
  - unfold picked_one. pose proof (capped_commit v m) as K.
    repeat case_match; eauto 8 with obeys.
  - set (nodes := match next with PickedMany nodes => nodes | _ => [] end).
    intros r0 Hr0. unfold picked_many, max_reached. rewrite Hm. pose proof (capped_commit v m) as K.
    assert (Nat.ltb (length (selectedValues v)) (length nodes) && Z.ltb m (Z.of_nat (length nodes)) = false ->
      forall o d, capped v m (OnValueChange (proposal v (map cn_value nodes) (mkArr o (map cn_value nodes))) d)) as T.
    { intros Eg o d. unfold proposal, capped. destruct (cp_multiple _); [|done]. intros _. cbn [a_items].
      rewrite length_map. apply andb_false_iff in Eg as [Eg|Eg]; unbool; lia. }
    repeat case_match; (apply obeys_at; [|done]);
      first [by apply obeys_take; auto | by eauto 8 with obeys].
Qed.
Lemma selecting_respects_max_witness :
  let p := {| items_id := 0; cp_items := [leaf "a"; leaf "b"; leaf "c"]; cp_getParent := None;
    cp_getChildren := false; cp_onSearch := false; cp_resolveValue := false; cp_prefetch := false;
    cp_value := None; cp_multiple := true; cp_selectable := SelLeaf; cp_cascade := false;
    cp_max := Some 2%Z; cp_mode := MDrill; cp_path := None; cp_expanded := None;
    cp_open := Some true; cp_closeOnSelect := true; cp_inputValue := None; cp_deep := false;
    cp_filter := None; cp_revealSelected := true; cp_labels := CASCADER_LABELS; cp_inline := false;
    cp_virtualize := None; cp_virtualizeThreshold := 100 |} in
  let r := (play (mount to_lower p no_defaults).1 [CommitNode (leaf "a"); CommitRoot p]).1 in
  selectedValues (r_view r) = ["a"] /\
  Forall (capped (r_view r) 2) (root_step to_lower (CommitNode (leaf "b")) r).2.
Proof.
  intros p r. split; [reflexivity|].
  apply (selecting_respects_max to_lower (CommitNode (leaf "b")) r 2%Z I). reflexivity.
Defined.

(** Every node of an index or a cache sits at its own value. *)
Definition keyed (m : jsmap CascaderNode) : Prop := forall x n, mget m x = Some n -> cn_value n = x.
Lemma resolve_value index cache x : keyed (byValue index) -> keyed cache ->
  cn_value (resolveNode index cache x) = x.
Proof.
  intros Hi Hc. unfold resolveNode. destruct (mget (byValue index) x) eqn:E; cbn; [by apply Hi|].
  destruct (mget cache x) eqn:E'; cbn; [by apply Hc|done].
Qed.

Lemma sdel_incl s k x : x ∈ sdel s k -> x ∈ s.
Proof.
  induction s as [|y s IH]; [done|]. cbn. destruct (String.eqb y k); rewrite !elem_of_cons; naive_solver.
Qed.
Lemma toggle_in on next k x : x ∈ toggle_value on next k -> x ∈ next \/ (x = k /\ on = true).
Proof. destruct on; cbn; [rewrite sadd_elem|intros H%sdel_incl]; naive_solver. Qed.

(** What a cascade adds: the value pressed, and nodes that may be committed. *)
Lemma cascade_adds index sel selected value on x : keyed (byValue index) ->
  x ∈ applyCascadeSelection index sel selected value on ->
  x ∈ selected \/ (x = value /\ on = true) \/ exists n, sel n = true /\ cn_value n = x.
Proof.
  intros Hk. unfold applyCascadeSelection.
  set (ok (s : jsset) := forall y, y ∈ s -> y ∈ selected \/ (y = value /\ on = true) \/ exists n, sel n = true /\ cn_value n = y).
  assert (ok (toggle_subtree index sel value on (set_of selected))) as H0.
  { unfold toggle_subtree. set (subtree := collectCascaderSubtree index value). clearbody subtree.
    assert (ok (if Nat.eqb (length subtree) 0 then toggle_value on (set_of selected) value
                else set_of selected)) as H.
    { intros y Hy. destruct (Nat.eqb _ _);
        [apply toggle_in in Hy as [Hy|[-> Ho]]; [|by auto]|]; left; by apply set_of_spec. }
    revert H. generalize (if Nat.eqb (length subtree) 0 then toggle_value on (set_of selected) value
                else set_of selected). induction subtree as [|n l IH]; intros s Hs; [done|].
    cbn [fold_left]. apply IH. destruct (negb (String.eqb (cn_value n) value) && negb (sel n)) eqn:E; [done|].
    intros y Hy. apply toggle_in in Hy as [Hy|[-> Hon]]; [by apply Hs|].
    apply andb_false_iff in E as [E|E]; [|right; right; exists n; unbool; split; [by destruct (sel n)|done]].
    apply negb_false_iff, String.eqb_eq in E. auto. }
  revert H0. generalize (toggle_subtree index sel value on (set_of selected)).
  induction (ancestors (parentOf index) value) as [|c cs IH]; intros s Hs; [apply Hs|].
  cbn [fold_left]. apply IH. unfold reconcile. intros y Hy.
  destruct (is_full index sel s c) eqn:E; [|apply sdel_incl in Hy; by apply Hs].
  apply sadd_elem in Hy as [->|Hy]; [|by apply Hs]. right; right.
  unfold is_full in E. apply andb_true_iff in E as [_ E].
  destruct (mget (byValue index) c) as [n|] eqn:En; [|done]. exists n. split; [done|by apply Hk].
Qed.

(** A node a press may select: not the paging row, and not a branch that is
    only for entering. *)
Definition pressable (v : View) (node : CascaderNode) : Prop :=
  isCascaderMoreNode node = false /\ (isSelectable v node = true \/ isBranch v node = false).
Definition picked_nodes (next : Picked) : list CascaderNode :=
  match next with PickedNone => [] | PickedOne node => [node] | PickedMany nodes => nodes end.
Definition value_items (value : Value) : list string :=
  match value with One x => [x] | Many a => a_items a end.
(** Every value is selected already, was pressed, or follows in a cascade. *)
Definition chosen (v : View) (pressed : list CascaderNode) (x : string) : Prop :=
  x ∈ selectedValues v \/ (exists n, n ∈ pressed /\ cn_value n = x /\ pressable v n) \/
  (cp_cascade (v_props v) = true /\ exists n, isSelectable v n = true /\ cn_value n = x).
Definition chosen_call (v : View) (pressed : list CascaderNode) (c : Call) : Prop :=
  match c with OnValueChange value _ => Forall (chosen v pressed) (value_items value) | _ => True end.
(** Base UI's report of one press adds one row at most. *)
Definition one_new (current : list string) (nodes : list CascaderNode) : Prop :=
  forall n n', n ∈ nodes -> n' ∈ nodes -> cn_value n ∉ current -> cn_value n' ∉ current -> n = n'.

Lemma chosen_admits v ns : admits (chosen_call v ns).
Proof. intros c Hc. by destruct c. Qed.
Lemma not_vetoed v node : isCascaderMoreNode node = false ->
  negb (isSelectable v node) && isBranch v node = false -> pressable v node.
Proof.
  intros Hm H. split; [done|]. apply andb_false_iff in H as [H|H]; [left|by right].
  by destruct (isSelectable v node).
Qed.
Lemma chosen_proposal v ns l o d : Forall (chosen v ns) l -> l <> [] \/ cp_multiple (v_props v) = true ->
  chosen_call v ns (OnValueChange (proposal v l (mkArr o l)) d).
Proof.
  intros Hl Hne. unfold proposal. destruct (cp_multiple _); cbn; [done|].
  destruct l as [|x l]; [by destruct Hne|]. inversion Hl. cbn. by constructor.
Qed.

(** A commit of a row whose value is selected already or that may be pressed. *)
Lemma chosen_commit v ns node : keyed (byValue (v_index v)) ->
  cn_value node ∈ selectedValues v /\ cp_multiple (v_props v) = true \/ (node ∈ ns /\ pressable v node) ->
  obeys v (chosen_call v ns) (commit node).
Proof.
  intros Hk Hn. pose proof (chosen_admits v ns) as HP.
  assert (cn_value node ∉ selectedValues v -> chosen v ns (cn_value node)) as Hnew.
  { intros Hx. destruct Hn as [[Hn _]|[Hn Hp]]; [done|]. right; left. by exists node. }
  assert (forall x, x ∈ selectedValues v -> chosen v ns x) as Hold by (intros x Hx; by left).
  apply obeys_reading. destruct (cp_multiple (v_props v)) eqn:Em; cbn [negb].
  - case_match.
    + unfold commit_cascade, max_reached.
      set (next := applyCascadeSelection _ _ _ _ _). assert (Forall (chosen v ns) next) as Hnext.
      { apply Forall_forall. intros x Hx. apply cascade_adds in Hx as [Hx|[[-> Ho]|(n & Hs & Hx)]]; [auto..| |done].
        - apply Hnew. apply negb_true_iff in Ho. by apply sin_false in Ho.
        - right; right. eauto. }
      repeat case_match; repeat apply obeys_then; auto 6 with obeys;
        apply obeys_fresh; intros; apply chosen_proposal; auto.
    + unfold commit_many, max_reached. apply obeys_then; [|auto with obeys].
      repeat case_match; auto with obeys; apply obeys_fresh; intros; apply chosen_proposal; auto.
      * apply Forall_forall. intros x Hx%bfilter_elem. apply Hold, Hx.
      * apply Forall_app. split; [by apply Forall_forall|]. constructor; [|done]. apply Hnew. by apply sin_false.
      * apply Forall_app. split; [by apply Forall_forall|]. constructor; [|done]. apply Hnew. by apply sin_false.
  - unfold commit_single. apply obeys_then; [|auto with obeys]. apply obeys_fresh. intros.
    apply chosen_proposal; [|by left]. constructor; [|done].
    destruct Hn as [[_ [=]]|[Hn Hp]]. right; left. by exists node.
Qed.

(** The first row a report adds. *)
Definition added_row (v : View) (nodes : list CascaderNode) : option CascaderNode :=
  js_find (fun n => negb (sin (cn_value n) (set_of (selectedValues v)))) nodes.
Lemma added_some v nodes n : added_row v nodes = Some n -> n ∈ nodes /\ cn_value n ∉ selectedValues v.
Proof.
  intros [H1 H2]%find_some. apply list_elem_of_In in H1. apply negb_true_iff, sin_false in H2.
  split; [done|]. intros H3. apply H2. by apply set_of_spec.
Qed.
Lemma added_none v nodes n : added_row v nodes = None -> n ∈ nodes -> cn_value n ∈ selectedValues v.
Proof.
  intros Hf Hn. apply list_elem_of_In in Hn. pose proof (find_none _ _ Hf n Hn) as F.
  apply negb_false_iff, sin_elem in F. by apply set_of_spec.
Qed.

(** The plain change, when every new row of it may be pressed. *)
Lemma chosen_take v ns nodes : cp_multiple (v_props v) = true -> (forall n, n ∈ nodes -> n ∈ ns) ->
  (forall n, n ∈ nodes -> cn_value n ∉ selectedValues v -> pressable v n) ->
  forall o d, chosen_call v ns
    (OnValueChange (proposal v (map cn_value nodes) (mkArr o (map cn_value nodes))) d).
Proof.
  intros Em Hin Hp o d. apply chosen_proposal; [|by right]. apply Forall_forall. intros x Hx.
  apply list_elem_of_fmap_1 in Hx as (n & -> & Hn).
  destruct (decide (cn_value n ∈ selectedValues v)); [by left|]. right; left. exists n. auto.
Qed.

Lemma chosen_many fold ns nodes r : let v := r_view r in
  keyed (byValue (v_index v)) -> keyed (r_cache r) -> cp_multiple (v_props v) = true ->
  (forall n, n ∈ nodes -> n ∈ ns) -> one_new (selectedValues v) nodes ->
  Forall (chosen_call v ns) (picked_many fold v nodes r).2.
Proof.
  intros v Hk Hc Em Hin Hone. pose proof (chosen_admits v ns) as HP.
  pose proof (chosen_take v ns nodes Em Hin) as T.
  enough (r_view (picked_many fold v nodes r).1 = v /\
    Forall (chosen_call v ns) (picked_many fold v nodes r).2) as [_ H] by done.
  unfold picked_many, max_reached. fold (added_row v nodes).
  destruct (added_row v nodes) as [n|] eqn:Ef.
  - destruct (added_some v nodes n Ef) as [Hn1 Hn2].
    destruct (isCascaderMoreNode n) eqn:E1; [by apply obeys_at; auto with obeys|].
    destruct (negb (isSelectable v n) && isBranch v n) eqn:E2; [by apply obeys_at; auto with obeys|].
    pose proof (not_vetoed v n E1 E2) as Hp.
    assert (forall n', n' ∈ nodes -> cn_value n' ∉ selectedValues v -> pressable v n') as Hall.
    { intros n' A B. by rewrite (Hone n' n A Hn1 B Hn2). }
    repeat case_match; (apply obeys_at; [|done]);
      first [apply chosen_commit; auto | by apply obeys_take; auto | by eauto 8 with obeys].
  - assert (forall n', n' ∈ nodes -> cn_value n' ∉ selectedValues v -> pressable v n') as Hall.
    { intros n' A B. by apply (added_none v nodes n' Ef) in A. }
    repeat case_match; (apply obeys_at; [|done]);
      first [ by apply obeys_take; auto | by eauto 8 with obeys | idtac ].
    apply chosen_commit; [done|]. left. split; [|done]. rewrite resolve_value by done.
    match goal with H : js_find _ _ = Some _ |- _ => apply find_some in H as [H _] end.
    by apply list_elem_of_In.
Qed.

(** C26: a press selects what may be selected.  Whatever the listbox reports of
    one press, no selection the consumer is told of gains the paging row or a
    branch that may only be entered; with cascade, what follows a row may be
    committed itself. *)
Theorem press_selects_allowed fold r next :
  keyed (byValue (v_index (r_view r))) -> keyed (r_cache r) ->
  one_new (selectedValues (r_view r)) (picked_nodes next) ->
  Forall (chosen_call (r_view r) (picked_nodes next)) (root_step fold (ValueChange next) r).2.
Proof.
  intros Hk Hc Hone. pose proof (chosen_admits (r_view r) (picked_nodes next)) as HP.
  cbn [root_step]. unfold handleComboboxValueChange, reading.
  destruct (cp_multiple (r_view r).(v_props)) eqn:Em; cbn [negb].
  - apply chosen_many; [done..| |]; destruct next; try done; [set_solver..| |]; intros ? ?; set_solver.
  - destruct next as [|node|[|node l]]; cbn [picked_one head]; try constructor;
      apply (obeys_at (r_view r) _ (picked_one fold (r_view r) (Some node))); try done; cbn [picked_one];
      (destruct (isCascaderMoreNode node) eqn:E1; [auto with obeys|]);
      (destruct (negb _ && _) eqn:E2; [auto with obeys|]);
      (apply obeys_then; [by destruct (cp_closeOnSelect _); auto with obeys|]);
      (apply chosen_commit; [done|]); right; (split; [set_solver|by apply not_vetoed]).
Qed.
(** The demo one level down. *)
Definition demo_in_b : Root := (play demo [PushLevel "b"; CommitRoot demo_props]).1.
Lemma demo_in_b_keyed : keyed (byValue (v_index (r_view demo_in_b))) /\ keyed (r_cache demo_in_b).
Proof.
  assert (byValue (v_index (r_view demo_in_b)) =
    [("a", branch "a" []); ("b", branch "b" [leaf "b1"; branch "b2" []]); ("b1", leaf "b1"); ("b2", branch "b2" [])])
    as -> by (vm_compute; reflexivity).
  assert (r_cache demo_in_b = []) as -> by (vm_compute; reflexivity).
  split; intros x n H; [|discriminate]. cbn [mget] in H.
  repeat match type of H with
         | context [String.eqb ?k x] => destruct (String.eqb_spec k x); [by simplify_eq|]
         end. discriminate.
Qed.
Lemma press_selects_allowed_witness :
  length (root_step to_lower (ValueChange (PickedOne (leaf "b1"))) demo_in_b).2 = 2 /\
  Forall (chosen_call (r_view demo_in_b) [leaf "b1"])
    (root_step to_lower (ValueChange (PickedOne (leaf "b1"))) demo_in_b).2.
Proof.
  split; [vm_compute; reflexivity|]. destruct demo_in_b_keyed as [Hk Hc].
  apply (press_selects_allowed to_lower demo_in_b (PickedOne (leaf "b1")) Hk Hc).
  intros a b Ha Hb _ _. apply list_elem_of_singleton in Ha as ->, Hb as ->. reflexivity.
Defined.

(** ** The live region *)
(** Two equal notices in a row are two different sentences. *)
Lemma notice_is_heard_twice fold v n t t' p p' said :
  v_live v = true -> said <> "" ->
  announcementTarget fold v (mkSignal n t (Some said)) p <>
  announcementTarget fold v (mkSignal (S n) t' (Some said)) p'.
Proof.
  intros Hv Hs. unfold announcementTarget. rewrite Hv. cbn [negb sg_notice sg_seq].
  destruct said as [|c said]; [done|].
  destruct (Nat.eqb_spec (Nat.modulo n 2) 0) as [E|E];
  destruct (Nat.eqb_spec (Nat.modulo (S n) 2) 0) as [E'|E'];
  pose proof (Nat.div_mod_eq n 2); pose proof (Nat.div_mod_eq (S n) 2);
  pose proof (Nat.mod_upper_bound n 2); pose proof (Nat.mod_upper_bound (S n) 2); try lia;
  intros [= K%(f_equal String.length)]; rewrite !str_length_app in K; cbn in K; lia.
Qed.
