(* ===== verification/CascaderKeys.v ===== *)
(** * The cascader's keys and rows

    The handlers of the search field in [reui/cascader/cascader-nav.tsx], of a
    row in [cascader-item.tsx], and of the pinned footer and its flyouts in
    [cascader-footer.tsx].  A handler reads the committed render and answers
    with what it does: vetoes, focus moves, and calls of the root's actions,
    which [do_actions] hands to CascaderRoot.  The document is an argument:
    the caret, the writing direction, which entries may take focus. *)
From S2P Require Import Prelude JsString JsValue JsMap CascaderLib CascaderLoader CascaderView CascaderRoot.

(** ** What a handler does *)
Inductive KeyAction :=
| PreventDefault
| StopPropagation
| VetoBaseUI
| FocusFooter
| FocusField
| FocusStop (n : nat)
| MoveHighlight (target : nat)
| DoNavigate (node : CascaderNode)
| DoNavigateAt (node : CascaderNode) (depth : Z)
| DoToggle (value : string)
| DoPop
| DoGoToDepth (depth : Z)
| DoCommit (node : CascaderNode)
| DoLoadMore (key : string)
| DoRetry (key : string).

Section Actions.
Context (fold : string -> string).
Definition do_action (a : KeyAction) : Step :=
  match a with
  | DoNavigate node => navigate fold node
  | DoNavigateAt node depth => navigateAt node depth
  | DoToggle value => toggleExpanded value
  | DoPop => popLevel
  | DoGoToDepth depth => goToDepth depth
  | DoCommit node => commit node
  | DoLoadMore key => on_loader (fun l => loadMore l key)
  | DoRetry key => on_loader (fun l => retryLevel l key)
  | _ => skip
  end.
Definition do_actions (l : list KeyAction) : Step := foldr (fun a s => do_action a >> s) skip l.
End Actions.

(** ** The search field *)

(** A key press in the field; [ki_prevented] is the consumer's veto. *)
Record KeyInput := mkKey {
  ki_key : string;
  ki_alt : bool;
  ki_prevented : bool;
  ki_start : option nat;
  ki_end : option nat
}.

Section Field.
Context (fold : string -> string).
Implicit Types (v : View).

Definition row_index v (value : string) : option nat :=
  fst <$> list_find (fun row => String.eqb (cn_value (fn_node row)) value = true) (treeRows fold v).

(** [moveHighlightTo] over what Base UI does with an arrow, down or up. *)
Section Move.
Context (press : bool -> option CascaderNode -> option CascaderNode) (v : View).
Definition highlighted_row (h : option CascaderNode) : option nat :=
  match h with Some node => row_index v (cn_value node) | None => None end.
Fixpoint move_loop (steps : nat) (target : nat) (current : option nat)
    (h : option CascaderNode) : option CascaderNode * list bool :=
  match steps with
  | 0 => (h, [])
  | S steps' =>
      match current with
      | None => (h, [])
      | Some c =>
          if Nat.eqb c target then (h, [])
          else
            let down := Nat.ltb c target in
            let h' := press down h in
            match highlighted_row h' with
            | None => (h', [down])
            | Some next =>
                if (if down then Nat.ltb c next && Nat.leb next target
                    else Nat.ltb next c && Nat.leb target next)
                then let '(h'', keys) := move_loop steps' target (Some next) h' in (h'', down :: keys)
                else (h', [down])
            end
      end
  end.
Definition moveHighlightTo (target : nat) (h : option CascaderNode)
    : option CascaderNode * list bool :=
  move_loop (length (treeRows fold v)) target (highlighted_row h) h.
End Move.

Definition handleTreeKeyDown v (highlighted : option CascaderNode) (e : KeyInput)
    (caretAtStart caretAtEnd : bool) (forwardKey backKey : string) : list KeyAction :=
  let forward := String.eqb (ki_key e) forwardKey in
  if negb forward && negb (String.eqb (ki_key e) backKey) then []
  else if negb (if forward then caretAtEnd else caretAtStart) then []
  else match highlighted with
       | None => []
       | Some node =>
           match row_index v (cn_value node) with
           | None => []
           | Some rowIndex =>
               match treeRows fold v !! rowIndex with
               | None => []
               | Some row =>
                   if forward then
                     if negb (fn_branch row) then []
                     else if negb (fn_expanded row) then [PreventDefault; DoNavigate (fn_node row)]
                     else PreventDefault ::
                          match treeRows fold v !! S rowIndex with
                          | Some child => if Nat.eqb (fn_depth child) (fn_depth row + 1)
                                          then [MoveHighlight (S rowIndex)] else []
                          | None => []
                          end
                   else if fn_branch row && fn_expanded row
                   then [PreventDefault; DoToggle (cn_value (fn_node row))]
                   else match truthy_value (parent_of (parentOf (v_index v)) (cn_value (fn_node row))) with
                        | None => []
                        | Some parentValue =>
                            match row_index v parentValue with
                            | Some parentIndex => [PreventDefault; MoveHighlight parentIndex]
                            | None => []
                            end
                        end
               end
           end
       end.

(** [hasStop]: the panel's footer has a stop to take focus. *)
Definition handleKeyDown v (highlighted : option CascaderNode) (rtl hasStop : bool) (e : KeyInput)
    : list KeyAction :=
  if ki_prevented e then []
  else
    let at_caret n := bool_decide (ki_start e = Some n) && bool_decide (ki_end e = Some n) in
    let caretAtStart := at_caret 0 in
    let caretAtEnd := at_caret (String.length (v_query v)) in
    let rows := renderedItems fold v in
    let atEnd := Nat.eqb (length rows) 0 ||
                 match highlighted, last rows with
                 | Some h, Some l => String.eqb (cn_value h) (cn_value l)
                 | _, _ => false
                 end in
    if String.eqb (ki_key e) "ArrowDown" && negb (ki_alt e) && atEnd && hasStop
    then [PreventDefault; FocusFooter]
    else
      let forwardKey := if rtl then "ArrowLeft" else "ArrowRight" in
      let backKey := if rtl then "ArrowRight" else "ArrowLeft" in
      if is_tree (v_mode v)
      then handleTreeKeyDown v highlighted e caretAtStart caretAtEnd forwardKey backKey
      else
        let pop := if ((String.eqb (ki_key e) backKey && caretAtStart) ||
                       (String.eqb (ki_key e) "Backspace" && String.eqb (v_query v) "")) &&
                      Nat.ltb 0 (length (v_path v))
                   then [PreventDefault; DoPop] else [] in
        if String.eqb (ki_key e) forwardKey && caretAtEnd then
          match highlighted with
          | Some node => if isBranch v node then [PreventDefault; DoNavigate node] else pop
          | None => pop
          end
        else pop.

(** A crumb of the breadcrumb. *)
Definition goTo v (node : CascaderNode) : list KeyAction :=
  match list_find (fun value => String.eqb value (cn_value node) = true) (v_path v) with
  | Some (depth, _) => [DoGoToDepth (Z.of_nat depth + 1)]
  | None => []
  end.
(** The crumbs shown, and the one that is the level on screen. *)
Definition breadcrumb v (maxSegments : Z) (collapse : CascaderCollapse)
    : list CascaderPathSegment * option string :=
  let nodes := omap (mget (byValue (v_index v))) (v_path v) in
  (collapseCascaderPath nodes maxSegments collapse, cn_value <$> last nodes).
Definition breadcrumb_hidden v : bool :=
  negb (bool_decide (v_mode v = MDrill)) ||
  Nat.eqb (length (omap (mget (byValue (v_index v))) (v_path v))) 0.
Definition back_hidden v : bool :=
  negb (bool_decide (v_mode v = MDrill)) || Nat.eqb (length (v_path v)) 0.
End Field.

(** ** Rows *)

(** What a row was given: [ro_button] is a row of the columns trail. *)
Record RowProps := mkRow {
  ro_node : CascaderNode;
  ro_depth : Z;
  ro_button : bool;
  ro_expanded : bool;
  ro_loading : bool;
  ro_error : bool
}.
Section Rows.
Context (fold : string -> string) (v : View) (row : RowProps).
Let node := ro_node row.

Definition handleClick : list KeyAction :=
  if cn_disabled node then []
  else if isBranch v node && negb (isSelectable v node) then [VetoBaseUI; DoNavigate node]
  else [].
Definition handleMouseUp : list KeyAction :=
  if cn_disabled node then []
  else if isBranch v node && negb (isSelectable v node) then [VetoBaseUI] else [].
Definition handleExpanderClick : list KeyAction :=
  [StopPropagation; VetoBaseUI] ++
  if cn_disabled node then []
  else if ro_expanded row then [DoToggle (cn_value node)] else [DoNavigate node].
Definition handleChevronClick : list KeyAction :=
  [StopPropagation; VetoBaseUI] ++
  if cn_disabled node then []
  else if ro_button row then [DoNavigateAt node (ro_depth row)] else [DoNavigate node].
Definition handleButtonClick : list KeyAction :=
  if cn_disabled node then []
  else if isBranch v node && negb (isSelectable v node) then [DoNavigateAt node (ro_depth row)]
  else if isSelectable v node then [DoCommit node] else [].
Definition handleMoreClick : list KeyAction :=
  VetoBaseUI ::
  match getCascaderMoreParent node with
  | None => []
  | Some parent => if ro_error row then [DoRetry parent]
                   else if negb (ro_loading row) then [DoLoadMore parent] else []
  end.

(** The number at the end of a row, and whether it counts the selection. *)
Definition showsSelectedCount : bool :=
  cp_multiple (v_props v) && isBranch v node && Nat.ltb 0 (selectedDescendantCount v node).
Definition trailingCount : nat :=
  if showsSelectedCount then selectedDescendantCount v node
  else if isBranch v node then getCascaderCount (v_index v) node else 0.
(** What a screen reader is told besides the label. *)
Definition row_indeterminate : bool := negb (isSelected v node) && isIndeterminate v node.
Definition srDetails : string :=
  let labels := cp_labels (v_props v) in
  let branch := isBranch v node in
  join "" (map (fun detail => ", " +:+ detail) (flat_map (fun o => match o with Some s => [s] | None => [] end)
    [if branch then Some (cl_itemCount labels (getCascaderCount (v_index v) node)) else None;
     if showsSelectedCount then Some (cl_selectedCount labels (selectedDescendantCount v node)) else None;
     if branch && negb (is_tree (v_mode v)) then Some (cl_branchAffordance labels) else None;
     if ro_button row && isSelected v node then Some (cl_selectedState labels) else None;
     if ro_button row && row_indeterminate then Some (cl_partiallySelectedState labels) else None])).
Definition more_text : string :=
  let labels := cp_labels (v_props v) in
  if ro_error row then cl_error labels
  else if ro_loading row
  then (if Nat.ltb 0 (cn_count node ?? 0) then cl_loadingMore labels else cl_loading labels)
  else cl_loadMore labels.
End Rows.

(** The load-derived props of a row: [loading], [error] of a paging row's
    level, then those of the level a branch owns. *)
Definition getCascaderMoreProps (node : CascaderNode) (s : jsmap CascaderLoadState)
    : (bool * bool) * (bool * bool) :=
  let flags o := match o with Some st => (ls_loading st, ls_error st) | None => (false, false) end in
  match getCascaderMoreParent node with
  | None => ((false, false), flags (mget s (cn_value node)))
  | Some parent => (flags (mget s parent), (false, false))
  end.

(** The hover timer of [expandTrigger="hover"]: the row it would enter. *)
Definition hoverNavigates (hover : bool) (v : View) (row : RowProps) : bool :=
  hover && bool_decide (v_mode v = MColumns) && negb (ro_button row) &&
  isBranch v (ro_node row) && negb (cn_disabled (ro_node row)).
Inductive HoverEvent := HoverEnter | HoverLeave | HoverTimer | HoverCommit.
Definition hover_step (hover : bool) (v : View) (row : RowProps) (timer : bool) (e : HoverEvent)
    : bool * list KeyAction :=
  match e with
  | HoverEnter => (if hoverNavigates hover v row then true else timer, [])
  | HoverLeave => (if hoverNavigates hover v row then false else timer, [])
  | HoverTimer => (false, if timer then [DoNavigate (ro_node row)] else [])
  | HoverCommit => (if hoverNavigates hover v row then timer else false, [])
  end.

(** ** The empty surface *)
Definition empty_key (v : View) : string := last (v_path v) ?? CASCADER_ROOT_KEY.
Definition empty_state (v : View) : option CascaderLoadState :=
  let loadState := mget (v_states v) (empty_key v) in
  if is_querying v
  then match v_searchState v with Some s => Some s | None => loadState end else loadState.
Inductive EmptyBody := EmptyError | EmptyLoading | EmptyText.
Definition empty_body (v : View) : EmptyBody :=
  match empty_state v with
  | Some s => if ls_error s then EmptyError else if ls_loading s then EmptyLoading else EmptyText
  | None => EmptyText
  end.
Definition retry_press (v : View) : list KeyAction := [DoRetry (empty_key v)].

(** ** Tab within the panel *)

(** Stops and the focused element by their places in document order. *)
Definition getCascaderTabTarget (stops : list nat) (from : option nat) (backwards : bool)
    : option nat :=
  match from with
  | None => None
  | Some place =>
      match list_find (fun s => s = place) stops with
      | Some (index, _) =>
          if backwards then match index with 0 => None | S i => stops !! i end
          else stops !! S index
      | None =>
          if backwards then js_find (fun s => Nat.ltb s place) (rev stops)
          else js_find (fun s => Nat.ltb place s) stops
      end
  end.

(** ** The footer *)
Definition FOOTER_SWALLOWED_KEYS : list string :=
  ["Enter"; " "; "ArrowUp"; "ArrowDown"; "Home"; "End"; "PageUp"; "PageDown"].
(** [active]: which of the [stops] stops has focus. *)
Definition footerKeyDown (key : string) (prevented : bool) (stops : nat) (active : option nat)
    : list KeyAction :=
  if prevented || negb (sin key FOOTER_SWALLOWED_KEYS) then []
  else StopPropagation ::
    if negb (String.eqb key "ArrowDown") && negb (String.eqb key "ArrowUp") then []
    else match active with
         | None => []
         | Some index =>
             PreventDefault ::
             let next := if String.eqb key "ArrowDown"
                         then (if Nat.ltb (S index) stops then Some (S index) else None)
                         else match index with 0 => None | S i => Some i end in
             match next with
             | Some n => [FocusStop n]
             | None => if String.eqb key "ArrowUp" && Nat.ltb 0 index then [] else [FocusField]
             end
         end.

(** Consecutive entries of one group, as runs. *)
Fixpoint add_run {A} (runs : list (option string * list A)) (group : option string) (item : A)
    : list (option string * list A) :=
  match runs with
  | [] => [(group, [item])]
  | [(g, items)] =>
      if bool_decide (g = group) then [(g, items ++ [item])] else [(g, items); (group, [item])]
  | run :: rest => run :: add_run rest group item
  end.
Definition groupActionRuns {A} (group : A -> option string) (items : list A)
    : list (option string * list A) :=
  fold_left (fun runs item => add_run runs (group item) item) items [].

(** A flyout's state: open, whether the keyboard opened it, what was typed. *)
Record Submenu := mkSubmenu {
  sm_open : bool;
  sm_keyboard : bool;
  sm_buffer : string;
  sm_at : Z
}.
Inductive MenuAction :=
| MPreventDefault | MStopPropagation | MVeto | MFocusItem (n : nat) | MFocusPopup | MFocusRow
| MConsumerClick.

Definition trigger_click (disabled : bool) (s : Submenu) : Submenu * list MenuAction :=
  (s, if disabled then [MPreventDefault; MVeto] else [MConsumerClick]).
Definition trigger_keydown (disabled prevented rtl : bool) (key : string) (s : Submenu)
    : Submenu * list MenuAction :=
  let enter := String.eqb key "Enter" || String.eqb key " " in
  if disabled then (s, if enter then [MPreventDefault] else [])
  else if prevented then (s, [])
  else if enter then (mkSubmenu (sm_open s) true (sm_buffer s) (sm_at s), [])
  else if String.eqb key (if rtl then "ArrowLeft" else "ArrowRight")
  then (mkSubmenu true true (sm_buffer s) (sm_at s), [MPreventDefault])
  else (s, []).
(** Where focus goes as the flyout opens. *)
Definition initialFocus (items : nat) (s : Submenu) : Submenu * MenuAction :=
  (mkSubmenu (sm_open s) false (sm_buffer s) (sm_at s),
   if sm_keyboard s && Nat.ltb 0 items then MFocusItem 0 else MFocusPopup).
Definition set_menu_open (open : bool) (s : Submenu) : Submenu :=
  mkSubmenu open (sm_keyboard s) (sm_buffer s) (sm_at s).

(** The entries a typed prefix is looked for in, in order. *)
Definition typeahead_order {A} (items : list A) (long : bool) (from : nat) : list A :=
  let start := if long then from else S from in
  drop start items ++ take start items.
Definition typeahead (items : list string) (index : option nat) (key : string) (now : Z)
    (s : Submenu) : Submenu * list MenuAction :=
  let buffer := if Z.ltb 500 (now - sm_at s) then key else sm_buffer s +:+ key in
  let from := index ?? 0 in
  let ordered := typeahead_order (imap pair items) (Nat.ltb 1 (String.length buffer)) from in
  (mkSubmenu (sm_open s) (sm_keyboard s) buffer now,
   match js_find (fun entry => starts_with (to_lower buffer) (to_lower (trim entry.2))) ordered with
   | Some (n, _) => [MPreventDefault; MFocusItem n]
   | None => []
   end).
(** A key inside the flyout; [items] are the texts of its entries. *)
Definition menu_keydown (items : list string) (index : option nat) (prevented modified rtl : bool)
    (key : string) (now : Z) (s : Submenu) : Submenu * list MenuAction :=
  let n := length items in
  let move (next : nat) := (s, [MStopPropagation; MPreventDefault; MFocusItem (Nat.modulo next n)]) in
  if prevented || Nat.eqb n 0 then (s, [MStopPropagation])
  else if String.eqb key "ArrowDown" then move (match index with Some i => S i | None => 0 end)
  else if String.eqb key "ArrowUp" then
    move (match index with Some i => i + n - 1 | None => n - 1 end)
  else if String.eqb key "Home" then move 0
  else if String.eqb key "End" then move (n - 1)
  else if String.eqb key (if rtl then "ArrowRight" else "ArrowLeft")
  then (set_menu_open false s, [MStopPropagation; MPreventDefault; MFocusRow])
  else if String.eqb key "Tab" then (set_menu_open false s, [MStopPropagation; MFocusRow])
  else if negb (Nat.eqb (String.length key) 1) || modified then (s, [MStopPropagation])
  else let '(s', acts) := typeahead items index key now s in (s', MStopPropagation :: acts).

(** ** Chips *)
Definition chip_nodes (v : View) (cache : jsmap CascaderNode) (strategy : CascaderCheckedStrategy)
    : list CascaderNode :=
  map (resolveNode (v_index v) cache)
    (getCascaderCheckedValues (v_index v) (selectedValues v) strategy).
Definition removeClosure (v : View) (node : CascaderNode) : Step := fun r =>
  setSelection (mkArr (Own (r_fresh r))
      (applyCascadeSelection (v_index v) (isSelectable v) (selectedValues v) (cn_value node) false))
    (Some Deselect) (with_fresh r (S (r_fresh r))).
Definition ELLIPSIS : string := String (chr 226) (String (chr 128) (str1 (chr 166))).
Definition chip_label (v : View) (node : CascaderNode) (showPath : bool) (maxSegments : Z) : string :=
  let chain := if showPath then getCascaderPath (v_index v) (Some (cn_value node)) else [] in
  match collapseCascaderPath chain maxSegments CollapseStart with
  | [] => cn_label node
  | segments =>
      join (" " +:+ cl_pathSeparator (cp_labels (v_props v)) +:+ " ")
        (map (fun s => match s with SegNode n => cn_label n | SegEllipsis _ => ELLIPSIS end) segments)
  end.

(** ** The trigger *)
Inductive ValueDisplay := ShowPath | ShowLeaf | ShowCount.
#[export] Instance ValueDisplay_eq_dec : EqDecision ValueDisplay.
Proof. solve_decision. Defined.
Inductive ValueContent :=
| ValuePlaceholder
| ValueText (text : string)
| ValueTrail (segments : list CascaderPathSegment).
Definition value_path (v : View) (cache : jsmap CascaderNode) : list CascaderNode :=
  let selected := map (resolveNode (v_index v) cache) (selectedValues v) in
  let resolvedPath := match selectedValues v with
                      | [value] => getCascaderPath (v_index v) (Some value)
                      | _ => []
                      end in
  if Nat.ltb 0 (length resolvedPath) then resolvedPath
  else if Nat.eqb (length selected) 1 then selected else [].
Definition value_content (v : View) (cache : jsmap CascaderNode) (display : ValueDisplay)
    (maxSegments : Z) (collapse : CascaderCollapse) : ValueContent :=
  let selected := map (resolveNode (v_index v) cache) (selectedValues v) in
  let count := length (selectedValues v) in
  if Nat.eqb count 0 then ValuePlaceholder
  else if bool_decide (display = ShowCount) || (cp_multiple (v_props v) && Nat.ltb 1 count)
  then ValueText (cl_selectedCount (cp_labels (v_props v)) count)
  else
    let path := value_path v cache in
    match display, (match last path with Some n => Some n | None => head selected end) with
    | ShowLeaf, Some leaf => ValueTrail [SegNode leaf]
    | _, _ => ValueTrail (collapseCascaderPath path maxSegments collapse)
    end.

(** ** A column of the trail *)
Definition column_key (c : CascaderColumn) : string :=
  match co_parent c with Some parent => cn_value parent | None => CASCADER_ROOT_KEY end.
Inductive ColumnBody := ColumnError | ColumnLoading | ColumnEmpty | ColumnRows.
Definition column_body (v : View) (c : CascaderColumn) : ColumnBody :=
  match co_items c with
  | _ :: _ => ColumnRows
  | [] => match mget (v_states v) (column_key c) with
          | Some s => if ls_error s then ColumnError else if ls_loading s then ColumnLoading else ColumnEmpty
          | None => ColumnEmpty
          end
  end.
(** The row of a trail column whose children are the next column. *)
Definition row_open (c : CascaderColumn) (node : CascaderNode) : bool :=
  match co_activeValue c with Some value => String.eqb (cn_value node) value | None => false end.

(** ** Windowing: the highlighted row is pinned into the window *)
Definition active_row (activeIndex : Z) (count : nat) : option nat :=
  if Z.leb 0 activeIndex && Z.ltb activeIndex (Z.of_nat count) then Some (Z.to_nat activeIndex) else None.
Definition rangeExtractor (defaultRange : list nat) (active : option nat) : list nat :=
  let indices := remove_dups defaultRange in
  sort_by Nat.leb
    (match active with
     | Some a => if bool_decide (a ∈ indices) then indices else indices ++ [a]
     | None => indices
     end).
Definition windowed (v : View) (rootVirtualized : bool) (c : CascaderColumn) : bool :=
  if co_active c then rootVirtualized
  else cp_virtualize (v_props v) ?? Nat.leb (cp_virtualizeThreshold (v_props v)) (length (co_items c)).
