(* ===== verification/CascaderKeysLaws.v ===== *)
(** * Laws of the cascader's keys

    The level keys mirror with the writing direction, the highlight is moved
    by as many arrows as there are rows between, Tab goes to the next stop,
    and the runs of a flyout keep the author's order; then a press that does
    less than its label says. *)
From S2P Require Import Prelude JsString JsValue JsMap CascaderLib CascaderLoader CascaderView CascaderRoot CascaderRootLaws CascaderKeys.

(** ** Writing direction *)
Definition mirror_key (key : string) : string :=
  if String.eqb key "ArrowLeft" then "ArrowRight"
  else if String.eqb key "ArrowRight" then "ArrowLeft" else key.
Definition mirror (e : KeyInput) : KeyInput :=
  mkKey (mirror_key (ki_key e)) (ki_alt e) (ki_prevented e) (ki_start e) (ki_end e).

Lemma mirror_other key k : k <> "ArrowLeft" -> k <> "ArrowRight" ->
  String.eqb (mirror_key key) k = String.eqb key k.
Proof.
  intros H1 H2. unfold mirror_key.
  destruct (String.eqb_spec key "ArrowLeft") as [->|N1].
  - apply not_eq_sym in H1, H2. apply String.eqb_neq in H1, H2. by rewrite H1, H2.
  - destruct (String.eqb_spec key "ArrowRight") as [->|N2]; [|done].
    apply not_eq_sym in H1, H2. apply String.eqb_neq in H1, H2. by rewrite H1, H2.
Qed.
Lemma mirror_left key : String.eqb (mirror_key key) "ArrowLeft" = String.eqb key "ArrowRight".
Proof.
  unfold mirror_key. destruct (String.eqb_spec key "ArrowLeft") as [->|N]; [done|].
  destruct (String.eqb_spec key "ArrowRight") as [->|N2]; [done|]. by apply String.eqb_neq.
Qed.
Lemma mirror_right key : String.eqb (mirror_key key) "ArrowRight" = String.eqb key "ArrowLeft".
Proof.
  unfold mirror_key. destruct (String.eqb_spec key "ArrowLeft") as [->|N]; [done|].
  destruct (String.eqb_spec key "ArrowRight") as [->|N2]; [done|]. by apply String.eqb_neq.
Qed.

(** The level keys are logical.  In a right-to-left page the search field
    answers ArrowLeft as it answers ArrowRight in a left-to-right one, and the
    other way round, in every mode, at every caret and highlight; every other
    key means the same in both. *)
Theorem rtl_mirrors_the_level_keys fold v highlighted rtl hasStop e :
  handleKeyDown fold v highlighted (negb rtl) hasStop (mirror e) =
  handleKeyDown fold v highlighted rtl hasStop e.
Proof.
  unfold handleKeyDown, handleTreeKeyDown. cbn [mirror ki_key ki_alt ki_prevented ki_start ki_end].
  rewrite !(mirror_other (ki_key e) "ArrowDown"), !(mirror_other (ki_key e) "Backspace") by done.
  destruct rtl; cbn [negb]; by rewrite !mirror_left, !mirror_right.
Qed.

(** ** Moving the highlight *)
Definition distance (a b : nat) : nat := (a - b) + (b - a).

Section Move.
Context (fold : string -> string) (v : View).
Context (press : bool -> option CascaderNode -> option CascaderNode).

(** What Base UI documents of an arrow: the highlight moves by one row. *)
Definition by_one_row : Prop := forall h c, highlighted_row fold v h = Some c ->
  (S c < length (treeRows fold v) -> highlighted_row fold v (press true h) = Some (S c)) /\
  (0 < c -> highlighted_row fold v (press false h) = Some (c - 1)).

Lemma move_loop_spec steps target c h :
  highlighted_row fold v h = Some c ->
  let '(h', keys) := move_loop fold press v steps target (Some c) h in
  length keys <= distance c target /\
  Forall (fun down => down = Nat.ltb c target) keys /\
  (by_one_row -> c < length (treeRows fold v) -> target < length (treeRows fold v) ->
   distance c target <= steps -> highlighted_row fold v h' = Some target).
Proof.
  revert c h. induction steps as [|steps IH]; intros c h Hh; cbn [move_loop].
  { split; [cbn; lia|]. split; [done|]. intros _ _ _ Hd. rewrite Hh. f_equal. unfold distance in Hd. lia. }
  destruct (Nat.eqb_spec c target) as [->|Hne]; [cbn; repeat split; [lia|done..]|].
  set (down := Nat.ltb c target).
  assert (by_one_row -> c < length (treeRows fold v) -> target < length (treeRows fold v) ->
    highlighted_row fold v (press down h) = Some (if down then S c else c - 1)) as Hone.
  { intros Hb Hc Ht. destruct (Hb h c Hh) as [Hd Hu]. subst down.
    destruct (Nat.ltb_spec c target); [apply Hd|apply Hu]; lia. }
  assert (1 <= distance c target) as H1 by (unfold distance; lia).
  destruct (highlighted_row fold v (press down h)) as [next|] eqn:En.
  2: { split; [done|]. split; [by constructor|]. intros Hb Hc Ht _. by specialize (Hone Hb Hc Ht). }
  destruct (if down then Nat.ltb c next && Nat.leb next target
            else Nat.ltb next c && Nat.leb target next) eqn:Eg.
  - specialize (IH next (press down h) En).
    destruct (move_loop fold press v steps target (Some next) (press down h)) as [h'' keys].
    destruct IH as (IH1 & IH2 & IH3).
    assert (distance next target < distance c target /\ (next <> target -> Nat.ltb next target = down))
      as [Hlt Hdir].
    { unfold distance. subst down. destruct (Nat.ltb_spec c target); unbool; split;
        try lia; intros; first [apply Nat.ltb_lt; lia | apply Nat.ltb_ge; lia]. }
    split; [cbn; lia|]. split.
    + constructor; [done|]. destruct (decide (next = target)) as [->|Hn].
      * destruct keys; [done|]. unfold distance in IH1. cbn in IH1. lia.
      * by rewrite <- (Hdir Hn).
    + intros Hb Hc Ht Hd. specialize (Hone Hb Hc Ht). injection Hone as ->.
      apply IH3; [done| |done|lia]. subst down. destruct (Nat.ltb_spec c target); lia.
  - split; [done|]. split; [by constructor|]. intros Hb Hc Ht _. specialize (Hone Hb Hc Ht).
    injection Hone as ->. subst down. exfalso.
    destruct (Nat.ltb_spec c target); apply andb_false_iff in Eg as [Eg|Eg]; unbool; lia.
Qed.

Lemma row_index_bound value c : row_index fold v value = Some c -> c < length (treeRows fold v).
Proof.
  unfold row_index. destruct (list_find _ _) as [[i row]|] eqn:E; [|done]. intros [= <-].
  apply list_find_Some in E as [E _]. by apply lookup_lt_Some in E.
Qed.

(** Moving the highlight ends.  However the list answers an arrow, the
    keyboard presses no more arrows than there are rows to the target, all in
    its direction; and when an arrow moves by one row, it arrives. *)
Theorem highlight_reaches_its_row target h :
  let '(h', keys) := moveHighlightTo fold press v target h in
  match highlighted_row fold v h with
  | Some c =>
      length keys <= distance c target /\ Forall (fun down => down = Nat.ltb c target) keys /\
      (by_one_row -> target < length (treeRows fold v) -> highlighted_row fold v h' = Some target)
  | None => keys = [] /\ h' = h
  end.
Proof.
  unfold moveHighlightTo. destruct (highlighted_row fold v h) as [c|] eqn:E.
  2: { destruct (length (treeRows fold v)); done. }
  pose proof (move_loop_spec (length (treeRows fold v)) target c h E) as H.
  destruct (move_loop _ _ _ _ _ _ _) as [h' keys]. destruct H as (A & B & C).
  split; [done|]. split; [done|]. intros Hb Ht.
  assert (c < length (treeRows fold v)) as Hc.
  { unfold highlighted_row in E. destruct h; [|done]. by apply row_index_bound in E. }
  apply C; [done..|]. unfold distance. lia.
Qed.
End Move.

(** Two rows, and a list whose arrows move by one. *)
Definition two_rows : View :=
  let p := {| items_id := 0; cp_items := [leaf "x"; leaf "y"]; cp_getParent := None;
    cp_getChildren := false; cp_onSearch := false; cp_resolveValue := false; cp_prefetch := false;
    cp_value := None; cp_multiple := false; cp_selectable := SelLeaf; cp_cascade := false;
    cp_max := None; cp_mode := MTree; cp_path := None; cp_expanded := None; cp_open := Some true;
    cp_closeOnSelect := true; cp_inputValue := None; cp_deep := false; cp_filter := None;
    cp_revealSelected := true; cp_labels := CASCADER_LABELS; cp_inline := false;
    cp_virtualize := None; cp_virtualizeThreshold := 100 |} in
  let idx := buildCascaderIndex [leaf "x"; leaf "y"] None in
  mkView p idx idx [] None None
    (mkShown (One "") (mkArr (Own 1) []) (mkArr (Own 2) []) true "").
Definition arrow (down : bool) (h : option CascaderNode) : option CascaderNode :=
  match highlighted_row to_lower two_rows h with
  | Some c => fn_node <$> treeRows to_lower two_rows !! (if down then S c else c - 1)
  | None => None
  end.
Lemma highlight_reaches_its_row_witness :
  by_one_row to_lower two_rows arrow /\
  highlighted_row to_lower two_rows
    (moveHighlightTo to_lower arrow two_rows 1 (Some (leaf "x"))).1 = Some 1.
Proof.
  assert (by_one_row to_lower two_rows arrow) as Hb.
  { intros h c Hc. unfold arrow. rewrite Hc. assert (c < 2) as Hlt.
    { destruct h; [|done]. apply (row_index_bound to_lower two_rows) in Hc. exact Hc. }
    destruct c as [|[|c]]; [| |lia]; (split; [intros H|intros H]); try (vm_compute in H; lia);
      vm_compute; reflexivity. }
  split; [done|].
  pose proof (highlight_reaches_its_row to_lower two_rows arrow 1 (Some (leaf "x"))) as H.
  destruct (moveHighlightTo _ _ _ _ _) as [h' keys].
  assert (highlighted_row to_lower two_rows (Some (leaf "x")) = Some 0) as E by reflexivity.
  rewrite E in H. destruct H as (_ & _ & H). apply H; [done|]. vm_compute. lia.
Defined.

(** ** Tab and the flyout *)

(** A stop off the list: Tab goes to the next one in document order. *)
Lemma tab_goes_to_the_next_stop stops place t :
  StronglySorted lt stops -> place ∉ stops ->
  getCascaderTabTarget stops (Some place) false = Some t <->
  t ∈ stops /\ place < t /\ Forall (fun s => place < s -> t <= s) stops.
Proof.
  intros Hs Hp. unfold getCascaderTabTarget.
  replace (list_find (fun s => s = place) stops) with (@None (nat * nat)).
  2: { symmetry. apply list_find_None, Forall_forall. by intros x Hx ->. }
  clear Hp. unfold js_find. induction Hs as [|s stops Hs IH Hle]; cbn [List.find]; [split; [done|]; intros [H _]; by apply not_elem_of_nil in H|].
  destruct (Nat.ltb_spec place s) as [H|H].
  - split; [intros [= ->]|].
    + split; [left|]. split; [done|]. constructor; [lia|]. eapply Forall_impl; [exact Hle|]. cbn. intros; lia.
    + intros (Ht & Hpt & Hall). apply Forall_cons in Hall as [H1 _]. specialize (H1 H).
      apply elem_of_cons in Ht as [->|Ht]; [done|]. rewrite Forall_forall in Hle. apply Hle in Ht. lia.
  - rewrite IH, elem_of_cons, Forall_cons. split.
    + intros (Ht & Hpt & Hall). repeat split; auto. lia.
    + intros (Ht & Hpt & _ & Hall). destruct Ht as [->|Ht]; [lia|]. done.
Qed.

(** The runs put together are the entries, in their order. *)
Lemma add_run_items {A} (runs : list (option string * list A)) g item :
  flat_map snd (add_run runs g item) = flat_map snd runs ++ [item].
Proof.
  induction runs as [|[g' items] [|run rest] IH]; [done| |].
  - cbn. case_bool_decide; cbn; by rewrite ?app_nil_r, <- ?app_assoc.
  - change (items ++ flat_map snd (add_run (run :: rest) g item) = (items ++ flat_map snd (run :: rest)) ++ [item]).
    by rewrite IH, app_assoc.
Qed.
Lemma runs_keep_order {A} (group : A -> option string) items :
  flat_map snd (groupActionRuns group items) = items.
Proof.
  unfold groupActionRuns.
  enough (forall runs, flat_map snd (fold_left (fun runs item => add_run runs (group item) item) items runs) =
    flat_map snd runs ++ items) as H by apply H.
  induction items as [|item items IH]; intros runs; cbn [fold_left]; [by rewrite app_nil_r|].
  by rewrite IH, add_run_items, <- app_assoc.
Qed.

(** ** What does less than it says *)

(** With no entry focused, a typed letter passes over the first entry. *)
Lemma typeahead_skips_the_first :
  (typeahead ["Apple"; "Avocado"] None "a" 1000 (mkSubmenu true false "" 0)).2 =
  [MPreventDefault; MFocusItem 1].
Proof. reflexivity. Qed.

(** After a failed server search the empty surface offers a retry, whose press
    retries the level, which did not fail: nothing is asked again. *)
Definition search_props : CascaderProps := {|
  items_id := 0; cp_items := demo_items; cp_getParent := None; cp_getChildren := true;
  cp_onSearch := true; cp_resolveValue := false; cp_prefetch := false; cp_value := None;
  cp_multiple := false; cp_selectable := SelLeaf; cp_cascade := false; cp_max := None;
  cp_mode := MDrill; cp_path := None; cp_expanded := None; cp_open := Some true;
  cp_closeOnSelect := true; cp_inputValue := None; cp_deep := false; cp_filter := None;
  cp_revealSelected := true; cp_labels := CASCADER_LABELS; cp_inline := false;
  cp_virtualize := None; cp_virtualizeThreshold := 100 |}.
Definition failed_search : Root :=
  (play (mount to_lower search_props no_defaults).1
    [SetQuery "zz"; CommitRoot search_props; LoaderEvent (SearchTimer "zz");
     LoaderEvent (Respond 0 Rejected); CommitRoot search_props]).1.
Lemma search_retry_is_inert :
  empty_body (r_view failed_search) = EmptyError /\
  do_actions to_lower (retry_press (r_view failed_search)) failed_search = (failed_search, []).
Proof. split; vm_compute; reflexivity. Qed.

(** The highlighted row is always among the rows the window renders, in order. *)
Lemma pinned_row_is_rendered range activeIndex count a :
  active_row activeIndex count = Some a ->
  a < count /\ a ∈ rangeExtractor range (Some a) /\
  StronglySorted (fun x y => Nat.leb x y = true) (rangeExtractor range (Some a)).
Proof.
  unfold active_row. destruct (Z.leb 0 activeIndex && Z.ltb activeIndex (Z.of_nat count)) eqn:E; [|done].
  intros [= <-]. split; [unbool; lia|]. unfold rangeExtractor. split.
  - rewrite sort_by_elem. case_bool_decide; [done|]. apply elem_of_app. right. left.
  - apply sort_by_sorted.
    + intros x y H. apply Nat.leb_gt in H. apply Nat.leb_le. lia.
    + intros x y z H1 H2. apply Nat.leb_le in H1, H2. apply Nat.leb_le. lia.
Qed.
