(* ===== verification/CascaderViewLaws.v ===== *)
(** * Laws of the cascader's view

    A tree query shows every hit with the branches above it, and nothing else:
    the flattened tree, on its fuel, holds each node whose ancestors are all
    expanded. *)
From stdpp Require Import relations.
From S2P Require Import Prelude JsString JsValue JsMap CascaderLib CascaderFacts CascaderLaws CascaderLoader CascaderView.

(** ** Chains of parents *)
Inductive chain (m : jsmap (option string)) : string -> list string -> Prop :=
| Chain_top x : parent_of m x = None -> chain m x []
| Chain_up x p l : parent_of m x = Some p -> chain m p l -> chain m x (p :: l).

Section Chains.
Context (m : jsmap (option string)) (rank : string -> nat).
Context (Hrank : forall a b, parent_of m a = Some b -> rank b < rank a).

Lemma climbs_chain seen cursor l :
  (forall c s, cursor = Some c -> s ∈ seen -> rank c < rank s) -> climbs m seen cursor l ->
  match cursor with None => l = [] | Some c => exists l', l = c :: l' /\ chain m c l' end.
Proof.
  intros Hs H. induction H as [|seen c Hc|seen c l Hc Hl IH]; [done| |].
  - specialize (Hs c c eq_refl Hc). lia.
  - exists l. split; [done|]. destruct (parent_of m c) as [p|] eqn:Ep.
    + destruct IH as (l' & -> & Hch); [|by eapply Chain_up].
      intros q s [= <-] [->|Hin]%elem_of_cons; [by apply Hrank|].
      apply Hrank in Ep. specialize (Hs c s eq_refl Hin). lia.
    + rewrite IH by done. by constructor.
Qed.
Lemma chain_rank x l : chain m x l -> forall a, a ∈ l -> rank a < rank x.
Proof.
  induction 1 as [|x p l Hp _ IH]; [by intros a ?%elem_of_nil|].
  intros a [->|Ha]%elem_of_cons; [by apply Hrank|]. apply Hrank in Hp. specialize (IH a Ha). lia.
Qed.
Lemma chain_NoDup x l : chain m x l -> NoDup (x :: l).
Proof.
  intros H. induction H as [x Hx|x p l Hp Hl IH].
  - apply NoDup_singleton.
  - apply NoDup_cons. split; [|done]. intros Hin.
    pose proof (chain_rank x (p :: l) ltac:(by eapply Chain_up) x Hin). lia.
Qed.
(** A chain cut at one of its members is that member's own chain. *)
Lemma chain_cut x l a : chain m x l -> a ∈ x :: l ->
  exists l', chain m a l' /\ forall b, b ∈ a :: l' -> b ∈ x :: l.
Proof.
  intros H. induction H as [x Hx|x p l Hp Hl IH]; intros Ha; apply elem_of_cons in Ha as [->|Ha].
  - exists []. split; [by constructor|done].
  - by apply elem_of_nil in Ha.
  - exists (p :: l). split; [by eapply Chain_up|done].
  - destruct (IH Ha) as (l' & H1 & H2). exists l'. split; [done|].
    intros b Hb. right. by apply H2.
Qed.
End Chains.

(** ** The flattened tree *)
Section Flatten.
Context (idx : CascaderIndex) (expanded sentinels : jsset).
Notation bucket k := (mget (childrenOf idx) k ?? []).

Lemma flatten_here f nodes key depth n : n ∈ nodes ->
  n ∈ map fn_node (flatten_level (S f) idx expanded sentinels nodes key depth).
Proof.
  intros Hn. cbn [flatten_level]. rewrite map_app. apply elem_of_app. left.
  generalize (length nodes + (if sin key sentinels then 1 else 0)). intros size.
  match goal with |- _ ∈ map _ (?g 0 _) => enough (forall i, n ∈ map fn_node (g i nodes)) as H by apply H end.
  induction nodes as [|m nodes IH]; [by apply elem_of_nil in Hn|]. intros i.
  cbn. apply elem_of_cons in Hn as [->|Hn]; [left|]. right. rewrite map_app.
  apply elem_of_app. right. by apply IH.
Qed.
Lemma flatten_below f nodes key depth n c : c ∈ nodes -> bucket (cn_value c) <> [] ->
  cn_value c ∈ expanded ->
  n ∈ map fn_node (flatten_level f idx expanded sentinels (bucket (cn_value c)) (cn_value c) (S depth)) ->
  n ∈ map fn_node (flatten_level (S f) idx expanded sentinels nodes key depth).
Proof.
  intros Hc Hb He Hn. cbn [flatten_level]. rewrite map_app. apply elem_of_app. left.
  generalize (length nodes + (if sin key sentinels then 1 else 0)). intros size.
  match goal with |- _ ∈ map _ (?g 0 _) => enough (forall i, n ∈ map fn_node (g i nodes)) as H by apply H end.
  induction nodes as [|m nodes IH]; [by apply elem_of_nil in Hc|]. intros i.
  cbn. right. rewrite map_app. apply elem_of_app. apply elem_of_cons in Hc as [->|Hc]; [left|right; by apply IH].
  assert (isCascaderBranch idx m && sin (cn_value m) expanded = true) as ->; [|done].
  apply andb_true_iff. split; [|by apply sin_elem]. unfold isCascaderBranch.
  destruct (bucket (cn_value m)); [done|]. cbn. apply orb_true_r.
Qed.
End Flatten.

(** ** A built index *)
Lemma known_all (m : jsmap CascaderNode) l :
  (forall a, a ∈ l -> exists n, mget m a = Some n /\ cn_value n = a) ->
  map cn_value (known_nodes m l) = l.
Proof.
  induction l as [|a l IH]; intros K; [done|]. destruct (K a ltac:(left)) as (n & E & En).
  cbn [known_nodes]. rewrite E. cbn [map]. rewrite En. f_equal. apply IH. intros b Hb. apply K. by right.
Qed.
Section Built.
Context (items : list CascaderNode) (Hu : every unreserved items = true).
Let idx := buildCascaderIndex items None.
Notation par := (parentOf idx).
Notation bucket k := (mget (childrenOf idx) k ?? []).

Lemma built : building idx.
Proof. exact (building_with_roots _ (build_building items Hu)). Qed.
Lemma built_rank a b : parent_of par a = Some b -> rank_in idx b < rank_in idx a.
Proof. intros H. destruct (b_parent _ built _ _ H) as (_ & _ & H'). lia. Qed.
Lemma built_roots : roots idx = bucket CASCADER_ROOT_KEY.
Proof. done. Qed.
Lemma all_indexed n : n ∈ all idx -> mget (byValue idx) (cn_value n) = Some n.
Proof.
  intros H. by apply recorded_get; [apply (build_indexes items Hu)|apply built|].
Qed.
Lemma chain_indexed x l n : mget (byValue idx) x = Some n -> chain par x l ->
  forall a, a ∈ x :: l -> exists m, mget (byValue idx) a = Some m /\ cn_value m = a.
Proof.
  intros Hn H. revert n Hn. induction H as [x Hx|x p l Hp Hl IH]; intros n Hn a Ha;
    apply elem_of_cons in Ha as [->|Ha];
    try (exists n; split; [done|]; by apply (b_value _ built)); [by apply elem_of_nil in Ha|].
  destruct (b_parent _ built _ _ Hp) as (_ & Hm & _). apply mhas_spec in Hm as [q Hq]. by apply (IH q).
Qed.
(** The path of an indexed node is its chain, from the root down. *)
Lemma path_chain x n : mget (byValue idx) x = Some n ->
  exists l, chain par x l /\ map cn_value (getCascaderPath idx (Some x)) = rev (x :: l).
Proof.
  intros Hn. pose proof (climb_runs par [] (Some x)) as H.
  apply (climbs_chain par (rank_in idx) built_rank) in H as (l & El & Hl);
    [|by intros c s _ ?%elem_of_nil].
  exists l. split; [done|]. unfold getCascaderPath. rewrite El, map_rev. f_equal.
  apply known_all. by apply (chain_indexed x l n).
Qed.
Lemma path_indexed x a : a ∈ getCascaderPath idx x -> mget (byValue idx) (cn_value a) = Some a.
Proof.
  destruct x as [x|]; [|by intros ?%elem_of_nil]. unfold getCascaderPath.
  rewrite list_elem_of_In, <- in_rev, <- list_elem_of_In. generalize (climb (climb_fuel par) par [] (Some x)).
  induction l as [|c l IH]; cbn [known_nodes]; [by intros ?%elem_of_nil|].
  destruct (mget (byValue idx) c) as [n|] eqn:E; [|by intros ?%elem_of_nil].
  intros [->|Ha]%elem_of_cons; [|by apply IH]. by destruct (b_value _ built _ _ E) as [-> _].
Qed.
Lemma chain_fits x l n : mget (byValue idx) x = Some n -> chain par x l ->
  length l <= length (flat_map snd (childrenOf idx)).
Proof.
  intros Hn Hl. pose proof (chain_NoDup par (rank_in idx) built_rank x l Hl) as Hd.
  apply NoDup_cons in Hd as [_ Hd]. rewrite <- (length_map cn_value (flat_map _ _)).
  apply NoDup_incl_length; [by apply NoDup_ListNoDup|]. intros a Ha%list_elem_of_In.
  destruct (chain_indexed x l n Hn Hl a ltac:(by right)) as (m & Hm & _).
  pose proof (b_child _ built _ _ Hm) as Hb. apply bucket_rows in Hb.
  apply list_elem_of_In. by destruct (b_value _ built _ _ Hm) as [<- _].
Qed.

Section Rows.
Context (expanded sentinels : jsset).
Notation shown f k depth := (map fn_node (flatten_level f idx expanded sentinels (bucket k) k depth)).

Lemma flatten_climb x l f n c : chain par x l -> mget (byValue idx) x = Some c ->
  (forall a, a ∈ x :: l -> a ∈ expanded) -> bucket x <> [] ->
  (forall depth, n ∈ shown f x depth) ->
  forall depth, n ∈ shown (f + S (length l)) CASCADER_ROOT_KEY depth.
Proof.
  intros H. revert f c. induction H as [x Hx|x p l Hp Hl IH]; intros f c Hc He Hb Hn depth.
  - replace (f + S (length [])) with (S f) by (cbn; lia).
    pose proof (b_child _ built _ _ Hc) as Hin. rewrite Hx in Hin. cbn in Hin.
    destruct (b_value _ built _ _ Hc) as [Ev _].
    apply (flatten_below idx expanded sentinels f _ _ depth n c Hin); rewrite Ev; [done|apply He; left|apply Hn].
  - pose proof (b_child _ built _ _ Hc) as Hin. rewrite Hp in Hin. change (c ∈ bucket p) in Hin.
    destruct (b_parent _ built _ _ Hp) as (_ & Hm & _). apply mhas_spec in Hm as [q Hq].
    destruct (b_value _ built _ _ Hc) as [Ev _].
    replace (f + S (length (p :: l))) with (S f + S (length l)) by (cbn; lia).
    apply (IH (S f) q Hq); [intros a Ha; apply He; by right|intros E; rewrite E in Hin; by apply elem_of_nil in Hin|].
    intros d. apply (flatten_below idx expanded sentinels f _ _ d n c Hin); rewrite Ev;
      [done|apply He; left|apply Hn].
Qed.

(** A node is on screen when everything above it is expanded. *)
Lemma row_shown x n l : mget (byValue idx) x = Some n -> chain par x l ->
  (forall a, a ∈ l -> a ∈ expanded) ->
  n ∈ map fn_node (flattenCascaderTree idx expanded sentinels).
Proof.
  intros Hn Hl He. unfold flattenCascaderTree. rewrite built_roots.
  pose proof (chain_fits x l n Hn Hl) as Hf. unfold walk_fuel.
  pose proof (b_child _ built _ _ Hn) as Hin.
  inversion Hl as [? Hx|? p l' Hp Hl']; subst.
  - rewrite Hx in Hin. by apply flatten_here.
  - rewrite Hp in Hin. change (n ∈ bucket p) in Hin.
    destruct (b_parent _ built _ _ Hp) as (_ & Hm & _). apply mhas_spec in Hm as [q Hq].
    replace (S (S (length (flat_map snd (childrenOf idx)))))
      with (S (length (flat_map snd (childrenOf idx)) - length l') + S (length l')) by (cbn [length] in Hf; lia).
    apply (flatten_climb p l' _ n q Hl' Hq He); [intros E; rewrite E in Hin; by apply elem_of_nil in Hin|].
    intros d. by apply flatten_here.
Qed.
End Rows.
End Built.

(** A tree query hides nothing it found.  Over loaded items, in tree mode,
    each node the query matches is on screen together with every branch above
    it, whatever was expanded before; and every row on screen is a match or a
    branch above one. *)
Theorem tree_search_shows_every_hit fold items v : every unreserved items = true ->
  v_index v = buildCascaderIndex items None -> v_mode v = MTree ->
  normalizeCascaderQuery fold (v_query v) <> "" ->
  let hit n := n ∈ all (v_index v) /\ matcher fold v n (normalizeCascaderQuery fold (v_query v)) = true in
  (forall n a, hit n -> a ∈ getCascaderPath (v_index v) (Some (cn_value n)) ->
     a ∈ renderedItems fold v) /\
  (forall a, a ∈ renderedItems fold v ->
     exists n, hit n /\ cn_value a ∈ map cn_value (getCascaderPath (v_index v) (Some (cn_value n)))).
Proof.
  intros Hu Hi Hm Hq hit. set (q := normalizeCascaderQuery fold (v_query v)) in *.
  assert (renderedItems fold v = map fn_node
    (bfilter (fun row => sin (cn_value (fn_node row)) (tree_keep fold v q))
       (flattenCascaderTree (v_index v) (set_of (v_expanded v ++ tree_keep fold v q)) []))) as Er.
  { unfold renderedItems, treeRows, is_tree. rewrite Hm. cbn. fold q.
    by apply String.eqb_neq in Hq as ->. }
  assert (forall x, x ∈ tree_keep fold v q <->
    exists n, hit n /\ x ∈ map cn_value (getCascaderPath (v_index v) (Some (cn_value n)))) as Hk.
  { intros x. unfold tree_keep. destruct (set_of_spec (flat_map (fun node => map cn_value
       (getCascaderPath (v_index v) (Some (cn_value node)))) (bfilter (fun node => matcher fold v node q)
       (all (v_index v))))) as [_ K]. unfold set_of in K. rewrite K, elem_of_flat_map.
    unfold hit. by setoid_rewrite bfilter_elem. }
  rewrite Er. split.
  - intros n a Hhit Ha. pose proof (proj1 Hhit) as Hn. clearbody hit. rewrite Hi in *.
    pose proof (all_indexed items Hu n Hn) as Hx. destruct (path_chain items Hu _ n Hx) as (l & Hl & El).
    assert (cn_value a ∈ cn_value n :: l) as Hal.
    { rewrite list_elem_of_In, in_rev, <- list_elem_of_In, <- El. apply list_elem_of_fmap. eauto. }
    destruct (chain_cut _ _ _ _ Hl Hal) as (l' & Hl' & Hsub).
    assert (forall b, b ∈ cn_value a :: l' -> b ∈ tree_keep fold v q) as Hkeep.
    { intros b Hb. apply Hk. exists n. split; [done|]. rewrite El, list_elem_of_In, <- in_rev, <- list_elem_of_In.
      by apply Hsub. }
    pose proof (row_shown items Hu (set_of (v_expanded v ++ tree_keep fold v q)) [] _ a l'
      (path_indexed items Hu _ a Ha) Hl') as Hshow.
    apply list_elem_of_fmap_1 in Hshow as (row & -> & Hrow).
    + apply list_elem_of_fmap. exists row. split; [done|]. apply bfilter_elem. split; [done|].
      apply sin_elem, Hkeep. left.
    + intros b Hb. apply set_of_spec, elem_of_app. right. apply Hkeep. by right.
  - intros a Ha. apply list_elem_of_fmap_1 in Ha as (row & -> & Hrow).
    apply bfilter_elem in Hrow as [_ Hrow]. by apply Hk, sin_elem.
Qed.
Definition tree_view (query : string) : View :=
  let p := {| items_id := 0; cp_items := sample_items; cp_getParent := None; cp_getChildren := false;
    cp_onSearch := false; cp_resolveValue := false; cp_prefetch := false; cp_value := None;
    cp_multiple := false; cp_selectable := SelLeaf; cp_cascade := false; cp_max := None;
    cp_mode := MTree; cp_path := None; cp_expanded := None; cp_open := Some true;
    cp_closeOnSelect := true; cp_inputValue := None; cp_deep := false; cp_filter := None;
    cp_revealSelected := true; cp_labels := CASCADER_LABELS; cp_inline := false;
    cp_virtualize := None; cp_virtualizeThreshold := 100 |} in
  mkView p sample_index sample_index [] None None
    (mkShown (One "") (mkArr (Own 1) []) (mkArr (Own 2) []) true query).
Lemma tree_search_shows_every_hit_witness :
  length (renderedItems to_lower (tree_view "OSLO")) = 3 /\
  branch "eu" [branch "no" [leaf "oslo"; leaf "bergen"]; leaf "se"] ∈ renderedItems to_lower (tree_view "OSLO").
Proof.
  split; [vm_compute; reflexivity|].
  assert (normalizeCascaderQuery to_lower (v_query (tree_view "OSLO")) <> "") as Hq by discriminate.
  destruct (tree_search_shows_every_hit to_lower sample_items (tree_view "OSLO") eq_refl eq_refl eq_refl Hq)
    as [H _].
  apply (H (leaf "oslo")).
  - split; [|reflexivity]. vm_compute. do 2 right. left.
  - vm_compute. left.
Defined.
