(* ===== verification/SitesApi.v ===== *)
(** * The sites API of the console ([apps/console/src/features/sites])

    The calls of [api.ts] with the queries of [hooks.ts], and the runtime
    check of a site ([schema.ts]).  A call is a [Call] of the client. *)
From S2P Require Import Prelude JsString JsMap JsValue ApiClient.
Import Url Client.

Definition no_init : Init := {| path := VUndef; query := VUndef |}.
Definition path_of (fields : list (string * val)) : Init := {| path := VObj fields; query := VUndef |}.
Definition query_of (fields : list (string * val)) : Init := {| path := VUndef; query := VObj fields |}.
Definition get (template : string) (i : Init) : Call := api_get template i None None.
Definition post (template : string) (body : val) (i : Init) : Call := api_post template body i None None.
Definition del (template : string) (i : Init) : Call := api_del template i None None.
(** A member that may be [undefined], and one that may be [null]. *)
Definition opt_val (v : option val) : val := v ?? VUndef.
Definition or_undefined (s : option string) : val := opt_val (VStr <$> s).
Definition or_null (s : option string) : val := (VStr <$> s) ?? VNull.

(** [[...new Set(ids)].sort()]; the ids are ASCII, where the order of code
    units is the order of bytes. *)
Definition unique_sorted (ids : list string) : list string := sort_by String.leb (set_of ids).

(** ** The API ([api.ts]) *)
Module SitesApi.
Definition list_sites (limit : Z) (after q under bbox : option string) (zoom : option Z)
    (status : option string) : Call :=
  get "/api/sites" (query_of [("limit", VNum (num_Z limit)); ("after", or_undefined after);
    ("q", or_undefined q); ("under", or_undefined under); ("bbox", or_undefined bbox);
    ("zoom", opt_val ((fun z => VNum (num_Z z)) <$> zoom)); ("status", or_undefined status)]).

(** The pages of fifty; [fuel] is the number of ids. *)
Fixpoint pages (fuel : nat) (ids : list string) : list (list string) :=
  match fuel, ids with
  | S fuel', _ :: _ => take 50 ids :: pages fuel' (drop 50 ids)
  | _, _ => []
  end.
Definition page_call (ids : list string) : Call :=
  get "/api/sites" (query_of [("ids", VStr (join "," ids)); ("limit", VNum (num_Z 50))]).
(** One request after the other: the first that fails throws. *)
Fixpoint fetch_pages {A} (send : Call -> result (list A)) (ps : list (list string)) (items : list A)
    : result (list A) :=
  match ps with
  | [] => Ok items
  | p :: rest => page <-! send (page_call p) ;; fetch_pages send rest (items ++ page)
  end.
Definition byIds {A} (send : Call -> result (list A)) (ids : list string) : result (list A) :=
  let unique := unique_sorted ids in
  fetch_pages send (pages (length unique) unique) [].

Definition hierarchy : Call := get "/api/hierarchy" no_init.
Definition basemaps : Call := get "/api/map/basemaps" no_init.
Definition layers : Call := get "/api/map/layers" no_init.
Definition tiles (origin layer : string) (under : option string) : string :=
  origin +:+ "/api/tiles/" +:+ layer +:+ "/{z}/{x}/{y}" +:+
  (if truthy_str under then "?under=" +:+ encodeURIComponent (under ?? "") else "").
Definition create (body : val) : Call := post "/api/sites" body no_init.
Definition one (id : string) : list (string * val) := [("id", VStr id)].
Definition get_site (id : string) : Call := get "/api/sites/{id}" (path_of (one id)).
Definition update (id : string) (body : val) : Call := post "/api/sites/{id}" body (path_of (one id)).
Definition bulkStatus (ids : list string) (status : string) : Call :=
  post "/api/sites/bulk-status" (VObj [("ids", VArr (map VStr ids)); ("status", VStr status)]) no_init.
Definition schedules (id : string) : Call := get "/api/sites/{id}/schedules" (path_of (one id)).
Definition createSchedule (id : string) (body : val) : Call :=
  post "/api/sites/{id}/schedules" body (path_of (one id)).
Definition deleteSchedule (id scheduleId : string) : Call :=
  del "/api/sites/{id}/schedules/{scheduleId}" (path_of (one id ++ [("scheduleId", VStr scheduleId)])).
Definition windows (id : string) : Call :=
  get "/api/sites/{id}/windows" {| path := VObj (one id); query := VObj [("days", VNum (num_Z 7))] |}.
Definition attributes : Call := get "/api/sites/attributes" no_init.
Definition closures (id : string) : Call := get "/api/sites/{id}/closures" (path_of (one id)).
Definition addClosure (id date : string) : Call :=
  post "/api/sites/{id}/closures" (VObj [("date", VStr date)]) (path_of (one id)).
Definition removeClosure (id date : string) : Call :=
  del "/api/sites/{id}/closures/{date}" (path_of (one id ++ [("date", VStr date)])).

(** [useSites]: the key of the list and the request of a page; the next page
    starts after the cursor the last one named. *)
Definition sites_key (filter : string) (under bbox : option string) (zoom : option Z)
    (status : option string) : list val :=
  [VStr "sites"; VStr "list"; VStr filter; or_null under; or_null bbox;
   ((fun z => VNum (num_Z z)) <$> zoom) ?? VNull; or_null status].
Definition non_empty (s : option string) : option string := if truthy_str s then s else None.
Definition sites_page (filter : string) (under bbox : option string) (zoom : option Z)
    (status pageParam : option string) : Call :=
  list_sites 50 pageParam (non_empty (Some filter)) under bbox zoom (non_empty status).
Definition getNextPageParam (next : val) : option string :=
  if is_nullish next then None else Some (js_String next).
(** [useSiteMetadata]: its request, when there is anything to ask. *)
Definition useSiteMetadata (ids : list string) : option (list string) :=
  match unique_sorted ids with [] => None | unique => Some unique end.
(** [useRefreshSite]: the queries a refresh marks stale. *)
Definition useRefreshSite (siteId : string) : list (list string) :=
  [["site"; siteId]; ["schedules"; siteId]; ["windows"; siteId]].
End SitesApi.

(** ** The runtime check of a site ([schema.ts]) *)
Module Schema.
Record SiteResponse := mkSite {
  rest : val;                       (* the other fields, as they came *)
  attributes : list (string * val);
  latitude : val; longitude : val; version : val
}.
Definition is_primitive (v : val) : bool :=
  match v with VStr _ | VNum _ | VBool _ => true | _ => false end.
Definition null_or_finite (v : val) : bool :=
  match v with VNull => true | VNum n => is_finite n | _ => false end.
Definition parseSiteResponse (value : val) : result SiteResponse :=
  match prop value "attributes" with
  | VObj attributes =>
      if negb (every (fun kv => is_primitive (snd kv)) attributes)
      then Throw (EMsg "invalid site attributes")
      else
        let version := prop value "version" in
        let latitude := prop value "latitude" in
        let longitude := prop value "longitude" in
        if negb (every null_or_finite [version; latitude; longitude])
        then Throw (EMsg "invalid site coordinates or version")
        else Ok (mkSite value attributes latitude longitude version)
  | _ => Throw (EMsg "invalid site attributes")
  end.
End Schema.
