(* ===== verification/SiteHours.v ===== *)
(** * Hours, filters and the picker of sites

    The hours editor ([site-hours.tsx]), the filter bar of the library
    ([site-filters.tsx]) and the site picker ([site-picker.tsx]).  A form is a
    record of its states; a press answers the request it sends, and a
    mutation's end is [Mutations.run]'s. *)
From S2P Require Import Prelude JsString JsMap JsValue ApiClient AppLib FilterQuery SitesApi.
Import Url Client Mutations Small.

(** ** The hours editor ([site-hours.tsx]) *)
Module Hours.
Definition DAYS : list (DayCode * string) :=
  [(MO, "Mon"); (TU, "Tue"); (WE, "Wed"); (TH, "Thu"); (FR, "Fri"); (SA, "Sat"); (SU, "Sun")].
Definition day_label (code : string) : option string :=
  snd <$> js_find (fun d => String.eqb (day_name (fst d)) code) DAYS.

(** [toLocaleTimeString] of the hour and the minute is the runtime's. *)
Definition fmtClock (locale_time : num -> num -> string) (time : string) : string :=
  match map to_number (split_char ":" time) with
  | h :: m :: _ => if is_finite h && is_finite m then locale_time h m else time
  | _ => time
  end.

(** [/BYDAY=([A-Z,]+)/.exec(rrule)?.[1]] *)
Definition byday_char (c : ascii) : bool := is_upper c || Ascii.eqb c ",".
Fixpoint span (p : ascii -> bool) (s : string) : string :=
  match s with
  | String c s' => if p c then String c (span p s') else ""
  | EmptyString => ""
  end.
Fixpoint byday (s : string) : option string :=
  match s with
  | EmptyString => None
  | String _ s' =>
      if starts_with "BYDAY=" s
      then match span byday_char (str_drop 6 s) with
           | EmptyString => byday s'
           | codes => Some codes
           end
      else byday s'
  end.
Definition describeRule (rrule : string) : string :=
  if includes "FREQ=DAILY" rrule then "Every day"
  else match byday rrule with
       | Some days =>
           let codes := split_char "," days in
           if Nat.eqb (length codes) 7 then "Every day"
           else if String.eqb (join "," codes) "MO,TU,WE,TH,FR" then "Weekdays"
           else if String.eqb (join "," codes) "SA,SU" then "Weekends"
           else join ", " (map (fun code => day_label code ?? code) codes)
       | None => rrule
       end.

Record Schedule := mkSchedule {
  schedule_id : string; schedule_name : string; rRule : string; opens_at : string; closes_at : string
}.
Definition hours_cell (locale_time : num -> num -> string) (s : Schedule) : string :=
  if String.eqb (str_take 5 (opens_at s)) "00:00" && String.eqb (str_take 5 (closes_at s)) "23:59"
  then "Open 24 hours"
  else fmtClock locale_time (opens_at s) +:+ " – " +:+ fmtClock locale_time (closes_at s).
(** A projected window, by the site's clock at its two ends. *)
Definition window_label (starts ends : string) : string :=
  if String.eqb starts "12:00 AM" && String.eqb ends "11:59 PM" then "Open 24 hours"
  else starts +:+ " – " +:+ ends.

Record Form := mkForm {
  days : list DayCode; opens : string; closes : string; scheduleName : string;
  duplicate : option string; closureDate : string
}.
Definition initial : Form := mkForm [MO; TU; WE; TH; FR] "09:00" "17:00" "" None "".
#[export] Instance DayCode_eq_dec : EqDecision DayCode.
Proof. solve_decision. Defined.
Definition toggle_day (d : DayCode) (f : Form) : Form :=
  mkForm (if bool_decide (d ∈ days f) then bfilter (fun x => negb (bool_decide (x = d))) (days f)
          else days f ++ [d])
    (opens f) (closes f) (scheduleName f) (duplicate f) (closureDate f).
Definition with_duplicate (d : option string) (f : Form) : Form :=
  mkForm (days f) (opens f) (closes f) (scheduleName f) d (closureDate f).

Definition add_disabled (f : Form) (isPending : bool) : bool :=
  Nat.eqb (length (days f)) 0 || String.eqb (trim (scheduleName f)) "" || isPending.
Definition is_twin (rule opens closes : string) (s : Schedule) : bool :=
  String.eqb (rRule s) rule && String.eqb (str_take 5 (opens_at s)) opens &&
  String.eqb (str_take 5 (closes_at s)) closes.
Definition schedule_body (f : Form) (now : Z) : val :=
  VObj [("name", VStr (trim (scheduleName f))); ("rRule", VStr (weeklySchedule (days f) now).1);
        ("anchorDate", VStr (weeklySchedule (days f) now).2);
        ("opens", VStr (opens f)); ("closes", VStr (closes f))].
(** The press of "Add hours": the form, and the body it asks to create. *)
Definition press_add (schedules : option (list Schedule)) (isPending : bool) (now : Z) (f : Form)
    : Form * option val :=
  if add_disabled f isPending then (f, None)
  else
    let rule := (weeklySchedule (days f) now).1 in
    match schedules ≫= js_find (is_twin rule (opens f) (closes f)) with
    | Some twin =>
        (with_duplicate (Some (str1 dquote +:+ schedule_name twin +:+ str1 dquote +:+
           " already covers those days and times.")) f, None)
    | None => (with_duplicate None f, Some (schedule_body f now))
    end.
(** [onSuccess] of the two forms. *)
Definition added (f : Form) : Form :=
  mkForm (days f) (opens f) (closes f) "" None (closureDate f).
Definition close_disabled (f : Form) (isPending : bool) : bool :=
  String.eqb (closureDate f) "" || isPending.
Definition press_close (siteId : string) (isPending : bool) (f : Form) : option Call :=
  if close_disabled f isPending then None else Some (SitesApi.addClosure siteId (closureDate f)).
Definition day_closed (f : Form) : Form :=
  mkForm (days f) (opens f) (closes f) (scheduleName f) (duplicate f) "".

Definition addSchedule_options : Options := mkOptions [] (Some "Hours added") None true false.
Definition removeSchedule_options : Options := mkOptions [] (Some "Hours removed") None true false.
Definition addClosure_options (siteId : string) : Options :=
  mkOptions [["closures"; siteId]] (Some "Day closed") (Some "Could not close that day") true false.
Definition removeClosure_options (siteId : string) : Options :=
  mkOptions [["closures"; siteId]] (Some "Day reopened") None true false.
End Hours.

(** ** The filter bar of the library ([site-filters.tsx]) *)
Module SiteFilters.
Definition STATUS_OPTIONS : list (string * string) :=
  [("Open", "Open"); ("ComingSoon", "Coming soon"); ("TemporarilyClosed", "Temporarily closed");
   ("Closed", "Closed")].
Definition excludes (c : FilterCondition) : bool :=
  c_negated c || String.eqb (c_operator c) "is_not" || String.eqb (c_operator c) "is_none_of".
Definition chosen_of (c : FilterCondition) : list string :=
  bfilter (fun s => negb (String.eqb s "")) (map js_String (c_values c)).
Definition add_condition (statuses : jsset) (c : FilterCondition) : jsset :=
  if negb (bool_decide (c_field c = Some "status")) then statuses
  else
    let chosen := chosen_of c in
    if Nat.eqb (length chosen) 0 then statuses
    else if excludes c
    then fold_left (fun acc s => if bool_decide (s ∈ chosen) then acc else sadd acc s)
           (map fst STATUS_OPTIONS) statuses
    else fold_left sadd chosen statuses.
Definition toStatuses (query : FilterQuery) : list string :=
  fold_left add_condition (flattenFilterConditions query) [].

Record Values := mkValues { v_q : string; v_statuses : list string }.
Record Bar := mkBar { q : string; query : FilterQuery; debounced : Debounce string }.
(** What the bar tells the page, oldest first. *)
Inductive Event := Typed (text : string) | Paused | QueryChanged (next : FilterQuery).
Definition mount (query : FilterQuery) : Bar * list Values :=
  (mkBar "" query (mkDebounce "" None), [mkValues (trim "") (toStatuses query)]).
(** The effect of [useDebounced] arms its timer again when [q] changes; the
    bar's own effect runs when the settled value is a new one. *)
Definition handle (b : Bar) (e : Event) : Bar * list Values :=
  match e with
  | Typed text =>
      (mkBar text (query b) (if String.eqb text (q b) then debounced b
                             else debounce_change (debounced b) text), [])
  | Paused =>
      let d := debounce_fire (debounced b) in
      (mkBar (q b) (query b) d,
       if String.eqb (settled d) (settled (debounced b)) then []
       else [mkValues (trim (settled d)) (toStatuses (query b))])
  | QueryChanged next => (mkBar (q b) next (debounced b), [mkValues (trim (q b)) (toStatuses next)])
  end.
Fixpoint session (b : Bar) (es : list Event) : Bar * list Values :=
  match es with
  | [] => (b, [])
  | e :: es' => let '(b1, told) := handle b e in
                let '(b2, more) := session b1 es' in (b2, told ++ more)
  end.
End SiteFilters.

(** ** The site picker ([site-picker.tsx]) *)
Module Picker.
Definition searchTerm (typed : string) (selectedName : option string) : string :=
  if bool_decide (Some (trim typed) = selectedName) then "" else trim typed.
Definition pick_call (q : string) (under : option string) : Call :=
  SitesApi.list_sites 20 None (SitesApi.non_empty (Some q)) under None None None.
End Picker.
