(* ===== verification/SiteEdit.v ===== *)
(** * Creating and editing a site

    The dialogs of [new-site-dialog.tsx] and [site-detail-page.tsx]: their
    states, the bodies they send, and [Number.parseFloat], through which a
    typed number goes. *)
From S2P Require Import Prelude JsString JsMap JsValue ApiClient AppLib SitesApi.
Import Url Client Mutations.

(** ** [Number.parseFloat] *)
Definition prefix_decimal (s : string) : num :=
  if starts_with "Infinity" s then Infty false
  else
    let '(m, k, s1) := digits 0 0 s in
    let '(m', k', s2) := match s1 with String "." t => digits m 0 t | _ => (m, 0, s1) end in
    if Nat.eqb (k + k') 0 then NaN
    else Fin (scale10 m' (((fst <$> exponent s2) ?? 0%Z) - Z.of_nat k')).
Definition num_neg (n : num) : num :=
  match n with NaN => NaN | Infty b => Infty (negb b) | Fin q => Fin (- q) end.
Definition parseFloat (s : string) : num :=
  match trim_start s with
  | String "-" t => num_neg (prefix_decimal t)
  | String "+" t => prefix_decimal t
  | t => prefix_decimal t
  end.
(** The coordinates of a form, when both fields read as numbers. *)
Definition coordinates (lat lng : string) : list (string * val) :=
  if is_finite (parseFloat lat) && is_finite (parseFloat lng)
  then [("latitude", VNum (parseFloat lat)); ("longitude", VNum (parseFloat lng))] else [].

(** ** Creating a site ([new-site-dialog.tsx]) *)
Module NewSite.
Record NewForm := mkNewForm {
  name : string; timeZone : string; nodeId : string; creating : bool; withAddress : bool;
  address : string; city : string; postal : string; country : string; lat : string; lng : string
}.
(** The zone the browser names, when the runtime lists it. *)
Definition browserTimeZone (zone : option string) (supported : list string) : string :=
  match zone with
  | Some z => if bool_decide (z ∈ supported) then z else "Etc/UTC"
  | None => "Etc/UTC"
  end.
Definition initial (zone : string) : NewForm := mkNewForm "" zone "" false false "" "" "" "" "" "".
Definition trim_or_null (s : string) : val := or_null (SitesApi.non_empty (Some (trim s))).
Definition create_body (f : NewForm) : val :=
  VObj ([("nodeId", VStr (nodeId f)); ("name", VStr (trim (name f))); ("timeZone", VStr (timeZone f))] ++
    (if withAddress f then
       [("addressLine1", trim_or_null (address f)); ("city", trim_or_null (city f));
        ("postalCode", trim_or_null (postal f)); ("countryCode", trim_or_null (country f))] ++
       coordinates (lat f) (lng f)
     else [])).
Definition create_disabled (f : NewForm) (isPending : bool) : bool :=
  String.eqb (trim (name f)) "" || String.eqb (nodeId f) "" || isPending.
Definition press_create (f : NewForm) (isPending : bool) : option Call :=
  if create_disabled f isPending then None else Some (SitesApi.create (create_body f)).
Definition create_options : Options := mkOptions [["sites"]] (Some "Site created") None true false.
(** [onSuccess]: the form is spent, the node and the zone stay; the page
    moves to the new site unless the tree was unmounted meanwhile. *)
Definition created (mounted : bool) (id : string) (f : NewForm) : NewForm * option string :=
  (mkNewForm "" (timeZone f) (nodeId f) false (withAddress f) "" "" "" "" "" "",
   if mounted then Some id else None).
End NewSite.

(** ** Editing a site ([site-detail-page.tsx]) *)
Module SiteEdit.
Inductive AttributeType := TText | TNumber | TBoolean.
#[export] Instance AttributeType_eq_dec : EqDecision AttributeType.
Proof. solve_decision. Defined.
Record Definition_ := mkDefinition { key : string; type : AttributeType }.
Record Site := mkSite {
  site_name : string; site_zone : string; addressLine1 : option string; site_city : option string;
  postalCode : option string; countryCode : option string;
  latitude : option num; longitude : option num;
  site_attributes : list (string * val); site_version : val; status : string
}.
Record Form := mkForm {
  editName : string; editZone : string; editAddress : string; editCity : string;
  editPostal : string; editCountry : string; editLat : string; editLng : string;
  editAttributes : jsmap string
}.
(** The press of "Edit" fills the form. *)
Definition open_edit (s : Site) : Form :=
  mkForm (site_name s) (site_zone s) (addressLine1 s ?? "") (site_city s ?? "") (postalCode s ?? "")
    (countryCode s ?? "") ((show_num <$> latitude s) ?? "") ((show_num <$> longitude s) ?? "")
    (map (fun kv => (fst kv, js_String (snd kv))) (site_attributes s)).
Definition set_attribute (k v : string) (f : Form) : Form :=
  mkForm (editName f) (editZone f) (editAddress f) (editCity f) (editPostal f) (editCountry f)
    (editLat f) (editLng f) (mset (editAttributes f) k v).
Definition check_attribute (k : string) (checked : bool) (f : Form) : Form :=
  set_attribute k (if checked then "true" else "false") f.

Definition attribute_value (f : Form) (d : Definition_) : val :=
  let raw := mget (editAttributes f) (key d) ?? "" in
  if String.eqb raw "" then VNull
  else match type d with
       | TBoolean => VBool (String.eqb raw "true")
       | TNumber => VNum (parseFloat raw)
       | TText => VStr raw
       end.
(** [Object.fromEntries] keeps one entry per key. *)
Definition attributes_of (f : Form) (definitions : option (list Definition_)) : jsmap val :=
  fold_left (fun m d => mset m (key d) (attribute_value f d)) (definitions ?? []) [].
(** The variables of the save, and of closing and reopening. *)
Definition save_variables (f : Form) (definitions : option (list Definition_)) : list (string * val) :=
  [("name", VStr (trim (editName f))); ("timeZone", VStr (editZone f));
   ("addressLine1", VStr (trim (editAddress f))); ("city", VStr (trim (editCity f)));
   ("postalCode", VStr (trim (editPostal f))); ("countryCode", VStr (trim (editCountry f)))] ++
  coordinates (editLat f) (editLng f) ++
  [("attributes", VObj (attributes_of f definitions))].
Definition closed (s : Site) : bool := String.eqb (status s) "Closed".
Definition toggle_variables (s : Site) : list (string * val) :=
  [("status", VStr (if closed s then "Open" else "Closed"))].
(** [mutationFn]: the core fields are [null] for "unchanged", the others are
    as given, and the version is the one that was loaded. *)
Definition nullable (v : val) : val := if is_nullish v then VNull else v.
Definition update_body (version : val) (variables : list (string * val)) : val :=
  let member := field_of variables in
  VObj [("name", nullable (member "name")); ("timeZone", nullable (member "timeZone"));
        ("status", nullable (member "status"));
        ("addressLine1", member "addressLine1"); ("city", member "city");
        ("postalCode", member "postalCode"); ("countryCode", member "countryCode");
        ("latitude", member "latitude"); ("longitude", member "longitude");
        ("attributes", member "attributes"); ("version", version)].
Definition save_disabled (f : Form) (isPending : bool) : bool :=
  String.eqb (trim (editName f)) "" || isPending.
Definition press_save (siteId : string) (s : Site) (f : Form)
    (definitions : option (list Definition_)) (isPending : bool) : option Call :=
  if save_disabled f isPending then None
  else Some (SitesApi.update siteId (update_body (site_version s) (save_variables f definitions))).
Definition press_toggle (siteId : string) (s : Site) (isPending : bool) : option Call :=
  if isPending then None
  else Some (SitesApi.update siteId (update_body (site_version s) (toggle_variables s))).
Definition options : Options := mkOptions [] (Some "Site updated") None true true.
Definition address_line (s : Site) : option string :=
  if truthy_str (addressLine1 s)
  then Some (join ", " (bfilter (fun t => negb (String.eqb t ""))
         (omap id [addressLine1 s; site_city s; postalCode s; countryCode s]))) else None.
End SiteEdit.
