(* ===== verification/MapLayers.v ===== *)
(** * The layers of the sites map ([use-map-layers.ts], [layers-popover.tsx])

    The data layer, the overlays that show and the basemap, from what this
    browser chose and what the server offers. *)
From S2P Require Import Prelude JsString JsMap JsValue ApiClient SitesApi.

(** ** The layers of the map ([use-map-layers.ts]) *)
Module MapLayers.
Record DataLayer := mkLayer { layer_name : string; layer_statuses : list (string * string) }.
Record Overlay := mkOverlay { overlay_id : string; featureCount : Z; style : val }.
Record Raster := mkRaster { raster_id : string; raster_name : string }.
Record Choices := mkChoices { layerChoice : string; hiddenList : list string; basemapChoice : string }.
Definition initial : Choices := mkChoices "sites" [] "auto".
(** The answers of the three queries; [None] while there is no data. *)
Record Data := mkData {
  layers : option (list DataLayer); org_overlays : option (list Overlay); basemaps : option (list Raster)
}.

Definition dataLayers (d : Data) : list DataLayer := layers d ?? [].
Definition dataLayer (d : Data) (c : Choices) : option DataLayer :=
  match js_find (fun l => String.eqb (layer_name l) (layerChoice c)) (dataLayers d) with
  | Some l => Some l
  | None => js_find (fun l => String.eqb (layer_name l) "sites") (dataLayers d)
  end.
Definition layerName (d : Data) (c : Choices) : string := (layer_name <$> dataLayer d c) ?? "sites".
Definition statuses (d : Data) (c : Choices) : list (string * string) :=
  (layer_statuses <$> dataLayer d c) ?? [].
Definition tiles (origin : string) (under : option string) (d : Data) (c : Choices) : string * string :=
  (SitesApi.tiles origin (layerName d c) under, layerName d c).

Definition chooseLayer (name : string) (c : Choices) : Choices :=
  mkChoices name (hiddenList c) (basemapChoice c).
Definition chooseBasemap (id : string) (c : Choices) : Choices :=
  mkChoices (layerChoice c) (hiddenList c) id.
Definition toggleOverlay (id : string) (c : Choices) : Choices :=
  mkChoices (layerChoice c)
    (if bool_decide (id ∈ hiddenList c) then bfilter (fun h => negb (String.eqb h id)) (hiddenList c)
     else hiddenList c ++ [id]) (basemapChoice c).

Definition rasters (d : Data) : list Raster := basemaps d ?? [].
Definition knownChoice (d : Data) (c : Choices) : bool :=
  String.eqb (basemapChoice c) "auto" || String.eqb (basemapChoice c) "osm" ||
  match basemaps d with None => true | Some _ => false end ||
  some (fun r => String.eqb (raster_id r) (basemapChoice c)) (rasters d).
Definition basemap (dark : bool) (d : Data) (c : Choices) : string :=
  if String.eqb (basemapChoice c) "auto" || negb (knownChoice d c)
  then if dark then "dark" else "light" else basemapChoice c.
Definition basemapChoices (d : Data) : list (string * string) :=
  [("auto", "Match theme"); ("osm", "OpenStreetMap")] ++
  map (fun r => (raster_id r, raster_name r)) (rasters d).
(** What the popover's radio group shows as chosen. *)
Definition radio_value (d : Data) (c : Choices) : string :=
  if knownChoice d c then basemapChoice c else "auto".
Definition overlayLayers (d : Data) : list Overlay :=
  bfilter (fun l => (0 <? featureCount l)%Z) (org_overlays d ?? []).
Definition overlays (d : Data) (c : Choices) : list Overlay :=
  bfilter (fun l => negb (bool_decide (overlay_id l ∈ hiddenList c))) (overlayLayers d).
End MapLayers.
