(* ===== verification/SiteLaws.v ===== *)
(** * The properties of the console's sites

    A weekly rule is described by exactly its days, and the same hours are not
    added twice; a status filter means its chips; sites are fetched by id once
    each; an edit saved as it was opened keeps the site's attributes. *)
From stdpp Require Import sorting.
From S2P Require Import Prelude JsString JsMap JsValue ApiClient AppLib FilterQuery SitesApi SiteHours SiteEdit MapLayers.
Import Url Client Mutations Small.

(** ** Hours *)
Section Hours.
Import Hours.
Definition week : list DayCode := [MO; TU; WE; TH; FR; SA; SU].
Definition chosen (days : list DayCode) : list DayCode :=
  bfilter (fun d => bool_decide (d ∈ days)) week.
Definition weekday (d : DayCode) : string := day_label (day_name d) ?? "".
(** What a set of days is called. *)
Definition names (l : list DayCode) : string :=
  if bool_decide (l = week) then "Every day"
  else if bool_decide (l = [MO; TU; WE; TH; FR]) then "Weekdays"
  else if bool_decide (l = [SA; SU]) then "Weekends"
  else join ", " (map weekday l).
Definition rule_of (days : list DayCode) : string := (weeklySchedule days 0).1.

Lemma rule_any_time days now : (weeklySchedule days now).1 = rule_of days.
Proof. done. Qed.
Lemma day_index_inj a b : day_index a = day_index b -> a = b.
Proof. by destruct a, b. Qed.
Definition earlier (a b : DayCode) : bool := Nat.leb (day_index a) (day_index b).
Lemma sort_days_by days : sort_days days = sort_by earlier days.
Proof.
  induction days as [|d days IH]; [done|]. cbn. change (fold_right insert_day [] days) with (sort_days days).
  rewrite IH. unfold sort_by. cbn. induction (foldr _ _ days) as [|e l IHl]; [done|]. cbn.
  unfold earlier at 1. destruct (Nat.leb _ _); [done|]. by f_equal.
Qed.
Lemma week_sorted p : StronglySorted (fun a b => earlier a b = true) (bfilter p week).
Proof.
  unfold week. cbn. destruct (p MO), (p TU), (p WE), (p TH), (p FR), (p SA), (p SU);
    repeat (constructor; [|repeat constructor]); constructor.
Qed.
#[local] Instance earlier_antisymm : AntiSymm (=) (fun a b => earlier a b = true).
Proof. intros a b H1 H2. unfold earlier in *. unbool. apply day_index_inj. lia. Qed.
Lemma sort_days_chosen days : NoDup days -> sort_days days = chosen days.
Proof.
  intros Hd. rewrite sort_days_by. apply (StronglySorted_unique (fun a b => earlier a b = true)).
  - apply sort_by_sorted; unfold earlier; intros; unbool; apply Nat.leb_le; lia.
  - apply week_sorted.
  - rewrite sort_by_perm. apply NoDup_Permutation; [done| |].
    + apply bfilter_NoDup. repeat constructor; set_solver.
    + intros x. unfold chosen. rewrite bfilter_elem, bool_decide_eq_true.
      split; [|tauto]. intros H. split; [|done]. destruct x; set_solver.
Qed.
Lemma chosen_elem days d : d ∈ chosen days <-> d ∈ days.
Proof.
  unfold chosen. rewrite bfilter_elem, bool_decide_eq_true. split; [tauto|]. intros H.
  split; [destruct d; set_solver|done].
Qed.

(** The 127 sets of days a rule can name. *)
Definition subsets : list (list DayCode) :=
  bfilter (fun l => negb (Nat.eqb (length l) 0))
    (foldr (fun d acc => map (cons d) acc ++ acc) [[]] week).
Lemma chosen_subset days : days <> [] -> chosen days ∈ subsets.
Proof.
  intros Hd. unfold subsets. apply bfilter_elem. split.
  - unfold chosen. generalize (fun d => bool_decide (d ∈ days)) as p. intros p.
    assert (H : forall l, bfilter p l ∈ foldr (fun d acc => map (cons d) acc ++ acc) [[]] l).
    { induction l as [|d l IH]; [by left|]. cbn. apply elem_of_app.
      destruct (p d); [left|by right]. apply list_elem_of_In, in_map, list_elem_of_In, IH. }
    apply H.
  - apply negb_true_iff, Nat.eqb_neq. intros H%length_zero_iff_nil. destruct days as [|d days]; [done|].
    assert (Hin : d ∈ chosen (d :: days)) by (apply chosen_elem; set_solver).
    rewrite H in Hin. by apply elem_of_nil in Hin.
Qed.
Definition rule_text (l : list DayCode) : string := "FREQ=WEEKLY;BYDAY=" +:+ join "," (map day_name l).
Lemma subsets_described l : l ∈ subsets -> describeRule (rule_text l) = names l.
Proof.
  assert (H : every (fun l => String.eqb (describeRule (rule_text l)) (names l)) subsets = true)
    by (vm_compute; reflexivity).
  intros Hl. rewrite forallb_forall in H. apply String.eqb_eq, H. by apply list_elem_of_In.
Qed.
Lemma names_inj l k : l ∈ subsets -> k ∈ subsets -> names l = names k -> l = k.
Proof.
  assert (H : every (fun l => every (fun k => negb (String.eqb (names l) (names k)) ||
    bool_decide (l = k)) subsets) subsets = true) by (vm_compute; reflexivity).
  intros Hl%list_elem_of_In Hk%list_elem_of_In Hn. rewrite forallb_forall in H.
  specialize (H l Hl). rewrite forallb_forall in H. specialize (H k Hk).
  rewrite Hn, String.eqb_refl in H. cbn in H. by apply bool_decide_eq_true_1 in H.
Qed.
Lemma rule_described days : NoDup days -> days <> [] -> describeRule (rule_of days) = names (chosen days).
Proof.
  intros Hn Hd. unfold rule_of, weeklySchedule. cbn [fst]. rewrite sort_days_chosen by done.
  by apply subsets_described, chosen_subset.
Qed.

(** The hours table tells the days of a rule the form makes: whatever the
    order they were pressed in, it shows the day names in week order, or what
    that set is called; and rules that read alike have the same days. *)
Theorem rule_tells_its_days days days' now now' :
  NoDup days -> days <> [] -> NoDup days' -> days' <> [] ->
  describeRule (weeklySchedule days now).1 = names (chosen days) /\
  (describeRule (weeklySchedule days now).1 = describeRule (weeklySchedule days' now').1 <->
   forall d, d ∈ days <-> d ∈ days').
Proof.
  intros Hn Hd Hn' Hd'. rewrite !rule_any_time, !rule_described by done. split; [done|]. split.
  - intros H d. rewrite <- (chosen_elem days d), <- (chosen_elem days' d).
    by rewrite (names_inj _ _ (chosen_subset _ Hd) (chosen_subset _ Hd') H).
  - intros H. f_equal. unfold chosen. apply List.filter_ext. intros d. apply bool_decide_ext, H.
Qed.

Lemma rule_tells_its_days_witness :
  describeRule (weeklySchedule [FR; MO] 0).1 = "Mon, Fri" /\
  (describeRule (weeklySchedule [FR; MO] 0).1 = describeRule (weeklySchedule [MO; FR] 5).1 <->
   forall d, d ∈ [FR; MO] <-> d ∈ [MO; FR]).
Proof.
  change "Mon, Fri" with (names (chosen [FR; MO])).
  apply (rule_tells_its_days [FR; MO] [MO; FR] 0 5); try done; repeat constructor; set_solver.
Defined.

(** ** The same hours twice *)
Lemma toggle_day_NoDup d f : NoDup (days f) -> NoDup (days (toggle_day d f)).
Proof.
  intros H. unfold toggle_day. cbn. case_bool_decide; [by apply bfilter_NoDup|].
  apply NoDup_app. split_and!; [done|set_solver|apply NoDup_singleton].
Qed.
Lemma toggle_day_elem d f e :
  e ∈ days (toggle_day d f) <-> (if bool_decide (e = d) then d ∉ days f else e ∈ days f).
Proof.
  unfold toggle_day. cbn. destruct (bool_decide_reflect (d ∈ days f)).
  - rewrite bfilter_elem, negb_true_iff, bool_decide_eq_false. case_bool_decide; naive_solver.
  - case_bool_decide; set_solver.
Qed.
Lemma rule_same_days days days' : NoDup days -> NoDup days' -> (forall d, d ∈ days <-> d ∈ days') ->
  rule_of days = rule_of days'.
Proof.
  intros Hn Hn' H. unfold rule_of, weeklySchedule. cbn [fst]. rewrite !sort_days_chosen by done.
  do 3 f_equal. apply List.filter_ext. intros d. apply bool_decide_ext, H.
Qed.

(** A schedule as the server lists the one a form made. *)
Definition made_by (f : Form) (s : Schedule) : Prop :=
  rRule s = rule_of (days f) /\ str_take 5 (opens_at s) = opens f /\ str_take 5 (closes_at s) = closes f.

(** Hours are not added twice: with a listed schedule that a form made
    whose days and times are those chosen now, pressed in any order, the press
    sends nothing and says which schedule covers them; with none, an enabled
    press sends exactly the chosen rule and times under the trimmed name. *)
Theorem same_hours_are_refused l now f : NoDup (days f) -> add_disabled f false = false ->
  ((exists s f', s ∈ l /\ made_by f' s /\ NoDup (days f') /\ (forall d, d ∈ days f' <-> d ∈ days f) /\
      opens f' = opens f /\ closes f' = closes f) ->
   (press_add (Some l) false now f).2 = None /\
   exists s, s ∈ l /\ duplicate (press_add (Some l) false now f).1 =
     Some (str1 dquote +:+ schedule_name s +:+ str1 dquote +:+ " already covers those days and times.")) /\
  ((forall s, s ∈ l -> ~ made_by f s) ->
   press_add (Some l) false now f = (with_duplicate None f, Some (schedule_body f now))).
Proof.
  intros Hn He. unfold press_add. rewrite He. cbn zeta. rewrite rule_any_time. cbn [mbind option_bind].
  assert (Htwin : forall s, is_twin (rule_of (days f)) (opens f) (closes f) s = true <-> made_by f s).
  { intros s. unfold is_twin, made_by. rewrite !andb_true_iff, !String.eqb_eq. tauto. }
  unfold js_find. split.
  - intros (s & f' & Hs & (H1 & H2 & H3) & Hn' & Hd & Ho & Hc).
    destruct (List.find _ l) as [t|] eqn:Ef.
    + split; [done|]. exists t. apply List.find_some in Ef as [Ht _]. by apply list_elem_of_In in Ht.
    + apply list_elem_of_In in Hs. eapply List.find_none in Ef; [|exact Hs].
      apply not_true_iff_false in Ef. destruct Ef. apply Htwin. unfold made_by.
      by rewrite H1, H2, H3, (rule_same_days (days f') (days f)).
  - intros Hno. destruct (List.find _ l) as [t|] eqn:Ef; [|done].
    apply List.find_some in Ef as [Ht Hb]. apply list_elem_of_In in Ht. by destruct (Hno t Ht); apply Htwin.
Qed.

Lemma same_hours_are_refused_witness :
  let f := mkForm [FR; MO] "09:00" "17:00" " Evenings " None "" in
  let s := mkSchedule "s1" "Week" "FREQ=WEEKLY;BYDAY=MO,FR" "09:00:00" "17:00:00" in
  (press_add (Some [s]) false 0 f).2 = None /\
  press_add (Some []) false 0 f = (with_duplicate None f, Some (schedule_body f 0)).
Proof.
  intros f s. assert (Hn : NoDup (days f)) by (repeat constructor; set_solver). split.
  - apply (proj1 (same_hours_are_refused [s] 0 f Hn eq_refl)).
    exists s, (mkForm [MO; FR] "09:00" "17:00" "" None "").
    split_and!; try done; [by left|repeat constructor; set_solver|intros d; cbn; set_solver].
  - apply (proj2 (same_hours_are_refused [] 0 f Hn eq_refl)). intros s' Hs'. by apply elem_of_nil in Hs'.
Defined.

(** Hours over all seven days are a weekly rule here: the daily rule that says
    the same is described alike and is not taken for a twin. *)
Lemma daily_rule_is_no_twin :
  let s := mkSchedule "s1" "Always" "FREQ=DAILY" "09:00:00" "17:00:00" in
  let f := mkForm week "09:00" "17:00" "Again" None "" in
  describeRule (rRule s) = describeRule (rule_of week) /\ (press_add (Some [s]) false 0 f).2 <> None.
Proof. by vm_compute. Qed.
End Hours.

(** ** The status filter *)
Section Filter.
Import SiteFilters.
Definition known_statuses : list string := map fst STATUS_OPTIONS.
(** The statuses one chip stands for: none while nothing is chosen in it. *)
Definition chip_means (c : FilterCondition) (s : string) : Prop :=
  c_field c = Some "status" /\ chosen_of c <> [] /\
  if excludes c then s ∈ known_statuses /\ s ∉ chosen_of c else s ∈ chosen_of c.

Lemma fold_sadd_elem xs acc x : x ∈ fold_left sadd xs acc <-> x ∈ acc \/ x ∈ xs.
Proof.
  revert acc. induction xs as [|y xs IH]; intros acc; cbn; [set_solver|].
  rewrite IH, sadd_elem. set_solver.
Qed.
Lemma fold_sadd_NoDup xs acc : NoDup acc -> NoDup (fold_left sadd xs acc).
Proof. revert acc. induction xs as [|y xs IH]; intros acc H; [done|]. by apply IH, sadd_NoDup. Qed.
Lemma fold_excluded (chosen xs : list string) acc x :
  let go := fold_left (fun acc s => if bool_decide (s ∈ chosen) then acc else sadd acc s) xs acc in
  (x ∈ go <-> x ∈ acc \/ (x ∈ xs /\ x ∉ chosen)) /\ (NoDup acc -> NoDup go).
Proof.
  cbn zeta. revert acc. induction xs as [|y xs IH]; intros acc; cbn [fold_left]; [split; [set_solver|done]|].
  destruct (IH (if bool_decide (y ∈ chosen) then acc else sadd acc y)) as [H1 H2]. split.
  - rewrite H1, elem_of_cons. case_bool_decide; [naive_solver|]. rewrite sadd_elem. naive_solver.
  - intros H. apply H2. case_bool_decide; [done|by apply sadd_NoDup].
Qed.
Lemma add_condition_spec acc c s :
  (s ∈ add_condition acc c <-> s ∈ acc \/ chip_means c s) /\ (NoDup acc -> NoDup (add_condition acc c)).
Proof.
  unfold add_condition, chip_means. case_bool_decide as Hf; cbn [negb]; [|split; [naive_solver|done]].
  destruct (Nat.eqb_spec (length (chosen_of c)) 0) as [Hl|Hl].
  { apply length_zero_iff_nil in Hl. rewrite Hl. split; [naive_solver|done]. }
  assert (Hc : chosen_of c <> []) by (intros H; by rewrite H in Hl).
  destruct (excludes c).
  - destruct (fold_excluded (chosen_of c) (map fst STATUS_OPTIONS) acc s) as [H1 H2].
    split; [|done]. rewrite H1. fold known_statuses. naive_solver.
  - split; [|apply fold_sadd_NoDup]. rewrite fold_sadd_elem. naive_solver.
Qed.

(** The statuses the list is asked for are those some chip stands for,
    each once: a chip that lists statuses stands for them, one that excludes
    stands for the others, and a chip nothing was chosen in for none. *)
Theorem statuses_are_the_chips query s :
  NoDup (toStatuses query) /\
  (s ∈ toStatuses query <-> exists c, c ∈ flattenFilterConditions query /\ chip_means c s).
Proof.
  unfold toStatuses.
  assert (H : forall cs acc, (NoDup acc -> NoDup (fold_left add_condition cs acc)) /\
    (s ∈ fold_left add_condition cs acc <-> s ∈ acc \/ exists c, c ∈ cs /\ chip_means c s)).
  { induction cs as [|c cs IH]; intros acc; cbn [fold_left]; [split; [done|set_solver]|].
    destruct (IH (add_condition acc c)) as [H1 H2], (add_condition_spec acc c s) as [H3 H4].
    split; [auto|]. rewrite H2, H3. setoid_rewrite elem_of_cons. naive_solver. }
  destruct (H (flattenFilterConditions query) []) as [H1 H2]. split; [by apply H1, NoDup_nil|].
  rewrite H2. split; [intros [Hs|Hs]; [by apply elem_of_nil in Hs|done]|by right].
Qed.

Definition status_rule (id op : string) (values : list string) : FilterNode :=
  NRule (mkRule id ["status"] op (VArr (map VStr values)) None).
Definition chips (rules : list FilterNode) : FilterQuery := mkGroup "root" CAnd rules.

(** Excluding every status asks for none, which the page sends as no filter
    at all: the list shows every site. *)
Lemma excluding_all_means_everything :
  let q := chips [status_rule "a" "is_none_of" known_statuses] in
  toStatuses q = [] /\
  url "" "/api/sites" (init (SitesApi.sites_page "" None None None
    (Some (join "," (toStatuses q))) None)) = Ok "/api/sites?limit=50".
Proof. by vm_compute. Qed.
(** Two chips of an "and" query widen the list: "is Open" and "is not Closed"
    ask for three statuses. *)
Lemma chips_widen :
  toStatuses (chips [status_rule "a" "is" ["Open"]; status_rule "b" "is_not" ["Closed"]]) =
    ["Open"; "ComingSoon"; "TemporarilyClosed"].
Proof. by vm_compute. Qed.

(** A term typed while a chip changes reaches the list at once; taken back
    within the pause, it stays the list's term although the box is empty. *)
Lemma taken_back_term_stays :
  let '(b, told) := session (mount (chips [])).1
    [Typed "a"; QueryChanged (chips [status_rule "a" "is" ["Open"]]); Typed ""; Paused; Paused] in
  q b = "" /\ last told = Some (mkValues "a" ["Open"]).
Proof. by vm_compute. Qed.

(** Otherwise the list's term is the box's, trimmed, once typing pauses. *)
Lemma pause_sends_the_term b text : q b <> text -> text <> settled (debounced b) ->
  let '(b1, told) := session b [Typed text; Paused] in
  q b1 = text /\ told = [mkValues (trim text) (toStatuses (query b))].
Proof.
  intros Hq Hs. cbn. rewrite (proj2 (String.eqb_neq text (q b))) by congruence. cbn.
  by rewrite (proj2 (String.eqb_neq _ _) Hs).
Qed.
End Filter.

(** ** Sites by id *)
Section ByIds.
Import SitesApi.
Lemma pages_spec n ids : length ids <= n ->
  concat (pages n ids) = ids /\ Forall (fun p => p <> [] /\ length p <= 50) (pages n ids).
Proof.
  revert ids. induction n as [|n IH]; intros [|x ids] Hl; try done; [simpl in Hl; lia|].
  cbn -[take drop]. destruct (IH (drop 50 (x :: ids))) as [H1 H2].
  { rewrite length_drop. simpl in *. lia. }
  split; [by rewrite H1, take_drop|]. constructor; [split; [done|]|done].
  rewrite length_take. lia.
Qed.
Lemma fetch_pages_ok {A} (send : Call -> result (list A)) answer ps items :
  (forall p, p ∈ ps -> send (page_call p) = Ok (answer p)) ->
  fetch_pages send ps items = Ok (items ++ flat_map answer ps).
Proof.
  revert items. induction ps as [|p ps IH]; intros items H; cbn; [by rewrite app_nil_r|].
  rewrite H by by left. cbn. rewrite IH, app_assoc; [done|]. intros p' Hp'. apply H. by right.
Qed.
Lemma fetch_pages_fail {A} (send : Call -> result (list A)) answer ps p ps' e items :
  (forall p, p ∈ ps -> send (page_call p) = Ok (answer p)) -> send (page_call p) = Throw e ->
  fetch_pages send (ps ++ p :: ps') items = Throw e.
Proof.
  intros H He. revert items. induction ps as [|p0 ps IH]; intros items; cbn; [by rewrite He|].
  rewrite H by by left. cbn. apply IH. intros p' Hp'. apply H. by right.
Qed.
Lemma unique_sorted_spec ids : NoDup (unique_sorted ids) /\ forall x, x ∈ unique_sorted ids <-> x ∈ ids.
Proof.
  unfold unique_sorted. destruct (set_of_spec ids) as [H1 H2].
  rewrite sort_by_perm. split; [done|]. intros x. by rewrite sort_by_elem.
Qed.

(** C34: Sites are fetched by id in requests of at most fifty, which ask for
    each distinct id once; the answer is the pages' sites in order, and the
    first request that fails is the call's error. *)
Theorem sites_fetched_once {A} (send : Call -> result (list A)) (answer : list string -> list A) ids :
  exists ps, Forall (fun p => p <> [] /\ length p <= 50) ps /\ NoDup (concat ps) /\
    (forall x, x ∈ concat ps <-> x ∈ ids) /\
    ((forall p, p ∈ ps -> send (page_call p) = Ok (answer p)) ->
     byIds send ids = Ok (flat_map answer ps)) /\
    (forall ps1 p ps2 e, ps = ps1 ++ p :: ps2 ->
       (forall p, p ∈ ps1 -> send (page_call p) = Ok (answer p)) -> send (page_call p) = Throw e ->
       byIds send ids = Throw e).
Proof.
  destruct (unique_sorted_spec ids) as [Hn He].
  destruct (pages_spec (length (unique_sorted ids)) (unique_sorted ids)) as [Hc Hp]; [done|].
  exists (pages (length (unique_sorted ids)) (unique_sorted ids)). rewrite Hc.
  split_and!; [done..| |].
  - intros H. unfold byIds. by rewrite (fetch_pages_ok send answer).
  - intros ps1 p ps2 e Hps H1 H2. unfold byIds. rewrite Hps. by apply (fetch_pages_fail send answer).
Qed.
End ByIds.

(** ** The runtime check of a site *)
Section Check_.
Import Schema.
(** A site that passes has primitive attributes and coordinates that are
    [null] or finite, and is otherwise the value that came. *)
Lemma parsed_site value s : parseSiteResponse value = Ok s ->
  rest s = value /\ prop value "attributes" = VObj (attributes s) /\
  (forall k v, (k, v) ∈ attributes s -> is_primitive v = true) /\
  latitude s = prop value "latitude" /\ longitude s = prop value "longitude" /\
  every null_or_finite [version s; latitude s; longitude s] = true.
Proof.
  unfold parseSiteResponse. destruct (prop value "attributes") as [| | | | | |fields|] eqn:Ea; try done.
  destruct (every _ fields) eqn:Ep; [|done]. cbn [negb].
  destruct (every null_or_finite _) eqn:En; [|done]. cbn [negb]. intros [= <-]. cbn.
  split_and!; try done. intros k v Hk%list_elem_of_In. rewrite forallb_forall in Ep. by apply (Ep _ Hk).
Qed.
(** The version's type is a number, but [null] passes the check. *)
Lemma null_version_passes :
  exists s, parseSiteResponse (VObj [("attributes", VObj []); ("version", VNull);
    ("latitude", VNull); ("longitude", VNull)]) = Ok s /\ version s = VNull.
Proof. by eexists. Qed.
End Check_.

(** ** Editing a site *)
Section Edit.
Import SiteEdit.
Lemma mget_map {A B} (f : A -> B) (m : jsmap A) k :
  mget (map (fun kv => (fst kv, f (snd kv))) m) k = f <$> mget m k.
Proof. induction m as [|[k' v] m IH]; [done|]. cbn. by destruct (String.eqb k' k). Qed.
Lemma mget_field (m : jsmap val) k v : mget m k = Some v -> field_of m k = v.
Proof. induction m as [|[k' w] m IH]; [done|]. cbn. destruct (String.eqb k' k); [by intros [= ->]|done]. Qed.
(** The attributes a save sends: one member per defined key. *)
Lemma attributes_of_get f defs d : NoDup (map key defs) -> d ∈ defs ->
  mget (attributes_of f (Some defs)) (key d) = Some (attribute_value f d).
Proof.
  unfold attributes_of. cbn [from_option]. intros Hn Hd.
  assert (Hkeep : forall ds m, key d ∉ map key ds ->
    mget (fold_left (fun m d => mset m (key d) (attribute_value f d)) ds m) (key d) = mget m (key d)).
  { induction ds as [|x ds IH]; intros m Hx; [done|]. cbn. rewrite IH by set_solver.
    apply mget_set_ne. set_solver. }
  generalize (@nil (string * val)) as m. induction defs as [|x ds IH]; intros m; [by apply elem_of_nil in Hd|].
  cbn. apply NoDup_cons in Hn as [Hx Hn]. apply elem_of_cons in Hd as [->|Hd]; [|by apply IH].
  rewrite Hkeep by done. apply mget_set_eq.
Qed.
Lemma attributes_of_keys f defs k : k ∈ mkeys (attributes_of f (Some defs)) -> k ∈ map key defs.
Proof.
  unfold attributes_of. cbn [from_option].
  assert (H : forall ds m, k ∈ mkeys (fold_left (fun m d => mset m (key d) (attribute_value f d)) ds m) ->
    k ∈ mkeys m \/ k ∈ map key ds).
  { induction ds as [|x ds IH]; intros m Hk; [by left|]. cbn in *. apply IH in Hk as [Hk|Hk]; [|set_solver].
    apply mget_keys in Hk. rewrite mget_set in Hk. destruct (String.eqb_spec (key x) k) as [<-|];
      [right; set_solver|left; by apply mget_keys]. }
  intros Hk%H. destruct Hk as [Hk|Hk]; [by apply elem_of_nil in Hk|done].
Qed.

(** A value of a definition's type; a number is one that reads back from its
    printed form. *)
Definition fits (d : Definition_) (v : val) : Prop :=
  match type d, v with
  | TText, VStr _ => True
  | TNumber, VNum n => show_num n <> "" /\ parseFloat (show_num n) = n
  | TBoolean, VBool _ => True
  | _, _ => False
  end.
(** What comes back of a value the form was opened with: an empty text cannot
    be told from no value. *)
Definition resaved (v : val) : val :=
  match v with VStr "" => VNull | _ => v end.
Lemma reopened_value s d :
  attribute_value (open_edit s) d =
    match mget (site_attributes s) (key d) with
    | Some v => attribute_value (mkForm "" "" "" "" "" "" "" "" [(key d, js_String v)]) d
    | None => VNull
    end.
Proof.
  unfold attribute_value, open_edit. cbn [editAttributes]. rewrite mget_map. cbn [mget].
  rewrite String.eqb_refl. by destruct (mget (site_attributes s) (key d)).
Qed.
Lemma kept_value s d v : mget (site_attributes s) (key d) = Some v -> fits d v ->
  attribute_value (open_edit s) d = resaved v.
Proof.
  intros Hv Hf. rewrite reopened_value, Hv. unfold attribute_value. cbn [editAttributes mget].
  rewrite String.eqb_refl. cbn [from_option]. unfold fits in Hf.
  destruct (type d), v as [| |b|n|t| | |]; try done; cbn [js_String].
  - by destruct t.
  - destruct Hf as [H1 H2]. by rewrite (proj2 (String.eqb_neq _ "")), H2.
  - by destruct b.
Qed.

(** C35: An edit saved as it was opened keeps the site's attributes, empty
    texts apart: with one definition per key, and values of their types that
    read back from how they are printed, the save sends every defined
    attribute the value it has, [null] (no value) for those the site lacks
    and for those whose text is empty, which the form cannot tell from none
    (see the findings); no others; and the version that was loaded. *)
Theorem untouched_edit_keeps_attributes siteId s defs : NoDup (map key defs) ->
  (forall d v, d ∈ defs -> mget (site_attributes s) (key d) = Some v -> fits d v) ->
  trim (site_name s) <> "" ->
  exists body sent, press_save siteId s (open_edit s) (Some defs) false = Some (SitesApi.update siteId body) /\
    prop body "attributes" = VObj sent /\ prop body "version" = site_version s /\
    (forall d, d ∈ defs -> mget sent (key d) =
       Some (match mget (site_attributes s) (key d) with
             | Some (VStr "") | None => VNull
             | Some v => v
             end)) /\
    (forall k, k ∈ mkeys sent -> exists d, d ∈ defs /\ key d = k).
Proof.
  intros Hn Hf Hname. unfold press_save, save_disabled. cbn [open_edit editName].
  rewrite (proj2 (String.eqb_neq _ "") Hname). cbn [orb].
  eexists _, (attributes_of (open_edit s) (Some defs)). split; [done|]. split_and!; [| | |].
  - cbn -[attributes_of open_edit coordinates]. unfold coordinates. by destruct (_ && _).
  - done.
  - intros d Hd. rewrite attributes_of_get by done. f_equal.
    destruct (mget (site_attributes s) (key d)) as [v|] eqn:Hv;
      [by rewrite (kept_value s d v Hv (Hf d v Hd Hv))|]. by rewrite reopened_value, Hv.
  - intros k Hk%attributes_of_keys%list_elem_of_fmap. destruct Hk as (d & -> & Hd). by exists d.
Qed.

Definition sample_site : Site :=
  mkSite "Pike Place" "America/Los_Angeles" None None None None (Some (num_Z 47)) (Some (num_Z (-122)))
    [("sqft", VNum (num_Z 1200)); ("open", VBool false)] (VNum (num_Z 3)) "Open".
Definition sample_defs : list Definition_ := [mkDefinition "sqft" TNumber; mkDefinition "open" TBoolean;
  mkDefinition "tier" TText].
Lemma untouched_edit_keeps_attributes_witness :
  exists body sent, press_save "s" sample_site (open_edit sample_site) (Some sample_defs) false =
      Some (SitesApi.update "s" body) /\
    prop body "attributes" = VObj sent /\ prop body "version" = VNum (num_Z 3) /\
    (forall d, d ∈ sample_defs -> mget sent (key d) =
       Some (match mget (site_attributes sample_site) (key d) with
             | Some (VStr "") | None => VNull
             | Some v => v
             end)) /\
    (forall k, k ∈ mkeys sent -> exists d, d ∈ sample_defs /\ key d = k).
Proof.
  apply (untouched_edit_keeps_attributes "s" sample_site sample_defs).
  - repeat constructor; set_solver.
  - intros d v Hd. unfold sample_defs in Hd. rewrite !elem_of_cons in Hd.
    destruct Hd as [->|[->|[->|Hd]]]; [..|by apply elem_of_nil in Hd];
      intros Hv; vm_compute in Hv; (discriminate || injection Hv as <-; done).
  - by vm_compute.
Defined.

(** An attribute whose text is empty is sent as [null], "cleared", by an edit
    that did not touch it. *)
Lemma empty_text_is_cleared :
  let s := mkSite "Pike Place" "America/Los_Angeles" None None None None None None
    [("tier", VStr "")] (VNum (num_Z 3)) "Open" in
  attributes_of (open_edit s) (Some sample_defs) =
    [("sqft", VNull); ("open", VNull); ("tier", VNull)].
Proof. by vm_compute. Qed.
(** Text in a number attribute reads as NaN, which JSON writes as [null]: the
    save that was to set the attribute clears it. *)
Lemma bad_number_clears :
  let saved raw := stringify (attribute_value (set_attribute "sqft" raw (open_edit sample_site))
    (mkDefinition "sqft" TNumber)) in
  saved "about 1200" = Some "null" /\ saved "about 1200" = saved "".
Proof. by vm_compute. Qed.
(** Digits before a decimal comma or a separator are taken for the number. *)
Lemma comma_truncates : parseFloat "47,6097" = num_Z 47 /\ parseFloat "1,200" = num_Z 1.
Proof. by vm_compute. Qed.
(** Emptying the coordinates sends none, which means "unchanged": a site on
    the map cannot be taken off it here, and one field alone is dropped. *)
Lemma coordinates_cannot_be_cleared :
  coordinates "" "" = [] /\ coordinates "47.6" "" = [] /\
  stringify (update_body (VNum (num_Z 3)) (coordinates "" "")) =
    stringify (update_body (VNum (num_Z 3)) []).
Proof. by vm_compute. Qed.
End Edit.

(** ** The layers of the map *)
Section Layers.
Import MapLayers.
(** Choosing is local; hiding an overlay twice shows it again. *)
Lemma toggle_overlay_shows id c i :
  i ∈ hiddenList (toggleOverlay id c) <-> if String.eqb i id then id ∉ hiddenList c else i ∈ hiddenList c.
Proof.
  unfold toggleOverlay. cbn. destruct (String.eqb_spec i id) as [->|Hne]; case_bool_decide.
  - rewrite bfilter_elem, String.eqb_refl. naive_solver.
  - set_solver.
  - rewrite bfilter_elem, negb_true_iff, String.eqb_neq. naive_solver.
  - set_solver.
Qed.
(** Once the basemaps are known, the map draws one it can draw, and the radio
    group shows an entry of its own. *)
Lemma basemap_is_offered dark d c rs : basemaps d = Some rs ->
  basemap dark d c ∈ ["dark"; "light"; "osm"] ++ map raster_id rs /\
  radio_value d c ∈ map fst (basemapChoices d).
Proof.
  intros Hd. unfold basemap, radio_value, knownChoice, basemapChoices, rasters. rewrite Hd. cbn [from_option].
  destruct (String.eqb_spec (basemapChoice c) "auto") as [->|Ha]; cbn [orb negb].
  { split; [destruct dark; set_solver|set_solver]. }
  destruct (String.eqb_spec (basemapChoice c) "osm") as [->|Ho]; cbn [orb negb]; [split; cbn; set_solver|].
  destruct (some _ rs) eqn:E; cbn [negb].
  - apply existsb_exists in E as (r & Hr & Hid%String.eqb_eq). apply list_elem_of_In in Hr.
    rewrite <-Hid, map_app, map_map. cbn.
    assert (Hin : raster_id r ∈ map raster_id rs) by by apply list_elem_of_fmap_2.
    split; set_solver.
  - split; [destruct dark; set_solver|set_solver].
Qed.
(** A layer the principal no longer may read falls back to the sites. *)
Lemma layer_is_offered d c :
  layerName d c = "sites" \/ exists l, l ∈ dataLayers d /\ layerName d c = layer_name l.
Proof.
  unfold layerName, dataLayer, js_find. destruct (List.find _ (dataLayers d)) as [l|] eqn:E1.
  { right. exists l. apply List.find_some in E1 as [H _]. by apply list_elem_of_In in H. }
  clear E1. destruct (List.find _ (dataLayers d)) as [l|] eqn:E2; [|by left].
  right. exists l. apply List.find_some in E2 as [H _]. by apply list_elem_of_In in H.
Qed.
End Layers.
