(* ===== verification/SiteMap.v ===== *)
(** * The map of sites ([packages/ui/src/components/site-map.tsx])

    The one component that speaks MapLibre.  The map is what the
    component reads back from MapLibre: which sources are registered, which
    layers are drawn (bottom first), which features are flagged; a style swap
    empties it.  [commit] is a render followed by its effects, the other
    events are the map's own.  What moves the camera or calls the page is
    logged. *)
From S2P Require Import Prelude JsString JsMap JsValue.

Module SiteMap.
(** A value with its identity, which the dependency arrays compare. *)
Record Obj (A : Type) := mkObj { ob_id : nat; ob_val : A }.
Arguments mkObj {A}. Arguments ob_id {A}. Arguments ob_val {A}.

Record Point := mkPoint { p_id : string; p_name : string; latitude : Q; longitude : Q; p_selected : bool }.
Record Raster := mkRaster { r_id : string; urlTemplate : string; attribution : string; maxZoom : Z }.
Record Tiles := mkTiles { t_url : string; t_sourceLayer : string }.
Record Overlay := mkOverlay { o_id : string; o_url : string; o_sourceLayer : string; o_style : val }.

#[export] Instance Raster_eq_dec : EqDecision Raster.
Proof. solve_decision. Defined.
Inductive Style := BuiltIn (name : string) | RasterStyle (r : Raster).
Definition BASEMAPS : list string := ["osm"; "light"; "dark"].
(** (An id that is a property of every object is not told from a built-in
    one by [in]; the org's ids are slugs of names.) *)
Definition styleFor (basemap : string) (rasters : list Raster) : Style :=
  if bool_decide (basemap ∈ BASEMAPS) then BuiltIn basemap
  else match js_find (fun r => String.eqb (r_id r) basemap) rasters with
       | Some r => RasterStyle r
       | None => BuiltIn "light"
       end.
#[export] Instance Style_eq_dec : EqDecision Style.
Proof. solve_decision. Defined.

Definition SITES : string := "premise-sites".
Definition HALO : string := "premise-sites-halo".
Definition DOT : string := "premise-sites-dot".
Definition CLUSTER : string := "premise-sites-cluster".
Definition CLUSTER_COUNT : string := "premise-sites-cluster-count".
Definition OVERLAY_PREFIX : string := "premise-overlay-".

(** [toGeoJson]: the features' ids and whether each is selected. *)
Definition toGeoJson (points : list Point) : list (string * Q * Q * bool) :=
  map (fun p => (p_id p, longitude p, latitude p, p_selected p)) points.
Definition num_min (a b : num) : num := if num_le a b then a else b.
Definition num_max (a b : num) : num := if num_le a b then b else a.
Record Bounds := mkBounds { west : num; south : num; east : num; north : num }.
Definition widen (b : Bounds) (p : Point) : Bounds :=
  mkBounds (num_min (west b) (Fin (longitude p))) (num_min (south b) (Fin (latitude p)))
    (num_max (east b) (Fin (longitude p))) (num_max (north b) (Fin (latitude p))).
Definition bounds (points : list Point) : option Bounds :=
  match points with
  | [] => None
  | _ => Some (fold_left widen points
           (mkBounds (Infty false) (Infty false) (Infty true) (Infty true)))
  end.

(** ** MapLibre's map *)
Record Map := mkMap {
  sources : list string;
  layers : list (string * string); (* drawn from the first to the last; the
                                      key of the overlay one was drawn for *)
  flags : list (string * string)   (* (source layer, feature) with [selected] *)
}.
Definition empty_style : Map := mkMap [] [] [].
Definition hasSource (id : string) (m : Map) : bool := bool_decide (id ∈ sources m).
Definition hasLayer (id : string) (m : Map) : bool := some (fun l => String.eqb (fst l) id) (layers m).
Definition addSource (id : string) (m : Map) : Map := mkMap (sources m ++ [id]) (layers m) (flags m).
(** A source takes its feature states with it; only the sites' has any. *)
Definition removeSource (id : string) (m : Map) : Map :=
  mkMap (bfilter (fun s => negb (String.eqb s id)) (sources m)) (layers m)
    (if String.eqb id SITES then [] else flags m).
Fixpoint insert_before (x : string * string) (before : string) (l : list (string * string))
    : list (string * string) :=
  match l with
  | [] => [x]
  | y :: l' => if String.eqb (fst y) before then x :: l else y :: insert_before x before l'
  end.
Definition addLayer (id key : string) (before : option string) (m : Map) : Map :=
  mkMap (sources m) (match before with
                     | Some b => insert_before (id, key) b (layers m)
                     | None => layers m ++ [(id, key)]
                     end) (flags m).
Definition removeLayer (id : string) (m : Map) : Map :=
  mkMap (sources m) (bfilter (fun l => negb (String.eqb (fst l) id)) (layers m)) (flags m).
Definition setFeatureState (sourceLayer id : string) (selected : bool) (m : Map) : Map :=
  mkMap (sources m) (layers m)
    (let others := bfilter (fun f => negb (bool_decide (f = (sourceLayer, id)))) (flags m) in
     if selected then others ++ [(sourceLayer, id)] else others).
Definition drop_layer (id : string) (m : Map) : Map := if hasLayer id m then removeLayer id m else m.

(** ** What the component adds *)
Definition addSitesLayers (tiles_mode : bool) (m : Map) : Map :=
  if hasSource SITES m then m
  else
    let m := addSource SITES m in
    let m := if tiles_mode then addLayer CLUSTER_COUNT "" None (addLayer CLUSTER "" None m) else m in
    addLayer DOT "" None (addLayer HALO "" None m).

Definition overlayKey (o : Overlay) : string :=
  stringify (VArr [VStr (o_url o); VStr (o_sourceLayer o);
    if is_nullish (o_style o) then VNull else o_style o]) ?? "".
Definition overlay_fill (id : string) : string := id +:+ "-fill".
Definition overlay_line (id : string) : string := id +:+ "-line".
(** [new Map(overlays.map(...))] *)
Definition wanted_overlays (overlays : list Overlay) : jsmap Overlay :=
  fold_left (fun m o => mset m (OVERLAY_PREFIX +:+ o_id o) o) overlays [].
Definition drop_stale (wanted : jsmap Overlay) (s : Map * jsmap string) (entry : string * string)
    : Map * jsmap string :=
  let '(id, key) := entry in
  let '(m, known) := s in
  if match mget wanted id with Some o => String.eqb (overlayKey o) key | None => false end then s
  else
    let m := drop_layer (overlay_line id) (drop_layer (overlay_fill id) m) in
    (if hasSource id m then removeSource id m else m, mdel known id).
Definition add_wanted (before : option string) (s : Map * jsmap string) (entry : string * Overlay)
    : Map * jsmap string :=
  let '(id, o) := entry in
  let '(m, known) := s in
  if mhas known id then s
  else
    let known := mset known id (overlayKey o) in
    if hasSource id m then (m, known)
    else (addLayer (overlay_line id) (overlayKey o) before
            (addLayer (overlay_fill id) (overlayKey o) before (addSource id m)), known).
Definition first_sites_layer (m : Map) : option string :=
  js_find (fun l => hasLayer l m) [CLUSTER; HALO; DOT].
Definition syncOverlays (overlays : list Overlay) (m : Map) (known : jsmap string) : Map * jsmap string :=
  let wanted := wanted_overlays overlays in
  let '(m, known) := fold_left (drop_stale wanted) known (m, known) in
  fold_left (add_wanted (first_sites_layer m)) wanted (m, known).
(** The paint of an overlay: fill, stroke and opacity with their defaults. *)
Definition overlay_paint (o : Overlay) : val * val * val :=
  let member (k : string) (d : val) := if is_nullish (prop (o_style o) k) then d else prop (o_style o) k in
  let fill := member "fill" (VStr "#7c6cf0") in
  (fill, member "stroke" fill, member "opacity" (VNum (Fin 0.15))).

(** The dot's fill: the colour of the feature's status, or the neutral pin. *)
Definition dotColor (statuses : list (string * string)) : val :=
  match statuses with
  | [] => VStr "#5b5b66"
  | _ => VArr ([VStr "match"; VArr [VStr "coalesce"; VArr [VStr "get"; VStr "status"]; VStr ""]] ++
           flat_map (fun s => [VStr (fst s); VStr (snd s)]) statuses ++ [VStr "#5b5b66"])
  end.

(** The flags follow the selection; [flagged] is what was flagged last. *)
Definition applySelection (tiles : option Tiles) (ids : list string) (m : Map) (flagged : jsset)
    : Map * jsset :=
  match tiles with
  | Some t =>
      if hasSource SITES m then
        let next := set_of ids in
        let m := fold_left (fun m id => if bool_decide (id ∈ next) then m
                   else setFeatureState (t_sourceLayer t) id false m) flagged m in
        (fold_left (fun m id => setFeatureState (t_sourceLayer t) id true m) next m, next)
      else (m, flagged)
  | None => (m, flagged)
  end.

(** ** The component *)
Record Props := mkProps {
  points : Obj (list Point);
  tiles : option (Obj Tiles);
  selectedIds : Obj (list string);
  statuses : Obj (list (string * string));
  overlays : Obj (list Overlay);
  basemap : string;
  basemaps : Obj (list Raster);
  fitKey : nat
}.
Definition tiles_mode (p : Props) : bool := match tiles p with Some _ => true | None => false end.
Definition the_tiles (p : Props) : option Tiles := ob_val <$> tiles p.

Inductive Act :=
  | CreateAt (b : option Bounds) (style : Style)
  | FitBounds (b : Bounds) (animate : bool)
  | SetData (data : list (string * Q * Q * bool))
  | SetStyle (s : Style)
  | ArmViewport                       (* (re)starts the 250 ms timer *)
  | PointClick (id : string)
  | EaseTo (x y : Q).

(** [mounted] are the props of the first render, which the handlers made
    there keep; [current] those of the last, which the refs hold. *)
Record State := mkState {
  mounted : Props;
  current : Props;
  the_map : option Map;
  styleKey : option Style;
  known : jsmap string;
  flagged : jsset;
  lastFit : nat;
  positioned : bool;
  disposed : bool
}.
Definition set_map (m : option Map) (s : State) : State :=
  mkState (mounted s) (current s) m (styleKey s) (known s) (flagged s) (lastFit s) (positioned s) (disposed s).
Definition set_overlays (m : Map) (k : jsmap string) (s : State) : State :=
  mkState (mounted s) (current s) (Some m) (styleKey s) k (flagged s) (lastFit s) (positioned s) (disposed s).
Definition set_flags (m : Map) (f : jsset) (s : State) : State :=
  mkState (mounted s) (current s) (Some m) (styleKey s) (known s) f (lastFit s) (positioned s) (disposed s).
Definition set_styleKey (k : option Style) (s : State) : State :=
  mkState (mounted s) (current s) (the_map s) k (known s) (flagged s) (lastFit s) (positioned s) (disposed s).
Definition set_current (q : Props) (s : State) : State :=
  mkState (mounted s) q (the_map s) (styleKey s) (known s) (flagged s) (lastFit s) (positioned s) (disposed s).
Definition set_positioned (b : bool) (s : State) : State :=
  mkState (mounted s) (current s) (the_map s) (styleKey s) (known s) (flagged s) (lastFit s) b (disposed s).
Definition set_lastFit (k : nat) (s : State) : State :=
  mkState (mounted s) (current s) (the_map s) (styleKey s) (known s) (flagged s) k (positioned s) (disposed s).

(** [addLayers]: after a style has loaded. *)
Definition addLayers (s : State) (m : Map) : State :=
  let m := addSitesLayers (tiles_mode (mounted s)) m in
  let '(m, f) := applySelection (the_tiles (current s)) (ob_val (selectedIds (current s))) m [] in
  let '(m, k) := syncOverlays (ob_val (overlays (current s))) m [] in
  set_overlays m k (set_flags m f s).

Definition changed {A} (a b : Obj A) : bool := negb (Nat.eqb (ob_id a) (ob_id b)).
Definition tiles_changed (p q : Props) : bool :=
  match tiles p, tiles q with
  | Some a, Some b => changed a b
  | None, None => false
  | _, _ => true
  end.

(** The effects, in the order they run; [p] are the props before. *)
Definition points_effect (s : State) : State * list Act :=
  let ps := ob_val (points (current s)) in
  match the_map s with
  | Some m =>
      let data := if negb (tiles_mode (current s)) && hasSource SITES m then [SetData (toGeoJson ps)] else [] in
      match bounds ps with
      | Some b => if positioned s then (s, data)
                  else (set_positioned true s, data ++ [FitBounds b false])
      | None => (s, data)
      end
  | None => (s, [])
  end.
Definition selection_effect (s : State) : State :=
  match the_map s with
  | Some m => let '(m, f) := applySelection (the_tiles (current s)) (ob_val (selectedIds (current s))) m
                (flagged s) in set_flags m f s
  | None => s
  end.
Definition tiles_effect (s : State) : State :=
  match the_map s with
  | Some m =>
      if tiles_mode (current s) && hasSource SITES m then
        let m := fold_left (fun m l => drop_layer l m) [CLUSTER_COUNT; CLUSTER; HALO; DOT] m in
        let m := addSitesLayers (tiles_mode (current s)) (removeSource SITES m) in
        let '(m, f) := applySelection (the_tiles (current s)) (ob_val (selectedIds (current s))) m [] in
        set_flags m f s
      else s
  | None => s
  end.
Definition overlays_effect (s : State) : State :=
  match the_map s with
  | Some m => if hasSource SITES m
              then let '(m, k) := syncOverlays (ob_val (overlays (current s))) m (known s) in
                   set_overlays m k s
              else s
  | None => s
  end.
(** [styleLoaded] is what the map answers then. *)
Definition basemap_effect (styleLoaded : bool) (s : State) : State * list Act :=
  let style := styleFor (basemap (current s)) (ob_val (basemaps (current s))) in
  let s := match styleKey s with None => set_styleKey (Some style) s | Some _ => s end in
  match the_map s with
  | Some m => if styleLoaded && negb (bool_decide (Some style = styleKey s))
              then (set_map (Some empty_style) (set_styleKey (Some style) s), [SetStyle style])
              else (s, [])
  | None => (s, [])
  end.
Definition fit_effect (s : State) : State * list Act :=
  if Nat.eqb (fitKey (current s)) (lastFit s) then (s, [])
  else
    let s := set_lastFit (fitKey (current s)) s in
    match the_map s, bounds (ob_val (points (current s))) with
    | Some _, Some b => (set_positioned true s, [FitBounds b true])
    | _, _ => (s, [])
    end.

Definition when_ (b : bool) (f : State -> State * list Act) (s : State) : State * list Act :=
  if b then f s else (s, []).
Definition quiet (f : State -> State) (s : State) : State * list Act := (f s, []).
Definition then_ (f g : State -> State * list Act) (s : State) : State * list Act :=
  let '(s1, a) := f s in let '(s2, b) := g s1 in (s2, a ++ b).
Definition effects (first styleLoaded : bool) (p q : Props) : State -> State * list Act :=
  then_ (when_ (first || changed (points p) (points q) || negb (Bool.eqb (tiles_mode p) (tiles_mode q)))
           points_effect)
 (then_ (when_ (first || changed (selectedIds p) (selectedIds q)) (quiet selection_effect))
 (then_ (when_ (first || tiles_changed p q || changed (statuses p) (statuses q)) (quiet tiles_effect))
 (then_ (when_ (first || changed (overlays p) (overlays q)) (quiet overlays_effect))
 (then_ (when_ (first || negb (String.eqb (basemap p) (basemap q)) || changed (basemaps p) (basemaps q))
           (basemap_effect styleLoaded))
        (when_ (first || negb (Nat.eqb (fitKey p) (fitKey q)) || changed (points p) (points q))
           fit_effect))))).

Definition mount (p : Props) : State * list Act :=
  effects true false p p (mkState p p None None [] [] (fitKey p) false false).
Definition commit (styleLoaded : bool) (q : Props) (s : State) : State * list Act :=
  effects false styleLoaded (current s) q (set_current q s).

(** ** Events *)
Inductive Event :=
  | Rendered (styleLoaded : bool) (q : Props)
  | LibraryLoaded
  | Loaded
  | StyleLoaded
  | MoveStarted (byUser : bool)
  | MoveEnded
  | DotClicked (id : option string)
  | ClusterClicked (x y : Q)
  | Unmounted.
Definition handle (s : State) (e : Event) : State * list Act :=
  match e with
  | Rendered styleLoaded q => commit styleLoaded q s
  | LibraryLoaded =>
      match the_map s with
      | Some _ => (s, [])
      | None => if disposed s then (s, []) else
          let b := bounds (ob_val (points (current s))) in
          (set_positioned (match b with Some _ => true | None => false end)
             (set_map (Some empty_style) s),
           [CreateAt b (styleFor (basemap (mounted s)) (ob_val (basemaps (current s))))])
      end
  | Loaded =>
      match the_map s with
      | Some m => (addLayers s m, if positioned s then [ArmViewport] else [])
      | None => (s, [])
      end
  | StyleLoaded => match the_map s with Some m => (addLayers s m, []) | None => (s, []) end
  | MoveStarted byUser =>
      (match the_map s with
       | Some _ => if byUser then set_positioned true s else s
       | None => s
       end, [])
  | MoveEnded => (s, match the_map s with Some _ => [ArmViewport] | None => [] end)
  | DotClicked (Some id) =>
      (s, match the_map s with Some _ => if String.eqb id "" then [] else [PointClick id] | None => [] end)
  | DotClicked None => (s, [])
  | ClusterClicked x y =>
      match the_map s with
      | Some _ => (set_positioned true s, [EaseTo x y])
      | None => (s, [])
      end
  | Unmounted =>
      (mkState (mounted s) (current s) None (styleKey s) (known s) (flagged s) (lastFit s) (positioned s) true,
       [])
  end.
Fixpoint session (s : State) (es : list Event) : State * list Act :=
  match es with
  | [] => (s, [])
  | e :: es' => let '(s1, a) := handle s e in let '(s2, b) := session s1 es' in (s2, a ++ b)
  end.
End SiteMap.
