(* ===== verification/SitesPage.v ===== *)
(** * The site library

    The page of [sites-page.tsx] as a state machine, and the tile grid its
    viewport snaps to ([lib/map.ts]), on rationals for doubles. *)
From Stdlib Require Import Qround.
From S2P Require Import Prelude JsString JsMap JsValue ApiClient AppLib FilterQuery SitesApi SiteHours MapLayers SiteMap.

(** ** The tile grid ([lib/map.ts]), on rationals for doubles *)
Module Grid.
#[local] Open Scope Q_scope.
(** [Math]'s functions and its pi are the runtime's. *)
Class MathFns := {
  math_log : Q -> Q; math_tan : Q -> Q; math_cos : Q -> Q; math_atan : Q -> Q; math_exp : Q -> Q;
  math_pi : Q
}.
Record Box := mkBox { west : Q; south : Q; east : Q; north : Q }.
Record Viewport := mkViewport { v_west : Q; v_south : Q; v_east : Q; v_north : Q; zoom : Q }.
Definition MAX_LAT : Q := 85.05112878.
Definition q_min (a b : Q) : Q := if Qle_bool a b then a else b.
Definition q_max (a b : Q) : Q := if Qle_bool a b then b else a.
Definition pow2 (z : Z) : Q := inject_Z (2 ^ z)%Z.

Section Fns.
Context `{MF : MathFns}.
Definition clampLat (lat : Q) : Q := q_max (- MAX_LAT) (q_min MAX_LAT lat).
Definition lonToTileX (lon : Q) (z : Z) : Q := (lon + 180) / 360 * pow2 z.
Definition latToTileY (lat : Q) (z : Z) : Q :=
  let rad := clampLat lat * math_pi / 180 in
  (1 - math_log (math_tan rad + 1 / math_cos rad) / math_pi) / 2 * pow2 z.
Definition tileXToLon (x : Q) (z : Z) : Q := x / pow2 z * 360 - 180.
Definition tileYToLat (y : Q) (z : Z) : Q :=
  let n := math_pi - 2 * math_pi * y / pow2 z in
  180 / math_pi * math_atan ((1 # 2) * (math_exp n - math_exp (- n))).
Definition q_floor (q : Q) : Q := inject_Z (Qfloor q).
Definition q_ceil (q : Q) : Q := inject_Z (Qceiling q).
Definition grid_zoom (v : Viewport) : Z := (Z.max 0 (Qfloor (zoom v)))%Z.
Definition snapToTileGrid (v : Viewport) : Box :=
  let z := grid_zoom v in
  if Qle_bool 360 (v_east v - v_west v) then mkBox (-180) (- MAX_LAT) 180 MAX_LAT
  else
    let tiles := pow2 z in
    let x1 := q_floor (lonToTileX (v_west v) z) in
    let x2 := q_ceil (lonToTileX (v_east v) z) in
    let y1 := q_floor (latToTileY (v_north v) z) in
    let y2 := q_ceil (latToTileY (v_south v) z) in
    mkBox (q_max (-180) (tileXToLon x1 z)) (tileYToLat (q_min y2 tiles) z)
      (q_min 180 (tileXToLon (q_min x2 tiles) z)) (tileYToLat (q_max 0 y1) z).
End Fns.

(** [n.toFixed(5).replace(/\.?0+$/, '')]: five places, without the zeros at
    the end nor the point when nothing follows it. *)
Fixpoint strip_zeros (s : string) : string :=
  match s with
  | EmptyString => ""
  | String c s' =>
      match strip_zeros s' with
      | EmptyString => if Ascii.eqb c "0" then "" else str1 c
      | t => String c t
      end
  end.
Definition short (n : Q) : string :=
  let negative := negb (Qle_bool 0 n) in
  let m := Qfloor ((if negative then - n else n) * 100000 + (1 # 2)) in
  let fraction := strip_zeros (pad_left 5%nat (show_Z (m mod 100000)%Z)) in
  (if negative then "-" else "") +:+ show_Z (m / 100000)%Z +:+
  (if String.eqb fraction "" then "" else "." +:+ fraction).
Definition bboxParam (b : Box) : string :=
  join "," [short (west b); short (south b); short (east b); short (north b)].

Example bbox_text : bboxParam (mkBox (-122.5) 47 (-122.34225) 47.7) = "-122.5,47,-122.34225,47.7".
Proof. vm_compute. reflexivity. Qed.
End Grid.

(** ** The library page ([sites-page.tsx]) *)
Module SitesPage.
Import Grid.
Record SiteRow := mkRow {
  row_id : string; row_name : string; row_city : option string; row_node : string;
  row_lat : option Q; row_lng : option Q
}.
Record PageData := mkPageData {
  items : list SiteRow; total : option Z; totalIsLowerBound : bool; withoutCoordinates : option Z;
  next : val
}.
(** The query of the list: its key as the arguments that make it, and its
    answer so far; [None] while there is none. *)
Record Key := mkKey {
  k_filter : string; k_under : option string; k_bbox : option string; k_zoom : option Z; k_status : string
}.
Record Query := mkQuery { data : option (list PageData); isPending : bool; isError : bool;
  hasNextPage : bool; isFetchingNextPage : bool }.

Inductive View := TableView | MapView.
#[export] Instance View_eq_dec : EqDecision View.
Proof. solve_decision. Defined.
Record Page := mkPage {
  filter : string; statusFilter : string; view : View; viewport : option Viewport; fitKey : nat;
  rowSelection : jsmap bool; reportSites : option (jsmap string)
}.
Definition initial (view : View) : Page := mkPage "" "" view None 0 [] None.
Definition with_selection (r : jsmap bool) (p : Page) : Page :=
  mkPage (filter p) (statusFilter p) (view p) (viewport p) (fitKey p) r (reportSites p).

Section View_.
Context `{MF : MathFns}.
Definition box (p : Page) : option Box :=
  match view p, viewport p with
  | MapView, Some v => Some (snapToTileGrid v)
  | _, _ => None
  end.
Definition sites_key (under : option string) (p : Page) : Key :=
  mkKey (filter p) under (bboxParam <$> box p)
    (match view p, viewport p with MapView, Some v => Some (grid_zoom v) | _, _ => None end)
    (statusFilter p).
End View_.
Definition page_request (k : Key) (after : option string) : Client.Call :=
  SitesApi.sites_page (k_filter k) (k_under k) (k_bbox k) (k_zoom k) (Some (k_status k)) after.

Definition sites (q : Query) : list SiteRow := flat_map items (data q ?? []).
Definition firstPage (q : Query) : option PageData := data q ≫= head.
Definition total_of (q : Query) : option Z := firstPage q ≫= total.
(** [toLocaleString] groups the digits as the browser likes. *)
Definition totalLabel (locale : Z -> string) (q : Query) : string :=
  match total_of q with
  | None => ""
  | Some t => if (totalIsLowerBound <$> firstPage q) ?? false then locale t +:+ "+" else show_Z t
  end.
Definition selectedIds (p : Page) : list string :=
  bfilter (fun id => mget (rowSelection p) id ?? false) (mkeys (rowSelection p)).
Definition selectedCount (p : Page) : nat := length (bfilter id (map snd (rowSelection p))).
Definition toggleSelected (id : string) (p : Page) : Page :=
  with_selection (if mget (rowSelection p) id ?? false then mdel (rowSelection p) id
                  else mset (rowSelection p) id true) p.
Definition points (q : Query) (p : Page) : list SiteMap.Point :=
  flat_map (fun s => match row_lat s, row_lng s with
                     | Some lat, Some lng =>
                         [SiteMap.mkPoint (row_id s) (row_name s) lat lng (mget (rowSelection p) (row_id s) ?? false)]
                     | _, _ => []
                     end) (sites q).
Definition emptyMessage (manage : bool) (p : Page) : string :=
  if String.eqb (filter p) ""
  then "No sites in scope. " +:+ (if manage then "Create one with " +:+ str1 dquote +:+ "New site" +:+
         str1 dquote +:+ "." else "")
  else "No sites match the search.".
(** The footer's text when nothing is selected. *)
Definition footer (locale : Z -> string) (q : Query) (p : Page) : string :=
  if isPending q then "Loading sites…"
  else match total_of q with
       | None => ""
       | Some t =>
           let loaded := Z.of_nat (length (sites q)) in
           match view p with
           | MapView => show_Z loaded +:+ " in view"
           | TableView => "Showing " +:+ show_Z (Z.min loaded t) +:+ " of " +:+ totalLabel locale q
           end
       end.
Definition bulk_message (updated skipped : Z) : string :=
  if (0 <? skipped)%Z
  then show_Z updated +:+ " updated, " +:+ show_Z skipped +:+ " outside your scope left alone"
  else show_Z updated +:+ " site" +:+ (if (updated =? 1)%Z then "" else "s") +:+ " updated".
(** The names a report is asked with: the row's, or the id off the list. *)
Definition report_sites (q : Query) (p : Page) : jsmap string :=
  map (fun id => (id, (row_name <$> js_find (fun s => String.eqb (row_id s) id) (sites q)) ?? id))
    (selectedIds p).

Inductive Event :=
  | FiltersChanged (values : SiteFilters.Values)
  | ViewChosen (chosen : list string)
  | ViewportChanged (v : Viewport)
  | SiteToggled (id : string)                  (* the list, and a dot on the map *)
  | RowSelectionChanged (next : jsmap bool)    (* the data grid *)
  | StatusChosen (status : string) (isPending : bool)
  | BulkDone (updated skipped : Z)
  | SelectionCleared
  | ReportOpened (q : Query)
  | ReportClosed
  | FitToScope.
Inductive Effect := Send (c : Client.Call) | Toast (text : string) | StoreView (v : View).
Definition set_view (v : View) (p : Page) : Page :=
  mkPage (filter p) (statusFilter p) v (viewport p) (fitKey p) (rowSelection p) (reportSites p).
Definition set_report (r : option (jsmap string)) (p : Page) : Page :=
  mkPage (filter p) (statusFilter p) (view p) (viewport p) (fitKey p) (rowSelection p) r.
Definition handle (p : Page) (e : Event) : Page * list Effect :=
  match e with
  | FiltersChanged v =>
      (mkPage (SiteFilters.v_q v) (join "," (SiteFilters.v_statuses v)) (view p) (viewport p) (fitKey p)
         (rowSelection p) (reportSites p), [])
  | ViewChosen chosen =>
      match head chosen with
      | Some "table" => (set_view TableView p, [StoreView TableView])
      | Some "map" => (set_view MapView p, [StoreView MapView])
      | _ => (p, [])
      end
  | ViewportChanged v =>
      (mkPage (filter p) (statusFilter p) (view p) (Some v) (fitKey p) (rowSelection p) (reportSites p), [])
  | SiteToggled id => (toggleSelected id p, [])
  | RowSelectionChanged next => (with_selection next p, [])
  | StatusChosen status isPending =>
      if isPending || String.eqb status "" then (p, [])
      else (p, [Send (SitesApi.bulkStatus (selectedIds p) status)])
  | BulkDone updated skipped => (with_selection [] p, [Toast (bulk_message updated skipped)])
  | SelectionCleared => (with_selection [] p, [])
  | ReportOpened q => (set_report (Some (report_sites q p)) p, [])
  | ReportClosed => (set_report None p, [])
  | FitToScope =>
      (mkPage (filter p) (statusFilter p) (view p) None (S (fitKey p)) (rowSelection p) (reportSites p), [])
  end.

(** The props the page gives the map; [i] names what [useMemo] made this time. *)
Definition map_props (i : nat) (q : Query) (origin : string) (under : option string) (dark : bool)
    (d : MapLayers.Data) (c : MapLayers.Choices) (rasters : list SiteMap.Raster) (p : Page) : SiteMap.Props :=
  let t := MapLayers.tiles origin under d c in
  SiteMap.mkProps (SiteMap.mkObj i (points q p))
    (Some (SiteMap.mkObj i (SiteMap.mkTiles (fst t) (snd t))))
    (SiteMap.mkObj i (selectedIds p)) (SiteMap.mkObj i (MapLayers.statuses d c))
    (SiteMap.mkObj i (map (fun o => SiteMap.mkOverlay (MapLayers.overlay_id o)
       (origin +:+ "/api/tiles/overlays/" +:+ MapLayers.overlay_id o +:+ "/{z}/{x}/{y}") "overlay"
       (if is_nullish (MapLayers.style o) then VNull else MapLayers.style o)) (MapLayers.overlays d c)))
    (MapLayers.basemap dark d c) (SiteMap.mkObj i rasters) (fitKey p).
End SitesPage.
