(* ===== verification/SiteMapLaws.v ===== *)
(** * The properties of the site library and its map

    What the map draws is what its props say, through any order of loads,
    style swaps and renders; fitting happens once per request; a viewport
    snaps outward; a selection survives everything but its own ends. *)
From Stdlib Require Import Qround.
From S2P Require Import Prelude JsString JsMap JsValue ApiClient AppLib FilterQuery SitesApi SiteHours MapLayers SiteMap SitesPage.

Section Map_.
Import SiteMap.

(** ** Layers *)
Definition pair_of (e : string * string) : list (string * string) :=
  [(overlay_fill e.1, e.2); (overlay_line e.1, e.2)].
Definition site_layers : list (string * string) :=
  [(CLUSTER, ""); (CLUSTER_COUNT, ""); (HALO, ""); (DOT, "")].
(** The overlays of [entries] are drawn, each in its pair, under the sites. *)
Record drawn (entries : jsmap string) (m : Map) : Prop := {
  drawn_keys : NoDup (mkeys entries);
  drawn_prefix : forall id, id ∈ mkeys entries -> starts_with OVERLAY_PREFIX id = true;
  drawn_layers : layers m = flat_map pair_of entries ++ site_layers;
  drawn_sources : forall src, src ∈ sources m <-> src = SITES \/ src ∈ mkeys entries
}.

Lemma app_inj_r (a b c : string) : String.length b = String.length c -> forall d,
  a +:+ b = d +:+ c -> a = d /\ b = c.
Proof.
  intros Hl. induction a as [|x a IH]; intros [|y d] H.
  - done.
  - exfalso. apply (f_equal String.length) in H. rewrite !str_length_app in H. simpl in H. lia.
  - exfalso. apply (f_equal String.length) in H. rewrite !str_length_app in H. simpl in H. lia.
  - rewrite !str_app_cons in H. injection H as -> H. by destruct (IH d H) as [-> ->].
Qed.
Lemma fill_line id id' : overlay_fill id <> overlay_line id'.
Proof. intros H. unfold overlay_fill, overlay_line in H. by apply app_inj_r in H as [_ H]. Qed.
Lemma fill_inj id id' : overlay_fill id = overlay_fill id' -> id = id'.
Proof. intros H. unfold overlay_fill in H. by apply app_inj_r in H as [H _]. Qed.
Lemma line_inj id id' : overlay_line id = overlay_line id' -> id = id'.
Proof. intros H. unfold overlay_line in H. by apply app_inj_r in H as [H _]. Qed.
Lemma prefixed_app id s : starts_with OVERLAY_PREFIX id = true -> starts_with OVERLAY_PREFIX (id +:+ s) = true.
Proof. intros H%starts_with_spec. destruct H as [r ->]. rewrite <-str_app_assoc. apply starts_with_app. Qed.
Lemma pairs_prefixed entries l : (forall id, id ∈ mkeys entries -> starts_with OVERLAY_PREFIX id = true) ->
  l ∈ flat_map pair_of entries -> starts_with OVERLAY_PREFIX l.1 = true.
Proof.
  intros H ([id key] & Hid & Hl)%elem_of_flat_map. assert (Hp : starts_with OVERLAY_PREFIX id = true).
  { apply H. apply list_elem_of_fmap. by exists (id, key). }
  unfold pair_of in Hl. rewrite !elem_of_cons in Hl. destruct Hl as [->|[->|Hl]]; [| |by apply elem_of_nil in Hl].
  all: by apply prefixed_app.
Qed.

(** Dropping the pair of an overlay. *)
Lemma bfilter_app {A} (p : A -> bool) l k : bfilter p (l ++ k) = bfilter p l ++ bfilter p k.
Proof. apply List.filter_app. Qed.
Lemma drop_layer_filter id m :
  layers (drop_layer id m) = bfilter (fun l => negb (String.eqb l.1 id)) (layers m) /\
  sources (drop_layer id m) = sources m /\ flags (drop_layer id m) = flags m.
Proof.
  unfold drop_layer. destruct (hasLayer id m) eqn:E; [done|]. split_and!; [|done..].
  symmetry. apply bfilter_id. unfold hasLayer in E. apply forallb_forall. intros l Hl. apply negb_true_iff.
  destruct (String.eqb_spec l.1 id) as [Hid|]; [|done]. exfalso. apply not_true_iff_false in E. apply E.
  apply existsb_exists. exists l. split; [done|]. by apply String.eqb_eq.
Qed.
Lemma drop_pair entries id : 
  bfilter (fun l => negb (String.eqb l.1 (overlay_line id)))
    (bfilter (fun l => negb (String.eqb l.1 (overlay_fill id))) (flat_map pair_of entries)) =
  flat_map pair_of (bfilter (fun e => negb (String.eqb e.1 id)) entries).
Proof.
  induction entries as [|[i k] entries IH]; [done|]. cbn [flat_map pair_of app List.filter fst snd].
  assert (H1 : String.eqb (overlay_fill i) (overlay_fill id) = String.eqb i id).
  { destruct (String.eqb_spec i id) as [->|H]; [apply String.eqb_refl|]. apply String.eqb_neq.
    by intros ?%fill_inj. }
  assert (H2 : String.eqb (overlay_line i) (overlay_line id) = String.eqb i id).
  { destruct (String.eqb_spec i id) as [->|H]; [apply String.eqb_refl|]. apply String.eqb_neq.
    by intros ?%line_inj. }
  assert (H3 : String.eqb (overlay_line i) (overlay_fill id) = false)
    by (apply String.eqb_neq; intros H; by apply eq_sym, fill_line in H).
  assert (H4 : String.eqb (overlay_fill i) (overlay_line id) = false)
    by (apply String.eqb_neq; apply fill_line).
  rewrite H1, H3. cbn [negb]. destruct (String.eqb i id); cbn [negb List.filter fst flat_map pair_of app].
  - by rewrite H2.
  - by rewrite H4, H2, IH.
Qed.
Lemma mdel_filter {A} (m : jsmap A) id : NoDup (mkeys m) ->
  mdel m id = bfilter (fun e => negb (String.eqb e.1 id)) m.
Proof.
  induction m as [|[i k] m IH]; [done|]. cbn. intros [Hi Hn]%NoDup_cons.
  destruct (String.eqb_spec i id) as [->|Hne]; cbn; [|by rewrite IH].
  symmetry. apply bfilter_id. apply forallb_forall. intros e He%list_elem_of_In. apply negb_true_iff, String.eqb_neq.
  intros He1. destruct Hi. apply list_elem_of_fmap. by exists e.
Qed.
Lemma site_layers_kept id : starts_with OVERLAY_PREFIX id = true ->
  bfilter (fun l => negb (String.eqb l.1 (overlay_line id)))
    (bfilter (fun l => negb (String.eqb l.1 (overlay_fill id))) site_layers) = site_layers.
Proof.
  intros H. assert (Hne : forall s l, l ∈ site_layers -> negb (String.eqb l.1 (id +:+ s)) = true).
  { intros s l Hl. apply negb_true_iff, String.eqb_neq. intros E.
    pose proof (prefixed_app id s H) as Hp. rewrite <-E in Hp.
    unfold site_layers in Hl. rewrite !elem_of_cons in Hl.
    destruct Hl as [->|[->|[->|[->|Hl]]]]; [done..|by apply elem_of_nil in Hl]. }
  rewrite (bfilter_id _ site_layers), bfilter_id; [done|..]; apply forallb_forall; intros l Hl%list_elem_of_In; by apply Hne.
Qed.
Lemma prefix_not_sites id : starts_with OVERLAY_PREFIX id = true -> id <> SITES.
Proof. by intros H ->. Qed.
(** Removing what is drawn of an overlay removes its entry. *)
Lemma drop_overlay entries m id : drawn entries m -> id ∈ mkeys entries ->
  drawn (mdel entries id) (removeSource id (drop_layer (overlay_line id) (drop_layer (overlay_fill id) m))) /\
  flags (removeSource id (drop_layer (overlay_line id) (drop_layer (overlay_fill id) m))) = flags m.
Proof.
  intros [Hn Hp Hl Hs] Hid. pose proof (prefix_not_sites id (Hp id Hid)) as Hsites.
  destruct (drop_layer_filter (overlay_fill id) m) as (L1 & S1 & F1).
  destruct (drop_layer_filter (overlay_line id) (drop_layer (overlay_fill id) m)) as (L2 & S2 & F2).
  split; [|cbn; rewrite (proj2 (String.eqb_neq id SITES) Hsites); by rewrite F2].
  constructor.
  - by apply mdel_NoDup.
  - intros i Hi%mdel_keys. by apply Hp.
  - cbn. rewrite L2, L1, Hl, !bfilter_app, drop_pair, site_layers_kept by by apply Hp.
    by rewrite mdel_filter.
  - intros src. cbn. rewrite bfilter_elem, S2, S1, Hs, negb_true_iff, String.eqb_neq, !mget_keys, mget_del by done.
    destruct (String.eqb_spec id src) as [->|Hne].
    + split; [tauto|]. intros [->|[? [=]]]. done.
    + split; [tauto|]. intros [->|Hk]; split; auto.
Qed.

(** ** The sync of the overlays *)
Definition agree (a b : jsmap string) : Prop := forall id, mget a id = mget b id.
Definition fresh (wanted : jsmap Overlay) (id key : string) : bool :=
  match mget wanted id with Some o => String.eqb (overlayKey o) key | None => false end.

Lemma drop_stale_spec wanted entries m known id key : drawn entries m -> agree known entries ->
  NoDup (mkeys known) -> mget known id = Some key ->
  let s := drop_stale wanted (m, known) (id, key) in
  exists entries', drawn entries' s.1 /\ agree s.2 entries' /\ NoDup (mkeys s.2) /\ flags s.1 = flags m /\
    forall i, mget s.2 i = if String.eqb id i && negb (fresh wanted id key) then None else mget known i.
Proof.
  intros Hd Ha Hn Hk. cbn zeta. unfold drop_stale, fresh.
  destruct (match mget wanted id with Some o => _ | None => false end); cbn [negb fst snd].
  { exists entries. split_and!; try done. intros i. by rewrite andb_false_r. }
  assert (Hid : id ∈ mkeys entries) by (apply mget_keys; rewrite <-Ha; by exists key).
  destruct (drop_overlay entries m id Hd Hid) as [Hd' Hf].
  assert (Hh : hasSource id (drop_layer (overlay_line id) (drop_layer (overlay_fill id) m)) = true).
  { apply bool_decide_eq_true.
    rewrite (proj1 (proj2 (drop_layer_filter _ _))), (proj1 (proj2 (drop_layer_filter _ _))).
    apply (drawn_sources _ _ Hd). by right. }
  rewrite Hh. exists (mdel entries id). split_and!; [done| |by apply mdel_NoDup|done|].
  - intros i. rewrite !mget_del; [by rewrite Ha|by apply Hd|done].
  - intros i. rewrite mget_del, andb_true_r by done. done.
Qed.
Lemma drop_all_spec wanted l : forall entries m known, drawn entries m -> agree known entries ->
  NoDup (mkeys known) -> NoDup (mkeys l) -> (forall id key, (id, key) ∈ l -> mget known id = Some key) ->
  let s := fold_left (drop_stale wanted) l (m, known) in
  exists entries', drawn entries' s.1 /\ agree s.2 entries' /\ NoDup (mkeys s.2) /\ flags s.1 = flags m /\
    forall i, mget s.2 i =
      match mget known i with
      | Some key => if bool_decide (i ∈ mkeys l) && negb (fresh wanted i key) then None else Some key
      | None => None
      end.
Proof.
  induction l as [|[id key] l IH]; intros entries m known Hd Ha Hn Hl Hin; cbn zeta; cbn [fold_left].
  { exists entries. split_and!; try done. intros i. cbn [fst snd]. destruct (mget known i); [|done].
    by rewrite bool_decide_eq_false_2 by apply not_elem_of_nil. }
  cbn in Hl. apply NoDup_cons in Hl as [Hid Hl].
  destruct (drop_stale_spec wanted entries m known id key Hd Ha Hn) as (e1 & Hd1 & Ha1 & Hn1 & Hf1 & Hk1);
    [apply Hin; by left|].
  destruct (drop_stale wanted (m, known) (id, key)) as [m1 known1]. cbn [fst snd] in *.
  assert (Hne : forall i k, (i, k) ∈ l -> id <> i).
  { intros i k Hi ->. apply Hid. apply list_elem_of_fmap. by exists (i, k). }
  destruct (IH e1 m1 known1 Hd1 Ha1 Hn1 Hl) as (e2 & Hd2 & Ha2 & Hn2 & Hf2 & Hk2).
  { intros i k Hi. rewrite Hk1, (proj2 (String.eqb_neq id i) (Hne i k Hi)). apply Hin. by right. }
  exists e2. split_and!; try done; [congruence|]. intros i. rewrite Hk2, Hk1. cbn [map fst].
  destruct (String.eqb_spec id i) as [->|Hi]; cbn [andb].
  - rewrite (Hin i key) by by left. rewrite (bool_decide_eq_true_2 (i ∈ i :: _)) by by left.
    rewrite (bool_decide_eq_false_2 (i ∈ mkeys l)) by done. cbn [andb]. by destruct (negb (fresh wanted i key)).
  - destruct (mget known i); [|done].
    rewrite (bool_decide_ext (i ∈ id :: mkeys l) (i ∈ mkeys l)); [done|]. rewrite elem_of_cons. naive_solver.
Qed.

Lemma insert_under x l k : (forall y, y ∈ l -> y.1 <> CLUSTER) ->
  insert_before x CLUSTER (l ++ (CLUSTER, "") :: k) = l ++ x :: (CLUSTER, "") :: k.
Proof.
  induction l as [|y l IH]; intros H; cbn [insert_before app]; [done|].
  rewrite (proj2 (String.eqb_neq y.1 CLUSTER)) by (apply H; by left). rewrite IH; [done|].
  intros z Hz. apply H. by right.
Qed.
Lemma first_layer entries m : drawn entries m -> first_sites_layer m = Some CLUSTER.
Proof.
  intros Hd. unfold first_sites_layer, js_find. cbn [List.find]. unfold hasLayer.
  rewrite (drawn_layers _ _ Hd), existsb_app. by rewrite orb_true_r.
Qed.
Lemma pairs_not_cluster entries y : (forall id, id ∈ mkeys entries -> starts_with OVERLAY_PREFIX id = true) ->
  y ∈ flat_map pair_of entries -> y.1 <> CLUSTER.
Proof. intros H Hy E. apply (pairs_prefixed _ _ H) in Hy. by rewrite E in Hy. Qed.
Lemma add_overlay entries m id key : drawn entries m -> starts_with OVERLAY_PREFIX id = true ->
  mget entries id = None ->
  drawn (mset entries id key) (addLayer (overlay_line id) key (Some CLUSTER)
    (addLayer (overlay_fill id) key (Some CLUSTER) (addSource id m))).
Proof.
  intros [Hn Hp Hl Hs] Hid Hno. assert (Hset : mset entries id key = entries ++ [(id, key)]).
  { clear -Hno. induction entries as [|[i k] e IH]; [done|]. cbn in *.
    destruct (String.eqb i id); [done|]. by rewrite IH. }
  constructor.
  - by apply mset_NoDup.
  - intros i Hi. rewrite Hset, map_app in Hi. apply elem_of_app in Hi as [Hi|Hi]; [by apply Hp|].
    cbn in Hi. apply list_elem_of_singleton in Hi as ->. done.
  - cbn. rewrite Hl, Hset, flat_map_app. cbn [flat_map pair_of fst snd app]. unfold site_layers.
    rewrite insert_under by (intros y Hy; by apply (pairs_not_cluster entries)).
    change (flat_map pair_of entries ++ (overlay_fill id, key) :: ?r) with
      (flat_map pair_of entries ++ [(overlay_fill id, key)] ++ r).
    rewrite app_assoc, insert_under; [by rewrite <- !app_assoc|].
    intros y [Hy|Hy]%elem_of_app; [by apply (pairs_not_cluster entries)|].
    apply list_elem_of_singleton in Hy as ->. cbn. intros E. pose proof (prefixed_app id "-fill" Hid) as H.
    fold (overlay_fill id) in H. by rewrite E in H.
  - intros src. cbn. rewrite elem_of_app, Hs, list_elem_of_singleton, !mget_keys, mget_set.
    destruct (String.eqb_spec id src) as [->|]; [naive_solver|naive_solver].
Qed.

Lemma add_all_spec l : forall entries m known, drawn entries m -> NoDup (mkeys known) ->
  (forall i k, mget known i = Some k -> mget entries i = Some k) ->
  NoDup (mkeys l) -> (forall i, i ∈ mkeys l -> starts_with OVERLAY_PREFIX i = true) ->
  (forall i o k, (i, o) ∈ l -> mget entries i = Some k -> mget known i = None -> k = overlayKey o) ->
  let s := fold_left (add_wanted (Some CLUSTER)) l (m, known) in
  exists entries', drawn entries' s.1 /\ flags s.1 = flags m /\ NoDup (mkeys s.2) /\
    (forall i, mget entries' i = match mget entries i with
                                | Some k => Some k | None => overlayKey <$> mget l i end) /\
    (forall i, mget s.2 i = match mget known i with
                           | Some k => Some k | None => overlayKey <$> mget l i end).
Proof.
  induction l as [|[id o] l IH]; intros entries m known Hd Hn Hsub Hl Hp Hin; cbn zeta; cbn [fold_left].
  { exists entries. cbn [fst snd mget fmap]. split_and!; try done; intros i; [by destruct (mget entries i)|by destruct (mget known i)]. }
  cbn in Hl. apply NoDup_cons in Hl as [Hid Hl].
  assert (Hlid : mget l id = None) by (destruct (mget l id) eqn:E; [|done]; destruct Hid; apply mget_keys; by eexists).
  assert (Hpl : forall i, i ∈ mkeys l -> starts_with OVERLAY_PREFIX i = true) by (intros i Hi; apply Hp; by right).
  remember (add_wanted (Some CLUSTER) (m, known) (id, o)) as st eqn:Est. unfold add_wanted in Est.
  destruct (mhas known id) eqn:Eh.
  { subst st. apply mhas_spec in Eh as [k0 Hk0]. destruct (IH entries m known Hd Hn Hsub Hl Hpl) as (e2 & D & F & N & E1 & E2).
    { intros i o' k Hi. apply Hin. by right. }
    exists e2. split_and!; try done; intros i; rewrite ?E1, ?E2; cbn [mget];
      destruct (String.eqb_spec id i) as [<-|]; [by rewrite (Hsub _ _ Hk0)|done|by rewrite Hk0|done]. }
  apply mhas_false in Eh. cbn zeta in Est. destruct (hasSource id m) eqn:Es; subst st.
  - apply bool_decide_eq_true in Es. apply (drawn_sources _ _ Hd) in Es as [->|Hk].
    { by specialize (Hp SITES (list_elem_of_here _ _)). }
    apply mget_keys in Hk as [k Hk]. pose proof (Hin id o k (list_elem_of_here _ _) Hk Eh) as ->.
    destruct (IH entries m (mset known id (overlayKey o)) Hd) as (e2 & D & F & N & E1 & E2).
    { by apply mset_NoDup. } { intros i k. rewrite mget_set. destruct (String.eqb_spec id i) as [<-|]; [by intros [= <-]|apply Hsub]. }
    { done. } { done. }
    { intros i o' k' Hi Hk'. rewrite mget_set. destruct (String.eqb_spec id i) as [<-|]; [done|]. apply (Hin i o' k'); [by right|done]. }
    exists e2. split_and!; try done; intros i; rewrite ?E1, ?E2; cbn [mget]; rewrite ?mget_set;
      destruct (String.eqb_spec id i) as [<-|]; [by rewrite Hk|done|by rewrite Eh|done].
  - assert (Hno : mget entries id = None).
    { destruct (mget entries id) eqn:E; [|done]. apply bool_decide_eq_false in Es. destruct Es.
      apply (drawn_sources _ _ Hd). right. apply mget_keys. by eexists. }
    pose proof (add_overlay entries m id (overlayKey o) Hd (Hp id (list_elem_of_here _ _)) Hno) as Hd1.
    set (m1 := addLayer (overlay_line id) (overlayKey o) (Some CLUSTER) _) in *.
    destruct (IH (mset entries id (overlayKey o)) m1 (mset known id (overlayKey o)) Hd1) as (e2 & D & F & N & E1 & E2).
    { by apply mset_NoDup. } { intros i k. rewrite !mget_set. destruct (String.eqb_spec id i); [done|apply Hsub]. }
    { done. } { done. }
    { intros i o' k' Hi. rewrite !mget_set. destruct (String.eqb_spec id i) as [<-|]; [done|]. apply Hin. by right. }
    exists e2. split_and!; try done; intros i; rewrite ?E1, ?E2; cbn [mget]; rewrite ?mget_set;
      destruct (String.eqb_spec id i) as [<-|]; [by rewrite Hno|done|by rewrite Eh|done].
Qed.

Lemma wanted_spec overlays : NoDup (mkeys (wanted_overlays overlays)) /\
  forall i, i ∈ mkeys (wanted_overlays overlays) -> starts_with OVERLAY_PREFIX i = true.
Proof.
  unfold wanted_overlays.
  assert (H : forall l m, NoDup (mkeys m) -> (forall i, i ∈ mkeys m -> starts_with OVERLAY_PREFIX i = true) ->
    let m' := fold_left (fun (m : jsmap Overlay) o => mset m (OVERLAY_PREFIX +:+ o_id o) o) l m in
    NoDup (mkeys m') /\ forall i, i ∈ mkeys m' -> starts_with OVERLAY_PREFIX i = true).
  { induction l as [|o l IH]; intros m Hn Hp; [done|]. cbn zeta. cbn [fold_left]. apply IH; [by apply mset_NoDup|].
    intros i Hi%mget_keys. rewrite mget_set in Hi.
    destruct (String.eqb_spec (OVERLAY_PREFIX +:+ o_id o) i) as [E|]; [rewrite <-E; apply starts_with_app|].
    by apply Hp, mget_keys. }
  apply H; [by apply NoDup_nil|]. intros i Hi. by apply elem_of_nil in Hi.
Qed.
Lemma mget_NoDup_in {A} (l : jsmap A) i o : NoDup (mkeys l) -> (i, o) ∈ l -> mget l i = Some o.
Proof.
  induction l as [|[j x] l IH]; [by intros _ ?%elem_of_nil|]. cbn. intros [Hj Hn]%NoDup_cons [E|Hi]%elem_of_cons.
  - injection E as -> ->. by rewrite String.eqb_refl.
  - destruct (String.eqb_spec j i) as [->|]; [|by apply IH]. destruct Hj. apply list_elem_of_fmap. by exists (i, o).
Qed.

(** What the code knows to be drawn is what is drawn, and what is wanted. *)
Definition in_step (overlays : list Overlay) (m : Map) (known : jsmap string) : Prop :=
  exists entries, drawn entries m /\ agree known entries /\ NoDup (mkeys known) /\
    forall i, mget known i = overlayKey <$> mget (wanted_overlays overlays) i.

Lemma sync_spec overlays entries m known : drawn entries m -> agree known entries -> NoDup (mkeys known) ->
  let s := syncOverlays overlays m known in in_step overlays s.1 s.2 /\ flags s.1 = flags m.
Proof.
  intros Hd Ha Hn. cbn zeta. unfold syncOverlays. destruct (wanted_spec overlays) as [Hw Hp].
  destruct (drop_all_spec (wanted_overlays overlays) known entries m known Hd Ha Hn Hn) as (e1 & D1 & A1 & N1 & F1 & K1).
  { intros i k Hi. by apply mget_NoDup_in. }
  destruct (fold_left (drop_stale _) known (m, known)) as [m1 known1]. cbn [fst snd] in *.
  rewrite (first_layer _ _ D1).
  assert (Hk : forall i k, mget known1 i = Some k ->
    exists o, mget (wanted_overlays overlays) i = Some o /\ k = overlayKey o).
  { intros i k. rewrite K1. destruct (mget known i) as [k'|] eqn:E; [|done].
    rewrite (bool_decide_eq_true_2 (i ∈ mkeys known)) by (apply mget_keys; by eexists).
    unfold fresh. destruct (mget (wanted_overlays overlays) i) as [o|]; [|done].
    destruct (String.eqb_spec (overlayKey o) k') as [<-|]; [|done]. intros [= <-]. by exists o. }
  destruct (add_all_spec (wanted_overlays overlays) e1 m1 known1 D1 N1) as (e2 & D2 & F2 & N2 & E2 & K2); try done.
  { intros i k H. by rewrite <-A1. } { intros i o k _ H. rewrite <-A1 in H. congruence. }
  split; [|congruence]. exists e2. split_and!; try done.
  - intros i. by rewrite E2, K2, A1.
  - intros i. rewrite K2. destruct (mget known1 i) as [k|] eqn:E; [|done].
    destruct (Hk i k E) as (o & -> & ->). done.
Qed.
(** A style that loads twice: what is drawn is registered again. *)
Lemma sync_again overlays m known : in_step overlays m known ->
  let s := syncOverlays overlays m [] in in_step overlays s.1 s.2 /\ flags s.1 = flags m.
Proof.
  intros (e & D & A & N & K). cbn zeta. unfold syncOverlays. cbn [fold_left]. rewrite (first_layer _ _ D).
  destruct (wanted_spec overlays) as [Hw Hp].
  destruct (add_all_spec (wanted_overlays overlays) e m [] D) as (e2 & D2 & F2 & N2 & E2 & K2); try done.
  { by apply NoDup_nil. }
  { intros i o k Hi Hk _. rewrite <-A, K, (mget_NoDup_in _ _ _ Hw Hi) in Hk. by injection Hk. }
  split; [|done]. exists e2. split_and!; try done. intros i. rewrite E2, K2. cbn [mget].
  rewrite <-A, K. by destruct (mget _ i).
Qed.

(** ** The selection *)
Lemma setFeatureState_spec sl id b m f :
  layers (setFeatureState sl id b m) = layers m /\ sources (setFeatureState sl id b m) = sources m /\
  (f ∈ flags (setFeatureState sl id b m) <-> if bool_decide (f = (sl, id)) then b = true else f ∈ flags m).
Proof.
  split_and!; [done..|]. unfold setFeatureState. cbn [flags].
  assert (H : f ∈ bfilter (fun f => negb (bool_decide (f = (sl, id)))) (flags m) <-> f ∈ flags m /\ f <> (sl, id))
    by by rewrite bfilter_elem, negb_true_iff, bool_decide_eq_false.
  destruct b; rewrite ?elem_of_app, ?list_elem_of_singleton, H; case_bool_decide; naive_solver.
Qed.
Lemma flag_fold sl (on : string -> option bool) ids m f :
  let m' := fold_left (fun m id => match on id with Some b => setFeatureState sl id b m | None => m end) ids m in
  layers m' = layers m /\ sources m' = sources m /\
  (f ∈ flags m' <->
   if bool_decide (f.1 = sl /\ f.2 ∈ ids /\ on f.2 <> None) then on f.2 = Some true else f ∈ flags m).
Proof.
  revert m. induction ids as [|id ids IH]; intros m; cbn zeta; cbn [fold_left].
  { split_and!; [done..|]. rewrite bool_decide_eq_false_2; [done|]. intros (_ & H & _). by apply elem_of_nil in H. }
  destruct (IH (match on id with Some b => setFeatureState sl id b m | None => m end)) as (L & S & F).
  rewrite L, S, F. clear L S F IH. destruct f as [a i]. cbn [fst snd].
  destruct (on id) as [b|] eqn:Eb.
  - destruct (setFeatureState_spec sl id b m (a, i)) as (-> & -> & H). split_and!; [done..|].
    destruct (bool_decide_reflect ((a, i) = (sl, id))) as [[= -> ->]|Hne];
      (case_bool_decide as C1; case_bool_decide as C2; rewrite ?elem_of_cons in *; naive_solver).
  - split_and!; [done..|]. case_bool_decide as C1; case_bool_decide as C2; rewrite ?elem_of_cons in *; naive_solver.
Qed.
Lemma fold_left_ext {A B} (f g : A -> B -> A) l a : (forall a b, f a b = g a b) -> fold_left f l a = fold_left g l a.
Proof. intros H. revert a. induction l as [|b l IH]; intros a; [done|]. cbn. by rewrite H, IH. Qed.
Lemma applySelection_spec t ids m flagged : hasSource SITES m = true ->
  let s := applySelection (Some t) ids m flagged in
  layers s.1 = layers m /\ sources s.1 = sources m /\ (forall id, id ∈ s.2 <-> id ∈ ids) /\
  (forall f, f ∈ flags s.1 <-> (f.1 = t_sourceLayer t /\ f.2 ∈ ids) \/
     (f ∈ flags m /\ ~ (f.1 = t_sourceLayer t /\ f.2 ∈ flagged))).
Proof.
  intros Hs. cbn zeta. unfold applySelection. rewrite Hs. cbn [fst snd].
  pose proof (proj2 (set_of_spec ids)) as Hids. set (sl := t_sourceLayer t).
  rewrite (fold_left_ext _ (fun m id => match (if bool_decide (id ∈ set_of ids) then None else Some false) with
    Some b => setFeatureState sl id b m | None => m end) flagged m) by (intros; by case_bool_decide).
  set (m1 := fold_left _ flagged m).
  assert (H1 : layers m1 = layers m /\ sources m1 = sources m /\ forall f, f ∈ flags m1 <->
    if bool_decide (f.1 = sl /\ f.2 ∈ flagged /\ f.2 ∉ ids) then False else f ∈ flags m).
  { unfold m1. split_and!; try by apply (flag_fold sl _ flagged m ("", "")). intros f.
    rewrite (proj2 (proj2 (flag_fold sl _ flagged m f))). pose proof (Hids f.2).
    repeat case_bool_decide; naive_solver. }
  destruct H1 as (L1 & S1 & F1).
  pose proof (flag_fold sl (fun _ => Some true) (set_of ids) m1) as H2. cbn beta iota zeta in H2.
  destruct (H2 ("", "")) as (L2 & S2 & _). split_and!; [by rewrite L2|by rewrite S2|done|].
  intros f. destruct (H2 f) as (_ & _ & F2). rewrite F2. pose proof (Hids f.2). specialize (F1 f).
  destruct (decide (f.2 ∈ ids)); repeat case_bool_decide; naive_solver.
Qed.

(** ** The component *)

(** The map draws what the props say. *)
Definition shows (p : Props) (m : Map) : Prop :=
  exists t entries, the_tiles p = Some t /\ drawn entries m /\
    (forall i, mget entries i = overlayKey <$> mget (wanted_overlays (ob_val (overlays p))) i) /\
    (forall f, f ∈ flags m <-> f.1 = t_sourceLayer t /\ f.2 ∈ ob_val (selectedIds p)).
(** The state's own memory of it agrees; or the style is bare. *)
Definition bare (m : Map) : Prop := sources m = [] /\ layers m = [] /\ flags m = [].
Definition selected_in (p : Props) (m : Map) (flagged : jsset) : Prop :=
  exists t, the_tiles p = Some t /\ (forall id, id ∈ flagged <-> id ∈ ob_val (selectedIds p)) /\
    (forall f, f ∈ flags m <-> f.1 = t_sourceLayer t /\ f.2 ∈ ob_val (selectedIds p)).
Definition kept (s : State) : Prop :=
  tiles_mode (mounted s) = true /\ tiles_mode (current s) = true /\
  forall m, the_map s = Some m ->
    bare m \/ (in_step (ob_val (overlays (current s))) m (known s) /\ selected_in (current s) m (flagged s)).

Lemma step_shows overlays p m known flagged : overlays = ob_val (SiteMap.overlays p) ->
  in_step overlays m known -> selected_in p m flagged -> shows p m.
Proof.
  intros -> (e & D & A & N & K) (t & Ht & _ & F). exists t, e. split_and!; try done.
  intros i. by rewrite <-A, K.
Qed.
Lemma in_step_source overlays m known : in_step overlays m known -> hasSource SITES m = true.
Proof. intros (e & D & _). apply bool_decide_eq_true, (drawn_sources _ _ D). by left. Qed.
Lemma bare_source m : bare m -> hasSource SITES m = false.
Proof. intros (H & _). unfold hasSource. rewrite H. by rewrite bool_decide_eq_false_2 by apply not_elem_of_nil. Qed.
Lemma drawn_same e m m' : layers m' = layers m -> sources m' = sources m -> drawn e m -> drawn e m'.
Proof. intros HL HS [N P L S]. constructor; [done..|by rewrite HL|intros src; by rewrite HS]. Qed.
Lemma in_step_same overlays m m' known : layers m' = layers m -> sources m' = sources m ->
  in_step overlays m known -> in_step overlays m' known.
Proof. intros HL HS (e & D & R). exists e. split; [by apply (drawn_same e m)|done]. Qed.
Lemma in_tiles p : tiles_mode p = true -> exists o, tiles p = Some o /\ the_tiles p = Some (ob_val o).
Proof. unfold tiles_mode, the_tiles. destruct (tiles p) as [o|]; [by exists o|done]. Qed.
Lemma added_sites m : sources m = [] -> layers m = [] -> drawn [] (addSitesLayers true m).
Proof.
  intros HS HL. unfold addSitesLayers, hasSource. rewrite HS.
  rewrite bool_decide_eq_false_2 by apply not_elem_of_nil. constructor; cbn.
  - by apply NoDup_nil.
  - intros id Hid. by apply elem_of_nil in Hid.
  - by rewrite HL.
  - intros src. rewrite HS. cbn. rewrite list_elem_of_singleton. split; [by left|].
    intros [->|H]; [done|by apply elem_of_nil in H].
Qed.

Lemma drop_site_layers e m : drawn e m ->
  let m' := fold_left (fun m l => drop_layer l m) [CLUSTER_COUNT; CLUSTER; HALO; DOT] m in
  layers m' = flat_map pair_of e /\ sources m' = sources m.
Proof.
  intros [N P L S]. cbn zeta. cbn [fold_left].
  assert (Hk : forall id, starts_with OVERLAY_PREFIX id = false ->
    bfilter (fun l => negb (String.eqb l.1 id)) (flat_map pair_of e) = flat_map pair_of e).
  { intros id Hid. apply bfilter_id, forallb_forall. intros l Hl%list_elem_of_In. apply negb_true_iff, String.eqb_neq.
    intros E. pose proof (pairs_prefixed _ _ P Hl) as H. by rewrite E, Hid in H. }
  split; [rewrite !(fun id m => proj1 (drop_layer_filter id m))|
          by rewrite !(fun id m => proj1 (proj2 (drop_layer_filter id m)))].
  rewrite L, !bfilter_app, !Hk by done. cbn. by rewrite app_nil_r.
Qed.
Lemma rebuilt_sites e m : drawn e m ->
  drawn e (addSitesLayers true (removeSource SITES
    (fold_left (fun m l => drop_layer l m) [CLUSTER_COUNT; CLUSTER; HALO; DOT] m))) /\
  flags (addSitesLayers true (removeSource SITES
    (fold_left (fun m l => drop_layer l m) [CLUSTER_COUNT; CLUSTER; HALO; DOT] m))) = [].
Proof.
  intros D. destruct (drop_site_layers e m D) as [HL HS].
  set (m1 := fold_left _ _ m) in *. clearbody m1. destruct D as [N P L S].
  assert (Hno : hasSource SITES (removeSource SITES m1) = false).
  { apply bool_decide_eq_false. cbn [removeSource sources].
    rewrite bfilter_elem, negb_true_iff, String.eqb_refl. by intros [_ ?]. }
  unfold addSitesLayers. rewrite Hno.
  split; [|done]. constructor; [done..| |].
  - cbn. rewrite HL. by rewrite <- !app_assoc.
  - intros src. cbn. rewrite elem_of_app, list_elem_of_singleton, bfilter_elem, negb_true_iff, String.eqb_neq, HS, S.
    split; [tauto|]. intros [->|H]; [tauto|]. left. split; [tauto|]. by apply prefix_not_sites, P.
Qed.

Lemma reselected p m flagged : tiles_mode p = true -> hasSource SITES m = true ->
  (forall f, f ∈ flags m -> (exists t, the_tiles p = Some t /\ f.1 = t_sourceLayer t) /\
     (f.2 ∈ flagged \/ f.2 ∈ ob_val (selectedIds p))) ->
  let s := applySelection (the_tiles p) (ob_val (selectedIds p)) m flagged in
  layers s.1 = layers m /\ sources s.1 = sources m /\ selected_in p s.1 s.2.
Proof.
  intros Ht Hs Hf. destruct (in_tiles p Ht) as (o & _ & Eo). cbn zeta. rewrite Eo.
  destruct (applySelection_spec (ob_val o) (ob_val (selectedIds p)) m flagged Hs) as (HL & HS & HI & HF).
  split_and!; [done..|]. exists (ob_val o). split_and!; [done..|]. intros f. rewrite HF. split; [|tauto].
  intros [H|[H1 H2]]; [done|]. destruct (Hf f H1) as [(t & Et & E1) H3]. rewrite Eo in Et. injection Et as <-.
  destruct H3 as [H3|H3]; [|tauto]. exfalso. tauto.
Qed.

Lemma tiles_effect_kept s m : the_map s = Some m -> tiles_mode (current s) = true ->
  in_step (ob_val (overlays (current s))) m (known s) \/ (exists ovs, in_step ovs m (known s)) ->
  exists m', the_map (tiles_effect s) = Some m' /\ known (tiles_effect s) = known s /\
    current (tiles_effect s) = current s /\ mounted (tiles_effect s) = mounted s /\
    (forall ovs, in_step ovs m (known s) -> in_step ovs m' (known s)) /\
    selected_in (current s) m' (flagged (tiles_effect s)).
Proof.
  intros Hm Ht Hi. assert (Hs : hasSource SITES m = true) by (destruct Hi as [H|[? H]]; by apply in_step_source in H).
  unfold tiles_effect. rewrite Hm, Ht, Hs. cbn [andb]. set (m1 := fold_left _ _ m).
  set (m2 := addSitesLayers true (removeSource SITES m1)).
  assert (Hd : forall ovs, in_step ovs m (known s) -> in_step ovs m2 (known s) /\ flags m2 = []).
  { intros ovs (e & D & R). destruct (rebuilt_sites e m D) as [D' F']. split; [by exists e|done]. }
  assert (H2 : hasSource SITES m2 = true /\ flags m2 = []).
  { destruct Hi as [H|[? H]]; destruct (Hd _ H) as [H' ?]; split; try done; by apply in_step_source in H'. }
  destruct H2 as [H2 F2]. destruct (reselected (current s) m2 [] Ht H2) as (HL & HS & HI).
  { intros f. rewrite F2. by intros ?%elem_of_nil. }
  destruct (applySelection _ _ m2 []) as [m3 f3]. cbn [fst snd] in *. exists m3. split_and!; try done.
  intros ovs H. by apply (in_step_same _ m2), Hd.
Qed.

Lemma addLayers_kept s m : kept s -> the_map s = Some m ->
  exists m', the_map (addLayers s m) = Some m' /\ current (addLayers s m) = current s /\
    mounted (addLayers s m) = mounted s /\
    in_step (ob_val (overlays (current s))) m' (known (addLayers s m)) /\
    selected_in (current s) m' (flagged (addLayers s m)).
Proof.
  intros (Hm0 & Hc & Hk) Hm. unfold addLayers. rewrite Hm0.
  set (ovs := ob_val (overlays (current s))) in *.
  set (m1 := addSitesLayers true m).
  assert (H1 : hasSource SITES m1 = true /\ (forall f, f ∈ flags m1 -> (exists t, the_tiles (current s) = Some t /\
      f.1 = t_sourceLayer t) /\ (f.2 ∈ @nil string \/ f.2 ∈ ob_val (selectedIds (current s)))) /\
    (drawn [] m1 \/ in_step ovs m1 (known s))).
  { destruct (Hk m Hm) as [(B1 & B2 & B3)|[Hi (t & Et & _ & Hf)]].
    - pose proof (added_sites m B1 B2) as D. fold m1 in D. split_and!; [|  |by left].
      + apply bool_decide_eq_true, (drawn_sources _ _ D). by left.
      + intros f. unfold m1, addSitesLayers. rewrite bare_source by done. cbn. rewrite B3. by intros ?%elem_of_nil.
    - pose proof (in_step_source _ _ _ Hi) as Hs. assert (E : m1 = m) by (unfold m1, addSitesLayers; by rewrite Hs).
      rewrite E. split_and!; [done| |by right]. intros f [H1 H2]%Hf. split; [by exists t|by right]. }
  destruct H1 as (Hs & Hf & Hd). destruct (reselected (current s) m1 [] Hc Hs Hf) as (HL & HS & HI).
  destruct (applySelection _ _ m1 []) as [m2 f2]. cbn [fst snd] in *.
  assert (H3 : in_step ovs (syncOverlays ovs m2 []).1 (syncOverlays ovs m2 []).2 /\
    flags (syncOverlays ovs m2 []).1 = flags m2).
  { destruct Hd as [D|D].
    - apply (sync_spec ovs []); [by apply (drawn_same _ m1)|done|by apply NoDup_nil].
    - apply (sync_again ovs m2 (known s)). by apply (in_step_same _ m1). }
  destruct (syncOverlays ovs m2 []) as [m3 k3]. cbn [fst snd] in *. destruct H3 as [H3 F3].
  exists m3. split_and!; try done. destruct HI as (t & Et & Hfl & Hsel). exists t. split_and!; try done.
  intros f. cbn. by rewrite F3.
Qed.

(** ** A commit *)

(** Between two effects: the overlays are those of [ovs]; the selection may
    still be the old tiles'. *)
Definition mid (ovs : list Overlay) (selected : bool) (q : Props) (s : State) : Prop :=
  tiles_mode (mounted s) = true /\ tiles_mode q = true /\ current s = q /\
  forall m, the_map s = Some m -> bare m \/
    (in_step ovs m (known s) /\ (selected = true -> selected_in q m (flagged s))).
Lemma kept_mid s : kept s <-> mid (ob_val (overlays (current s))) true (current s) s.
Proof. unfold kept, mid. naive_solver. Qed.
Lemma mid_same ovs b q s s' : mid ovs b q s -> mounted s' = mounted s -> current s' = current s ->
  the_map s' = the_map s -> known s' = known s -> flagged s' = flagged s -> mid ovs b q s'.
Proof. unfold mid. intros H -> -> -> -> ->. done. Qed.

Lemma points_mid ovs b q s : mid ovs b q s -> mid ovs b q (points_effect s).1.
Proof.
  intros H. eapply mid_same; [exact H|..]; unfold points_effect; repeat case_match; done.
Qed.
Lemma fit_mid ovs b q s : mid ovs b q s -> mid ovs b q (fit_effect s).1.
Proof. intros H. eapply mid_same; [exact H|..]; unfold fit_effect; repeat case_match; done. Qed.
Lemma basemap_mid ovs b q loaded s : mid ovs b q s -> mid ovs b q (basemap_effect loaded s).1.
Proof.
  intros H. unfold basemap_effect. cbn zeta.
  set (s1 := match styleKey s with Some _ => s | None => _ end).
  assert (H1 : mid ovs b q s1) by (eapply mid_same; [exact H|..]; unfold s1; by destruct (styleKey s)).
  destruct (the_map s1) as [m|] eqn:Em; [|done]. destruct (_ && _); [|done].
  destruct H1 as (M & T & C & _). split_and!; [done..|]. intros m' [= <-]. by left.
Qed.
Lemma unsourced p ids m flagged : hasSource SITES m = false -> applySelection p ids m flagged = (m, flagged).
Proof. intros H. unfold applySelection. rewrite H. by destruct p. Qed.
Lemma selection_stage ovs (same run : bool) p q s : tiles_mode (mounted s) = true -> tiles_mode q = true ->
  current s = q ->
  (forall m, the_map s = Some m -> bare m \/ (in_step ovs m (known s) /\ selected_in p m (flagged s))) ->
  (same = true -> the_tiles p = the_tiles q) ->
  (run = false -> ob_val (selectedIds p) = ob_val (selectedIds q)) ->
  mid ovs same q (if run then selection_effect s else s).
Proof.
  intros M T C H Hsame Hrun. destruct run.
  - unfold selection_effect. destruct (the_map s) as [m|] eqn:Em.
    2: { split_and!; [done..|]. intros m'. by rewrite Em. }
    destruct (H m eq_refl) as [B|[I (t & Et & Hfl & Hf)]].
    { rewrite unsourced by by apply bare_source. split_and!; [done..|]. intros m' [= <-]. by left. }
    pose proof (in_step_source _ _ _ I) as Hs. destruct (in_tiles q T) as (o & _ & Eo). rewrite C.
    destruct (applySelection_spec (ob_val o) (ob_val (selectedIds q)) m (flagged s) Hs) as (HL & HS & _).
    pose proof (reselected q m (flagged s) T Hs) as HR. rewrite Eo in *.
    destruct (applySelection _ _ m (flagged s)) as [m1 f1]. cbn [fst snd] in *.
    split_and!; [done..|]. intros m' [= <-]. right. split; [by apply (in_step_same _ m)|].
    intros E. apply HR. intros f [H1 H2]%Hf. split; [|by left; apply Hfl].
    exists t. split; [|done]. by rewrite <-Et, (Hsame E).
  - split_and!; [done..|]. intros m Em. destruct (H m Em) as [B|[I (t & Et & Hfl & Hf)]]; [by left|right].
    split; [done|]. intros E. exists t. rewrite <-(Hrun eq_refl). by rewrite <-(Hsame E).
Qed.
Lemma tiles_stage ovs (same run : bool) q s : mid ovs same q s -> (run = false -> same = true) ->
  mid ovs true q (if run then tiles_effect s else s).
Proof.
  intros (M & T & C & H) Hrun. destruct run; [|by rewrite <-(Hrun eq_refl)].
  destruct (the_map s) as [m|] eqn:Em.
  2: { unfold tiles_effect. rewrite Em. split_and!; [done..|]. intros m'. by rewrite Em. }
  destruct (H m eq_refl) as [B|[I _]].
  - unfold tiles_effect. rewrite Em, bare_source, andb_false_r by done. split_and!; [done..|].
    rewrite Em. intros m' [= <-]. by left.
  - destruct (tiles_effect_kept s m Em) as (m' & E1 & E2 & E3 & E4 & E5 & E6); [by rewrite C|right; by exists ovs|].
    split_and!; [by rewrite E4|done|by rewrite E3|]. rewrite E1, E2. intros m1 [= <-]. right.
    split; [by apply E5|]. intros _. by rewrite <-C.
Qed.
Lemma overlays_stage ovs (run : bool) q s : mid ovs true q s ->
  (run = false -> ovs = ob_val (overlays q)) ->
  mid (ob_val (overlays q)) true q (if run then overlays_effect s else s).
Proof.
  intros H Hrun. destruct run; [|by rewrite <-(Hrun eq_refl)]. destruct H as (M & T & C & H).
  unfold overlays_effect. destruct (the_map s) as [m|] eqn:Em.
  2: { split_and!; [done..|]. intros m'. by rewrite Em. }
  destruct (H m eq_refl) as [B|[I Hsel]].
  - rewrite bare_source by done. split_and!; [done..|]. rewrite Em. intros m' [= <-]. by left.
  - rewrite (in_step_source _ _ _ I), C. destruct I as (e & D & A & N & K).
    destruct (sync_spec (ob_val (overlays q)) e m (known s) D A N) as [HI HF].
    destruct (syncOverlays _ m (known s)) as [m1 k1]. cbn [fst snd] in *. split_and!; [done..|].
    intros m' [= <-]. right. split; [done|]. intros _. destruct (Hsel eq_refl) as (t & Et & Hfl & Hf).
    exists t. split_and!; [done..|]. intros f. cbn. by rewrite HF.
Qed.

(** What a dependency array relies on: the same identity, the same value. *)
Definition honest (p q : Props) : Prop :=
  (changed (selectedIds p) (selectedIds q) = false -> ob_val (selectedIds p) = ob_val (selectedIds q)) /\
  (changed (overlays p) (overlays q) = false -> ob_val (overlays p) = ob_val (overlays q)) /\
  (tiles_changed p q = false -> the_tiles p = the_tiles q).

Lemma then_fst f g s : (then_ f g s).1 = (g (f s).1).1.
Proof. unfold then_. destruct (f s) as [s1 a]. cbn [fst]. by destruct (g s1). Qed.
Lemma when_fst b f s : (when_ b f s).1 = if b then (f s).1 else s.
Proof. by destruct b. Qed.
Lemma if_mid (b : bool) ovs q (f : State -> State * list Act) s : mid ovs true q s -> (forall s, mid ovs true q s -> mid ovs true q (f s).1) ->
  mid ovs true q (if b then (f s).1 else s).
Proof. intros H Hf. destruct b; [by apply Hf|done]. Qed.
Lemma points_same (b : bool) s :
  let s' := if b then (points_effect s).1 else s in
  mounted s' = mounted s /\ current s' = current s /\ the_map s' = the_map s /\
  known s' = known s /\ flagged s' = flagged s.
Proof. cbn zeta. destruct b; [|done]. unfold points_effect. repeat case_match; done. Qed.
Lemma commit_kept loaded q s : kept s -> honest (current s) q -> tiles_mode q = true ->
  kept (commit loaded q s).1.
Proof.
  intros (M & T & H) (Hsel & Hov & Hti) Tq. set (p := current s) in *.
  assert (Hc : mid (ob_val (overlays q)) true q (commit loaded q s).1).
  { unfold commit, effects. rewrite !then_fst, !when_fst. unfold quiet. cbn [fst snd].
    apply if_mid; [|apply fit_mid]. apply if_mid; [|apply basemap_mid].
    apply overlays_stage with (ob_val (overlays p)); [|intros E; apply Hov, E].
    apply tiles_stage with (negb (tiles_changed p q)).
    2: { cbn [orb]. intros [E _]%orb_false_iff. by apply negb_true_iff. }
    apply selection_stage with p; [| | | |by intros ?%negb_true_iff; apply Hti|by intros E; apply Hsel, E].
    all: match goal with |- context [if ?b then (points_effect ?s0).1 else ?s0] =>
      destruct (points_same b s0) as (E1 & E2 & E3 & E4 & E5) | _ => idtac end.
    - by rewrite E1.
    - done.
    - by rewrite E2.
    - rewrite E3, E4, E5. cbn. intros m Em. destruct (H m Em) as [B|[I S]]; [by left|by right]. }
  destruct Hc as (M' & _ & C' & H'). unfold kept. rewrite C'. split_and!; [done..|].
  intros m Em. destruct (H' m Em) as [B|[I S]]; [by left|right]. split; [done|by apply S].
Qed.

Lemma handle_kept s e : kept s ->
  match e with Rendered _ q => honest (current s) q /\ tiles_mode q = true | _ => True end ->
  kept (handle s e).1.
Proof.
  intros Hk He. pose proof Hk as (M & T & H). destruct e as [b q| | | |u| |[id|]|x y|]; cbn [handle].
  - destruct He. by apply commit_kept.
  - destruct (the_map s) eqn:Em; [done|]. destruct (disposed s); [done|]. split_and!; [done..|].
    intros m [= <-]. by left.
  - destruct (the_map s) as [m|] eqn:Em; [|done].
    destruct (addLayers_kept s m Hk Em) as (m' & E1 & E2 & E3 & E4 & E5).
    split_and!; cbn; rewrite ?E2, ?E3; [done..|]. intros m1. rewrite E1. intros [= <-]. by right.
  - destruct (the_map s) as [m|] eqn:Em; [|done].
    destruct (addLayers_kept s m Hk Em) as (m' & E1 & E2 & E3 & E4 & E5).
    split_and!; cbn; rewrite ?E2, ?E3; [done..|]. intros m1. rewrite E1. intros [= <-]. by right.
  - destruct (the_map s) eqn:Em; [|done]. by destruct u.
  - done.
  - by destruct (the_map s).
  - done.
  - by destruct (the_map s).
  - split_and!; [done..|]. by intros m [=].
Qed.

(** ** A session *)
Fixpoint honest_session (s : State) (es : list Event) : Prop :=
  match es with
  | [] => True
  | e :: es' =>
      match e with Rendered _ q => honest (current s) q /\ tiles_mode q = true | _ => True end /\
      honest_session (handle s e).1 es'
  end.
Lemma session_kept s es : kept s -> honest_session s es -> kept (session s es).1.
Proof.
  revert s. induction es as [|e es IH]; intros s Hk He; [done|]. destruct He as [H1 H2]. cbn [session].
  pose proof (handle_kept s e Hk H1) as H3. destruct (handle s e) as [s1 a]. specialize (IH s1 H3 H2).
  by destruct (session s1 es).
Qed.
(** Until the library has loaded, no effect has a map to act on. *)
Definition waiting (p : Props) (s : State) : Prop := the_map s = None /\ mounted s = p /\ current s = p.
Lemma waiting_if p (b : bool) (f : State -> State * list Act) s :
  (forall s, waiting p s -> waiting p (f s).1) -> waiting p s -> waiting p (when_ b f s).1.
Proof. intros Hf H. rewrite when_fst. destruct b; [by apply Hf|done]. Qed.
Lemma mount_waits p : waiting p (mount p).1.
Proof.
  unfold mount, effects. rewrite !then_fst. repeat (apply waiting_if; [intros s (Hm & H1 & H2)|]); [..|done].
  - unfold fit_effect. destruct (Nat.eqb _ _); [done|]. cbn. rewrite Hm. done.
  - unfold basemap_effect. destruct (styleKey s); cbn; rewrite Hm; done.
  - unfold quiet, overlays_effect. by rewrite Hm.
  - unfold quiet, tiles_effect. by rewrite Hm.
  - unfold quiet, selection_effect. by rewrite Hm.
  - unfold points_effect. by rewrite Hm.
Qed.

(** C4: The map follows its props.  After any sequence of renders, loads,
    style swaps, moves and clicks - as long as a value that keeps its identity
    keeps its content, and the sites come as tiles - whenever the sites are on
    the map, every wanted overlay is drawn once, in the style it has now, and
    nothing else is; all of them lie under the sites; and the features marked
    as selected are exactly the selected sites. *)
Theorem map_follows_props p es m : tiles_mode p = true -> honest_session (mount p).1 es ->
  the_map (session (mount p).1 es).1 = Some m -> hasSource SITES m = true ->
  shows (current (session (mount p).1 es).1) m.
Proof.
  intros Hp Hes Hm Hs. destruct (mount_waits p) as (H1 & H2 & H3).
  assert (Hk : kept (mount p).1). { split_and!; [by rewrite H2|by rewrite H3|]. intros m'. by rewrite H1. }
  destruct (session_kept _ _ Hk Hes) as (_ & _ & H).
  destruct (H m Hm) as [B|[I S]]; [by rewrite bare_source in Hs|]. by eapply step_shows.
Qed.

(** ** Concrete maps *)
Definition tiles0 : Obj Tiles := mkObj 1 (mkTiles "https://app/api/tiles/sites/{z}/{x}/{y}" "sites").
Definition zone (id : string) : Overlay := mkOverlay id ("https://app/o/" +:+ id) "overlay" VNull.
Definition pike : Point := mkPoint "pike" "Pike Place" 47.6 (-122.3) false.
Definition props (points : Obj (list Point)) (selected : Obj (list string)) (overlays : Obj (list Overlay))
    (basemap : string) (fitKey : nat) : Props :=
  mkProps points (Some tiles0) selected (mkObj 2 []) overlays basemap (mkObj 3 []) fitKey.
Definition no_points : Obj (list Point) := mkObj 4 [].
Definition first : Props := props no_points (mkObj 5 []) (mkObj 6 [zone "a"]) "light" 0.
Definition second : Props := props no_points (mkObj 7 ["pike"]) (mkObj 8 [zone "b"; zone "a"]) "light" 0.
Definition opening : list Event := [LibraryLoaded; StyleLoaded; Loaded; Rendered true second].
Lemma map_follows_props_witness :
  exists m, the_map (session (mount first).1 opening).1 = Some m /\
    shows (current (session (mount first).1 opening).1) m /\ flags m = [("sites", "pike")].
Proof.
  eexists. split; [reflexivity|]. split; [|reflexivity].
  apply (map_follows_props first opening); [reflexivity| |reflexivity|reflexivity].
  cbn [opening honest_session]. split_and!; try done; intros [=].
Defined.

(** A fit is asked for once per key, over the points of that very commit. *)
Lemma fit_spec s :
  (fit_effect s).2 =
    (if Nat.eqb (fitKey (current s)) (lastFit s) then []
     else match the_map s, bounds (ob_val (points (current s))) with
          | Some _, Some b => [FitBounds b true]
          | _, _ => []
          end) /\ lastFit (fit_effect s).1 = fitKey (current s).
Proof.
  unfold fit_effect. destruct (Nat.eqb_spec (fitKey (current s)) (lastFit s)) as [E|E]; [done|].
  cbn zeta. change (the_map (set_lastFit _ s)) with (the_map s). change (current (set_lastFit _ s)) with (current s).
  by destruct (the_map s), (bounds (ob_val (points (current s)))).
Qed.
(** The key changes while the list is loading: nothing to fit to yet, and the
    points that arrive next are not fitted to either. *)
Definition has_fit (acts : list Act) : bool := some (fun a => match a with FitBounds _ _ => true | _ => false end) acts.
Definition at_pike : Props := props (mkObj 9 [pike]) (mkObj 5 []) (mkObj 6 []) "light" 0.
Definition pressed : Props := props (mkObj 10 []) (mkObj 5 []) (mkObj 6 []) "light" 1.
Definition answered : Props := props (mkObj 11 [pike]) (mkObj 5 []) (mkObj 6 []) "light" 1.
Lemma fit_waits_for_no_answer :
  has_fit (session (mount at_pike).1 [LibraryLoaded; StyleLoaded; Loaded;
    Rendered true pressed; Rendered true answered]).2 = false.
Proof. by vm_compute. Qed.

(** A basemap chosen before the library has loaded, or while the style is
    loading, is never drawn: the map keeps the one of the first render. *)
Definition styles (acts : list Act) : list Style :=
  omap (fun a => match a with CreateAt _ s | SetStyle s => Some s | _ => None end) acts.
Definition in_dark : Props := props no_points (mkObj 5 []) (mkObj 6 [zone "a"]) "dark" 0.
Lemma early_basemap_is_lost :
  styles (session (mount first).1 [Rendered false in_dark; LibraryLoaded; StyleLoaded; Loaded]).2 =
    [BuiltIn "light"] /\
  styles (session (mount first).1 [LibraryLoaded; Rendered false in_dark; StyleLoaded; Loaded]).2 =
    [BuiltIn "light"] /\
  styles (session (mount first).1 [LibraryLoaded; StyleLoaded; Loaded; Rendered true in_dark]).2 =
    [BuiltIn "light"; BuiltIn "dark"].
Proof. by vm_compute. Qed.
End Map_.

(** ** The tile grid *)
Section Grid_.
Import Grid.
Context `{MF : MathFns}.
#[local] Open Scope Q_scope.
Lemma pow2_pos z : 0 < pow2 z \/ pow2 z == 0.
Proof.
  unfold pow2. destruct (Z.lt_ge_cases z 0) as [H|H].
  - right. by rewrite Z.pow_neg_r.
  - left. change 0 with (inject_Z 0). rewrite <-Zlt_Qlt. by apply Z.pow_pos_nonneg.
Qed.
Lemma grid_pow v : 0 < pow2 (grid_zoom v).
Proof.
  unfold pow2, grid_zoom. change 0 with (inject_Z 0). rewrite <-Zlt_Qlt. apply Z.pow_pos_nonneg; lia.
Qed.
Lemma tile_of_lon lon z : 0 < pow2 z -> tileXToLon (lonToTileX lon z) z == lon.
Proof. intros H. unfold tileXToLon, lonToTileX. field. intros E. rewrite E in H. by apply Qlt_irrefl in H. Qed.
Lemma tileXToLon_le x y z : 0 < pow2 z -> x <= y -> tileXToLon x z <= tileXToLon y z.
Proof.
  intros Hz H. unfold tileXToLon, Qminus. apply Qplus_le_l. apply Qmult_le_compat_r; [|done].
  unfold Qdiv. apply Qmult_le_compat_r; [done|]. by apply Qinv_le_0_compat, Qlt_le_weak.
Qed.
Lemma q_max_le a b c : a <= c -> b <= c -> q_max a b <= c.
Proof. unfold q_max. by destruct (Qle_bool a b). Qed.
Lemma q_min_le a b c : c <= a -> c <= b -> c <= q_min a b.
Proof. unfold q_min. by destruct (Qle_bool a b). Qed.

(** A viewport within the map's longitudes snaps outward: the box asked for
    covers it from west to east. *)
Lemma longitudes_snap_outward v : -180 <= v_west v -> v_east v <= 180 ->
  west (snapToTileGrid v) <= v_west v /\ v_east v <= east (snapToTileGrid v).
Proof.
  intros Hw He. unfold snapToTileGrid. pose proof (grid_pow v) as Hp. set (z := grid_zoom v) in *.
  destruct (Qle_bool 360 _); cbn [west east]; [done|]. split.
  - apply q_max_le; [done|]. rewrite <-(tile_of_lon (v_west v) z Hp) at 2.
    apply tileXToLon_le; [done|]. apply Qfloor_le.
  - apply q_min_le; [done|]. rewrite <-(tile_of_lon (v_east v) z Hp) at 1.
    apply tileXToLon_le; [done|]. apply q_min_le; [apply Qle_ceiling|].
    unfold lonToTileX. rewrite <-(Qmult_1_l (pow2 z)) at 2. apply Qmult_le_compat_r; [|by apply Qlt_le_weak].
    apply Qle_shift_div_r; [done|]. apply Qle_trans with (180 + 180); [|done]. by apply Qplus_le_l.
Qed.
(** A view across the antimeridian is cut at it, and one beyond it is empty. *)
Lemma antimeridian_view_is_cut :
  east (snapToTileGrid (mkViewport 170 0 190 10 2)) == 180 /\
  west (snapToTileGrid (mkViewport 200 0 220 10 2)) == east (snapToTileGrid (mkViewport 200 0 220 10 2)).
Proof. split; vm_compute; reflexivity. Qed.
End Grid_.

(** ** The library page *)
Section Page_.
Import SitesPage.
Definition keeps_selection (e : Event) : bool :=
  match e with RowSelectionChanged _ | BulkDone _ _ | SelectionCleared => false | _ => true end.
Definition run (p : Page) (es : list Event) : Page := fold_left (fun p e => (handle p e).1) es p.
Definition toggles (id : string) (es : list Event) : nat :=
  length (bfilter (fun e => match e with SiteToggled i => String.eqb i id | _ => false end) es).
Definition chosen_in (p : Page) (id : string) : bool := mget (rowSelection p) id ?? false.

Lemma selectedIds_spec p id : NoDup (mkeys (rowSelection p)) ->
  id ∈ selectedIds p <-> chosen_in p id = true.
Proof.
  intros Hn. unfold selectedIds, chosen_in. rewrite bfilter_elem, mget_keys.
  destruct (mget (rowSelection p) id); split; naive_solver.
Qed.
Lemma selected_count p : NoDup (mkeys (rowSelection p)) -> selectedCount p = length (selectedIds p).
Proof.
  unfold selectedCount, selectedIds. intros Hn.
  assert (H : forall l, (forall k b, (k, b) ∈ l -> mget (rowSelection p) k = Some b) ->
    length (bfilter id (map snd l)) = length (bfilter (fun k => mget (rowSelection p) k ?? false) (mkeys l))).
  { induction l as [|[k b] l IH]; intros Hl; [done|]. cbn. rewrite (Hl k b) by by left. cbn.
    destruct b; cbn; rewrite IH; naive_solver set_solver. }
  apply H. intros k b Hk. clear H. induction (rowSelection p) as [|[k' b'] l IH]; [by apply elem_of_nil in Hk|].
  cbn in *. apply NoDup_cons in Hn as [Hk' Hn]. apply elem_of_cons in Hk as [[= -> ->]|Hk].
  - by rewrite String.eqb_refl.
  - destruct (String.eqb_spec k' k) as [->|]; [|by apply IH]. destruct Hk'. apply list_elem_of_fmap. by exists (k, b).
Qed.
Lemma row_toggle_spec id p i : NoDup (mkeys (rowSelection p)) ->
  NoDup (mkeys (rowSelection (toggleSelected id p))) /\
  chosen_in (toggleSelected id p) i = xorb (chosen_in p i) (String.eqb id i).
Proof.
  intros Hn. unfold toggleSelected, chosen_in. cbn [with_selection rowSelection].
  destruct (mget (rowSelection p) id ?? false) eqn:E.
  - split; [by apply mdel_NoDup|]. rewrite mget_del by done. destruct (String.eqb_spec id i) as [<-|].
    + by rewrite E.
    + by rewrite xorb_false_r.
  - split; [by apply mset_NoDup|]. rewrite mget_set. destruct (String.eqb_spec id i) as [<-|].
    + by rewrite E.
    + by rewrite xorb_false_r.
Qed.

Definition toggled (e : Event) (i : string) : bool :=
  match e with SiteToggled j => String.eqb j i | _ => false end.
Lemma handle_selection p e i : NoDup (mkeys (rowSelection p)) -> keeps_selection e = true ->
  NoDup (mkeys (rowSelection (handle p e).1)) /\
  chosen_in (handle p e).1 i = xorb (chosen_in p i) (toggled e i).
Proof.
  intros Hn He. destruct e as [|ch| |j| | | | | | |]; try discriminate;
    try (split; [done|by rewrite xorb_false_r]).
  - assert (Hr : rowSelection (handle p (ViewChosen ch)).1 = rowSelection p)
      by (cbn [handle]; repeat case_match; done).
    unfold chosen_in. rewrite Hr. split; [done|by rewrite xorb_false_r].
  - by apply row_toggle_spec.
  - unfold chosen_in. cbn [handle]. destruct (_ || _); (split; [done|by rewrite xorb_false_r]).
Qed.

(** C16: The selection is the user's: through searches, chips, panning, the
    toggle between table and map and fits, a site is selected exactly when it
    was toggled an odd number of times since, from the list or from the map,
    counting what was selected before; each selected site is counted once. *)
Theorem selection_survives p es : NoDup (mkeys (rowSelection p)) -> every keeps_selection es = true ->
  (forall i, i ∈ selectedIds (run p es) <->
     xorb (bool_decide (i ∈ selectedIds p)) (Nat.odd (toggles i es)) = true) /\
  NoDup (selectedIds (run p es)) /\ selectedCount (run p es) = length (selectedIds (run p es)).
Proof.
  intros Hn Hes.
  assert (H : NoDup (mkeys (rowSelection (run p es))) /\
    forall i, chosen_in (run p es) i = xorb (chosen_in p i) (Nat.odd (toggles i es))).
  { revert p Hn Hes. induction es as [|e es IH]; intros p Hn Hes; [split; [done|intros; by rewrite xorb_false_r]|].
    cbn in Hes. apply andb_true_iff in Hes as [He Hes].
    destruct (IH (handle p e).1 (proj1 (handle_selection p e "" Hn He)) Hes) as [H1 H2]. split; [done|].
    intros i. change (run p (e :: es)) with (run (handle p e).1 es). rewrite H2.
    rewrite (proj2 (handle_selection p e i Hn He)), xorb_assoc. f_equal. unfold toggles. cbn [List.filter].
    change (match e with SiteToggled j => String.eqb j i | _ => false end) with (toggled e i).
    destruct (toggled e i); [|done]. cbn [length]. by rewrite Nat.odd_succ, <-Nat.negb_odd, xorb_true_l. }
  destruct H as [H1 H2]. split_and!.
  - intros i. rewrite selectedIds_spec, H2 by done.
    assert (E : chosen_in p i = bool_decide (i ∈ selectedIds p)); [|by rewrite E].
    destruct (chosen_in p i) eqn:E; symmetry.
    + apply bool_decide_eq_true. by apply selectedIds_spec.
    + apply bool_decide_eq_false. rewrite selectedIds_spec by done. by rewrite E.
  - by apply bfilter_NoDup.
  - by apply selected_count.
Qed.

Lemma selection_survives_witness :
  let p := toggleSelected "a" (initial TableView) in
  let es := [ViewChosen ["map"]; SiteToggled "b"; FitToScope; SiteToggled "a"; SiteToggled "c"; SiteToggled "c"] in
  (forall i, i ∈ selectedIds (run p es) <->
     xorb (bool_decide (i ∈ selectedIds p)) (Nat.odd (toggles i es)) = true) /\
  selectedIds (run p es) = ["b"].
Proof.
  cbn zeta. split; [|by vm_compute].
  apply (selection_survives (toggleSelected "a" (initial TableView))); [|reflexivity].
  repeat constructor; set_solver.
Defined.

(** "Fit to scope" after the scope changed: the list of the whole scope is
    not there yet when the map is told to fit, so it stays where it was. *)
Definition seattle : SiteRow := mkRow "pike" "Pike Place" None "n" (Some 47.6%Q) (Some (-122.3)%Q).
Definition answer (rows : list SiteRow) : Query :=
  mkQuery (Some [mkPageData rows (Some 1%Z) false None VNull]) false false false false.
Definition loading : Query := mkQuery None true false false false.
Definition props_of (i : nat) (q : Query) (p : Page) : SiteMap.Props :=
  map_props i q "https://app" None false (MapLayers.mkData None None None) MapLayers.initial [] p.
Lemma fit_to_scope_stays :
  let p0 := (handle (initial MapView) (ViewportChanged (Grid.mkViewport 0 0 10 10 4))).1 in
  let p1 := (handle p0 FitToScope).1 in
  has_fit (SiteMap.session (SiteMap.mount (props_of 1 (answer []) p0)).1
    [SiteMap.LibraryLoaded; SiteMap.StyleLoaded; SiteMap.Loaded; SiteMap.MoveStarted true;
     SiteMap.Rendered true (props_of 2 loading p1); SiteMap.Rendered true (props_of 3 (answer [seattle]) p1)]).2
  = false.
Proof. by vm_compute. Qed.
End Page_.
