(* ===== verification/Reports.v ===== *)
(** * Site reports ([apps/console/src/features/reports])

    The submission rules and calls of [api.ts], the request dialog
    ([generate-site-reports.tsx]) with its idempotency key, the choice of
    photographs ([site-photo-picker.tsx]) and the run page ([reports-page.tsx])
    with its polling.  A date is the time it reads as, in milliseconds. *)
From S2P Require Import Prelude JsString JsMap JsValue ApiClient AppLib Session SitesApi.
Import Url Client Mutations.

(** ** Submissions ([api.ts]) *)
Inductive Mode := Single | Bulk | Aggregate.
#[export] Instance Mode_eq_dec : EqDecision Mode.
Proof. solve_decision. Defined.
Definition mode_name (m : Mode) : string :=
  match m with Single => "single" | Bulk => "bulk" | Aggregate => "aggregate" end.
Record Submission := mkSubmission {
  reportType : string; mode : Mode; selection : string; siteIds : list string; options : val
}.
Definition validateSubmission (v : Submission) : result Submission :=
  if String.eqb (reportType v) "" then Throw (EMsg "Choose a report.")
  else if String.eqb (selection v) "selected" && Nat.eqb (length (siteIds v)) 0
  then Throw (EMsg "Select at least one site.")
  else if bool_decide (mode v = Single) &&
          (negb (String.eqb (selection v) "selected") || negb (Nat.eqb (length (siteIds v)) 1))
  then Throw (EMsg "A single report covers exactly one selected site.")
  else if negb (Nat.eqb (length (set_of (siteIds v))) (length (siteIds v)))
  then Throw (EMsg "Select each site only once.")
  else match options v with
       | VObj _ => Ok v
       | _ => Throw (EMsg "Report options must be an object.")
       end.
Definition submission_json (v : Submission) : val :=
  VObj [("reportType", VStr (reportType v)); ("mode", VStr (mode_name (mode v)));
        ("selection", VStr (selection v)); ("siteIds", VArr (map VStr (siteIds v))); ("options", options v)].

Definition quota_call : Call := get "/api/reports/quota" no_init.
Definition list_call : Call := get "/api/reports" no_init.
Definition run_call (id : string) : Call := get "/api/reports/{id}" (path_of [("id", VStr id)]).
Definition types_call : Call := get "/api/reports/types" no_init.
Definition report_basemaps : Call := get "/api/reports/basemaps" no_init.
Definition report_overlays : Call := get "/api/overlays" no_init.
(** The rules are checked before anything is sent. *)
Definition submit_call (v : Submission) (key : string) : result Call :=
  valid <-! validateSubmission v ;;
  Ok (api_post "/api/reports" (submission_json valid) no_init (Some key) None).
Definition cancel_call (id : string) : Call :=
  post "/api/reports/{id}/cancel" VUndef (path_of [("id", VStr id)]).
Definition retry_call (id : string) : Call :=
  post "/api/reports/{id}/retry" VUndef (path_of [("id", VStr id)]).
Definition bundle_call (id artifactId : string) : Call :=
  get "/api/reports/{id}/artifacts/{artifactId}/download"
    (path_of [("id", VStr id); ("artifactId", VStr artifactId)]).

(** ** Files ([files/api.ts]) *)
Definition files_call (offset : Z) (trash : bool) (siteId : option string) : Call :=
  get "/api/files" (query_of ([("offset", VNum (num_Z offset)); ("trash", VBool trash)] ++
    match siteId with Some s => [("siteId", VStr s)] | None => [] end ++ [("limit", VNum (num_Z 50))])).
Definition file_call (id : string) : Call :=
  get "/api/files/{id}/download" (path_of [("id", VStr id)]).
Definition hold_call (id : string) (hold : bool) : Call :=
  post "/api/files/{id}/hold" (VObj [("hold", VBool hold)]) (path_of [("id", VStr id)]).
Definition trash_call (id : string) : Call := del "/api/files/{id}" (path_of [("id", VStr id)]).
Definition restore_call (id : string) : Call :=
  post "/api/files/{id}/restore" VUndef (path_of [("id", VStr id)]).
(** The photographs of a site, a page of files at a time. *)
Definition photos_call (siteId : string) (offset : Z) : Call := files_call offset false (Some siteId).

(** ** Photographs ([site-photo-picker.tsx]) *)
Definition MAX_PHOTOS : nat := 10.
Record File := mkFile { file_id : string; file_status : string; contentType : string }.
Definition photos_of (files : list File) : list File :=
  bfilter (fun f => String.eqb (file_status f) "Clean" &&
    bool_decide (contentType f ∈ ["image/jpeg"; "image/png"])) files.
(** A capped choice: a box is disabled while the cap is reached and it is not
    chosen; otherwise a press toggles it. *)
Definition pick_disabled (cap : nat) (id : string) (chosen : list string) : bool :=
  negb (bool_decide (id ∈ chosen)) && Nat.leb cap (length chosen).
Definition pick (cap : nat) (id : string) (chosen : list string) : list string :=
  if pick_disabled cap id chosen then chosen
  else if bool_decide (id ∈ chosen) then bfilter (fun i => negb (String.eqb i id)) chosen
  else chosen ++ [id].

(** ** The request dialog ([generate-site-reports.tsx]) *)
Definition MAX_OVERLAYS : nat := 10.
Record ReportType := mkType { type_id : string; aggregate : bool }.
Record Quota := mkQuota { enabled : bool; remaining : Z }.
Record Form := mkForm {
  typeId : string; form_mode : Mode; provider : string; zoom : num; overlayIds : list string;
  photos : jsmap (list string); customOptions : string; validation : string
}.
Definition defaultMode (sites : jsmap string) : Mode :=
  if Nat.eqb (length sites) 1 then Single else Bulk.
Definition initial (sites : jsmap string) : Form :=
  mkForm "site" (defaultMode sites) "" (num_Z 14) [] [] "{}" "".
Definition find_type (types : option (list ReportType)) (id : string) : option ReportType :=
  types ≫= js_find (fun t => String.eqb (type_id t) id).
Definition is_aggregate (t : option ReportType) : bool := (aggregate <$> t) ?? false.
Definition choose_type (types : option (list ReportType)) (sites : jsmap string) (id : string) (f : Form) : Form :=
  mkForm id (if is_aggregate (find_type types id) then Aggregate else defaultMode sites)
    (provider f) (zoom f) (overlayIds f) (photos f) (customOptions f) (validation f).
(** "One site PDF" is disabled unless one site was chosen. *)
Definition choose_mode (sites : jsmap string) (m : Mode) (f : Form) : Form :=
  if bool_decide (m = Single) && negb (Nat.eqb (length sites) 1) then f
  else mkForm (typeId f) m (provider f) (zoom f) (overlayIds f) (photos f) (customOptions f) (validation f).
Definition choose_overlay (id : string) (f : Form) : Form :=
  mkForm (typeId f) (form_mode f) (provider f) (zoom f) (pick MAX_OVERLAYS id (overlayIds f))
    (photos f) (customOptions f) (validation f).
Definition choose_photo (siteId id : string) (f : Form) : Form :=
  mkForm (typeId f) (form_mode f) (provider f) (zoom f) (overlayIds f)
    (mset (photos f) siteId (pick MAX_PHOTOS id (mget (photos f) siteId ?? []))) (customOptions f) (validation f).
Definition set_validation (text : string) (f : Form) : Form :=
  mkForm (typeId f) (form_mode f) (provider f) (zoom f) (overlayIds f) (photos f) (customOptions f) text.

Definition reference (f : Form) : bool :=
  String.eqb (typeId f) "site" || String.eqb (typeId f) "sites-summary".
Definition effectiveMode (types : option (list ReportType)) (f : Form) : Mode :=
  if is_aggregate (find_type types (typeId f)) then Aggregate else form_mode f.
Definition cost (types : option (list ReportType)) (sites : jsmap string) (f : Form) : Z :=
  match effectiveMode types f with Bulk => Z.of_nat (length sites) | _ => 1 end.
Definition submit_disabled (me : option Me) (isPending : bool) (types : option (list ReportType))
    (quota : option Quota) (sites : jsmap string) (f : Form) : bool :=
  isPending || match find_type types (typeId f) with Some _ => false | None => true end ||
  negb (can me "reports:generate") ||
  match quota with
  | Some q => negb (enabled q) || (remaining q <? cost types sites f)%Z
  | None => true
  end.
Definition reference_options (types : option (list ReportType)) (sites : jsmap string) (f : Form) : val :=
  VObj ((if String.eqb (provider f) "" then [] else [("mapProvider", VStr (provider f))]) ++
    [("mapZoom", VNum (zoom f)); ("overlayIds", VArr (map VStr (overlayIds f)))] ++
    (if is_aggregate (find_type types (typeId f)) then []
     else [("photos", VObj (map (fun kv => (fst kv, VArr (map VStr (snd kv))))
            (bfilter (fun kv => mhas sites (fst kv)) (photos f))))])).
(** The message of [JSON.parse] is the runtime's. *)
Definition form_options (parse_error : string -> string) (types : option (list ReportType))
    (sites : jsmap string) (f : Form) : result val :=
  if reference f then Ok (reference_options types sites f)
  else match json_parse (customOptions f) with
       | Some v => Ok v
       | None => Throw (EMsg (parse_error (customOptions f)))
       end.
(** The submit handler: the form, and what it asks the mutation to send. *)
Definition on_submit (parse_error : string -> string) (types : option (list ReportType))
    (sites : jsmap string) (f : Form) : Form * option Submission :=
  let f := set_validation "" f in
  match form_options parse_error types sites f with
  | Throw (EMsg m) => (set_validation m f, None)
  | Throw _ => (set_validation "Check the report options." f, None)
  | Ok options =>
      match find_type types (typeId f) with
      | None => (set_validation "Choose an available report." f, None)
      | Some _ => (f, Some (mkSubmission (typeId f) (effectiveMode types f) "selected" (mkeys sites) options))
      end
  end.

(** [lastRequest]: the body sent last and its key; [uuids] are the keys the
    browser makes next. *)
Record Requests := mkRequests { lastRequest : option (string * string); made : nat }.
Section Keys.
Context (randomUUID : nat -> string).
Definition serialized (v : Submission) : string := stringify (submission_json v) ?? "".
Definition attempt (v : Submission) (r : Requests) : Requests * result Call :=
  match lastRequest r with
  | Some (body, key) =>
      if String.eqb body (serialized v) then (r, submit_call v key)
      else (mkRequests (Some (serialized v, randomUUID (made r))) (S (made r)),
            submit_call v (randomUUID (made r)))
  | None => (mkRequests (Some (serialized v, randomUUID (made r))) (S (made r)),
             submit_call v (randomUUID (made r)))
  end.
Definition accepted (r : Requests) : Requests := mkRequests None (made r).
End Keys.
Definition submit_options : Options :=
  mkOptions [["reports"; "list"]; ["reports"; "quota"]] (Some "Report request accepted") None true false.
(** What the dialog says of a refused request: the plan's limit, or the error. *)
Definition plan_text (l : ApiPlanLimit) : string :=
  match limit l with
  | None => "Your plan does not include report generation."
  | Some n => "Your plan allows " +:+ show_num n +:+ " PDFs a month and " +:+
              show_num (current l ?? n) +:+ " are used."
  end.

(** ** The run page ([reports-page.tsx]) *)
Inductive JobState := Queued | Running | Ended (name : string).
Definition active (s : JobState) : bool := match s with Queued | Running => true | Ended _ => false end.
Record Artifact := mkArtifact { artifact_id : string; artifact_type : string; fileId : option string }.
Definition publishing (a : Artifact) : bool :=
  String.eqb (artifact_type a) "application/pdf" && negb (truthy_str (fileId a)).
Record Item := mkItem { item_state : string; item_sites : list string }.
Record Job := mkJob {
  createdAt : num; state : JobState; artifacts : list Artifact; items : list Item;
  expiresAt : option num; canModify : bool
}.
Definition pollInterval (job : option Job) (now : num) : option Z :=
  match job with
  | None => None
  | Some j =>
      let age := num_sub now (createdAt j) in
      if active (state j) || (some publishing (artifacts j) && num_lt age (num_Z 300000))
      then Some (if num_lt age (num_Z 10000) then 1000 else if num_lt age (num_Z 60000) then 2000 else 5000)%Z
      else None
  end.
(** The list polls only where no run does. *)
Definition list_interval (runId : option string) (jobs : option (list Job)) : option Z :=
  match runId with
  | Some _ => None
  | None => if some (fun j => active (state j)) (jobs ?? []) then Some 2000%Z else None
  end.
(** The effect on the run's state. *)
Definition ended_effect (s : option JobState) : list (list string) :=
  match s with
  | Some s => if active s then [] else [["reports"; "list"]; ["reports"; "quota"]]
  | None => []
  end.
Definition modify (me : option Me) (j : Job) : bool := canModify j && can me "reports:generate".
Definition expired (j : Job) (now : num) : bool :=
  match expiresAt j with Some t => num_le t now | None => false end.
Definition failed (j : Job) : list Item := bfilter (fun i => String.eqb (item_state i) "Failed") (items j).
Definition cancel_shown (me : option Me) (j : Job) : bool := modify me j && active (state j).
Definition retry_shown (me : option Me) (j : Job) (now : num) : bool :=
  modify me j && negb (expired j now) && Nat.ltb 0 (length (failed j)).
Definition retry_disabled (isPending : bool) (quota : option Quota) (j : Job) : bool :=
  isPending || match quota with
               | Some q => negb (enabled q) || (remaining q <? Z.of_nat (length (failed j)))%Z
               | None => true
               end.
Definition download_disabled (isPending : bool) (j : Job) (now : num) (a : Artifact) : bool :=
  isPending || (if String.eqb (artifact_type a) "application/zip" then expired j now else publishing a).
Definition download_call (id : string) (a : Artifact) : Call :=
  match fileId a with
  | Some f => if String.eqb f "" then bundle_call id (artifact_id a) else file_call f
  | None => bundle_call id (artifact_id a)
  end.
