(* ===== verification/ReportsLaws.v ===== *)
(** * The properties of site reports

    What the dialog sends fits its own rules and the allowance it shows; a
    request keeps its key until it is answered; a run that ended is polled no
    more. *)
From S2P Require Import Prelude JsString JsMap JsValue ApiClient AppLib Session SitesApi Reports.

(** ** The dialog *)
Section Dialog.
Context (sites : jsmap string) (types : option (list ReportType)).
Inductive Choice :=
  | Type_ (id : string) | Mode_ (m : Mode) | Overlay_ (id : string) | Photo_ (siteId id : string)
  | Provider_ (p : string) | Zoom_ (z : num) | Options_ (text : string).
Definition make (f : Form) (a : Choice) : Form :=
  match a with
  | Type_ id => choose_type types sites id f
  | Mode_ m => choose_mode sites m f
  | Overlay_ id => choose_overlay id f
  | Photo_ s id => choose_photo s id f
  | Provider_ p => mkForm (typeId f) (form_mode f) p (zoom f) (overlayIds f) (photos f) (customOptions f) (validation f)
  | Zoom_ z => mkForm (typeId f) (form_mode f) (provider f) z (overlayIds f) (photos f) (customOptions f) (validation f)
  | Options_ t => mkForm (typeId f) (form_mode f) (provider f) (zoom f) (overlayIds f) (photos f) t (validation f)
  end.
Definition filled (actions : list Choice) : Form := fold_left make actions (initial sites).

Lemma pick_capped cap id l : NoDup l -> length l <= cap -> NoDup (pick cap id l) /\ length (pick cap id l) <= cap.
Proof.
  intros Hn Hl. unfold pick, pick_disabled. case_bool_decide as E; cbn [negb andb].
  - split; [by apply bfilter_NoDup|]. etransitivity; [apply bfilter_length_le|done].
  - destruct (Nat.leb_spec cap (length l)); [done|]. split.
    + apply NoDup_app. split_and!; [done|set_solver|apply NoDup_singleton].
    + rewrite length_app. simpl. lia.
Qed.
(** A pressed box that is not disabled is toggled, and nothing else. *)
Lemma pick_toggles cap id l i : pick_disabled cap id l = false ->
  i ∈ pick cap id l <-> if String.eqb i id then id ∉ l else i ∈ l.
Proof.
  intros H. unfold pick. rewrite H. destruct (String.eqb_spec i id) as [->|Hne]; case_bool_decide.
  - rewrite bfilter_elem, String.eqb_refl. naive_solver.
  - set_solver.
  - rewrite bfilter_elem, negb_true_iff, String.eqb_neq. naive_solver.
  - set_solver.
Qed.

Definition form_ok (f : Form) : Prop :=
  (form_mode f = Single -> length sites = 1) /\
  NoDup (overlayIds f) /\ length (overlayIds f) <= MAX_OVERLAYS /\
  (forall s ids, mget (photos f) s = Some ids -> NoDup ids /\ length ids <= MAX_PHOTOS).
Lemma filled_ok actions : form_ok (filled actions).
Proof.
  unfold filled. assert (H0 : form_ok (initial sites)).
  { split_and!; [|apply NoDup_nil_2|cbn; lia|done]. unfold initial, defaultMode. cbn.
    by destruct (Nat.eqb_spec (length sites) 1). }
  revert H0. generalize (initial sites) as f. induction actions as [|a actions IH]; intros f Hf; [done|].
  apply IH. destruct Hf as (H1 & H2 & H3 & H4). destruct a as [id|m|id|s id|p|z|t]; cbn [make]; try done.
  - split_and!; [|done..]. cbn. destruct (is_aggregate _); [done|]. unfold defaultMode.
    by destruct (Nat.eqb_spec (length sites) 1).
  - unfold choose_mode. case_bool_decide as E; cbn [andb].
    + destruct (Nat.eqb_spec (length sites) 1); cbn [negb]; [|done]. by split_and!.
    + by split_and!.
  - destruct (pick_capped MAX_OVERLAYS id (overlayIds f) H2 H3). by split_and!.
  - split_and!; [done..|]. cbn. intros s' ids. rewrite mget_set.
    destruct (String.eqb_spec s s') as [->|]; [intros [= <-]|apply H4].
    destruct (mget (photos f) s') as [l|] eqn:E; cbn [from_option].
    + destruct (H4 s' l E). by apply pick_capped.
    + apply pick_capped; [apply NoDup_nil_2|unfold MAX_PHOTOS; cbn; lia].
Qed.

Lemma set_of_NoDup l : NoDup l -> set_of l = l.
Proof.
  unfold set_of. assert (H : forall l acc, NoDup (acc ++ l) -> fold_left sadd l acc = acc ++ l).
  { clear l. induction l as [|x l IH]; intros acc Hn; cbn; [by rewrite app_nil_r|].
    assert (Hx : sadd acc x = acc ++ [x]).
    { unfold sadd. rewrite (proj2 (sin_false x acc)); [done|]. apply NoDup_app in Hn as (_ & Hn & _). set_solver. }
    rewrite Hx, IH; by rewrite <-app_assoc. }
  intros Hn. by apply (H l []).
Qed.
Definition pdfs (v : Submission) : Z := match mode v with Bulk => Z.of_nat (length (siteIds v)) | _ => 1 end.

(** C8: What the dialog sends keeps its own rules and its promise.  However it
    was filled in, over sites that are there once each, an enabled press of a
    standard report sends a submission the rules accept, of the sites that
    were selected; the PDFs it asks for are as many as the dialog said, and no
    more than the allowance has left; and it names at most ten overlays. *)
Theorem sent_report_is_allowed parse_error me quota actions :
  NoDup (mkeys sites) -> sites <> [] ->
  submit_disabled me false types quota sites (filled actions) = false -> reference (filled actions) = true ->
  exists v q, quota = Some q /\
    on_submit parse_error types sites (filled actions) = (set_validation "" (filled actions), Some v) /\
    validateSubmission v = Ok v /\ siteIds v = mkeys sites /\
    pdfs v = cost types sites (filled actions) /\ (pdfs v <= remaining q)%Z /\
    exists ids, prop (options v) "overlayIds" = VArr (map VStr ids) /\ length ids <= MAX_OVERLAYS.
Proof.
  intros Hn Hne Hd Hr. destruct (filled_ok actions) as (H1 & _ & H3 & _). set (f := filled actions) in *.
  unfold submit_disabled in Hd. apply orb_false_iff in Hd as [[Hd _]%orb_false_iff Hq].
  cbn [orb] in Hd. destruct (find_type types (typeId f)) as [t|] eqn:Et; [|done].
  destruct quota as [q|]; [|done]. apply orb_false_iff in Hq as [_ Hq]. apply Z.ltb_ge in Hq.
  assert (Hid : typeId f <> "").
  { intros E. unfold reference in Hr. rewrite E in Hr. done. }
  unfold on_submit, form_options. change (reference (set_validation "" f)) with (reference f). rewrite Hr.
  change (typeId (set_validation "" f)) with (typeId f). rewrite Et.
  eexists _, q. split; [done|]. split; [done|].
  assert (Hlen : length (mkeys sites) = length sites) by apply length_map.
  assert (Hsites : Nat.eqb (length (mkeys sites)) 0 = false) by (rewrite Hlen; by destruct sites).
  assert (Hmode : effectiveMode types f = Single -> length sites = 1).
  { unfold effectiveMode. destruct (is_aggregate _); [done|apply H1]. }
  split_and!.
  - unfold validateSubmission. cbn [reportType selection siteIds mode options].
    rewrite (proj2 (String.eqb_neq _ "") Hid), Hsites, String.eqb_refl, set_of_NoDup, Nat.eqb_refl by done.
    cbn [andb negb orb]. case_bool_decide as E; [|done]. cbn [andb].
    change (effectiveMode types f = Single) in E. by rewrite Hlen, (Hmode E).
  - done.
  - unfold pdfs, cost. cbn [mode siteIds]. change (effectiveMode types (set_validation "" f)) with (effectiveMode types f).
    by rewrite Hlen.
  - unfold pdfs, cost in *. cbn [mode siteIds]. change (effectiveMode types (set_validation "" f)) with (effectiveMode types f).
    by rewrite Hlen.
  - exists (overlayIds f). split; [|done]. cbn. by destruct (String.eqb (provider f) "").
Qed.
End Dialog.

Definition reporter : option Me :=
  Some (MeUser {| userId := "u1"; email := "a@acme.test"; name := None; activeOrg := Some "o1";
    organizations := []; capabilities := ["reports:generate"]; impersonationExpiresAt := None |}).
Lemma sent_report_is_allowed_witness :
  let sites := [("s1", "Pike Place"); ("s2", "Harbor")] in
  let types := Some [mkType "site" false] in
  let actions := [Overlay_ "o1"; Photo_ "s1" "p1"] in
  exists v q, Some (mkQuota true 2) = Some q /\
    on_submit (fun t => t) types sites (filled sites types actions) =
      (set_validation "" (filled sites types actions), Some v) /\
    validateSubmission v = Ok v /\ siteIds v = mkeys sites /\
    pdfs v = cost types sites (filled sites types actions) /\ (pdfs v <= remaining q)%Z /\
    exists ids, prop (options v) "overlayIds" = VArr (map VStr ids) /\ length ids <= MAX_OVERLAYS.
Proof.
  apply (sent_report_is_allowed [("s1", "Pike Place"); ("s2", "Harbor")] (Some [mkType "site" false])
    (fun t => t) reporter (Some (mkQuota true 2)) [Overlay_ "o1"; Photo_ "s1" "p1"]);
    [repeat constructor; set_solver|done|reflexivity|reflexivity].
Defined.

(** ** Keys *)
Section Keys_.
Context (randomUUID : nat -> string) (Huuid : forall a b, randomUUID a = randomUUID b -> a = b).
#[local] Opaque serialized.
Inductive Event := Sent (v : Submission) | Accepted.
Definition step (r : Requests) (e : Event) : Requests :=
  match e with Sent v => (attempt randomUUID v r).1 | Accepted => accepted r end.
Definition after (r : Requests) (es : list Event) : Requests := fold_left step es r.
(** The key an attempt goes out with. *)
Definition key_of (v : Submission) (r : Requests) : option string :=
  snd <$> lastRequest (attempt randomUUID v r).1.

Lemma pair_some {A B} {a c : A} {b d : B} : Some (a, b) = Some (c, d) -> a = c /\ b = d.
Proof. by intros [= -> ->]. Qed.
(** A key the browser made at [n] or later. *)
Definition newer (n : nat) (r : Requests) : Prop :=
  n <= made r /\ forall body key, lastRequest r = Some (body, key) -> exists k, n <= k < made r /\ key = randomUUID k.
Definition known (r : Requests) : Prop := newer 0 r.

Lemma newer_step n r e : newer n r -> newer n (step r e).
Proof.
  intros [Hm Hk]. destruct e as [v|]; [|split; [done|by intros ? ? [=]]]. cbn. unfold attempt.
  destruct (lastRequest r) as [[body key]|] eqn:E.
  - destruct (String.eqb body (serialized v)); cbn [fst].
    + split; [done|]. rewrite E. apply Hk.
    + split; [cbn; lia|]. intros b k [= <- <-]. exists (made r). cbn. split; [lia|done].
  - split; [cbn; lia|]. intros b k [= <- <-]. exists (made r). cbn. split; [lia|done].
Qed.
Lemma newer_after n r es : newer n r -> newer n (after r es).
Proof. revert r. induction es as [|e es IH]; intros r H; [done|]. by apply IH, newer_step. Qed.
Lemma attempt_last v r : exists key, lastRequest (attempt randomUUID v r).1 = Some (serialized v, key) /\
  ((lastRequest r = Some (serialized v, key) /\ (attempt randomUUID v r).1 = r) \/
   (key = randomUUID (made r) /\ made (attempt randomUUID v r).1 = S (made r) /\
    forall k, lastRequest r <> Some (serialized v, k))).
Proof.
  unfold attempt. destruct (lastRequest r) as [[body key]|] eqn:E.
  - destruct (String.eqb_spec body (serialized v)) as [->|Hne]; cbn.
    + exists key. split; [done|]. by left.
    + exists (randomUUID (made r)). split; [done|]. right. split_and!; [done..|]. by intros k [= ? _].
  - exists (randomUUID (made r)). split; [done|]. right. split_and!; [done..|]. by intros k [=].
Qed.
Definition same_as (v : Submission) (e : Event) : bool :=
  match e with Sent w => String.eqb (serialized w) (serialized v) | Accepted => false end.
Lemma same_keeps v r es : every (same_as v) es = true ->
  after (attempt randomUUID v r).1 es = (attempt randomUUID v r).1.
Proof.
  set (r1 := (attempt randomUUID v r).1). destruct (attempt_last v r) as (key & Hl & _). fold r1 in Hl.
  clearbody r1. induction es as [|e es IH]; [done|]. cbn [forallb]. intros [He Hes]%andb_true_iff.
  destruct e as [w|]; [|done]. apply String.eqb_eq in He. unfold after. cbn [fold_left step].
  assert (E : (attempt randomUUID w r1).1 = r1).
  { unfold attempt. rewrite Hl, He. by rewrite String.eqb_refl. }
  rewrite E. by apply IH.
Qed.
(** Past another body or an answer, every key is a new one. *)
Lemma other_renews v r es : known r -> every (same_as v) es = false ->
  newer (made (attempt randomUUID v r).1) (after (attempt randomUUID v r).1 es).
Proof.
  set (r1 := (attempt randomUUID v r).1). destruct (attempt_last v r) as (key & Hl & _). fold r1 in Hl.
  intros _. clearbody r1. induction es as [|e es IH]; [done|]. cbn [forallb]. intros H.
  destruct (same_as v e) eqn:He; cbn [andb] in H.
  - unfold after. cbn [fold_left]. assert (E : step r1 e = r1); [|by rewrite E; apply IH].
    destruct e as [w|]; [|done]. apply String.eqb_eq in He. cbn. unfold attempt. rewrite Hl, He.
    by rewrite String.eqb_refl.
  - unfold after. cbn [fold_left]. apply (newer_after _ (step r1 e)). destruct e as [w|]; cbn.
    + cbn in He. apply String.eqb_neq in He. unfold attempt. rewrite Hl.
      rewrite (proj2 (String.eqb_neq (serialized v) (serialized w)) (not_eq_sym He)).
      cbn. split; [cbn; lia|]. intros b k [= <- <-]. exists (made r1). cbn. split; [lia|done].
    + split; [done|]. by intros ? ? [=].
Qed.

(** C9: A report is requested once, however often it is sent.  Two sends carry
    the same idempotency key exactly when they are of the same request and
    everything sent in between was that request too, with none answered; any
    other send carries a key that was never used before. *)
Theorem same_request_same_key v w es :
  let r0 := mkRequests None 0 in
  forall before, let r := after r0 before in
  let r1 := (attempt randomUUID v r).1 in
  key_of v r = key_of w (after r1 es) <->
  every (same_as v) es = true /\ serialized w = serialized v.
Proof.
  intros r0 before r r1.
  assert (Hr : known r) by (apply newer_after; split; [done|by intros ? ? [=]]).
  destruct (attempt_last v r) as (key & Hl & Hcase). unfold key_of. fold r1 in Hl |- *. rewrite Hl. cbn [fmap option_fmap option_map snd].
  assert (Hkey : exists k, k < made r1 /\ key = randomUUID k).
  { destruct (newer_step 0 r (Sent v) Hr) as [_ H]. destruct (H _ _ Hl) as (k & Hk & ->). exists k. split; [apply Hk|done]. }
  destruct Hkey as (k & Hk & ->). destruct (every (same_as v) es) eqn:Hes.
  - pose proof (same_keeps v r es Hes) as Hk1. fold r1 in Hk1. rewrite Hk1. destruct (attempt_last w r1) as (key' & Hl' & [[H1 H2]|(H1 & H2 & H3)]).
    + rewrite H2, Hl. cbn. rewrite Hl in H1. by destruct (pair_some H1) as [-> _].
    + rewrite Hl'. cbn. split; [intros [= E]; rewrite H1 in E; apply Huuid in E; lia|].
      intros [_ E]. destruct (H3 (randomUUID k)). by rewrite Hl, E.
  - pose proof (other_renews v r es Hr Hes) as Hn. fold r1 in Hn.
    destruct (newer_step _ _ (Sent w) Hn) as [_ H]. destruct (attempt_last w (after r1 es)) as (key' & Hl' & _).
    destruct (H _ _ Hl') as (k' & Hk' & ->). rewrite Hl'. cbn. split; [|by intros [[=] _]].
    intros [= E]. apply Huuid in E. lia.
Qed.
End Keys_.
Lemma same_request_same_key_witness :
  let uuid := fun n => show_nat n in
  let v := mkSubmission "site" Single "selected" ["s1"] (VObj []) in
  let w := mkSubmission "site" Single "selected" ["s2"] (VObj []) in
  let r1 := (attempt uuid v (mkRequests None 0)).1 in
  key_of uuid v (mkRequests None 0) = key_of uuid v (after uuid r1 [Sent v]) /\
  key_of uuid v (mkRequests None 0) <> key_of uuid v (after uuid r1 [Sent w]).
Proof.
  intros uuid v w r1.
  assert (Hu : forall a b, uuid a = uuid b -> a = b) by (intros a b H; by apply (inj (stdpp.pretty.pretty (A:=nat))) in H).
  split.
  - apply (same_request_same_key uuid Hu v v [Sent v] []). split; [reflexivity|reflexivity].
  - intros H. apply (same_request_same_key uuid Hu v v [Sent w] []) in H as [H _]. by vm_compute in H.
Defined.

(** ** Polling *)
Section Polling.
(** The run as the server answers it at a time, and how long each read takes. *)
Context (answer : Z -> Job) (latency : nat -> Z) (created ended : Z).
Context (Hlat : forall n, (0 <= latency n)%Z) (Hcreated : forall t, createdAt (answer t) = num_Z created).
Context (Hended : forall t, (ended <= t)%Z -> active (state (answer t)) = false).
(** The times of the reads from [t] on; none when [fuel] runs out first. *)
Fixpoint poll (fuel n : nat) (t : Z) : option (list Z) :=
  match fuel with
  | 0 => None
  | S fuel =>
      match pollInterval (Some (answer t)) (num_Z t) with
      | None => Some [t]
      | Some d => cons t <$> poll fuel (S n) (t + d + latency n)
      end
  end.
Definition horizon : Z := Z.max ended (created + 300000).

Lemma num_sub_lt a b k : num_lt (num_sub (num_Z a) (num_Z b)) (num_Z k) = (a - b <? k)%Z.
Proof.
  unfold num_lt, num_sub, num_Z, num_le. rewrite Z.ltb_antisym. f_equal.
  unfold Qle_bool, Qminus, Qplus, Qopp, inject_Z. cbn. f_equal; lia.
Qed.
Lemma pollInterval_some t d : pollInterval (Some (answer t)) (num_Z t) = Some d -> (1000 <= d)%Z /\ (t < horizon)%Z.
Proof.
  unfold pollInterval, horizon. rewrite Hcreated, !num_sub_lt. intros H.
  destruct (active (state (answer t))) eqn:Ha; cbn [orb] in H.
  - split; [repeat case_match; injection H as <-; lia|].
    destruct (Z.le_gt_cases ended t) as [He|]; [|lia]. rewrite Hended in Ha by done. done.
  - destruct (some publishing (artifacts (answer t))); cbn [andb] in H; [|done].
    destruct (Z.ltb_spec (t - created) 300000); [|done].
    split; [repeat case_match; injection H as <-; lia|lia].
Qed.
Lemma pollInterval_none t : pollInterval (Some (answer t)) (num_Z t) = None ->
  active (state (answer t)) = false /\ (some publishing (artifacts (answer t)) = true -> (created + 300000 <= t)%Z).
Proof.
  unfold pollInterval. rewrite Hcreated, !num_sub_lt. destruct (active _); cbn [orb]; [done|].
  destruct (some publishing (artifacts (answer t))); cbn [andb]; [|done].
  destruct (Z.ltb_spec (t - created) 300000); [done|]. split; [done|lia].
Qed.

(** C36: A run is watched to its end and no longer.  Of a run that ends, the
    page makes finitely many reads, whatever each one takes: every read but
    the last comes before the run's end or within five minutes of its start,
    and the last one sees it ended, with its PDFs published unless those five
    minutes are over. *)
Theorem polling_stops t0 :
  let fuel := S (Z.to_nat ((horizon - t0) / 1000 + 1)) in
  exists before last, poll fuel 0 t0 = Some (before ++ [last]) /\
    Forall (fun t => (t < horizon)%Z) before /\ active (state (answer last)) = false /\
    (some publishing (artifacts (answer last)) = true -> (created + 300000 <= last)%Z).
Proof.
  intros fuel. enough (H : forall fuel n t, (Z.max 0 ((horizon - t) / 1000 + 1) < Z.of_nat fuel)%Z ->
    exists before last, poll fuel n t = Some (before ++ [last]) /\
      Forall (fun t => (t < horizon)%Z) before /\ active (state (answer last)) = false /\
      (some publishing (artifacts (answer last)) = true -> (created + 300000 <= last)%Z)).
  { apply H. unfold fuel. lia. }
  clear fuel. induction fuel as [|fuel IH]; intros n t Hf; [lia|]. cbn [poll].
  destruct (pollInterval _ _) as [d|] eqn:E.
  - apply pollInterval_some in E as [Hd Ht]. specialize (Hlat n).
    destruct (IH (S n) (t + d + latency n)%Z) as (before & last & H & Hb & Hl).
    { assert ((horizon - (t + d + latency n)) / 1000 + 1 <= (horizon - t) / 1000)%Z.
      { rewrite <-Z.div_add by done. apply Z.div_le_mono; lia. }
      assert (0 <= (horizon - t) / 1000)%Z by (apply Z.div_pos; lia). lia. }
    exists (t :: before), last. rewrite H. split_and!; [done|by constructor|apply Hl..].
  - exists [], t. split_and!; [done|constructor|apply (pollInterval_none t E)..].
Qed.
End Polling.

(** A run of one PDF: it ends after twelve seconds, and the file is published
    two seconds later. *)
Definition quick_run (t : Z) : Job :=
  mkJob (num_Z 0) (if (t <? 12000)%Z then Running else Ended "Succeeded")
    (if (t <? 12000)%Z then [] else [mkArtifact "a1" "application/pdf" (if (t <? 14000)%Z then None else Some "f1")])
    [] None true.
Lemma polling_stops_witness :
  (exists before last, poll quick_run (fun _ => 0%Z) 301 0 0 = Some (before ++ [last]) /\ (last = 14000)%Z) /\
  exists before last, poll quick_run (fun _ => 0%Z) (S (Z.to_nat ((horizon 0 12000 - 0) / 1000 + 1))) 0 0 = Some (before ++ [last]) /\
    Forall (fun t => (t < horizon 0 12000)%Z) before /\ active (state (quick_run last)) = false /\
    (some publishing (artifacts (quick_run last)) = true -> (0 + 300000 <= last)%Z).
Proof.
  split.
  - exists (map (fun n => Z.of_nat n * 1000)%Z (seq 0 11) ++ [12000%Z]), 14000%Z. by split; [vm_compute|].
  - apply (polling_stops quick_run (fun _ => 0%Z) 0 12000); [done|done|].
    intros t Ht. unfold quick_run. cbn [state]. by destruct (Z.ltb_spec t 12000); [lia|].
Defined.
(** A run that took over five minutes is not read again once it ended, so its
    unpublished PDFs stay disabled. *)
Lemma long_run_is_left_unpublished : forall c t,
  (300000 <= t - c)%Z ->
  let a := mkArtifact "a1" "application/pdf" None in
  let job := mkJob (num_Z c) (Ended "Succeeded") [a] [] None true in
  pollInterval (Some job) (num_Z t) = None /\ download_disabled false job (num_Z t) a = true.
Proof.
  intros c t H a job. split; [|done]. unfold pollInterval. cbn [createdAt job state active artifacts orb].
  rewrite !num_sub_lt. by destruct (Z.ltb_spec (t - c) 300000); [lia|].
Qed.
(** Only the last request keeps its key: one sent again after another request
    is a new one for the server. *)
Lemma interleaved_request_is_new :
  let v := mkSubmission "site" Single "selected" ["s1"] (VObj []) in
  let w := mkSubmission "site" Single "selected" ["s2"] (VObj []) in
  let uuid := show_nat in
  let r1 := (attempt uuid v (mkRequests None 0)).1 in
  let r2 := (attempt uuid w r1).1 in
  key_of uuid v (mkRequests None 0) = Some "0" /\ key_of uuid v r2 = Some "2".
Proof. by vm_compute. Qed.
