(* ===== verification/Roles.v ===== *)
(** * Roles ([apps/console/src/features/roles])

    Grants and their keys ([schema.ts]), their labels ([labels.ts]), the calls
    of [api.ts], the role editor ([role-editor.tsx]) and the dialogs of
    [roles-page.tsx].  [Memo] is what a table's memoised columns keep of the
    page they were made for.  [covers] and [allows] are the server's rule for
    what a role's grants let its holders do
    ([src/Modules/Premise.Modules.Identity/Access/GrantScopeResolver.cs] of the
    repository). *)
From S2P Require Import Prelude JsString JsMap JsValue ApiClient AppLib Session SitesApi.
Import Url Client Mutations.

(** [useMemo]: the value last made, and made again only when a dependency
    changed. *)
Module Memo.
Section Memo.
Context {D A : Type} `{EqDecision D}.
Definition useMemo (prev : option (D * A)) (deps : D) (make : A) : D * A :=
  match prev with
  | Some (d, a) => if decide (d = deps) then (d, a) else (deps, make)
  | None => (deps, make)
  end.
(** What each of a page's renders shows. *)
Fixpoint renders (prev : option (D * A)) (rs : list (D * A)) : list A :=
  match rs with
  | [] => []
  | (deps, make) :: rs' => let m := useMemo prev deps make in m.2 :: renders (Some m) rs'
  end.
End Memo.
End Memo.

Module Roles.
(** ** Grants ([schema.ts]) *)
Definition GRANTABLE : list string :=
  bfilter (fun c => negb (String.eqb c "public:read") && negb (String.eqb c "platform:operate")) CAPABILITIES.
Record Grant := mkGrant { domain : string; action : string }.
Definition grantKey (g : Grant) : string := domain g +:+ ":" +:+ action g.
Definition parseGrant (value : string) : result Grant :=
  match split_char ":" value with
  | [d; a] => if String.eqb d "" || String.eqb a "" then Throw (EMsg "invalid capability") else Ok (mkGrant d a)
  | _ => Throw (EMsg "invalid capability")
  end.
Definition grant_json (g : Grant) : val := VObj [("domain", VStr (domain g)); ("action", VStr (action g))].

(** ** Labels ([labels.ts]) *)
Definition CAPABILITY_LABELS : jsmap (string * string) := [
  ("public:read", ("See public site info", "Sites")); ("sites:read", ("See sites", "Sites"));
  ("sites:manage", ("Manage sites", "Sites")); ("hierarchy:manage", ("Manage the hierarchy", "Sites"));
  ("ingest:manage", ("Bulk-load sites", "Sites")); ("reports:generate", ("Generate reports", "Reports"));
  ("overlays:read", ("See map overlays", "Map")); ("overlays:manage", ("Manage map overlays", "Map"));
  ("checklists:complete", ("Complete checklists", "Checklists"));
  ("checklists:manage", ("Manage checklist templates", "Checklists"));
  ("files:read", ("See files", "Files")); ("files:manage", ("Manage files", "Files"));
  ("audit:read", ("Read the audit log", "Audit")); ("audit:manage", ("Manage audit settings", "Audit"));
  ("roles:manage", ("Manage roles and members", "Organization"));
  ("entitlements:manage", ("Manage the plan", "Organization"));
  ("org:manage", ("Manage organization settings", "Organization"));
  ("platform:operate", ("Operate the platform", "Platform"))].
Definition CAPABILITY_GROUPS : list string :=
  ["Sites"; "Checklists"; "Files"; "Reports"; "Map"; "Audit"; "Organization"].
Definition WILDCARD : string := "*:*".
Definition capabilityLabel (key : string) : string :=
  if String.eqb key WILDCARD then "Everything" else (fst <$> mget CAPABILITY_LABELS key) ?? key.

(** ** The calls ([api.ts]) *)
Definition list_roles : Call := get "/api/roles" no_init.
Definition role_members : Call := get "/api/members" (query_of [("limit", VNum (num_Z 200))]).
Definition grants_body (name : string) (grants : list Grant) : val :=
  VObj [("name", VStr name); ("grants", VArr (map grant_json grants))].
Definition save_role (id : option string) (name : string) (grants : list Grant) : Call :=
  match id with
  | Some i => if String.eqb i "" then post "/api/roles" (grants_body name grants) no_init
              else api_put "/api/roles/{id}" (grants_body name grants) (path_of [("id", VStr i)]) None None
  | None => post "/api/roles" (grants_body name grants) no_init
  end.
Definition remove_role (id : string) : Call := del "/api/roles/{id}" (path_of [("id", VStr id)]).
Definition assign_role (roleId userId : string) (scopePath : option string) : Call :=
  post "/api/roles/{id}/assign" (VObj [("userId", VStr userId); ("scopePath", or_null scopePath)])
    (path_of [("id", VStr roleId)]).
Definition list_exceptions : Call := get "/api/grant-exceptions" no_init.
Definition addException (userId domain action reason expiresAt : string) (scopePath : option string) : Call :=
  post "/api/grant-exceptions" (VObj [("userId", VStr userId); ("domain", VStr domain); ("action", VStr action);
    ("reason", VStr reason); ("expiresAt", VStr expiresAt); ("scopePath", or_null scopePath)]) no_init.
Definition removeException (id : string) : Call :=
  del "/api/grant-exceptions/{id}" (path_of [("id", VStr id)]).

(** ** The editor ([role-editor.tsx]) *)
Record Role := mkRole { role_id : string; role_name : string; grants : list Grant }.
Record Editor := mkEditor { name : string; picked : jsset }.
Definition open_editor (role : option Role) : Editor :=
  mkEditor ((role_name <$> role) ?? "") (set_of ((map grantKey ∘ grants <$> role) ?? [])).
Definition toggle (key : string) (e : Editor) : Editor :=
  mkEditor (name e) (if sin key (picked e) then sdel (picked e) key else sadd (picked e) key).
Definition everything (e : Editor) : bool := sin WILDCARD (picked e).
(** The boxes, by group, and each one's state: checked, disabled. *)
Definition group_of (c : string) : option string := snd <$> mget CAPABILITY_LABELS c.
Definition keys_of (group : string) : list string :=
  bfilter (fun c => bool_decide (group_of c = Some group)) GRANTABLE.
Definition shown_boxes : list (string * list string) :=
  bfilter (fun g => negb (Nat.eqb (length (snd g)) 0)) (map (fun g => (g, keys_of g)) CAPABILITY_GROUPS).
Definition checked (c : string) (e : Editor) : bool := everything e || sin c (picked e).
Definition press_box (c : string) (e : Editor) : Editor := if everything e then e else toggle c e.
Definition press_everything (e : Editor) : Editor := toggle WILDCARD e.
Definition save_disabled (isPending : bool) (e : Editor) : bool :=
  String.eqb (trim (name e)) "" || Nat.eqb (length (picked e)) 0 || isPending.
(** The first key that is no grant throws, and nothing is sent. *)
Fixpoint parse_all (keys : list string) : result (list Grant) :=
  match keys with
  | [] => Ok []
  | k :: rest => g <-! parseGrant k ;; gs <-! parse_all rest ;; Ok (g :: gs)
  end.
Definition save_call (role : option Role) (e : Editor) : result Call :=
  gs <-! parse_all (picked e) ;; Ok (save_role (role_id <$> role) (trim (name e)) gs).
Definition save_options : Options := mkOptions [["roles"]] (Some "Role saved") (Some "Save failed") true false.

(** ** What a grant covers: the server's [GrantScopeResolver.cs] *)
(** [Split]: at the first colon; without one, the verb is the wildcard. *)
Definition Split (capability : string) : string * string :=
  match split_char ":" capability with
  | d :: v :: rest => (d, join ":" (v :: rest))
  | _ => (capability, "*")
  end.
(** The [where] clause: ["*"] stands for either part. *)
Definition covers (g : Grant) (capability : string) : bool :=
  let '(d, verb) := Split capability in
  (String.eqb (domain g) d || String.eqb (domain g) "*") &&
  (String.eqb (action g) verb || String.eqb (action g) "*").
(** Whether a role of these grants gives it to a member assigned the role over
    the whole organization. *)
Definition allows (gs : list Grant) (capability : string) : bool :=
  some (fun g => covers g capability) gs.

(** ** The page ([roles-page.tsx]) *)
Definition remove_options : Options := mkOptions [["roles"]] (Some "Role deleted") (Some "Delete failed") false false.
Record Assign := mkAssign { a_open : bool; a_role : string; a_user : string; a_scope : string }.
Definition assign_disabled (isPending : bool) (a : Assign) : bool :=
  String.eqb (a_role a) "" || String.eqb (a_user a) "" || isPending.
Definition assign_call (a : Assign) : Call := assign_role (a_role a) (a_user a) (SitesApi.non_empty (Some (a_scope a))).
(** The role is kept for the next assignment, the member and scope are not. *)
Definition assigned (a : Assign) : Assign := mkAssign false (a_role a) "" "".

Record Exc := mkExc {
  e_open : bool; e_user : string; e_capability : string; e_reason : string; e_days : string; e_scope : string
}.
Definition initial_exc : Exc := mkExc false "" "" "" "7" "".
Definition grant_disabled (isPending : bool) (e : Exc) : bool :=
  String.eqb (e_user e) "" || String.eqb (e_capability e) "" || String.eqb (trim (e_reason e)) "" ||
  negb (truthy (VNum (to_number (e_days e)))) || isPending.
Definition granted (e : Exc) : Exc := mkExc false "" "" "" (e_days e) (e_scope e).
(** [toISOString] throws outside the range of a date, a hundred million days
    around the epoch; the fraction of a millisecond is cut off. *)
Definition iso_year (y : Z) : string :=
  if ((0 <=? y) && (y <=? 9999))%Z then pad_left 4 (show_Z y)
  else (if (y <? 0)%Z then "-" else "+") +:+ pad_left 6 (show_Z (Z.abs y)).
Definition iso_time (ms : Z) : string :=
  let '(y, m, d) := Small.civil (ms / 86400000) in
  let t := (ms mod 86400000)%Z in
  let two n := pad_left 2 (show_Z n) in
  iso_year y +:+ "-" +:+ two m +:+ "-" +:+ two d +:+ "T" +:+ two (t / 3600000)%Z +:+ ":" +:+
  two (t / 60000 mod 60)%Z +:+ ":" +:+ two (t / 1000 mod 60)%Z +:+ "." +:+ pad_left 3 (show_Z (t mod 1000)) +:+ "Z".
Definition MAX_TIME : Q := inject_Z 8640000000000000.
Definition toISOString (t : num) : result string :=
  match t with
  | Fin q => if Qle_bool (- MAX_TIME) q && Qle_bool q MAX_TIME
             then Ok (iso_time (Z.quot (Qnum q) (Z.pos (Qden q)))) else Throw (EMsg "Invalid time value")
  | _ => Throw (EMsg "Invalid time value")
  end.
Definition expiry (now : Z) (days : string) : num :=
  match to_number days with Fin d => Fin (inject_Z now + d * inject_Z 86400000) | n => n end.
Definition grant_call (now : Z) (e : Exc) : result Call :=
  g <-! parseGrant (e_capability e) ;;
  expiresAt <-! toISOString (expiry now (e_days e)) ;;
  Ok (addException (e_user e) (domain g) (action g) (trim (e_reason e)) expiresAt (SitesApi.non_empty (Some (e_scope e)))).
(** The option of a node in a scope list. *)
Definition scope_option (depth : nat) (name : string) : string :=
  String.concat "" (repeat " " (depth * 2)) +:+ name +:+ " subtree".
(** The delete button of a row: its columns were made with no dependencies, so
    it is disabled by the [isPending] of the first render. *)
Definition delete_disabled (pending : list bool) : list bool :=
  Memo.renders None (map (fun p => (tt, p)) pending).
End Roles.

Example a_week_of_exception :
  Roles.toISOString (Roles.expiry 1709251200123 "7") = Ok "2024-03-08T00:00:00.123Z" /\
  Roles.toISOString (Roles.expiry 0 "-0.5") = Ok "1969-12-31T12:00:00.000Z" /\
  Roles.toISOString (Roles.expiry 1709251200123 "1e12") = Throw (EMsg "Invalid time value").
Proof. by vm_compute. Qed.

(** * The properties of roles

    A grant reads back from its key; the editor offers every grantable
    capability once and saves what its boxes show. *)
Import Roles.

#[local] Ltac by_computing := match goal with |- ?P => apply (bool_decide_unpack P); vm_compute; exact I end.

(** A grant the API can name. *)
Definition wf_part (s : string) : Prop := s <> "" /\ lacks ":" s.
Definition wf_grant (g : Grant) : Prop := wf_part (domain g) /\ wf_part (action g).

Lemma parse_grantKey g : wf_grant g -> parseGrant (grantKey g) = Ok g.
Proof.
  destruct g as [d a]. intros [[Hd Ld] [Ha La]]. cbn in *. unfold parseGrant, grantKey. cbn [domain action].
  change (d +:+ ":" +:+ a) with (d +:+ String ":" a).
  rewrite split_char_app, split_char_lacks by done.
  by rewrite (proj2 (String.eqb_neq d "") Hd), (proj2 (String.eqb_neq a "") Ha).
Qed.
Lemma parse_ok k g : parseGrant k = Ok g -> grantKey g = k.
Proof.
  unfold parseGrant. destruct (split_char ":" k) as [|d [|a [|b l]]] eqn:E; [done|done| |done].
  destruct (_ || _); [done|]. intros [= <-]. unfold grantKey. cbn [domain action].
  pose proof (join_split ":" k) as H. rewrite E in H. rewrite <- H. done.
Qed.
Lemma parse_all_ok keys : Forall (fun k => exists g, parseGrant k = Ok g) keys ->
  exists gs, parse_all keys = Ok gs /\ map grantKey gs = keys.
Proof.
  induction 1 as [|k keys [g Hg] _ (gs & Hgs & Hk)]; [by exists []|].
  exists (g :: gs). cbn. rewrite Hg. cbn. rewrite Hgs. split; [done|]. cbn. by rewrite (parse_ok k g Hg), Hk.
Qed.

Lemma parse_all_parses keys gs : parse_all keys = Ok gs ->
  Forall (fun g => parseGrant (grantKey g) = Ok g) gs.
Proof.
  revert gs. induction keys as [|k keys IH]; intros gs; cbn; [intros [= <-]; constructor|].
  destruct (parseGrant k) as [g|] eqn:E; [|done]. cbn.
  destruct (parse_all keys) as [gs'|]; [|done]. cbn. intros [= <-].
  constructor; [|by apply IH]. by rewrite (parse_ok _ _ E).
Qed.
Lemma same_key_same_grant g g' : parseGrant (grantKey g) = Ok g -> parseGrant (grantKey g') = Ok g' ->
  grantKey g = grantKey g' -> g = g'.
Proof. congruence. Qed.

(** A grantable capability is granted by its own key and, of the other keys
    with boxes, by "Everything" alone. *)
Lemma boxed_covers : Forall (fun k => Forall (fun c =>
    match parseGrant k with
    | Ok g => Bool.eqb (covers g c) (String.eqb k c || String.eqb k WILDCARD)
    | Throw _ => false
    end = true) GRANTABLE) (WILDCARD :: GRANTABLE).
Proof. by_computing. Qed.
Lemma boxed_covers_iff g c : grantKey g = WILDCARD \/ grantKey g ∈ GRANTABLE -> c ∈ GRANTABLE ->
  parseGrant (grantKey g) = Ok g -> covers g c = true <-> grantKey g = c \/ grantKey g = WILDCARD.
Proof.
  intros Hk Hc Hp. pose proof boxed_covers as H. rewrite Forall_forall in H.
  assert (Hin : grantKey g ∈ WILDCARD :: GRANTABLE)
    by (destruct Hk as [->|Hk]; [by left|by right]).
  specialize (H _ Hin). rewrite Forall_forall in H. specialize (H c Hc). rewrite Hp in H.
  apply Bool.eqb_prop in H as ->. by rewrite orb_true_iff, !String.eqb_eq.
Qed.

(** Every grantable capability has a box of its own. *)
Lemma boxes_are_the_grantable : Permutation (concat (map snd shown_boxes)) GRANTABLE.
Proof.
  apply NoDup_Permutation.
  - by_computing.
  - by_computing.
  - assert (H1 : Forall (fun c => c ∈ GRANTABLE) (concat (map snd shown_boxes))) by by_computing.
    assert (H2 : Forall (fun c => c ∈ concat (map snd shown_boxes)) GRANTABLE) by by_computing.
    rewrite Forall_forall in H1, H2. naive_solver.
Qed.

(** ** The editor *)
Inductive Press := Box (c : string) | Everything | Name (text : string).
Definition press (e : Editor) (p : Press) : Editor :=
  match p with
  | Box c => press_box c e
  | Everything => press_everything e
  | Name t => mkEditor t (picked e)
  end.
Definition offered (p : Press) : Prop := match p with Box c => c ∈ GRANTABLE | _ => True end.
Definition edited (role : option Role) (ps : list Press) : Editor := fold_left press ps (open_editor role).
Definition held (role : option Role) : list Grant := (grants <$> role) ?? [].

Definition sound (role : option Role) (e : Editor) : Prop :=
  NoDup (picked e) /\ Forall (fun k => exists g, parseGrant k = Ok g) (picked e) /\
  forall k, k ∉ GRANTABLE -> k <> WILDCARD -> k ∈ picked e <-> k ∈ map grantKey (held role).
Lemma set_of_elem x l : x ∈ set_of l <-> x ∈ l.
Proof.
  unfold set_of. assert (H : forall l acc, x ∈ fold_left sadd l acc <-> x ∈ acc \/ x ∈ l).
  { clear l. induction l as [|y l IH]; intros acc; cbn; [set_solver|]. rewrite IH, sadd_elem. set_solver. }
  rewrite H. set_solver.
Qed.
Lemma set_of_nodup l : NoDup (set_of l).
Proof.
  unfold set_of. assert (H : forall l acc, NoDup acc -> NoDup (fold_left sadd l acc)).
  { clear l. induction l as [|y l IH]; intros acc Hn; [done|]. by apply IH, sadd_NoDup. }
  apply H, NoDup_nil_2.
Qed.
Lemma toggle_sound role key e : sound role e -> (exists g, parseGrant key = Ok g) ->
  key ∈ GRANTABLE \/ key = WILDCARD -> sound role (toggle key e).
Proof.
  intros (Hn & Hp & Hk) Hg Hkey. unfold sound, toggle. cbn [picked]. destruct (sin key (picked e)) eqn:E.
  - split_and!; [by apply sdel_NoDup| |].
    + rewrite Forall_forall in Hp |- *. intros k Hin. apply sdel_elem in Hin as [_ Hin]; [|done]. by apply Hp.
    + intros k H1 H2. rewrite sdel_elem, <- (Hk k H1 H2) by done. naive_solver.
  - split_and!; [by apply sadd_NoDup| |].
    + rewrite Forall_forall in Hp |- *. intros k Hin. apply sadd_elem in Hin as [->|Hin]; [done|]. by apply Hp.
    + intros k H1 H2. rewrite sadd_elem, <- (Hk k H1 H2). naive_solver.
Qed.
Lemma grantable_parses : Forall (fun k => match parseGrant k with Ok _ => true | _ => false end = true) (WILDCARD :: GRANTABLE).
Proof. by_computing. Qed.
Lemma edited_sound role ps : Forall wf_grant (held role) -> Forall offered ps -> sound role (edited role ps).
Proof.
  intros Hw Hps. unfold edited.
  assert (H0 : sound role (open_editor role)).
  { unfold open_editor, sound. cbn [picked]. assert (E : (map grantKey ∘ grants <$> role) ?? [] = map grantKey (held role)) by by destruct role.
    rewrite E. split_and!; [apply set_of_nodup| |intros; apply set_of_elem].
    apply Forall_forall. intros k Hk. rewrite set_of_elem in Hk. apply list_elem_of_fmap in Hk as (g & -> & Hg).
    exists g. apply parse_grantKey. by eapply Forall_forall in Hw. }
  revert H0. generalize (open_editor role) as e. induction Hps as [|p ps Hp _ IH]; intros e He; [done|].
  apply IH. pose proof grantable_parses as Hg. rewrite Forall_forall in Hg.
  assert (Hparse : forall k, k = WILDCARD \/ k ∈ GRANTABLE -> exists g, parseGrant k = Ok g).
  { intros k Hk. specialize (Hg k). destruct (parseGrant k) as [g|]; [by exists g|]. discriminate Hg.
    destruct Hk as [->|Hk]; [by left|by right]. }
  destruct p as [c| |t]; cbn [press].
  - unfold press_box. destruct (everything e); [done|]. apply toggle_sound; [done|apply Hparse; by right|by left].
  - apply toggle_sound; [done|apply Hparse; by left|by right].
  - done.
Qed.

(** What the saved keys let the holders do, box by box. *)
Lemma saved_allows role e gs c : Forall wf_grant (held role) -> sound role e ->
  parse_all (picked e) = Ok gs -> map grantKey gs = picked e -> c ∈ GRANTABLE ->
  allows gs c = true <-> checked c e = true \/
    exists g, g ∈ held role /\ grantKey g ∉ GRANTABLE /\ grantKey g <> WILDCARD /\ covers g c = true.
Proof.
  intros Hw (_ & _ & Hk) Hgs Hkeys Hc. pose proof (parse_all_parses _ _ Hgs) as Hp.
  rewrite Forall_forall in Hp.
  assert (Hheld : forall g, g ∈ held role -> parseGrant (grantKey g) = Ok g)
    by (intros g Hg; apply parse_grantKey; by eapply Forall_forall in Hw).
  assert (Hin : forall k, k ∈ picked e -> exists g, g ∈ gs /\ grantKey g = k)
    by (intros k; rewrite <- Hkeys; intros (g & -> & Hg)%list_elem_of_fmap; by exists g).
  assert (Hout : forall g, g ∈ gs -> grantKey g ∈ picked e)
    by (intros g Hg; rewrite <- Hkeys; by apply list_elem_of_fmap_2).
  unfold allows. rewrite existsb_exists. unfold checked, everything. rewrite orb_true_iff, !sin_elem.
  split.
  - intros (g & Hg%list_elem_of_In & Hcov). pose proof (Hout g Hg) as Hpick.
    destruct (decide (grantKey g = WILDCARD \/ grantKey g ∈ GRANTABLE)) as [Hb|Hb].
    + left. apply boxed_covers_iff in Hcov as [E|E]; [rewrite <- E; by right|rewrite <- E; by left|done|done|by apply Hp].
    + assert (Hb1 : grantKey g <> WILDCARD) by tauto. assert (Hb2 : grantKey g ∉ GRANTABLE) by tauto. right.
      apply Hk in Hpick as (g' & Ek & Hg')%list_elem_of_fmap; [|done..].
      assert (g = g') as <- by (eapply same_key_same_grant; [by apply Hp|by apply Hheld|done]).
      by exists g.
  - intros [[Hi|Hi]|(g & Hg & H1 & H2 & Hcov)].
    + destruct (Hin _ Hi) as (g & Hg & Ek). exists g. split; [by apply list_elem_of_In|].
      apply boxed_covers_iff; [by left|done|by apply Hp|by right].
    + destruct (Hin _ Hi) as (g & Hg & Ek). exists g. split; [by apply list_elem_of_In|].
      apply boxed_covers_iff; [right; by rewrite Ek|done|by apply Hp|by left].
    + assert (Hi : grantKey g ∈ picked e) by (apply Hk; [done|done|by apply list_elem_of_fmap_2]).
      destruct (Hin _ Hi) as (g' & Hg' & Ek). exists g'. split; [by apply list_elem_of_In|].
      by rewrite (same_key_same_grant g' g (Hp _ Hg') (Hheld _ Hg) Ek).
Qed.

(** C14: The role editor saves what it shows.  Whatever boxes were pressed, the
    grants it sends are well-formed, each once.  Under the server's rule, in
    which "*" stands for either part of a grant, they let the role's holders do
    a grantable capability (over the whole organization, where the role is
    assigned there) exactly when its box, or "Everything", is checked, or when a grant the role came with that has no box (such as "sites:*")
    covers it; and every grant without a box goes back as it came, and no
    other is added. *)
Theorem saved_role_grants_what_is_checked role ps :
  Forall wf_grant (held role) -> Forall offered ps ->
  let e := edited role ps in
  exists gs, save_call role e = Ok (save_role (role_id <$> role) (trim (name e)) gs) /\
    NoDup gs /\
    (forall c, c ∈ GRANTABLE -> allows gs c = true <-> checked c e = true \/
       exists g, g ∈ held role /\ grantKey g ∉ GRANTABLE /\ grantKey g <> WILDCARD /\
         covers g c = true) /\
    forall k, k ∉ GRANTABLE -> k <> WILDCARD -> k ∈ map grantKey gs <-> k ∈ map grantKey (held role).
Proof.
  intros Hw Hps e. pose proof (edited_sound role ps Hw Hps) as He. fold e in He.
  pose proof He as (Hn & Hp & Hk).
  destruct (parse_all_ok _ Hp) as (gs & Hgs & Hkeys). exists gs. unfold save_call. rewrite Hgs.
  split_and!; [done| | |].
  - apply (NoDup_fmap_1 grantKey). by rewrite <- Hkeys in Hn.
  - intros c Hc. by apply saved_allows.
  - by rewrite Hkeys.
Qed.
Lemma saved_role_grants_what_is_checked_witness :
  let role := Some (mkRole "r1" "Manager" [mkGrant "sites" "*"; mkGrant "public" "read"]) in
  let ps := [Box "files:read"; Box "roles:manage"; Name " Regional "] in
  let e := edited role ps in
  trim (name e) = "Regional" /\
  exists gs, save_call role e = Ok (save_role (role_id <$> role) (trim (name e)) gs) /\
    NoDup gs /\
    (forall c, c ∈ GRANTABLE -> allows gs c = true <-> checked c e = true \/
       exists g, g ∈ held role /\ grantKey g ∉ GRANTABLE /\ grantKey g <> WILDCARD /\
         covers g c = true) /\
    forall k, k ∉ GRANTABLE -> k <> WILDCARD -> k ∈ map grantKey gs <-> k ∈ map grantKey (held role).
Proof.
  intros role ps e. split; [vm_compute; reflexivity|].
  refine (saved_role_grants_what_is_checked role ps _ _).
  - repeat constructor; done.
  - unfold ps. rewrite !Forall_cons. cbn [offered].
    split_and!; [by_computing|by_computing|exact I|constructor].
Defined.

(** A role saved as it was opened keeps its grants, in their order. *)
Lemma untouched_role_keeps_grants r : Forall wf_grant (grants r) -> NoDup (map grantKey (grants r)) ->
  save_call (Some r) (open_editor (Some r)) = Ok (save_role (Some (role_id r)) (trim (role_name r)) (grants r)).
Proof.
  intros Hw Hn. unfold save_call, open_editor. cbn [picked name fmap option_fmap option_map from_option compose].
  assert (E : set_of (map grantKey (grants r)) = map grantKey (grants r)).
  { unfold set_of. enough (H : forall l acc, NoDup (acc ++ l) -> fold_left sadd l acc = acc ++ l) by by apply (H _ []).
    induction l as [|x l IH]; intros acc Ha; cbn; [by rewrite app_nil_r|].
    assert (Hx : sadd acc x = acc ++ [x]).
    { unfold sadd. rewrite (proj2 (sin_false x acc)); [done|]. apply NoDup_app in Ha as (_ & Ha & _). set_solver. }
    rewrite Hx, IH; by rewrite <- app_assoc. }
  rewrite E. clear E Hn. assert (E : parse_all (map grantKey (grants r)) = Ok (grants r)).
  { induction Hw as [|g gs Hg _ IH]; [done|]. cbn. rewrite parse_grantKey by done. cbn. by rewrite IH. }
  by rewrite E.
Qed.

(** ** What the modelling showed *)
(** A role that came with a grant of a whole domain: its boxes are unchecked,
    yet its holders may do what they deny, before and after a save. *)
Lemma half_wildcard_is_unchecked :
  let role := Some (mkRole "r1" "Manager" [mkGrant "sites" "*"]) in
  let e := open_editor role in
  everything e = false /\ checked "sites:read" e = false /\ checked "sites:manage" e = false /\
  exists gs, parse_all (picked e) = Ok gs /\ allows gs "sites:read" = true /\
    allows gs "sites:manage" = true.
Proof. vm_compute. split_and!; [done..|]. by eexists. Qed.

(** The columns of a table made with no dependencies keep the [isPending] of
    the page's first render: the button of a row is never disabled while its
    mutation runs. *)
Lemma stale_guard_never_disables pending : Forall (fun d => d = false) (delete_disabled (false :: pending)).
Proof.
  unfold delete_disabled. cbn [map Memo.renders Memo.useMemo snd]. constructor; [done|].
  induction pending as [|p ps IH]; [constructor|]. cbn [map Memo.renders Memo.useMemo]. rewrite decide_True by done.
  by constructor.
Qed.
(** Days below one pass the guard: the exception has expired when it is made. *)
Lemma expired_exception_passes :
  let e := mkExc true "u1" "sites:read" "cover" "-3" "" in
  grant_disabled false e = false /\ expiry 0 (e_days e) = num_Z (-259200000).
Proof. by vm_compute. Qed.
(** A granted exception clears the form but its scope and its days. *)
Lemma scope_outlives_the_exception e : e_scope (granted e) = e_scope e /\ e_days (granted e) = e_days e.
Proof. done. Qed.
