(* ===== verification/Overlays.v ===== *)
(** * Map overlays ([apps/console/src/features/overlays])

    The calls of [api.ts], the list of the page under the shell's scope, the
    dialog that makes a layer - two requests behind one button, under the
    retry of [useApiMutation] - and the one that uploads shapes
    ([overlays-page.tsx]). *)
From S2P Require Import Prelude JsString JsMap JsValue ApiClient AppLib SitesApi.
Import Url Client Mutations.

Module Overlays.
(** ** The calls ([api.ts], [hooks.ts]) *)
Definition list_overlays (deleted : bool) : Call :=
  get "/api/overlays" (query_of [("deleted", if deleted then VBool true else VUndef)]).
Definition create_layer (name kind fill : string) (nodeId : option string) : Call :=
  post "/api/overlays" (VObj [("name", VStr name); ("kind", VStr kind);
    ("style", VObj [("fill", VStr fill); ("opacity", VNum (Fin (1 # 5)))]); ("nodeId", or_null nodeId)]) no_init.
Definition update_layer (id : string) (body : val) : Call :=
  post "/api/overlays/{id}" body (path_of [("id", VStr id)]).
Definition replaceFeatures (id : string) (geoJson : val) : Call :=
  api_put "/api/overlays/{id}/features" (VObj [("geoJson", geoJson)]) (path_of [("id", VStr id)]) None None.
Definition remove_layer (id : string) : Call := del "/api/overlays/{id}" (path_of [("id", VStr id)]).
Definition restore_layer (id : string) : Call :=
  post "/api/overlays/{id}/restore" VUndef (path_of [("id", VStr id)]).
Definition tiles (origin id : string) : string :=
  origin +:+ "/api/tiles/overlays/" +:+ id +:+ "/{z}/{x}/{y}".
Definition overlays_key (deleted : bool) : list val := [VStr "overlays"; VBool deleted].

(** ** The page *)
Definition DEFAULT_FILL : string := "#7c6cf0".
Definition KINDS : list string := ["territory"; "zone"; "region"; "trade area"].
Definition fillOf (style : val) : string :=
  match prop style "fill" with VStr s => s | _ => DEFAULT_FILL end.
Record Layer := mkLayer { layer_id : string; layer_name : string; layer_node : option string; featureCount : Z }.
Definition scopePath (pathOf : jsmap string) (nodeId : option string) : option string :=
  if truthy_str nodeId then nodeId ≫= mget pathOf else None.
Definition underScope (pathOf : jsmap string) (nodeId : option string) (l : Layer) : bool :=
  match scopePath pathOf nodeId with
  | None => true
  | Some s =>
      if String.eqb s "" then true
      else if negb (truthy_str (layer_node l)) then true
      else match mget pathOf (layer_node l ?? "") with
           | None => false
           | Some anchor => String.eqb anchor s || starts_with (s +:+ ".") anchor
           end
  end.
Definition layers (pathOf : jsmap string) (nodeId : option string) (data : option (list Layer)) : list Layer :=
  bfilter (underScope pathOf nodeId) (data ?? []).
Inductive Tab := Active | Trash.
Definition set_tab (next : list string) (t : Tab) : Tab :=
  match head next with
  | Some k => if String.eqb k "active" then Active else if String.eqb k "trash" then Trash else t
  | None => t
  end.
Definition empty_title (t : Tab) (scope : option string) : string :=
  match t with
  | Trash => "The trash is empty"
  | Active => if truthy_str scope then "No overlay layers under this scope" else "No overlay layers yet"
  end.
Definition plural (n : Z) : string := if (n =? 1)%Z then "" else "s".
Definition count_text (l : Layer) : string :=
  if (featureCount l =? 0)%Z then "no shapes yet" else show_Z (featureCount l) +:+ " shape" +:+ plural (featureCount l).
Definition footer (t : Tab) (data : option (list Layer)) (shown : list Layer) : string :=
  match data with
  | Some _ => show_nat (length shown) +:+ " " +:+ match t with Trash => "in the trash" | Active => "in scope" end
  | None => ""
  end.
Definition remove_options : Options := mkOptions [["overlays"]] (Some "Layer moved to the trash") None false false.
Definition restore_options : Options := mkOptions [["overlays"]] (Some "Layer restored") None false false.

(** ** A new layer ([NewLayerDialog]) *)
Record New := mkNew {
  n_open : bool; n_name : string; n_kind : string; n_fill : string; n_node : string;
  n_shapes : option (string * val); n_problem : option string
}.
(** The anchor is the scope the page was mounted under. *)
Definition mount_new (scope : option string) : New :=
  mkNew false "" "territory" DEFAULT_FILL (scope ?? "") None None.
Definition create_disabled (isPending : bool) (n : New) : bool := String.eqb (trim (n_name n)) "" || isPending.
(** [pick]: the problem is cleared at once, the file is read later. *)
Definition picked_file (n : New) : New :=
  mkNew (n_open n) (n_name n) (n_kind n) (n_fill n) (n_node n) (n_shapes n) None.
Definition read_file (fileName : string) (text : option string) (n : New) : New :=
  match text ≫= json_parse with
  | Some v => mkNew (n_open n) (n_name n) (n_kind n) (n_fill n) (n_node n) (Some (fileName, v)) (n_problem n)
  | None => mkNew (n_open n) (n_name n) (n_kind n) (n_fill n) (n_node n) None
              (Some (fileName +:+ " is not valid GeoJSON."))
  end.
Section Create.
(** A server: what it answers to a call, and its state after it. *)
Context {S : Type} (send : S -> Call -> result val * S).
(** One attempt of the mutation: the calls it made and how it ended. *)
Definition create_attempt (n : New) (s : S) : list Call * result val * S :=
  let c := create_layer (n_name n) (n_kind n) (n_fill n) (SitesApi.non_empty (Some (n_node n))) in
  match send s c with
  | (Throw e, s) => ([c], Throw e, s)
  | (Ok layer, s) =>
      match n_shapes n with
      | None => ([c], Ok (VObj [("count", VNum (num_Z 0))]), s)
      | Some (_, geoJson) =>
          let r := replaceFeatures (js_String (prop layer "id")) geoJson in
          let '(res, s) := send s r in ([c; r], res, s)
      end
  end.
(** The mutation under the retry of [useApiMutation]: a second attempt after a
    transient failure, and no third. *)
Definition create (n : New) (s : S) : list Call * result val * S :=
  match create_attempt n s with
  | (calls, Throw e, s) =>
      if retry 0 e then
        let '(calls', res, s) := create_attempt n s in (calls ++ calls', res, s)
      else (calls, Throw e, s)
  | ended => ended
  end.
Definition created_text (n : New) (count : Z) : string :=
  match n_shapes n with
  | Some _ => "Layer created with " +:+ show_Z count +:+ " shape" +:+ plural count
  | None => "Layer created - upload its shapes next"
  end.
(** [onSuccess]: the name and shapes are cleared, the rest stays. *)
Definition created (n : New) : New := mkNew false "" (n_kind n) (n_fill n) (n_node n) None (n_problem n).
(** A press of the button while nothing runs. *)
Definition press_create (n : New) (s : S) : New * list Call * S :=
  if create_disabled false n then (n, [], s)
  else match create n s with
       | (calls, Ok _, s) => (created n, calls, s)
       | (calls, Throw _, s) => (n, calls, s)
       end.
End Create.
Definition create_options : Options := mkOptions [["overlays"]] None None true false.

(** ** Shapes for a layer ([UploadShapesDialog]) *)
Record Upload := mkUpload { u_open : bool; u_text : string; u_file : option string; u_problem : option string }.
Definition mount_upload : Upload := mkUpload false "" None None.
Definition verb (l : Layer) : string := if (featureCount l =? 0)%Z then "Upload shapes" else "Replace shapes".
Definition open_upload (next : bool) (u : Upload) : Upload :=
  mkUpload next (u_text u) (u_file u) (if next then u_problem u else None).
Definition upload_disabled (isPending : bool) (u : Upload) : bool := String.eqb (trim (u_text u)) "" || isPending.
Definition submit_upload (id : string) (u : Upload) : Upload * option Call :=
  match json_parse (u_text u) with
  | None => (mkUpload (u_open u) (u_text u) (u_file u) (Some "That is not valid JSON."), None)
  | Some v => (mkUpload (u_open u) (u_text u) (u_file u) None, Some (replaceFeatures id v))
  end.
Definition pick_upload (fileName : string) (u : Upload) : Upload := mkUpload (u_open u) (u_text u) (Some fileName) (u_problem u).
Definition read_upload (text : string) (u : Upload) : Upload := mkUpload (u_open u) text (u_file u) (u_problem u).
Definition type_upload (text : string) (u : Upload) : Upload := mkUpload (u_open u) text (u_file u) (u_problem u).
Definition uploaded (u : Upload) : Upload := mkUpload false "" None (u_problem u).
Definition upload_text (count : Z) : string := show_Z count +:+ " shape" +:+ plural count +:+ " uploaded".
End Overlays.

(** * The properties of map overlays

    Under a scope the list shows the layers anchored in its subtree; what one
    press of the new layer button sends. *)
Import Overlays.

(** ** Scope *)
(** A path of the hierarchy: its labels, joined by dots. *)
Definition label (s : string) : Prop := s <> "" /\ lacks "." s.
Definition path_of_labels (ls : list string) : string := join "." ls.
Lemma split_path ls : ls <> [] -> Forall label ls -> split_char "." (path_of_labels ls) = ls.
Proof. intros H1 H2. apply split_join; [done|]. eapply Forall_impl; [exact H2|]. by intros ? []. Qed.
Lemma split_path_app ls r : ls <> [] -> Forall label ls ->
  split_char "." ((path_of_labels ls +:+ ".") +:+ r) = ls ++ split_char "." r.
Proof.
  intros Hne Hl. induction Hl as [|w ls [_ Hw] Hl IH]; [done|]. destruct ls as [|v ls].
  - unfold path_of_labels. cbn [String.concat]. rewrite <- str_app_assoc.
    change ("." +:+ r) with (String "." r). by rewrite split_char_app.
  - unfold path_of_labels in *. rewrite join_cons2, <- !str_app_assoc.
    change ("." +:+ join "." (v :: ls) +:+ "." +:+ r) with (String "." (join "." (v :: ls) +:+ "." +:+ r)).
    rewrite split_char_app by done. rewrite str_app_assoc, IH by done. done.
Qed.
Lemma join_app sep a b : a <> [] -> b <> [] -> join sep (a ++ b) = join sep a +:+ sep +:+ join sep b.
Proof.
  intros Ha Hb. induction a as [|w a IH]; [done|]. destruct a as [|v a].
  - destruct b as [|u b]; [done|]. cbn [app]. by rewrite join_cons2.
  - rewrite <- app_comm_cons, <- app_comm_cons, !join_cons2, app_comm_cons, IH, <- !str_app_assoc; done.
Qed.
Lemma subtree_prefix a b : a <> [] -> b <> [] -> Forall label a -> Forall label b ->
  String.eqb (path_of_labels b) (path_of_labels a) || starts_with (path_of_labels a +:+ ".") (path_of_labels b) = true <->
  a `prefix_of` b.
Proof.
  intros Ha Hb La Lb. rewrite orb_true_iff, String.eqb_eq, starts_with_spec. split.
  - intros [E|[r E]].
    + rewrite <- (split_path a), <- (split_path b), E by done. done.
    + rewrite <- (split_path b), E, split_path_app by done. by eexists.
  - intros [r ->]. destruct r as [|v r]; [left; by rewrite app_nil_r|]. right.
    exists (path_of_labels (v :: r)). unfold path_of_labels. rewrite join_app by done. by rewrite !str_app_assoc.
Qed.

(** The scope is the subtree.  Under a scope, the page shows exactly the
    layers of the whole organization and those anchored at a node of the
    scope's subtree - whose path starts with the scope's labels - and a layer
    whose anchor is not in the hierarchy is not shown; with no scope, or one
    the hierarchy does not name, it shows every layer. *)
Theorem scope_shows_the_subtree (labels : jsmap (list string)) scope l :
  (forall id ls, mget labels id = Some ls -> ls <> [] /\ Forall label ls) ->
  let pathOf := map (fun kv => (fst kv, path_of_labels (snd kv))) labels in
  underScope pathOf scope l = true <->
  match scope ≫= (fun s => if String.eqb s "" then None else mget labels s) with
  | None => True
  | Some under =>
      match layer_node l with
      | None | Some "" => True
      | Some node => exists at_, mget labels node = Some at_ /\ under `prefix_of` at_
      end
  end.
Proof.
  intros Hl pathOf.
  assert (Hget : forall id, mget pathOf id = path_of_labels <$> mget labels id).
  { intros id. unfold pathOf. clear Hl. induction labels as [|[k v] m IH]; [done|]. cbn. by destruct (String.eqb k id). }
  clearbody pathOf. unfold underScope, scopePath. destruct scope as [[|c s0]|]; cbn [truthy_str mbind option_bind]; [done| |done].
  set (s := String c s0). change (String.eqb s "") with false. cbv iota.
  rewrite Hget. destruct (mget labels s) as [under|] eqn:Eu; cbn [fmap option_fmap option_map]; [|done].
  destruct (Hl s under Eu) as [Hne Hf].
  assert (Hpath : path_of_labels under <> "").
  { destruct under as [|w under]; [done|]. apply Forall_cons in Hf as [[Hw _] _]. destruct w; [done|].
    unfold path_of_labels. by rewrite join_cons_ch. }
  rewrite (proj2 (String.eqb_neq _ "") Hpath). destruct (layer_node l) as [[|d n0]|]; [done| |done].
  set (node := String d n0). change (truthy_str (Some node)) with true. cbn [negb from_option].
  rewrite Hget. destruct (mget labels node) as [at_|] eqn:Ea; cbn [fmap option_fmap option_map].
  - destruct (Hl node at_ Ea) as [Hne' Hf']. rewrite subtree_prefix by done. naive_solver.
  - naive_solver.
Qed.
Lemma scope_shows_the_subtree_witness :
  let labels := [("n1", ["root"; "west"]); ("n2", ["root"; "west"; "seattle"]); ("n3", ["root"; "western"])] in
  let pathOf := map (fun kv => (fst kv, path_of_labels (snd kv))) labels in
  underScope pathOf (Some "n1") (mkLayer "l" "Zones" (Some "n2") 0) = true /\
  underScope pathOf (Some "n1") (mkLayer "l" "Zones" (Some "n3") 0) <> true.
Proof.
  intros labels pathOf.
  assert (H : forall id ls, mget labels id = Some ls -> ls <> [] /\ Forall label ls).
  { intros id ls. unfold labels. cbn [mget].
    destruct (String.eqb "n1" id), (String.eqb "n2" id), (String.eqb "n3" id);
      intros [= <-]; (split; [done|]); repeat constructor; done. }
  split.
  - apply (scope_shows_the_subtree labels (Some "n1") (mkLayer "l" "Zones" (Some "n2") 0) H).
    exists ["root"; "west"; "seattle"]. split; [done|]. by exists ["seattle"].
  - intros Hs. apply (scope_shows_the_subtree labels (Some "n1") (mkLayer "l" "Zones" (Some "n3") 0) H) in Hs as (a & [= <-] & r & [=]).
Defined.

(** ** What a press sends *)
Section Create.
Context {S : Type} (send : S -> Call -> result val * S).
Definition creates (calls : list Call) : nat :=
  length (bfilter (fun c => String.eqb (template c) "/api/overlays") calls).
Lemma attempt_creates n s : creates (fst (fst (create_attempt send n s))) = 1.
Proof.
  unfold create_attempt. destruct (send s _) as [[layer|e] s']; [|done].
  destruct (n_shapes n) as [[f g]|]; [|done]. by destruct (send s' _).
Qed.
(** A press makes one layer, or two when its first attempt ended in a refusal
    the mutation retries; the form is cleared only when it succeeded. *)
Lemma press_creates n s : create_disabled false n = false ->
  let '(n', calls, s') := press_create send n s in
  let first := create_attempt send n s in
  (creates calls = 1 \/ creates calls = 2 /\ exists e, snd (fst first) = Throw e /\ retry 0 e = true) /\
  (n' = n \/ n' = created n).
Proof.
  intros Hd. unfold press_create, create. rewrite Hd.
  pose proof (attempt_creates n s) as H1. destruct (create_attempt send n s) as [[calls res] s1]. cbn in H1.
  destruct res as [v|e]; [split; [by left|by right]|]. destruct (retry 0 e) eqn:Hr; [|split; [by left|by left]].
  pose proof (attempt_creates n s1) as H2. destruct (create_attempt send n s1) as [[calls2 res2] s2]. cbn in H2.
  destruct res2; (split; [right; split; [unfold creates in *; rewrite List.filter_app, length_app; lia|by exists e]|tauto]).
Qed.
End Create.

(** ** What the modelling showed *)
(** A server that keeps the names it was given and whose upload is refused, as
    busy, a given number of times. *)
Definition busy : exn := EApi (mkApiError 503 VUndef VUndef false (Some (num_Z 1)) "API 503").
Definition server (s : nat * list string) (c : Call) : result val * (nat * list string) :=
  if String.eqb (template c) "/api/overlays"
  then (Ok (VObj [("id", VStr ("l" +:+ show_nat (length s.2)))]), (s.1, s.2 ++ [js_String (prop (payload c) "name")]))
  else match s.1 with
       | 0 => (Ok (VObj [("count", VNum (num_Z 1))]), s)
       | Datatypes.S k => (Throw busy, (k, s.2))
       end.
(** One press of the button, its upload refused once as busy, makes the layer
    twice; refused twice, the form is kept and the next press makes it again. *)
Lemma retried_press_makes_two :
  let n := mkNew true "Zones" "zone" "#000000" "" (Some ("z.json", VObj [])) None in
  (press_create server n (1, [])).2 = (0, ["Zones"; "Zones"]) /\
  let '(n', _, s) := press_create server n (2, []) in
  n' = n /\ (press_create server n' s).2 = (0, ["Zones"; "Zones"; "Zones"]).
Proof. by vm_compute. Qed.
(** The anchor is the scope of the mount: after the scope changed, a layer is
    anchored at the old one. *)
Lemma anchor_is_the_first_scope scope : n_node (created (mount_new (Some scope))) = scope.
Proof. done. Qed.
(** A file read late replaces the one picked after it. *)
Lemma late_failure_drops_the_picked_file :
  let n := read_file "b.json" (Some "{}") (picked_file (picked_file (mount_new None))) in
  n_shapes n = Some ("b.json", VObj []) /\ n_shapes (read_file "a.json" (Some "{") n) = None.
Proof. by vm_compute. Qed.
