(* ===== verification/Checklists.v ===== *)
(** * Checklists ([apps/console/src/features/checklists])

    The calls of [api.ts], the site the page shows under the shell's scope,
    the draft of a template and its editor ([checklists-page.tsx]), and the
    end of a drag of the sortable list it is edited in
    ([reui/sortable.tsx]). *)
From S2P Require Import Prelude JsString JsMap JsValue ApiClient AppLib SitesApi.
Import Url Client Mutations.

(** ** The end of a drag ([sortable.tsx]) *)
Section Sortable.
(** [arrayMove] of dnd-kit. *)
Context {A : Type} (arrayMove : list A -> Z -> Z -> list A) (getItemValue : A -> string).
(** [handleDragEnd] of a list without [onMove]: the value it passes on. *)
Definition handleDragEnd (value : list A) (active : string) (over : option string) : option (list A) :=
  match over with
  | None => None
  | Some over =>
      let activeIndex := find_index (fun i => String.eqb (getItemValue i) active) value in
      let overIndex := find_index (fun i => String.eqb (getItemValue i) over) value in
      if (activeIndex =? -1)%Z || (overIndex =? -1)%Z then None
      else if (activeIndex =? overIndex)%Z then None
      else Some (arrayMove value activeIndex overIndex)
  end.
End Sortable.

Module Checklists.
(** ** The calls ([api.ts]) *)
Definition today (siteId : string) : Call := get "/api/checklists/today" (query_of [("siteId", VStr siteId)]).
Definition check_item (siteId templateId : string) (itemIndex : num) (done_ : bool) : Call :=
  post "/api/checklists/check" (VObj [("templateId", VStr templateId); ("itemIndex", VNum itemIndex);
    ("done", VBool done_); ("siteId", VStr siteId)]) no_init.
Definition templates : Call := get "/api/checklists/templates" no_init.
Definition create_template (name : string) (items : list string) : Call :=
  post "/api/checklists/templates" (VObj [("name", VStr name); ("items", VArr (map VStr items))]) no_init.
Definition remove_template (id : string) : Call :=
  del "/api/checklists/templates/{id}" (path_of [("id", VStr id)]).
Definition today_key (site : string) : list string := ["checklists"; "today"; site].
Definition check_options (site : string) : Options := mkOptions [today_key site] None None false false.

(** ** The site of the page ([ChecklistsPage]) *)
Record PickedSite := mkPicked { site_id : string; site_name : string; city : option string }.
(** [picked] is the state, [stored] what the preference keeps. *)
Record Page := mkPage { scope : option string; picked : option PickedSite; stored : option PickedSite }.
(** The effect on the scope. *)
Definition scope_effect (p : Page) : Page :=
  match scope p with Some _ => mkPage (scope p) None (stored p) | None => p end.
Definition mount (scope : option string) (stored : option PickedSite) : Page :=
  scope_effect (mkPage scope stored stored).
Inductive Event := ScopeChosen (scope : option string) | SitePicked (site : option PickedSite).
Definition handle (p : Page) (e : Event) : Page :=
  match e with
  | ScopeChosen s =>
      if decide (s = scope p) then p else scope_effect (mkPage s (picked p) (stored p))
  | SitePicked s => mkPage (scope p) s s
  end.
(** [sites] is the loaded list under the scope. *)
Definition current (sites : option (list PickedSite)) (p : Page) : option PickedSite :=
  match picked p with Some s => Some s | None => sites ≫= head end.
Definition activeSite (sites : option (list PickedSite)) (p : Page) : string :=
  (site_id <$> current sites p) ?? "".
Definition today_enabled (sites : option (list PickedSite)) (p : Page) : bool :=
  negb (String.eqb (activeSite sites p) "").
Definition picker_shown (sites : option (list PickedSite)) : bool :=
  match sites with Some l => Nat.ltb 1 (length l) | None => false end.
Record ListItem := mkItem { item_index : num; item_text : string; item_done : bool }.
Definition done_count (items : list ListItem) : string :=
  show_nat (length (bfilter item_done items)) +:+ "/" +:+ show_nat (length items).

(** ** A template ([TemplatesCard], [ChecklistItemsEditor]) *)
Record Draft := mkDraft { draft_id : string; text : string }.
Definition first_items : list Draft := [mkDraft "item-1" ""].
Definition update (id t : string) (items : list Draft) : list Draft :=
  map (fun i => if String.eqb (draft_id i) id then mkDraft (draft_id i) t else i) items.
Definition remove (id : string) (items : list Draft) : list Draft :=
  if Nat.ltb 1 (length items) then bfilter (fun i => negb (String.eqb (draft_id i) id)) items else items.
Definition item_id (now : Z) : string := "item-" +:+ show_Z now.
Definition add (now : Z) (items : list Draft) : list Draft := items ++ [mkDraft (item_id now) ""].
Definition press_remove (id : string) (items : list Draft) : list Draft :=
  if Nat.eqb (length items) 1 then items else remove id items.
Record Template := mkTemplate { t_open : bool; t_name : string; t_items : list Draft }.
Definition initial : Template := mkTemplate false "" first_items.
Definition sent_items (items : list Draft) : list string :=
  bfilter (fun t => negb (String.eqb t "")) (map (fun i => trim (text i)) items).
Definition create_disabled (isPending : bool) (t : Template) : bool :=
  String.eqb (trim (t_name t)) "" || negb (some (fun i => negb (String.eqb (trim (text i)) "")) (t_items t)) || isPending.
Definition create_call (t : Template) : Call := create_template (trim (t_name t)) (sent_items (t_items t)).
Definition created (t : Template) : Template := initial.
Definition create_options : Options := mkOptions [["checklists"]] (Some "Checklist created") None true false.
Definition remove_options : Options := mkOptions [["checklists"]] (Some "Checklist deleted") None false false.
End Checklists.
