(* ===== verification/ChecklistsLaws.v ===== *)
(** * The properties of checklists

    The site on show lies under the scope; the rows of a template keep
    distinct ids, and what is sent is what they say. *)
From S2P Require Import Prelude JsString JsMap JsValue ApiClient AppLib SitesApi Checklists.
Import Url Client Mutations Checklists.

(** ** The site on show *)
Section Scope.
(** Which sites lie under a node. *)
Context (lies_under : string -> PickedSite -> Prop).
Definition in_scope (s : option string) (site : PickedSite) : Prop :=
  match s with Some n => lies_under n site | None => True end.
(** The picker offers sites under the scope. *)
Definition offered (p : Page) (e : Event) : Prop :=
  match e with SitePicked (Some s) => in_scope (scope p) s | _ => True end.
Fixpoint session (p : Page) (es : list Event) : Prop :=
  match es with [] => True | e :: es' => offered p e /\ session (handle p e) es' end.
Definition after (p : Page) (es : list Event) : Page := fold_left handle es p.
Definition picked_ok (p : Page) : Prop := forall s, picked p = Some s -> in_scope (scope p) s.
Lemma effect_ok p : picked_ok (scope_effect p).
Proof. unfold scope_effect, picked_ok. destruct (scope p) eqn:E; [done|]. by rewrite E. Qed.
Lemma pick_handled p e : picked_ok p -> offered p e -> picked_ok (handle p e).
Proof.
  intros Hp He. destruct e as [s|[s|]]; cbn; [|by intros ? [= <-]|done].
  case_decide; [done|apply effect_ok].
Qed.
Lemma after_ok p es : picked_ok p -> session p es -> picked_ok (after p es).
Proof. revert p. induction es as [|e es IH]; intros p Hp; [done|]. intros [He Hs]. by apply IH; [apply pick_handled|]. Qed.

(** The checklists on show are of a site under the scope.  Wherever the
    page was mounted, whatever site the device remembered, and however the
    scope and the site were chosen since, the site whose lists are read and
    checked lies under the scope of the shell. *)
Theorem shown_site_is_in_scope scope0 stored es sites site :
  session (mount scope0 stored) es ->
  let p := after (mount scope0 stored) es in
  (forall l, sites = Some l -> Forall (in_scope (scope p)) l) ->
  current sites p = Some site -> in_scope (scope p) site.
Proof.
  intros Hs p Hsites. unfold current. destruct (picked p) as [s|] eqn:Ep.
  - intros [= <-]. revert Ep. apply after_ok; [apply effect_ok|done].
  - intros H. destruct sites as [l|]; [|done]. specialize (Hsites l eq_refl).
    destruct l as [|x l]; [done|]. injection H as <-. by apply Forall_cons in Hsites as [].
Qed.
End Scope.
Lemma shown_site_is_in_scope_witness :
  let lies := fun n s => starts_with n (site_id s) = true in
  let old := mkPicked "east-1" "Harbor" None in
  let new_ := mkPicked "west-2" "Pike Place" None in
  let p := after (mount (Some "west") (Some old)) [SitePicked (Some new_)] in
  current (Some [mkPicked "west-1" "Ballard" None]) p = Some new_ /\ in_scope lies (scope p) new_.
Proof.
  intros lies old new_ p. split; [reflexivity|].
  apply (shown_site_is_in_scope lies (Some "west") (Some old) [SitePicked (Some new_)]
    (Some [mkPicked "west-1" "Ballard" None]) new_); [by split|intros l [= <-]; by repeat constructor|reflexivity].
Defined.

(** The remembered site is dropped by any scope, even one it lies under. *)
Lemma scope_drops_the_remembered_site n s : picked (mount (Some n) (Some s)) = None.
Proof. done. Qed.

(** ** The template *)
Section Editor.
Context (arrayMove : list Draft -> Z -> Z -> list Draft)
  (Hmove : forall l a b, (0 <= a < Z.of_nat (length l))%Z -> (0 <= b < Z.of_nat (length l))%Z -> Permutation (arrayMove l a b) l).
Inductive Edit := Type_ (id t : string) | Remove (id : string) | Add (now : Z) | Drag (active : string) (over : option string).
Definition edit (items : list Draft) (e : Edit) : list Draft :=
  match e with
  | Type_ id t => update id t items
  | Remove id => press_remove id items
  | Add now => add now items
  | Drag a o => handleDragEnd arrayMove draft_id items a o ?? items
  end.
Definition edited (es : list Edit) : list Draft := fold_left edit es first_items.
(** The clock moves on between one new row and the next. *)
Fixpoint ticking (last : Z) (es : list Edit) : Prop :=
  match es with
  | [] => True
  | Add now :: es' => (last < now)%Z /\ ticking now es'
  | _ :: es' => ticking last es'
  end.

Lemma find_index_bound {A} (p : A -> bool) l : find_index p l <> (-1)%Z ->
  (0 <= find_index p l < Z.of_nat (length l))%Z.
Proof.
  induction l as [|x l IH]; [done|]. cbn [find_index length]. destruct (p x); [lia|].
  destruct (Z.ltb_spec (find_index p l) 0); [done|]. intros _. specialize (IH ltac:(lia)). lia.
Qed.
Lemma drag_perm items a o items' : handleDragEnd arrayMove draft_id items a o = Some items' -> Permutation items' items.
Proof.
  unfold handleDragEnd. destruct o as [o|]; [|done].
  destruct (Z.eqb_spec (find_index (fun i => String.eqb (draft_id i) a) items) (-1)) as [|Ha]; [done|].
  destruct (Z.eqb_spec (find_index (fun i => String.eqb (draft_id i) o) items) (-1)) as [|Ho]; [done|].
  cbn [orb]. destruct (_ =? _)%Z; [done|]. intros [= <-]. apply Hmove; by apply find_index_bound.
Qed.
Definition rows_ok (last : Z) (items : list Draft) : Prop :=
  items <> [] /\ NoDup (map draft_id items) /\
  Forall (fun i => exists k, (k <= last)%Z /\ draft_id i = item_id k) items.
Lemma update_ids id t items : map draft_id (update id t items) = map draft_id items.
Proof. unfold update. rewrite map_map. apply map_ext. intros i. by destruct (String.eqb _ _). Qed.
Lemma item_id_inj a b : item_id a = item_id b -> a = b.
Proof. intros H%str_app_inj_l. by apply (inj (stdpp.pretty.pretty (A:=Z))). Qed.
Lemma rows_ok_perm last a b : Permutation a b -> rows_ok last b -> rows_ok last a.
Proof.
  intros Hp (H1 & H2 & H3). split_and!.
  - intros ->. apply Permutation_nil_l in Hp. by subst b.
  - by rewrite Hp.
  - by rewrite Hp.
Qed.
Lemma remove_ok last id items : rows_ok last items -> rows_ok last (press_remove id items).
Proof.
  intros Hok. pose proof Hok as (H1 & H2 & H3). unfold press_remove, remove.
  destruct (Nat.eqb_spec (length items) 1); [done|]. destruct (Nat.ltb_spec 1 (length items)) as [Hl|]; [|done].
  split_and!.
  - intros E. destruct items as [|x [|y items]]; [done|done|]. cbn [List.filter] in E.
    destruct (String.eqb_spec (draft_id x) id) as [Ex|]; [|done]. cbn [negb] in E.
    destruct (String.eqb_spec (draft_id y) id) as [Ey|]; [|done]. cbn [map] in H2.
    apply NoDup_cons in H2 as [H2 _]. apply H2. rewrite Ex, Ey. set_solver.
  - clear H1 H3 Hok Hl n. induction items as [|x items IH]; [constructor|]. cbn in *.
    apply NoDup_cons in H2 as [Hx Hn]. destruct (String.eqb _ _); cbn [negb]; [by apply IH|].
    cbn. constructor; [|by apply IH]. intros Hin. apply Hx. apply list_elem_of_fmap in Hin as (i & -> & Hi).
    apply bfilter_elem in Hi as [Hi _]. by apply list_elem_of_fmap_2.
  - rewrite Forall_forall in H3 |- *. intros i [Hi _]%bfilter_elem. by apply H3.
Qed.
Lemma row_edit_ok last items e : rows_ok last items -> ticking last [e] ->
  rows_ok (match e with Add now => now | _ => last end) (edit items e).
Proof.
  intros Hok Ht. destruct e as [id t|id|now|a o]; cbn [edit].
  - destruct Hok as (H1 & H2 & H3). split_and!.
    + by destruct items.
    + by rewrite update_ids.
    + unfold update. rewrite Forall_forall in H3 |- *. intros i Hi. apply list_elem_of_fmap in Hi as (j & -> & Hj).
      destruct (H3 j Hj) as (k & Hk & Ek). exists k. by destruct (String.eqb _ _).
  - by apply remove_ok.
  - destruct Ht as [Ht _], Hok as (H1 & H2 & H3). unfold add. split_and!.
    + by destruct items.
    + rewrite map_app. apply NoDup_app. split_and!; [done| |apply NoDup_singleton]. cbn [map draft_id].
      intros x Hx ->%list_elem_of_singleton. apply list_elem_of_fmap in Hx as (i & E & Hi).
      rewrite Forall_forall in H3. destruct (H3 i Hi) as (k & Hk & Ek). rewrite Ek in E. apply item_id_inj in E. lia.
    + apply Forall_app. split; [|constructor; [exists now; split; [lia|done]|constructor]].
      eapply Forall_impl; [exact H3|]. intros i (k & Hk & Ek). exists k. split; [lia|done].
  - destruct (handleDragEnd _ _ _ _ _) as [items'|] eqn:E; cbn; [|done]. apply drag_perm in E.
    by eapply rows_ok_perm.
Qed.

(** The rows of a template stay apart.  However the rows are typed in,
    added, removed and dragged, a template has at least one row and no two
    rows share an id - so typing into a row, removing it or dragging it is
    about that row alone. *)
Theorem template_rows_stay_apart es :
  ticking 1 es -> edited es <> [] /\ NoDup (map draft_id (edited es)).
Proof.
  intros Ht. unfold edited. assert (H0 : rows_ok 1 first_items).
  { split_and!; [done|apply NoDup_singleton|]. constructor; [|constructor]. exists 1%Z. split; [lia|by vm_compute]. }
  revert H0 Ht. generalize 1%Z as last, first_items as items. induction es as [|e es IH]; intros last items H0 Ht.
  - destruct H0 as (? & ? & _). done.
  - cbn [fold_left]. eapply IH.
    + apply (row_edit_ok last items e H0). destruct e; [done|done|split; [apply Ht|done]|done].
    + by destruct e; [| |apply Ht|].
Qed.
End Editor.
Lemma template_rows_stay_apart_witness :
  let move := fun (l : list Draft) a b => match l with [x; y] => [y; x] | _ => l end in
  let es := [Type_ "item-1" "Unlock"; Add 1700000000000; Drag "item-1" (Some "item-1700000000000"); Remove "item-1"] in
  edited move es = [mkDraft "item-1700000000000" ""] /\ edited move es <> [] /\ NoDup (map draft_id (edited move es)).
Proof.
  intros move es. split; [by vm_compute|]. apply (template_rows_stay_apart move).
  - intros l a b _ _. destruct l as [|x [|y [|z l]]]; try done. cbn. constructor.
  - by repeat split.
Defined.

(** Two rows added within one tick of the clock share an id, and typing into
    one types into both. *)
Lemma same_tick_rows_are_one :
  update (item_id 5) "Lock" (add 5 (add 5 first_items)) =
  first_items ++ [mkDraft (item_id 5) "Lock"; mkDraft (item_id 5) "Lock"].
Proof. by vm_compute. Qed.
(** A create that is not disabled sends a name and at least one item, none of
    them blank, in the order of the rows. *)
Lemma sent_template t : create_disabled false t = false ->
  trim (t_name t) <> "" /\ sent_items (t_items t) <> [] /\ Forall (fun i => i <> "") (sent_items (t_items t)).
Proof.
  unfold create_disabled. intros [[Hn Hi]%orb_false_iff _]%orb_false_iff. apply String.eqb_neq in Hn.
  apply negb_false_iff, existsb_exists in Hi as (i & Hi & Ht). split_and!; [done| |].
  - intros E. assert (trim (text i) ∈ sent_items (t_items t)) as Hin; [|rewrite E in Hin; set_solver].
    unfold sent_items. apply bfilter_elem. split; [|done]. apply list_elem_of_fmap. exists i. split; [done|].
    by apply list_elem_of_In.
  - apply Forall_forall. intros x [_ Hx]%bfilter_elem. by apply negb_true_iff, String.eqb_neq in Hx.
Qed.
