(* ===== verification/Hierarchy.v ===== *)
(** * The hierarchy ([apps/console/src/features/hierarchy], [pages/hierarchy.tsx])

    The query of the tree ([hooks.ts]), its data loader and inline rename
    ([hierarchy-tree.tsx]), the level names ([levels-fields.tsx]) and the
    forms of the page. *)
From S2P Require Import Prelude JsString JsMap JsValue ApiClient AppLib Session SitesApi.
Import Url Client Mutations.

Module Hierarchy.
(** ** The query ([hooks.ts]) *)
Definition hierarchy_enabled (enabled : option bool) (me : option Me) : bool :=
  (enabled ?? true) && can me "sites:read".

(** ** The tree ([hierarchy-tree.tsx]) *)
Definition VIRTUAL_ROOT : string := "__hierarchy_root__".
Record Node := mkNode { node_id : string; node_name : string; depth : Z; parentId : option string }.
Definition byId (nodes : list Node) : jsmap Node :=
  mset (fold_left (fun m n => mset m (node_id n) n) nodes []) VIRTUAL_ROOT (mkNode VIRTUAL_ROOT "" (-1) None).
Definition parent_of (n : Node) : string := parentId n ?? VIRTUAL_ROOT.
Definition childrenOf (nodes : list Node) : jsmap (list string) :=
  fold_left (fun m n => mset m (parent_of n) ((mget m (parent_of n) ?? []) ++ [node_id n])) nodes [].
(** The data loader of the tree component. *)
Definition getItem (nodes : list Node) (id : string) : option Node := mget (byId nodes) id.
Definition getChildren (nodes : list Node) (id : string) : list string := mget (childrenOf nodes) id ?? [].
Definition getItemName (item : option Node) : string := (node_name <$> item) ?? "".
Definition isItemFolder (nodes : list Node) (id : string) : bool := Nat.ltb 0 (length (getChildren nodes id)).
Definition expandedItems (nodes : list Node) : list string :=
  map node_id (bfilter (fun n => Z.eqb (depth n) 0) nodes).
Definition isLeaf (nodes : list Node) (n : Node) : bool :=
  negb (isItemFolder nodes (node_id n)) && (0 <? depth n)%Z.

(** The inline rename: what is edited, its text, and what each event asks. *)
Record Rename := mkRename { editingId : option string; editName : string }.
Inductive Event := PressRename (n : Node) | TypeName (text : string) | KeyName (key : string) | PressSave.
Definition rename_step (busy : bool) (r : Rename) (e : Event) : Rename * option (string * string) :=
  match e with
  | PressRename n => (mkRename (Some (node_id n)) (node_name n), None)
  | TypeName t => (mkRename (editingId r) t, None)
  | KeyName key =>
      match editingId r with
      | None => (r, None)
      | Some id =>
          if String.eqb key "Enter" && negb (String.eqb (trim (editName r)) "")
          then (mkRename None (editName r), Some (id, trim (editName r)))
          else if String.eqb key "Escape" then (mkRename None (editName r), None) else (r, None)
      end
  | PressSave =>
      match editingId r with
      | None => (r, None)
      | Some id =>
          if String.eqb (trim (editName r)) "" || busy then (r, None)
          else (mkRename None (editName r), Some (id, trim (editName r)))
      end
  end.
Definition delete_text (n : Node) : string := node_name n +:+ " has no children and no sites under it.".

(** ** The levels ([levels-fields.tsx]) *)
Definition levelLabel (index : nat) : string :=
  if Nat.eqb index 0 then "Top level" else "Level " +:+ show_nat (S index).
Inductive LevelEdit := TypeLevel (index : nat) (text : string) | RemoveLevel (index : nat) | AddLevel.
Definition remove_level_disabled (min : nat) (levels : list string) (index : nat) : bool :=
  Nat.leb (length levels) 1 || Nat.ltb index min.
(** [max] is a number the server names: every comparison with a NaN is false. *)
Definition add_level_disabled (max : num) (levels : list string) : bool := num_le max (num_nat (length levels)).
Definition edit_levels (max : num) (min : nat) (levels : list string) (e : LevelEdit) : list string :=
  match e with
  | TypeLevel i t => imap (fun j l => if Nat.eqb j i then t else l) levels
  | RemoveLevel i =>
      if remove_level_disabled min levels i then levels else take i levels ++ drop (S i) levels
  | AddLevel => if add_level_disabled max levels then levels else levels ++ [""]
  end.

(** ** The page ([pages/hierarchy.tsx]) *)
Definition trimmed (levels : list string) : list string :=
  bfilter (fun l => negb (String.eqb l "")) (map trim levels).
Definition initial_levels : list string := ["Region"; "Market"].
(** [Number(entitlements?.['hierarchy.depth']?.value ?? 4)] *)
Definition maxDepth (value : option string) : num :=
  match value with Some v => to_number v | None => num_Z 4 end.
Definition deepestUsed (nodes : list Node) : Z := fold_left (fun deep n => Z.max deep (depth n)) nodes 0%Z.
Definition org_name (me : option Me) : string :=
  match me with
  | Some (MeUser u) =>
      match js_find (fun o => match activeOrg u with Some a => String.eqb (org_id o) a | None => false end) (organizations u) with
      | Some o => if String.eqb (Principal.org_name o) "" then "Organization" else Principal.org_name o
      | None => "Organization"
      end
  | _ => "Organization"
  end.
Definition levels_json (levels : list string) : val := VArr (map VStr (trimmed levels)).
Definition provision_call (me : option Me) (levels : list string) : Call :=
  post "/api/hierarchy" (VObj [("name", VStr (org_name me)); ("levels", levels_json levels)]) no_init.
Definition provision_disabled (isPending : bool) (levels : list string) : bool :=
  Nat.eqb (length (trimmed levels)) 0 || isPending.
Definition rename_levels_call (levels : list string) : Call :=
  api_put "/api/hierarchy" (VObj [("levels", levels_json levels)]) no_init None None.
Definition rename_levels_disabled (isPending : bool) (nodes : list Node) (levels : list string) : bool :=
  (Z.of_nat (length (trimmed levels)) <? Z.max (deepestUsed nodes) 1)%Z || isPending.
Definition add_node_call (parentId name : string) : Call :=
  post "/api/hierarchy/nodes" (VObj [("parentId", VStr parentId); ("name", VStr name)]) no_init.
Definition add_node_disabled (isPending : bool) (name parentId : string) : bool :=
  String.eqb name "" || String.eqb parentId "" || isPending.
Definition rename_node_call (id name : string) : Call :=
  api_put "/api/hierarchy/nodes/{id}" (VObj [("name", VStr name)]) (path_of [("id", VStr id)]) None None.
Definition remove_node_call (id : string) : Call := del "/api/hierarchy/nodes/{id}" (path_of [("id", VStr id)]).
Definition provision_options : Options := mkOptions [["hierarchy"]] (Some "Hierarchy created") None false false.
Definition rename_levels_options : Options := mkOptions [["hierarchy"]] (Some "Levels renamed") None true false.
Definition add_node_options : Options := mkOptions [["hierarchy"]] (Some "Node added") None true false.
Definition rename_options : Options := mkOptions [["hierarchy"]] (Some "Node renamed") None false false.
Definition remove_options : Options := mkOptions [["hierarchy"]] (Some "Node deleted") (Some "Delete failed") false false.

(** ** The picker of nodes ([node-picker.tsx]) *)
Definition picker_parent (nodes : list Node) (id : string) : option string :=
  mget (fold_left (fun m n => mset m (node_id n) (parentId n)) nodes []) id ≫= (fun p => p).
Definition picked_node (next : option string) : string := next ?? "".
End Hierarchy.

(** * The properties of the hierarchy

    The tree shows every node once, delete is offered on leaves only, and the
    form of the levels keeps those in use. *)
Import Hierarchy.

(** ** The tree *)
Lemma getChildren_spec nodes p :
  getChildren nodes p = map node_id (bfilter (fun n => String.eqb (parent_of n) p) nodes).
Proof.
  unfold getChildren, childrenOf.
  enough (H : forall m, mget (fold_left (fun m n => mset m (parent_of n) ((mget m (parent_of n) ?? []) ++ [node_id n])) nodes m) p ?? [] =
    (mget m p ?? []) ++ map node_id (bfilter (fun n => String.eqb (parent_of n) p) nodes)) by apply H.
  induction nodes as [|n nodes IH]; intros m; cbn [fold_left List.filter map]; [by rewrite app_nil_r|].
  rewrite IH, mget_set. destruct (String.eqb_spec (parent_of n) p) as [->|]; cbn [from_option map].
  - by rewrite <- app_assoc.
  - done.
Qed.
Lemma child_elem nodes p c : c ∈ getChildren nodes p <-> exists n, n ∈ nodes /\ node_id n = c /\ parent_of n = p.
Proof.
  rewrite getChildren_spec, list_elem_of_fmap. split.
  - intros (n & -> & [Hn Hp]%bfilter_elem). apply String.eqb_eq in Hp. by exists n.
  - intros (n & Hn & <- & <-). exists n. split; [done|]. apply bfilter_elem. by rewrite String.eqb_refl.
Qed.
(** Delete is offered on the nodes below the top that no node hangs under. *)
Lemma leaf_spec nodes n :
  isLeaf nodes n = true <-> (0 < depth n)%Z /\ forall m, m ∈ nodes -> parent_of m <> node_id n.
Proof.
  unfold isLeaf, isItemFolder. rewrite andb_true_iff, negb_true_iff, Z.ltb_lt, Nat.ltb_ge. split.
  - intros [H Hd]. split; [done|]. intros m Hm E. assert (Hin : node_id m ∈ getChildren nodes (node_id n)).
    { apply child_elem. by exists m. } destruct (getChildren nodes (node_id n)); [set_solver|cbn in H; lia].
  - intros [Hd H]. split; [|done]. destruct (getChildren nodes (node_id n)) as [|c l] eqn:E; [done|].
    assert (Hin : c ∈ getChildren nodes (node_id n)) by (rewrite E; set_solver).
    apply child_elem in Hin as (m & Hm & _ & Hp). by destruct (H m Hm).
Qed.

(** What expanding everything shows: the ids under the virtual root. *)
Inductive shown (nodes : list Node) : string -> Prop :=
  | shown_top c : c ∈ getChildren nodes VIRTUAL_ROOT -> shown nodes c
  | shown_below p c : shown nodes p -> c ∈ getChildren nodes p -> shown nodes c.
(** A hierarchy as the server lists it: distinct ids, and every parent listed,
    at a smaller depth. *)
Record wf_hierarchy (nodes : list Node) : Prop := {
  wf_ids : NoDup (map node_id nodes);
  wf_root : VIRTUAL_ROOT ∉ map node_id nodes;
  wf_parent : forall n p, n ∈ nodes -> parentId n = Some p ->
    exists m, m ∈ nodes /\ node_id m = p /\ (0 <= depth m < depth n)%Z;
  wf_depth : forall n, n ∈ nodes -> (0 <= depth n)%Z
}.
Lemma node_unique nodes m n : NoDup (map node_id nodes) -> m ∈ nodes -> n ∈ nodes -> node_id m = node_id n -> m = n.
Proof.
  intros Hn Hm Hin E. apply list_elem_of_lookup in Hm as [i Hi], Hin as [j Hj].
  assert (i = j) as ->; [|congruence]. eapply NoDup_lookup; [exact Hn|..].
  - by rewrite list_lookup_fmap, Hi.
  - rewrite list_lookup_fmap, Hj. cbn. by rewrite E.
Qed.
Lemma getItem_node nodes n : wf_hierarchy nodes -> n ∈ nodes -> getItem nodes (node_id n) = Some n.
Proof.
  intros [Hn Hr _ _] Hin. unfold getItem, byId. rewrite mget_set.
  destruct (String.eqb_spec VIRTUAL_ROOT (node_id n)) as [E|_].
  { destruct Hr. rewrite E. by apply list_elem_of_fmap_2. }
  clear Hr. enough (H : forall nodes m, NoDup (map node_id nodes) -> n ∈ nodes ->
    mget (fold_left (fun m n => mset m (node_id n) n) nodes m) (node_id n) = Some n) by by apply H.
  clear nodes Hn Hin. induction nodes as [|x nodes IH]; intros m Hn Hin; [set_solver|]. cbn [fold_left].
  cbn [map] in Hn. apply NoDup_cons in Hn as [Hx Hn]. apply elem_of_cons in Hin as [->|Hin]; [|by apply IH].
  assert (H : forall m, mget m (node_id x) = Some x ->
    mget (fold_left (fun m n => mset m (node_id n) n) nodes m) (node_id x) = Some x); [|apply H, mget_set_eq].
  clear m IH Hn. induction nodes as [|y nodes IH]; intros m Hm; [done|]. cbn [fold_left map] in *.
  apply not_elem_of_cons in Hx as [Hxy Hx]. apply IH; [done|]. by rewrite mget_set_ne.
Qed.

(** C15: The tree is the hierarchy.  Of a hierarchy whose parents are all
    listed, expanding everything shows every node and nothing else; each id
    reads its own node; and each node is a child once, of its own parent or
    of the virtual root. *)
Theorem tree_is_the_hierarchy nodes : wf_hierarchy nodes ->
  (forall c, shown nodes c <-> exists n, n ∈ nodes /\ node_id n = c /\ getItem nodes c = Some n) /\
  (forall n, n ∈ nodes -> forall p, node_id n ∈ getChildren nodes p <-> p = parent_of n) /\
  forall p, NoDup (getChildren nodes p).
Proof.
  intros Hwf. pose proof Hwf as [Hn Hr Hp Hd]. split_and!.
  - intros c. split.
    + intros Hs. assert (exists n, n ∈ nodes /\ node_id n = c) as (n & Hin & <-).
      { destruct Hs as [c Hc|p c _ Hc]; apply child_elem in Hc as (n & ? & ? & _); by exists n. }
      exists n. split_and!; [done|done|by apply getItem_node].
    + intros (n & Hin & <- & _). enough (H : forall k n, (depth n < k)%Z -> n ∈ nodes -> shown nodes (node_id n)) by
        (apply (H (depth n + 1)%Z); [lia|done]).
      clear n Hin. intros k. induction (Z.lt_wf 0 k) as [k _ IH]. intros n Hk Hin.
      destruct (parentId n) as [p|] eqn:E.
      * destruct (Hp n p Hin E) as (m & Hm & <- & Hlt). apply (shown_below nodes (node_id m)).
        -- apply (IH (depth n)); [lia..|done].
        -- apply child_elem. exists n. unfold parent_of. by rewrite E.
      * apply shown_top, child_elem. exists n. unfold parent_of. by rewrite E.
  - intros n Hin p. rewrite child_elem. split.
    + intros (m & Hm & E & <-). by rewrite (node_unique nodes m n).
    + intros ->. by exists n.
  - intros p. rewrite getChildren_spec. clear Hwf Hr Hp Hd. induction nodes as [|n nodes IH]; [constructor|].
    cbn in *. apply NoDup_cons in Hn as [Hx Hn]. destruct (String.eqb _ _); [|by apply IH]. cbn. constructor; [|by apply IH].
    intros Hin. apply Hx. apply list_elem_of_fmap in Hin as (m & -> & [Hm _]%bfilter_elem). by apply list_elem_of_fmap_2.
Qed.
Lemma tree_is_the_hierarchy_witness :
  let nodes := [mkNode "r" "Acme" 0 None; mkNode "w" "West" 1 (Some "r"); mkNode "s" "Seattle" 2 (Some "w")] in
  (forall c, shown nodes c <-> exists n, n ∈ nodes /\ node_id n = c /\ getItem nodes c = Some n) /\
  (forall n, n ∈ nodes -> forall p, node_id n ∈ getChildren nodes p <-> p = parent_of n) /\
  forall p, NoDup (getChildren nodes p).
Proof.
  intros nodes. apply (tree_is_the_hierarchy nodes). split.
  - apply (bool_decide_unpack (NoDup ["r"; "w"; "s"])). by vm_compute.
  - cbn. rewrite !not_elem_of_cons. split_and!; [done..|apply not_elem_of_nil].
  - intros n p Hin. unfold nodes in *. rewrite !elem_of_cons in Hin. destruct Hin as [->|[->|[->|[]%elem_of_nil]]]; cbn; intros [= <-].
    + exists (mkNode "r" "Acme" 0 None). split_and!; [set_solver|done|done|done].
    + exists (mkNode "w" "West" 1 (Some "r")). split_and!; [set_solver|done|done|done].
  - intros n Hin. unfold nodes in Hin. rewrite !elem_of_cons in Hin. by destruct Hin as [->|[->|[->|[]%elem_of_nil]]].
Defined.

(** An orphan - a node whose parent is not listed - and all under it have no
    row: the tree of a session that sees a subtree only is empty unless the
    server cuts the parent off. *)
Lemma orphans_have_no_row nodes c : (forall n, n ∈ nodes -> parent_of n <> VIRTUAL_ROOT) -> ~ shown nodes c.
Proof.
  intros H Hs. induction Hs as [c Hc|]; [|done]. apply child_elem in Hc as (n & Hn & _ & Hp). by destruct (H n Hn).
Qed.

(** ** The rename *)
(** A rename is asked of the row being edited, with a name that is not blank,
    and ends the edit. *)
Lemma rename_asks busy r e id n : (rename_step busy r e).2 = Some (id, n) ->
  editingId r = Some id /\ n = trim (editName r) /\ n <> "" /\ editingId (rename_step busy r e).1 = None.
Proof.
  destruct e as [m|t|key|]; cbn; [done|done|..].
  - destruct (editingId r) as [i|]; [|done].
    destruct (_ && _) eqn:E; [|by destruct (String.eqb key "Escape")]. cbn. intros [= <- <-].
    apply andb_true_iff in E as [_ E]. by apply negb_true_iff, String.eqb_neq in E.
  - destruct (editingId r) as [i|]; [|done]. destruct (_ || _) eqn:E; [done|]. cbn. intros [= <- <-].
    apply orb_false_iff in E as [E _]. by apply String.eqb_neq in E.
Qed.
(** Enter renames while a rename or a delete is running; "Save" does not. *)
Lemma enter_ignores_busy :
  let r := mkRename (Some "n1") "West" in
  (rename_step true r (KeyName "Enter")).2 = Some ("n1", "West") /\ (rename_step true r PressSave).2 = None.
Proof. by vm_compute. Qed.

(** ** The levels *)
Definition edited (max : num) (min : nat) (es : list LevelEdit) (levels : list string) : list string :=
  fold_left (edit_levels max min) es levels.
Definition types_below (min : nat) (e : LevelEdit) : bool :=
  match e with TypeLevel i _ => Nat.ltb i min | _ => false end.
Lemma num_le_nat a b : num_le (num_nat a) (num_nat b) = Nat.leb a b.
Proof.
  unfold num_nat, num_Z, num_le. destruct (Nat.leb_spec a b).
  - apply Qle_bool_iff. unfold Qle. cbn. lia.
  - apply not_true_iff_false. rewrite Qle_bool_iff. unfold Qle. cbn. lia.
Qed.
Lemma imap_take {A} (f : nat -> A -> A) k l : (forall j x, j < k -> f j x = x) -> take k (imap f l) = take k l.
Proof.
  intros H. apply list_eq. intros i. destruct (decide (i < k)) as [Hi|Hi].
  - rewrite !lookup_take_lt, list_lookup_imap by done. destruct (l !! i); cbn; [|done]. by rewrite H.
  - rewrite !lookup_take_ge by lia. done.
Qed.
Lemma edit_levels_ok m min levels e : 1 <= length levels <= m -> min <= length levels ->
  let levels' := edit_levels (num_nat m) min levels e in
  1 <= length levels' <= m /\ min <= length levels' /\
  (types_below min e = false -> take min levels' = take min levels).
Proof.
  intros Hl Hm. destruct e as [i t|i|]; cbn [edit_levels types_below].
  - rewrite length_imap. split_and!; [lia|lia|lia|]. intros Hi%Nat.ltb_ge. apply imap_take. intros j x Hj.
    destruct (Nat.eqb_spec j i); [lia|done].
  - unfold remove_level_disabled. destruct (Nat.leb_spec (length levels) 1); [done|].
    destruct (Nat.ltb_spec i min); [done|]. cbn [orb]. rewrite length_app, length_take, length_drop.
    split_and!; [lia|lia|lia|]. intros _. rewrite take_app_le by (rewrite length_take; lia).
    rewrite take_take. f_equal. lia.
  - unfold add_level_disabled. rewrite num_le_nat. destruct (Nat.leb_spec m (length levels)); [done|].
    rewrite length_app. cbn [length]. split_and!; [lia|lia|lia|]. intros _. by rewrite take_app_le by lia.
Qed.

(** The levels in use stay.  However the level names are typed, added and
    removed in the form, from names within the plan's depth there is always
    at least one level, never more than the plan allows, never fewer than the
    deepest one a node uses; and the names of the levels in use change only
    by typing into them. *)
Theorem levels_in_use_stay m min es levels :
  1 <= length levels <= m -> min <= length levels ->
  let levels' := edited (num_nat m) min es levels in
  1 <= length levels' <= m /\ min <= length levels' /\
  (some (types_below min) es = false -> take min levels' = take min levels).
Proof.
  unfold edited. revert levels. induction es as [|e es IH]; intros levels Hl Hm; [done|]. cbn [fold_left existsb].
  destruct (edit_levels_ok m min levels e Hl Hm) as (H1 & H2 & H3).
  destruct (IH _ H1 H2) as (H4 & H5 & H6). split_and!; [apply H4..|done|].
  intros [Ha Hb]%orb_false_iff. by rewrite H6, H3.
Qed.
Lemma levels_in_use_stay_witness :
  let es := [AddLevel; TypeLevel 2 "Zone"; RemoveLevel 0; RemoveLevel 1; AddLevel; AddLevel; AddLevel] in
  let levels' := edited (num_nat 4) 1 es ["Region"; "Market"] in
  levels' = ["Region"; "Zone"; ""; ""] /\ 1 <= length levels' <= 4 /\ 1 <= length levels' /\
  (some (types_below 1) es = false -> take 1 levels' = take 1 ["Region"; "Market"]).
Proof. intros es levels'. split; [by vm_compute|]. apply (levels_in_use_stay 4 1 es ["Region"; "Market"]); cbn; lia. Defined.

(** Blanking the name of a level in use renames it to the next one when a
    further level was added: only the number of names is checked. *)
Lemma blanked_level_is_renamed :
  let nodes := [mkNode "r" "Acme" 0 None; mkNode "w" "West" 1 (Some "r"); mkNode "s" "Seattle" 2 (Some "w")] in
  let levels := edited (num_nat 4) 2 [AddLevel; TypeLevel 2 "Zone"; TypeLevel 1 ""] ["Region"; "Market"] in
  rename_levels_disabled false nodes levels = false /\ trimmed levels = ["Region"; "Zone"].
Proof. by vm_compute. Qed.
