(* ===== verification/Settings.v ===== *)
(** * Settings, account and operation
    ([apps/console/src/features/settings], [features/operator], [pages/account.tsx])

    The calls of both features, the ids made of names, the basemaps and
    attributes cards, the tabs and billing of the settings page, the account
    page, and the controls an operator has over an organization. *)
From S2P Require Import Prelude JsString JsMap JsValue ApiClient AppLib Session SitesApi.
Import Url Client Mutations.

Module Settings.
(** ** The calls ([settings/api.ts]) *)
Definition rename_org (name : string) : Call := api_put "/api/org" (VObj [("name", VStr name)]) no_init None None.
Definition exportData : Call := post "/api/org/export" VUndef no_init.
Definition billing_call : Call := get "/api/billing" no_init.
Definition return_path : string * val := ("returnPath", VStr "/settings").
Definition checkout (planId : string) : Call :=
  post "/api/billing/checkout" (VObj [("planId", VStr planId); return_path]) no_init.
Definition billingPortal : Call := post "/api/billing/portal" (VObj [return_path]) no_init.
Definition sso_call : Call := get "/api/org/sso" no_init.
Definition publicUrl : Call := get "/api/org/public-url" no_init.
Definition closure : Call := get "/api/org/closure" no_init.
Definition requestClose : Call := post "/api/org/close" VUndef no_init.
Definition cancelClose : Call := post "/api/org/close/cancel" VUndef no_init.
Definition ssoPortal (intent : string) : Call :=
  post "/api/org/sso/portal" (VObj [("intent", VStr intent); return_path]) no_init.
Definition attributes_call : Call := get "/api/sites/attributes" no_init.
Definition createAttribute (body : val) : Call := post "/api/sites/attributes" body no_init.
Definition removeAttribute (id : string) : Call := del "/api/sites/attributes/{id}" (path_of [("id", VStr id)]).
Definition basemaps_call : Call := get "/api/map/basemaps/settings" no_init.
Definition saveBasemaps (basemaps : list val) : Call :=
  api_put "/api/map/basemaps" (VObj [("basemaps", VArr basemaps)]) no_init None None.

(** ** Ids made of names
    [name.toLowerCase().replace(/[^a-z0-9]+/g, sep).replace(/^sep+|sep+$/g, '')] *)
Definition slug_char (c : ascii) : bool := is_lower c || is_digit c.
Fixpoint squeeze (sep : ascii) (in_run : bool) (s : string) : string :=
  match s with
  | "" => ""
  | String c s' =>
      if slug_char c then String c (squeeze sep false s')
      else if in_run then squeeze sep true s' else String sep (squeeze sep true s')
  end.
Fixpoint strip_left (sep : ascii) (s : string) : string :=
  match s with
  | String c s' => if Ascii.eqb c sep then strip_left sep s' else s
  | "" => ""
  end.
Fixpoint strip_right (sep : ascii) (s : string) : string :=
  match s with
  | "" => ""
  | String c s' =>
      match strip_right sep s' with
      | "" => if Ascii.eqb c sep then "" else String c ""
      | t => String c t
      end
  end.
Definition slug (sep : ascii) (name : string) : string :=
  strip_right sep (strip_left sep (squeeze sep false (to_lower name))).

(** ** The basemaps ([map-basemaps-card.tsx]) *)
Record Basemap := mkBasemap { b_id : string; b_name : string; b_url : string; b_attribution : string; b_zoom : num }.
Record Draft := mkDraft {
  d_name : string; d_id : string; d_url : string; d_attribution : string; d_zoom : string; d_key : string
}.
Definition empty_draft : Draft := mkDraft "" "" "" "" "19" "".
Definition type_name (t : string) (d : Draft) : Draft :=
  mkDraft t (slug "-" t) (d_url d) (d_attribution d) (d_zoom d) (d_key d).
Definition keep_json (b : Basemap) : val :=
  VObj [("id", VStr (b_id b)); ("name", VStr (b_name b)); ("urlTemplate", VStr (b_url b));
        ("attribution", VStr (b_attribution b)); ("maxZoom", VNum (b_zoom b))].
(** [entries]: nothing while the settings are loading. *)
Definition keep (data : option (list Basemap)) : list Basemap := data ?? [].
Definition needsKey (d : Draft) : bool := includes "{key}" (d_url d).
Definition num_or (n : num) (default : num) : num := if truthy (VNum n) then n else default.
Definition new_json (d : Draft) : val :=
  VObj [("id", VStr (d_id d)); ("name", VStr (trim (d_name d))); ("urlTemplate", VStr (trim (d_url d)));
        ("attribution", VStr (trim (d_attribution d))); ("maxZoom", VNum (num_or (to_number (d_zoom d)) (num_Z 19)));
        ("key", if String.eqb (d_key d) "" then VNull else VStr (d_key d))].
Definition add_disabled (isPending : bool) (d : Draft) : bool :=
  String.eqb (trim (d_name d)) "" || String.eqb (d_id d) "" || String.eqb (trim (d_url d)) "" ||
  (needsKey d && String.eqb (d_key d) "") || isPending.
Definition add_basemap (data : option (list Basemap)) (d : Draft) : Call :=
  saveBasemaps (map keep_json (keep data) ++ [new_json d]).
Definition remove_basemap (data : option (list Basemap)) (id : string) : Call :=
  saveBasemaps (map keep_json (bfilter (fun b => negb (String.eqb (b_id b) id)) (keep data))).
Definition basemaps_options : Options := mkOptions [["basemaps"]] (Some "Basemaps saved") None true false.

(** ** Attributes ([site-attributes-card.tsx]) *)
Record Attribute := mkAttribute { at_key : string; at_label : string; at_type : string; at_public : bool }.
Definition initial_attribute : Attribute := mkAttribute "" "" "Text" false.
Definition type_label (t : string) (a : Attribute) : Attribute :=
  mkAttribute (slug "_" t) t (at_type a) (at_public a).
Definition attribute_disabled (isPending : bool) (a : Attribute) : bool :=
  String.eqb (trim (at_key a)) "" || String.eqb (trim (at_label a)) "" || isPending.
Definition attribute_call (a : Attribute) : Call :=
  createAttribute (VObj [("key", VStr (trim (at_key a))); ("label", VStr (trim (at_label a)));
    ("type", VStr (at_type a)); ("public", VBool (at_public a))]).
(** [onSuccess]: the type is kept for the next attribute. *)
Definition attribute_added (a : Attribute) : Attribute := mkAttribute "" "" (at_type a) false.
Definition create_attribute_options : Options := mkOptions [["site-attributes"]] (Some "Attribute added") None true false.
Definition remove_attribute_options : Options :=
  mkOptions [["site-attributes"]; ["site"]] (Some "Attribute removed - its values are gone from every site") None false false.

(** ** The page ([settings-page.tsx]) *)
Record SettingsTab := mkTab { value : string; label : string; manageSites : bool }.
Definition SETTINGS_TABS : list SettingsTab := [
  mkTab "profile" "Profile" false; mkTab "billing" "Billing" false; mkTab "sso" "Sign-on" false;
  mkTab "sites" "Site attributes" true; mkTab "map" "Map" false; mkTab "locator" "Public locator" false;
  mkTab "data" "Your data" false].
Definition tabs_of (me : option Me) : list SettingsTab :=
  bfilter (fun t => negb (manageSites t) || can me "sites:manage") SETTINGS_TABS.
(** A name being edited: the draft of it, when it was typed. *)
Definition draft (name : option string) (saved : string) : string := name ?? saved.
Definition rename_disabled (isPending : bool) (name : option string) (saved : string) : bool :=
  String.eqb (draft name saved) saved || String.eqb (trim (draft name saved)) "" || isPending.
Definition rename_options : Options := mkOptions [["me"]] (Some "Organization renamed") None true false.
Record Plan := mkPlan { plan_id : string; plan_name : string; price : num }.
Record Billing := mkBilling { planId : option string; status : option string; plans : list Plan }.
Definition canceled (b : Billing) : bool := bool_decide (status b = Some "Canceled").
Definition offered_plans (b : Billing) : list Plan :=
  bfilter (fun p => negb (bool_decide (planId b = Some (plan_id p))) || canceled b) (plans b).
Definition plan_label (b : Billing) (p : Plan) : string :=
  (if truthy_str (planId b) && negb (canceled b) then "Switch to " else "Upgrade to ") +:+ plan_name p +:+
  " · $" +:+ show_num (price p) +:+ "/mo".
End Settings.

(** ** The account ([pages/account.tsx]) *)
Module Account.
Definition describeAgent (ua : option string) : string :=
  match ua with
  | None | Some "" => "Unknown browser"
  | Some ua =>
      let browser :=
        if includes "Edg/" ua then "Edge" else if includes "OPR/" ua then "Opera"
        else if includes "Firefox/" ua then "Firefox" else if includes "Chrome/" ua then "Chrome"
        else if includes "Safari/" ua then "Safari" else "Browser" in
      let os :=
        if includes "Windows" ua then Some "Windows"
        else if includes "Mac OS X" ua || includes "Macintosh" ua then Some "macOS"
        else if includes "iPhone" ua || includes "iPad" ua then Some "iOS"
        else if includes "Android" ua then Some "Android"
        else if includes "Linux" ua then Some "Linux" else None in
      match os with Some o => browser +:+ " on " +:+ o | None => browser end
  end.
Definition sessions_call : Call := get "/auth/sessions" no_init.
Definition rename_call (name : string) : Call := api_put "/auth/profile" (VObj [("name", VStr name)]) no_init None None.
Definition password_reset : Call := post "/auth/password-reset" VUndef no_init.
Definition revoke_session (id : string) : Call := del "/auth/sessions/{id}" (path_of [("id", VStr id)]).
Definition revoke_others : Call := post "/auth/sessions/revoke-others" VUndef no_init.
Definition delete_account : Call := del "/auth/account" no_init.
(** What deleting the account ends with, given how the call ended; the body of
    an error that is no [ApiError] is undefined. *)
Definition deleteAccount (r : result val) : result val :=
  match r with
  | Throw (EApi e) =>
      match prop (ApiClient.Errors.body e) "code" with
      | VStr "last_manager" =>
          let orgs := match prop (ApiClient.Errors.body e) "organizations" with VArr l => l | _ => [] end in
          Throw (EMsg ("You are the last manager of: " +:+ join ", " (map js_String orgs) +:+
            ". Transfer management or offboard first."))
      | _ => Throw (EApi e)
      end
  | r => r
  end.
Record SessionRow := mkRow { row_id : string; row_current : bool }.
Definition revocable (rows : list SessionRow) : list string :=
  map row_id (bfilter (fun r => negb (row_current r)) rows).
Definition others_shown (rows : option (list SessionRow)) : bool :=
  match rows with Some l => Nat.ltb 1 (length l) | None => false end.
End Account.

(** ** The operator ([features/operator]) *)
Module Operator.
Definition org_path (orgId : string) : Init := path_of [("orgId", VStr orgId)].
Definition orgs : Call := get "/api/operator/orgs" no_init.
Definition transition (orgId : string) (suspend : bool) : Call :=
  if suspend then post "/api/operator/orgs/{orgId}/suspend" VUndef (org_path orgId)
  else post "/api/operator/orgs/{orgId}/reactivate" VUndef (org_path orgId).
Definition exportOrg (orgId : string) : Call := post "/api/operator/orgs/{orgId}/export" VUndef (org_path orgId).
Definition impersonate (orgId : string) : Call := post "/api/operator/orgs/{orgId}/impersonate" VUndef (org_path orgId).
Definition offboard (orgId : string) : Call := post "/api/operator/orgs/{orgId}/offboard" VUndef (org_path orgId).
Definition health : Call := get "/api/operator/health" no_init.
Definition suppressions (q : option string) : Call := get "/api/operator/suppressions" (query_of [("q", or_undefined q)]).
Definition unsuppress (id : string) : Call := del "/api/operator/suppressions/{id}" (path_of [("id", VStr id)]).
Definition users (q : string) : Call := get "/api/operator/users" (query_of [("q", VStr q)]).
Definition overview : Call := get "/api/operator/overview" no_init.
Definition deadLetters : Call := get "/api/operator/dead-letters" no_init.
Definition replayDeadLetter (id : string) : Call :=
  post "/api/operator/dead-letters/{id}/replay" VUndef (path_of [("id", VStr id)]).
Definition discardDeadLetter (id : string) : Call := del "/api/operator/dead-letters/{id}" (path_of [("id", VStr id)]).
Definition entitlements (orgId : string) : Call := get "/api/operator/orgs/{orgId}/entitlements" (org_path orgId).
Definition setEntitlement (orgId code value : string) : Call :=
  api_put "/api/operator/orgs/{orgId}/entitlements/{code}" (VObj [("value", VStr value)])
    (path_of [("orgId", VStr orgId); ("code", VStr code)]) None None.
Definition suppressions_query (q : string) : Call := suppressions (SitesApi.non_empty (Some (trim q))).
Definition users_enabled (q : string) : bool := Nat.leb 2 (String.length (trim q)).
(** [schema.ts] *)
Definition parseEntitlementValue (value : string) : result string :=
  let normalized := trim value in
  if String.eqb normalized "" then Throw (EMsg "entitlement value is required") else Ok normalized.

(** ** An organization's controls ([organization-controls.tsx]) *)
Inductive Action := Suspend | Reactivate | Impersonate | Offboard.
Definition offered (status : string) (a : Action) : bool :=
  match a with
  | Suspend | Impersonate => String.eqb status "Active"
  | Reactivate => negb (String.eqb status "Active")
  | Offboard => String.eqb status "Suspended"
  end.
Section Entitlements.
Context (effective : jsmap string).
Definition draft_of (drafts : jsmap string) (code : string) : string :=
  (match mget drafts code with Some d => Some d | None => mget effective code end) ?? "".
Definition dirty (drafts : jsmap string) (code : string) : bool :=
  negb (bool_decide (Some (draft_of drafts code) = mget effective code)).
End Entitlements.
Definition set_call (orgId code value : string) : result Call :=
  v <-! parseEntitlementValue value ;; Ok (setEntitlement orgId code v).
(** The page's selection. *)
Record Org := mkOrg { org_id : string; org_status : string; isPlatform : bool }.
Definition selected (orgs : option (list Org)) (selectedId : option string) : option Org :=
  orgs ≫= js_find (fun o => bool_decide (Some (org_id o) = selectedId)).
Definition controls_of (orgs : option (list Org)) (selectedId : option string) : option Org :=
  match selected orgs selectedId with Some o => if isPlatform o then None else Some o | None => None end.
Definition offboarded (org : string) (selectedId : option string) : option string :=
  if bool_decide (selectedId = Some org) then None else selectedId.
Definition count_of (status : string) (counts : list (string * num)) : num :=
  (snd <$> js_find (fun c => String.eqb (fst c) status) counts) ?? num_Z 0.
End Operator.
