(* ===== verification/SettingsLaws.v ===== *)
(** * The properties of settings, account and operation

    An id made of a name is its words, joined; what the cards and pages do at
    their edges. *)
From S2P Require Import Prelude JsString JsMap JsValue ApiClient AppLib Session SitesApi Settings.
Import Url Client Mutations Settings.

(** ** Ids made of names *)
(** The words of a text: its longest runs of letters and digits. *)
Fixpoint words (s : string) : list string :=
  match s with
  | "" => []
  | String c s' =>
      if slug_char c then
        match s' with
        | String d _ => if slug_char d then match words s' with w :: ws => String c w :: ws | [] => [str1 c] end
                        else str1 c :: words s'
        | "" => [str1 c]
        end
      else words s'
  end.
Definition word (w : string) : Prop := w <> "" /\ str_forall slug_char w = true.
Lemma words_are_words s : Forall word (words s).
Proof.
  induction s as [|c s IH]; [constructor|]. cbn [words]. destruct (slug_char c) eqn:Ec; [|done].
  assert (H1 : word (str1 c)) by (split; [done|cbn; by rewrite Ec]).
  destruct s as [|d s]; [by constructor|]. destruct (slug_char d); [|by constructor].
  destruct (words (String d s)) as [|w ws]; [by constructor|]. apply Forall_cons in IH as [[_ Hw] IH].
  constructor; [|done]. split; [done|]. cbn. by rewrite Ec.
Qed.

Section Slug.
Context (sep : ascii) (Hsep : slug_char sep = false).
Lemma slug_char_ne c : slug_char c = true -> Ascii.eqb c sep = false.
Proof. intros H. destruct (Ascii.eqb_spec c sep) as [->|]; [congruence|done]. Qed.
Lemma words_slug_cons c d s : slug_char c = true -> slug_char d = true ->
  exists w ws, words (String d s) = w :: ws /\ words (String c (String d s)) = String c w :: ws.
Proof.
  intros Hc Hd. cbn [words]. rewrite Hc, Hd. destruct s as [|e s]; [by exists (str1 d), []|].
  destruct (slug_char e); [|by eexists _, _]. destruct (words (String e s)) as [|w ws]; by eexists _, _.
Qed.
Lemma squeeze_words s : exists t, (t = "" \/ t = str1 sep) /\ (words s = [] -> t = "") /\
  squeeze sep true s = join (str1 sep) (words s) +:+ t.
Proof.
  induction s as [|c s (t & Ht & Hn & IH)]; [exists ""; by split_and!; [left|..]|]. cbn [squeeze].
  destruct (slug_char c) eqn:Ec; [|by exists t; cbn [words]; rewrite Ec; split_and!].
  destruct s as [|d s].
  - exists "". cbn. rewrite Ec. by split_and!; [left|..].
  - destruct (slug_char d) eqn:Ed.
    + destruct (words_slug_cons c d s Ec Ed) as (w & ws & Hw & Hcw). rewrite Hcw. exists t. split_and!; [done|done|].
      assert (E : squeeze sep false (String d s) = squeeze sep true (String d s)) by (cbn; by rewrite Ed).
      rewrite E, IH, Hw, join_cons_ch. done.
    + cbn [words] in *. rewrite Ec, Ed in *. cbn [squeeze] in *. rewrite Ed in *. rewrite IH.
      destruct (words s) as [|w ws].
      * exists (str1 sep). rewrite Hn by done. split_and!; [by right|done|done].
      * exists t. split_and!; [done|done|]. rewrite join_cons2. done.
Qed.
Lemma join_word_cons ws : Forall word ws -> ws <> [] -> exists c r, join (str1 sep) ws = String c r /\ slug_char c = true.
Proof.
  destruct 1 as [|w ws [Hw Hf] _]; [done|]. intros _. destruct w as [|c w]; [done|]. cbn in Hf.
  apply andb_true_iff in Hf as [Hc _]. rewrite join_cons_ch. by exists c, (join (str1 sep) (w :: ws)).
Qed.
Lemma strip_left_words ws t : Forall word ws -> (ws = [] -> t = "") -> (t = "" \/ t = str1 sep) ->
  strip_left sep (join (str1 sep) ws +:+ t) = join (str1 sep) ws +:+ t.
Proof.
  intros Hw Ht _. destruct ws as [|w ws]; [by rewrite Ht|].
  destruct (join_word_cons (w :: ws) Hw) as (c & r & -> & Hc); [done|]. cbn. by rewrite slug_char_ne.
Qed.
Lemma strip_right_sep u : strip_right sep (u +:+ str1 sep) = strip_right sep u.
Proof.
  induction u as [|c u IH]; [cbn; by rewrite Ascii.eqb_refl|]. cbn. by rewrite IH.
Qed.
Lemma strip_right_app a b : strip_right sep b = b -> b <> "" -> strip_right sep (a +:+ b) = a +:+ b.
Proof.
  intros Hb Hne. induction a as [|c a IH]; [done|]. cbn. rewrite IH.
  destruct (a +:+ b) eqn:E; [|done]. destruct a; [cbn in E; by subst b|done].
Qed.
Lemma strip_right_word w : str_forall slug_char w = true -> strip_right sep w = w.
Proof.
  induction w as [|c w IH]; [done|]. cbn. intros [Hc Hw]%andb_true_iff. rewrite (IH Hw).
  destruct w; [by rewrite slug_char_ne|done].
Qed.
Lemma strip_right_words ws : Forall word ws -> strip_right sep (join (str1 sep) ws) = join (str1 sep) ws.
Proof.
  induction 1 as [|w ws [Hw Hf] Hws IH]; [done|]. destruct ws as [|v ws]; [by apply strip_right_word|].
  rewrite join_cons2. destruct (join_word_cons (v :: ws) Hws) as (c & r & Hj & _); [done|].
  rewrite str_app_assoc. apply strip_right_app; [done|by rewrite Hj].
Qed.
Lemma slug_words name : slug sep name = join (str1 sep) (words (to_lower name)).
Proof.
  unfold slug. set (s := to_lower name). destruct (squeeze_words s) as (t & Ht & Hn & E).
  assert (El : strip_left sep (squeeze sep false s) = squeeze sep true s).
  { assert (H : strip_left sep (squeeze sep true s) = squeeze sep true s).
    { rewrite E. by apply strip_left_words; [apply words_are_words|..]. }
    destruct s as [|c s']; [done|]. cbn [squeeze] in *. destruct (slug_char c); [done|].
    cbn. by rewrite Ascii.eqb_refl. }
  rewrite El, E. pose proof (strip_right_words _ (words_are_words s)) as Hr.
  destruct Ht as [->| ->]; [by rewrite str_app_nil_r|by rewrite strip_right_sep].
Qed.
Lemma words_word w r : word w -> words (w +:+ String sep r) = w :: words r.
Proof.
  intros [Hw Hf]. induction w as [|c w IH]; [done|]. cbn in Hf. apply andb_true_iff in Hf as [Hc Hf].
  destruct w as [|d w]; [cbn; by rewrite Hc, Hsep|].
  assert (Hd : slug_char d = true) by by cbn in Hf; apply andb_true_iff in Hf as [].
  change (String c (String d w) +:+ String sep r) with (String c (String d (w +:+ String sep r))).
  destruct (words_slug_cons c d (w +:+ String sep r) Hc Hd) as (x & xs & Hx & ->).
  change (String d (w +:+ String sep r)) with (String d w +:+ String sep r) in Hx.
  rewrite IH in Hx by done. by injection Hx as <- <-.
Qed.
Lemma words_join ws : Forall word ws -> words (join (str1 sep) ws) = ws.
Proof.
  induction 1 as [|w ws Hw Hws IH]; [done|]. destruct ws as [|v ws].
  - destruct Hw as [Hw Hf]. cbn [String.concat]. clear IH Hws. induction w as [|c w IH]; [done|].
    cbn in Hf. apply andb_true_iff in Hf as [Hc Hf]. destruct w as [|d w]; [cbn; by rewrite Hc|].
    assert (Hd : slug_char d = true) by by cbn in Hf; apply andb_true_iff in Hf as [].
    destruct (words_slug_cons c d w Hc Hd) as (x & xs & Hx & ->). rewrite IH in Hx by done. by injection Hx as <- <-.
  - rewrite join_cons2. change (w +:+ str1 sep +:+ join (str1 sep) (v :: ws)) with (w +:+ String sep (join (str1 sep) (v :: ws))).
    by rewrite words_word, IH.
Qed.

(** The id suggested for a name is its words.  It is the runs of letters
    and digits of the name, lower-cased, joined by one separator: none at
    either end, none doubled; made again of itself it is the same id; and it
    is empty only when the name has no letter and no digit. *)
Theorem slug_is_its_words name :
  to_lower (str1 sep) = str1 sep ->
  slug sep name = join (str1 sep) (words (to_lower name)) /\ Forall word (words (to_lower name)) /\
  slug sep (slug sep name) = slug sep name /\
  (slug sep name = "" <-> str_exists slug_char (to_lower name) = false).
Proof.
  intros Hlow. pose proof (words_are_words (to_lower name)) as Hw. split_and!; [apply slug_words|done| |].
  - rewrite (slug_words (slug sep name)), slug_words. assert (E : to_lower (join (str1 sep) (words (to_lower name))) = join (str1 sep) (words (to_lower name))).
    { assert (Hword : forall w, str_forall slug_char w = true -> to_lower w = w).
      { induction w as [|c w IH]; [done|]. cbn. intros [Hc Hf]%andb_true_iff. unfold to_lower in IH. rewrite IH by done. f_equal.
        revert Hc. clear. destruct c as [[] [] [] [] [] [] [] []]; vm_compute; intros H; first [reflexivity|discriminate H]. }
      assert (Happ : forall a b, to_lower (a +:+ b) = to_lower a +:+ to_lower b).
      { unfold to_lower. induction a as [|c a IH]; intros b; [done|]. cbn. by rewrite IH. }
      induction Hw as [|w ws [_ Hf] _ IH]; [done|]. destruct ws as [|v ws]; [by apply Hword|].
      by rewrite join_cons2, !Happ, IH, Hlow, Hword. }
    rewrite E. by rewrite words_join.
  - rewrite slug_words. split.
    + intros E. destruct (words (to_lower name)) as [|w ws] eqn:Ew.
      * clear - Ew. revert Ew. induction (to_lower name) as [|c s IH]; [done|]. cbn [words str_exists].
        destruct (slug_char c) eqn:Ec; [|done]. destruct s as [|d s]; [done|].
        destruct (slug_char d); [|done]. by destruct (words (String d s)).
      * destruct (join_word_cons (w :: ws) Hw) as (c & r & Hj & _); [done|]. by rewrite E in Hj.
    + clear Hw. intros E. assert (words (to_lower name) = []) as ->; [|done]. revert E.
      induction (to_lower name) as [|c s IH]; [done|]. cbn. intros [Hc Hs]%orb_false_iff. rewrite Hc. by apply IH.
Qed.
End Slug.
Lemma slug_is_its_words_witness :
  slug "-" " Aerial -- 2026 (HD)" = "aerial-2026-hd" /\
  (slug "-" " Aerial -- 2026 (HD)" = join "-" (words (to_lower " Aerial -- 2026 (HD)")) /\
   Forall word (words (to_lower " Aerial -- 2026 (HD)")) /\
   slug "-" (slug "-" " Aerial -- 2026 (HD)") = slug "-" " Aerial -- 2026 (HD)" /\
   (slug "-" " Aerial -- 2026 (HD)" = "" <-> str_exists slug_char (to_lower " Aerial -- 2026 (HD)") = false)).
Proof. split; [by vm_compute|]. apply (slug_is_its_words "-"); reflexivity. Defined.

(** ** What the modelling showed *)
(** Every save carries the whole list of basemaps - of the settings as loaded:
    one pressed while they load, or after they failed to, carries the new
    basemap only, and the setting loses the others. *)
Lemma unloaded_add_drops_the_others d :
  add_basemap None d = saveBasemaps [new_json d] /\
  forall data, add_basemap (Some data) d = saveBasemaps (map keep_json data ++ [new_json d]).
Proof. done. Qed.
Lemma unloaded_add_is_enabled :
  add_disabled false (type_name "Aerial" (mkDraft "" "" "https://tiles/{z}/{x}/{y}.png" "" "19" "")) = false.
Proof. by vm_compute. Qed.
(** A key typed for a URL that no longer takes one is sent all the same. *)
Lemma hidden_key_is_sent :
  let d := mkDraft "Aerial" "aerial" "https://tiles/{z}.png" "" "19" "secret" in
  needsKey d = false /\ prop (new_json d) "key" = VStr "secret".
Proof. by vm_compute. Qed.
(** Every iPhone's agent says "like Mac OS X", which is looked for first. *)
Lemma iphone_is_called_macOS :
  Account.describeAgent (Some ("Mozilla/5.0 (iPhone; CPU iPhone OS 17_0 like Mac OS X) AppleWebKit/605.1.15 " +:+
    "(KHTML, like Gecko) Version/17.0 Mobile/15E148 Safari/604.1")) = "Safari on macOS".
Proof. by vm_compute. Qed.
(** An entitlement saved with spaces around it is sent without them, so its
    draft stays unsaved in the operator's list. *)
Lemma trimmed_entitlement_stays_dirty :
  let drafts := [("sites.max", " 100 ")] in
  Operator.set_call "o1" "sites.max" (Operator.draft_of [] drafts "sites.max") =
    Ok (Operator.setEntitlement "o1" "sites.max" "100") /\
  Operator.dirty [("sites.max", "100")] drafts "sites.max" = true.
Proof. by vm_compute. Qed.
(** An organization is suspended before it is offboarded, and a suspended one
    can only be reactivated, exported or offboarded. *)
Lemma offboard_after_suspend status : Operator.offered status Operator.Offboard = true ->
  status = "Suspended" /\ Operator.offered status Operator.Suspend = false /\
  Operator.offered status Operator.Impersonate = false /\ Operator.offered status Operator.Reactivate = true.
Proof. intros ->%String.eqb_eq. done. Qed.
