(* ===== verification/Ingest.v ===== *)
(** * Site ingest ([apps/console/src/pages/ingest.tsx])

    The page's steps, batches and connectors, the CSV of invalid rows it
    offers for download, and the reader of the server such a file is uploaded
    to ([Premise.Platform/Text/CsvParser.cs], [StagingService.cs]).  A
    character is a byte; the two agree where the text is ASCII. *)
From S2P Require Import Prelude JsString JsMap JsValue ApiClient AppLib SitesApi.
Import Url Client Mutations.

(** ** The file of invalid rows ([downloadInvalidRows]) *)
Module Csv.
Record Row := mkRow { externalId : string; row_name : string; nodePath : string; errors : list string }.
Definition quote (v : string) : string := str1 dquote +:+ replace_all dquote (str1 dquote +:+ str1 dquote) v +:+ str1 dquote.
Definition cells (r : Row) : list string := [externalId r; row_name r; nodePath r; join "; " (errors r)].
Definition csv_line (r : Row) : string := join "," (map quote (cells r)).
Definition header : string := "external_id,name,node,problems".
Definition csv (rows : list Row) : string := join (str1 lf) (header :: map csv_line rows).

(** ** The server's reader ([CsvParser.cs]) *)
Record CsvLimits := mkLimits { MaxBytes : Z; MaxRows : Z; MaxColumns : Z; MaxFieldChars : Z }.
Definition invalid_data (text : string) : exn := EMsg text.
Section Parser.
Context (limits : CsvLimits).
Definition count {A} (l : list A) : Z := Z.of_nat (length l).
Definition len (s : string) : Z := Z.of_nat (String.length s).
Definition over (records : list (list string)) (fields : list string) (current : string) : bool :=
  (MaxFieldChars limits <? len current)%Z || (MaxColumns limits <=? count fields)%Z ||
  (MaxRows limits <? count records)%Z.
Definition too_large : exn := invalid_data "CSV exceeds row, column or field limits.".
(** The loop over the characters; its state when they end. *)
Fixpoint scan (quoted : bool) (records : list (list string)) (fields : list string) (current s : string)
    : result (list (list string) * list string * string * bool) :=
  match s with
  | "" => Ok (records, fields, current, quoted)
  | String c rest =>
      if over records fields current then Throw too_large
      else if quoted then
        if Ascii.eqb c dquote then
          match rest with
          | String d rest' => if Ascii.eqb d dquote then scan true records fields (current +:+ str1 dquote) rest'
                              else scan false records fields current rest
          | "" => scan false records fields current rest
          end
        else scan true records fields (current +:+ str1 c) rest
      else if Ascii.eqb c dquote then scan true records fields current rest
      else if Ascii.eqb c "," then scan false records (fields ++ [current]) "" rest
      else if Ascii.eqb c lf then scan false (records ++ [fields ++ [current]]) [] "" rest
      else if Ascii.eqb c cr then
        match rest with
        | String d rest' => if Ascii.eqb d lf then scan false (records ++ [fields ++ [current]]) [] "" rest'
                            else scan false (records ++ [fields ++ [current]]) [] "" rest
        | "" => scan false (records ++ [fields ++ [current]]) [] "" rest
        end
      else scan false records fields (current +:+ str1 c) rest
  end.
Definition SplitRecords (text : string) : result (list (list string)) :=
  end_ <-! scan false [] [] "" text ;;
  let '(records, fields, current, quoted) := end_ in
  let flush := negb (String.eqb current "") || Nat.ltb 0 (length fields) in
  let records' := if flush then records ++ [fields ++ [current]] else records in
  let fields' := if flush then fields ++ [current] else fields in
  if (MaxFieldChars limits <? len current)%Z || (MaxColumns limits <? count fields')%Z ||
     (MaxRows limits + 1 <? count records')%Z || quoted
  then Throw (invalid_data "CSV exceeds its limits or has an unclosed quoted field.")
  else Ok records'.
Fixpoint zip_row (headers fields : list string) : jsmap string :=
  match headers with
  | [] => []
  | h :: hs => (h, head fields ?? "") :: zip_row hs (tail fields)
  end.
Definition blank_record (fields : list string) : bool :=
  match fields with [f] => String.eqb f "" | _ => false end.
Definition Parse (text : string) : result (list (jsmap string)) :=
  if (MaxBytes limits <? len text)%Z then Throw (invalid_data "CSV exceeds byte limit.")
  else lines <-! SplitRecords text ;;
  match lines with
  | [] => Ok []
  | head :: rows =>
      let headers := map (fun h => to_lower (trim h)) head in
      if some (String.eqb "") headers || negb (Nat.eqb (length (set_of headers)) (length headers))
      then Throw (invalid_data "CSV headers must be nonempty and distinct.")
      else Ok (map (zip_row headers) (bfilter (fun fs => negb (blank_record fs)) rows))
  end.
End Parser.
(** [IngestLimits], and a row of the source ([ToSourceRow]). *)
Definition IngestLimits : CsvLimits := mkLimits (4 * 1024 * 1024) 10000 16 500.
Record SourceRow := mkSource { s_externalId : string; s_name : string; s_timeZone : string; s_node : string; s_status : string }.
Definition ToSourceRow (r : jsmap string) : SourceRow :=
  mkSource (mget r "external_id" ?? "") (mget r "name" ?? "") (mget r "time_zone" ?? "")
    (mget r "node" ?? "") (mget r "status" ?? "open").
(** The checks of a row that need nothing but the row; [zone] is the time-zone
    database. *)
Definition is_blank (s : string) : bool := String.eqb (trim s) "".
Definition row_errors (zone : string -> bool) (r : SourceRow) : list string :=
  (if is_blank (s_externalId r) then ["external_id is required"] else []) ++
  (if is_blank (s_name r) then ["name is required"] else []) ++
  (if zone (s_timeZone r) then [] else ["'" +:+ s_timeZone r +:+ "' is not an IANA time zone"]) ++
  (if bool_decide (s_status r ∈ ["open"; "closed"]) then []
   else ["status must be open|closed, got '" +:+ s_status r +:+ "'"]).
End Csv.

(** ** The page ([IngestPage]) *)
Module Ingest.
Definition stage_call (fileId : string) : Call := post "/api/ingest/uploads" (VObj [("fileId", VStr fileId)]) no_init.
Definition batch_call (batchId : option string) : Call :=
  get "/api/ingest/batches/{id}" (path_of [("id", VStr (batchId ?? ""))]).
Definition commit_call (batchId : option string) : result Call :=
  match batchId with
  | None => Throw (EMsg "no staged batch to commit")
  | Some id => Ok (post "/api/ingest/batches/{id}/commit" VUndef (path_of [("id", VStr id)]))
  end.
Definition batches_call : Call := get "/api/ingest/batches" no_init.
Definition discard_call (id : string) : Call :=
  post "/api/ingest/batches/{id}/discard" VUndef (path_of [("id", VStr id)]).
Record Counts := mkCounts { create : Z; update : Z; close : Z; unchanged : Z; invalid : Z }.
Record Preview := mkPreview { status : string; counts : Counts; rows : list Csv.Row }.
Record Page := mkPage { batchId : option string; phase : string }.
Definition initial : Page := mkPage None "".
Inductive Event := Phase (text : string) | Staged (id : string) | StageFailed | Review (id : string) | Discarded (id : string).
Definition handle (p : Page) (e : Event) : Page :=
  match e with
  | Phase t => mkPage (batchId p) t
  | Staged id => mkPage (Some id) ""
  | StageFailed => mkPage (batchId p) ""
  | Review id => mkPage (Some id) (phase p)
  | Discarded id => mkPage (if bool_decide (batchId p = Some id) then None else batchId p) (phase p)
  end.
Definition step (preview : option Preview) : nat :=
  match preview with
  | None => 1
  | Some p => if String.eqb (status p) "Committed" then 3 else 2
  end.
Definition changes (preview : option Preview) : Z :=
  match preview with Some p => create (counts p) + update (counts p) + close (counts p) | None => 0 end.
Definition commit_shown (preview : option Preview) : bool :=
  match preview with Some p => String.eqb (status p) "Staged" | None => false end.
Definition commit_disabled (isPending : bool) (preview : option Preview) : bool :=
  isPending || (changes preview =? 0)%Z.
Definition commit_text (preview : option Preview) : string :=
  "Commit " +:+ show_Z (changes preview) +:+ (if (changes preview =? 1)%Z then " row" else " rows").
Definition invalidRows (preview : option Preview) : list Csv.Row :=
  match preview with
  | Some p => bfilter (fun r => Nat.ltb 0 (length (Csv.errors r))) (rows p)
  | None => []
  end.
Definition committed_keys (batchId : option string) : list (list val) :=
  [[VStr "ingest-batch"; or_null batchId]; [VStr "ingest-batches"]; [VStr "sites"]].
Definition discard_options : Options := mkOptions [["ingest-batches"]] (Some "Batch discarded") None true false.

(** ** Connectors ([ConnectorsCard]) *)
Record Connector := mkConnector { c_id : string; c_name : string; c_url : string; syncIntervalHours : option num }.
Record Form := mkForm { f_name : string; f_url : string; f_apiKey : string; f_interval : string }.
Record Connectors := mkConnectors { form : Form; editing : option string; c_open : bool }.
Definition empty : Form := mkForm "" "" "" "".
Definition openCreate (c : Connectors) : Connectors := mkConnectors empty None true.
Definition openEdit (k : Connector) (c : Connectors) : Connectors :=
  mkConnectors (mkForm (c_name k) (c_url k) "" ((show_num <$> syncIntervalHours k) ?? "")) (Some (c_id k)) true.
Definition interval_json (text : string) : val :=
  if String.eqb text "" then VNull else VNum (to_number text).
Definition connector_body (f : Form) (apiKey : val) : val :=
  VObj [("name", VStr (trim (f_name f))); ("url", VStr (trim (f_url f))); ("apiKey", apiKey);
        ("syncIntervalHours", interval_json (f_interval f))].
Definition save_connector (c : Connectors) : Call :=
  let f := form c in
  match editing c with
  | Some id =>
      if String.eqb id "" then post "/api/connectors" (connector_body f (VStr (f_apiKey f))) no_init
      else api_put "/api/connectors/{id}"
        (connector_body f (if String.eqb (f_apiKey f) "" then VUndef else VStr (f_apiKey f)))
        (path_of [("id", VStr id)]) None None
  | None => post "/api/connectors" (connector_body f (VStr (f_apiKey f))) no_init
  end.
Definition connector_disabled (isPending : bool) (c : Connectors) : bool :=
  String.eqb (trim (f_name (form c))) "" || String.eqb (trim (f_url (form c))) "" ||
  (negb (truthy_str (editing c)) && String.eqb (f_apiKey (form c)) "") || isPending.
Definition saved_connector (c : Connectors) : Connectors := mkConnectors (form c) (editing c) false.
Definition sync_call (id : string) : Call := post "/api/connectors/{id}/sync" VUndef (path_of [("id", VStr id)]).
Definition remove_connector (id : string) : Call := del "/api/connectors/{id}" (path_of [("id", VStr id)]).
Definition schedule_text (k : Connector) : string :=
  match syncIntervalHours k with
  | Some n => if truthy (VNum n) then "every " +:+ show_num n +:+ "h" else "manual"
  | None => "manual"
  end.
Definition connector_options : Options := mkOptions [["connectors"]] (Some "Connector saved") None true false.
Definition sync_options : Options := mkOptions [["ingest-batches"]] (Some "Sync queued - the batch lands under Batches") None false false.
Definition remove_connector_options : Options := mkOptions [["connectors"]] (Some "Connector deleted") None false false.
End Ingest.
