(* ===== verification/IngestLaws.v ===== *)
(** * The properties of site ingest

    The file of invalid rows is read back, by the server's own reader, as the
    rows it was made of; an untouched connector is saved as it was. *)
From S2P Require Import Prelude JsString JsMap JsValue ApiClient AppLib SitesApi Ingest.
Import Url Client Mutations.

(** ** The file of invalid rows *)
Section Read.
Import Csv.
Context (limits : CsvLimits).
(** A cell no longer than the reader allows. *)
Definition fits (v : string) : Prop := (len v <= MaxFieldChars limits)%Z.
Definition escaped (v : string) : string := replace_all dquote (str1 dquote +:+ str1 dquote) v.

Lemma len_app a b : len (a +:+ b) = (len a + len b)%Z.
Proof. unfold len. rewrite str_length_app. lia. Qed.
Lemma not_over records fields current : fits current -> (count fields < MaxColumns limits)%Z ->
  (count records <= MaxRows limits)%Z -> over limits records fields current = false.
Proof. unfold fits, over. intros. rewrite !orb_false_iff, !Z.ltb_ge, Z.leb_gt. lia. Qed.

Section Cell.
Context (records : list (list string)) (fields : list string)
  (Hf : (count fields < MaxColumns limits)%Z) (Hr : (count records <= MaxRows limits)%Z).
(** The rest of a quoted cell, up to its closing quote. *)
Lemma scan_escaped v current tail_ : fits (current +:+ v) -> 
  (match tail_ with String d _ => Ascii.eqb d dquote | "" => false end) = false ->
  scan limits true records fields current (escaped v +:+ String dquote tail_) =
  scan limits false records fields (current +:+ v) tail_.
Proof.
  intros Hfit Ht. revert current Hfit. induction v as [|c v IH]; intros current Hfit.
  - rewrite str_app_nil_r in *. cbn [escaped replace_all String.append scan].
    rewrite (not_over records fields current Hfit Hf Hr). rewrite Ascii.eqb_refl.
    destruct tail_ as [|d t]; [done|]. by rewrite Ht.
  - assert (Hcur : fits current). { unfold fits in *. rewrite len_app in Hfit. unfold len in *. lia. }
    assert (Hnext : current +:+ String c v = (current +:+ str1 c) +:+ v) by by rewrite <- str_app_assoc.
    unfold escaped in *. cbn [replace_all]. destruct (Ascii.eqb_spec dquote c) as [<-|Hne].
    + rewrite <- !str_app_assoc. cbn [str1 String.append scan]. rewrite (not_over records fields current Hcur Hf Hr), !Ascii.eqb_refl.
      cbn [String.append]. rewrite Hnext in *. by apply IH.
    + cbn [str1 String.append scan]. rewrite (not_over records fields current Hcur Hf Hr).
      rewrite (proj2 (Ascii.eqb_neq c dquote)) by congruence. rewrite Hnext in *. by apply IH.
Qed.
Lemma scan_quote v tail_ : fits v ->
  (match tail_ with String d _ => Ascii.eqb d dquote | "" => false end) = false ->
  scan limits false records fields "" (quote v +:+ tail_) = scan limits false records fields v tail_.
Proof.
  intros Hv Ht. unfold quote. fold (escaped v). rewrite <- !str_app_assoc. cbn [str1 String.append scan].
  rewrite not_over, Ascii.eqb_refl; [|unfold fits, len in *; cbn; lia|done..].
  change (str1 dquote +:+ tail_) with (String dquote tail_). apply (scan_escaped v ""); done.
Qed.
End Cell.

Lemma scan_comma records fields current tail_ : fits current -> (count fields < MaxColumns limits)%Z ->
  (count records <= MaxRows limits)%Z ->
  scan limits false records fields current (String "," tail_) = scan limits false records (fields ++ [current]) "" tail_.
Proof. intros. cbn [scan]. by rewrite not_over. Qed.
Lemma scan_lf records fields current tail_ : fits current -> (count fields < MaxColumns limits)%Z ->
  (count records <= MaxRows limits)%Z ->
  scan limits false records fields current (String lf tail_) = scan limits false (records ++ [fields ++ [current]]) [] "" tail_.
Proof. intros. cbn [scan]. by rewrite not_over. Qed.

(** A line of cells leaves its last one in hand. *)
Definition starts_ok (t : string) : Prop := t = "" \/ exists t', t = String lf t'.
Lemma scan_line records v cells_ fields tail_ : Forall fits (v :: cells_) ->
  (count (fields ++ v :: cells_) <= MaxColumns limits)%Z -> (count records <= MaxRows limits)%Z -> starts_ok tail_ ->
  scan limits false records fields "" (join "," (map quote (v :: cells_)) +:+ tail_) =
  scan limits false records (fields ++ removelast (v :: cells_)) (List.last (v :: cells_) "") tail_.
Proof.
  intros Hfit Hc Hr Ht. revert v fields Hfit Hc. induction cells_ as [|w cells_ IH]; intros v fields [Hv Hfit]%Forall_cons Hc.
  - cbn [map String.concat removelast List.last]. rewrite app_nil_r. apply scan_quote; [|done|done|].
    + revert Hc. unfold count. rewrite length_app. cbn. lia.
    + by destruct Ht as [->|[t' ->]].
  - cbn [map]. rewrite join_cons2, <- !str_app_assoc.
    assert (Hlt : (count fields < MaxColumns limits)%Z). { revert Hc. unfold count. rewrite length_app. cbn. lia. }
    rewrite scan_quote by done. cbn [String.append].
    rewrite scan_comma by done. rewrite <- map_cons, IH; [|done|by rewrite <- app_assoc].
    cbn [removelast List.last]. by rewrite <- app_assoc.
Qed.
(** Lines of cells, one under the other: all but the last are records. *)
Lemma scan_lines records line lines : 
  Forall (fun l => l <> [] /\ Forall fits l /\ (count l <= MaxColumns limits)%Z) (line :: lines) ->
  (count (records ++ line :: lines) <= MaxRows limits + 1)%Z ->
  scan limits false records [] "" (join (str1 lf) (map (fun l => join "," (map quote l)) (line :: lines))) =
  let all := line :: lines in
  Ok (records ++ removelast all, removelast (List.last all []), List.last (List.last all []) "", false).
Proof.
  revert records line. induction lines as [|l2 lines IH]; intros records line [(Hne & Hfit & Hc) Hls]%Forall_cons Hr.
  - destruct line as [|v cells_]; [done|].
    assert (Hrec : (count records <= MaxRows limits)%Z). { revert Hr. unfold count. rewrite length_app. cbn. lia. }
    pose proof (scan_line records v cells_ [] "" Hfit Hc Hrec (or_introl eq_refl)) as H.
    rewrite str_app_nil_r in H. cbn [removelast List.last]. rewrite app_nil_r. exact H.
  - destruct line as [|v cells_]; [done|].
    assert (Hrec : (count records <= MaxRows limits)%Z). { revert Hr. unfold count. rewrite length_app. cbn. lia. }
    pose proof (scan_line records v cells_ [] (String lf (join (str1 lf) (map (fun l => join "," (map quote l)) (l2 :: lines))))
      Hfit Hc Hrec (or_intror (ex_intro _ _ eq_refl))) as H.
    etransitivity; [exact H|]. clear H. assert (Hlen : (0 < count (v :: cells_))%Z) by (unfold count; cbn; lia).
    rewrite scan_lf; [| |unfold count in *; rewrite length_app, removelast_firstn_len, length_firstn; cbn in *; lia|done].
    + rewrite app_nil_l, <- (app_removelast_last "" (l := v :: cells_)) by done.
      rewrite IH; [|done|revert Hr; unfold count; rewrite !length_app; cbn; lia].
      cbn [removelast List.last]. by rewrite <- app_assoc.
    + apply Forall_forall with (x := List.last (v :: cells_) "") in Hfit; [done|].
      apply list_elem_of_In. apply exists_last in Hne as (i & x & E). rewrite E, last_last, in_app_iff. right. by left.
Qed.
End Read.

Section File.
Import Csv.
#[local] Notation limits := IngestLimits.
Definition header_cells : list string := ["external_id"; "name"; "node"; "problems"].
Definition as_record (r : Row) : jsmap string :=
  [("external_id", externalId r); ("name", row_name r); ("node", nodePath r); ("problems", join "; " (errors r))].
Definition readable (rows : list Row) : Prop :=
  Forall (fun r => Forall (fits limits) (cells r)) rows /\ (count rows <= MaxRows limits)%Z /\
  (len (csv rows) <= MaxBytes limits)%Z.
Lemma scan_header t : scan limits false [] [] "" (header +:+ t) =
  scan limits false [] ["external_id"; "name"; "node"] "problems" t.
Proof. reflexivity. Qed.
Lemma split_csv rows : Forall (fun r => Forall (fits limits) (cells r)) rows -> (count rows <= MaxRows limits)%Z ->
  SplitRecords limits (csv rows) = Ok (header_cells :: map cells rows).
Proof.
  intros Hfit Hr. unfold SplitRecords. destruct rows as [|r rows]; [reflexivity|].
  assert (E : csv (r :: rows) = header +:+ String lf (join (str1 lf) (map (fun l => join "," (map quote l)) (map cells (r :: rows))))).
  { unfold csv. rewrite map_map. reflexivity. }
  rewrite E, scan_header, scan_lf by (unfold fits, len, count; cbn; lia).
  change (map cells (r :: rows)) with (cells r :: map cells rows). rewrite scan_lines.
  - set (all := cells r :: map cells rows). cbn zeta.
    assert (Hlast : exists r', List.last all [] = cells r').
    { unfold all. clear. revert r. induction rows as [|x rows IH]; intros r; [by exists r|]. cbn [map]. apply IH. }
    destruct Hlast as [r' Hlast]. rewrite Hlast. cbn [removelast List.last cells].
    change ([] ++ [["external_id"; "name"; "node"] ++ ["problems"]]) with [header_cells].
    assert (Hall : removelast all ++ [cells r'] = all).
    { rewrite <- Hlast. symmetry. by apply app_removelast_last. }
    assert (Hp : fits limits (join "; " (errors r'))).
    { assert (Hin : Forall (Forall (fits limits)) all) by (unfold all; apply (Forall_fmap _ _ (r :: rows)); exact Hfit).
      rewrite <- Hall in Hin. apply Forall_app in Hin as [_ Hin]. apply Forall_cons in Hin as [Hin _].
      unfold cells in Hin. repeat apply Forall_cons in Hin as [? Hin]. done. }
    unfold fits in Hp. cbv beta iota zeta delta [rbind].
    change (Nat.ltb 0 (length [externalId r'; row_name r'; nodePath r'])) with true. rewrite orb_true_r.
    rewrite <- app_assoc. change ([externalId r'; row_name r'; nodePath r'] ++ [join "; " (errors r')]) with (cells r').
    rewrite Hall. destruct (Z.ltb_spec (MaxFieldChars limits) (len (join "; " (errors r')))); [lia|].
    change (count (cells r')) with 4%Z. change (MaxColumns limits <? 4)%Z with false.
    destruct (Z.ltb_spec (MaxRows limits + 1) (count ([header_cells] ++ all))) as [Hlt|]; [|done].
    revert Hlt Hr. unfold all, count. cbn [length app]. rewrite length_map. lia.
  - apply (Forall_fmap cells _ (r :: rows)). eapply Forall_impl; [exact Hfit|]. intros x Hx. split_and!; [done|done|].
    unfold count. cbn. lia.
  - revert Hr. unfold count. cbn [length app]. rewrite length_map. lia.
Qed.

Lemma parse_csv rows : readable rows -> Parse limits (csv rows) = Ok (map as_record rows).
Proof.
  intros (Hfit & Hr & Hb). unfold Parse. destruct (Z.ltb_spec (MaxBytes limits) (len (csv rows))); [lia|].
  rewrite split_csv by done. cbv beta iota delta [rbind]. change (map (fun h => to_lower (trim h)) header_cells) with header_cells.
  change (some (String.eqb "") header_cells || negb (Nat.eqb (length (set_of header_cells)) (length header_cells))) with false.
  cbv iota. f_equal. rewrite bfilter_id.
  - rewrite map_map. by apply map_ext.
  - apply forallb_forall. intros fs (r & <- & _)%in_map_iff. done.
Qed.

(** C3: The file of invalid rows reads back.  Downloaded from the console and
    uploaded again, a file within the reader's limits is read by the server
    as one record for each row, in order: its id, name and node as they
    were - quotes, commas and line breaks included - and its problems. *)
Theorem invalid_rows_read_back rows : readable rows ->
  Parse limits (csv rows) = Ok (map as_record rows).
Proof. apply parse_csv. Qed.
End File.
Lemma invalid_rows_read_back_witness :
  let r := Csv.mkRow "s-1" ("Joe " +:+ str1 dquote +:+ "Big" +:+ str1 dquote +:+ " Pit, Inc." +:+ str1 lf) "" ["name is required"; "no node"] in
  Csv.Parse Csv.IngestLimits (Csv.csv [r; r]) = Ok (map as_record [r; r]).
Proof.
  intros r. apply (invalid_rows_read_back [r; r]). split_and!.
  - repeat constructor; unfold fits; vm_compute; intros [=].
  - vm_compute. intros [=].
  - vm_compute. intros [=].
Defined.

(** ** What the modelling showed *)
(** The file has no time zone and no status: uploaded again, whatever was
    fixed in it, every row is refused for its empty time zone, and a row that
    was to close a site reads as open. *)
Lemma downloaded_rows_cannot_be_rerun zone rows : readable rows -> zone "" = false ->
  exists records, Csv.Parse Csv.IngestLimits (Csv.csv rows) = Ok records /\ length records = length rows /\
    Forall (fun r => "'' is not an IANA time zone" ∈ Csv.row_errors zone (Csv.ToSourceRow r) /\
                     Csv.s_status (Csv.ToSourceRow r) = "open") records.
Proof.
  intros Hr Hz. exists (map as_record rows). split_and!; [|by rewrite length_map|].
  - by apply parse_csv.
  - apply Forall_forall. intros x Hx. apply list_elem_of_fmap in Hx as (r & -> & _). split; [|done].
    unfold Csv.row_errors. change (Csv.s_timeZone (Csv.ToSourceRow (as_record r))) with "". rewrite Hz. set_solver.
Qed.
(** A batch under review that is discarded leaves the page without one; any
    other stays. *)
Lemma discard_keeps_the_other p id : Ingest.batchId (Ingest.handle p (Ingest.Discarded id)) <> Some id /\
  forall other, other <> id -> Ingest.batchId p = Some other ->
    Ingest.batchId (Ingest.handle p (Ingest.Discarded id)) = Some other.
Proof.
  cbn. split.
  - case_bool_decide; [done|]. done.
  - intros other Hne Hp. rewrite Hp, bool_decide_eq_false_2 by congruence. done.
Qed.
(** A connector opened for editing and saved as it is sends its name and URL
    and no key, so the stored key is kept. *)
Lemma untouched_connector_keeps_its_key k c : Ingest.c_id k <> "" ->
  exists body, Ingest.save_connector (Ingest.openEdit k c) =
    api_put "/api/connectors/{id}" body (path_of [("id", VStr (Ingest.c_id k))]) None None /\
  prop body "apiKey" = VUndef /\ prop body "name" = VStr (trim (Ingest.c_name k)) /\
  prop body "url" = VStr (trim (Ingest.c_url k)) /\
  (Ingest.syncIntervalHours k = None -> prop body "syncIntervalHours" = VNull).
Proof.
  intros Hid. unfold Ingest.save_connector, Ingest.openEdit. cbn [Ingest.editing Ingest.form].
  rewrite (proj2 (String.eqb_neq _ "") Hid). eexists. split; [done|]. split_and!; [done..|].
  intros H. cbn. by rewrite H.
Qed.
(** An interval that is no number is saved as JSON's null: manual. *)
Lemma bad_interval_is_manual : stringify (Ingest.interval_json "soon") = Some "null".
Proof. by vm_compute. Qed.
