(* ===== verification/OrgPages.v ===== *)
(** * Members, developers, audit and files
    ([apps/console/src/pages/members.tsx], [developers.tsx], [audit.tsx],
    [features/audit], [features/files], [components/command-search.tsx])

    The pages that list what an organization has: their searches and guards,
    the secrets of keys and webhooks, the audit trail by day, the file library
    and picker, and the search of sites. *)
From S2P Require Import Prelude JsString JsMap JsValue ApiClient AppLib Session SitesApi Reports.
Import Url Client Mutations.

(** ** Members ([members.tsx], [user-menu.tsx]) *)
Module Members.
Record Member := mkMember { userId : string; member_name : option string; member_email : string; roles : list string }.
(** [label.split(/[\s@._-]+/)], the empty pieces dropped. *)
Definition separator (c : ascii) : bool :=
  is_space c || Ascii.eqb c "@" || Ascii.eqb c "." || Ascii.eqb c "_" || Ascii.eqb c "-".
Fixpoint pieces (s : string) : list string :=
  match s with
  | "" => [""]
  | String c s' => if separator c then "" :: pieces s'
                   else match pieces s' with w :: ws => String c w :: ws | [] => [str1 c] end
  end.
Definition initialsOf (label : string) : string :=
  String.concat "" (map (fun p => match p with String c _ => str1 (upper_ascii c) | "" => "" end)
    (take 2 (bfilter (fun p => negb (String.eqb p "")) (pieces label)))).
Definition label (m : Member) : string := member_name m ?? member_email m.
Definition visibleMembers (search : string) (members : option (list Member)) : list Member :=
  let term := to_lower (trim search) in
  let all := members ?? [] in
  if String.eqb term "" then all
  else bfilter (fun m => includes term (to_lower (join " " ([member_name m ?? ""; member_email m] ++ roles m)))) all.
Definition members_empty (search : string) : string :=
  if String.eqb search "" then "No members yet." else "No members match the search.".
Definition members_page (offset : Z) : Call :=
  get "/api/members" (query_of [("limit", VNum (num_Z 50)); ("offset", VNum (num_Z offset))]).
Definition invite_call (email roleId : string) : Call :=
  post "/api/members/invitations" (VObj [("email", VStr email); ("roleId", VStr roleId)]) no_init.
Definition invite_disabled (isPending : bool) (email roleId : string) : bool :=
  negb (includes "@" email) || String.eqb roleId "" || isPending.
Definition revoke_invitation (id : string) : Call :=
  del "/api/members/invitations/{invitationId}" (path_of [("invitationId", VStr id)]).
Definition remove_member (userId : string) : Call := del "/api/members/{userId}" (path_of [("userId", VStr userId)]).
(** A role is unassigned by its name, looked up among the roles loaded. *)
Definition unassign_call (roles : option (list (string * string))) (roleName userId : string) : result Call :=
  match roles ≫= js_find (fun r => String.eqb (snd r) roleName) with
  | None => Throw (EMsg "unknown role")
  | Some r => Ok (del "/api/roles/{id}/assign/{userId}" (path_of [("id", VStr (fst r)); ("userId", VStr userId)]))
  end.
Definition contact_call (email : string) : Call := post "/contact-links" (VObj [("email", VStr email)]) no_init.
Definition contact_disabled (isPending : bool) (email : string) : bool := negb (includes "@" email) || isPending.
Definition revoke_contact (id : string) : Call := del "/api/contacts/{id}" (path_of [("id", VStr id)]).
Definition self (me : option Me) : option string := match me with Some (MeUser u) => Some (Principal.userId u) | _ => None end.
Definition removable (me : option Me) (m : Member) : bool := negb (bool_decide (self me = Some (userId m))).
End Members.

(** ** Keys and webhooks ([developers.tsx]) *)
Module Developers.
(** A card whose dialog makes something and reveals its secret: [fields] are
    the inputs a close clears. *)
Record Card := mkCard { d_open : bool; fields : list string; kept : list string; secret : option string }.
Definition keys_card : Card := mkCard false [""] [""] None.        (* name; role *)
Definition hooks_card : Card := mkCard false [""; ""] [] None.     (* url, events *)
Inductive CardEvent := OpenChange (next : bool) | Fill (i : nat) (text : string) | Keep (i : nat) (text : string)
  | Created (revealed : string) | Rotated (revealed : string).
Definition card_step (c : Card) (e : CardEvent) : Card :=
  match e with
  | OpenChange next =>
      if next then mkCard true (fields c) (kept c) (secret c)
      else mkCard false (map (fun _ => "") (fields c)) (kept c) None
  | Fill i t => mkCard (d_open c) (<[i := t]> (fields c)) (kept c) (secret c)
  | Keep i t => mkCard (d_open c) (fields c) (<[i := t]> (kept c)) (secret c)
  | Created s => mkCard (d_open c) (fields c) (kept c) (Some s)
  | Rotated s => mkCard true (fields c) (kept c) (Some s)
  end.
(** What the dialog shows: nothing while closed, else the secret or the form. *)
Inductive Shown := Nothing | Secret (s : string) | TheForm.
Definition shown (c : Card) : Shown :=
  if d_open c then if truthy_str (secret c) then Secret (secret c ?? "") else TheForm else Nothing.
Definition create_key (name roleId : string) : Call :=
  post "/api/api-keys" (VObj [("name", VStr (trim name)); ("roleId", VStr roleId)]) no_init.
Definition key_disabled (isPending : bool) (name roleId : string) : bool :=
  String.eqb (trim name) "" || String.eqb roleId "" || isPending.
Definition revoke_key (id : string) : Call := del "/api/api-keys/{id}" (path_of [("id", VStr id)]).
Definition rotate_key (id : string) : Call := post "/api/api-keys/{id}/rotate" (VObj []) (path_of [("id", VStr id)]).
Definition events_of (text : string) : list string :=
  bfilter (fun e => negb (String.eqb e "")) (map trim (split_char "," text)).
Definition create_hook (url events : string) : Call :=
  post "/api/webhooks" (VObj [("url", VStr (trim url)); ("events", VArr (map VStr (events_of events)))]) no_init.
Definition hook_disabled (isPending : bool) (url : string) : bool := String.eqb (trim url) "" || isPending.
Definition ping_hook (id : string) : Call := post "/api/webhooks/{id}/ping" VUndef (path_of [("id", VStr id)]).
Definition remove_hook (id : string) : Call := del "/api/webhooks/{id}" (path_of [("id", VStr id)]).
Definition rotate_secret (id : string) : Call :=
  post "/api/webhooks/{id}/rotate-secret" VUndef (path_of [("id", VStr id)]).
Definition events_text (events : list string) : string :=
  if Nat.eqb (length events) 0 then "all" else join ", " events.
(** The expiry of a key: the text, and whether it is soon. *)
Definition expires_soon (expiresAt : option num) (now : num) : bool :=
  match expiresAt with Some t => num_lt (num_sub t now) (num_Z (7 * 86400000)) | None => false end.
Definition expired (expiresAt : option num) (now : num) : bool :=
  match expiresAt with Some t => num_lt t now | None => false end.
(** The button copies, and says so for a second and a half. *)
Record Copy := mkCopy { copied : bool; timers : list Z }.
Definition copy (now : Z) (c : Copy) : Copy := mkCopy true (timers c ++ [now + 1500]%Z).
Definition fire (now : Z) (c : Copy) : Copy :=
  if some (fun t => t <=? now)%Z (timers c)
  then mkCopy false (bfilter (fun t => negb (t <=? now)%Z) (timers c)) else c.
End Developers.

(** ** The audit trail ([audit.tsx], [audit-timeline.tsx]) *)
Module Audit.
Inductive AuditKind := events | changes | authz | access.
Definition kind_name (k : AuditKind) : string :=
  match k with events => "events" | changes => "changes" | authz => "authz" | access => "access" end.
Definition KINDS : list AuditKind := [events; changes; authz; access].
Definition str_of (row : val) (key : string) : string := js_String (prop row key).
Definition auditHeadline (kind : AuditKind) (row : val) : string :=
  match kind with
  | events => if is_nullish (prop row "eventName") then "event" else str_of row "eventName"
  | changes => str_of row "operation" +:+ " " +:+ str_of row "schemaName" +:+ "." +:+ str_of row "tableName"
  | authz => str_of row "action" +:+ " → " +:+ str_of row "outcome"
  | access => str_of row "method" +:+ " " +:+ str_of row "path" +:+ " → " +:+ str_of row "statusCode"
  end.
Definition auditTone (kind : AuditKind) (row : val) : option (string * string) :=
  match kind with
  | authz =>
      if String.eqb (str_of row "outcome") "Allowed" then Some ("allowed", "success-light")
      else Some (to_lower (if is_nullish (prop row "outcome") then "denied" else str_of row "outcome"), "destructive-light")
  | access =>
      let code := match prop row "statusCode" with VNum n => n | _ => num_Z 0 end in
      Some (show_num code, if num_le (num_Z 500) code then "destructive-light"
                           else if num_le (num_Z 400) code then "warning-light" else "success-light")
  | changes => Some (to_lower (if is_nullish (prop row "operation") then "" else str_of row "operation"), "secondary")
  | events => None
  end.
Section Days.
(** [toLocaleDateString] of a row's time: the weekday, the month and the day. *)
Context {R : Type} (day : R -> string).
Definition groupAuditByDay (rows : list R) : jsmap (list R) :=
  fold_left (fun groups row => mset groups (day row) ((mget groups (day row) ?? []) ++ [row])) rows [].
(** The timeline: each day with its rows and their steps. *)
Fixpoint number_rows (step : nat) (rows : list R) : list (nat * R) * nat :=
  match rows with
  | [] => ([], step)
  | r :: rows => let '(out, next) := number_rows (S step) rows in ((S step, r) :: out, next)
  end.
Fixpoint number_days (step : nat) (groups : jsmap (list R)) : jsmap (list (nat * R)) :=
  match groups with
  | [] => []
  | (d, rows) :: rest => let '(out, next) := number_rows step rows in (d, out) :: number_days next rest
  end.
Definition AuditTimeline (rows : list R) : jsmap (list (nat * R)) := number_days 0 (groupAuditByDay rows).
End Days.
Record TrailPage := mkPage { kind : AuditKind; limit : Z }.
Definition initial : TrailPage := mkPage events 50.
Definition choose_kind (next : string) (p : TrailPage) : TrailPage :=
  match js_find (fun k => String.eqb (kind_name k) next) KINDS with Some k => mkPage k 50 | None => p end.
Definition load_more_shown (count : Z) (p : TrailPage) : bool := ((limit p <=? count) && (limit p <? 500))%Z.
Definition load_more (p : TrailPage) : TrailPage := mkPage (kind p) (limit p + 100).
Definition audit_call (p : TrailPage) : Call :=
  get "/api/audit/{kind}" {| path := VObj [("kind", VStr (kind_name (kind p)))]; query := VObj [("limit", VNum (num_Z (limit p)))] |}.
Definition export_call : Call := post "/api/audit/export" VUndef no_init.
End Audit.

(** ** The files ([file-library.tsx], [file-picker.tsx]) *)
Module Files.
Inductive Button := Download | Restore | Hold (hold : bool) | Delete.
Record FileRow := mkFileRow { f_id : string; f_name : string; f_status : string; legalHold : bool }.
Definition buttons (manage : bool) (f : FileRow) : list Button :=
  (if String.eqb (f_status f) "Clean" then [Download] else []) ++
  (if manage && String.eqb (f_status f) "Deleted" then [Restore] else []) ++
  (if manage && negb (String.eqb (f_status f) "Erased") && negb (String.eqb (f_status f) "Deleted")
   then [Hold (negb (legalHold f)); Delete] else []).
Definition press (f : FileRow) (b : Button) : Call :=
  match b with
  | Download => file_call (f_id f)
  | Restore => restore_call (f_id f)
  | Hold h => hold_call (f_id f) h
  | Delete => trash_call (f_id f)
  end.
Definition files_key (siteId : option string) (trash : bool) : list val :=
  [VStr "files"; VStr "list"; or_undefined siteId; VBool trash].
Definition refresh_files (siteId : option string) : list (list string) :=
  ["files"] :: (if truthy_str siteId then [["reports"; "photos"; siteId ?? ""]] else []).
Definition upload_type (type : string) : string := if String.eqb type "" then "application/octet-stream" else type.
Definition dropzone_shown (manage trash : bool) : bool := manage && negb trash.
Definition files_empty (manage : bool) : string :=
  "No files yet." +:+ (if manage then " Upload one to get started." else "").
(** The picker's choices, and what its retry asks for. *)
Definition picker_items (cleanOnly : bool) (pages : option (list (list FileRow))) : list FileRow :=
  bfilter (fun f => negb cleanOnly || String.eqb (f_status f) "Clean") (concat (pages ?? [])).
Definition picker_option (f : FileRow) : string := f_name f +:+ " (" +:+ f_status f +:+ ")".
Inductive Retry := FetchNextPage | Refetch.
Definition picker_retry (isFetchNextPageError : bool) : Retry := if isFetchNextPageError then FetchNextPage else Refetch.
End Files.

(** ** The search of sites ([command-search.tsx]) *)
Module CommandSearch.
Record Search := mkSearch { s_open : bool; q : string }.
Inductive SearchEvent := Key (key : string) (meta ctrl : bool) | OpenButton | OpenChange (next : bool) | Type_ (text : string) | Go (id : string).
Definition search_step (s : Search) (e : SearchEvent) : Search * option string :=
  match e with
  | Key k meta ctrl => if String.eqb (to_lower k) "k" && (meta || ctrl) then (mkSearch true (q s), None) else (s, None)
  | OpenButton => (mkSearch true (q s), None)
  | OpenChange next => (mkSearch next (if next then q s else ""), None)
  | Type_ t => (mkSearch (s_open s) t, None)
  | Go id => (mkSearch false "", Some id)
  end.
Definition enabled (s : Search) (term : string) : bool := s_open s && negb (String.eqb term "").
Definition search_call (term : string) : Call := SitesApi.list_sites 8 None (Some term) None None None None.
End CommandSearch.
