(* ===== verification/OrgPagesLaws.v ===== *)
(** * The properties of members, developers, audit and files

    The trail by day holds every row once; a secret is gone once its dialog
    closed; what a file offers follows its status. *)
From S2P Require Import Prelude JsString JsMap JsValue ApiClient AppLib Session SitesApi Reports OrgPages.
Import Url Client Mutations.

(** ** The audit trail *)
Section Days.
Import Audit.
Context {R : Type} (day : R -> string).
Definition on_day (d : string) (rows : list R) : list R := bfilter (fun r => String.eqb (day r) d) rows.
Definition grouping (rows : list R) (m : jsmap (list R)) : jsmap (list R) :=
  fold_left (fun groups row => mset groups (day row) ((mget groups (day row) ?? []) ++ [row])) rows m.
Lemma grouping_get rows m d : (mget (grouping rows m) d ?? []) = (mget m d ?? []) ++ on_day d rows.
Proof.
  revert m. induction rows as [|r rows IH]; intros m; cbn [grouping fold_left on_day List.filter]; [by rewrite app_nil_r|].
  fold (grouping rows). rewrite IH, mget_set. destruct (String.eqb_spec (day r) d) as [->|]; cbn [from_option]; [|done].
  by rewrite <- app_assoc.
Qed.
Lemma grouping_keys rows m d : d ∈ mkeys (grouping rows m) <-> d ∈ mkeys m \/ exists r, r ∈ rows /\ day r = d.
Proof.
  revert m. induction rows as [|r rows IH]; intros m; cbn [grouping fold_left]; [set_solver|].
  fold (grouping rows). rewrite IH, mset_elem. set_solver.
Qed.
Lemma grouping_NoDup rows m : NoDup (mkeys m) -> NoDup (mkeys (grouping rows m)).
Proof. revert m. induction rows as [|r rows IH]; intros m Hm; [done|]. by apply IH, mset_NoDup. Qed.
Lemma mset_concat (m : jsmap (list R)) k r :
  Permutation (concat (map snd (mset m k ((mget m k ?? []) ++ [r])))) (concat (map snd m) ++ [r]).
Proof.
  induction m as [|[i l] m IH]; cbn; [done|]. destruct (String.eqb i k); cbn.
  - rewrite <- !app_assoc. apply Permutation_app_head, Permutation_app_comm.
  - by rewrite IH, app_assoc.
Qed.
Lemma grouping_concat rows m : Permutation (concat (map snd (grouping rows m))) (concat (map snd m) ++ rows).
Proof.
  revert m. induction rows as [|r rows IH]; intros m; cbn [grouping fold_left]; [by rewrite app_nil_r|].
  fold (grouping rows). rewrite IH, mset_concat. by rewrite <- app_assoc.
Qed.
Lemma number_rows_spec step (rows : list R) :
  map snd (number_rows step rows).1 = rows /\ map fst (number_rows step rows).1 = seq (S step) (length rows) /\
  (number_rows step rows).2 = step + length rows.
Proof.
  revert step. induction rows as [|r rows IH]; intros step; cbn; [by split_and!|].
  destruct (IH (S step)) as (H1 & H2 & H3). destruct (number_rows (S step) rows) as [out next]. cbn in *.
  rewrite H1, H2, H3. split_and!; [done|done|lia].
Qed.
Lemma number_days_spec step (groups : jsmap (list R)) :
  map (fun g => (fst g, map snd (snd g))) (number_days step groups) = groups /\
  map fst (concat (map snd (number_days step groups))) = seq (S step) (length (concat (map snd groups))).
Proof.
  revert step. induction groups as [|[d rows] groups IH]; intros step; [done|]. cbn [number_days].
  destruct (number_rows_spec step rows) as (H1 & H2 & H3). destruct (number_rows step rows) as [out next]. cbn [fst snd] in *.
  destruct (IH next) as [H4 H5]. cbn [map concat fst snd]. rewrite H1, H4. split; [done|].
  rewrite map_app, H2, H5, length_app, seq_app, H3. done.
Qed.

(** The trail shows every row once, under its own day.  Each day has one
    heading; under it are exactly the rows of that day, in the order they
    came; every row's day has its heading; and the steps count all rows from
    one, heading after heading. *)
Theorem trail_shows_every_row (rows : list R) :
  let trail := AuditTimeline day rows in
  NoDup (mkeys trail) /\
  (forall d shown, (d, shown) ∈ trail -> map snd shown = on_day d rows) /\
  (forall r, r ∈ rows -> day r ∈ mkeys trail) /\
  Permutation (map snd (concat (map snd trail))) rows /\
  map fst (concat (map snd trail)) = seq 1 (length rows).
Proof.
  intros trail. destruct (number_days_spec 0 (groupAuditByDay day rows)) as [Hg Hs]. fold trail in Hg, Hs.
  change (groupAuditByDay day rows) with (grouping rows []) in *.
  assert (Hk : mkeys trail = mkeys (grouping rows [])).
  { rewrite <- Hg, map_map. reflexivity. }
  assert (Hn : NoDup (mkeys (grouping rows []))) by (apply grouping_NoDup; constructor).
  pose proof (grouping_concat rows []) as Hp. cbn [map concat app] in Hp.
  split_and!.
  - by rewrite Hk.
  - intros d shown Hin. assert (Hin' : (d, map snd shown) ∈ grouping rows []).
    { rewrite <- Hg. apply list_elem_of_fmap. exists (d, shown). by split. }
    pose proof (grouping_get rows [] d) as E. cbn in E. rewrite <- E. clear - Hin' Hn.
    induction (grouping rows []) as [|[i l] m IH]; [set_solver|]. cbn in *. apply NoDup_cons in Hn as [Hi Hn].
    apply elem_of_cons in Hin' as [[= -> <-]|Hin]; [by rewrite String.eqb_refl|].
    destruct (String.eqb_spec i d) as [->|]; [|by apply IH]. destruct Hi. by apply (list_elem_of_fmap_2 fst) in Hin.
  - intros r Hr. rewrite Hk. apply grouping_keys. right. by exists r.
  - assert (E : map snd (concat (map snd trail)) = concat (map snd (grouping rows []))).
    { rewrite <- Hg at 1. rewrite map_map, concat_map, map_map. reflexivity. }
    by rewrite E.
  - etransitivity; [exact Hs|]. by rewrite Hp.
Qed.
End Days.

(** Rows a few years apart whose weekday, month and day agree share a heading:
    the heading leaves the year out. *)
Lemma heading_has_no_year :
  let day := fun r : string * string => fst r in
  Audit.AuditTimeline day [("Monday, March 4", "2030"); ("Monday, March 4", "2024")] =
  [("Monday, March 4", [(1, ("Monday, March 4", "2030")); (2, ("Monday, March 4", "2024"))])].
Proof. by vm_compute. Qed.
(** ** Secrets *)
Section Secrets.
Import Developers.
Definition reveals (e : CardEvent) : bool := match e with Created _ | Rotated _ => true | _ => false end.
Definition after (c : Card) (es : list CardEvent) : Card := fold_left card_step es c.
Lemma secret_kept c es : some reveals es = false -> secret (after c es) = secret c \/ secret (after c es) = None.
Proof.
  revert c. induction es as [|e es IH]; intros c; [by left|]. cbn [existsb]. intros [He Hes]%orb_false_iff.
  cbn [after fold_left]. destruct (IH (card_step c e) Hes) as [H|H]; fold (after (card_step c e) es); [|by right].
  rewrite H. destruct e as [[]| | | |]; cbn; [by left|by right|by left|by left|done|done].
Qed.
(** Once its dialog closed, a secret is shown no more: until another is
    revealed the dialog shows the form, its inputs cleared. *)
Lemma closed_forgets c es : some reveals es = false -> secret (after c (OpenChange false :: es)) = None.
Proof. intros Hes. cbn [after fold_left]. by destruct (secret_kept (card_step c (OpenChange false)) es Hes). Qed.
(** A secret made after its dialog was closed waits, and opening the dialog to
    make another shows it. *)
Lemma late_secret_waits : shown (after keys_card [OpenChange true; OpenChange false; Created "k1"]) = Nothing /\
  shown (after keys_card [OpenChange true; OpenChange false; Created "k1"; OpenChange true]) = Secret "k1".
Proof. done. Qed.
(** A second secret revealed before the first was read takes its place. *)
Lemma second_secret_takes_the_place :
  shown (after keys_card [OpenChange true; OpenChange false; Created "k1"; Rotated "k2"]) = Secret "k2".
Proof. done. Qed.
End Secrets.

(** ** Files and members *)
Lemma file_buttons manage f : 
  (Files.Download ∈ Files.buttons manage f <-> Files.f_status f = "Clean") /\
  (Files.Delete ∈ Files.buttons manage f -> manage = true /\ Files.f_status f <> "Deleted" /\ Files.f_status f <> "Erased") /\
  (Files.Restore ∈ Files.buttons manage f -> manage = true /\ Files.f_status f = "Deleted").
Proof.
  unfold Files.buttons. destruct (String.eqb_spec (Files.f_status f) "Clean") as [E|];
    [rewrite E; destruct manage; cbn; set_solver|].
  destruct (String.eqb_spec (Files.f_status f) "Deleted") as [E|]; [rewrite E; destruct manage; cbn; set_solver|].
  destruct (String.eqb_spec (Files.f_status f) "Erased") as [E|]; [rewrite E; destruct manage; cbn; set_solver|].
  destruct manage; cbn; set_solver.
Qed.
Lemma initials_example : Members.initialsOf "ada.lovelace@acme.test" = "AL".
Proof. by vm_compute. Qed.
(** Of two roles with one name, the first is unassigned whichever was meant. *)
Lemma same_named_role_is_the_first userId :
  Members.unassign_call (Some [("r1", "Manager"); ("r2", "Manager")]) "Manager" userId =
  Ok (del "/api/roles/{id}/assign/{userId}" (path_of [("id", VStr "r1"); ("userId", VStr userId)])).
Proof. done. Qed.
