(* ===== verification/FilterEditors.v ===== *)
(** * The filter editors

    [packages/ui/src/components/reui/filters/filters-editors.tsx]: the option
    service every option editor is given ([useFilterOptions]), the resolution
    of restored values, the list the menus share ([FilterMenu] with its pin
    keeper), the editors themselves and the choice of an editor.  The service
    is a state machine like the cascader's loader: React state as queued, the
    values the callbacks of the last commit closed over, the refs, and the
    promises in flight. *)
From S2P Require Import Prelude JsString JsValue JsMap FilterQuery FilterSchema Filters.

(** ** The key of a field *)
Section FieldKey.
(** [===] on field objects. *)
Context (same : FilterField -> FilterField -> bool).

Definition filterFieldKey (field : option FilterField) (index : option FilterIndex)
    : option string :=
  match field with
  | None => None
  | Some f =>
      match index with
      | Some ix =>
          match js_find (fun ent => same (e_field ent) f) (fall ix) with
          | Some ent => Some (joinFilterPath (e_path ent))
          | None => Some ("#" +:+ ff_id f)
          end
      | None => Some ("#" +:+ ff_id f)
      end
  end.
End FieldKey.

(** ** The option service *)
Module Service.

(** [items] is a fresh array whenever it is rebuilt; [items_obj] says which. *)
Record Internal := mkInternal {
  items : list FilterOption;
  items_obj : nat;
  loading : bool;
  error : bool;
  hasMore : bool;
  cursor : option string
}.
Definition IDLE : Internal := mkInternal [] 0 false false false None.

(** What a render reads of its props: the declared options and the loader
    (each with its identity), the shared key when there is a root to share with. *)
Record Props := mkProps {
  staticOptions : option (nat * list FilterOption);
  loadOptions : option nat;
  enabled : bool;
  debounceMs : Z;
  sharedKey : option string
}.
Definition isAsync (p : Props) : bool := match loadOptions p with Some _ => true | None => false end.

Record Request := mkRequest {
  rq_id : nat;
  rq_controller : nat;
  rq_loader : nat;
  rq_query : string;
  rq_cursor : option string;
  rq_append : bool
}.
(** What a loader settles with: a bare array, a page, or a rejection. *)
Inductive Response :=
| Items (l : list FilterOption)
| Page (l : list FilterOption) (nextCursor : option string) (more : option bool)
| Rejected (isAbort : bool).

Record Options := mkOptions {
  query : string;
  state : Internal;
  seen : option (Props * string * Internal);
  cache : jsmap FilterOption;
  requestId : nat;
  abortRef : option nat;
  aborted : list nat;
  timer : option (nat * string);
  inflight : list Request;
  shared : ResolutionStore;
  fresh_obj : nat;
  mounted : bool
}.
Definition initial (store : ResolutionStore) : Options :=
  mkOptions "" IDLE None [] 0 None [] None [] store 1 true.

Definition with_state (o : Options) (s : Internal) : Options :=
  if mounted o then
    mkOptions (query o) s (seen o) (cache o) (requestId o) (abortRef o) (aborted o) (timer o)
      (inflight o) (shared o) (S (fresh_obj o)) (mounted o)
  else o.
Definition with_inflight (o : Options) (l : list Request) : Options :=
  mkOptions (query o) (state o) (seen o) (cache o) (requestId o) (abortRef o) (aborted o)
    (timer o) l (shared o) (fresh_obj o) (mounted o).
Definition with_timer (o : Options) (t : option (nat * string)) : Options :=
  mkOptions (query o) (state o) (seen o) (cache o) (requestId o) (abortRef o) (aborted o) t
    (inflight o) (shared o) (fresh_obj o) (mounted o).
Definition remember (o : Options) (options : list FilterOption) : Options :=
  mkOptions (query o) (state o) (seen o)
    (fold_left (fun m option => mset m (o_value option) option) options (cache o))
    (requestId o) (abortRef o) (aborted o) (timer o) (inflight o) (shared o) (fresh_obj o)
    (mounted o).
Definition share (o : Options) (key : option string) (options : list FilterOption) : Options :=
  match key with
  | Some k =>
      mkOptions (query o) (state o) (seen o) (cache o) (requestId o) (abortRef o) (aborted o)
        (timer o) (inflight o) (res_set (shared o) k options) (fresh_obj o) (mounted o)
  | None => o
  end.

(** [run(nextQuery, cursor, append)] of the render that captured [loader]. *)
Definition run (o : Options) (loader : option nat) (nextQuery : string) (from : option string)
    (append : bool) : Options :=
  match loader with
  | None => o
  | Some l =>
      let id := S (requestId o) in
      let o1 := mkOptions (query o) (state o) (seen o) (cache o) id (Some id)
                  (match abortRef o with Some c => c :: aborted o | None => aborted o end)
                  (timer o) (inflight o ++ [mkRequest id id l nextQuery from append])
                  (shared o) (fresh_obj o) (mounted o) in
      let s := state o in
      with_state o1
        (if append then mkInternal (items s) (items_obj s) true false (hasMore s) (cursor s)
         else mkInternal [] (fresh_obj o) true false (hasMore s) (cursor s))
  end.

(** The answer of the request [rq]: the id decides, not the abort. *)
Definition answer (o : Options) (rq : Request) (r : Response) : Options :=
  if negb (Nat.eqb (rq_id rq) (requestId o)) then o
  else
    let s := state o in
    let landed l next more :=
      with_state o (mkInternal (if rq_append rq then items s ++ l else l) (fresh_obj o)
                      false false (more ?? truthy_str next) next) in
    match r with
    | Items l => landed l None None
    | Page l next more => landed l next more
    | Rejected true => o
    | Rejected false =>
        with_state o (mkInternal (items s) (items_obj s) false true false (cursor s))
    end.
Definition settle (o : Options) (id : nat) (r : Response) : Options :=
  match js_find (fun rq => Nat.eqb (rq_id rq) id) (inflight o) with
  | None => o
  | Some rq =>
      answer (with_inflight o (bfilter (fun q => negb (Nat.eqb (rq_id q) id)) (inflight o))) rq r
  end.

(** ** The effects of a commit *)
#[export] Instance FilterOption_eq_dec : EqDecision FilterOption.
Proof. solve_decision. Defined.
Definition static_id (p : Props) : option nat := fst <$> staticOptions p.
Definition opt_nat_eqb (a b : option nat) : bool := bool_decide (a = b).

(** Dependency lists that changed since the last commit. *)
Definition seeds_changed (o : Options) (p : Props) : bool :=
  match seen o with
  | None => true
  | Some (q, _, _) =>
      negb (opt_nat_eqb (static_id q) (static_id p) && bool_decide (sharedKey q = sharedKey p))
  end.
Definition items_changed (o : Options) (p : Props) : bool :=
  match seen o with
  | None => true
  | Some (q, _, s) =>
      negb (Nat.eqb (items_obj s) (items_obj (state o)) && bool_decide (sharedKey q = sharedKey p))
  end.
Definition debounce_changed (o : Options) (p : Props) : bool :=
  match seen o with
  | None => true
  | Some (q, text, _) =>
      negb (Bool.eqb (enabled q) (enabled p) && Bool.eqb (isAsync q) (isAsync p) &&
            String.eqb text (query o) && (debounceMs q =? debounceMs p)%Z &&
            opt_nat_eqb (loadOptions q) (loadOptions p))
  end.

Definition seed_effect (o : Options) (p : Props) : Options :=
  match staticOptions p with
  | Some (_, l) => share (remember o l) (sharedKey p) l
  | None => o
  end.
Definition items_effect (o : Options) (p : Props) : Options :=
  let l := items (state o) in
  let o1 := remember o l in
  match l with [] => o1 | _ => share o1 (sharedKey p) l end.
Definition debounce_effect (o : Options) (p : Props) : Options :=
  with_timer o
    (if enabled p then (fun l => (l, query o)) <$> loadOptions p else None).

Definition commit (o : Options) (p : Props) : Options :=
  let o1 := if seeds_changed o p then seed_effect o p else o in
  let o2 := if items_changed o p then items_effect o1 p else o1 in
  let o3 := if debounce_changed o p then debounce_effect o2 p else o2 in
  mkOptions (query o3) (state o3) (Some (p, query o3, state o3)) (cache o3) (requestId o3)
    (abortRef o3) (aborted o3) (timer o3) (inflight o3) (shared o3) (fresh_obj o3) (mounted o3).

(** ** What it returns *)
Definition setQuery (o : Options) (next : string) : Options :=
  mkOptions next (state o) (seen o) (cache o) (requestId o) (abortRef o) (aborted o) (timer o)
    (inflight o) (shared o) (fresh_obj o) (mounted o).
Definition loadMore (o : Options) : Options :=
  match seen o with
  | None => o
  | Some (p, text, s) =>
      if negb (hasMore s) || loading s then o else run o (loadOptions p) text (cursor s) true
  end.
Definition retry (o : Options) : Options :=
  match seen o with
  | None => o
  | Some (p, text, _) => run o (loadOptions p) text None false
  end.
Definition fire (o : Options) : Options :=
  match timer o with
  | None => o
  | Some (l, text) => run (with_timer o None) (Some l) text None false
  end.
Definition unmount (o : Options) : Options :=
  mkOptions (query o) (state o) (seen o) (cache o) (requestId o) (abortRef o)
    (match abortRef o with Some c => c :: aborted o | None => aborted o end)
    None (inflight o) (shared o) (fresh_obj o) false.

Definition shown (lower : string -> string) (p : Props) (text : string) (s : Internal)
    : list FilterOption :=
  if isAsync p then items s
  else filterFilterOptions lower (match staticOptions p with Some (_, l) => l | None => [] end)
         (normalizeFilterQuery lower text).

Definition resolve (o : Options) (p : Props) (value : string) : option FilterOption :=
  match js_find (fun option => String.eqb (o_value option) value)
          (match staticOptions p with Some (_, l) => l | None => [] end) with
  | Some declared => Some declared
  | None =>
      match (match sharedKey p with Some k => res_get (shared o) k value | None => None end) with
      | Some fromShared => Some fromShared
      | None => mget (cache o) value
      end
  end.

Inductive Event :=
| SetQuery (next : string)
| Render (p : Props)
| Fire
| LoadMore
| Retry
| Settle (id : nat) (r : Response)
| Elsewhere (key : string) (l : list FilterOption)
| Unmount.

Definition step (o : Options) (e : Event) : Options :=
  match e with
  | SetQuery next => setQuery o next
  | Render p => commit o p
  | Fire => fire o
  | LoadMore => loadMore o
  | Retry => retry o
  | Settle id r => settle o id r
  | Elsewhere key l => share o (Some key) l
  | Unmount => unmount o
  end.
Definition steps (o : Options) (es : list Event) : Options := fold_left step es o.
End Service.

(** ** The resolution of stored values *)
Module Resolving.
(** [valuesKey]: the stored values as one string. *)
Definition valuesKey (values : list string) : string := join (str1 nul) values.

(** The effect: the claims it takes and the request it makes, if any. *)
Definition resolving (s : ResolutionStore) (resolveValues : bool) (key : option string)
    (staticOptions : option (list FilterOption)) (values : string)
    : ResolutionStore * option (list string) :=
  match key with
  | Some k =>
      if negb resolveValues || String.eqb values "" then (s, None)
      else
        let missing := bfilter (fun value =>
            if some (fun option => String.eqb (o_value option) value) (staticOptions ?? [])
            then false
            else match res_get s k value with None => true | Some _ => false end)
          (split_char nul values) in
        let '(s1, wanted) := claim s k missing in
        if Nat.eqb (length wanted) 0 then (s1, None) else (s1, Some wanted)
  | None => (s, None)
  end.
(** The settling of [resolveValues(wanted)]. *)
Definition resolving_settled (s : ResolutionStore) (key : string) (wanted : list string)
    (answer : option (list FilterOption)) : ResolutionStore :=
  match answer with
  | Some options => res_set s key options
  | None => release s key wanted
  end.
End Resolving.
