(* ===== verification/FilterMenu.v ===== *)
(** * The filter menu and the editors over it

    The rest of [filters-editors.tsx]: [FilterMenu] (which rows, in which
    order, with which rules between them), the keeper that brings the highlight
    back after a live re-pin, the option, boolean, text, number and range
    editors, and [resolveFilterEditor]. *)
From S2P Require Import Prelude JsString JsValue JsMap FilterQuery FilterSchema.

(** ** Rows *)
Record FilterListItem := mkItem {
  li_value : string;
  li_label : string;
  li_description : option string;
  li_keywords : option (list string);
  li_disabled : bool;
  li_exclusive : bool
}.
(** [CascaderNode<FilterMenuMeta>]: [data] is [undefined] or the two flags. *)
Record MenuNode := mkNode {
  mn_value : string;
  mn_label : string;
  mn_description : option string;
  mn_keywords : option (list string);
  mn_disabled : bool;
  mn_data : option (bool * bool)
}.
Definition node_divider (n : MenuNode) : bool :=
  match mn_data n with Some (divider, _) => divider | None => false end.
Definition node_exclusive (n : MenuNode) : bool :=
  match mn_data n with Some (_, exclusive) => exclusive | None => false end.

Inductive SortSelected := SortNone | SortLabel | SortSnapshot.
#[export] Instance SortSelected_eq_dec : EqDecision SortSelected.
Proof. solve_decision. Defined.

Definition PIN_SEPARATOR : ascii := nul.
Definition liveKey (pinSelected : bool) (selected : list string) : string :=
  if pinSelected then join (str1 PIN_SEPARATOR) selected else "".
Definition pinnedKey (pinSelected : bool) (sortSelected : SortSelected)
    (snapshotKey live : string) : string :=
  if negb pinSelected then ""
  else if decide (sortSelected = SortSnapshot) then snapshotKey else live.

Record Partitioned := mkPartitioned {
  chosenCount : nat;
  exclusiveAt : Z;
  order : list string;
  nodes : list MenuNode
}.
Definition node_of (item : FilterListItem) : MenuNode :=
  mkNode (li_value item) (li_label item) (li_description item) (li_keywords item)
    (li_disabled item) (if li_exclusive item then Some (false, true) else None).

Section Menu.
(** [a.localeCompare(b)] *)
Context (localeCompare : string -> string -> Z).

Definition by_label (a b : FilterListItem) : bool :=
  (localeCompare (li_label a) (li_label b) <=? 0)%Z.
Definition arrange (sortSelected : SortSelected) (l : list FilterListItem)
    : list FilterListItem :=
  if decide (sortSelected = SortLabel) then sort_by by_label l else l.

Definition partition (l : list FilterListItem) (key : string) (sortSelected : SortSelected)
    : Partitioned :=
  let pinned := set_of (if String.eqb key "" then [] else split_char PIN_SEPARATOR key) in
  let exclusive := bfilter li_exclusive l in
  let values := if Nat.eqb (length exclusive) 0 then l
                else bfilter (fun item => negb (li_exclusive item)) l in
  let chosen := if Nat.eqb (length pinned) 0 then []
                else bfilter (fun item => sin (li_value item) pinned) values in
  let rest := if Nat.eqb (length pinned) 0 then values
              else bfilter (fun item => negb (sin (li_value item) pinned)) values in
  let rows := arrange sortSelected chosen ++ arrange sortSelected rest ++
              arrange sortSelected exclusive in
  mkPartitioned (length chosen)
    (if Nat.eqb (length exclusive) 0 then (-1)%Z
     else (Z.of_nat (length rows) - Z.of_nat (length exclusive))%Z)
    (map li_value rows) (map node_of rows).

Definition dividerAt (p : Partitioned) (currentQuery : string) : Z :=
  if negb (Nat.eqb (chosenCount p) 0) && String.eqb (trim currentQuery) ""
  then Z.of_nat (chosenCount p) else (-1)%Z.

(** [next[index] = { ...next[index], data: { ...data, divider: true } }] *)
Definition rule_above (n : MenuNode) : MenuNode :=
  mkNode (mn_value n) (mn_label n) (mn_description n) (mn_keywords n) (mn_disabled n)
    (Some (true, node_exclusive n)).
Definition menu_nodes (p : Partitioned) (currentQuery : string) : list MenuNode :=
  let total := Z.of_nat (length (nodes p)) in
  let marks := bfilter (fun index => (0 <? index)%Z && (index <? total)%Z)
                 [dividerAt p currentQuery; exclusiveAt p] in
  fold_left (fun next index => alter rule_above (Z.to_nat index) next) marks (nodes p).
End Menu.

(** ** The footer, the empty line and the selection *)
Record MenuLabels := mkMenuLabels {
  lb_retry : string;
  lb_loadMore : string;
  lb_loadingMore : string;
  lb_error : string;
  lb_loading : string;
  lb_empty : string;
  lb_exclusiveHint : string;
  exclusiveAnnouncement : string -> nat -> string
}.
Record MenuState := mkMenuState { ms_loading : bool; ms_error : bool; ms_hasMore : bool }.
Inductive FooterAction := RetryAction (label : string) | MoreAction (label : string) (disabled : bool).

Definition footer_actions (labels : MenuLabels) (state : option MenuState) : list FooterAction :=
  match state with
  | None => []
  | Some s =>
      if ms_error s then [RetryAction (lb_retry labels)]
      else if ms_hasMore s
      then [MoreAction (if ms_loading s then lb_loadingMore labels else lb_loadMore labels)
              (ms_loading s)]
      else []
  end.
Definition empty_line (labels : MenuLabels) (state : option MenuState) : string :=
  match state with
  | Some s => if ms_error s then lb_error labels
              else if ms_loading s then lb_loading labels else lb_empty labels
  | None => lb_empty labels
  end.
(** The words after a row's label, for assistive technology. *)
Definition exclusive_hint (labels : MenuLabels) (n : MenuNode) : string :=
  if node_exclusive n && negb (String.eqb (lb_exclusiveHint labels) "")
  then ", " +:+ lb_exclusiveHint labels else "".

(** The value the cascader is given in single mode, and what a pick hands over. *)
Definition single_value (selected : list string) : string := head selected ?? "".
Definition single_change (value : string) : list string :=
  if String.eqb value "" then [] else [value].

(** ** The pin keeper *)
Module Keeper.
Definition MAX_PIN_RESTORE_ATTEMPTS : nat := 4.

Record PendingPinRestore := mkPending {
  pe_value : string;
  pe_index : Z;
  pe_order : list string;
  pe_attempts : nat
}.
(** [order] and [items] of a render, each with the identity the code compares. *)
Record Rows := mkRows { order_obj : nat; row_order : list string; items_obj : nat }.
Record Keeper := mkKeeper {
  previous : option Rows;
  pending : option PendingPinRestore;
  chasing : bool;
  last_highlight : option (option string * Z)
}.
Definition initial : Keeper := mkKeeper None None false None.

Fixpoint isSameOrder (a b : list string) : bool :=
  match a, b with
  | [], [] => true
  | x :: a', y :: b' => String.eqb x y && isSameOrder a' b'
  | _, _ => false
  end.

Definition stop (k : Keeper) : Keeper := mkKeeper (previous k) None false (last_highlight k).

(** The layout effect of a commit: arms when the same data was re-ordered. *)
Definition arm (k : Keeper) (rows : Rows) (value : option string) (index : Z) : Keeper :=
  let armed :=
    match previous k with
    | None => pending k
    | Some prev =>
        if Nat.eqb (order_obj prev) (order_obj rows) then pending k
        else if negb (Nat.eqb (items_obj prev) (items_obj rows)) then pending k
        else match value with
             | None | Some EmptyString => pending k
             | Some v =>
                 if isSameOrder (row_order prev) (row_order rows) then pending k
                 else Some (mkPending v index (row_order rows) 0)
             end
    end in
  mkKeeper (Some rows) armed (chasing k) (last_highlight k).
(** The effect on the highlight, run when it changed. *)
Definition chase (k : Keeper) (value : option string) (index : Z) : Keeper :=
  match pending k with
  | None => k
  | Some p =>
      if bool_decide (value = Some (pe_value p)) || negb (index =? pe_index p)%Z then stop k
      else if Nat.ltb 0 (pe_attempts p) || chasing k then k
      else mkKeeper (previous k) (pending k) true (last_highlight k)
  end.
Definition commit (k : Keeper) (rows : Rows) (value : option string) (index : Z) : Keeper :=
  let k1 := arm k rows value index in
  let k2 := if decide (last_highlight k1 = Some (value, index)) then k1
            else chase k1 value index in
  mkKeeper (previous k2) (pending k2) (chasing k2) (Some (value, index)).

(** The task [attempt] with the rows then in the document, if the list is
    there: the keeper, and the row a [mousemove] is dispatched to. *)
Definition attempt (k : Keeper) (rows : option (list string)) : Keeper * option nat :=
  if negb (chasing k) then (k, None)
  else
    let k1 := mkKeeper (previous k) (pending k) false (last_highlight k) in
    match pending k with
    | None => (k1, None)
    | Some p =>
        let target := find_index (String.eqb (pe_value p)) (pe_order p) in
        match rows with
        | Some shown =>
            if (target <? 0)%Z || negb (Nat.eqb (length shown) (length (pe_order p)))
            then (stop k1, None)
            else
              let p' := mkPending (pe_value p) (pe_index p) (pe_order p) (S (pe_attempts p)) in
              (if Nat.leb MAX_PIN_RESTORE_ATTEMPTS (pe_attempts p') then stop k1
               else mkKeeper (previous k) (Some p') true (last_highlight k),
               Some (Z.to_nat target))
        | None => (stop k1, None)
        end
    end.
End Keeper.

(** ** The option editors *)
(** [applyFilterExclusiveSelection] with the identity of what it returns:
    [None] is [next] itself. *)
Definition exclusive_change (next previous : list string) (isExclusive : string -> bool)
    : option (list string) :=
  let held := set_of previous in
  let added := bfilter (fun value => negb (sin value held)) next in
  if Nat.eqb (length added) 0 then None
  else match last_exclusive isExclusive added with
       | Some arrived => Some [arrived]
       | None =>
           let kept := bfilter (fun value => negb (isExclusive value)) next in
           if Nat.eqb (length kept) (length next) then None else Some kept
       end.

(** [selected]: the stored value as a list. *)
Definition selected_of (value : val) : list val :=
  match value with VUndef | VNull => [] | VArr l => l | v => [v] end.

Inductive EditorCall :=
| Announce (message : string)
| Warn (key message : string)
| CancelDraft
| OnValueChange (value : val)
| CommitValue (value : val) (close : bool)
| CommitDraft.

Definition quoted (s : string) : string := str1 dquote +:+ s +:+ str1 dquote.
Definition exclusive_warning (field_id unresolved : string) : string :=
  "field " +:+ quoted field_id +:+ " has an exclusive option, but the value " +:+
  quoted unresolved +:+
  " resolves to no option, so the None rule cannot tell whether it is the exclusive one " +:+
  "and has left it in place. Declare the exclusive option in the field's `options` even " +:+
  "when the rest of the list is async, or cover stored values with `resolveValues`.".

Section OptionEditor.
Context (labels : MenuLabels).
Context (resolve : string -> option FilterOption).

Definition is_none_value (value : string) : bool :=
  match resolve value with Some option => o_exclusive option | None => false end.

(** [multiple], the rows on screen, the declared options, whether there is a
    live region, the committed selection and the one the list proposes. *)
Definition onSelectionChange (multiple canAnnounce : bool) (field_id : string)
    (rows declared : list FilterOption) (selected raw : list string) : list EditorCall :=
  let changed := exclusive_change raw selected is_none_value in
  let values := changed ?? raw in
  let said :=
    match changed with
    | Some _ =>
        if negb canAnnounce then []
        else match js_find (fun ent => negb (some (String.eqb ent) selected)) values with
             | Some arrived =>
                 let cleared := (length raw - length values)%nat in
                 if Nat.ltb 0 cleared
                 then [Announce (exclusiveAnnouncement labels
                         ((o_label <$> resolve arrived) ?? arrived) cleared)]
                 else []
             | None => []
             end
    | None =>
        if Nat.ltb 1 (length raw) && (some o_exclusive rows || some o_exclusive declared)
        then match js_find (fun ent => match resolve ent with None => true | Some _ => false end) raw with
             | Some unresolved =>
                 [Warn ("exclusive-unresolved:" +:+ field_id)
                    (exclusive_warning field_id unresolved)]
             | None => []
             end
        else []
    end in
  said ++
  if negb multiple then
    match head values with
    | None => [CancelDraft]
    | Some next => [OnValueChange (VStr next); CommitValue (VStr next) true]
    end
  else
    let next := VArr (map VStr values) in
    [OnValueChange next; CommitValue next false].
End OptionEditor.

(** ** The other editors *)
Definition BOOLEAN_ITEMS : list FilterListItem :=
  [mkItem "true" "True" None None false false; mkItem "false" "False" None None false false].
Definition boolean_selected (value : val) : list string :=
  match value with VBool true => ["true"] | VBool false => ["false"] | _ => [] end.
Definition boolean_change (values : list string) : list EditorCall :=
  match values with
  | [] => []
  | first :: _ =>
      let next := VBool (String.eqb first "true") in [OnValueChange next; CommitValue next true]
  end.

Definition parse_box (raw : string) : val :=
  if String.eqb raw "" then VUndef else VNum (to_number raw).
Definition text_shown (value : val) : string := opt_str value ?? "".
Definition text_change (raw : string) : EditorCall := OnValueChange (VStr raw).
Definition number_shown (value : val) : string :=
  if is_nullish value then "" else js_String value.
Definition number_change (raw : string) : EditorCall := OnValueChange (parse_box raw).
Definition range_tuple (value : val) : list val := match value with VArr l => l | _ => [] end.
Definition range_shown (value : val) (index : nat) : string :=
  let v := val_at (range_tuple value) index in
  if is_undefined v then "" else js_String v.
Definition range_update (value : val) (index : nat) (raw : string) : EditorCall :=
  let tuple := range_tuple value in
  OnValueChange (VArr (<[index := parse_box raw]> [val_at tuple 0; val_at tuple 1])).

Record KeyResult := mkKey { prevented : bool; stopped : bool; calls : list EditorCall }.
Definition useCommitKeys (key : string) (isComposing : bool) : KeyResult :=
  if String.eqb key "Enter" && negb isComposing then mkKey true false [CommitDraft]
  else if String.eqb key "Escape" then mkKey true true [CancelDraft]
  else mkKey false false [].
(** The commit and discard buttons are drawn unless the bar is creating. *)
Definition commit_buttons (host_create : bool) : list EditorCall :=
  if host_create then [] else [CommitDraft; CancelDraft].

(** ** The choice of an editor *)
Section Choice.
(** A component; [own] is the one a field carries. *)
Context {Editor : Type} (own : Editor).

Definition resolveFilterEditor (field : FilterField) (operator : option FilterOperator)
    (editors : string -> option Editor) : option Editor :=
  let by_arity :=
    let by_type :=
      match editors (type_name (ff_type field ?? TText)) with
      | Some e => Some e
      | None => editors "text"
      end in
    match (match operator with Some op => op_arity op ?? AOne | None => AOne end) with
    | ANone => None
    | ARange => editors "range"
    | AMany =>
        if match ff_options field with Some _ => true | None => false end || ff_loadOptions field
        then editors "multiselect" else by_type
    | AOne => by_type
    end in
  match ff_editor field with
  | EditorComponent => Some own
  | EditorName name => match editors name with Some e => Some e | None => by_arity end
  | NoEditor => by_arity
  end.
End Choice.
