(* ===== verification/FilterEditorsLaws.v ===== *)
(** * The option service of the filter editors is right

    Answers that were overtaken change nothing and the answer to the query
    typed last is what the list shows; a spinner is a request in flight; an
    option that was ever on screen keeps its label. *)
From S2P Require Import Prelude JsString JsValue JsMap FilterQuery FilterSchema Filters FilterEditors FiltersLaws.
Import Service.

(** ** The requests in flight *)
Definition latest_inflight (o : Options) : bool :=
  some (fun rq => Nat.eqb (rq_id rq) (requestId o)) (inflight o).

Record running (o : Options) : Prop := {
  run_ids : forall rq, rq ∈ inflight o -> 0 < rq_id rq <= requestId o;
  run_nodup : NoDup (map rq_id (inflight o));
  run_fresh : items_obj (state o) < fresh_obj o;
  run_seen : forall p text s, seen o = Some (p, text, s) ->
    items_obj s < fresh_obj o /\
    (items_obj s = items_obj (state o) -> items s = items (state o)) /\
    (forall option, option ∈ items s -> mhas (cache o) (o_value option) = true)
}.

Lemma remember_keys l m v :
  mhas (fold_left (fun m option => mset m (o_value option) option) l m) v =
  mhas m v || some (fun option => String.eqb (o_value option) v) l.
Proof.
  revert m. induction l as [|x l IH]; intros m; [by rewrite orb_false_r|]. cbn [fold_left].
  rewrite IH. unfold mhas. rewrite mget_set. cbn [existsb].
  destruct (String.eqb (o_value x) v); [by rewrite orb_true_r|done].
Qed.
Lemma remember_new l m option : option ∈ l ->
  mhas (fold_left (fun m option => mset m (o_value option) option) l m) (o_value option) = true.
Proof.
  intros Hin. rewrite remember_keys. apply orb_true_iff. right. apply existsb_exists.
  exists option. split; [by apply list_elem_of_In|apply String.eqb_refl].
Qed.

(** What an event leaves alone, field by field. *)
Lemma share_fields o key l :
  query (share o key l) = query o /\ state (share o key l) = state o /\
  seen (share o key l) = seen o /\ cache (share o key l) = cache o /\
  requestId (share o key l) = requestId o /\ inflight (share o key l) = inflight o /\
  fresh_obj (share o key l) = fresh_obj o /\ mounted (share o key l) = mounted o /\
  timer (share o key l) = timer o.
Proof. by destruct key. Qed.

Lemma commit_fields o p :
  query (commit o p) = query o /\ state (commit o p) = state o /\
  requestId (commit o p) = requestId o /\ inflight (commit o p) = inflight o /\
  fresh_obj (commit o p) = fresh_obj o /\ mounted (commit o p) = mounted o /\
  seen (commit o p) = Some (p, query o, state o) /\
  timer (commit o p) = (if debounce_changed o p
                        then timer (debounce_effect o p) else timer o).
Proof.
  unfold commit. cbv zeta.
  set (o1 := if seeds_changed o p then _ else _).
  assert (H1 : query o1 = query o /\ state o1 = state o /\ requestId o1 = requestId o /\
    inflight o1 = inflight o /\ fresh_obj o1 = fresh_obj o /\ mounted o1 = mounted o /\
    timer o1 = timer o).
  { unfold o1, seed_effect. destruct (seeds_changed o p); [|done].
    destruct (staticOptions p) as [[i l]|]; [|done]. by destruct (sharedKey p). }
  clearbody o1. destruct H1 as (H1 & H2 & H3 & H4 & H5 & H6 & H7).
  set (o2 := if items_changed o p then _ else _).
  assert (H : query o2 = query o /\ state o2 = state o /\ requestId o2 = requestId o /\
    inflight o2 = inflight o /\ fresh_obj o2 = fresh_obj o /\ mounted o2 = mounted o /\
    timer o2 = timer o).
  { unfold o2, items_effect. destruct (items_changed o p); [|done]. cbv zeta.
    rewrite <- H1, <- H2, <- H3, <- H4, <- H5, <- H6, <- H7.
    destruct (items (state o1)); [done|]. by destruct (sharedKey p). }
  clearbody o2. destruct H as (K1 & K2 & K3 & K4 & K5 & K6 & K7).
  destruct (debounce_changed o p); cbn; by rewrite ?K1, ?K2, ?K3, ?K4, ?K5, ?K6, ?K7.
Qed.

(** After a commit the cache holds every row of the state, if it did before. *)
Lemma commit_cache o p v : mhas (cache o) v = true -> mhas (cache (commit o p)) v = true.
Proof.
  intros Hv. unfold commit. cbv zeta.
  set (o1 := if seeds_changed o p then _ else _).
  assert (H1 : mhas (cache o1) v = true).
  { unfold o1, seed_effect. destruct (seeds_changed o p); [|done].
    destruct (staticOptions p) as [[i l]|]; [|done].
    destruct (share_fields (remember o l) (sharedKey p) l) as (_ & _ & _ & -> & _).
    cbn. by rewrite remember_keys, Hv. }
  clearbody o1. set (o2 := if items_changed o p then _ else _).
  assert (H2 : mhas (cache o2) v = true).
  { unfold o2, items_effect. destruct (items_changed o p); [|done]. cbv zeta.
    assert (H : mhas (cache (remember o1 (items (state o1)))) v = true)
      by (cbn; by rewrite remember_keys, H1).
    destruct (items (state o1)) as [|x l]; [done|].
    by destruct (share_fields (remember o1 (x :: l)) (sharedKey p) (x :: l)) as (_ & _ & _ & -> & _). }
  clearbody o2. by destruct (debounce_changed o p).
Qed.
Lemma commit_remembers o p option : running o -> option ∈ items (state o) ->
  mhas (cache (commit o p)) (o_value option) = true.
Proof.
  intros R Hin. destruct (items_changed o p) eqn:E.
  - unfold commit. rewrite E. cbv zeta. set (o1 := if seeds_changed o p then _ else _).
    assert (H1 : items (state o1) = items (state o)).
    { unfold o1, seed_effect. destruct (seeds_changed o p); [|done].
      destruct (staticOptions p) as [[i l]|]; [|done]. by destruct (sharedKey p). }
    clearbody o1. set (o2 := items_effect o1 p).
    assert (H2 : mhas (cache o2) (o_value option) = true).
    { unfold o2, items_effect. cbv zeta. rewrite H1.
      pose proof (remember_new (items (state o)) (cache o1) option Hin) as H.
      destruct (items (state o)) as [|x l]; [by apply elem_of_nil in Hin|].
      by destruct (share_fields (remember o1 (x :: l)) (sharedKey p) (x :: l)) as (_ & _ & _ & -> & _). }
    clearbody o2. by destruct (debounce_changed o p).
  - apply commit_cache. unfold items_changed in E. destruct (seen o) as [[[q text] s]|] eqn:Es; [|done].
    apply negb_false_iff, andb_true_iff in E as [E _]. apply Nat.eqb_eq in E.
    destruct (run_seen o R _ _ _ Es) as (_ & Heq & Hc). apply Hc. by rewrite Heq.
Qed.

(** ** The invariant is kept *)
(** A new slice: the objects of the old one, or a fresh one. *)
Lemma running_state o s : running o ->
  items_obj s = items_obj (state o) /\ items s = items (state o) \/ items_obj s = fresh_obj o ->
  running (with_state o s).
Proof.
  intros [H1 H2 H3 H4] Hs. unfold with_state. destruct (mounted o); [|done].
  split; cbn; [done..| |].
  - destruct Hs as [[H5 _]|H5]; rewrite H5; lia.
  - intros p text s' Hse. destruct (H4 _ _ _ Hse) as (K1 & K2 & K3). split_and!; [lia| |done].
    destruct Hs as [[K4 K5]|K4]; rewrite K4; [by rewrite K5|lia].
Qed.

(** Events that touch neither the slice, the cache nor the requests. *)
Lemma running_other o o' : running o -> state o' = state o -> seen o' = seen o ->
  cache o' = cache o -> requestId o' = requestId o -> inflight o' = inflight o ->
  fresh_obj o' = fresh_obj o -> running o'.
Proof.
  intros [H1 H2 H3 H4] E1 E2 E3 E4 E5 E6. split; rewrite ?E1, ?E2, ?E3, ?E4, ?E5, ?E6; done.
Qed.
Lemma running_run o loader text from append : running o -> running (run o loader text from append).
Proof.
  intros R. unfold run. destruct loader as [l|]; [|done]. cbv zeta.
  destruct append; (apply running_state; [|first [left; split; reflexivity|right; reflexivity]]);
    (destruct R as [H1 H2 H3 H4]; split; cbn; [| |done..];
     [intros rq Hin; apply elem_of_app in Hin as [Hin|Hin];
        [specialize (H1 rq Hin)|apply list_elem_of_singleton in Hin as ->; cbn]; lia
     |rewrite map_app; apply NoDup_app; split_and!; [done| |apply NoDup_singleton];
      intros x Hx Hx'; apply list_elem_of_singleton in Hx' as ->;
      apply list_elem_of_fmap in Hx as (rq & Hid & Hin); specialize (H1 rq Hin); cbn in Hid; lia]).
Qed.
Lemma settle_shape o id r : running o ->
  exists rqs s, settle o id r = with_state (with_inflight o rqs) s /\ rqs ⊆+ inflight o /\
    (items_obj s = items_obj (state o) /\ items s = items (state o) \/ items_obj s = fresh_obj o) \/
    settle o id r = with_inflight o rqs /\ rqs ⊆+ inflight o.
Proof.
  intros R. unfold settle. destruct (js_find _ _) as [rq|]; cycle 1.
  { exists (inflight o), IDLE. right. by destruct o. }
  set (rqs := bfilter _ (inflight o)).
  assert (Hs : rqs ⊆+ inflight o).
  { unfold rqs. generalize (fun q => negb (Nat.eqb (rq_id q) id)).
    intros f. induction (inflight o) as [|x l IH]; [done|]. cbn.
    destruct (f x); [by apply submseteq_skip|by apply submseteq_cons]. }
  clearbody rqs. exists rqs. unfold answer. cbn [requestId with_inflight].
  destruct (negb _); [exists IDLE; by right|].
  destruct r as [l|l next more|[]]; cbv zeta.
  - eexists. left. split; [reflexivity|]. split; [done|by right].
  - eexists. left. split; [reflexivity|]. split; [done|by right].
  - exists IDLE. by right.
  - eexists. left. split; [reflexivity|]. split; [done|by left].
Qed.
Lemma running_inflight o rqs : running o -> rqs ⊆+ inflight o -> running (with_inflight o rqs).
Proof.
  intros [H1 H2 H3 H4] Hs. split; cbn; [| |done..].
  - intros rq Hin. apply H1. by eapply elem_of_submseteq.
  - eapply submseteq_NoDup; [|exact H2]. by apply fmap_submseteq.
Qed.
Lemma running_settle o id r : running o -> running (settle o id r).
Proof.
  intros R. destruct (settle_shape o id r R) as (rqs & s & [(-> & Hs & Ho)|(-> & Hs)]).
  - apply running_state; [by apply running_inflight|done].
  - by apply running_inflight.
Qed.
Lemma running_commit o p : running o -> running (commit o p).
Proof.
  intros R. destruct (commit_fields o p) as (E1 & E2 & E3 & E4 & E5 & E6 & E7 & E8).
  destruct R as [H1 H2 H3 H4] eqn:HR.
  split; rewrite ?E1, ?E2, ?E3, ?E4, ?E5, ?E6, ?E7; [done..|].
  intros q text s [= <- <- <-]. split_and!; [done..|].
  intros option Hin. by apply commit_remembers.
Qed.

Lemma running_step o e : running o -> running (step o e).
Proof.
  intros R. destruct e as [next|p| | | |id r|key l|]; cbn [step].
  - by eapply running_other.
  - by apply running_commit.
  - unfold fire. destruct (timer o) as [[l text]|]; [|done]. apply running_run.
    by eapply running_other.
  - unfold loadMore. destruct (seen o) as [[[p text] s]|]; [|done].
    destruct (_ || _); [done|by apply running_run].
  - unfold retry. destruct (seen o) as [[[p text] s]|]; [by apply running_run|done].
  - by apply running_settle.
  - by eapply running_other.
  - by eapply running_other.
Qed.
Lemma running_initial store : running (initial store).
Proof.
  split; cbn; [by intros rq Hin%elem_of_nil|constructor|lia|done].
Qed.
Lemma running_steps o es : running o -> running (steps o es).
Proof. revert o. induction es as [|e es IH]; intros o R; [done|]. by apply IH, running_step. Qed.

(** ** The cache only grows *)
Lemma settle_cache o id r : cache (settle o id r) = cache o.
Proof.
  unfold settle. destruct (js_find _ _) as [rq|]; [|done]. unfold answer. destruct (negb _); [done|].
  destruct r as [l|l next more|[]]; cbn; unfold with_state; cbn; by destruct (mounted o).
Qed.
Lemma run_cache o loader text from append : cache (run o loader text from append) = cache o.
Proof. destruct loader; [|done]. cbn. unfold with_state. cbn. by destruct (mounted o). Qed.
Lemma step_cache o e v : mhas (cache o) v = true -> mhas (cache (step o e)) v = true.
Proof.
  intros H. destruct e as [next|p| | | |id r|key l|]; cbn [step]; try done.
  - by apply commit_cache.
  - unfold fire. destruct (timer o) as [[l text]|]; [by rewrite run_cache|done].
  - unfold loadMore. destruct (seen o) as [[[p text] s]|]; [|done].
    destruct (_ || _); [done|by rewrite run_cache].
  - unfold retry. destruct (seen o) as [[[p text] s]|]; [by rewrite run_cache|done].
  - by rewrite settle_cache.
Qed.
Lemma steps_cache o es v : mhas (cache o) v = true -> mhas (cache (steps o es)) v = true.
Proof. revert o. induction es as [|e es IH]; intros o H; [done|]. by apply IH, step_cache. Qed.

(** ** A spinner is a request in flight *)
(** Events in which no loader throws an abort of its own. *)
Definition calm (e : Event) : bool :=
  match e with Settle _ (Rejected true) | Unmount => false | _ => true end.

Definition spinning (o : Options) : Prop :=
  mounted o = true /\ loading (state o) = latest_inflight o.

Lemma spinning_run o loader text from append : spinning o -> spinning (run o loader text from append).
Proof.
  intros [Hm Hl]. destruct loader as [l|]; [|done]. unfold run, with_state, spinning. cbn.
  rewrite Hm. cbn. split; [done|].
  unfold latest_inflight. cbn. rewrite existsb_app. cbn. rewrite Nat.eqb_refl.
  destruct append; cbn; by rewrite orb_true_r.
Qed.
Lemma find_request o id rq : running o ->
  js_find (fun q => Nat.eqb (rq_id q) id) (inflight o) = Some rq -> rq ∈ inflight o /\ rq_id rq = id.
Proof.
  intros _ H. apply List.find_some in H as [H1 H2]. split; [by apply list_elem_of_In|].
  by apply Nat.eqb_eq.
Qed.
Lemma latest_filtered o id : requestId o <> id ->
  some (fun rq => Nat.eqb (rq_id rq) (requestId o))
    (bfilter (fun q => negb (Nat.eqb (rq_id q) id)) (inflight o)) = latest_inflight o.
Proof.
  intros Hn. unfold latest_inflight. induction (inflight o) as [|q l IH]; [done|]. cbn.
  destruct (Nat.eqb_spec (rq_id q) id) as [E|E]; cbn; rewrite IH; [|done].
  destruct (Nat.eqb_spec (rq_id q) (requestId o)); [congruence|done].
Qed.
Lemma latest_removed o id : requestId o = id ->
  some (fun rq => Nat.eqb (rq_id rq) (requestId o))
    (bfilter (fun q => negb (Nat.eqb (rq_id q) id)) (inflight o)) = false.
Proof.
  intros <-. induction (inflight o) as [|q l IH]; [done|]. cbn.
  destruct (Nat.eqb_spec (rq_id q) (requestId o)) as [E|E]; cbn; [done|].
  rewrite IH. by destruct (Nat.eqb_spec (rq_id q) (requestId o)).
Qed.

Lemma spinning_settle o id r : running o -> spinning o -> calm (Settle id r) = true ->
  spinning (settle o id r).
Proof.
  intros R [Hm Hl] Hc. unfold settle. destruct (js_find _ _) as [rq|] eqn:E; [|done].
  apply (find_request _ _ _ R) in E as [Hin Hid].
  unfold answer, spinning. cbn [requestId with_inflight]. rewrite Hid.
  destruct (Nat.eqb_spec id (requestId o)) as [->|Hn]; cbn [negb].
  - destruct r as [l|l next more|[]]; try done; unfold with_state; cbn; rewrite Hm; cbn;
      (split; [done|]); unfold latest_inflight; cbn; by rewrite latest_removed.
  - split; [done|]. symmetry. etransitivity; [|symmetry; exact Hl].
    exact (latest_filtered o id (not_eq_sym Hn)).
Qed.
Lemma spinning_step o e : running o -> spinning o -> calm e = true -> spinning (step o e).
Proof.
  intros R S Hc. destruct e as [next|p| | | |id r|key l|]; cbn [step]; try done.
  - destruct (commit_fields o p) as (E1 & E2 & E3 & E4 & E5 & E6 & E7 & E8).
    unfold spinning, latest_inflight. by rewrite E2, E3, E4, E6.
  - unfold fire. destruct (timer o) as [[l text]|]; [|done]. by apply spinning_run.
  - unfold loadMore. destruct (seen o) as [[[p text] s]|]; [|done].
    destruct (_ || _); [done|by apply spinning_run].
  - unfold retry. destruct (seen o) as [[[p text] s]|]; [by apply spinning_run|done].
  - by apply spinning_settle.
Qed.
Lemma spinning_steps o es : running o -> spinning o -> every calm es = true -> spinning (steps o es).
Proof.
  revert o. induction es as [|e es IH]; intros o R S; [done|]. intros [He Hes]%andb_true_iff.
  apply IH; [by apply running_step|by apply spinning_step|done].
Qed.

(** ** The answer to the last query *)
(** What may happen between a request and its answer. *)
Definition quiet (id : nat) (e : Event) : bool :=
  match e with
  | SetQuery _ | Render _ | Elsewhere _ _ => true
  | Settle id' _ => negb (Nat.eqb id' id)
  | _ => false
  end.
Lemma quiet_event o e rq : quiet (rq_id rq) e = true -> rq ∈ inflight o -> rq_id rq = requestId o ->
  mounted o = true ->
  rq ∈ inflight (step o e) /\ requestId (step o e) = requestId o /\ mounted (step o e) = true.
Proof.
  intros Hq Hin Hid Hm. destruct e as [next|p| | | |id r|key l|]; try done; cbn [step].
  - by destruct (commit_fields o p) as (E1 & E2 & -> & -> & E5 & -> & E7).
  - cbn in Hq. apply negb_true_iff, Nat.eqb_neq in Hq. unfold settle.
    destruct (js_find _ _) as [q|] eqn:E; [|done].
    apply List.find_some in E as [_ E]. apply Nat.eqb_eq in E.
    unfold answer. cbn [requestId with_inflight]. rewrite E, <- Hid.
    destruct (Nat.eqb_spec id (rq_id rq)); [congruence|]. cbn. split_and!; [|done..].
    apply bfilter_elem. split; [done|]. apply negb_true_iff, Nat.eqb_neq. congruence.
Qed.
Lemma quiet_steps o es rq : every (quiet (rq_id rq)) es = true -> rq ∈ inflight o ->
  rq_id rq = requestId o -> mounted o = true ->
  rq ∈ inflight (steps o es) /\ requestId (steps o es) = requestId o /\ mounted (steps o es) = true.
Proof.
  revert o. induction es as [|e es IH]; intros o; [done|]. intros [He Hes]%andb_true_iff Hin Hid Hm.
  destruct (quiet_event o e rq He Hin Hid Hm) as (H1 & H2 & H3).
  destruct (IH (step o e) Hes H1) as (K1 & K2 & K3); [by rewrite H2|done|].
  split_and!; [done| |done]. etransitivity; [exact K2|exact H2].
Qed.
Lemma settle_latest o rq r : running o -> rq ∈ inflight o -> rq_id rq = requestId o ->
  exists rqs, settle o (requestId o) r = answer (with_inflight o rqs) rq r.
Proof.
  intros R Hin Hid. unfold settle.
  assert (E : js_find (fun q => Nat.eqb (rq_id q) (requestId o)) (inflight o) = Some rq).
  { pose proof (run_nodup o R) as Hn. induction (inflight o) as [|q l IH]; [by apply elem_of_nil in Hin|].
    cbn in *. apply NoDup_cons in Hn as [Hq Hn]. apply elem_of_cons in Hin as [->|Hin].
    - by rewrite (proj2 (Nat.eqb_eq _ _) Hid).
    - destruct (Nat.eqb_spec (rq_id q) (requestId o)) as [E|]; [|by apply IH].
      destruct Hq. rewrite E, <- Hid. by apply list_elem_of_fmap_2. }
  rewrite E. by eexists.
Qed.

(** *** Properties *)
Definition alive (e : Event) : bool := match e with Unmount => false | _ => true end.
Lemma alive_steps o es : every alive es = true -> mounted o = true -> mounted (steps o es) = true.
Proof.
  revert o. induction es as [|e es IH]; intros o; [done|]. intros [He Hes]%andb_true_iff Hm.
  apply (IH (step o e)); [done|].
  assert (Hrun : forall o loader text from append,
    mounted (run o loader text from append) = mounted o).
  { intros o' [l|] text from append; [|done]. unfold run, with_state. cbn.
    by destruct (mounted o') eqn:E; cbn. }
  destruct e as [next|p| | | |id r|key l|]; try done; cbn [step].
  - by destruct (commit_fields o p) as (_ & _ & _ & _ & _ & -> & _).
  - unfold fire. destruct (timer o) as [[l text]|]; [by rewrite Hrun|done].
  - unfold loadMore. destruct (seen o) as [[[p text] s]|]; [|done].
    destruct (_ || _); [done|by rewrite Hrun].
  - unfold retry. destruct (seen o) as [[[p text] s]|]; [by rewrite Hrun|done].
  - unfold settle. destruct (js_find _ _) as [rq|]; [|done]. unfold answer, with_state.
    destruct (negb _); [done|]. destruct r as [?|? ? ?|[]]; cbn; by rewrite ?Hm.
Qed.

(** [landed] of the answer to a fresh request. *)
Lemma answer_page o rq l next more : mounted o = true -> rq_id rq = requestId o ->
  rq_append rq = false ->
  state (answer o rq (Page l next more)) =
  mkInternal l (fresh_obj o) false false (more ?? truthy_str next) next.
Proof.
  intros Hm Hid Ha. unfold answer. rewrite Hid, Nat.eqb_refl. cbn [negb].
  unfold with_state. cbv zeta. rewrite Hm. cbn. by rewrite Ha.
Qed.
Lemma overtaken o id r : id <> requestId o -> state (settle o id r) = state o.
Proof.
  intros Hn. unfold settle. destruct (js_find _ _) as [rq|] eqn:E; [|done].
  apply List.find_some in E as [_ E]. apply Nat.eqb_eq in E. unfold answer. cbn [requestId with_inflight].
  rewrite E. by destruct (Nat.eqb_spec id (requestId o)).
Qed.
(** Typing, the commit and the debounce make the request for the new text. *)
Lemma typed_request o p q l : mounted o = true -> enabled p = true -> loadOptions p = Some l ->
  (forall p' text s, seen o = Some (p', text, s) -> text <> q) ->
  let o1 := steps o [SetQuery q; Render p; Fire] in
  mkRequest (requestId o1) (requestId o1) l q None false ∈ inflight o1 /\ mounted o1 = true.
Proof.
  intros Hm He Hl Hseen. cbn [steps fold_left step].
  destruct (commit_fields (setQuery o q) p) as (_ & _ & E3 & E4 & _ & E6 & _ & E8).
  set (o2 := commit (setQuery o q) p) in *.
  assert (Hd : debounce_changed (setQuery o q) p = true).
  { unfold debounce_changed. cbn. destruct (seen o) as [[[p' text] s]|] eqn:Es; [|done].
    specialize (Hseen _ _ _ eq_refl). destruct (String.eqb_spec text q); [done|].
    by rewrite andb_false_r. }
  rewrite Hd in E8. unfold debounce_effect in E8. rewrite He, Hl in E8. clearbody o2.
  change (timer o2 = Some (l, q)) in E8. unfold fire. rewrite E8. unfold run, with_state. cbn. rewrite E6. cbn. rewrite Hm. cbn.
  split; [|done]. apply elem_of_app. right. by left.
Qed.

(** C10: The list shows the answer to the query typed last.  Once the user
    typed [q] and the debounce of the commit fired, a request for [q], from the
    first page, is in flight; whatever is typed, rendered, recorded by another
    editor or answered to other requests before it settles, in any order,
    leaves that so; its answer then is the list, with its own cursor; and an
    answer to a request that was overtaken never changes what is shown. *)
Theorem last_query_is_shown store es p q l noise items' next more :
  let o := steps (initial store) es in
  let o1 := steps o [SetQuery q; Render p; Fire] in
  every alive es = true -> enabled p = true -> loadOptions p = Some l ->
  (forall p' text s, seen o = Some (p', text, s) -> text <> q) ->
  every (quiet (requestId o1)) noise = true ->
  let o2 := steps o1 noise in
  mkRequest (requestId o1) (requestId o1) l q None false ∈ inflight o2 /\
  (forall id r, id <> requestId o1 -> state (step o2 (Settle id r)) = state o2) /\
  let shown := state (step o2 (Settle (requestId o1) (Page items' next more))) in
  items shown = items' /\ loading shown = false /\ error shown = false /\
  hasMore shown = (more ?? truthy_str next) /\ cursor shown = next.
Proof.
  intros o o1 Ha He Hl Hseen Hq o2.
  assert (R : running o1) by (apply running_steps, running_steps, running_initial).
  assert (Hm : mounted o = true) by (by apply alive_steps).
  destruct (typed_request o p q l Hm He Hl Hseen) as [Hin Hm1]. fold o1 in Hin, Hm1.
  destruct (quiet_steps o1 noise (mkRequest (requestId o1) (requestId o1) l q None false)
    Hq Hin eq_refl Hm1) as (Hin2 & Hid2 & Hm2). fold o2 in Hin2, Hid2, Hm2.
  split; [done|]. cbn [step]. rewrite <- Hid2. split; [by intros id r; apply overtaken|].
  destruct (settle_latest o2 _ (Page items' next more) (running_steps _ _ R) Hin2 (eq_sym Hid2))
    as [rqs Hs].
  rewrite Hs, answer_page; [done|exact Hm2|first [exact (eq_sym Hid2)|reflexivity]|done].
Qed.

Definition an_option (v : string) : FilterOption := mkOption v v None false.
Definition async_props : Props := mkProps None (Some 7) true 250 (Some "owner").
Definition typed_twice : list Event := [Render async_props; Fire; SetQuery "a"; Render async_props; Fire].
Lemma last_query_is_shown_witness :
  let o1 := steps (steps (initial createFilterResolutionStore) typed_twice)
              [SetQuery "ab"; Render async_props; Fire] in
  requestId o1 = 3 /\
  let shown := state (step (steps o1 [Settle 1 (Items [an_option "old"]); SetQuery "abc";
                        Settle 2 (Rejected false)]) (Settle 3 (Page [an_option "ab"] (Some "2") None))) in
  items shown = [an_option "ab"] /\ hasMore shown = true.
Proof.
  split; [reflexivity|].
  destruct (last_query_is_shown createFilterResolutionStore typed_twice async_props "ab" 7
    [Settle 1 (Items [an_option "old"]); SetQuery "abc"; Settle 2 (Rejected false)]
    [an_option "ab"] (Some "2") None) as (_ & _ & H1 & _ & _ & H2 & _);
    [reflexivity|reflexivity|reflexivity|by intros p' text s [= <- <- <-]|reflexivity|].
  split; [exact H1|exact H2].
Defined.

(** The spinner tells the truth: as long as no loader rejects with an
    abort of its own, the list is marked loading exactly while the latest
    request is in flight, in every state the hook can reach. *)
Theorem spinner_is_a_request store es :
  every calm es = true ->
  loading (state (steps (initial store) es)) = latest_inflight (steps (initial store) es).
Proof. intros Hc. by apply (spinning_steps _ es (running_initial store)). Qed.
Lemma spinner_is_a_request_witness :
  every calm typed_twice = true /\
  loading (state (steps (initial createFilterResolutionStore) typed_twice)) = true /\
  latest_inflight (steps (initial createFilterResolutionStore) typed_twice) = true.
Proof.
  split; [reflexivity|].
  rewrite <- (spinner_is_a_request createFilterResolutionStore typed_twice eq_refl).
  split; reflexivity.
Defined.

(** A label is never lost: an option that was in the list at a commit
    resolves by its value ever after, whatever is typed, loaded or answered
    since, whatever the next pages omit and even if the request that brought it
    is overtaken. *)
Theorem seen_options_keep_their_label store es p option es' p' :
  option ∈ items (state (steps (initial store) es)) ->
  is_Some (resolve (steps (commit (steps (initial store) es) p) es') p' (o_value option)).
Proof.
  intros Hin. set (o := steps (initial store) es) in *.
  assert (R : running o) by (apply running_steps, running_initial).
  pose proof (steps_cache _ es' _ (commit_remembers o p option R Hin)) as H.
  unfold resolve. destruct (js_find _ _); [done|].
  apply mhas_spec in H. by case_match.
Qed.
Definition page_then_search : list Event :=
  [Render async_props; Fire; Settle 1 (Items [an_option "ada"])].
Lemma seen_options_keep_their_label_witness :
  let o := steps (initial createFilterResolutionStore) page_then_search in
  is_Some (resolve (steps (commit o async_props)
    [SetQuery "z"; Render async_props; Fire; Settle 2 (Items [])]) async_props "ada").
Proof.
  apply (seen_options_keep_their_label createFilterResolutionStore page_then_search async_props
    (an_option "ada")). by left.
Defined.

(** *** What the code also does *)
(** A page asked for after typing and before the debounce is asked with the new
    text and the cursor of the old one, and its rows join the old list. *)
Lemma stale_cursor_travels :
  let o := steps (initial createFilterResolutionStore)
    [Render async_props; Fire; Settle 1 (Page [an_option "ada"] (Some "c1") None);
     Render async_props; SetQuery "z"; Render async_props; LoadMore] in
  inflight o = [mkRequest 2 2 7 "z" (Some "c1") true] /\
  items (state (step o (Settle 2 (Items [an_option "zoe"])))) = [an_option "ada"; an_option "zoe"].
Proof. split; reflexivity. Qed.
(** A loader that rejects with an [AbortError] of its own, say at a time limit
    it set, leaves the list loading with nothing in flight. *)
Lemma own_abort_spins :
  let o := steps (initial createFilterResolutionStore)
    [Render async_props; Fire; Settle 1 (Rejected true)] in
  loading (state o) = true /\ inflight o = [] /\ error (state o) = false.
Proof. split_and!; reflexivity. Qed.
