(* ===== verification/FilterMenuLaws.v ===== *)
(** * The filter menu is right

    The rows are the caller's, each once, in the caller's order inside three
    groups, with a rule exactly where a group starts; the highlight is chased
    to its row and the chase ends; an exclusive option never shares a
    committed selection. *)
From S2P Require Import Prelude JsString JsValue JsMap FilterQuery FilterSchema FilterSchemaLaws FilterMenu.

(** ** Groups *)
Inductive Group := Pinned | Plain | Exclusive.
#[export] Instance Group_eq_dec : EqDecision Group.
Proof. solve_decision. Defined.
Definition group_of (pins : list string) (item : FilterListItem) : Group :=
  if li_exclusive item then Exclusive
  else if sin (li_value item) pins then Pinned else Plain.
Definition in_group (pins : list string) (g : Group) (l : list FilterListItem)
    : list FilterListItem :=
  bfilter (fun item => bool_decide (group_of pins item = g)) l.

Lemma bfilter_bfilter {A} (p q : A -> bool) l :
  bfilter p (bfilter q l) = bfilter (fun x => q x && p x) l.
Proof.
  induction l as [|x l IH]; [done|]. cbn. destruct (q x); cbn; [|done].
  destruct (p x); by rewrite IH.
Qed.
Lemma bfilter_ext {A} (p q : A -> bool) l : (forall x, p x = q x) -> bfilter p l = bfilter q l.
Proof. intros H. induction l as [|x l IH]; [done|]. cbn. by rewrite H, IH. Qed.
Lemma bfilter_spared {A} (p : A -> bool) l : bfilter p l = [] -> forall q,
  bfilter (fun x => negb (p x) && q x) l = bfilter q l.
Proof.
  intros H q. induction l as [|x l IH]; [done|]. cbn in *. destruct (p x); [done|]. cbn.
  by rewrite IH.
Qed.

(** The key of a selection splits back into it. *)
Lemma pinned_of (selected : list string) :
  Forall (lacks PIN_SEPARATOR) selected -> selected <> [""] ->
  (if String.eqb (liveKey true selected) "" then []
   else split_char PIN_SEPARATOR (liveKey true selected)) = selected.
Proof.
  intros Hl Hne. unfold liveKey. destruct selected as [|x l]; [done|].
  destruct (String.eqb_spec (join (str1 PIN_SEPARATOR) (x :: l)) "") as [E|].
  - exfalso. destruct l as [|y l]; [cbn in E; congruence|].
    rewrite join_cons2 in E. by destruct x.
  - by rewrite split_join.
Qed.

Section Laws.
Context (localeCompare : string -> string -> Z).
Notation arrange := (arrange localeCompare).
Notation partition := (partition localeCompare).

(** The rows of the menu, group by group. *)
Definition rows_of (pins : list string) (sortSelected : SortSelected) (l : list FilterListItem)
    : list FilterListItem :=
  arrange sortSelected (in_group pins Pinned l) ++ arrange sortSelected (in_group pins Plain l) ++
  arrange sortSelected (in_group pins Exclusive l).

Lemma arrange_perm s l : Permutation (arrange s l) l.
Proof. unfold FilterMenu.arrange. destruct (decide _); [apply sort_by_perm|done]. Qed.
Lemma arrange_length s l : length (arrange s l) = length l.
Proof. by rewrite arrange_perm. Qed.
Lemma arrange_group pins g s l item : item ∈ arrange s (in_group pins g l) -> group_of pins item = g.
Proof.
  rewrite arrange_perm. unfold in_group. intros [_ H]%bfilter_elem. by apply bool_decide_eq_true in H.
Qed.

Lemma partition_groups l selected s :
  Forall (lacks PIN_SEPARATOR) selected -> selected <> [""] ->
  partition l (liveKey true selected) s =
  mkPartitioned (length (in_group selected Pinned l))
    (if Nat.eqb (length (in_group selected Exclusive l)) 0 then (-1)%Z
     else Z.of_nat (length (in_group selected Pinned l) + length (in_group selected Plain l)))
    (map li_value (rows_of selected s l)) (map node_of (rows_of selected s l)).
Proof.
  intros Hl Hne. unfold FilterMenu.partition. cbv zeta. rewrite pinned_of by done.
  set (pinned := set_of selected).
  assert (Hs : forall v, sin v pinned = sin v selected).
  { intros v. apply Bool.eq_iff_eq_true. rewrite !sin_elem. apply (set_of_spec selected). }
  assert (Hexc : bfilter li_exclusive l = in_group selected Exclusive l).
  { apply bfilter_ext. intros x. unfold group_of. by destruct (li_exclusive x), (sin (li_value x) selected). }
  set (values := if Nat.eqb _ 0 then l else _).
  assert (Hval : values = bfilter (fun item => negb (li_exclusive item)) l).
  { unfold values. destruct (Nat.eqb_spec (length (bfilter li_exclusive l)) 0) as [E|]; [|done].
    apply length_zero_iff_nil in E. pose proof (bfilter_spared _ _ E (fun _ => true)) as H.
    rewrite (bfilter_ext _ (fun item => negb (li_exclusive item)) l) in H
      by (intros x; apply andb_true_r).
    rewrite H. clear. induction l as [|x l IH]; [done|]. cbn. by rewrite <- IH. }
  assert (Hpin : (if Nat.eqb (length pinned) 0 then []
                  else bfilter (fun item => sin (li_value item) pinned) values) =
                 in_group selected Pinned l).
  { rewrite Hval, bfilter_bfilter. destruct (Nat.eqb_spec (length pinned) 0) as [E|].
    - apply length_zero_iff_nil in E. unfold in_group. symmetry.
      rewrite (bfilter_ext _ (fun _ => false)); [clear; by induction l|].
      intros x. unfold group_of. rewrite <- Hs, E. by destruct (li_exclusive x).
    - apply bfilter_ext. intros x. rewrite Hs. unfold group_of.
      by destruct (li_exclusive x), (sin (li_value x) selected). }
  assert (Hrest : (if Nat.eqb (length pinned) 0 then values
                   else bfilter (fun item => negb (sin (li_value item) pinned)) values) =
                  in_group selected Plain l).
  { rewrite Hval, bfilter_bfilter. destruct (Nat.eqb_spec (length pinned) 0) as [E|].
    - apply length_zero_iff_nil in E. apply bfilter_ext. intros x. unfold group_of.
      rewrite <- Hs, E. by destruct (li_exclusive x).
    - apply bfilter_ext. intros x. rewrite Hs. unfold group_of.
      by destruct (li_exclusive x), (sin (li_value x) selected). }
  rewrite Hpin, Hrest, Hexc. unfold rows_of. f_equal. rewrite !length_app, !arrange_length. destruct (length (in_group selected Exclusive l)); cbn [Nat.eqb]; [reflexivity|lia].
Qed.
(** The group of the row at an index, by the sizes of the groups. *)
Lemma row_group pins s l k x : rows_of pins s l !! k = Some x ->
  group_of pins x =
  (if Nat.ltb k (length (in_group pins Pinned l)) then Pinned
   else if Nat.ltb k (length (in_group pins Pinned l) + length (in_group pins Plain l)) then Plain
   else Exclusive) /\ k < length (rows_of pins s l).
Proof.
  intros Hk. split; [|by eapply lookup_lt_Some]. unfold rows_of in Hk.
  rewrite !lookup_app in Hk.
  destruct (arrange s (in_group pins Pinned l) !! k) as [y|] eqn:E1.
  { simplify_eq. pose proof (lookup_lt_Some _ _ _ E1) as H. rewrite arrange_length in H.
    rewrite (proj2 (Nat.ltb_lt _ _) H). eapply arrange_group, list_elem_of_lookup_2, E1. }
  apply lookup_ge_None in E1. rewrite arrange_length in E1, Hk.
  rewrite (proj2 (Nat.ltb_ge _ _) E1).
  destruct (arrange s (in_group pins Plain l) !! _) as [y|] eqn:E2.
  { simplify_eq. pose proof (lookup_lt_Some _ _ _ E2) as H. rewrite arrange_length in H.
    rewrite (proj2 (Nat.ltb_lt _ _)) by lia. eapply arrange_group, list_elem_of_lookup_2, E2. }
  apply lookup_ge_None in E2. rewrite arrange_length in E2.
  rewrite (proj2 (Nat.ltb_ge _ _)) by lia. eapply arrange_group, list_elem_of_lookup_2, Hk.
Qed.
Lemma rows_length pins s l : length (rows_of pins s l) =
  length (in_group pins Pinned l) + length (in_group pins Plain l) + length (in_group pins Exclusive l).
Proof. unfold rows_of. rewrite !length_app, !arrange_length. lia. Qed.
Lemma rows_perm pins s l : Permutation (rows_of pins s l) l.
Proof.
  unfold rows_of. rewrite !arrange_perm. induction l as [|x l IH]; [done|].
  unfold in_group in *. cbn. destruct (group_of pins x) eqn:E;
    repeat match goal with
      | |- context [bool_decide (?g = ?g)] => rewrite (bool_decide_true (g = g)) by done
      | |- context [bool_decide (?g = ?h)] => rewrite (bool_decide_false (g = h)) by done
      end.
  - by apply Permutation_skip.
  - symmetry. apply Permutation_cons_app. by symmetry.
  - rewrite app_assoc. symmetry. apply Permutation_cons_app. rewrite <- app_assoc. by symmetry.
Qed.
End Laws.

(** ** Rules *)
Lemma ruled (marks : list Z) (ns : list MenuNode) (i : nat) (n : MenuNode) :
  fold_left (fun next index => alter rule_above (Z.to_nat index) next) marks ns !! i = Some n ->
  exists m, ns !! i = Some m /\ mn_value n = mn_value m /\ node_exclusive n = node_exclusive m /\
    node_divider n = node_divider m || existsb (fun index => Nat.eqb (Z.to_nat index) i) marks.
Proof.
  revert ns. induction marks as [|k marks IH]; intros ns.
  { intros H. exists n. by rewrite orb_false_r. }
  cbn [fold_left existsb]. intros H. apply IH in H as (m & Hm & H1 & H2 & H3).
  destruct (Nat.eqb_spec (Z.to_nat k) i) as [E|Hn].
  - rewrite E, list_lookup_alter, decide_True in Hm by done. destruct (ns !! i) as [m'|]; [|done]. cbn in Hm. simplify_eq.
    exists m'. split_and!; [done..|]. rewrite H3. cbn. by rewrite orb_true_r.
  - rewrite list_lookup_alter_ne in Hm by done. exists m. by rewrite H3.
Qed.
Lemma ruled_length (marks : list Z) (ns : list MenuNode) :
  length (fold_left (fun next index => alter rule_above (Z.to_nat index) next) marks ns) = length ns.
Proof. revert ns. induction marks as [|k marks IH]; intros ns; [done|]. cbn. by rewrite IH, length_alter. Qed.

(** Which rows the marks hit, [a] pinned rows, [b] plain and [c] exclusive. *)
Lemma marks_hit (a b c i : nat) (blank : bool) :
  i < a + b + c ->
  existsb (fun index => Nat.eqb (Z.to_nat index) i)
    (bfilter (fun index => (0 <? index)%Z && (index <? Z.of_nat (a + b + c))%Z)
      [if negb (Nat.eqb a 0) && blank then Z.of_nat a else (-1)%Z;
       if Nat.eqb c 0 then (-1)%Z else Z.of_nat (a + b)]) =
  (Nat.ltb 0 i && (Nat.eqb i a && blank || Nat.eqb i (a + b) && Nat.ltb 0 c)).
Proof.
  intros Hi. apply Bool.eq_iff_eq_true. rewrite existsb_exists.
  rewrite andb_true_iff, orb_true_iff, !andb_true_iff, !Nat.ltb_lt, !Nat.eqb_eq. split.
  - intros (z & Hin & Hz). apply filter_In in Hin as [Hin Hr].
    apply andb_true_iff in Hr as [H1 H2]. apply Nat.eqb_eq in Hz.
    apply Z.ltb_lt in H1, H2. destruct Hin as [<-|[<-|[]]].
    + destruct (negb (Nat.eqb a 0) && blank) eqn:E; [|lia].
      apply andb_true_iff in E as [_ ->]. split; [lia|left; split; [lia|done]].
    + destruct (Nat.eqb_spec c 0); [lia|]. split; [lia|right; lia].
  - intros [H0 [[-> ->]|[-> Hc]]].
    + exists (Z.of_nat a). split; [|apply Nat.eqb_eq; lia]. apply filter_In. split.
      * left. by rewrite (proj2 (Nat.eqb_neq a 0)) by lia.
      * apply andb_true_iff. split; apply Z.ltb_lt; lia.
    + exists (Z.of_nat (a + b)). split; [|apply Nat.eqb_eq; lia]. apply filter_In. split.
      * right. left. by rewrite (proj2 (Nat.eqb_neq c 0)) by lia.
      * apply andb_true_iff. split; apply Z.ltb_lt; lia.
Qed.

(** *** Properties *)

(** The menu shows the rows it was given, each once: the picked ones, the
    rest, the exclusive ones, each group in the caller's order (or by label
    where the field asks); every row keeps its value and its exclusive flag;
    and a rule is drawn above a row exactly when the row above is of another
    group - but the rule under the picks only without a query - so never above
    the first row. *)
Theorem menu_groups localeCompare l selected s query :
  Forall (lacks PIN_SEPARATOR) selected -> selected <> [""] ->
  let ns := menu_nodes (partition localeCompare l (liveKey true selected) s) query in
  let rows := rows_of localeCompare selected s l in
  Permutation rows l /\ length ns = length rows /\
  (forall i n y, ns !! i = Some n -> rows !! i = Some y ->
     mn_value n = li_value y /\ node_exclusive n = li_exclusive y) /\
  (forall n, ns !! 0 = Some n -> node_divider n = false) /\
  (forall i x y n, rows !! i = Some x -> rows !! S i = Some y -> ns !! S i = Some n ->
     node_divider n = negb (bool_decide (group_of selected x = group_of selected y)) &&
                      (String.eqb (trim query) "" ||
                       bool_decide (group_of selected y = Exclusive))).
Proof.
  intros Hl Hne ns rows.
  assert (Hns : ns = menu_nodes (partition localeCompare l (liveKey true selected) s) query) by done.
  rewrite partition_groups in Hns by done. unfold menu_nodes in Hns. cbv zeta in Hns.
  unfold dividerAt in Hns. cbn [nodes exclusiveAt chosenCount] in Hns. fold rows in Hns.
  rewrite length_map in Hns.
  assert (Hn : length rows = length (in_group selected Pinned l) + length (in_group selected Plain l) +
    length (in_group selected Exclusive l)) by apply rows_length.
  rewrite Hn in Hns.
  set (a := length (in_group selected Pinned l)) in *.
  set (b := length (in_group selected Plain l)) in *.
  set (c := length (in_group selected Exclusive l)) in *.
  assert (Hat : forall i n, ns !! i = Some n -> exists y, rows !! i = Some y /\
    mn_value n = li_value y /\ node_exclusive n = li_exclusive y /\
    node_divider n = (Nat.ltb 0 i && (Nat.eqb i a && String.eqb (trim query) "" ||
                      Nat.eqb i (a + b) && Nat.ltb 0 c))).
  { intros i n Hi. rewrite Hns in Hi. apply ruled in Hi as (m & Hm & H1 & H2 & H3).
    apply list_lookup_fmap_Some in Hm as (y & Hm & Hy). subst m. exists y.
    pose proof (lookup_lt_Some _ _ _ Hy) as Hlt. rewrite marks_hit in H3 by lia.
    rewrite H1, H2, H3. split; [done|]. unfold node_of, node_exclusive, node_divider. cbn.
    by destruct (li_exclusive y). }
  split; [apply rows_perm|]. split.
  { rewrite Hns, ruled_length, length_map. done. }
  split; [|split].
  - intros i n y Hi Hy. destruct (Hat i n Hi) as (y' & Hy' & ? & ? & _). by simplify_eq.
  - intros n Hi. by destruct (Hat 0 n Hi) as (y' & _ & _ & _ & ->).
  - intros i x y n Hx Hy Hi. destruct (Hat (S i) n Hi) as (y' & Hy' & _ & _ & ->). simplify_eq.
    apply row_group in Hx as [-> _]. apply row_group in Hy as [-> Hlt]. fold a b. fold rows in Hlt.
    rewrite Hn in Hlt. change (Nat.ltb 0 (S i)) with true.
    destruct (Nat.ltb_spec i a), (Nat.ltb_spec (S i) a), (Nat.ltb_spec i (a + b)),
      (Nat.ltb_spec (S i) (a + b)), (Nat.eqb_spec (S i) a), (Nat.eqb_spec (S i) (a + b)),
      (Nat.ltb_spec 0 c); try lia; by destruct (String.eqb (trim query) "").
Qed.
Definition pick (v : string) (exclusive : bool) : FilterListItem := mkItem v v None None false exclusive.
Definition four_rows : list FilterListItem :=
  [pick "none" true; pick "ada" false; pick "bob" false; pick "cy" false].
Lemma menu_groups_witness :
  let ns := menu_nodes (partition (fun _ _ => 0%Z) four_rows (liveKey true ["cy"]) SortNone) "" in
  map (fun n => (mn_value n, node_divider n)) ns =
    [("cy", false); ("ada", true); ("bob", false); ("none", true)] /\
  length ns = 4.
Proof.
  split; [reflexivity|].
  destruct (menu_groups (fun _ _ => 0%Z) four_rows ["cy"] SortNone "") as (_ & H & _);
    [by repeat constructor|done|exact H].
Defined.

(** ** The pin keeper *)
Import Keeper.
Inductive KeeperEvent :=
| Committed (rows : Rows) (value : option string) (index : Z)
| Attempted (shown : option (list string)).
Definition keeper_step (k : Keeper) (e : KeeperEvent) : Keeper :=
  match e with
  | Committed rows value index => commit k rows value index
  | Attempted shown => (attempt k shown).1
  end.
Definition keeper_steps (k : Keeper) (es : list KeeperEvent) : Keeper := fold_left keeper_step es k.

Lemma find_index_lookup v (l : list string) :
  (0 <= find_index (String.eqb v) l)%Z -> l !! Z.to_nat (find_index (String.eqb v) l) = Some v.
Proof.
  induction l as [|x l IH]; [done|]. cbn [find_index].
  destruct (String.eqb_spec v x) as [->|]; [done|].
  destruct (Z.ltb_spec (find_index (String.eqb v) l) 0); [done|]. intros _.
  replace (Z.to_nat (find_index (String.eqb v) l + 1))
    with (S (Z.to_nat (find_index (String.eqb v) l))) by lia.
  cbn. by apply IH.
Qed.

(** An arm is never spent beyond its bound. *)
Definition bounded (k : Keeper) : Prop :=
  forall p, pending k = Some p -> pe_attempts p < MAX_PIN_RESTORE_ATTEMPTS.
Lemma bounded_step k e : bounded k -> bounded (keeper_step k e).
Proof.
  intros H. destruct e as [rows value index|shown]; cbn [keeper_step].
  - unfold commit. cbv zeta. set (k1 := arm k rows value index).
    assert (H1 : bounded k1).
    { unfold k1, arm, bounded. cbn. intros p.
      destruct (previous k) as [prev|]; [|by apply H].
      destruct (Nat.eqb _ _); [by apply H|]. destruct (negb _); [by apply H|].
      destruct value as [[|c v]|]; [by apply H| |by apply H].
      destruct (isSameOrder _ _); [by apply H|]. intros [= <-]. cbn. unfold MAX_PIN_RESTORE_ATTEMPTS. lia. }
    clearbody k1. destruct (decide _); [done|]. unfold chase, bounded. cbn.
    destruct (pending k1) as [p|] eqn:E; [|intros q Hq; apply H1; cbn in Hq; congruence].
    destruct (_ || _); [done|].
    destruct (_ || _); intros q Hq; apply H1; cbn in Hq; congruence.
  - unfold attempt. destruct (negb (chasing k)); [done|]. cbv zeta.
    destruct (pending k) as [p|] eqn:E; [|intros q Hq; apply H; cbn in Hq; congruence].
    destruct shown as [shown|]; [|done]. destruct (_ || _); [done|]. cbn [pe_attempts].
    destruct (Nat.leb_spec MAX_PIN_RESTORE_ATTEMPTS (S (pe_attempts p))); [done|].
    intros q [= <-]. cbn. lia.
Qed.
Lemma bounded_steps es : bounded (keeper_steps initial es).
Proof.
  assert (H : bounded initial) by done. revert H. generalize initial as k.
  induction es as [|e es IH]; intros k H; [done|]. by apply IH, bounded_step.
Qed.

(** The tasks that remain: what an arm has left while one is scheduled. *)
Definition tasks_left (k : Keeper) : nat :=
  if chasing k then match pending k with
                    | Some p => MAX_PIN_RESTORE_ATTEMPTS - pe_attempts p
                    | None => 1
                    end
  else 0.
Lemma attempt_spends k shown : bounded k -> tasks_left (attempt k shown).1 <= tasks_left k - 1.
Proof.
  intros H. unfold attempt. destruct (chasing k) eqn:Ec; [|unfold tasks_left; cbn; rewrite Ec; lia].
  cbn [negb]. cbv zeta. destruct (pending k) as [p|] eqn:Ep; [|unfold tasks_left; cbn; lia].
  destruct shown as [shown|]; [|unfold tasks_left; cbn; lia].
  destruct (_ || _); [unfold tasks_left; cbn; lia|]. cbn [pe_attempts].
  destruct (Nat.leb_spec MAX_PIN_RESTORE_ATTEMPTS (S (pe_attempts p)));
    unfold tasks_left; cbn [fst stop chasing pending pe_attempts]; [lia|]. rewrite Ec, Ep. lia.
Qed.

(** Chasing the highlight ends and hits the right row: from any state the
    menu can reach, four tasks without a new re-pin leave nothing scheduled,
    whatever the document then shows; and a pointer event is sent only to the
    row that holds the value the user was on, in the order it was armed with,
    and only when the document shows as many rows. *)
Theorem chase_ends es docs :
  let k := keeper_steps initial es in
  4 <= length docs ->
  chasing (keeper_steps k (map Attempted docs)) = false /\
  (forall shown k' row, attempt k (Some shown) = (k', Some row) ->
     exists p, pending k = Some p /\ pe_order p !! row = Some (pe_value p) /\ row < length shown).
Proof.
  intros k Hd. pose proof (bounded_steps es) as Hb. fold k in Hb. split.
  - assert (H : tasks_left (keeper_steps k (map Attempted docs)) <= tasks_left k - length docs /\
      bounded (keeper_steps k (map Attempted docs))).
    { clear Hd. revert Hb. generalize k. clear k. induction docs as [|d docs IH]; intros k Hb; [split; [cbn; lia|done]|].
      cbn [map keeper_steps fold_left keeper_step length].
      destruct (IH (attempt k d).1) as [H1 H2]; [by apply (bounded_step k (Attempted d))|].
      split; [|exact H2]. pose proof (attempt_spends k d Hb). unfold keeper_steps in H1. lia. }
    destruct H as [H Hb']. assert (Hk : tasks_left k <= 4).
    { unfold tasks_left, MAX_PIN_RESTORE_ATTEMPTS. destruct (chasing k); [|lia].
      destruct (pending k); lia. }
    set (k' := keeper_steps k (map Attempted docs)) in *.
    destruct (chasing k') eqn:Ec; [|done]. unfold tasks_left in H at 1. rewrite Ec in H.
    destruct (pending k') as [p|] eqn:Ep; [specialize (Hb' p Ep)|]; lia.
  - intros shown k' row. unfold attempt. destruct (negb (chasing k)); [done|]. cbv zeta.
    destruct (pending k) as [p|]; [|done].
    set (i := find_index _ _). destruct (Z.ltb_spec i 0); [done|]. cbn [orb].
    destruct (Nat.eqb_spec (length shown) (length (pe_order p))) as [El|]; [|done]. cbn [negb].
    intros [= _ <-]. exists p.
    assert (Hl : pe_order p !! Z.to_nat i = Some (pe_value p)) by (by apply find_index_lookup).
    split_and!; [done..|]. rewrite El. by eapply lookup_lt_Some.
Qed.
Definition repinned : list KeeperEvent :=
  [Committed (mkRows 1 ["a"; "b"; "c"] 9) (Some "c") 2;
   Committed (mkRows 2 ["c"; "a"; "b"] 9) (Some "c") 2;
   Committed (mkRows 2 ["c"; "a"; "b"] 9) (Some "b") 2].
Lemma chase_ends_witness :
  let k := keeper_steps initial repinned in
  chasing k = true /\ (attempt k (Some ["c"; "a"; "b"])).2 = Some 0 /\
  chasing (keeper_steps k (map Attempted (repeat (Some ["c"; "a"; "b"]) 4))) = false.
Proof.
  split_and!; [reflexivity..|].
  exact (proj1 (chase_ends repinned (repeat (Some ["c"; "a"; "b"]) 4) (le_n 4))).
Defined.

(** ** The option editors *)
Lemma exclusive_change_spec next previous isExclusive :
  exclusive_change next previous isExclusive ?? next =
  applyFilterExclusiveSelection next previous isExclusive.
Proof.
  unfold exclusive_change, applyFilterExclusiveSelection. cbv zeta.
  destruct (Nat.eqb _ 0); [done|]. destruct (last_exclusive _ _); [done|]. by destruct (Nat.eqb _ _).
Qed.
(** A selection the rule changed holds a value the pick added. *)
Lemma changed_arrived next previous isExclusive values :
  exclusive_change next previous isExclusive = Some values ->
  exists arrived, js_find (fun ent => negb (some (String.eqb ent) previous)) values = Some arrived.
Proof.
  unfold exclusive_change. cbv zeta.
  set (held := set_of previous). set (added := bfilter (fun v => negb (sin v held)) next).
  assert (Hadd : forall v, v ∈ added <-> v ∈ next /\ some (String.eqb v) previous = false).
  { intros v. unfold added. rewrite bfilter_elem, negb_true_iff, sin_false.
    unfold held. rewrite (proj2 (set_of_spec previous)). rewrite <- sin_false. done. }
  destruct (Nat.eqb_spec (length added) 0) as [|Hne]; [done|].
  pose proof (last_exclusive_spec isExclusive added) as Hlast.
  destruct (last_exclusive isExclusive added) as [x|].
  - destruct Hlast as [Hx _]. apply Hadd in Hx as [_ Hx]. intros [= <-]. exists x. cbn. by rewrite Hx.
  - destruct (Nat.eqb _ _); [done|]. intros [= <-].
    destruct added as [|x l] eqn:E; [done|]. assert (Hx : x ∈ x :: l) by by left.
    pose proof (proj1 (Hadd x) Hx) as [Hin Hp].
    assert (Hex : isExclusive x = false).
    { cbn in Hlast. apply andb_true_iff in Hlast as [Hlast _]. by apply negb_true_iff. }
    destruct (js_find _ _) as [y|] eqn:Ef; [by exists y|]. exfalso.
    pose proof (List.find_none _ _ Ef x) as Hn. cbn in Hn. rewrite Hp in Hn.
    assert (Hk : In x (bfilter (fun value => negb (isExclusive value)) next)).
    { apply filter_In. split; [by apply list_elem_of_In|by rewrite Hex]. }
    by specialize (Hn Hk).
Qed.

Definition is_announce (c : EditorCall) : bool := match c with Announce _ => true | _ => false end.

(** A tick of a multiple choice commits, with the menu open, the selection
    the exclusive rule gives - one exclusive option alone, or none of them -
    and it is announced exactly when it cost the user other picks: one sentence,
    with the option that arrived and how many picks went. *)
Theorem exclusive_pick_is_announced labels resolve field_id rows declared selected raw :
  let values := applyFilterExclusiveSelection raw selected (is_none_value resolve) in
  let calls := onSelectionChange labels resolve true true field_id rows declared selected raw in
  drop (length calls - 2) calls =
    [OnValueChange (VArr (map VStr values)); CommitValue (VArr (map VStr values)) false] /\
  (if Nat.ltb (length values) (length raw)
   then exists arrived, arrived ∈ values /\ arrived ∉ selected /\
        bfilter is_announce calls =
          [Announce (exclusiveAnnouncement labels ((o_label <$> resolve arrived) ?? arrived)
             (length raw - length values))]
   else bfilter is_announce calls = []).
Proof.
  intros values calls.
  assert (Hv : exclusive_change raw selected (is_none_value resolve) ?? raw = values)
    by apply exclusive_change_spec.
  unfold calls, onSelectionChange. cbv zeta. cbn [negb]. clearbody values.
  destruct (exclusive_change raw selected (is_none_value resolve)) as [changed|] eqn:Ec.
  - cbn in Hv. subst changed. cbn [from_option].
    destruct (changed_arrived _ _ _ _ Ec) as [x Hx]. rewrite Hx.
    assert (Harr : x ∈ values /\ x ∉ selected).
    { apply List.find_some in Hx as [H1 H2]. split; [by apply list_elem_of_In|].
      apply negb_true_iff in H2. by apply sin_false. }
    destruct (Nat.ltb_spec (length values) (length raw)).
    + rewrite (proj2 (Nat.ltb_lt 0 _)) by lia. split; [done|].
      exists x. by split_and!; [apply Harr|apply Harr|].
    + by rewrite (proj2 (Nat.ltb_ge 0 _)) by lia.
  - cbn in Hv. subst values. cbn [from_option]. rewrite Nat.ltb_irrefl.
    destruct (_ && _); [|done]. by destruct (js_find _ _).
Qed.

(** A single choice: a pick commits, and picking the committed row again, or a
    row whose value is the empty string, only closes the editor. *)
Lemma single_pick labels resolve announce field_id rows declared selected v :
  v <> "" ->
  exists said, onSelectionChange labels resolve false announce field_id rows declared selected
                 (single_change v) = said ++ [OnValueChange (VStr v); CommitValue (VStr v) true].
Proof.
  intros Hv. unfold single_change. destruct (String.eqb_spec v ""); [done|].
  unfold onSelectionChange. cbv zeta. rewrite exclusive_change_spec.
  assert (Hone : applyFilterExclusiveSelection [v] selected (is_none_value resolve) = [v]).
  { unfold applyFilterExclusiveSelection. cbv zeta. cbn [List.filter].
    destruct (negb (sin v _)); [|done]. cbn. by destruct (is_none_value resolve v). }
  rewrite Hone. by eexists.
Qed.
Lemma empty_value_cannot_be_picked labels resolve announce field_id rows declared selected :
  onSelectionChange labels resolve false announce field_id rows declared selected (single_change "") =
  [CancelDraft].
Proof. done. Qed.

(** What the boolean editor commits is what it then shows as picked. *)
Lemma boolean_reads_back (item : FilterListItem) : item ∈ BOOLEAN_ITEMS ->
  exists b, boolean_change (single_change (li_value item)) = [OnValueChange (VBool b); CommitValue (VBool b) true] /\
    boolean_selected (VBool b) = [li_value item].
Proof.
  intros [->|[->|H%elem_of_nil]%elem_of_cons]%elem_of_cons; [by exists true|by exists false|done].
Qed.

(** An editor is missing only for an operator that takes no value, once the
    registry has the six shipped ones. *)
Lemma editor_exists {Editor} (own : Editor) field operator editors :
  (forall name, name ∈ ["text"; "range"; "multiselect"] -> is_Some (editors name)) ->
  resolveFilterEditor own field operator editors = None <->
  operatorTakesValue operator = false /\
  match ff_editor field with
  | NoEditor => True | EditorName name => editors name = None | EditorComponent => False
  end.
Proof.
  intros Hreg.
  destruct (Hreg "text") as [et Et]; [set_solver|]. destruct (Hreg "range") as [er Er]; [set_solver|].
  destruct (Hreg "multiselect") as [em Em]; [set_solver|].
  unfold resolveFilterEditor, operatorTakesValue, getFilterArity. rewrite Et, Er, Em.
  destruct (match operator with Some op => op_arity op ?? AOne | None => AOne end) eqn:E;
    destruct (ff_editor field) as [|name|]; cbn;
    repeat case_match; naive_solver.
Qed.
