(* ===== verification/FilterPanel.v ===== *)
(** * The advanced filter panel

    [packages/ui/src/components/reui/filters/filters-advanced.tsx]: the rows of
    the builder and the cells each draws, its single tab stop, its keyboard,
    the text cell, the issues it shows, adding, and the focus it restores.  A
    row is known by its node's id; the cells of the panel are a list in
    document order, which is what the code reads back with its selectors: a
    group's own cells stand around those of its children. *)
From S2P Require Import Prelude JsString JsValue JsMap FilterQuery FilterSchema Filters.

(** ** Columns *)
Definition CONTENT_COLUMNS : list Segment := [SegCombinator; SegField; SegOperator; SegValue].
Definition ACTION_COLUMNS : list Segment := [SegDrag; SegMenu; SegAdd; SegRemove].
Definition seg_eqb (a b : Segment) : bool := bool_decide (a = b).
Definition in_band (band : list Segment) (column : Segment) : bool := some (seg_eqb column) band.

Section Nearest.
Context {E : Type} (available : Segment -> option E).

(** [available.get(band[i] ?? '')] *)
Definition band_at (band : list Segment) (i : Z) : option E :=
  if (i <? 0)%Z then None
  else match band !! Z.to_nat i with Some column => available column | None => None end.
Fixpoint nearest_loop (fuel : nat) (step : Z) (band : list Segment) (at_ : Z) : option E :=
  match fuel with
  | 0 => None
  | S fuel' =>
      match (if (step =? 0)%Z then None else band_at band (at_ - step)) with
      | Some before => Some before
      | None =>
          match band_at band (at_ + step) with
          | Some after => Some after
          | None => nearest_loop fuel' (step + 1) band at_
          end
      end
  end.
Definition nearestColumn (band : list Segment) (from : Segment) : option E :=
  let at_ := find_index (seg_eqb from) band in
  if (at_ =? -1)%Z then None else nearest_loop (length band) 0 band at_.
End Nearest.

(** ** The cells of a panel *)
(** A focusable control: its row, its column, whether it is typed into. *)
Record Cell := mkCell { c_node : string; c_column : Segment; c_input : bool }.

Section Walk.
Context {A : Type} (f : nat -> FilterNode -> list A).
(** [rules.map((node, index) => ...)], flattened. *)
Fixpoint walk (k : nat) (l : list FilterNode) : list A :=
  match l with [] => [] | n :: l' => f k n ++ walk (S k) l' end.
End Walk.

Definition canFilterNodeMove (query : FilterQuery) (parentId : string) : bool :=
  if negb (String.eqb parentId (g_id query)) then true
  else Nat.ltb 1 (length (g_rules query)).

Section Panel.
(** The published index and operators, whether a field supplies its own text,
    whether the root draws values itself, and whether rows may be reordered. *)
Context (index : FilterIndex) (resolveOperators : FilterField -> list FilterOperator).
Context (has_valueText : FilterField -> bool) (renderValue reorderable : bool).
Context (store : RowStore).

Definition usesInlineTextEditor (field : FilterField) (operator : option FilterOperator)
    (hasCustomDisplay : bool) : bool :=
  if match ff_editor field with
     | NoEditor | EditorName EmptyString => false | _ => true end then false
  else if match ff_options field with Some _ => true | None => false end || ff_loadOptions field
  then false
  else if ff_renderValue field || has_valueText field || hasCustomDisplay then false
  else match ff_type field ?? TText with
       | TText | TNumber => bool_decide (getFilterArity operator = AOne)
       | _ => false
       end.

Definition rule_operator (rule : FilterRule) : option FilterOperator :=
  match getFilterField index (r_path rule) with
  | Some field => getFilterOperator (resolveOperators field) (Some (r_operator rule))
  | None => getFilterOperator [] (Some (r_operator rule))
  end.
Definition takesValue (rule : FilterRule) : bool :=
  negb (String.eqb (r_operator rule) "") && operatorTakesValue (rule_operator rule).
Definition inlineValue (rule : FilterRule) : bool :=
  match getFilterField index (r_path rule) with
  | Some field => takesValue rule && usesInlineTextEditor field (rule_operator rule) renderValue
  | None => false
  end.

Definition row_columns (slot : FilterCombinatorSlot) (takes canMove pending : bool)
    : list Segment :=
  (match slot with SlotToggle => [SegCombinator] | _ => [] end) ++ [SegField] ++
  (if pending then [] else SegOperator :: (if takes then [SegValue] else [])) ++
  (if canMove then [SegDrag] else []) ++ [SegMenu].
Definition group_columns (slot : FilterCombinatorSlot) (canMove : bool) : list Segment :=
  (match slot with SlotToggle => [SegCombinator] | _ => [] end) ++ [SegAdd] ++
  (if canMove then [SegDrag] else []) ++ [SegMenu].

Section Query.
Context (query : FilterQuery).

Definition canMove (parentId : string) : bool := reorderable && canFilterNodeMove query parentId.
(** A rule whose field the schema no longer has draws one button. *)
Definition is_unknown (rule : FilterRule) : bool :=
  match getFilterField index (r_path rule) with Some _ => false | None => true end.
Definition rule_columns (parentId : string) (position : nat) (rule : FilterRule) : list Segment :=
  if is_unknown rule then [SegRemove]
  else row_columns (filterCombinatorSlot position) (takesValue rule) (canMove parentId)
         (isPending store (r_id rule)).
Definition rule_cells (parentId : string) (position : nat) (rule : FilterRule) : list Cell :=
  map (fun column => mkCell (r_id rule) column (seg_eqb column SegValue && inlineValue rule))
    (rule_columns parentId position rule).

(** The cells of a node, in document order. *)
Fixpoint node_cells (parentId : string) (position : nat) (n : FilterNode) : list Cell :=
  match n with
  | NRule rule => rule_cells parentId position rule
  | NGroup g =>
      let cell column := mkCell (g_id g) column false in
      (match filterCombinatorSlot position with SlotToggle => [cell SegCombinator] | _ => [] end) ++
      walk (node_cells (g_id g)) 0 (g_rules g) ++
      [cell SegAdd] ++ (if canMove parentId then [cell SegDrag] else []) ++ [cell SegMenu]
  end.
Fixpoint node_rows (n : FilterNode) : list string :=
  match n with
  | NRule rule => [r_id rule]
  | NGroup g => g_id g :: flat_map node_rows (g_rules g)
  end.
Definition panel_cells : list Cell := walk (node_cells (g_id query)) 0 (g_rules query).
Definition panel_rows : list string := flat_map node_rows (g_rules query).
Definition ownCells (row : string) : list Cell :=
  bfilter (fun c => String.eqb (c_node c) row) panel_cells.

(** ** The tab stop *)
Definition useActiveColumn (focus : FilterFocus) (node : string) (columns : list Segment)
    (isFirstRow : bool) : option Segment :=
  if bool_decide (fo_id focus = Some node) then
    match fo_segment focus with
    | Some segment => if some (seg_eqb segment) columns then Some segment else head columns
    | None => head columns
    end
  else if bool_decide (fo_id focus = None) && isFirstRow then head columns else None.

(** The cells with [tabIndex={0}], of a node at a depth. *)
Definition stop_of (node : string) (active : option Segment) : list (string * Segment) :=
  match active with Some column => [(node, column)] | None => [] end.
Fixpoint node_stops (focus : FilterFocus) (depth : nat) (position : nat) (parentId : string)
    (n : FilterNode) : list (string * Segment) :=
  let first := Nat.eqb depth 1 && Nat.eqb position 0 in
  match n with
  | NRule rule =>
      if is_unknown rule then []
      else stop_of (r_id rule)
             (useActiveColumn focus (r_id rule) (rule_columns parentId position rule) first)
  | NGroup g =>
      stop_of (g_id g)
        (useActiveColumn focus (g_id g)
           (group_columns (filterCombinatorSlot position) (canMove parentId)) first) ++
      walk (fun k c => node_stops focus (S depth) k (g_id g) c) 0 (g_rules g)
  end.
Definition tab_stops (focus : FilterFocus) : list (string * Segment) :=
  walk (fun k c => node_stops focus 1 k (g_id query) c) 0 (g_rules query).

(** ** The keyboard *)
Record Key := mkKey { key : string; altKey : bool; ctrlKey : bool; rtl : bool }.
Inductive Outcome :=
| Ignored
| FocusCell (c : Cell)
| Reorder (node : string) (delta : Z)
| Delete (node : string) (rowIndex : Z).

Definition cell_eqb (a b : Cell) : bool :=
  String.eqb (c_node a) (c_node b) && seg_eqb (c_column a) (c_column b).
(** [focus(list[i])]: nothing for an index outside of the list. *)
Definition focus_at (l : list Cell) (i : Z) : Outcome :=
  if (i <? 0)%Z then Ignored
  else match l !! Z.to_nat i with Some c => FocusCell c | None => Ignored end.

Definition band_of (column : Segment) : list Segment :=
  if in_band CONTENT_COLUMNS column then CONTENT_COLUMNS else ACTION_COLUMNS.
(** The rows that draw a cell in a band, in the order of their first one. *)
Definition bandRows (band : list Segment) : list string :=
  set_of (map c_node (bfilter (fun c => in_band band (c_column c)) panel_cells)).

Definition focusRow (c : Cell) (step : Z) : Outcome :=
  let band := band_of (c_column c) in
  let rows := bandRows band in
  let i := (find_index (String.eqb (c_node c)) rows + step)%Z in
  match (if (i <? 0)%Z then None else rows !! Z.to_nat i) with
  | None => Ignored
  | Some row =>
      let there := ownCells row in
      match nearestColumn (fun column => js_find (fun e => seg_eqb (c_column e) column) there)
              band (c_column c) with
      | Some target => FocusCell target
      | None => focus_at there 0
      end
  end.

(** "ArrowDown never reaches here: Base UI stops it at the menu trigger": the
    cells of this column are the triggers of the row's and the group's menu,
    which take the key to open it. *)
Definition stopped_at_trigger (c : Cell) (e : Key) : bool :=
  seg_eqb (c_column c) SegMenu && String.eqb (key e) "ArrowDown".

(** A key pressed on the cell [c]: what [onKeyDown] does, [Ignored] leaving the
    event as it is, or never reaching the panel. *)
Definition onKeyDown (locked : bool) (c : Cell) (e : Key) : Outcome :=
  let row := c_node c in
  let cells := ownCells row in
  let cellIndex := find_index (cell_eqb c) cells in
  let forward := if rtl e then "ArrowLeft" else "ArrowRight" in
  let backward := if rtl e then "ArrowRight" else "ArrowLeft" in
  let pressed k := String.eqb (key e) k in
  if stopped_at_trigger c e then Ignored
  else if String.eqb row "" then Ignored
  else if altKey e && (pressed "ArrowUp" || pressed "ArrowDown") then
    if locked || negb reorderable then Ignored
    else Reorder row (if pressed "ArrowDown" then 1 else -1)
  else if pressed "ArrowDown" then focusRow c 1
  else if pressed "ArrowUp" then focusRow c (-1)
  else if c_input c then Ignored
  else if pressed forward then focus_at cells (cellIndex + 1)
  else if pressed backward then focus_at cells (cellIndex - 1)
  else if pressed "Home" then
    focus_at (if ctrlKey e then ownCells (nth 0 panel_rows "") else cells) 0
  else if pressed "End" then
    let scope := if ctrlKey e then ownCells (List.last panel_rows "") else cells in
    focus_at scope (Z.of_nat (length scope) - 1)
  else if pressed "Backspace" || pressed "Delete" then
    if locked then Ignored
    else Delete row (find_index (String.eqb row) panel_rows)
  else Ignored.

(** The frame after a deletion, over the panel as it is then. *)
Definition focus_after_delete (rowIndex : Z) : option Cell :=
  let at_ := Z.min rowIndex (Z.of_nat (length panel_rows) - 1) in
  if (at_ <? 0)%Z then None
  else match panel_rows !! Z.to_nat at_ with Some row => head (ownCells row) | None => None end.

(** ** Restoring focus *)
Inductive Target := CellTarget (c : Cell) | AddRowButton.
(** [heldFocus] of the panel, whether focus is on the body, and the store. *)
Definition restoreFocus (heldFocus onBody : bool) (focus : FilterFocus) : option Target :=
  if fo_autoOpen focus then None
  else if negb heldFocus then None
  else if negb onBody then None
  else
    let row := match fo_id focus with
               | Some (String _ _ as id) => if sin id panel_rows then Some id else None
               | _ => None
               end in
    let cells := match row with Some id => ownCells id | None => [] end in
    match js_find (fun c => bool_decide (Some (c_column c) = fo_segment focus)) cells with
    | Some c => Some (CellTarget c)
    | None =>
        match head cells with
        | Some c => Some (CellTarget c)
        | None =>
            match head panel_rows ≫= (fun id => head (ownCells id)) with
            | Some c => Some (CellTarget c)
            | None => Some AddRowButton
            end
        end
    end.

(** The first cell that needs attention. *)
Definition focusFirstIssue (issues : list FilterIssue) : option Cell :=
  match head issues with
  | None => None
  | Some first =>
      if negb (sin (i_node first) panel_rows) then None
      else
        let column := match i_column first with
                      | ColGroup => SegAdd | ColOperator => SegOperator | ColValue => SegValue end in
        js_find (fun c => seg_eqb (c_column c) column) (ownCells (i_node first))
  end.

(** Where a dragged node may be dropped by name: parent and index. *)
Fixpoint group_zones (n : FilterNode) : list (string * nat) :=
  match n with
  | NRule _ => []
  | NGroup g =>
      [(g_id g, 0)] ++
      (if Nat.eqb (length (g_rules g)) 0 then [(g_id g, 0)] else flat_map group_zones (g_rules g)) ++
      [(g_id g, length (g_rules g))]
  end.
Definition drop_zones : list (string * nat) :=
  flat_map group_zones (g_rules query) ++ [(g_id query, length (g_rules query))].
End Query.

(** ** Issues *)
Definition visible_issues (issues : list FilterIssue) : list FilterIssue :=
  bfilter (fun i => match i_reason i with Custom => row_has store (i_node i) | _ => false end) issues.
(** The [arityOf] the panel gives [collectFilterIssues]. *)
Definition panel_arity (rule : FilterRule) : option (option FilterOperatorArity) :=
  match getFilterField index (r_path rule) with
  | None => None
  | Some _ => Some (Some (getFilterArity (rule_operator rule)))
  end.

(** The announcement of a rise: what was seen, and whether to speak. *)
Definition announce_issues (before : nat * nat) (count seq : nat) : (nat * nat) * option nat :=
  ((count, seq),
   if negb (Nat.eqb seq before.2) then None
   else if Nat.leb count before.1 then None else Some count).
End Panel.

(** [heldFocus]: a focus inside sets it, a blur to a real element clears it. *)
Inductive FocusMove := FocusIn | BlurTo (relatedTarget : bool).
Definition held_step (held : bool) (m : FocusMove) : bool :=
  match m with FocusIn => true | BlurTo related => if related then false else held end.

(** ** The text cell *)
Module Inline.
Record Inline := mkInline { draft : string; seed : string }.
Definition committed (value : val) : string := if is_nullish value then "" else js_String value.
Definition mount (value : val) : Inline := mkInline (committed value) (committed value).
(** A render with the rule's value: adopted when it changed. *)
Definition render (s : Inline) (value : val) : Inline :=
  if negb (String.eqb (seed s) (committed value)) then mount value else s.
Definition change (s : Inline) (text : string) : Inline := mkInline text (seed s).

(** [commit]: the cell, and the value it writes. *)
Definition commit (numeric : bool) (s : Inline) : Inline * option val :=
  if String.eqb (draft s) (seed s) then (s, None)
  else if numeric then
    let text := trim (draft s) in
    if String.eqb text "" then (s, Some VUndef)
    else
      let parsed := to_number text in
      if negb (is_finite parsed) then (mkInline (seed s) (seed s), None)
      else (s, Some (VNum parsed))
  else (s, Some (VStr (draft s))).

(** A key: the cell, the value written, whether the event was taken, and
    whether it was kept from the surface around. *)
Definition press (numeric : bool) (s : Inline) (k : string) (isComposing : bool)
    : Inline * option val * (bool * bool) :=
  if String.eqb k "Enter" && negb isComposing then (commit numeric s, (true, false))
  else if String.eqb k "Escape" then
    if String.eqb (draft s) (seed s) then (s, None, (false, false))
    else (mkInline (seed s) (seed s), None, (true, true))
  else (s, None, (false, false)).
End Inline.

(** ** The row's popovers *)
Record RowUi := mkRowUi {
  pickerOpen : bool;
  menuOpen : bool;
  pickerPath : list string;
  pickerQuery : string
}.
Definition own_level (path : list string) : list string := take (length path - 1) path.
Definition mount_row (path : list string) : RowUi := mkRowUi false false (own_level path) "".
Definition set_picker (locked : bool) (ui : RowUi) (next : bool) : RowUi :=
  if next && locked then ui
  else mkRowUi next (menuOpen ui) (pickerPath ui) (pickerQuery ui).
Definition set_menu (locked : bool) (ui : RowUi) (next : bool) : RowUi :=
  if next && locked then ui
  else mkRowUi (pickerOpen ui) next (pickerPath ui) (pickerQuery ui).
(** The handoff: the picker opens itself, and the flag is consumed. *)
Definition auto_open (locked : bool) (node : string) (ui : RowUi) (focus : FocusStore)
    : RowUi * FocusStore :=
  let snap := snapshot focus in
  if negb (fo_autoOpen snap && bool_decide (fo_id snap = Some node) &&
           bool_decide (fo_segment snap = Some SegField)) || pickerOpen ui
  then (ui, focus)
  else (if locked then ui else mkRowUi true (menuOpen ui) (pickerPath ui) (pickerQuery ui),
        focus_set focus (mkFocus (Some node) (Some SegField) false)).
Definition reseed (path : list string) (ui : RowUi) : RowUi :=
  if pickerOpen ui then mkRowUi true (menuOpen ui) (own_level path) "" else ui.

(** ** Adding and picking, on the bar *)
Section Adding.
Context {St : Type} `{!IdSource St}.
Notation Bar := (FilterBar St).
Implicit Types (p : Props) (b : Bar).

Definition addFilterRow (index : FilterIndex) p b (parentId : option string)
    : Bar * list Call * option string :=
  if isFilterLocked (p_disabled p) (p_readOnly p) then (b, [], None)
  else match js_find (fun candidate => isFilterFieldPickable (e_field candidate)) (fall index) with
       | None => (b, [], None)
       | Some found =>
           let '(id, s) := nextId (b_ids b) in
           let '(b1, calls) :=
             addRule p (with_ids b s) (createFilterRule id (e_path found) "" VUndef None) parentId in
           (b1, calls, Some id)
       end.
(** [addRow] of the footer, and [addInto] of a group. *)
Definition addRow (index : FilterIndex) p b (parentId : option string) : Bar * list Call :=
  match addFilterRow index p b parentId with
  | (b1, calls, Some (String _ _ as id)) =>
      let b2 := with_rows_store b1 (markPending (b_rows b1) id) in
      (with_focus b2 (focus_set (b_focus b2) (mkFocus (Some id) (Some SegField) true)), calls)
  | (b1, calls, _) => (b1, calls)
  end.
Definition press_addGroup p b : Bar * list Call :=
  match addGroup p b None COr with
  | (b1, calls, String _ _ as id) =>
      (with_focus b1 (focus_set (b_focus b1) (mkFocus (Some id) (Some SegAdd) false)), calls)
  | (b1, calls, _) => (b1, calls)
  end.

(** A pick in the field picker of the row of [rule]. *)
Definition pick_field p b (rule : FilterRule) (path : list string) (defaultOperator : option string)
    : Bar * list Call :=
  let pending := isPending (b_rows b) (r_id rule) in
  let b1 := with_focus b (focus_set (b_focus b)
              (mkFocus (Some (r_id rule)) (Some (if pending then SegOperator else SegField)) pending)) in
  let b2 := with_rows_store b1 (resolvePending (b_rows b1) (r_id rule)) in
  if String.eqb (joinFilterPath path) (joinFilterPath (r_path rule)) then (b2, [])
  else updateRule p b2 (r_id rule)
         (mkUpdates (Some path) (Some (if pending then "" else defaultOperator ?? ""))
            (Some VUndef) None).
End Adding.

(** ** The panel's own sentences *)
Definition panel_description (labels : FilterLabels) (readOnlyText : string) (readOnly : bool)
    (ruleCount : nat) : string :=
  if readOnly then countAnnouncement labels ruleCount +:+ " " +:+ readOnlyText
  else countAnnouncement labels ruleCount.
Inductive Body := Rows | CustomEmpty | DefaultEmpty (hint : bool).
Definition panel_body (rules : nat) (customEmpty readOnly : bool) : Body :=
  if Nat.ltb 0 rules then Rows
  else if customEmpty then CustomEmpty else DefaultEmpty (negb readOnly).
