(* ===== verification/FilterPanelLaws.v ===== *)
(** * The advanced filter panel is right

    The vertical keys walk the rows of a band in order and land in the nearest
    column; the panel has one tab stop, and it is a cell; an added row takes
    it; the text cell writes clean values. *)
From S2P Require Import Prelude JsString JsValue JsMap FilterQuery FilterTree FilterLaws FilterSchema Filters FiltersLaws FilterPanel.

(** ** Positions in a band *)
Lemma seg_eqb_spec a b : reflect (a = b) (seg_eqb a b).
Proof. unfold seg_eqb. apply bool_decide_reflect. Qed.
Lemma in_band_spec band column : in_band band column = true <-> column ∈ band.
Proof.
  unfold in_band. rewrite existsb_exists. split.
  - intros (x & Hx & He). destruct (seg_eqb_spec column x) as [->|]; [by apply list_elem_of_In|done].
  - intros H. exists column. split; [by apply list_elem_of_In|by destruct (seg_eqb_spec column column)].
Qed.
Lemma find_index_at {A} (p : A -> bool) l :
  match find_index p l with
  | (-1)%Z => forall x, x ∈ l -> p x = false
  | i => (0 <= i)%Z /\ exists x, l !! Z.to_nat i = Some x /\ p x = true
  end.
Proof.
  induction l as [|x l IH]; [by intros x ?%elem_of_nil|]. cbn [find_index].
  destruct (p x) eqn:E; [split; [done|by exists x]|].
  destruct (find_index p l) as [|i|i] eqn:Ei; cbn [Z.ltb Z.compare].
  - destruct IH as (_ & y & Hy & Hp). split; [done|]. by exists y.
  - destruct IH as (_ & y & Hy & Hp). replace (Z.pos i + 1)%Z with (Z.pos (i + 1)) by lia.
    split; [done|]. exists y. split; [|done].
    replace (Z.to_nat (Z.pos (i + 1))) with (S (Z.to_nat (Z.pos i))) by lia. done.
  - destruct i; [destruct IH as [H _]; lia|destruct IH as [H _]; lia|].
    intros y [->|Hy]%elem_of_cons; [done|by apply IH].
Qed.
Lemma find_index_found {A} (p : A -> bool) l x : x ∈ l -> p x = true ->
  (0 <= find_index p l)%Z /\ exists y, l !! Z.to_nat (find_index p l) = Some y /\ p y = true.
Proof.
  intros Hx Hp. pose proof (find_index_at p l) as H.
  destruct (find_index p l) as [|i|[i|i|]]; [exact H|exact H|destruct H; lia..|].
  rewrite (H x Hx) in Hp. done.
Qed.
Lemma string_index l x : x ∈ l ->
  (0 <= find_index (String.eqb x) l)%Z /\ l !! Z.to_nat (find_index (String.eqb x) l) = Some x.
Proof.
  intros Hx. destruct (find_index_found (String.eqb x) l x Hx (String.eqb_refl x)) as (H & y & Hy & He).
  apply String.eqb_eq in He as ->. done.
Qed.

(** ** The nearest column *)
Section Nearest.
Context {E : Type} (available : Segment -> option E).

Lemma band_at_spec band i e : band_at available band i = Some e <->
  (0 <= i)%Z /\ exists column, band !! Z.to_nat i = Some column /\ available column = Some e.
Proof.
  unfold band_at. destruct (Z.ltb_spec i 0).
  - split; [done|]. lia.
  - destruct (band !! Z.to_nat i) as [column|] eqn:Hc.
    + split; [intros He; split; [lia|by exists column]|]. by intros (_ & ? & [= <-] & He).
    + split; [done|]. by intros (_ & ? & ? & _).
Qed.
Lemma nearest_loop_spec fuel step band at_ : (0 <= step)%Z ->
  match nearest_loop available fuel step band at_ with
  | Some e => exists d, (step <= d < step + Z.of_nat fuel)%Z /\
      (band_at available band (at_ - d) = Some e \/ band_at available band (at_ + d) = Some e) /\
      forall d', (step <= d' < d)%Z ->
        (d' = 0%Z \/ band_at available band (at_ - d') = None) /\ band_at available band (at_ + d') = None
  | None => forall d', (step <= d' < step + Z.of_nat fuel)%Z ->
      (d' = 0%Z \/ band_at available band (at_ - d') = None) /\ band_at available band (at_ + d') = None
  end.
Proof.
  revert step. induction fuel as [|fuel IH]; intros step Hs; cbn [nearest_loop]; [lia|].
  destruct (if (step =? 0)%Z then None else band_at available band (at_ - step)) as [e|] eqn:Eb.
  { destruct (Z.eqb_spec step 0); [done|]. exists step. split_and!; [lia|lia|by left|lia]. }
  destruct (band_at available band (at_ + step)) as [e|] eqn:Ea.
  { exists step. split_and!; [lia|lia|by right|lia]. }
  assert (Hstep : (step = 0%Z \/ band_at available band (at_ - step) = None) /\
                  band_at available band (at_ + step) = None).
  { split; [|done]. destruct (Z.eqb_spec step 0); [by left|by right]. }
  specialize (IH (step + 1)%Z). destruct (nearest_loop available fuel (step + 1) band at_) as [e|].
  - destruct IH as (d & Hd & He & Hmin); [lia|]. exists d. split_and!; [lia|lia|done|].
    intros d' Hd'. destruct (Z.eq_dec d' step) as [->|]; [done|apply Hmin; lia].
  - intros d' Hd'. destruct (Z.eq_dec d' step) as [->|]; [done|apply IH; lia].
Qed.

(** The distance between two columns of a band. *)
Definition distance (band : list Segment) (a b : Segment) : Z :=
  Z.abs (find_index (seg_eqb a) band - find_index (seg_eqb b) band).

Lemma index_in_band band column : NoDup band -> forall i, band !! i = Some column ->
  find_index (seg_eqb column) band = Z.of_nat i.
Proof.
  intros Hn i Hi. assert (Hin : column ∈ band) by (by eapply list_elem_of_lookup_2).
  destruct (find_index_found (seg_eqb column) band column Hin) as (H0 & y & Hy & He).
  { by destruct (seg_eqb_spec column column). }
  destruct (seg_eqb_spec column y) as [<-|]; [|done].
  assert (i = Z.to_nat (find_index (seg_eqb column) band)) by (by eapply NoDup_lookup). lia.
Qed.

(** The nearest column is there when any of the band is, and none is nearer. *)
Lemma nearest_spec band from e : NoDup band -> from ∈ band ->
  nearestColumn available band from = Some e ->
  exists column, column ∈ band /\ available column = Some e /\
    forall other e', other ∈ band -> available other = Some e' ->
      (distance band from column <= distance band from other)%Z.
Proof.
  intros Hn Hf. unfold nearestColumn.
  apply list_elem_of_lookup in Hf as [k Hk]. rewrite (index_in_band _ _ Hn _ Hk).
  destruct (Z.eqb_spec (Z.of_nat k) (-1)) as [|_]; [lia|].
  pose proof (nearest_loop_spec (length band) 0 band (Z.of_nat k)) as H.
  destruct (nearest_loop _ _ _ _ _) as [e0|]; [|done]. intros [= ->].
  destruct H as (d & Hd & He & Hmin); [lia|].
  assert (Hat : exists i, (i = Z.of_nat k - d \/ i = Z.of_nat k + d)%Z /\
    band_at available band i = Some e) 
    by (destruct He as [He|He]; [exists (Z.of_nat k - d)%Z|exists (Z.of_nat k + d)%Z]; split; [by left|done|by right|done]).
  destruct Hat as (i & Hi & Hat). apply band_at_spec in Hat as (Hi0 & column & Hc & Ha).
  exists column. split_and!; [by eapply list_elem_of_lookup_2|done|].
  intros other e' [j Hj]%list_elem_of_lookup Hother. unfold distance.
  rewrite (index_in_band _ _ Hn _ Hk), (index_in_band _ _ Hn _ Hc), (index_in_band _ _ Hn _ Hj).
  destruct (Z.le_gt_cases (Z.abs (Z.of_nat k - Z.of_nat (Z.to_nat i))) (Z.abs (Z.of_nat k - Z.of_nat j)))
    as [|Hlt]; [done|]. exfalso.
  assert (Hd' : (0 <= Z.abs (Z.of_nat k - Z.of_nat j) < d)%Z) by lia.
  destruct (Hmin _ Hd') as [Hb Ha'].
  assert (Hj' : band_at available band (Z.of_nat j) = Some e').
  { apply band_at_spec. split; [lia|]. exists other. by rewrite Nat2Z.id. }
  destruct (Z.le_gt_cases (Z.of_nat k) (Z.of_nat j)).
  - replace (Z.of_nat k + Z.abs (Z.of_nat k - Z.of_nat j))%Z with (Z.of_nat j) in Ha' by lia. congruence.
  - destruct Hb as [|Hb]; [lia|].
    replace (Z.of_nat k - Z.abs (Z.of_nat k - Z.of_nat j))%Z with (Z.of_nat j) in Hb by lia. congruence.
Qed.
Lemma nearest_exists band from other e : NoDup band -> from ∈ band -> other ∈ band ->
  available other = Some e -> is_Some (nearestColumn available band from).
Proof.
  intros Hn Hf Ho He. unfold nearestColumn.
  apply list_elem_of_lookup in Hf as [k Hk]. rewrite (index_in_band _ _ Hn _ Hk).
  destruct (Z.eqb_spec (Z.of_nat k) (-1)) as [|_]; [lia|].
  apply list_elem_of_lookup in Ho as [j Hj].
  assert (Hj' : band_at available band (Z.of_nat j) = Some e).
  { apply band_at_spec. split; [lia|]. exists other. by rewrite Nat2Z.id. }
  pose proof (lookup_lt_Some _ _ _ Hj). pose proof (lookup_lt_Some _ _ _ Hk).
  pose proof (nearest_loop_spec (length band) 0 band (Z.of_nat k)) as Hs.
  destruct (nearest_loop _ _ _ _ _) as [e0|]; [by eexists|]. exfalso.
  destruct (Hs ltac:(lia) (Z.abs (Z.of_nat k - Z.of_nat j))) as [Hb Ha]; [lia|].
  destruct (Z.le_gt_cases (Z.of_nat k) (Z.of_nat j)).
  - replace (Z.of_nat k + Z.abs (Z.of_nat k - Z.of_nat j))%Z with (Z.of_nat j) in Ha by lia. congruence.
  - destruct Hb as [|Hb]; [lia|].
    replace (Z.of_nat k - Z.abs (Z.of_nat k - Z.of_nat j))%Z with (Z.of_nat j) in Hb by lia. congruence.
Qed.
End Nearest.

(** ** The cells of a panel *)
Lemma walk_nodes_elem {A} (f : nat -> FilterNode -> list A) k l x :
  x ∈ walk f k l <-> exists i n, l !! i = Some n /\ x ∈ f (k + i) n.
Proof.
  revert k. induction l as [|n l IH]; intros k; cbn [walk].
  { split; [by intros ?%elem_of_nil|]. by intros (i & n & Hi & _). }
  rewrite elem_of_app, IH. split.
  - intros [Hx|(i & m & Hi & Hx)].
    + exists 0, n. by rewrite Nat.add_0_r.
    + exists (S i), m. by rewrite Nat.add_succ_r.
  - intros ([|i] & m & Hi & Hx); cbn in Hi.
    + simplify_eq. left. by rewrite Nat.add_0_r in Hx.
    + right. exists i, m. by rewrite Nat.add_succ_r in Hx.
Qed.

Section Panel.
Context (index : FilterIndex) (resolveOperators : FilterField -> list FilterOperator).
Context (has_valueText : FilterField -> bool) (renderValue reorderable : bool).
Context (store : RowStore) (query : FilterQuery).
Notation node_cells := (node_cells index resolveOperators has_valueText renderValue reorderable store query).
Notation panel_cells := (panel_cells index resolveOperators has_valueText renderValue reorderable store query).
Notation rule_columns := (rule_columns index resolveOperators reorderable store query).
Notation ownCells := (ownCells index resolveOperators has_valueText renderValue reorderable store query).
Notation bandRows := (bandRows index resolveOperators has_valueText renderValue reorderable store query).
Notation onKeyDown := (onKeyDown index resolveOperators has_valueText renderValue reorderable store query).
Notation tab_stops := (tab_stops index resolveOperators reorderable store query).
Notation node_stops := (node_stops index resolveOperators reorderable store query).
Notation is_unknown := (is_unknown index).
Notation canMove := (canMove reorderable query).

Lemma node_rows_ids n : node_rows n = ids n.
Proof.
  induction n as [r|g IH] using FilterNode_ind'; [done|]. cbn. f_equal.
  induction IH as [|n l Hn Hl IH']; [done|]. cbn. by rewrite Hn, IH'.
Qed.

Lemma rule_column_drawn parentId i r column : column ∈ rule_columns parentId i r ->
  column <> SegUngroup.
Proof.
  unfold FilterPanel.rule_columns, row_columns. destruct (is_unknown r).
  { by intros ->%list_elem_of_singleton. }
  rewrite !elem_of_app. intros H ->. destruct H as [H|[H|[H|[H|H]]]];
    repeat match type of H with
      | _ ∈ _ :: _ => apply elem_of_cons in H as [H|H]; [discriminate|]
      | _ ∈ [] => by apply elem_of_nil in H
      | _ ∈ (if ?b then _ else _) => destruct b
      | _ ∈ match ?s with _ => _ end => destruct s
      end.
Qed.
Lemma cell_drawn parentId i n c : c ∈ node_cells parentId i n ->
  c_node c ∈ ids n /\ c_column c <> SegUngroup.
Proof.
  revert parentId i. induction n as [r|g IH] using FilterNode_ind'; intros parentId i; cbn [FilterPanel.node_cells].
  - unfold rule_cells. intros (column & -> & Hin)%list_elem_of_fmap. cbn. split; [by left|].
    by eapply rule_column_drawn.
  - rewrite !elem_of_app, walk_nodes_elem. rewrite Forall_forall in IH.
    intros [H|[(j & n & Hj & Hx)|[H|[H|H]]]].
    + destruct (filterCombinatorSlot i); [by apply elem_of_nil in H| |by apply elem_of_nil in H].
      apply list_elem_of_singleton in H as ->. split; [by left|done].
    + apply IH in Hx as [Hx ?]; [|by eapply list_elem_of_lookup_2]. split; [|done].
      cbn. right. apply elem_of_flat_map. exists n. split; [by eapply list_elem_of_lookup_2|done].
    + apply list_elem_of_singleton in H as ->. split; [by left|done].
    + destruct (canMove parentId); [|by apply elem_of_nil in H].
      apply list_elem_of_singleton in H as ->. split; [by left|done].
    + apply list_elem_of_singleton in H as ->. split; [by left|done].
Qed.
Lemma panel_cell_column c : c ∈ panel_cells -> c_column c ∈ band_of (c_column c).
Proof.
  unfold FilterPanel.panel_cells. rewrite walk_nodes_elem. intros (i & n & _ & H).
  apply cell_drawn in H as [_ H]. by destruct (c_column c); set_solver.
Qed.
Lemma band_NoDup column : NoDup (band_of column).
Proof. by destruct column; apply (bool_decide_unpack _); vm_compute. Qed.
Lemma band_of_in column other : other ∈ band_of column -> band_of other = band_of column.
Proof.
  unfold band_of. destruct (in_band CONTENT_COLUMNS column); intros H;
    repeat (apply elem_of_cons in H as [->|H]; [done|]); by apply elem_of_nil in H.
Qed.

(** The rows of a band: each once, and each with a cell of the band. *)
Lemma bandRows_spec band row : NoDup (bandRows band) /\
  (row ∈ bandRows band <-> exists c, c ∈ panel_cells /\ c_node c = row /\ c_column c ∈ band).
Proof.
  unfold FilterPanel.bandRows. set (l := map c_node _).
  destruct (set_of_spec l) as [Hn Hs]. split; [done|]. rewrite Hs. unfold l.
  rewrite list_elem_of_fmap. split.
  - intros (c & -> & Hc). apply bfilter_elem in Hc as [Hc Hb]. exists c.
    split_and!; [done..|by apply in_band_spec].
  - intros (c & Hc & <- & Hb). exists c. split; [done|]. apply bfilter_elem.
    split; [done|by apply in_band_spec].
Qed.
Lemma own_elem row c : c ∈ ownCells row <-> c ∈ panel_cells /\ c_node c = row.
Proof. unfold FilterPanel.ownCells. by rewrite bfilter_elem, String.eqb_eq. Qed.

(** Where a vertical step lands. *)
Lemma focusRow_spec c step i : c ∈ panel_cells ->
  bandRows (band_of (c_column c)) !! i = Some (c_node c) ->
  match (if (Z.of_nat i + step <? 0)%Z then None
         else bandRows (band_of (c_column c)) !! Z.to_nat (Z.of_nat i + step)) with
  | None => focusRow index resolveOperators has_valueText renderValue reorderable store query c step = Ignored
  | Some row => exists t,
      focusRow index resolveOperators has_valueText renderValue reorderable store query c step = FocusCell t /\
      t ∈ panel_cells /\ c_node t = row /\ c_column t ∈ band_of (c_column c) /\
      forall e, e ∈ panel_cells -> c_node e = row -> c_column e ∈ band_of (c_column c) ->
        (distance (band_of (c_column c)) (c_column c) (c_column t) <=
         distance (band_of (c_column c)) (c_column c) (c_column e))%Z
  end.
Proof.
  intros Hc Hi. set (band := band_of (c_column c)) in *. unfold focusRow. cbv zeta.
  fold band. fold (bandRows band).
  assert (Hidx : find_index (String.eqb (c_node c)) (bandRows band) = Z.of_nat i).
  { destruct (string_index (bandRows band) (c_node c)) as [H0 H]; [by eapply list_elem_of_lookup_2|].
    pose proof (NoDup_lookup _ _ _ _ (proj1 (bandRows_spec band "")) H Hi). lia. }
  rewrite Hidx. destruct (if (Z.of_nat i + step <? 0)%Z then None else _) as [row|] eqn:Er; [|done].
  assert (Hrow : row ∈ bandRows band).
  { destruct (Z.of_nat i + step <? 0)%Z; [done|by eapply list_elem_of_lookup_2]. }
  apply bandRows_spec in Hrow as (e0 & He0 & Hn0 & Hb0).
  fold (ownCells row).
  set (available := fun column => js_find (fun e => seg_eqb (c_column e) column) (ownCells row)).
  assert (Havail : forall column e, available column = Some e ->
    e ∈ panel_cells /\ c_node e = row /\ c_column e = column).
  { intros column e He. apply List.find_some in He as [He Hs]. apply list_elem_of_In, own_elem in He as [? ?].
    split_and!; [done..|by destruct (seg_eqb_spec (c_column e) column)]. }
  assert (Hthere : forall e, e ∈ panel_cells -> c_node e = row -> exists e', available (c_column e) = Some e').
  { intros e He Hn. destruct (available (c_column e)) as [e'|] eqn:E; [by exists e'|]. exfalso.
    pose proof (List.find_none _ _ E e) as H. cbn in H.
    assert (Hin : In e (ownCells row)) by (apply list_elem_of_In, own_elem; done).
    specialize (H Hin). by destruct (seg_eqb_spec (c_column e) (c_column e)). }
  pose proof (panel_cell_column c Hc) as Hcb. fold band in Hcb.
  destruct (Hthere e0 He0 Hn0) as [e1 He1].
  destruct (nearest_exists available band (c_column c) (c_column e0) e1 (band_NoDup _) Hcb Hb0 He1)
    as [t Ht].
  rewrite Ht. exists t.
  destruct (nearest_spec available band (c_column c) t (band_NoDup _) Hcb Ht)
    as (column & Hcol & Ha & Hmin).
  destruct (Havail _ _ Ha) as (H1 & H2 & H3). subst column. split_and!; [done..|].
  intros e He Hn Hb. destruct (Hthere e He Hn) as [e' He']. by eapply Hmin.
Qed.

(** ** The tab stop *)
(** The rows that take part: every group, and the rules the schema knows. *)
Fixpoint known (n : FilterNode) : list string :=
  match n with
  | NRule r => if is_unknown r then [] else [r_id r]
  | NGroup g => g_id g :: flat_map known (g_rules g)
  end.
Definition known_rows : list string := flat_map known (g_rules query).
Definition root_stop (n : FilterNode) : list string :=
  match n with NRule r => if is_unknown r then [] else [r_id r] | NGroup g => [g_id g] end.

Lemma known_ids n : known n `sublist_of` ids n.
Proof.
  induction n as [r|g IH] using FilterNode_ind'; cbn.
  - destruct (is_unknown r); [apply sublist_nil_l|done].
  - apply sublist_skip. induction IH as [|n l Hn Hl IH']; [done|]. cbn. by apply sublist_app.
Qed.
Lemma row_columns_head slot takes can pending :
  is_Some (head (row_columns slot takes can pending)) /\
  (head (row_columns slot takes can pending) ?? SegMenu) ∈ row_columns slot takes can pending.
Proof. by destruct slot; cbn; (split; [by eexists|left]). Qed.
Lemma group_columns_head slot can :
  is_Some (head (group_columns slot can)) /\
  (head (group_columns slot can) ?? SegMenu) ∈ group_columns slot can.
Proof. by destruct slot; cbn; (split; [by eexists|left]). Qed.
Lemma active_column focus node columns first :
  is_Some (head columns) -> (head columns ?? SegMenu) ∈ columns ->
  match useActiveColumn focus node columns first with
  | Some column => column ∈ columns /\ (fo_id focus = Some node \/ fo_id focus = None /\ first = true)
  | None => fo_id focus <> Some node /\ (fo_id focus <> None \/ first = false)
  end.
Proof.
  intros [h Hh] Hin. rewrite Hh in Hin. cbn in Hin. unfold useActiveColumn. rewrite Hh.
  destruct (decide (fo_id focus = Some node)) as [E|E].
  - rewrite bool_decide_true by done. destruct (fo_segment focus) as [segment|]; [|by split; [|left]].
    destruct (some (seg_eqb segment) columns) eqn:Es; [|by split; [|left]].
    split; [by apply in_band_spec|by left].
  - rewrite bool_decide_false by done. destruct (decide (fo_id focus = None)) as [E'|E'].
    + rewrite bool_decide_true by done. destruct first; cbn; [split; [done|by right]|].
      split; [done|by right].
    + rewrite bool_decide_false by done. split; [done|by left].
Qed.

(** Case analysis on the active column of the goal. *)
Ltac case_active heads H column :=
  match goal with
  | |- context [useActiveColumn ?f ?node ?cols ?first] =>
      pose proof (active_column f node cols first) as H;
      let Hh := fresh in
      assert (Hh : is_Some (head cols) /\ (head cols ?? SegMenu) ∈ cols) by apply heads;
      specialize (H (proj1 Hh) (proj2 Hh)); clear Hh;
      destruct (useActiveColumn f node cols first) as [column|]
  end.

Lemma stops_focused focus x d i parent n : fo_id focus = Some x ->
  map fst (node_stops focus d i parent n) = bfilter (String.eqb x) (known n).
Proof.
  intros Hf. revert d i parent. induction n as [r|g IH] using FilterNode_ind'; intros d i parent.
  - cbn [FilterPanel.node_stops known]. cbv zeta. destruct (is_unknown r) eqn:Eu; [done|].
    unfold FilterPanel.rule_columns. rewrite Eu.
    case_active row_columns_head H column; cbn.
    + destruct H as [_ [H|[H _]]]; [|congruence]. assert (x = r_id r) as -> by congruence.
      by rewrite String.eqb_refl.
    + destruct (String.eqb_spec x (r_id r)) as [->|]; [by destruct H|done].
  - cbn [FilterPanel.node_stops known List.filter]. cbv zeta. rewrite map_app.
    assert (Hkids : forall k, map fst (walk (fun k c => node_stops focus (S d) k (g_id g) c) k (g_rules g)) =
      bfilter (String.eqb x) (flat_map known (g_rules g))).
    { induction IH as [|n l Hn Hl IH']; intros k; [done|]. cbn [walk flat_map].
      by rewrite map_app, List.filter_app, Hn, IH'. }
    rewrite Hkids.
    case_active group_columns_head H column; cbn.
    + destruct H as [_ [H|[H _]]]; [|congruence]. assert (x = g_id g) as -> by congruence.
      by rewrite String.eqb_refl.
    + destruct (String.eqb_spec x (g_id g)) as [->|]; [by destruct H|done].
Qed.
Lemma stops_free focus d i parent n : fo_id focus = None -> 1 <= d ->
  map fst (node_stops focus d i parent n) =
  if Nat.eqb d 1 && Nat.eqb i 0 then root_stop n else [].
Proof.
  intros Hf. revert d i parent. induction n as [r|g IH] using FilterNode_ind'; intros d i parent Hd.
  - cbn [FilterPanel.node_stops root_stop]. cbv zeta.
    destruct (is_unknown r) eqn:Eu; [by destruct (_ && _)|].
    unfold FilterPanel.rule_columns. rewrite Eu.
    case_active row_columns_head H column; cbn.
    + destruct H as [_ [H|[_ ->]]]; [congruence|done].
    + destruct H as [_ [H| ->]]; [by destruct H|done].
  - cbn [FilterPanel.node_stops root_stop]. cbv zeta. rewrite map_app.
    assert (Hkids : forall k, map fst (walk (fun k c => node_stops focus (S d) k (g_id g) c) k (g_rules g)) = []).
    { induction IH as [|n l Hn Hl IH']; intros k; [done|]. cbn [walk].
      rewrite map_app, IH', Hn by lia. destruct d; [lia|done]. }
    rewrite Hkids, app_nil_r.
    case_active group_columns_head H column; cbn.
    + destruct H as [_ [H|[_ ->]]]; [congruence|done].
    + destruct H as [_ [H| ->]]; [by destruct H|done].
Qed.

(** A stop is one of the cells. *)
Lemma stop_drawn focus d i parent n x column :
  (x, column) ∈ node_stops focus d i parent n ->
  exists c, c ∈ node_cells parent i n /\ c_node c = x /\ c_column c = column.
Proof.
  revert d i parent. induction n as [r|g IH] using FilterNode_ind'; intros d i parent.
  - cbn [FilterPanel.node_stops FilterPanel.node_cells]. cbv zeta.
    destruct (is_unknown r) eqn:Eu; [by intros ?%elem_of_nil|].
    unfold rule_cells. unfold FilterPanel.rule_columns. rewrite Eu.
    case_active row_columns_head H active; [|by intros ?%elem_of_nil].
    intros [= -> ->]%list_elem_of_singleton. destruct H as [Hin _].
    eexists. split; [by apply list_elem_of_fmap_2|done].
  - cbn [FilterPanel.node_stops FilterPanel.node_cells]. cbv zeta.
    rewrite elem_of_app. intros [H|H].
    + revert H. case_active group_columns_head Ha active; [|by intros ?%elem_of_nil].
      intros [= -> ->]%list_elem_of_singleton. destruct Ha as [Hin _].
      exists (mkCell (g_id g) active false). split; [|done].
      unfold group_columns in Hin. rewrite !elem_of_app in *.
      destruct Hin as [Hin|[Hin|[Hin|Hin]]].
      * left. destruct (filterCombinatorSlot i); [by apply elem_of_nil in Hin| |by apply elem_of_nil in Hin].
        apply list_elem_of_singleton in Hin as ->. by left.
      * right. right. left. apply list_elem_of_singleton in Hin as ->. by left.
      * right. right. right. left. destruct (canMove parent); [|by apply elem_of_nil in Hin].
        apply list_elem_of_singleton in Hin as ->. by left.
      * right. right. right. right. apply list_elem_of_singleton in Hin as ->. by left.
    + apply walk_nodes_elem in H as (k & n & Hk & H). rewrite Forall_forall in IH.
      apply IH in H as (c & Hc & Hn); [|by eapply list_elem_of_lookup_2].
      exists c. split; [|done]. rewrite !elem_of_app. right. left.
      apply walk_nodes_elem. by exists k, n.
Qed.

(** *** Properties *)

(** C38: The vertical keys walk the builder.  From any cell ArrowUp, and from any
    cell but a menu's trigger ArrowDown, go to the previous and the next of the
    rows that draw a cell in its band, in the order of their cells and each
    once; they land on a cell of that row in the same band, of which none is
    nearer to the column they came from; and at either end they do nothing, so
    down and up again is the row it began in.  On a menu's trigger ArrowDown
    never reaches the panel, and moves nothing: Base UI takes it, to open the
    menu.  Typing in a text cell or a locked panel changes none of this. *)
Theorem vertical_keys_walk_the_band c locked ctrl rtl : c ∈ panel_cells -> c_node c <> "" ->
  let band := band_of (c_column c) in
  let arrow k := onKeyDown locked c (mkKey k false ctrl rtl) in
  let lands row out := exists t, out = FocusCell t /\ t ∈ panel_cells /\ c_node t = row /\
    band_of (c_column t) = band /\
    forall e, e ∈ panel_cells -> c_node e = row -> c_column e ∈ band ->
      (distance band (c_column c) (c_column t) <= distance band (c_column c) (c_column e))%Z in
  exists above below, bandRows band = above ++ c_node c :: below /\ NoDup (bandRows band) /\
    (if decide (c_column c = SegMenu) then arrow "ArrowDown" = Ignored
     else match head below with
          | Some row => lands row (arrow "ArrowDown") | None => arrow "ArrowDown" = Ignored end) /\
    match head (List.rev above) with
    | Some row => lands row (arrow "ArrowUp") | None => arrow "ArrowUp" = Ignored end.
Proof.
  intros Hc Hne band arrow lands.
  assert (Hrow : c_node c ∈ bandRows band).
  { apply bandRows_spec. exists c. split_and!; [done..|]. by apply panel_cell_column. }
  apply list_elem_of_split in Hrow as (above & below & Hsplit). exists above, below.
  split; [done|]. split; [apply (proj1 (bandRows_spec band ""))|].
  assert (Hi : bandRows (band_of (c_column c)) !! length above = Some (c_node c)).
  { fold band. rewrite Hsplit. by apply list_lookup_middle. }
  assert (Hvert : forall k, arrow k = onKeyDown locked c (mkKey k false ctrl rtl)) by done.
  assert (Hlands : forall row t, t ∈ panel_cells /\ c_node t = row /\ c_column t ∈ band /\
    (forall e, e ∈ panel_cells -> c_node e = row -> c_column e ∈ band ->
      (distance band (c_column c) (c_column t) <= distance band (c_column c) (c_column e))%Z) ->
    lands row (FocusCell t)).
  { intros row t (H1 & H2 & H3 & H4). exists t. split_and!; [done..| |done].
    by apply band_of_in. }
  assert (Hdown : c_column c <> SegMenu -> arrow "ArrowDown" =
    focusRow index resolveOperators has_valueText renderValue reorderable store query c 1).
  { intros Hm. unfold arrow, FilterPanel.onKeyDown, stopped_at_trigger. cbv zeta.
    destruct (seg_eqb_spec (c_column c) SegMenu); [done|].
    by destruct (String.eqb_spec (c_node c) ""). }
  assert (Hup : arrow "ArrowUp" =
    focusRow index resolveOperators has_valueText renderValue reorderable store query c (-1)).
  { unfold arrow, FilterPanel.onKeyDown, stopped_at_trigger. cbv zeta.
    destruct (seg_eqb _ _); cbn; by destruct (String.eqb_spec (c_node c) ""). }
  rewrite Hup. split.
  - destruct (decide (c_column c = SegMenu)) as [Hm|Hm].
    { unfold arrow, FilterPanel.onKeyDown, stopped_at_trigger. cbv zeta.
      by destruct (seg_eqb_spec (c_column c) SegMenu). }
    rewrite (Hdown Hm). pose proof (focusRow_spec c 1 (length above) Hc Hi) as H. fold band in H.
    destruct (Z.ltb_spec (Z.of_nat (length above) + 1) 0); [lia|].
    replace (Z.to_nat (Z.of_nat (length above) + 1)) with (length above + 1) in H by lia.
    rewrite Hsplit, lookup_app_r in H by lia.
    replace (length above + 1 - length above) with 1 in H by lia. cbn in H.
    destruct below as [|row below]; cbn in H |- *; [done|].
    destruct H as (t & -> & H). by apply Hlands.
  - pose proof (focusRow_spec c (-1) (length above) Hc Hi) as H. fold band in H.
    destruct above as [|a above _] using rev_ind; cbn [length List.rev head].
    { cbn in H. exact H. }
    rewrite List.rev_app_distr. cbn [List.rev app head]. rewrite length_app in H. cbn [length] in H.
    destruct (Z.ltb_spec (Z.of_nat (length above + 1) + -1) 0); [lia|].
    replace (Z.to_nat (Z.of_nat (length above + 1) + -1)) with (length above) in H by lia.
    rewrite Hsplit, <- app_assoc in H. cbn in H. rewrite list_lookup_middle in H by done.
    destruct H as (t & -> & H). by apply Hlands.
Qed.

(** The stops of a panel, by the focus. *)
Lemma stops_of_focused focus x : fo_id focus = Some x ->
  map fst (tab_stops focus) = bfilter (String.eqb x) known_rows.
Proof.
  intros Hf. unfold FilterPanel.tab_stops, known_rows.
  enough (H : forall k, map fst (walk (fun k c => node_stops focus 1 k (g_id query) c) k
    (g_rules query)) = bfilter (String.eqb x) (flat_map known (g_rules query))) by apply H.
  induction (g_rules query) as [|n l IH]; intros k; [done|].
  cbn [walk flat_map]. by rewrite map_app, List.filter_app, IH, (stops_focused focus x) by done.
Qed.
Lemma stops_of_free focus : fo_id focus = None ->
  map fst (tab_stops focus) = match g_rules query with n :: _ => root_stop n | [] => [] end.
Proof.
  intros Hf. unfold FilterPanel.tab_stops. destruct (g_rules query) as [|n l]; [done|].
  cbn [walk]. rewrite map_app, stops_free by (done || lia). cbn [Nat.eqb andb].
  enough (H : forall k, map fst (walk (fun k c => node_stops focus 1 k (g_id query) c) (S k) l) = [])
    by by rewrite H, app_nil_r.
  induction l as [|m l IH]; intros k; [done|]. cbn [walk].
  rewrite map_app, IH, stops_free by (done || lia). done.
Qed.
Lemma filter_eqb_NoDup x (l : list string) : NoDup l ->
  bfilter (String.eqb x) l = if sin x l then [x] else [].
Proof.
  induction 1 as [|y l Hy _ IH]; [done|]. cbn [List.filter].
  change (sin x (y :: l)) with (String.eqb x y || sin x l).
  destruct (String.eqb_spec x y) as [->|]; cbn [orb]; [|done].
  rewrite IH. apply sin_false in Hy. by rewrite Hy.
Qed.
Lemma known_rows_NoDup : distinct_ids query -> NoDup known_rows.
Proof.
  unfold distinct_ids. rewrite ids_group, NoDup_cons. intros [_ Hd].
  eapply sublist_NoDup; [exact Hd|]. unfold known_rows.
  clear Hd. induction (g_rules query) as [|n l IH]; [done|]. cbn. apply sublist_app; [apply known_ids|done].
Qed.

(** The builder is one tab stop, beside the button of each row whose field
    is gone.  With ids that are distinct, at most one of its roving cells is in
    the tab order, and it is a cell the panel draws; there is one whenever the
    focus store names a row the schema knows, or names none and the first row is
    such a row. *)
Theorem one_tab_stop focus : distinct_ids query ->
  length (tab_stops focus) <= 1 /\
  (forall x column, (x, column) ∈ tab_stops focus ->
     exists c, c ∈ panel_cells /\ c_node c = x /\ c_column c = column) /\
  (match fo_id focus with
   | Some x => x ∈ known_rows
   | None => exists n rest, g_rules query = n :: rest /\ node_id n ∈ known n
   end -> length (tab_stops focus) = 1).
Proof.
  intros Hd%known_rows_NoDup. rewrite <- (length_map fst). split; [|split].
  2: { intros x column (i & n & Hi & H)%walk_nodes_elem. apply stop_drawn in H as (c & Hc & Hn).
       exists c. split; [|done]. apply walk_nodes_elem. by exists i, n. }
  - destruct (fo_id focus) as [x|] eqn:Ef.
    + rewrite (stops_of_focused focus x), filter_eqb_NoDup by done.
      destruct (sin x known_rows); cbn; lia.
    + rewrite stops_of_free by done. destruct (g_rules query) as [|[r|g] l]; cbn; [lia| |lia].
      destruct (is_unknown r); cbn; lia.
  - destruct (fo_id focus) as [x|] eqn:Ef.
    + intros Hx%sin_elem. by rewrite (stops_of_focused focus x), filter_eqb_NoDup, Hx by done.
    + intros (n & rest & Hq & Hn). rewrite stops_of_free, Hq by done.
      destruct n as [r|g]; [|done]. cbn in Hn |- *. destruct (is_unknown r); [|done].
      by apply elem_of_nil in Hn.
Qed.
End Panel.

(** ** Adding a condition *)
Section Adding.
Context {St : Type} `{!IdSource St}.
Implicit Types (p : Props) (b : FilterBar St).

(** What writing leaves alone. *)
Definition beside b b' : Prop :=
  b_focus b' = b_focus b /\ b_latest b' = b_latest b /\
  pending_rows (b_rows b') = pending_rows (b_rows b).
Lemma beside_refl b : beside b b.
Proof. done. Qed.
Lemma emit_beside p b next why rule : beside b (emit p b next why rule).1.1.
Proof.
  unfold emit. destruct (locked p b); [done|]. cbv zeta. destruct (approved _ _ _); [|done].
  by destruct next as [q|].
Qed.
Lemma addRule_beside p b rule parent : beside b (addRule p b rule parent).1.
Proof.
  unfold addRule. destruct (locked p b); [done|]. cbv zeta. unfold emit_then.
  match goal with |- context [emit ?p ?b ?n ?w ?r] => pose proof (emit_beside p b n w r) as H;
    destruct (emit p b n w r) as [[b' calls] landed] end.
  by destruct landed.
Qed.
Lemma updateRule_beside p b id u : beside b (updateRule p b id u).1.
Proof.
  unfold updateRule. destruct (locked p b); [done|].
  destruct (updateFilterRule _ _ _) as [next|]; [|done]. cbv zeta.
  set (rows := match u_path u with Some _ => _ | None => _ end).
  destruct (emit_beside p (with_rows_store b rows) (Some next) RUpdate (findFilterRule next id))
    as (Hf & Hl & Hp).
  destruct (emit _ _ _ _ _) as [[b' calls] landed]. cbn in *. split_and!; [done..|].
  rewrite Hp. cbn. unfold rows, mark, unmark.
  destruct (u_path u); [by destruct (row_has _ _)|]. destruct (u_value u); [by destruct (row_has _ _)|done].
Qed.

Lemma isPending_markPending s id : isPending (markPending s id) id = true.
Proof.
  unfold markPending. destruct (isPending s id) eqn:E; [done|].
  change (sin id (sadd (pending_rows s) id) = true). by rewrite sin_sadd, String.eqb_refl, orb_true_r.
Qed.
Lemma isPending_resolvePending s id : NoDup (pending_rows s) ->
  isPending (resolvePending s id) id = false.
Proof.
  intros Hn.
  unfold resolvePending. destruct (isPending s id) eqn:E; [|done].
  change (sin id (sdel (pending_rows s) id) = false). apply sin_false. rewrite sdel_elem by done. by intros [? _].
Qed.
Lemma markPending_NoDup s id : NoDup (pending_rows s) -> NoDup (pending_rows (markPending s id)).
Proof. unfold markPending. destruct (isPending s id); [done|]. apply sadd_NoDup. Qed.

(** An update of the last rule of the query. *)
Lemma update_last (q : FilterQuery) rule u : r_id rule ∉ ids_of q ->
  updateFilterRule (with_rules q (g_rules q ++ [NRule rule])) (r_id rule) u =
  Some (with_rules q (g_rules q ++ [NRule (apply_updates u rule)])).
Proof.
  intros Hfresh. unfold updateFilterRule, rewriteGroup. cbn [with_rules g_rules].
  rewrite existsb_app. cbn [List.existsb]. unfold is_rule_with at 2. cbn [node_id isFilterRule].
  rewrite String.eqb_refl, !orb_true_r. unfold with_rules. cbn. do 2 f_equal.
  rewrite map_app. cbn. rewrite String.eqb_refl. f_equal.
  rewrite ids_group in Hfresh. apply not_elem_of_cons in Hfresh as [_ Hfresh].
  induction (g_rules q) as [|n l IH]; [done|]. cbn in Hfresh |- *.
  apply not_elem_of_app in Hfresh as [Hn Hl]. rewrite IH by done. f_equal.
  destruct n as [r|g]; [|done]. destruct (String.eqb_spec (r_id r) (r_id rule)) as [E|]; [|done].
  destruct Hn. cbn. rewrite E. by left.
Qed.

(** The opening flag is spent by the picker it opens. *)
Lemma auto_open_once id path focus :
  snapshot focus = mkFocus (Some id) (Some SegField) true ->
  let (ui, focus') := auto_open false id (mount_row path) focus in
  pickerOpen ui = true /\ snapshot focus' = mkFocus (Some id) (Some SegField) false /\
  auto_open false id (set_picker false ui false) focus' = (set_picker false ui false, focus').
Proof.
  intros Hs. unfold auto_open at 1. rewrite Hs. cbn [fo_autoOpen fo_id fo_segment].
  rewrite !bool_decide_true by done. cbn [andb negb orb mount_row pickerOpen].
  rewrite focus_set_snapshot. split_and!; [done..|]. unfold auto_open. by rewrite focus_set_snapshot.
Qed.
(** A field picked in a pending row. *)
Lemma pick_resolves p b q id old path default :
  locked p b = false -> (forall h q d, l_before (b_latest b) = Some h -> h q d <> Some false) ->
  let rule path := createFilterRule id path "" VUndef None in
  let appended b' rule := current b' = with_rules q (g_rules q ++ [NRule rule]) in
  appended b (rule old) -> id ∉ ids_of q -> isPending (b_rows b) id = true ->
  NoDup (pending_rows (b_rows b)) ->
  let b' := (pick_field p b (rule old) path default).1 in
  appended b' (rule (if String.eqb (joinFilterPath path) (joinFilterPath old) then old else path)) /\
  isPending (b_rows b') id = false /\
  snapshot (b_focus b') = mkFocus (Some id) (Some SegOperator) true.
Proof.
  intros Hl Hh rule appended Hb Hfresh Hp Hn. unfold pick_field. cbn [r_id r_path rule createFilterRule].
  rewrite Hp. cbv zeta. set (b2 := with_rows_store _ _).
  assert (Hres : isPending (b_rows b2) id = false) by (by apply isPending_resolvePending).
  assert (Hfoc : snapshot (b_focus b2) = mkFocus (Some id) (Some SegOperator) true)
    by apply focus_set_snapshot.
  destruct (String.eqb (joinFilterPath path) (joinFilterPath old)); [by split_and!|].
  set (u := mkUpdates _ _ _ _). destruct (updateRule_open p b2 id u Hl Hh) as [Hcur _].
  destruct (updateRule_beside p b2 id u) as (Hf & _ & Hr). split_and!.
  - unfold appended. rewrite Hcur. change (current b2) with (current b). rewrite Hb.
    change id with (r_id (rule old)) at 1. by rewrite (update_last q (rule old) u Hfresh).
  - unfold isPending. by rewrite Hr.
  - by rewrite Hf.
Qed.

(** A hook that refuses leaves the query as it is, and is the only one told. *)
Lemma addRule_refused p b rule parent h :
  locked p b = false -> l_before (b_latest b) = Some h -> (forall q d, h q d = Some false) ->
  current (addRule p b rule parent).1 = current b /\ Forall is_question (addRule p b rule parent).2.
Proof.
  intros Hl Hb Hh. unfold addRule, emit_then, emit, approved. rewrite Hl, Hb. cbv zeta.
  rewrite Hh, bool_decide_true by done. cbn. split; [done|]. by repeat constructor.
Qed.

(** C37: A condition is asked for in three questions.  On a bar that is neither
    disabled nor read-only and whose change hook, if it has one, refuses
    nothing, given an id that is not empty and not used: adding a condition
    appends a rule on the first field that may be picked, with no operator and
    no value, marks its row pending and hands the tab stop and an opening flag
    to its field; the row spends the flag once, by opening its picker; and
    picking a field in it closes the question: the rule has that field and
    still no operator or value, the row is no longer pending, and the flag
    stands at its operator.  With a hook that refuses, the query stays as it
    was and no change is reported, but the id is marked pending and handed the
    tab stop all the same (see the findings).  With no field to pick nothing
    happens. *)
Theorem added_row_is_asked index p b :
  locked p b = false ->
  let '(id, s) := nextId (b_ids b) in
  id <> "" -> id ∉ ids_of (current b) -> NoDup (pending_rows (b_rows b)) ->
  match js_find (fun candidate => isFilterFieldPickable (e_field candidate)) (fall index) with
  | None => addRow index p b None = (b, [])
  | Some found =>
      let appended b' rule := current b' = with_rules (current b) (g_rules (current b) ++ [NRule rule]) in
      let rule path := createFilterRule id path "" VUndef None in
      let b1 := (addRow index p b None).1 in
      isPending (b_rows b1) id = true /\
      snapshot (b_focus b1) = mkFocus (Some id) (Some SegField) true /\
      ((exists h, l_before (b_latest b) = Some h /\ forall q d, h q d = Some false) ->
       current b1 = current b /\ Forall is_question (addRow index p b None).2) /\
      ((forall h q d, l_before (b_latest b) = Some h -> h q d <> Some false) ->
       appended b1 (rule (e_path found)) /\
       (exists d, last (addRow index p b None).2 = Some (OnChange (current b1) d) /\ reason d = RAdd) /\
       let (ui, focus) := auto_open false id (mount_row (e_path found)) (b_focus b1) in
       pickerOpen ui = true /\ snapshot focus = mkFocus (Some id) (Some SegField) false /\
       auto_open false id (set_picker false ui false) focus = (set_picker false ui false, focus) /\
       forall path default,
         let b2 := (pick_field p (with_focus b1 focus) (rule (e_path found)) path default).1 in
         appended b2 (rule (if String.eqb (joinFilterPath path) (joinFilterPath (e_path found))
                            then e_path found else path)) /\
         isPending (b_rows b2) id = false /\
         snapshot (b_focus b2) = mkFocus (Some id) (Some SegOperator) true)
  end.
Proof.
  intros Hl. destruct (nextId (b_ids b)) as [id s] eqn:Eid. intros Hne Hfresh Hpend.
  destruct id as [|ch i]; [done|]. set (id := String ch i) in *.
  assert (Hopen : isFilterLocked (p_disabled p) (p_readOnly p) = false).
  { unfold locked in Hl. by apply orb_false_iff in Hl as [Hl _]. }
  unfold addRow, addFilterRow. rewrite Hopen, Eid.
  destruct (js_find _ (fall index)) as [found|]; [|done]. cbv zeta.
  set (made := createFilterRule id (e_path found) "" VUndef None).
  set (b0 := with_ids b s).
  pose proof (addRule_open p b0 made Hl) as Hadded.
  pose proof (fun h => addRule_refused p b0 made None h Hl) as Hrefused.
  destruct (addRule_beside p b0 made None) as (Hf & Hlat & Hrows).
  destruct (addRule p b0 made None) as [b1 calls] eqn:Eadd. cbn [fst snd] in *.
  set (opening := mkFocus (Some id) (Some SegField) true).
  set (b2 := with_focus (with_rows_store b1 (markPending (b_rows b1) id)) (focus_set (b_focus b1) opening)).
  unfold id. cbn iota beta. cbn [fst snd]. fold id.
  change (focus_set (b_focus (with_rows_store b1 (markPending (b_rows b1) id))) _)
    with (focus_set (b_focus b1) opening). fold b2.
  assert (Hp2 : isPending (b_rows b2) id = true) by apply isPending_markPending.
  split; [exact Hp2|]. split; [apply focus_set_snapshot|].
  split; [intros (h & Hb & Hh); exact (Hrefused h Hb Hh)|]. intros Hh.
  destruct (Hadded Hh) as (Hcur & _ & d & asked & Hr & _ & Hcalls & _).
  split; [exact Hcur|].
  split; [exists d; rewrite Hcalls; by rewrite last_snoc|].
  pose proof (auto_open_once id (e_path found) (b_focus b2) (focus_set_snapshot _ _)) as Hauto.
  destruct (auto_open false id (mount_row (e_path found)) (b_focus b2)) as [ui focus'].
  destruct Hauto as (H1 & H2 & H3). split_and!; [done..|]. intros path default.
  assert (Hl2 : locked p (with_focus b2 focus') = false).
  { unfold locked in *. cbn. by rewrite Hlat. }
  apply (pick_resolves p (with_focus b2 focus') (current b) id (e_path found) path default Hl2).
  - intros h q d'. cbn. rewrite Hlat. apply Hh.
  - exact Hcur.
  - done.
  - exact Hp2.
  - apply markPending_NoDup. by rewrite Hrows.
Qed.
End Adding.

(** ** The text cell *)
(** A text cell that is left alone writes nothing; one that is edited writes
    its text once, and rendered with what it wrote it is at rest; Escape takes
    the edit back and only then keeps the key from the surface around. *)
Lemma text_cell_writes_once value text :
  let cell := Inline.change (Inline.mount value) text in
  Inline.commit false (Inline.mount value) = (Inline.mount value, None) /\
  (text <> Inline.committed value ->
   (Inline.commit false cell).2 = Some (VStr text) /\
   let after := Inline.render (Inline.commit false cell).1 (VStr text) in
   after = Inline.mount (VStr text) /\ (Inline.commit false after).2 = None) /\
  Inline.press false cell "Escape" false =
    (Inline.mount value, None,
     if String.eqb text (Inline.committed value) then (false, false) else (true, true)).
Proof.
  unfold Inline.commit, Inline.press, Inline.change, Inline.mount, Inline.render. cbn.
  rewrite String.eqb_refl. split_and!; [done| |].
  - intros Hne%String.eqb_neq. rewrite Hne. cbn. rewrite String.eqb_sym in Hne. rewrite Hne.
    cbn. by rewrite String.eqb_refl.
  - by destruct (String.eqb_spec text (Inline.committed value)) as [->|].
Qed.

(** *** Witnesses *)
Definition sample_index : FilterIndex := l_index (b_latest (sample_bar (sample_props false None))).
Definition no_text (_ : FilterField) : bool := false.
Definition no_operators (_ : FilterField) : list FilterOperator := [].
Definition sample_rule (id : string) : FilterRule := createFilterRule id ["name"] "is" (VStr "x") None.
(** A group of one condition, and two conditions after it. *)
Definition sample_panel : FilterQuery :=
  mkGroup "root" CAnd
    [NGroup (mkGroup "g" COr [NRule (sample_rule "r1")]); NRule (sample_rule "r2"); NRule (sample_rule "r3")].
Definition at_rest : RowStore := createFilterRowStateStore.
Notation sample_cells q := (panel_cells sample_index no_operators no_text false true at_rest q).

Lemma vertical_keys_walk_the_band_witness :
  (exists above below,
    bandRows sample_index no_operators no_text false true at_rest sample_panel CONTENT_COLUMNS =
    above ++ "r2" :: below) /\
  onKeyDown sample_index no_operators no_text false true at_rest sample_panel false
    (mkCell "r2" SegField false) (mkKey "ArrowDown" false false false) =
  FocusCell (mkCell "r3" SegField false).
Proof.
  split; [|by vm_compute].
  destruct (vertical_keys_walk_the_band sample_index no_operators no_text false true at_rest sample_panel
              (mkCell "r2" SegField false) false false false) as (above & below & H & _).
  - apply list_elem_of_In. vm_compute. tauto.
  - discriminate.
  - by exists above, below.
Defined.

Lemma one_tab_stop_witness :
  tab_stops sample_index no_operators true at_rest sample_panel (mkFocus (Some "r3") None false) <> [].
Proof.
  destruct (one_tab_stop sample_index no_operators no_text false true at_rest sample_panel
              (mkFocus (Some "r3") None false)) as (_ & _ & H).
  - apply (bool_decide_unpack _). by vm_compute.
  - intros E. rewrite E in H. discriminate H. apply (bool_decide_unpack _). by vm_compute.
Defined.

Lemma added_row_is_asked_witness :
  let p := sample_props false None in
  let b := sample_bar p in
  let b1 := (addRow sample_index p b None).1 in
  current b1 = with_rules (current b) (g_rules (current b) ++
    [NRule (createFilterRule "f1" ["name"] "" VUndef None)]) /\
  isPending (b_rows b1) "f1" = true.
Proof.
  destruct (added_row_is_asked sample_index (sample_props false None) (sample_bar (sample_props false None)))
    as (H2 & _ & _ & H).
  - reflexivity.
  - discriminate.
  - apply (bool_decide_unpack _). by vm_compute.
  - apply NoDup_nil_2.
  - split; [|exact H2]. refine (proj1 (H _)). discriminate.
Defined.

(** *** Findings *)

(** Deleting the only condition of a group takes the group's own row too, and
    the focus passes over the row that took its place. *)
Lemma delete_skips_a_row :
  onKeyDown sample_index no_operators no_text false true at_rest sample_panel false
    (mkCell "r1" SegField false) (mkKey "Delete" false false false) = Delete "r1" 1 /\
  let next := settle sample_panel (removeFilterNode sample_panel "r1") in
  panel_rows sample_panel = ["g"; "r1"; "r2"; "r3"] /\ panel_rows next = ["r2"; "r3"] /\
  c_node <$> focus_after_delete sample_index no_operators no_text false true at_rest next 1 = Some "r3".
Proof. by vm_compute. Qed.

(** A vetoed row is announced to the stores as if it were there: no cell of the
    panel is in the tab order any more, and the id stays pending. *)
Lemma vetoed_row_takes_the_tab_stop :
  let p := mkProps [sample_field] (Some (mkQ 0 sample_panel)) None DEFAULT_FILTER_LABELS false false
             (Some refuse) in
  let b := mount p None (mkFactory "f" 0) in
  let b1 := (addRow sample_index p b None).1 in
  let stops b := tab_stops sample_index no_operators true (b_rows b) (current b) (snapshot (b_focus b)) in
  stops b = [("g", SegAdd)] /\ current b1 = current b /\ stops b1 = [] /\
  isPending (b_rows b1) "f1" = true.
Proof. by vm_compute. Qed.

(** A number typed another way writes the number it was: nothing changes, so
    the cell keeps the text as it was typed, and writes again on each blur. *)
Lemma same_number_keeps_the_text :
  let typed := Inline.change (Inline.mount (VNum (num_Z 7))) "007" in
  let '(after, written) := Inline.commit true typed in
  written = Some (VNum (num_Z 7)) /\ Inline.render after (VNum (num_Z 7)) = typed /\
  (Inline.commit true typed).2 = written.
Proof. by vm_compute. Qed.
