(* ===== verification/FilterChip.v ===== *)
(** * Filter chips, their menus and the field picker

    [filters-chip.tsx] and [filters-builder.tsx]: how a rule reads, the menu of
    its condition with the step after it, the value editor's host, the moves a
    menu offers, the chip's name, and the picker of a field.  [Row] is a rule
    of the bar with the two popovers its chip - or its row of the advanced
    panel - mounts; [step] is one event of it. *)
From S2P Require Import Prelude JsString JsValue JsMap CascaderLib FilterQuery FilterSchema Filters FilterMenu.

Record ChipLabels := mkChipLabels {
  selectPlaceholder : string;
  valuePlaceholder : string;
  selectCondition : string;
  incompleteText : string;
  noValue : string;
  valueRange : string -> string -> string;
  valueCount : nat -> string;
  valueDetail : string -> list string -> string;
  negatedLabel : string -> string;
  filterLabel : string -> string;
  moveToTopLevel : string;
  moveToGroup : nat -> string
}.

(** ** How a rule reads *)
Section Display.
Context (labels : ChipLabels) (pathSeparatorText : string).
(** The label of the option behind a value, where one is known; a field's own
    placeholder and its own text for a rule. *)
Context (resolve : val -> option string).
Context (placeholder : FilterField -> option string) (valueText_of : FilterField -> option (FilterRule -> string)).

Definition option_text (v key : val) : string := resolve key ?? js_String v.
Definition unset_value (v : val) : bool :=
  is_nullish v || match v with VStr t => String.eqb t "" | _ => false end.

Definition defaultValueDisplay (value : val) (operator : option FilterOperator)
    (fieldPlaceholder : option string) (optionBacked : bool) : string :=
  let emptyLabel := if optionBacked then selectPlaceholder labels
                    else fieldPlaceholder ?? valuePlaceholder labels in
  if unset_value value then emptyLabel
  else match value with
       | VArr l =>
           if bool_decide (getFilterArity operator = ARange) then
             let text v := if is_nullish v then "" else js_String v in
             valueRange labels (text (val_at l 0)) (text (val_at l 1))
           else match l with
                | [] => emptyLabel
                | [v] => option_text v v
                | _ => valueCount labels (length l)
                end
       | VBool b => if b then "True" else "False"
       | _ => option_text value (VStr (js_String value))
       end.

Record FilterRuleDisplay := mkDisplay {
  pathText : string;
  pathLabel : list FilterPathSegment;
  pathCollapsed : bool;
  operatorLabel : string;
  valueText : string;
  valueFullText : string;
  valueEmpty : bool
}.
Definition is_ellipsis (s : FilterPathSegment) : bool :=
  match s with PathEllipsis _ => true | PathField _ => false end.
Definition option_backed (field : FilterField) : bool :=
  match ff_type field with Some TSelect | Some TMultiselect => true | _ => false end ||
  negb (Nat.eqb (length (ff_options field ?? [])) 0) || ff_loadOptions field.

Definition useFilterRuleDisplay (index : FilterIndex) (maxSegments : option Z)
    (collapse : option CascaderCollapse) (rule : FilterRule) (field : option FilterField)
    (operator : option FilterOperator) : FilterRuleDisplay :=
  let value := r_value rule in
  let values := value_list value in
  let segments := collapseFilterPath (getFilterFieldChain index (r_path rule)) maxSegments collapse in
  let operatorText :=
    match operator with
    | Some op => if r_negated rule ?? false then negatedLabel labels (op_label op) else op_label op
    | None => if String.eqb (r_operator rule) "" then selectCondition labels else r_operator rule
    end in
  let empty := unset_value value || Nat.eqb (length values) 0 in
  let display := mkDisplay (formatFilterPath index (r_path rule) pathSeparatorText) segments
                   (some is_ellipsis segments) operatorText in
  match field with
  | None => display "" "" empty
  | Some f =>
      let text := match valueText_of f with
                  | Some own => own rule
                  | None => defaultValueDisplay value operator (placeholder f) (option_backed f)
                  end in
      let full :=
        if match valueText_of f with Some _ => true | None => false end ||
           match value with VArr _ => false | _ => true end ||
           bool_decide (getFilterArity operator = ARange) || Nat.ltb (length values) 2
        then text
        else valueDetail labels text
               (map (fun entry => option_text entry (VStr (js_String entry))) values) in
      display text full empty
  end.

(** The chip of a rule: the name it is announced by, and its value's. *)
Definition has_value (rule : FilterRule) (operator : option FilterOperator) : bool :=
  negb (String.eqb (r_operator rule) "") && operatorTakesValue operator.
Definition chip_name (rule : FilterRule) (field : FilterField) (operator : option FilterOperator)
    (d : FilterRuleDisplay) : string :=
  let valueName := if valueEmpty d && negb (match valueText_of field with Some _ => true | None => false end)
                   then noValue labels else valueText d in
  filterLabel labels
    (trim (pathText d +:+ " " +:+ operatorLabel d +:+
           (if has_value rule operator then " " +:+ valueName else "")) +:+
     (if String.eqb (r_operator rule) "" then ", " +:+ incompleteText labels else "")).
Definition value_name (locked : bool) (d : FilterRuleDisplay) : string :=
  if locked then valueFullText d else valueText d.
Definition value_title (d : FilterRuleDisplay) : option string :=
  if String.eqb (valueFullText d) (valueText d) then None else Some (valueFullText d).
Definition path_title (d : FilterRuleDisplay) : option string :=
  if pathCollapsed d then None else Some (pathText d).
End Display.
Definition is_tab_stop (focus : FilterFocus) (rule : string) (index : nat) : bool :=
  bool_decide (fo_id focus = Some rule) || (bool_decide (fo_id focus = None) && Nat.eqb index 0).

(** ** The moves a menu offers *)
Record Destination := mkDestination { d_id : string; d_group : option nat; d_size : nat }.
Section Moves.
Context (nodeId parent : string).

(** [visit] over one child: how many groups were counted, and what is offered. *)
Fixpoint visit (inside : bool) (child : FilterNode) (st : nat * list Destination)
    : nat * list Destination :=
  match child with
  | NRule _ => st
  | NGroup g =>
      let position := S st.1 in
      let within := inside || String.eqb (g_id g) nodeId in
      let offered := if negb within && negb (String.eqb (g_id g) parent)
                     then st.2 ++ [mkDestination (g_id g) (Some position) (length (g_rules g))]
                     else st.2 in
      fold_left (fun st c => visit within c st) (g_rules g) (position, offered)
  end.
End Moves.
Definition destinations (query : FilterQuery) (nodeId : string) : list Destination :=
  match findFilterNode query nodeId with
  | Some (mkFound _ (Some parent) _) =>
      let top := if String.eqb (g_id parent) (g_id query) then []
                 else [mkDestination (g_id query) None (length (g_rules query))] in
      (fold_left (fun st c => visit nodeId (g_id parent) false c st) (g_rules query) (0, top)).2
  | _ => []
  end.

Inductive MenuRow :=
| MenuDuplicate | MenuNegate | MenuWrap | MenuUnwrap | MenuMove (d : Destination)
| MenuConvert | MenuRemove.
(** The rows of a menu, each with whether it is disabled. *)
Definition move_rows_of (query : FilterQuery) (nodeId : string) (reorderable locked : bool)
    : list (MenuRow * bool) :=
  if negb reorderable then []
  else map (fun d => (MenuMove d, locked)) (destinations query nodeId).
Definition rule_menu (query : FilterQuery) (ruleId : string)
    (allowGrouping reorderable locked converts advanced : bool) : list (MenuRow * bool) :=
  [(MenuDuplicate, locked); (MenuNegate, locked)] ++
  (if allowGrouping
   then (MenuWrap, locked) :: move_rows_of query ruleId reorderable locked else []) ++
  (if converts && negb advanced then [(MenuConvert, false)] else []) ++
  [(MenuRemove, locked)].
Definition group_menu (query : FilterQuery) (groupId : string) (reorderable locked : bool)
    : list (MenuRow * bool) :=
  [(MenuDuplicate, locked); (MenuUnwrap, locked)] ++
  move_rows_of query groupId reorderable locked ++ [(MenuRemove, locked)].
(** What a press of a row asks of the bar; [None] is the consumer's own. *)
Definition menu_action (nodeId : string) (row : MenuRow) : option Action :=
  match row with
  | MenuDuplicate => Some (DuplicateNode nodeId)
  | MenuNegate => Some (NegateRule nodeId)
  | MenuWrap => Some (WrapNodeInGroup nodeId COr)
  | MenuUnwrap => Some (UnwrapGroup nodeId)
  | MenuMove d => Some (MoveNodeTo nodeId (d_id d) (Z.of_nat (d_size d)))
  | MenuConvert => None
  | MenuRemove => Some (RemoveNode nodeId)
  end.

(** ** The two popovers of a rule *)
Section Row.
Context {St : Type} `{!IdSource St}.
(** The published index and operators, and whether an editor is found. *)
Context (index : FilterIndex) (resolveOperators : FilterField -> list FilterOperator).
Context (has_editor : FilterField -> FilterOperator -> bool).
Context (id : string).

(** The bar; the condition menu: open, its ref [handoff], and whether its panel
    is still in the DOM, which the exit transition outlasts; the value popover
    and the draft of the editor inside of it. *)
Record Row := mkRow {
  row_bar : FilterBar St;
  op_open : bool;
  handoff : bool;
  op_panel : bool;
  value_open : bool;
  value_draft : val
}.
Implicit Types (r : Row) (p : Props).
Definition row_rule r : option FilterRule := findFilterRule (current (row_bar r)) id.
Definition operators_of (rule : FilterRule) : list FilterOperator :=
  match getFilterField index (r_path rule) with Some f => resolveOperators f | None => [] end.
Definition operator_of (rule : FilterRule) : option FilterOperator :=
  getFilterOperator (operators_of rule) (Some (r_operator rule)).
(** The chip draws the condition, and the value when it has one. *)
Definition draws_operator r : bool :=
  match row_rule r with
  | Some rule => match getFilterField index (r_path rule) with Some _ => true | None => false end
  | None => false
  end.
Definition draws_value r : bool :=
  draws_operator r &&
  match row_rule r with Some rule => has_value rule (operator_of rule) | None => false end.
Definition value_has_editor r : bool :=
  match row_rule r with
  | Some rule =>
      match getFilterField index (r_path rule), operator_of rule with
      | Some f, Some op => has_editor f op
      | _, _ => false
      end
  | None => false
  end.
Definition row_value r : val := match row_rule r with Some rule => r_value rule | None => VUndef end.

(** [useFilterChipAutoOpen] *)
Definition chip_auto_open (focus : FilterFocus) : option Segment :=
  if fo_autoOpen focus && bool_decide (fo_id focus = Some id) then fo_segment focus else None.
Definition auto_of r : option Segment := chip_auto_open (snapshot (b_focus (row_bar r))).
Definition put_focus r (segment : Segment) (autoOpen : bool) : Row :=
  mkRow (with_focus (row_bar r) (focus_set (b_focus (row_bar r)) (mkFocus (Some id) (Some segment) autoOpen)))
    (op_open r) (handoff r) (op_panel r) (value_open r) (value_draft r).
Definition with_op r (open handoff : bool) : Row :=
  mkRow (row_bar r) open handoff (op_panel r || open) (value_open r) (value_draft r).
Definition with_value r (open : bool) : Row :=
  mkRow (row_bar r) (op_open r) (handoff r) (op_panel r) open
    (if open && negb (value_open r) then row_value r else value_draft r).
Definition with_draft r (draft : val) : Row :=
  mkRow (row_bar r) (op_open r) (handoff r) (op_panel r) (value_open r) draft.
Definition with_bar r (b : FilterBar St) : Row :=
  mkRow b (op_open r) (handoff r) (op_panel r) (value_open r) (value_draft r).
Definition row_locked p : bool := isFilterLocked (p_disabled p) (p_readOnly p).

(** *** The condition menu *)
Definition op_effect p r : Row :=
  if negb (bool_decide (auto_of r = Some SegOperator)) || op_open r then r
  else put_focus (with_op r (negb (row_locked p)) false) SegOperator false.
Definition op_change p r (next : bool) : Row :=
  if next && row_locked p then r
  else with_op r next (if next then false else handoff r).
Definition op_close r : Row := put_focus (with_op r false false) SegOperator false.
Definition op_pick p r (value : option string) : Row * list Call :=
  match row_rule r, value with
  | None, _ => (r, [])
  | Some _, None => (op_close r, [])
  | Some rule, Some v =>
      let operators := operators_of rule in
      let chosen := getFilterOperator operators (Some v) in
      let building := String.eqb (r_operator rule) "" in
      let '(b, calls) := updateRule p (row_bar r) id
        (mkUpdates None (Some v)
           (Some (coerceFilterValue (r_value rule) (operator_of rule) chosen)) None) in
      let r1 := with_bar r b in
      (if building && operatorTakesValue chosen then with_op r1 false true else op_close r1, calls)
  end.
(** The panel leaves the DOM: [release]. *)
Definition panel_gone r : Row :=
  let r1 := mkRow (row_bar r) (op_open r) (handoff r) false (value_open r) (value_draft r) in
  if negb (handoff r) then r1 else put_focus r1 SegValue true.

(** *** The value popover and its editor *)
Definition value_effect p r : Row :=
  if negb (bool_decide (auto_of r = Some SegValue)) || value_open r then r
  else put_focus (if row_locked p then r else with_value r true) SegValue false.
Definition value_change p r (next : bool) : Row :=
  if next && row_locked p then r else with_value r next.
Definition value_close r : Row := put_focus (with_value r false) SegValue false.
(** [commit]: the draft when nothing is given, and the close it may decline. *)
Definition value_commit p r (next : val) (close : option bool) : Row * list Call :=
  let '(b, calls) := updateRule p (row_bar r) id
    (mkUpdates None None (Some (match next with VUndef => value_draft r | v => v end)) None) in
  let r1 := with_bar r b in
  (match close with Some false => r1 | _ => value_close r1 end, calls).

(** *** One event; [DraftEffect] is the editor's, on [open] and the rule's value *)
Inductive RowEvent :=
| OperatorEffect | OperatorChange (next : bool) | OperatorPick (value : option string) | PanelGone
| ValueEffect | ValueChange (next : bool) | DraftEffect | ValueEdit (draft : val)
| ValueCommit (next : val) (close : option bool) | ValueCancel
| BarEvent (b : FilterBar St).
(** When an event can happen: an effect of what is drawn, a press in an open
    popover, the end of a panel's exit. *)
Definition possible r (e : RowEvent) : bool :=
  match e with
  | OperatorEffect | OperatorChange _ => draws_operator r
  | OperatorPick _ => draws_operator r && op_open r
  | PanelGone => op_panel r && negb (op_open r)
  | ValueEffect => draws_value r
  | ValueChange _ => draws_value r && value_has_editor r
  | DraftEffect | ValueEdit _ | ValueCommit _ _ | ValueCancel => draws_value r && value_has_editor r && value_open r
  | BarEvent _ => true
  end.
Definition handle_row p r (e : RowEvent) : Row * list Call :=
  match e with
  | OperatorEffect => (op_effect p r, [])
  | OperatorChange next => (op_change p r next, [])
  | OperatorPick value => op_pick p r value
  | PanelGone => (panel_gone r, [])
  | ValueEffect => (value_effect p r, [])
  | ValueChange next => (value_change p r next, [])
  | DraftEffect => (with_draft r (row_value r), [])
  | ValueEdit draft => (with_draft r draft, [])
  | ValueCommit next close => value_commit p r next close
  | ValueCancel => (value_close r, [])
  | BarEvent b => (with_bar r b, [])
  end.
(** What unmounts with what is no longer drawn, the chip's cleanup before its
    panel's. *)
Definition settle_draw r : Row :=
  let chip := draws_operator r in
  mkRow (row_bar r) (op_open r && chip) (handoff r && chip) (op_panel r && chip)
    (value_open r && draws_value r) (value_draft r).
Definition row_step p r (e : RowEvent) : Row * list Call :=
  if negb (possible r e) then (r, [])
  else let '(r1, calls) := handle_row p r e in (settle_draw r1, calls).
Fixpoint row_run p r (es : list RowEvent) : Row * list Call :=
  match es with
  | [] => (r, [])
  | e :: es' => let '(r1, calls) := row_step p r e in
                let '(r2, more) := row_run p r1 es' in (r2, calls ++ more)
  end.
End Row.

(** ** The picker of a field *)
Section Picker.
Fixpoint toCascaderNode (parentPath : list string) (field : FilterField) : CascaderNode :=
  let path := parentPath ++ [ff_id field] in
  let branch := isFilterBranch field in
  CNode (joinFilterPath path) (ff_label field)
    (match ff_fields field with Some fields => map (toCascaderNode path) fields | None => [] end)
    false (if branch then Some (getFilterFieldCount field) else None) (ff_disabled field)
    (ff_keywords field ?? []) false.
Definition toCascaderNodes (fields : list FilterField) (parentPath : list string)
    : list CascaderNode := map (toCascaderNode parentPath) fields.
(** The value of a leaf that was committed. *)
Definition onPick (index : FilterIndex) (resolveOperators : FilterField -> list FilterOperator)
    (value : string) : option (list string * option string) :=
  let nextPath := splitFilterPath value in
  match getFilterField index nextPath with
  | None => None
  | Some field => Some (nextPath, getDefaultFilterOperator field (resolveOperators field))
  end.
(** The create popover's three handlers, on the draft. *)
Definition step_path (next : list string) : Action := DispatchDraft (SetCascaderPath next).
Definition step_query (query : string) : Action := DispatchDraft (SetQuery query).
Definition step_select (path : list string) (defaultOperator : option string) : Action :=
  DispatchDraft (SelectField path defaultOperator).
End Picker.

(** ** The create popover *)
Definition builder_open (draft : option FilterDraft) : bool :=
  match draft with Some d => bool_decide (d_ruleId d = None) | None => false end.
Definition committing (draft : option FilterDraft) : bool :=
  match draft with
  | Some d => bool_decide (d_ruleId d = None) &&
              match d_status d with Ready => true | Editing => false end
  | None => false
  end.
(** The latch a render adjusts. *)
Definition instant_exit (latch : bool) (draft : option FilterDraft) : bool :=
  if committing draft && negb latch then true
  else if builder_open draft && negb (committing draft) && latch then false else latch.
Definition builder_change (next : bool) : Action := if next then OpenCreateDraft else CloseDraft.
Definition compact (ruleCount : nat) : bool := Nat.ltb 0 ruleCount.
