(* ===== verification/FilterChipLaws.v ===== *)
(** * The chips' menus and popovers are right

    A menu offers exactly the moves that can be made; a condition chosen for a
    new rule opens its value, once; the picker returns the field it shows. *)
From S2P Require Import Prelude JsString JsValue JsMap FilterQuery FilterTree FilterEdits FilterLaws FilterSchema FilterSchemaLaws Filters FiltersLaws FilterPanel FilterPanelLaws FilterChip.

(** ** The moves of a menu *)
Section Moves.
Context (nodeId parent : string).
Notation visit := (visit nodeId parent).

(** The groups outside of the node, in document order. *)
Fixpoint outside (n : FilterNode) : list string :=
  match n with
  | NRule _ => []
  | NGroup g => if String.eqb (g_id g) nodeId then [] else g_id g :: flat_map outside (g_rules g)
  end.
Definition offered (inside : bool) (ids : list string) : list string :=
  if inside then [] else bfilter (fun x => negb (String.eqb x parent)) ids.
(** What a walk over some nodes adds to what was offered and counted. *)
Definition walked (inside : bool) (groups free : list string) (st st' : nat * list Destination) : Prop :=
  st'.1 = st.1 + length groups /\
  exists new, st'.2 = st.2 ++ new /\ map d_id new = offered inside free /\
    Forall (fun d => exists k, d_group d = Some (S (st.1 + k)) /\ groups !! k = Some (d_id d)) new.

Lemma walked_refl inside st : walked inside [] [] st st.
Proof.
  split; [cbn; lia|]. exists []. split_and!; [by rewrite app_nil_r|by destruct inside|constructor].
Qed.
Lemma walked_trans inside g1 g2 f1 f2 st st1 st2 :
  walked inside g1 f1 st st1 -> walked inside g2 f2 st1 st2 ->
  walked inside (g1 ++ g2) (f1 ++ f2) st st2.
Proof.
  intros (Hn1 & new1 & Ha1 & Hm1 & Hf1) (Hn2 & new2 & Ha2 & Hm2 & Hf2). split.
  { rewrite length_app. lia. }
  exists (new1 ++ new2). split_and!.
  - by rewrite Ha2, Ha1, <- app_assoc.
  - rewrite map_app, Hm1, Hm2. unfold offered. destruct inside; [done|]. by rewrite List.filter_app.
  - apply Forall_app. split.
    + eapply Forall_impl; [exact Hf1|]. intros d (k & Hk & Hl). exists k. split; [done|].
      by apply lookup_app_l_Some.
    + eapply Forall_impl; [exact Hf2|]. intros d (k & Hk & Hl). exists (length g1 + k). split.
      * rewrite Hk, Hn1. f_equal. lia.
      * rewrite lookup_app_r by lia. by replace (length g1 + k - length g1) with k by lia.
Qed.
Lemma fold_walked inside l (H : Forall (fun n => forall st, walked inside (gids n) (outside n) st (visit inside n st)) l) :
  forall st, walked inside (flat_map gids l) (flat_map outside l) st
    (fold_left (fun st c => visit inside c st) l st).
Proof.
  induction H as [|n l Hn _ IH]; intros st; [apply walked_refl|].
  cbn [flat_map fold_left]. eapply walked_trans; [apply Hn|apply IH].
Qed.
Lemma visit_walked n inside st : walked inside (gids n) (outside n) st (visit inside n st).
Proof.
  revert inside st. induction n as [r|g IH] using FilterNode_ind'; intros inside st.
  { apply walked_refl. }
  cbn [FilterChip.visit gids outside]. cbv zeta.
  set (within := inside || String.eqb (g_id g) nodeId).
  set (own := mkDestination (g_id g) (Some (S st.1)) (length (g_rules g))).
  set (shown := negb within && negb (String.eqb (g_id g) parent)).
  assert (Hkids := fold_walked within (g_rules g)
    (List.Forall_impl _ (fun n (Hn : forall inside st, _) => Hn within) IH)
    (S st.1, if shown then st.2 ++ [own] else st.2)).
  assert (Hhere : walked inside [g_id g] (if String.eqb (g_id g) nodeId then [] else [g_id g]) st
    (S st.1, if shown then st.2 ++ [own] else st.2)).
  { split; [cbn; lia|]. exists (if shown then [own] else []). split_and!.
    - by destruct shown; [|rewrite app_nil_r].
    - unfold shown, within, offered. destruct inside, (String.eqb (g_id g) nodeId); cbn; try done.
      by destruct (String.eqb (g_id g) parent).
    - destruct shown; repeat constructor. exists 0. by rewrite Nat.add_0_r. }
  pose proof (walked_trans inside [g_id g] (flat_map gids (g_rules g))) as Htrans.
  destruct (String.eqb (g_id g) nodeId) eqn:E.
  - (* below the node nothing is offered *)
    refine (Htrans [] [] st _ _ Hhere _).
    destruct Hkids as (Hn & new & Ha & Hm & Hf). unfold within in Hm. rewrite orb_true_r in Hm.
    cbn in Hm. destruct new; [|done]. split; [exact Hn|]. exists []. split_and!; [done| |constructor].
    by destruct inside.
  - assert (Hw : within = inside) by apply orb_false_r. rewrite Hw in Hkids. rewrite Hw.
    exact (Htrans [g_id g] (flat_map outside (g_rules g)) st _ _ Hhere Hkids).
Qed.

(** The groups of a query are those outside of a node and those within it. *)
Lemma outside_absent n : nodeId ∉ ids n -> outside n = gids n.
Proof.
  induction n as [r|g IH] using FilterNode_ind'; [done|]. cbn. rewrite not_elem_of_cons.
  intros [Hne H]. destruct (String.eqb_spec (g_id g) nodeId); [congruence|]. f_equal.
  induction IH as [|m l Hm _ IHl]; [done|]. cbn in H |- *. apply not_elem_of_app in H as [H1 H2].
  by rewrite Hm, IHl.
Qed.
Lemma outside_all_absent l : nodeId ∉ flat_map ids l -> flat_map outside l = flat_map gids l.
Proof.
  induction l as [|n l IH]; [done|]. cbn. intros [H1 H2]%not_elem_of_app.
  by rewrite outside_absent, IH.
Qed.
Lemma outside_hole n : node_id n = nodeId -> outside n = [].
Proof. destruct n as [r|g]; [done|]. cbn. intros ->. by rewrite String.eqb_refl. Qed.
Lemma outside_split c p b n a : distinct_ids (plug c p) -> g_rules p = b ++ n :: a -> node_id n = nodeId ->
  flat_map gids (g_rules (plug c p)) ≡ₚ flat_map outside (g_rules (plug c p)) ++ gids n.
Proof.
  intros Hd Hp Hn. revert Hd. induction c as [|i k b' c IH a']; intros Hd.
  - destruct (hole_absent Hole p b n a Hd Hp) as [Hb Ha]. rewrite Hn in Hb, Ha.
    cbn [plug]. rewrite Hp, !List.flat_map_app. cbn [flat_map].
    rewrite (outside_all_absent b), (outside_all_absent a), (outside_hole n) by done. cbn.
    solve_Permutation.
  - pose proof (hole_in_ids p b n a Hp) as Hin. rewrite Hn in Hin.
    destruct (ctx_absent _ _ _ _ _ _ _ Hd Hin) as (_ & Hb & Ha & _ & Hne & Hd').
    cbn [plug g_rules]. rewrite !List.flat_map_app. cbn [flat_map gids outside].
    rewrite (outside_all_absent b'), (outside_all_absent a') by done.
    destruct (String.eqb_spec (g_id (plug c p)) nodeId); [congruence|].
    rewrite (IH Hd'). cbn. solve_Permutation.
Qed.
Lemma gids_all_sub l : flat_map gids l ⊆+ flat_map ids l.
Proof.
  induction l as [|n l IH]; [done|]. cbn. apply submseteq_app; [apply gids_submset_ids|done].
Qed.
Lemma outside_sub c p b n a : distinct_ids (plug c p) -> g_rules p = b ++ n :: a -> node_id n = nodeId ->
  flat_map outside (g_rules (plug c p)) ++ ids n ⊆+ flat_map ids (g_rules (plug c p)).
Proof.
  intros Hd Hp Hn. revert Hd. induction c as [|i k b' c IH a']; intros Hd.
  - destruct (hole_absent Hole p b n a Hd Hp) as [Hb Ha]. rewrite Hn in Hb, Ha.
    cbn [plug]. rewrite Hp, !List.flat_map_app. cbn [flat_map].
    rewrite (outside_all_absent b), (outside_all_absent a), (outside_hole n) by done. cbn.
    rewrite <- app_assoc. apply submseteq_app; [apply gids_all_sub|].
    rewrite (Permutation_app_comm (ids n)). by apply submseteq_app; [apply gids_all_sub|].
  - pose proof (hole_in_ids p b n a Hp) as Hin. rewrite Hn in Hin.
    destruct (ctx_absent _ _ _ _ _ _ _ Hd Hin) as (_ & Hb & Ha & _ & Hne & Hd').
    cbn [plug g_rules]. rewrite !List.flat_map_app. cbn [flat_map ids outside node_id].
    rewrite (outside_all_absent b'), (outside_all_absent a') by done.
    destruct (String.eqb_spec (g_id (plug c p)) nodeId); [congruence|].
    rewrite <- app_assoc. apply submseteq_app; [apply gids_all_sub|]. cbn. apply submseteq_skip.
    rewrite <- app_assoc, (Permutation_app_comm (flat_map gids a')), app_assoc.
    apply submseteq_app; [by apply IH|apply gids_all_sub].
Qed.
End Moves.

(** The same from the root: the whole list of a menu. *)
Lemma outside_elem q id n p i : distinct_ids q -> findFilterNode q id = Some (mkFound n (Some p) i) ->
  NoDup (flat_map (outside id) (g_rules q)) /\ g_id q ∉ flat_map (outside id) (g_rules q) /\
  g_id q ∉ ids n /\
  forall x, x ∈ flat_map (outside id) (g_rules q) <-> x ∈ flat_map gids (g_rules q) /\ x ∉ ids n.
Proof.
  intros Hd Hf. pose proof (find_spec _ _ _ _ _ Hf) as (c & b & a & Hq & Hp & Hn & _).
  assert (Hsplit : flat_map gids (g_rules q) ≡ₚ flat_map (outside id) (g_rules q) ++ gids n).
  { subst q. by apply (outside_split id c p b n a). }
  assert (Hg : NoDup (gids_of q)) by by apply distinct_gids.
  cbn in Hg. apply NoDup_cons in Hg as [Hroot Hg]. rewrite Hsplit in Hg, Hroot.
  apply NoDup_app in Hg as (Ho & Hdisj & _). rewrite not_elem_of_app in Hroot.
  assert (Hsub : flat_map (outside id) (g_rules q) ++ ids n ⊆+ flat_map ids (g_rules q)).
  { subst q. by apply (outside_sub id c p b n a). }
  unfold distinct_ids in Hd. rewrite ids_group in Hd. apply NoDup_cons in Hd as [Hr Hd].
  pose proof (submseteq_NoDup _ _ Hsub Hd) as Hnd. apply NoDup_app in Hnd as (_ & Hfree & _).
  assert (Hin : forall x, x ∈ ids n -> x ∈ flat_map ids (g_rules q)).
  { intros x Hx. eapply elem_of_submseteq; [|exact Hsub]. apply elem_of_app. by right. }
  split; [done|]. split; [tauto|]. split; [by intros H%Hin|].
  intros x. rewrite Hsplit, elem_of_app. split; [intros Hx; split; [by left|by apply Hfree]|].
  intros [[Hx|Hx] Hno]; [done|]. destruct Hno. by apply gids_sub_ids.
Qed.
Lemma moveTo_made q id n p i x g par j index : distinct_ids q ->
  findFilterNode q id = Some (mkFound n (Some p) i) ->
  findFilterNode q x = Some (mkFound (NGroup g) par j) -> x ∉ ids n -> x <> g_id p ->
  exists q' p' at_, moveFilterNodeTo q id x index = Some q' /\
    findFilterNode q' id = Some (mkFound n (Some p') at_) /\ g_id p' = x.
Proof.
  intros Hd Hf Hx Hno Hne. destruct (moveFilterNodeTo q id x index) as [q'|] eqn:E.
  - destruct (moveTo_shape _ _ _ _ _ Hd E) as (c & p0 & b & n0 & a & c' & g' & t & Hq & Hp & Hn & Hplug & Hg & Hq' & _).
    assert (Hd' : distinct_ids q').
    { destruct (moveTo_perm _ _ _ _ _ Hd E) as [Hids _]. unfold distinct_ids. by rewrite Hids. }
    subst q. assert (Hsame : n = n0).
    { pose proof (find_plug c p0 b n0 a Hd Hp) as Hf'. rewrite Hn in Hf'. congruence. }
    subst n0. rewrite insert_rules_split in Hq'. subst q'.
    eexists _, _, _. split; [done|].
    split; [rewrite <- Hn; apply (find_plug c' _ _ n _ Hd' eq_refl)|exact Hg].
  - exfalso. revert E. unfold moveFilterNodeTo. rewrite Hf, Hx.
    destruct (containsFilterNode n x) eqn:Ec; [apply contains_ids in Ec; done|]. cbv zeta.
    destruct (String.eqb_spec (g_id p) x); [congruence|]. cbn [andb]. unfold then_edit.
    pose proof (find_spec _ _ _ _ _ Hf) as (c & b & a & -> & Hp & <- & _).
    rewrite (detach_plug c p b n a) by done. by destruct (insertFilterNode _ _ _ _).
Qed.
Lemma last_frame c g : c = Hole \/ exists c' p b a, plug c g = plug c' p /\ g_rules p = b ++ NGroup g :: a.
Proof.
  induction c as [|i k b c IH a]; [by left|]. right. destruct IH as [->|(c' & p & b' & a' & Hq & Hp)].
  - exists Hole, (mkGroup i k (b ++ NGroup g :: a)), b, a. done.
  - exists (Inside i k b c' a), p, b', a'. cbn. by rewrite Hq.
Qed.
Lemma group_found q x : distinct_ids q -> x ∈ gids_of q ->
  exists g par j, findFilterNode q x = Some (mkFound (NGroup g) par j).
Proof.
  intros Hd Hx. apply gids_ctx in Hx as (c & g & -> & <-).
  destruct (last_frame c g) as [->|(c' & p & b & a & Hq & Hp)].
  - exists g, None, (-1)%Z. unfold findFilterNode. cbn. by rewrite String.eqb_refl.
  - rewrite Hq in *. eexists _, _, _. apply (find_plug c' p b (NGroup g) a Hd Hp).
Qed.

(** C39: A menu offers the moves there are.  In a query with distinct ids, the
    places a node's menu offers are, each once, the groups other than the one
    it is in that are neither itself nor inside of it - the query itself as the
    top level, and every other group by its number in document order; pressing
    one moves the node there; and to any other place but its own group no move
    is made. *)
Theorem menu_offers_the_moves q id n p i :
  distinct_ids q -> findFilterNode q id = Some (mkFound n (Some p) i) ->
  let offered := destinations q id in
  NoDup (map d_id offered) /\
  (forall x, x ∈ map d_id offered <-> x ∈ gids_of q /\ x ∉ ids n /\ x <> g_id p) /\
  (forall d, d ∈ offered -> match d_group d with
     | None => d_id d = g_id q
     | Some k => exists k', k = S k' /\ flat_map gids (g_rules q) !! k' = Some (d_id d) end) /\
  (forall d, d ∈ offered -> exists q' p' j,
     moveFilterNodeTo q id (d_id d) (Z.of_nat (d_size d)) = Some q' /\
     findFilterNode q' id = Some (mkFound n (Some p') j) /\ g_id p' = d_id d) /\
  (forall x index, x ∉ map d_id offered -> x <> g_id p -> moveFilterNodeTo q id x index = None).
Proof.
  intros Hd Hf offered. destruct (outside_elem _ _ _ _ _ Hd Hf) as (Hnd & Hroot & Hrn & Helem).
  assert (Hoff : exists new, offered =
    (if String.eqb (g_id p) (g_id q) then [] else [mkDestination (g_id q) None (length (g_rules q))]) ++ new /\
    map d_id new = bfilter (fun x => negb (String.eqb x (g_id p))) (flat_map (outside id) (g_rules q)) /\
    Forall (fun d => exists k, d_group d = Some (S k) /\ flat_map gids (g_rules q) !! k = Some (d_id d)) new).
  { unfold offered, destinations. rewrite Hf. cbv zeta.
    destruct (fold_walked id (g_id p) false (g_rules q)
      (proj2 (Forall_forall _ _) (fun m _ st => visit_walked id (g_id p) m false st)) 
      (0, if String.eqb (g_id p) (g_id q) then [] else [mkDestination (g_id q) None (length (g_rules q))]))
      as (_ & new & -> & Hm & Hk). by exists new. }
  destruct Hoff as (new & Hoff & Hm & Hk).
  assert (Hmem : forall x, x ∈ map d_id offered <-> x ∈ gids_of q /\ x ∉ ids n /\ x <> g_id p).
  { intros x. rewrite Hoff, map_app, elem_of_app, Hm, bfilter_elem, Helem. cbn [gids].
    rewrite elem_of_cons, negb_true_iff, String.eqb_neq.
    destruct (String.eqb_spec (g_id p) (g_id q)) as [E|E]; cbn;
      rewrite ?elem_of_nil, ?list_elem_of_singleton; naive_solver. }
  split_and!; [|exact Hmem| | |].
  - rewrite Hoff, map_app, Hm. apply NoDup_app. split_and!.
    + destruct (String.eqb _ _); [constructor|apply NoDup_singleton].
    + intros x Hx. rewrite bfilter_elem. intros [Hin _].
      destruct (String.eqb _ _); [by apply elem_of_nil in Hx|].
      apply list_elem_of_singleton in Hx as ->. done.
    + by apply bfilter_NoDup.
  - intros d. rewrite Hoff, elem_of_app. intros [Hin|Hin].
    + destruct (String.eqb _ _); [by apply elem_of_nil in Hin|].
      by apply list_elem_of_singleton in Hin as ->.
    + rewrite Forall_forall in Hk. destruct (Hk d Hin) as (k & -> & Hl). by exists k.
  - intros d Hin. assert (Hx : d_id d ∈ map d_id offered) by by apply list_elem_of_fmap_2.
    apply Hmem in Hx as (Hg & Hno & Hne). destruct (group_found _ _ Hd Hg) as (g & par & j & Hg').
    by eapply moveTo_made.
  - intros x index Hno Hne. unfold moveFilterNodeTo. rewrite Hf.
    destruct (containsFilterNode n x) eqn:Ec; [done|].
    assert (Hx : x ∉ ids n) by (intros Hx%contains_ids; congruence).
    destruct (findFilterNode q x) as [[[r|g] par j]|] eqn:Eg; [done| |done].
    destruct Hno. apply Hmem. split_and!; [|done..].
    destruct par as [par|].
    + apply find_spec in Eg as (c & b & a & -> & Hp & <- & _). rewrite gids_plug, !elem_of_app.
      right. left. cbn. right. rewrite Hp, List.flat_map_app, elem_of_app. right. left.
    + apply find_root in Eg as [[= <-] <-]. left.
Qed.

(** ** Rules by id *)
Lemma rule_ctx n r : isFilterGroup n = true -> r ∈ flatten_node n ->
  exists c p b a, n = NGroup (plug c p) /\ g_rules p = b ++ NRule r :: a.
Proof.
  induction n as [|g IH] using FilterNode_ind'; [done|]. intros _ Hr. cbn in Hr.
  apply elem_of_flat_map in Hr as (m & Hm & Hr). rewrite Forall_forall in IH.
  apply list_elem_of_split in Hm as Hs. destruct Hs as (b & a & Hg). destruct m as [r'|g'].
  - apply list_elem_of_singleton in Hr as ->. by exists Hole, g, b, a.
  - destruct (IH _ Hm eq_refl Hr) as (c & p & b' & a' & [= ->] & Hp).
    exists (Inside (g_id g) (g_combinator g) b c a), p, b', a'. split; [|done].
    cbn. rewrite <- Hg. by destruct g.
Qed.
Lemma find_rule_iff q id r : distinct_ids q ->
  findFilterRule q id = Some r <-> r ∈ flattenFilterRules q /\ r_id r = id.
Proof.
  intros Hd. unfold findFilterRule. split.
  - destruct (findFilterNode q id) as [[[r'|g] [p|] i]|] eqn:Hf; try done; intros [= ->].
    + apply find_spec in Hf as (c & b & a & -> & Hp & Hn & _). split; [|done].
      rewrite flatten_plug, !elem_of_app. right. left. unfold flattenFilterRules. cbn.
      rewrite Hp, List.flat_map_app, elem_of_app. right. left.
    + by apply find_root in Hf as [[=] _].
  - intros [Hr <-]. destruct (rule_ctx (NGroup q) r eq_refl Hr) as (c & p & b & a & [= ->] & Hp).
    pose proof (find_plug c p b (NRule r) a Hd Hp) as E. cbn [node_id] in E. by rewrite E.
Qed.
Lemma find_updated q id u r : distinct_ids q -> findFilterRule q id = Some r ->
  findFilterRule (settle q (updateFilterRule q id u)) id = Some (apply_updates u r).
Proof.
  intros Hd Hr. destruct (update_spec q id u Hd) as [Hfl Hids].
  apply find_rule_iff; [unfold distinct_ids; by rewrite Hids|].
  apply find_rule_iff in Hr as [Hr <-]; [|done]. split; [|done].
  rewrite Hfl. apply list_elem_of_fmap. exists r. split; [|done].
  unfold updated_rule. by rewrite String.eqb_refl.
Qed.

(** ** The steps of a condition *)
Section Row.
Context {St : Type} `{!IdSource St}.
Context (index : FilterIndex) (resolveOperators : FilterField -> list FilterOperator).
Context (has_editor : FilterField -> FilterOperator -> bool) (id : string).
Notation Row := (FilterChip.Row (St := St)).
Notation row_step := (row_step index resolveOperators has_editor id).
Notation row_run := (row_run index resolveOperators has_editor id).
Notation possible := (possible index resolveOperators has_editor id).
Implicit Types (r : Row) (p : Props).

(** A step handed on to the value, and a condition chosen for a rule that had
    none. *)
Definition handed_on r (e : RowEvent) : bool :=
  possible r e && match e with PanelGone => handoff r | _ => false end.
Definition chosen r (e : RowEvent) : bool :=
  possible r e &&
  match e, row_rule id r with
  | OperatorPick (Some v), Some rule =>
      String.eqb (r_operator rule) "" &&
      operatorTakesValue (getFilterOperator (operators_of index resolveOperators rule) (Some v))
  | _, _ => false
  end.
(** How often an event of a run is such a one. *)
Fixpoint count (what : Row -> RowEvent -> bool) p r (es : list RowEvent) : nat :=
  match es with
  | [] => 0
  | e :: es' => Nat.b2n (what r e) + count what p (row_step p r e).1 es'
  end.
(** The ref is lowered while the menu is open. *)
Definition lowered r : Prop := op_open r = true -> handoff r = false.
Definition owed r : nat := Nat.b2n (handoff r && op_panel r && negb (op_open r)).

Lemma settle_draw_owes r : lowered r -> lowered (settle_draw index resolveOperators id r) /\
  owed (settle_draw index resolveOperators id r) <= owed r.
Proof.
  unfold lowered, owed, settle_draw. cbn. destruct (draws_operator _ _ r); rewrite ?andb_true_r, ?andb_false_r; [done|].
  intros _. split; [done|]. cbn. lia.
Qed.
Lemma handle_owes p r e : lowered r -> possible r e = true ->
  let r' := (handle_row index resolveOperators id p r e).1 in
  lowered r' /\ Nat.b2n (handed_on r e) + owed r' <= Nat.b2n (chosen r e) + owed r.
Proof.
  intros Hlow Hp. unfold handed_on, chosen. rewrite Hp. cbn [andb].
  destruct e as [|next|v| | |next| |draft|next close| |b]; cbn [handle_row fst].
  - unfold op_effect. destruct (_ || _); [split; [done|unfold owed; cbn; lia]|]. split; [done|]. cbn. lia.
  - unfold op_change. destruct (next && _); [split; [done|unfold owed; cbn; lia]|].
    destruct next; split; unfold lowered, owed in *; cbn; try done; try lia.
    destruct (op_open r) eqn:E; [rewrite Hlow by done; cbn; lia|].
    rewrite orb_false_r. cbn. lia.
  - unfold op_pick. destruct (row_rule id r) as [rule|]; [|split; [done|unfold owed; cbn; lia]].
    destruct v as [v|]; [|split; [done|unfold owed; cbn; lia]]. cbv zeta.
    destruct (updateRule _ _ _ _) as [b calls]. destruct (_ && _); cbn.
    + split; [done|]. unfold owed. cbn. rewrite orb_false_r, andb_true_r. destruct (op_panel r); cbn; lia.
    + split; [done|]. unfold owed. cbn. lia.
  - unfold lowered, panel_gone, owed in *. destruct r as [b [] [] [] vo vd]; cbn in *;
      (discriminate || (split; [done|unfold owed; cbn; lia])).
  - unfold value_effect. destruct (_ || _); [|destruct (row_locked p)]; (split; [done|unfold owed; cbn; lia]).
  - unfold value_change. destruct (_ && _); (split; [done|unfold owed; cbn; lia]).
  - split; [done|unfold owed; cbn; lia].
  - split; [done|unfold owed; cbn; lia].
  - unfold value_commit. destruct (updateRule _ _ _ _) as [b calls].
    destruct close as [[]|]; (split; [done|unfold owed; cbn; lia]).
  - split; [done|unfold owed; cbn; lia].
  - split; [done|unfold owed; cbn; lia].
Qed.
Lemma step_owes p r e : lowered r ->
  lowered (row_step p r e).1 /\
  Nat.b2n (handed_on r e) + owed (row_step p r e).1 <= Nat.b2n (chosen r e) + owed r.
Proof.
  intros Hlow. unfold FilterChip.row_step. destruct (possible r e) eqn:Hp; cbn [negb].
  - pose proof (handle_owes p r e Hlow Hp) as [Hl Ho].
    destruct (handle_row index resolveOperators id p r e) as [r1 calls]. cbn [fst] in *.
    destruct (settle_draw_owes r1 Hl) as [Hl2 Ho2]. split; [done|]. lia.
  - unfold handed_on, chosen. rewrite Hp. cbn. split; [done|lia].
Qed.

(** The value step follows from the condition, once.  In any run of the
    presses, effects and exits of a rule's popovers that starts with the menu's
    ref lowered, the value is opened by the menu at most as often as a condition
    that takes a value was chosen for a rule that had none: closing the menu, an
    outside press, picking the condition there already was, or changing one
    never opens the value. *)
Theorem value_step_is_owed p r es : handoff r = false ->
  count handed_on p r es <= count chosen p r es.
Proof.
  intros Hh. enough (H : forall es r, lowered r ->
    count handed_on p r es <= count chosen p r es + owed r).
  { specialize (H es r). unfold owed in H. rewrite Hh in H. cbn in H. rewrite Nat.add_0_r in H.
    apply H. by intros _. }
  clear es r Hh. induction es as [|e es IH]; intros r Hlow; cbn [count]; [lia|].
  destruct (step_owes p r e Hlow) as [Hl Ho]. specialize (IH _ Hl). lia.
Qed.

(** A row whose rule is drawn keeps what it has. *)
Lemma drawn r rule field : row_rule id r = Some rule -> getFilterField index (r_path rule) = Some field ->
  draws_operator index id r = true.
Proof. intros Hr Hf. unfold draws_operator. by rewrite Hr, Hf. Qed.
Lemma settle_shown r : draws_operator index id r = true ->
  value_open r = false \/ draws_value index resolveOperators id r = true ->
  settle_draw index resolveOperators id r = r.
Proof.
  intros Hd Hv. unfold settle_draw. rewrite Hd, !andb_true_r.
  destruct r as [b o h pn vo vd]; cbn in *. by destruct Hv as [->| ->]; rewrite ?andb_true_r.
Qed.
Lemma effects_at_rest p r : fo_autoOpen (snapshot (b_focus (row_bar r))) = false ->
  draws_operator index id r = true -> value_open r = false \/ draws_value index resolveOperators id r = true ->
  row_run p r [OperatorEffect; ValueEffect] = (r, []).
Proof.
  intros Ha Hd Hv. cbn [FilterChip.row_run].
  assert (Hauto : forall s, bool_decide (auto_of id r = Some s) = false).
  { intros s. apply bool_decide_eq_false_2. unfold auto_of, chip_auto_open. by rewrite Ha. }
  assert (H1 : row_step p r OperatorEffect = (r, [])).
  { unfold FilterChip.row_step. cbn [FilterChip.possible handle_row]. rewrite Hd. cbn [negb].
    unfold op_effect. rewrite Hauto. cbn [negb orb]. by rewrite settle_shown. }
  assert (H2 : row_step p r ValueEffect = (r, [])).
  { unfold FilterChip.row_step. cbn [FilterChip.possible handle_row].
    destruct (draws_value index resolveOperators id r) eqn:Ev; [|done]. cbn [negb].
    unfold value_effect. rewrite Hauto. cbn [negb orb].
    rewrite settle_shown; [done|done|by right]. }
  by rewrite H1, H2.
Qed.
Lemma auto_of_flag r s : snapshot (b_focus (row_bar r)) = mkFocus (Some id) (Some s) true ->
  auto_of id r = Some s.
Proof. intros H. unfold auto_of, chip_auto_open. rewrite H. cbn. by rewrite bool_decide_true. Qed.

Lemma locked_row p r : locked p (row_bar r) = false -> row_locked p = false.
Proof. unfold locked. intros H. apply orb_false_iff in H as [H _]. exact H. Qed.
Lemma menu_opens p r rule field : row_rule id r = Some rule ->
  getFilterField index (r_path rule) = Some field -> row_locked p = false ->
  snapshot (b_focus (row_bar r)) = mkFocus (Some id) (Some SegOperator) true ->
  op_open r = false -> value_open r = false ->
  row_step p r OperatorEffect = (put_focus id (with_op r true false) SegOperator false, []).
Proof.
  intros Hrule Hfield Hopen Hfoc Ho Hvo. set (ra := put_focus _ _ _ _).
  unfold FilterChip.row_step. cbn [FilterChip.possible handle_row]. rewrite (drawn r rule field) by done.
  cbn [negb]. unfold op_effect. rewrite (auto_of_flag r SegOperator Hfoc), bool_decide_true by done.
  rewrite Ho, Hopen. cbn [negb orb]. fold ra. rewrite settle_shown; [done| |by left].
  by apply (drawn ra rule field).
Qed.
(** A rule of the row with a condition is drawn whole. *)
Lemma condition_drawn r rule field op : row_rule id r = Some rule ->
  getFilterField index (r_path rule) = Some field ->
  getFilterOperator (resolveOperators field) (Some (r_operator rule)) = Some op ->
  operatorTakesValue (Some op) = true -> has_editor field op = true ->
  draws_operator index id r = true /\ draws_value index resolveOperators id r = true /\
  value_has_editor index resolveOperators has_editor id r = true.
Proof.
  intros Hr Hf Ho Ht He. assert (Hd : draws_operator index id r = true) by by eapply drawn.
  split; [done|]. unfold draws_value, value_has_editor, has_value, operator_of, operators_of.
  rewrite Hd, Hr, Hf, Ho, Ht. split; [|done]. by destruct (r_operator rule).
Qed.
Lemma pick_step p r rule field v op :
  distinct_ids (current (row_bar r)) -> locked p (row_bar r) = false ->
  (forall h q d, l_before (b_latest (row_bar r)) = Some h -> h q d <> Some false) ->
  row_rule id r = Some rule -> r_operator rule = "" ->
  getFilterField index (r_path rule) = Some field ->
  getFilterOperator (resolveOperators field) (Some v) = Some op ->
  operatorTakesValue (Some op) = true -> op_open r = true -> value_open r = false ->
  let r1 := (row_step p r (OperatorPick (Some v))).1 in
  row_rule id r1 = Some (mkRule id (r_path rule) v (coerceFilterValue (r_value rule) None (Some op))
                           (r_negated rule)) /\
  op_open r1 = false /\ handoff r1 = true /\ op_panel r1 = op_panel r /\ value_open r1 = false.
Proof.
  intros Hd Hl Hh Hrule Hop Hfield Hv Htakes Ho Hvo.
  assert (Hid : r_id rule = id) by exact (proj2 (proj1 (find_rule_iff _ id rule Hd) Hrule)).
  unfold FilterChip.row_step. cbn [FilterChip.possible handle_row].
  rewrite (drawn r rule field), Ho by done. cbn [andb negb]. unfold op_pick. rewrite Hrule. cbv zeta.
  unfold operator_of, operators_of. rewrite Hfield, Hop, Hv. cbn [getFilterOperator String.eqb].
  set (u := mkUpdates _ _ _ _). destruct (updateRule_open p (row_bar r) id u Hl Hh) as [Hcur _].
  destruct (updateRule p (row_bar r) id u) as [b calls]. cbn [fst] in Hcur. rewrite Htakes. cbn [andb].
  set (written := mkRule id (r_path rule) v _ _).
  set (r1 := with_op (with_bar r b) false true).
  assert (Hw : row_rule id r1 = Some written).
  { unfold row_rule. change (current (row_bar r1)) with (current b). rewrite Hcur.
    rewrite (find_updated _ _ _ rule Hd Hrule). unfold apply_updates, written. cbn. by rewrite Hid. }
  cbn [fst]. rewrite settle_shown; [|by apply (drawn r1 written field)|by left].
  split_and!; [done..| |done]. cbn. by rewrite orb_false_r.
Qed.

(** C40: Choosing the condition of a new rule opens its value.  On an open bar
    whose hook refuses nothing, a rule with no condition whose menu has been
    handed the focus opens it; choosing a condition that takes a value writes
    it, with the value made to fit, and closes the menu; when its panel has
    left, the value opens, its editor starting from the rule's value; and the
    flag is spent: neither popover opens again by itself, before or after the
    editor is left. *)
Theorem chosen_condition_opens_its_value p r rule field v op :
  distinct_ids (current (row_bar r)) -> locked p (row_bar r) = false ->
  (forall h q d, l_before (b_latest (row_bar r)) = Some h -> h q d <> Some false) ->
  row_rule id r = Some rule -> r_operator rule = "" ->
  getFilterField index (r_path rule) = Some field ->
  getFilterOperator (resolveOperators field) (Some v) = Some op ->
  operatorTakesValue (Some op) = true -> has_editor field op = true ->
  snapshot (b_focus (row_bar r)) = mkFocus (Some id) (Some SegOperator) true ->
  op_open r = false -> value_open r = false ->
  let r1 := (row_run p r [OperatorEffect; OperatorPick (Some v); PanelGone; ValueEffect]).1 in
  row_rule id r1 = Some (mkRule id (r_path rule) v (coerceFilterValue (r_value rule) None (Some op))
                           (r_negated rule)) /\
  op_open r1 = false /\ op_panel r1 = false /\ value_open r1 = true /\
  value_draft r1 = row_value id r1 /\
  snapshot (b_focus (row_bar r1)) = mkFocus (Some id) (Some SegValue) false /\
  row_run p r1 [OperatorEffect; ValueEffect] = (r1, []) /\
  let r2 := (row_step p r1 ValueCancel).1 in
  value_open r2 = false /\ row_run p r2 [OperatorEffect; ValueEffect] = (r2, []).
Proof.
  intros Hd Hl Hh Hrule Hop Hfield Hv Htakes Hed Hfoc Ho Hvo.
  pose proof (locked_row p r Hl) as Hopen.
  pose proof (menu_opens p r rule field Hrule Hfield Hopen Hfoc Ho Hvo) as Ha.
  set (ra := put_focus id (with_op r true false) SegOperator false) in Ha.
  destruct (pick_step p ra rule field v op Hd Hl Hh Hrule Hop Hfield Hv Htakes eq_refl Hvo)
    as (Hw & Hbo & Hbh & Hbp & Hbv).
  cbn [FilterChip.row_run]. rewrite Ha.
  destruct (row_step p ra (OperatorPick (Some v))) as [rb calls]. cbn [fst] in Hw, Hbo, Hbh, Hbp, Hbv.
  set (written := mkRule id (r_path rule) v _ _) in Hw |- *.
  assert (Hdraw : forall r', current (row_bar r') = current (row_bar rb) ->
    draws_operator index id r' = true /\ draws_value index resolveOperators id r' = true /\
    value_has_editor index resolveOperators has_editor id r' = true).
  { intros r' Hr'. apply (condition_drawn r' written field op); [|done..]. unfold row_rule. by rewrite Hr'. }
  set (rc := put_focus id (mkRow (row_bar rb) false true false false (value_draft rb)) SegValue true).
  assert (Hc : row_step p rb PanelGone = (rc, [])).
  { unfold FilterChip.row_step. cbn [FilterChip.possible handle_row]. rewrite Hbp, Hbo. cbn [andb negb ra put_focus with_op op_panel op_open orb].
    rewrite orb_true_r. cbn [negb]. unfold panel_gone. rewrite Hbh, Hbo, Hbv. cbn [negb]. fold rc.
    rewrite settle_shown; [done|apply (Hdraw rc eq_refl)|by left]. }
  set (rd := put_focus id (with_value id rc true) SegValue false).
  assert (Hd' : row_step p rc ValueEffect = (rd, [])).
  { unfold FilterChip.row_step. cbn [FilterChip.possible handle_row]. destruct (Hdraw rc eq_refl) as (_ & -> & _).
    cbn [negb]. unfold value_effect. rewrite (auto_of_flag rc SegValue) by apply focus_set_snapshot.
    rewrite bool_decide_true, Hopen by done. cbn [negb orb value_open rc put_focus]. fold rd.
    rewrite settle_shown; [done|apply (Hdraw rd eq_refl)|right; apply (Hdraw rd eq_refl)]. }
  rewrite Hc, Hd'. cbn [fst].
  split; [exact Hw|]. do 4 (split; [done|]). split; [apply focus_set_snapshot|]. split.
  - change (row_run p rd [OperatorEffect; ValueEffect] = (rd, [])). apply effects_at_rest; [|apply (Hdraw rd eq_refl)|right; apply (Hdraw rd eq_refl)].
    cbn. by rewrite focus_set_snapshot.
  - set (re := value_close id rd).
    assert (He : row_step p rd ValueCancel = (re, [])).
    { unfold FilterChip.row_step. cbn [FilterChip.possible handle_row].
      destruct (Hdraw rd eq_refl) as (_ & -> & ->). cbn [andb negb value_open rd put_focus with_value].
      fold re. rewrite settle_shown; [done|apply (Hdraw re eq_refl)|by left]. }
    rewrite He. cbn [fst]. split; [done|].
    change (row_run p re [OperatorEffect; ValueEffect] = (re, [])). apply effects_at_rest; [cbn; by rewrite focus_set_snapshot|apply (Hdraw re eq_refl)|by left].
Qed.
End Row.

(** ** The field picker *)
(** The value of a node the picker shows stands for its path, so a leaf that is
    committed selects its own field with that field's default condition. *)
Lemma picked_field_is_the_entry fields sig idx resolveOperators e :
  buildFilterIndex fields None sig = Some idx -> e ∈ fall idx ->
  Forall (lacks PATH_SEPARATOR) (e_path e) -> e_path e <> [""] ->
  onPick idx resolveOperators (joinFilterPath (e_path e)) =
    Some (e_path e, getDefaultFilterOperator (e_field e) (resolveOperators (e_field e))).
Proof.
  intros Hb He Hl Hne. pose proof (build_indexing _ _ _ Hb) as I. unfold onPick. cbv zeta.
  rewrite split_join_path; [|by destruct (ix_last _ I e He) as (p & -> & _); destruct p|done..].
  unfold getFilterField. rewrite (ix_byPath _ I), (mget_entries _ _ (ix_nodup _ I)) by done. done.
Qed.

(** *** Witnesses *)
Definition chip_operators (_ : FilterField) : list FilterOperator :=
  [mkOperator "is" "is" None None false; mkOperator "empty" "is empty" (Some ANone) None false].
Definition all_editors (_ : FilterField) (_ : FilterOperator) : bool := true.
(** A bar of one rule without a condition, and its row with the focus handed
    to the menu. *)
Definition chip_props (before : option (FilterQuery -> FilterChangeDetails -> option bool)) : Props :=
  mkProps [sample_field]
    (Some (mkQ 0 (mkGroup "root" CAnd [NRule (createFilterRule "r1" ["name"] "" VUndef None)])))
    None DEFAULT_FILTER_LABELS false false before.
Definition chip_row (p : Props) : FilterChip.Row :=
  let b := mount p None (mkFactory "f" 0) in
  mkRow (with_focus b (focus_set (b_focus b) (mkFocus (Some "r1") (Some SegOperator) true)))
    false false false false VUndef.
Notation chip_run := (row_run sample_index chip_operators all_editors "r1").

Lemma menu_offers_the_moves_witness :
  map d_id (destinations sample_panel "r1") = ["root"] /\
  forall d, d ∈ destinations sample_panel "r1" ->
    is_Some (moveFilterNodeTo sample_panel "r1" (d_id d) (Z.of_nat (d_size d))).
Proof.
  split; [reflexivity|]. intros d Hd.
  assert (Hdist : distinct_ids sample_panel) by (apply (bool_decide_unpack _); vm_compute; reflexivity).
  pose proof (menu_offers_the_moves sample_panel "r1" (NRule (sample_rule "r1"))
    (mkGroup "g" COr [NRule (sample_rule "r1")]) 0 Hdist eq_refl) as (_ & _ & _ & H & _).
  destruct (H d Hd) as (q' & _ & _ & Hq & _). exists q'. exact Hq.
Defined.

Lemma value_step_is_owed_witness :
  count sample_index chip_operators all_editors "r1" (handed_on sample_index chip_operators all_editors "r1")
    (chip_props None) (chip_row (chip_props None)) [OperatorEffect; OperatorChange false; PanelGone] <= 0.
Proof.
  exact (value_step_is_owed sample_index chip_operators all_editors "r1" (chip_props None)
    (chip_row (chip_props None)) [OperatorEffect; OperatorChange false; PanelGone] eq_refl).
Defined.

Lemma chosen_condition_opens_its_value_witness :
  let r1 := (chip_run (chip_props None) (chip_row (chip_props None))
    [OperatorEffect; OperatorPick (Some "is"); PanelGone; ValueEffect]).1 in
  r_operator <$> row_rule "r1" r1 = Some "is" /\ value_open r1 = true.
Proof.
  destruct (chosen_condition_opens_its_value sample_index chip_operators all_editors "r1" (chip_props None)
    (chip_row (chip_props None)) (createFilterRule "r1" ["name"] "" VUndef None) sample_field "is"
    (mkOperator "is" "is" None None false)) as (H1 & _ & _ & H2 & _);
    [|reflexivity|discriminate|reflexivity..|].
  - apply (bool_decide_unpack _). vm_compute. reflexivity.
  - split; [rewrite H1; reflexivity|exact H2].
Defined.

(** *** Findings *)

(** A condition refused by the bar's hook is handed on all the same: the value
    of a rule without one is not drawn, so nothing spends the flag, and the
    panel, which leaves focus alone while it stands, repairs none. *)
Lemma vetoed_condition_arms_a_step :
  let p := chip_props (Some refuse) in
  let r1 := (chip_run p (chip_row p)
    [OperatorEffect; OperatorPick (Some "is"); PanelGone; ValueEffect; OperatorEffect]).1 in
  r_operator <$> row_rule "r1" r1 = Some "" /\ value_open r1 = false /\
  snapshot (b_focus (row_bar r1)) = mkFocus (Some "r1") (Some SegValue) true /\
  restoreFocus sample_index chip_operators no_text false true (b_rows (row_bar r1))
    (current (row_bar r1)) true true (snapshot (b_focus (row_bar r1))) = None.
Proof. by vm_compute. Qed.
